(* ===== verification/_CoqProject ===== *)
-Q . S2P
Prelude.v
Text.v
Paths.v
Lexer.v
LexerFacts.v
Wrappers.v
WrappersFacts.v
EscapeFacts.v
Sed.v
SedFacts.v
Git.v
ReadOnly.v
FsCommand.v
Suggest.v
Command.v
Rule.v
RuleFacts.v
Engine.v
DomainFacts.v
DecideFiles.v
DecideExecute.v
Pipeline.v
AccessFacts.v
SuggestFacts.v
Protocol.v
Float.v
Edit.v
EditFacts.v
Records.v
Model.v
Broker.v
BrokerFacts.v
BrokerSerial.v
Gate.v
Batch.v
BatchFacts.v
WellFormed.v
Template.v
Compaction.v
CompactionFacts.v
TaskView.v
TaskViewFacts.v
Replay.v
ReplayFacts.v
Session.v
Resume.v
SessionFacts.v
SessionSteps.v
SessionReach.v
ResumeFacts.v
Log.v
LogFacts.v
Runs.v
Verify.v
VerifyFacts.v
FileTools.v
FileToolsFacts.v
Sse.v
Providers.v
ProvidersFacts.v
Retry.v
Rpc.v
RpcFacts.v
Config.v
ConfigFacts.v
Output.v
OutputFacts.v
Host.v
HostFacts.v
Checkpoint.v
Lsp.v
LspFacts.v
Encode.v
LoopGuard.v
Reminders.v
Request.v
Stop.v
Agent.v
AgentFacts.v
SessionRuns.v
