(* ===== verification/Prelude.v ===== *)
(** * Verification of the z-engine coding agent

    z-engine is a coding agent: a language model proposes tool calls, the
    engine runs them on the user's machine.  What may run without a question,
    what is asked and what is refused is decided by the crate
    [src/crates/z-engine-policy], a pure library (no I/O, no clock, no
    threads).  The engine [src/crates/z-engine-engine] puts every call of a
    model turn through a gate, asks the user through a broker where the policy
    says so, and runs the calls that remain as a batch.  The conversation is
    kept in memory and in an append-only log [src/crates/z-engine-store],
    from which a session is resumed or rewound; before it is sent to a model
    it is repaired and, when it grows too long, shortened
    [src/crates/z-engine-context].  The answer is streamed, retried and
    assembled by [src/crates/z-engine-llm]; checks of the project are selected
    and their records judged by [src/crates/z-engine-verify].  The tools that
    read and change files are in [src/crates/z-engine-tools] on top of
    [src/crates/z-engine-host]; MCP and language servers are reached over
    JSON-RPC ([src/crates/z-engine-integrations]); what is allowed and which
    model runs comes from layered settings ([src/crates/z-engine-config]).
    The host also keeps the output of commands, guards fetches of the web,
    starts shells in a sandbox and takes checkpoints of the code.

    This development models the policy crate completely, these parts of the
    engine and the other crates, up to the run of the main agent that ties
    them together, with the types of [src/crates/z-engine-protocol] they use,
    and proves what the rest of the agent relies on.

    ** The program's parts and how they interact

    A tool call reaches [Policy::decide] ([decide/pipeline.rs]) as a tool
    name, an [Action] and a [PermissionMode].  The pipeline asks, in order:
    does a deny rule match; does plan mode forbid the action; is this bypass
    mode; does an ask rule match; and otherwise the default of the action's
    kind: files ([decide/files.rs]), shell commands ([decide/execute.rs]) or
    anything else ([decide/other.rs]).  Rules are read from settings texts
    such as [Bash(cargo test)] ([rules/grammar.rs]) into values
    ([rules/rule.rs]) whose specifiers are command patterns, path patterns or
    domains.  Shell commands are lexed ([shell/lexer]), searched for commands
    they run indirectly ([shell/wrappers.rs]) and classified
    ([shell/read_only.rs], [shell/fs_command.rs]); the answer [Ask] may carry
    a suggested rule ([shell/suggest.rs]) that the user can grant for the
    session.

    In the engine, [run_batch] ([batch/execute.rs]) gates the calls one by one
    ([batch/gate.rs]: known tool, required parameters, [PreToolUse] hooks, the
    policy of the agent's scope, the tool-gate review), requests the approvals
    of the whole batch together, and runs what may run: calls that declare
    themselves safe next to their neighbours at the same time, every other
    call alone.  Approvals, questions and plans are kept by the broker
    ([broker/*.rs]) until the session actor resolves them
    ([session/control.rs]); resolving one may grant a session rule to the
    policy or change the mode, writes the session log ([session/journal.rs])
    and changes the status shown to the user ([session/status.rs]).

    A session ([session/state.rs]) holds the transcript, the working set a
    model sees, totals, todos, agents, checks and checkpoints.  Its operations
    append a record to the log and change the state in step with it;
    [replay.rs] of the store reads the log back, and [session/resume.rs]
    closes in it what a crash left open.  The working set is shortened by
    clearing old tool results, by a summary, or by a task view that hides
    exchanges a new task does not need ([compaction/*.rs] of the context
    crate, [run/compact.rs], [run/pressure.rs] and
    [decisions/uses/task_view/apply.rs] of the engine).

    A run of the main agent ([run/agent.rs]) is a loop of rounds: check the
    budget, prepare the request ([run/request.rs]: system prompt, tools,
    repaired history, cache breakpoints), mask what the user withheld, relieve
    the context, stream the answer ([run/stream.rs]), record it, and then
    either run its calls as a batch or stand at the stop boundary
    ([run/stop.rs]), where hooks, the user's queued notes, the verifier
    ([verify/modes.rs]) or a decision use may send the agent back to work.
    Meanwhile a loop guard ([decisions/uses/loop_guard/*.rs]) watches the
    answered calls of a turn: an agent that repeats itself is reminded, and
    after the reminders its next call asks the user.

    A file tool ([builtin/read.rs], [edit/flow.rs], [builtin/write.rs] of the
    tools) reads a file with bounds, remembers a stamp of what it showed in
    the session's tracker ([fs/tracker.rs] of the host), and changes a file
    only when its stamp still matches, holding a lock for the path; what an
    edit does to the content is [edit/engine.rs] with the fallback ladder of
    [edit/ladder.rs].  A command runs in a shell that the sandbox
    ([sandbox/*.rs] of the host) lets write to the project and a few other
    roots; its output is cut into lines, captured or kept by a background job
    ([process/*.rs]) and truncated for the model.  A fetch
    ([web/*.rs]) connects to public addresses of one site only.  Before a turn
    changes files, a checkpoint ([checkpoint/*.rs]) commits the tree to a
    shadow repository, from which it can be restored.  An MCP or language
    server is a process or a URL behind
    an [RpcClient] ([jsonrpc/*.rs]): requests of many tasks share one
    connection, a drain task takes the incoming messages to the waiters.
    Settings are read from files of rising priority ([loader.rs]), merged as
    raw TOML ([merge.rs]), changed one key at a time by the settings screens
    ([writer.rs]) and converted from the older format ([migrate/*.rs]).

    ** Files and the code they model

    The policy (paths below src/crates/z-engine-policy/src):

    - Prelude: results, boolean case analysis, list lemmas, hint databases.
    - Text: the [char] and [str] operations of the Rust standard library that
      the code uses.  A [char] is its scalar value (an [N]), a string is the
      list of its chars; byte lengths and byte escapes go through UTF-8
      explicitly.  Float: [f64], [Duration] and the printing of integers.
    - Paths: [paths.rs].  A path is the sequence [Path::components] yields on
      Unix.
    - Lexer, LexerFacts, EscapeFacts: [shell/syntax.rs], [shell/lexer/*.rs].
      The state [Lexer] is a record with the fields of the Rust struct; a
      method takes the record and returns its result with the record
      afterwards.
    - Wrappers, WrappersFacts: [shell/fields.rs], [shell/wrappers.rs],
      [shell/analysis.rs].  Sed, SedFacts: [shell/sed.rs],
      [shell/sed_script.rs].  Git: [shell/git.rs].  ReadOnly:
      [shell/operands.rs], [shell/read_only.rs].  FsCommand:
      [shell/location.rs], [shell/fs_command.rs].  Suggest:
      [shell/suggest.rs].
    - Command: [rules/command.rs], [rules/path_pattern.rs], and the interface
      of the third-party [globset] crate and of the platform, two classes
      whose instances are arguments of everything that uses them, with a small
      concrete instance for the examples.
    - Rule, RuleFacts, DomainFacts: [rules/domain.rs], [rules/rule.rs],
      [rules/grammar.rs] and [error.rs].
    - Engine: [action.rs], [rules/matching.rs], [engine.rs].  DecideFiles:
      [decide/files.rs].  DecideExecute, SuggestFacts: [decide/sandbox.rs],
      [decide/execute.rs].  Pipeline: [decide/pipeline.rs],
      [decide/other.rs].
    - Pipeline and AccessFacts: the properties of whole decisions.

    The engine (paths below src/crates/z-engine-engine/src):

    - Protocol, Records: the data of the protocol crate ([permission.rs],
      [interaction.rs], [content.rs], [usage.rs], [session.rs], [agents.rs],
      [verification.rs], [decisions.rs], [jobs.rs], [events.rs]) and the log
      records of the store ([record.rs]).
    - Broker: [broker/*.rs], [session/control.rs], [session/journal.rs] and
      [session/status.rs].  BrokerFacts: the step relation and its
      invariants.  BrokerSerial: schedules, operations run alone and the
      properties.
    - Gate: [batch/gate.rs], [batch/schema.rs], [batch/scope.rs],
      [settings/policy.rs], [decisions/seams/tool_gate.rs] and the outcome
      type of [hooks/outcome.rs].
    - Batch, BatchFacts: [batch/execute.rs], [batch/approval.rs],
      [batch/call.rs], [batch/report.rs], [batch/diagnose.rs], with the tool
      outcomes of [src/crates/z-engine-tools] and the content blocks of the
      protocol.
    - Session: [session/state.rs], [session/turn.rs], [session/prompt.rs],
      [session/checkpoint.rs], [session/title.rs], [session/snapshot.rs],
      [session/rewind.rs], [session/compaction.rs], [run/sink.rs],
      [run/usage.rs], [run/compact.rs], [run/pressure.rs], and the todo, agent
      and check updates.  Resume: [session/resume.rs], [session/open.rs].
      SessionFacts, SessionSteps, SessionReach: the relation between a session
      and its log, one lemma per operation, and the theorems on all reachable
      sessions.  ResumeFacts: the repair.
    - Stop: [verify/outcome.rs], [verify/claims.rs], [verify/modes.rs],
      [verify/record.rs], [verify/verdict.rs],
      [decisions/seams/check_select.rs], [run/stop.rs] and the steering notes
      of [run/reminders.rs], with their theorems.
    - Request: [run/request.rs], [settings/models.rs].
    - LoopGuard: [decisions/uses/loop_guard], files [steps.rs], [detect.rs],
      [watch.rs], [guard.rs], and [decisions/uses/digest.rs].
    - Agent: [run/agent.rs], [run/stream.rs], [run/budget.rs],
      [run/reminders.rs], [run/mutation.rs], [run/tally.rs],
      [batch/toolset.rs] and the masking of [decisions/seams/request.rs].
      AgentFacts: termination; what a run does to its session and writes for
      its turn.
    - Runs, SessionRuns: the properties on concrete sessions.

    The llm crate (src/crates/z-engine-llm/src) and the verify crate
    (src/crates/z-engine-verify/src):

    - Model: [types.rs], [error.rs], [accumulate.rs].  Sse: [sse.rs].
      Providers, ProvidersFacts: [transport.rs], [openai/stream.rs],
      [anthropic/stream.rs].  Retry: [retry.rs], [fallback.rs].
    - Verify, VerifyFacts: [spec.rs], [select.rs], [assess.rs], [narrow.rs],
      [discovery/merge.rs], [discovery/types.rs] and the constants of
      [discovery/scripts.rs].

    The context crate (src/crates/z-engine-context/src) and the store
    (src/crates/z-engine-store/src):

    - Reminders: [reminders.rs], [sections.rs], [environment.rs],
      [instructions.rs], [system.rs], [cache.rs] and the texts of
      [src/crates/z-engine-prompts/src/reminders.rs].
    - Template: [template.rs], [compaction/touch.rs], [tokens.rs] and the
      engine's [run/meter.rs].  WellFormed: [wellformed.rs].
    - Compaction, CompactionFacts: [compaction/summary.rs], [micro.rs],
      [ranked.rs], [keeps.rs].  TaskView, TaskViewFacts:
      [compaction/exchanges.rs], [task_view.rs].
    - Replay, ReplayFacts: [replay.rs].  Log, LogFacts: [append.rs],
      [read.rs] and the engine's [session/journal.rs] on bytes.

    The tools, the host, the integrations and the configuration (below
    src/crates):

    - Edit, EditFacts: [z-engine-tools/src/edit/engine.rs],
      [edit/ladder.rs], [text/numbering.rs].
    - FileTools, FileToolsFacts: [z-engine-host/src/fs/read.rs],
      [fs/tracker.rs] and [z-engine-tools/src], files [reading/text.rs],
      [edit/access.rs], [edit/flow.rs], [builtin/read.rs],
      [builtin/write.rs].
    - Output, OutputFacts: [z-engine-host/src/process], files [lines.rs],
      [capture.rs], [background/ring.rs], [background/job.rs], and
      [z-engine-tools/src/text/truncate.rs].
    - Host, HostFacts: [z-engine-host/src], files [error.rs],
      [web/guard.rs], [web/fetch.rs], [web/cache.rs], [fs/paths.rs],
      [sandbox/profile.rs], [sandbox/bubblewrap.rs], [sandbox/seatbelt.rs],
      [sandbox/wrap.rs] and the shell kinds of [process/shell.rs].
    - Checkpoint: [z-engine-host/src/checkpoint], files [exclude.rs],
      [shadow.rs], [restore.rs], [compare.rs].
    - Rpc, RpcFacts: [z-engine-integrations/src/error.rs] and
      [jsonrpc], files [framing.rs], [message.rs], [replies.rs],
      [dispatch.rs], [client.rs], [io.rs].
    - Lsp, LspFacts: [z-engine-integrations/src/lsp], files [position.rs],
      [uri.rs], [spec.rs], [routing.rs], [documents.rs], [diagnostics.rs],
      [progress.rs], [capabilities.rs], [convert.rs], [types.rs],
      [resolve.rs], [client.rs], [ops.rs], [manager.rs], and
      [mcp/naming.rs].
    - Encode: [z-engine-llm/src], files [openai/messages.rs],
      [openai/request.rs], [anthropic/messages.rs], [anthropic/request.rs],
      [wire.rs].
    - Config, ConfigFacts: [z-engine-config/src], files [merge.rs],
      [document.rs], [error.rs], [loader.rs], [writer.rs],
      [migrate/convert.rs], [migrate/import.rs] and the rule kinds of
      [settings/permissions.rs].

    A definition keeps the name of the function or method it translates; a
    loop is a Fixpoint named after the function with the suffix [_loop], a
    struct is a Record, an enum an Inductive type.  Mutable locals are
    arguments of the loop.  [&mut self] is state passing.  A closure that
    captures a variable it changes (the working directory of
    [is_common_fs_command]) is a function that returns the new value.

    The broker is called from several threads, which share it through
    mutexes.  An operation is therefore the list of its atomic sections
    ([Broker.Atom]): what one lock protects is one section, and running it
    ([Broker.run_atom]) may add sections to the same operation.
    [BrokerFacts.step] interleaves the sections of any number of operations,
    lets a waiter give up at any time and lets every file write succeed or
    fail; [BrokerFacts.reachable] is what a new session can become.  A batch
    is one function of its environment [Batch.Env]: how the tools, the user
    and the cancellation behave is an argument, so its theorems hold for all
    of it.  The gate of call [n] sees the session as it is by then, [ctx n].

    The operations of a session run one after the other
    ([SessionReach.session_step]); the sections of the broker may come between
    any two of them.  Identifiers and times of new messages are arguments
    ([stamp], [now]); new identifiers are assumed not to be in the log yet,
    which is what a ULID is for.  A write succeeds or fails as its argument
    says ([Broker.Io] for records; [Log.WriteIo] and [Log.OpenIo], down to the
    number of bytes written, for the file).  What the summarizer, the title
    model or a review answers, what a spill to disk gives and what settings
    say are arguments as well.

    A run waits often, and other tasks change the session meanwhile. Its waits
    are numbered ([Stop.Here]); [Stop.Outside] and [Agent.AgentWorld] say for
    every number what the others do to the session then and what the run gets
    from the machine: the model's stream, hooks, tools, checks, writes,
    clocks, identifiers, cancellation. That a run ends is proved for all of
    them.  What it writes is proved under [AgentFacts.apart]: other tasks append
    no message, and identifiers of new messages are new.  That it keeps the
    session needs [AgentFacts.steady] as well: other tasks take steps of the
    session, and leave the messages in memory alone while a request is prepared
    ([Agent.during_request]); bringing the full history back at that point is a
    finding, at any other it is covered. One place simplifies the order: what
    other tasks do during the waits of one relief of the context happens
    before it. The cost of a response and the seams of the decision models are
    arguments.

    Files are shared with other programs: [FileTools] cuts a tool call into
    the sections between which the calls of other agents run, and
    [FileTools.file_step] takes a write of another program ([ByOther]) at any of
    these points.  The hash of a content, the identity of a path and the
    similarity of two texts are classes.  [Host] asks the classes
    [Host.FileSystem] and [Host.WebUrl] what exists on disk and what the
    [url] crate reads; the answers of the network and of a resolver are
    arguments.  [Checkpoint] runs the commands of the class [Checkpoint.Git].
    What a pipe gives is any sequence of reads, and an operation on a
    background job is one section under its lock.  [LoopGuard.StdText] has
    the hash and the lower-casing of the standard library.  [Rpc] cuts a
    connection up in the same way: an atom is what one task does under the table's lock, and
    [RpcFacts] interleaves the atoms of any number of calls with the drain
    task, the arrival of messages and the end of the connection; the bytes of
    a stream come in reads of any size, and a read may fail.  JSON texts are
    the class [Rpc.JsonWire] ([Encode.JsonScalars] adds flags and floats), with
    the decoding of the answers of language servers in [Lsp.LspJson].  The syncs of one server are sections under its
    lock, between which files change ([LspFacts.run_sync]); what PATH, the
    server and the start of a process give are arguments.  Settings files are read as [Config.FileRead]
    arguments; TOML scalars and the reading of settings from a table are the
    classes [Config.TomlScalars] and [Config.SettingsSchema].

    ** What the theorems show

    - Runs.  [AgentFacts.run_pairs_calls]: whatever happens, the history a run
      leaves answers each of its calls once, but for a last response whose
      results could not be written.  [AgentFacts.run_keeps_session]:
      a run keeps the session and its log in step.
      [AgentFacts.run_terminates]: it ends, within [max_turns] responses.
      [Request.request_breakpoints]: what its requests hold.
    - Verdicts.  [VerifyFacts.assess_exact]: what a badge proves;
      [VerifyFacts.select_checks_exact] and [VerifyFacts.skip_checks_keeps]:
      which checks run.  [Stop.stop_verdict_backed]: no claim and no
      skipped check makes a turn verified, and strict mode insists.
      [Stop.stop_boundary_bounded]: every continuation is paid for.
    - Streams.  [Sse.sse_round_trip], [ProvidersFacts.stream_ends_once],
      [ProvidersFacts.chat_calls_whole] and [Model.response_assembled]:
      from bytes to the message, nothing is lost, doubled or cut wrong.
      [Retry.send_with_retry_bounded] and
      [Retry.fallback_content_of_one_response]: failures.
    - Requests.  [Encode.chat_requests_pair_calls] and
      [Encode.anthropic_requests_accepted]: a repaired history stays, in the
      body sent to either kind of provider, one that the provider accepts.
    - Decisions.  [Pipeline.decide_denies_exactly]: a call is denied exactly
      by a matching deny rule or by plan mode.
      [Pipeline.decide_allow_order]: an allowed call passed every earlier
      step.  [Pipeline.session_rules_only_allow]: granting rules never
      takes a permission back and never lifts a denial.
      [AccessFacts.configured_deny_holds]: from the settings text to the
      answer, a deny rule holds in every mode.
    - What an allowed call can touch.  [AccessFacts.allowed_writes_contained]
      for edits, [AccessFacts.allowed_commands_justified] and
      [AccessFacts.sandboxed_writes_confined] for shell commands,
      [FsCommand.fs_commands_contained] for accept-edits mode,
      [ReadOnly.read_only_sound] and [SedFacts.script_safe_sound] for
      commands taken to change nothing.
    - Rules cannot be dodged.  [AccessFacts.bash_rules_see_through],
      [AccessFacts.allow_pattern_denies],
      [WrappersFacts.executed_commands_exact],
      [DomainFacts.fetch_rule_host], [DomainFacts.domain_matches_subdomains].
    - Round trips.  [RuleFacts.rule_display_parses],
      [Suggest.quoted_words_lex_back], [SuggestFacts.suggested_rule_covers]
      and [Paths.normalize_canonical_form].
    - The lexers.  [LexerFacts.lex_terminates], [LexerFacts.lex_fails_closed],
      [EscapeFacts.escape_values_fit], [EscapeFacts.expansion_readings_agree],
      [SedFacts.script_scan_terminates] and [Paths.escapes_start_exact].

    - The gate and the batch.  [BatchFacts.calls_run_only_if_permitted]: a
      call that runs passed every check, and neither a hook nor a review nor
      the user lifts a denial of the policy.
      [BatchFacts.batch_answers_every_call] and
      [BatchFacts.batch_runs_in_order]: one result for each call, in order,
      and only safe calls run together.
    - The broker.  [BrokerSerial.interactions_accounted]: no request is lost
      or settled twice.  [BrokerSerial.replies_given_by_user]: an agent acts
      only on an answer the user gave to its request.
      [BrokerSerial.rules_granted_before_reply]: a granted rule is in force
      before the agent goes on.  [BrokerSerial.serial_operations_settle]:
      operations one at a time keep the status right;
      [BrokerSerial.overlapping_refresh_stale]: overlapping ones need not.

    - Histories.  [WellFormed.well_formed_shape] and
      [WellFormed.well_formed_keeps]: a repaired history is what
      providers accept and loses nothing but unmatched results.
      [CompactionFacts.plan_summary_splits],
      [CompactionFacts.microcompact_clears], [TaskViewFacts.task_view_keeps] and
      [TaskViewFacts.compaction_keeps_shape]: the three ways of shortening.
    - Sessions and their logs.  [SessionReach.session_mirrors_log]: the state
      in memory refines a replay of the log.
      [SessionReach.working_set_distinct]: no message is shown twice.
      [ReplayFacts.rewind_restores]: a rewind undoes what came after it.
      [ResumeFacts.resume_closes]: a resumed session has nothing left open.
      [LogFacts.log_keeps_acknowledged]: no crash or failed write loses a
      record that was acknowledged; [LogFacts.retry_stores_twice]: one may be
      stored twice.

    - Files.  [EditFacts.apply_edits_exact]: an edit changes the chosen text
      (the only occurrence, but for those that overlap it) and nothing else, or
      is refused.  [EditFacts.edits_keep_line_endings]: a
      file with CRLF endings keeps them.
      [FileToolsFacts.edits_lose_no_update]: of calls that change one file,
      whatever their order, none writes over what another call wrote.
    - Output.  [OutputFacts.pumped_lines_exact]: the lines of a pipe hold
      its bytes.  [OutputFacts.capture_keeps_ends],
      [OutputFacts.truncation_exact]: what is cut is the middle, and it is
      counted.  [OutputFacts.job_reads_account]: of a background job's
      output each reader gets every byte once or is told how many it missed.
    - Sandbox and web.  [HostFacts.sandbox_writes_exact] and
      [HostFacts.protected_files_stay_read_only]: where a sandboxed command
      can write.  [HostFacts.public_addresses_exact] and
      [HostFacts.fetch_stays_public]: no connection to a private address, no
      redirect to another site.  [HostFacts.cached_pages_belong]: a cached
      page was fetched for this URL and is served to nobody with less access.
    - Checkpoints.  [Checkpoint.restore_exact]: what a restore writes,
      deletes and leaves alone.  [Checkpoint.exclusions_recorded]: the files a
      snapshot left out for their size are read back from its commit.
    - The loop guard.  [LoopGuard.findings_true]: what it reports did happen.
      [LoopGuard.guard_keeps_rhythm]: how often it reminds, and when it asks.
    - Connections.  [RpcFacts.frames_round_trip]: written frames are read
      back however the stream is cut.  [RpcFacts.messages_read_back]: so are
      messages.  [RpcFacts.requests_accounted]: a waiting request is in the
      table, an ended one is not.  [RpcFacts.results_are_answers]: a result
      was sent by the server for this very request.
    - Language servers.  [LspFacts.server_copy_in_step]: the server's copies
      follow what the client read, by the protocol, for every file of which no
      notification of a text was lost.
      [LspFacts.positions_round_trip], [LspFacts.uri_round_trip],
      [LspFacts.locations_shown_exactly] and
      [LspFacts.rename_preview_exact]: places and edits mean for the model
      what they mean for the server.  [LspFacts.route_exact],
      [LspFacts.restarts_bounded]: which server answers, and how often one is
      started.  [LspFacts.tool_names_valid]: names of MCP tools.
    - Settings.  [ConfigFacts.layers_merge_by_rule]: what layers merge to at a
      path, so that no layer's deny rules are lost.
      [ConfigFacts.loading_applies_layers]: which layers a load accepts, and
      what it reports of each of the others.  [ConfigFacts.edits_change_one_key]: an edit
      leaves every other key alone and writes only what loads.
      [ConfigFacts.converted_rule_keeps_meaning]: rules of the older format.

    Four lemmas of the policy record where the code does not do what it means to:
    [SuggestFacts.suggested_keyword_rule] (a quoted reserved word is suggested
    as a rule for the command after it),
    [FsCommand.fs_attached_option_escapes] and [FsCommand.fs_trailing_continuation]
    (operands that the accept-edits check does not see) and
    [SedFacts.bracket_caret_delimiter].  The theorems next to them state the
    contract that does hold: [fs_commands_contained] speaks about the operands
    of the text that was judged.  In the engine, [overlapping_refresh_stale]
    records that the count of pending requests and the status are guarded by
    different locks, [retry_stores_twice] that a record may be read back
    twice, and [ResumeFacts.cleared_effort_returns] that an effort the user
    cleared comes back on resume.  In the llm crate,
    [Retry.signature_survives_fallback] records that a signature of
    reasoning does not count as content, so a response that fails after one is
    replayed although the consumer keeps the signature.  In a run,
    [AgentFacts.screen_overwrites_restored] records that screening a request may
    write over a history that the user brought back meanwhile.  In the tools,
    [EditFacts.overlapping_match_accepted] records that a text with
    overlapping occurrences counts as unique, and
    [FileToolsFacts.read_stamps_unseen_content] that a read stamps the content
    the file has after it was shown.  In the host,
    [OutputFacts.char_split_at_limit] records that a char can be cut in two
    where a line reaches its limit, and [Checkpoint.ignored_file_deleted] that
    a restore deletes a file that was ignored at its target and no longer is.
    [LoopGuard.repeats_fall_silent] records that the window of the loop guard
    makes it silent about a call repeated more often.  Of language servers,
    [LspFacts.stale_sync] records that a sync reads its file before it takes
    its turn, [LspFacts.lost_sync_unnoticed] that a text whose notification was
    not written counts as told, [LspFacts.old_report_turns_fresh] that a report may be called
    fresh without news from the server, and [LspFacts.signed_escape_accepted]
    that an escape with a sign is taken for a byte.

    ** Fuel and bounds

    - The lexer's loops call one another and re-lex substitutions, so they run
      on fuel.  [lex] uses [lex_fuel input], two units per char and two more;
      every call either consumes a char or belongs to one that did.
      [lex_terminates] proves that this is enough for every input, so the
      fuel is no restriction.  [MAX_LEN] (bytes) and [MAX_DEPTH] (nesting) are
      limits of the code and are modelled as such.
    - The [sed] scanner runs on one unit per char and one more;
      [script_scan_terminates] proves it enough.
    - The candidate search of Wrappers needs no fuel of its own: its budget is
      the code's [MAX_CANDIDATES], and the flag the code returns when the
      budget runs out is part of the theorem.
    - [Broker.run_op] runs an operation alone to a depth of 6.  A section
      only adds sections of a lower rank, the ranks are at most 4
      ([BrokerSerial.run_atom_ranked]), so the depth is enough:
      [serial_operations_settle] says that nothing of the operation is left.
    - [Batch.execute_loop] has the number of calls as its fuel; each round
      moves past at least one call, and [batch_answers_every_call] covers
      every call.
    - [WellFormed.answer_loop] has two rounds for each message: a round
      either moves on or inserts the message it then moves past.
      [Template.render_loop] and [Template.strip_loop] have one unit per char and
      one more; [Log.last_line_start_loop] one unit per byte and one more,
      and each round moves back by at least a byte.
    - [Agent.run_rounds] has a unit of fuel for each round;
      [run_terminates] proves [max_turns] and one more enough.
      The retry loop has the answers of the network as its argument, and
      [send_with_retry_bounded] says how many it needs.
    - Numbers in retry headers and costs are IEEE doubles, computed exactly
      ([SpecFloat]) with the conversions the standard library makes.
    - [Rpc.line_frame_loop] and [Rpc.header_loop] have one unit for each byte
      left and one more: a round consumes at least a byte or ends.
    - [Output.newline_loop] and [Output.overlong_loop] have one unit for each
      pending byte, each round taking at least one; [Output.shed_loop] two for
      each piece it holds.  [Host.fetch_loop] has the code's [MAX_REDIRECTS]
      and one more as its rounds.  [Checkpoint.remove_dirs] has one unit for
      each char of the path, [Checkpoint.batches] one for each path.
    - All other recursion is structural.
    - [char] arithmetic in escapes is bounded by [escape_values_fit]; lengths
      and counters elsewhere are bounded by the input and kept unbounded.

    ** What is not modelled

    Glob matching and [MAIN_SEPARATOR] conventions are parameters ([Globset],
    [Platform]); paths have Unix syntax.  JSON values are the third-party
    [serde_json::Value], used through its accessors (the class
    [Protocol.Json]).  What programs such as [cp], [git] or [sed] do with their
    arguments is outside the repository: the theorems state what the policy
    checked, not what a program does.

    [serde_json] on records is the class [Log.Serde]; the theorems on the file
    assume [LogFacts.encodes]: an encoded record is one line, decodes to
    itself, and no proper prefix of it is complete JSON.

    The parser of [serde_json] is the class [Model.JsonText], with no law.

    Of the engine, subagents and their runs, the queue of the session actor,
    the model-assisted decisions other than the loop guard, the running of hook
    commands and the progress and tool-card events of a batch are left out.
    Of the context crate, the repository map, the text sent to the summarizer
    and the words of a request that look like paths (they need Unicode tables)
    are left out; of the store, the meta file, listings and the import of
    older sessions; of the verify crate, discovery on disk, the processes and
    the parsers of test output; of the llm crate, HTTP, headers and the
    model catalog.  Of the tools, the registry and the builtin tools
    other than those on files are left out; of the integrations, the clients,
    settings and catalogs of MCP servers, hover texts and processes of
    language servers and the write queue of a connection; of the configuration, the settings structs with their derived
    decoding, the clamping of values, credentials, extensions and features;
    of the host, starting processes and ending their trees, the text of a page,
    web search, the choice of a sandbox and a shell on disk, atomic writes, the
    [git] commands themselves, what a failed restore leaves and the searches
    in files.  I/O, serde
    encodings, operating-system services and model providers are left out. *)

From stdpp Require Export numbers list.

(** * Scopes, hint databases and automation shared by every file *)

Declare Scope zeng_scope.
Delimit Scope zeng_scope with zeng.

#[global] Arguments N.eqb : simpl never.
#[global] Arguments N.leb : simpl never.
#[global] Arguments N.ltb : simpl never.

Create HintDb zeng discriminated.
Create Rewrite HintDb zeng.

(** Case analysis on the boolean test a definition branches on, keeping the
    equation. *)
Ltac case_if :=
  match goal with
  | |- context [if ?b then _ else _] =>
      lazymatch b with
      | context [if _ then _ else _] => fail
      | _ => destruct b eqn:?
      end
  end.

Ltac case_if_in H :=
  match type of H with
  | context [if ?b then _ else _] =>
      lazymatch b with
      | context [if _ then _ else _] => fail
      | _ => destruct b eqn:?
      end
  end.

(** Splits boolean conjunctions, disjunctions and negations in hypotheses. *)
Ltac bool_hyps :=
  repeat match goal with
  | H : (_ && _)%bool = true |- _ => apply andb_prop in H as [? ?]
  | H : (_ || _)%bool = false |- _ => apply orb_false_elim in H as [? ?]
  | H : negb _ = true |- _ => apply negb_true_iff in H
  | H : negb _ = false |- _ => apply negb_false_iff in H
  | H : (_ || _)%bool = true |- _ => apply orb_prop in H as [?|?]
  | H : (_ =? _)%N = true |- _ => apply N.eqb_eq in H
  | H : (_ =? _)%N = false |- _ => apply N.eqb_neq in H
  end.

(** * Results *)

(** [Result<A, E>]. *)
Inductive result (E A : Type) :=
| Ok (a : A)
| Err (e : E).
Arguments Ok {E A} _.
Arguments Err {E A} _.

Definition result_bind {E A B} (r : result E A) (f : A -> result E B) : result E B :=
  match r with Ok a => f a | Err e => Err e end.

Definition map_err {E F A} (f : E -> F) (r : result E A) : result F A :=
  match r with Ok a => Ok a | Err e => Err (f e) end.

(** [Option::transpose] after [Option::map]. *)
Definition transpose_map {E A B} (f : A -> result E B) (o : option A) : result E (option B) :=
  match o with
  | None => Ok None
  | Some a => match f a with Ok b => Ok (Some b) | Err e => Err e end
  end.

(** [Result::ok]. *)
Definition result_ok {E A} (r : result E A) : option A :=
  match r with Ok a => Some a | Err _ => None end.

Notation "'let?' x := r 'in' k" := (result_bind r (fun x => k))
  (at level 10, x pattern, r at level 100, k at level 200) : zeng_scope.
Open Scope zeng_scope.

Lemma result_bind_Ok {E A B} (r : result E A) (f : A -> result E B) b :
  result_bind r f = Ok b <-> exists a, r = Ok a /\ f a = Ok b.
Proof.
  destruct r as [a|e]; simpl.
  - split; [eauto|]. by intros (a' & [= ->] & ?).
  - split; [done|]. by intros (a' & ? & _).
Qed.

(** * Lists *)

(** [Vec::iter().take_while(p)] and the rest. *)
Fixpoint take_while {A} (p : A -> bool) (l : list A) : list A :=
  match l with
  | [] => []
  | x :: l' => if p x then x :: take_while p l' else []
  end.

Fixpoint drop_while {A} (p : A -> bool) (l : list A) : list A :=
  match l with
  | [] => []
  | x :: l' => if p x then drop_while p l' else x :: l'
  end.

(** [slice.starts_with(prefix)] for a decided element equality. *)
Fixpoint list_prefix_by {A} (eqb : A -> A -> bool) (p l : list A) : bool :=
  match p, l with
  | [], _ => true
  | x :: p', y :: l' => eqb x y && list_prefix_by eqb p' l'
  | _ :: _, [] => false
  end.

(** [Iterator::find_map]. *)
Fixpoint find_map {A B} (f : A -> option B) (l : list A) : option B :=
  match l with
  | [] => None
  | x :: l' => match f x with Some y => Some y | None => find_map f l' end
  end.

Lemma take_while_drop_while {A} (p : A -> bool) (l : list A) :
  take_while p l ++ drop_while p l = l.
Proof. induction l as [|x l IH]; simpl; [done|]. destruct (p x); simpl; congruence. Qed.

Lemma take_while_all {A} (p : A -> bool) (l : list A) :
  forallb p (take_while p l) = true.
Proof. induction l as [|x l IH]; simpl; [done|]. destruct (p x) eqn:E; simpl; [by rewrite E|done]. Qed.

Lemma drop_while_head {A} (p : A -> bool) (l : list A) :
  match drop_while p l with [] => True | x :: _ => p x = false end.
Proof. induction l as [|x l IH]; simpl; [done|]. by destruct (p x) eqn:E. Qed.

Lemma drop_while_idem {A} (p : A -> bool) (l : list A) :
  drop_while p (drop_while p l) = drop_while p l.
Proof.
  pose proof (drop_while_head p l) as H.
  destruct (drop_while p l) as [|x l']; simpl in *; [done|by rewrite H].
Qed.

Lemma take_while_id {A} (p : A -> bool) (l : list A) :
  forallb p l = true -> take_while p l = l.
Proof. induction l as [|x l IH]; simpl; [done|]. intros [-> H]%andb_prop. by rewrite IH. Qed.

Lemma drop_while_id {A} (p : A -> bool) (l : list A) :
  match l with [] => True | x :: _ => p x = false end -> drop_while p l = l.
Proof. destruct l; simpl; [done|]. by intros ->. Qed.

Lemma existsb_false_In {A} (p : A -> bool) (l : list A) x :
  existsb p l = false -> In x l -> p x = false.
Proof.
  intros H Hin. destruct (p x) eqn:E; [|done].
  exfalso. assert (existsb p l = true) by (apply existsb_exists; eauto). congruence.
Qed.

Lemma forallb_In {A} (p : A -> bool) (l : list A) x :
  forallb p l = true -> In x l -> p x = true.
Proof. intros H Hin. rewrite forallb_forall in H. auto. Qed.

Lemma forallb_app_iff {A} (p : A -> bool) (l k : list A) :
  forallb p (l ++ k) = forallb p l && forallb p k.
Proof. induction l as [|x l IH]; simpl; [done|]. by rewrite IH, andb_assoc. Qed.

Lemma find_map_Some {A B} (f : A -> option B) (l : list A) y :
  find_map f l = Some y -> exists x, In x l /\ f x = Some y.
Proof.
  induction l as [|x l IH]; simpl; [done|].
  destruct (f x) eqn:E; [intros [= ->]; eauto|]. intros (z & ? & ?)%IH; eauto.
Qed.

Lemma find_In {A} (p : A -> bool) (l : list A) x :
  List.find p l = Some x -> In x l /\ p x = true.
Proof. apply find_some. Qed.

(** A longer list finds a witness at least as often. *)
Lemma find_app_is_Some {A} (p : A -> bool) (l k : list A) :
  is_Some (List.find p l) -> is_Some (List.find p (l ++ k)).
Proof.
  induction l as [|x l IH]; simpl; [by intros [? ?]|].
  destruct (p x); [eauto|done].
Qed.

Lemma existsb_app_iff {A} (p : A -> bool) (l k : list A) :
  existsb p (l ++ k) = existsb p l || existsb p k.
Proof. apply existsb_app. Qed.

#[export] Hint Rewrite @take_while_drop_while @drop_while_idem @forallb_app_iff : zeng.
#[export] Hint Resolve take_while_all : zeng.

Lemma forallb_imp {A} (p q : A -> bool) l :
  (forall x, p x = true -> q x = true) -> forallb p l = true -> forallb q l = true.
Proof. rewrite !forallb_forall. auto. Qed.
