(* ===== verification/Text.v ===== *)
(** The [char] and [str] operations of the Rust standard library that the code uses, with their lemmas. *)

From Stdlib Require Import Ascii String.
From S2P Require Export Prelude.

Export String.StringSyntax Ascii.AsciiSyntax.

Local Open Scope N_scope.

Abbreviation char := N (only parsing).
Abbreviation text := (list N) (only parsing).

(** An ASCII character literal and an ASCII string literal. *)
Definition chr (a : ascii) : char := N_of_ascii a.
Arguments chr _%_char : simpl never.

Definition str (s : string) : text := map N_of_ascii (list_ascii_of_string s).
Arguments str _%_string : simpl never.

Definition NEWLINE : char := 10.
Definition TAB : char := 9.

(** * Character classes *)

Definition in_range (lo hi c : N) : bool := (lo <=? c) && (c <=? hi).

Definition is_ascii_digit (c : char) : bool := in_range 48 57 c.
Definition is_ascii_upper (c : char) : bool := in_range 65 90 c.
Definition is_ascii_lower (c : char) : bool := in_range 97 122 c.
Definition is_ascii_alphabetic (c : char) : bool := is_ascii_upper c || is_ascii_lower c.
Definition is_ascii_alphanumeric (c : char) : bool := is_ascii_alphabetic c || is_ascii_digit c.

(** [char::is_whitespace]: the Unicode property White_Space. *)
Definition is_whitespace (c : char) : bool :=
  in_range 9 13 c || (c =? 32) || (c =? 133) || (c =? 160) || (c =? 5760)
  || in_range 8192 8202 c || (c =? 8232) || (c =? 8233) || (c =? 8239)
  || (c =? 8287) || (c =? 12288).

(** [char::from_u32]: surrogates and values past U+10FFFF are not chars. *)
Definition char_from_u32 (v : N) : option char :=
  if in_range 0 55295 v || in_range 57344 1114111 v then Some v else None.

(** [char::to_digit(radix)], for the radixes 8, 10 and 16. *)
Definition to_digit (radix : N) (c : char) : option N :=
  let d :=
    if is_ascii_digit c then Some (c - 48)
    else if is_ascii_lower c then Some (c - 87)
    else if is_ascii_upper c then Some (c - 55)
    else None in
  match d with
  | Some v => if v <? radix then Some v else None
  | None => None
  end.

Definition lower_char (c : char) : char := if is_ascii_upper c then c + 32 else c.

(** [char::len_utf8]. *)
Definition utf8_len (c : char) : N :=
  if c <? 128 then 1 else if c <? 2048 then 2 else if c <? 65536 then 3 else 4.

(** * Strings *)

(** [str::len]. *)
Fixpoint blen (t : text) : N :=
  match t with
  | [] => 0
  | c :: t' => utf8_len c + blen t'
  end.

Fixpoint teqb (a b : text) : bool :=
  match a, b with
  | [], [] => true
  | x :: a', y :: b' => (x =? y) && teqb a' b'
  | _, _ => false
  end.

Definition is_empty {A} (l : list A) : bool := match l with [] => true | _ => false end.

(** [list.contains(&t)] for a constant list of strings. *)
Definition mem (t : text) (l : list text) : bool := existsb (teqb t) l.

Definition contains_char (c : char) (t : text) : bool := existsb (N.eqb c) t.

(** ["..".contains(c)] for a literal set of chars. *)
Definition one_of (s : string) (c : char) : bool := contains_char c (str s).
Arguments one_of _%_string _.

Fixpoint starts_with (p t : text) : bool :=
  match p, t with
  | [], _ => true
  | x :: p', y :: t' => (x =? y) && starts_with p' t'
  | _ :: _, [] => false
  end.

Fixpoint strip_prefix (p t : text) : option text :=
  match p, t with
  | [], _ => Some t
  | x :: p', y :: t' => if x =? y then strip_prefix p' t' else None
  | _ :: _, [] => None
  end.

Definition ends_with (s t : text) : bool := starts_with (reverse s) (reverse t).

Definition strip_suffix (s t : text) : option text :=
  reverse <$> strip_prefix (reverse s) (reverse t).

(** [t.split_once(sep)] at the first occurrence of a non-empty separator. *)
Fixpoint split_once (sep t : text) : option (text * text) :=
  match strip_prefix sep t with
  | Some rest => Some ([], rest)
  | None =>
      match t with
      | [] => None
      | c :: t' =>
          match split_once sep t' with
          | Some (a, b) => Some (c :: a, b)
          | None => None
          end
      end
  end.

Definition contains_str (sub t : text) : bool :=
  match split_once sub t with Some _ => true | None => is_empty sub end.

(** [t.split(c)]: always at least one piece. *)
Fixpoint split_on (c : char) (t : text) : list text :=
  match t with
  | [] => [[]]
  | x :: t' =>
      if x =? c then [] :: split_on c t'
      else match split_on c t' with
           | piece :: rest => (x :: piece) :: rest
           | [] => [[x]]
           end
  end.

(** [t.rsplit(c).next()]: what follows the last [c]. *)
Definition after_last (c : char) (t : text) : text :=
  reverse (take_while (fun x => negb (x =? c)) (reverse t)).

(** [t.split(c).next()]: what precedes the first [c]. *)
Definition before_first (c : char) (t : text) : text :=
  take_while (fun x => negb (x =? c)) t.

Definition trim_start_by (p : char -> bool) (t : text) : text := drop_while p t.
Definition trim_end_by (p : char -> bool) (t : text) : text := reverse (drop_while p (reverse t)).
Definition trim_by (p : char -> bool) (t : text) : text := trim_end_by p (trim_start_by p t).

Definition trim (t : text) : text := trim_by is_whitespace t.
Definition trim_end (t : text) : text := trim_end_by is_whitespace t.

(** [t.split_whitespace()]: the non-empty runs between whitespace. *)
Fixpoint split_whitespace (t : text) : list text :=
  match t with
  | [] => []
  | c :: t =>
      if is_whitespace c then split_whitespace t
      else match t with
           | d :: _ =>
               if is_whitespace d then [c] :: split_whitespace t
               else match split_whitespace t with
                    | piece :: rest => (c :: piece) :: rest
                    | [] => [[c]]
                    end
           | [] => [[c]]
           end
  end.

Definition to_ascii_lowercase (t : text) : text := map lower_char t.
Definition eq_ignore_ascii_case (a b : text) : bool :=
  teqb (to_ascii_lowercase a) (to_ascii_lowercase b).

Definition replace_char (c : char) (by_ : text) (t : text) : text :=
  flat_map (fun x => if x =? c then by_ else [x]) t.

(** [texts.join(sep)]. *)
Fixpoint join (sep : text) (ts : list text) : text :=
  match ts with
  | [] => []
  | [t] => t
  | t :: ts' => t ++ sep ++ join sep ts'
  end.

(** The decimal digits of a [usize], as [format!] prints it. *)
Fixpoint digits_aux (fuel : nat) (n : N) (acc : text) : text :=
  match fuel with
  | O => acc
  | S f =>
      let acc' := (48 + n mod 10) :: acc in
      if n / 10 =? 0 then acc' else digits_aux f (n / 10) acc'
  end.
Definition show_N (n : N) : text := digits_aux (S (N.to_nat (N.size n))) n [].

(** [str::lines] *)
Fixpoint ended_lines (pieces : list text) : list text :=
  match pieces with
  | [] => []
  | [rest] => if is_empty rest then [] else [rest]
  | piece :: pieces => default piece (strip_suffix [13%N] piece) :: ended_lines pieces
  end.

Definition lines (t : text) : list text := ended_lines (split_on NEWLINE t).

(** [t.split_inclusive(NEWLINE)]: the lines with their ends. *)
Fixpoint split_inclusive (t : text) : list text :=
  match t with
  | [] => []
  | c :: t' =>
      if c =? NEWLINE then [c] :: split_inclusive t'
      else match split_inclusive t' with
           | piece :: rest => (c :: piece) :: rest
           | [] => [[c]]
           end
  end.

(** [t.split(sep)] for a text that is not empty: what lies between its
    occurrences, from the left, without overlaps. *)
Fixpoint split_str_loop (fuel : nat) (sep t : text) : list text :=
  match fuel with
  | O => [t]
  | S fuel =>
      match split_once sep t with
      | Some (before, after) => before :: split_str_loop fuel sep after
      | None => [t]
      end
  end.

Definition split_str (sep t : text) : list text := split_str_loop (length t) sep t.

(** [t.matches(sep).count()] *)
Definition occurrences (sep t : text) : nat := pred (length (split_str sep t)).

(** [t.replace(old, new)], for an [old] that is not empty. *)
Definition replace_text (old new t : text) : text :=
  if is_empty old then t else join new (split_str old t).

(** The order of strings by their bytes, which in UTF-8 is the one by chars. *)
Fixpoint text_lt (a b : text) : bool :=
  match a, b with
  | _, [] => false
  | [], _ => true
  | x :: a, y :: b => (x <? y) || ((x =? y) && text_lt a b)
  end.

(** Replaces literals by the code points they stand for. *)
Ltac expand_literals :=
  repeat match goal with
  | |- context [str ?s] => let e := eval vm_compute in (str s) in change (str s) with e
  | |- context [chr ?a] => let e := eval vm_compute in (chr a) in change (chr a) with e
  | H : context [str ?s] |- _ => let e := eval vm_compute in (str s) in change (str s) with e in H
  | H : context [chr ?a] |- _ => let e := eval vm_compute in (chr a) in change (chr a) with e in H
  end.

(** Turns [one_of ".." c] into a disjunction of comparisons. *)
Ltac expand_sets :=
  unfold one_of, contains_char in *; expand_literals; cbn [existsb] in *.

(** * Facts *)

Lemma teqb_spec a b : reflect (a = b) (teqb a b).
Proof.
  revert b; induction a as [|x a IH]; intros [|y b]; simpl; try (constructor; congruence).
  destruct (N.eqb_spec x y) as [->|]; simpl; [|constructor; congruence].
  destruct (IH b) as [->|]; constructor; congruence.
Qed.

Lemma teqb_refl a : teqb a a = true.
Proof. by destruct (teqb_spec a a). Qed.

Lemma teqb_eq a b : teqb a b = true <-> a = b.
Proof. destruct (teqb_spec a b); intuition congruence. Qed.

Lemma teqb_neq a b : teqb a b = false <-> a <> b.
Proof. destruct (teqb_spec a b); intuition congruence. Qed.

Lemma teqb_sym a b : teqb a b = teqb b a.
Proof. destruct (teqb_spec a b), (teqb_spec b a); congruence. Qed.

Lemma mem_spec t l : mem t l = true <-> In t l.
Proof.
  unfold mem. rewrite existsb_exists. split.
  - intros (x & Hx & ->%teqb_eq). done.
  - intros H. exists t. split; [done|apply teqb_refl].
Qed.

Lemma contains_char_spec c t : contains_char c t = true <-> In c t.
Proof.
  unfold contains_char. rewrite existsb_exists. split.
  - intros (x & Hx & ->%N.eqb_eq). done.
  - intros H. exists c. split; [done|apply N.eqb_refl].
Qed.

Lemma contains_char_false c t : contains_char c t = false <-> ~ In c t.
Proof. rewrite <- contains_char_spec. destruct (contains_char c t); intuition congruence. Qed.

Lemma starts_with_spec p t : starts_with p t = true <-> exists r, t = p ++ r.
Proof.
  revert t; induction p as [|x p IH]; intros [|y t]; simpl.
  - split; eauto.
  - split; eauto.
  - split; [done|]. by intros (r & ?).
  - rewrite andb_true_iff, N.eqb_eq, IH. split.
    + intros [-> [r ->]]. eauto.
    + intros (r & [= -> ->]). eauto.
Qed.

Lemma strip_prefix_Some p t r : strip_prefix p t = Some r <-> t = p ++ r.
Proof.
  revert t; induction p as [|x p IH]; intros [|y t]; simpl; try (split; congruence).
  destruct (N.eqb_spec x y) as [->|Hne].
  - rewrite IH. split; congruence.
  - split; congruence.
Qed.

Lemma strip_prefix_app p t : strip_prefix p (p ++ t) = Some t.
Proof. by apply strip_prefix_Some. Qed.

Lemma strip_prefix_starts p t : starts_with p t = match strip_prefix p t with Some _ => true | None => false end.
Proof.
  revert t; induction p as [|x p IH]; intros [|y t]; simpl; try done.
  destruct (x =? y); simpl; [apply IH|done].
Qed.

Lemma strip_suffix_Some s t r : strip_suffix s t = Some r <-> t = r ++ s.
Proof.
  unfold strip_suffix. rewrite fmap_Some. split.
  - intros (x & Hx%strip_prefix_Some & ->).
    rewrite <- (reverse_involutive t), Hx, reverse_app, reverse_involutive. done.
  - intros ->. exists (reverse r). rewrite reverse_app, strip_prefix_app, reverse_involutive. done.
Qed.

Lemma strip_suffix_app s t : strip_suffix s (t ++ s) = Some t.
Proof. by apply strip_suffix_Some. Qed.

Lemma ends_with_spec s t : ends_with s t = true <-> exists r, t = r ++ s.
Proof.
  unfold ends_with. rewrite starts_with_spec. split.
  - intros (r & Hr). exists (reverse r).
    rewrite <- (reverse_involutive t), Hr, reverse_app, reverse_involutive. done.
  - intros (r & ->). exists (reverse r). by rewrite reverse_app.
Qed.

Lemma split_once_app sep t a b : split_once sep t = Some (a, b) -> t = a ++ sep ++ b.
Proof.
  revert a b; induction t as [|c t IH]; intros a b; simpl.
  - destruct (strip_prefix sep []) eqn:E; [|done].
    intros [= <- <-]. by apply strip_prefix_Some in E.
  - destruct (strip_prefix sep (c :: t)) eqn:E.
    + intros [= <- <-]. by apply strip_prefix_Some in E.
    + destruct (split_once sep t) as [[a' b']|]; [|done].
      intros [= <- <-]. simpl. by rewrite <- (IH a' b').
Qed.

(** The separator does not occur before the place [split_once] splits at. *)
Lemma split_once_first sep t a b :
  split_once sep t = Some (a, b) ->
  forall k rest, a ++ sep ++ b = k ++ sep ++ rest -> (length a <= length k)%nat.
Proof.
  revert a b; induction t as [|c t IH]; intros a b H k rest Heq; simpl in H.
  - destruct (strip_prefix sep []) eqn:E; [|done].
    injection H as <- <-. simpl; lia.
  - destruct (strip_prefix sep (c :: t)) eqn:E.
    + injection H as <- <-. simpl; lia.
    + destruct (split_once sep t) as [[a' b']|] eqn:E'; [|done].
      injection H as <- <-. destruct k as [|x k].
      * exfalso. apply split_once_app in E'. simpl in Heq.
        rewrite <- E' in Heq. rewrite Heq, strip_prefix_app in E. done.
      * simpl in Heq. injection Heq as _ Heq. simpl.
        pose proof (IH a' b' eq_refl k rest Heq). lia.
Qed.

Lemma split_once_char_app c a b :
  ~ In c a -> split_once [c] (a ++ c :: b) = Some (a, b).
Proof.
  induction a as [|x a IH]; intros Hn; simpl.
  - by rewrite N.eqb_refl.
  - destruct (N.eqb_spec c x) as [->|Hne]; [exfalso; apply Hn; by left|].
    rewrite IH; [done|]. intros ?; apply Hn; by right.
Qed.

Lemma split_once_char_None c t : split_once [c] t = None <-> ~ In c t.
Proof.
  induction t as [|x t IH]; simpl; [intuition|].
  destruct (N.eqb_spec c x) as [->|Hne]; [intuition congruence|].
  destruct (split_once [c] t) as [[? ?]|]; intuition congruence.
Qed.

(** The first char, if any, is not in the class [p]. *)
Definition clean_head (p : char -> bool) (t : text) : Prop :=
  match t with [] => True | c :: _ => p c = false end.

(** Neither end is in the class [p]. *)
Definition trimmed (p : char -> bool) (t : text) : Prop := clean_head p t /\ clean_head p (reverse t).

Lemma trim_end_by_suffix p t : exists k, t = trim_end_by p t ++ k /\ forallb p k = true.
Proof.
  unfold trim_end_by. exists (reverse (take_while p (reverse t))). split.
  - rewrite <- reverse_app, take_while_drop_while. by rewrite reverse_involutive.
  - rewrite forallb_forall. intros x Hx.
    rewrite <- list_elem_of_In, elem_of_reverse, list_elem_of_In in Hx.
    by apply (forallb_In _ _ _ (take_while_all p (reverse t))).
Qed.

Lemma trim_end_by_clean p t : clean_head p (reverse (trim_end_by p t)).
Proof. unfold trim_end_by. rewrite reverse_involutive. apply drop_while_head. Qed.

Lemma trim_end_by_id p t : clean_head p (reverse t) -> trim_end_by p t = t.
Proof. intros H. unfold trim_end_by. rewrite drop_while_id by done. apply reverse_involutive. Qed.

(** Trimming the end keeps the first char of what is left. *)
Lemma trim_end_by_head p t : clean_head p t -> clean_head p (trim_end_by p t).
Proof.
  intros H. destruct (trim_end_by_suffix p t) as (k & E & _).
  destruct (trim_end_by p t) as [|c t']; [done|]. by rewrite E in H.
Qed.

Lemma trim_by_trimmed p t : trimmed p (trim_by p t).
Proof.
  unfold trim_by, trim_start_by. split; [|apply trim_end_by_clean].
  apply trim_end_by_head, drop_while_head.
Qed.

Lemma trimmed_trim_by p t : trimmed p t -> trim_by p t = t.
Proof.
  intros [H1 H2]. unfold trim_by, trim_start_by. rewrite drop_while_id by done.
  by apply trim_end_by_id.
Qed.

Lemma trim_trimmed t : trimmed is_whitespace (trim t).
Proof. apply trim_by_trimmed. Qed.

Lemma trimmed_trim t : trimmed is_whitespace t -> trim t = t.
Proof. apply trimmed_trim_by. Qed.

Lemma trim_idem t : trim (trim t) = trim t.
Proof. apply trimmed_trim, trim_trimmed. Qed.

(** A text between two chars outside the class is trimmed. *)
Lemma trimmed_between p x t y : p x = false -> p y = false -> trimmed p (x :: t ++ [y]).
Proof.
  intros Hx Hy. split; [done|]. rewrite app_comm_cons, reverse_app. exact Hy.
Qed.

Lemma trimmed_last p x t : p x = false -> clean_head p (reverse (t ++ [x])).
Proof. intros H. by rewrite reverse_app. Qed.

Lemma clean_head_app p t k : t <> [] -> clean_head p t -> clean_head p (t ++ k).
Proof. by destruct t. Qed.

#[export] Hint Rewrite trim_idem : zeng.
