(* ===== verification/Paths.v ===== *)
(** Lexical path handling ([paths.rs]).  A path is the sequence that
    [Path::components] yields on Unix: the equality, [starts_with] and
    [strip_prefix] of [std::path] are all defined on that sequence. *)

From S2P Require Export Text.

(** * Paths as component sequences *)

Inductive component :=
| RootDir
| CurDir
| ParentDir
| Normal (name : text).

Definition path := list component.

Definition component_eqb (a b : component) : bool :=
  match a, b with
  | RootDir, RootDir | CurDir, CurDir | ParentDir, ParentDir => true
  | Normal x, Normal y => teqb x y
  | _, _ => false
  end.

Fixpoint path_eqb (p q : path) : bool :=
  match p, q with
  | [], [] => true
  | a :: p', b :: q' => component_eqb a b && path_eqb p' q'
  | _, _ => false
  end.

(** The order of components, and of paths by their components. *)
Definition component_lt (a b : component) : bool :=
  match a, b with
  | Normal x, Normal y => text_lt x y
  | RootDir, (CurDir | ParentDir | Normal _) => true
  | CurDir, (ParentDir | Normal _) => true
  | ParentDir, Normal _ => true
  | _, _ => false
  end.

Fixpoint path_lt (p q : path) : bool :=
  match p, q with
  | _, [] => false
  | [], _ => true
  | a :: p, b :: q => component_lt a b || (component_eqb a b && path_lt p q)
  end.

(** Insertion into a sorted set of paths. *)
Fixpoint insert_path (l : list path) (p : path) : list path :=
  match l with
  | [] => [p]
  | q :: l' => if path_lt p q then p :: l else if path_eqb p q then l else q :: insert_path l' p
  end.

(** One piece between separators: empty and [.] pieces yield no component. *)
Definition piece_component (piece : text) : option component :=
  if is_empty piece || teqb piece (str ".") then None
  else if teqb piece (str "..") then Some ParentDir
  else Some (Normal piece).

(** [Path::new(t).components()]; a leading [.] of a relative path is kept. *)
Definition components (t : text) : path :=
  let pieces := split_on (chr "/") t in
  if starts_with [chr "/"] t then RootDir :: omap piece_component pieces
  else match pieces with
       | piece :: rest =>
           if teqb piece (str ".") then CurDir :: omap piece_component rest
           else omap piece_component pieces
       | [] => []
       end.

Definition component_text (c : component) : text :=
  match c with
  | RootDir => str "/"
  | CurDir => str "."
  | ParentDir => str ".."
  | Normal name => name
  end.

(** The text of a path in its canonical spelling ([Path::display]). *)
Definition display (p : path) : text :=
  match p with
  | RootDir :: rest => chr "/" :: join [chr "/"] (map component_text rest)
  | _ => join [chr "/"] (map component_text p)
  end.

Definition is_absolute (p : path) : bool :=
  match p with RootDir :: _ => true | _ => false end.

(** [Path::join] and [PathBuf::push]: an absolute argument replaces the
    base; a [.] that is no longer leading disappears. *)
Definition path_join (base p : path) : path :=
  if is_absolute p then p
  else match base, p with
       | _ :: _, CurDir :: rest => base ++ rest
       | _, _ => base ++ p
       end.

Definition path_strip_prefix (base p : path) : option path :=
  if list_prefix_by component_eqb base p then Some (drop (length base) p) else None.

Definition path_starts_with (p base : path) : bool := list_prefix_by component_eqb base p.

(** * [paths.rs] *)

Definition PROTECTED_DIRS : list text := [str ".z-engine"].
Definition PROTECTED_FILES : list text :=
  [str ".claude/settings.json"; str ".claude/settings.local.json"; str ".mcp.json"].

Definition normalize_component (out : path) (c : component) : path :=
  match c with
  | CurDir => out
  | ParentDir =>
      match last out with
      | Some (Normal _) => removelast out
      | Some RootDir => out
      | _ => path_join out [ParentDir]
      end
  | other => path_join out [other]
  end.

Definition normalize (p : path) : path := foldl normalize_component [] p.

Definition resolve (base p : path) : path :=
  if is_absolute p then normalize p else normalize (path_join base p).

Fixpoint escapes_from (depth : nat) (p : path) : bool :=
  match p with
  | [] => false
  | Normal _ :: rest => escapes_from (S depth) rest
  | CurDir :: rest => escapes_from depth rest
  | ParentDir :: rest =>
      match depth with
      | S up => escapes_from up rest
      | O => true
      end
  | RootDir :: _ => true
  end.

Definition escapes_start (p : path) : bool := escapes_from 0 p.

(** The lower-cased names of a relative path. *)
Definition component_names (p : path) : list text :=
  omap (fun c => match c with Normal name => Some (to_ascii_lowercase name) | _ => None end) p.

Definition protected_relative (relative : path) : bool :=
  let names := component_names relative in
  mem (str ".git") names
  || match names with first :: _ => mem first PROTECTED_DIRS | [] => false end
  || mem (join [chr "/"] names) PROTECTED_FILES.

Definition is_protected (p : path) (roots : list path) : bool :=
  existsb protected_relative (omap (fun root => path_strip_prefix root p) roots).

(** * Well-formed and canonical paths *)

Definition good_name (n : text) : Prop :=
  n <> [] /\ n <> str "." /\ n <> str ".." /\ ~ In (chr "/") n.

(** What may follow the first component. *)
Definition tail_component (c : component) : Prop :=
  match c with
  | ParentDir => True
  | Normal n => good_name n
  | _ => False
  end.

(** The invariant of the sequences [components] yields. *)
Definition wf_path (p : path) : Prop :=
  match p with
  | RootDir :: rest | CurDir :: rest => Forall tail_component rest
  | _ => Forall tail_component p
  end.

Definition names (ns : list text) : path := map Normal ns.

(** The canonical form [normalize] computes. *)
Inductive canonical : path -> Prop :=
| canonical_abs ns : Forall good_name ns -> canonical (RootDir :: names ns)
| canonical_rel k ns : Forall good_name ns -> canonical (replicate k ParentDir ++ names ns).

(** * Facts *)

Lemma component_eqb_eq a b : component_eqb a b = true <-> a = b.
Proof.
  destruct a, b; simpl; try (intuition congruence).
  rewrite teqb_eq. intuition congruence.
Qed.

Lemma path_eqb_eq p q : path_eqb p q = true <-> p = q.
Proof.
  revert q; induction p as [|a p IH]; intros [|b q]; simpl; try (intuition congruence).
  rewrite andb_true_iff, component_eqb_eq, IH. intuition congruence.
Qed.

Lemma list_prefix_component base p :
  list_prefix_by component_eqb base p = true <-> exists rest, p = base ++ rest.
Proof.
  revert p; induction base as [|c base IH]; intros [|d p]; simpl.
  - split; eauto.
  - split; eauto.
  - split; [done|]. by intros (? & ?).
  - rewrite andb_true_iff, component_eqb_eq, IH. split.
    + intros [-> [r ->]]. eauto.
    + intros (r & [= -> ->]). eauto.
Qed.

Lemma path_starts_with_spec p base :
  path_starts_with p base = true <-> exists rest, p = base ++ rest.
Proof. apply list_prefix_component. Qed.

Lemma path_strip_prefix_Some base p rest :
  path_strip_prefix base p = Some rest <-> p = base ++ rest.
Proof.
  unfold path_strip_prefix. split.
  - destruct (list_prefix_by component_eqb base p) eqn:E; [|done].
    apply list_prefix_component in E as (r & ->). rewrite drop_app_length. by intros [= ->].
  - intros ->. replace (list_prefix_by component_eqb base (base ++ rest)) with true.
    + by rewrite drop_app_length.
    + symmetry. apply list_prefix_component. eauto.
Qed.

Lemma split_on_no_sep c t : Forall (fun piece => ~ In c piece) (split_on c t).
Proof.
  induction t as [|x t IH]; simpl.
  - constructor; [by intros []|constructor].
  - destruct (N.eqb_spec x c) as [->|Hne]; [constructor; [by intros []|done]|].
    destruct (split_on c t) as [|piece rest]; inversion IH; subst; constructor; auto.
    + intros [->|[]]; done.
    + intros [->|?]; done.
Qed.

Lemma split_on_cons c t : exists piece rest, split_on c t = piece :: rest.
Proof.
  induction t as [|x t (p & r & IH)]; simpl; [eauto|].
  destruct (x =? c)%N; [eauto|]. rewrite IH. eauto.
Qed.

Lemma split_on_join c ts :
  Forall (fun t => ~ In c t) ts -> ts <> [] -> split_on c (join [c] ts) = ts.
Proof.
  assert (Hone : forall t, ~ In c t -> split_on c t = [t]).
  { induction t as [|x t IH]; simpl; [done|]. intros Hn.
    destruct (N.eqb_spec x c) as [->|_]; [exfalso; apply Hn; by left|].
    rewrite IH; [done|]. intros ?; apply Hn; by right. }
  assert (Happ : forall t rest, ~ In c t ->
            split_on c (t ++ c :: rest) = t :: split_on c rest).
  { induction t as [|x t IH]; simpl; intros rest Hn.
    - by rewrite N.eqb_refl.
    - destruct (N.eqb_spec x c) as [->|_]; [exfalso; apply Hn; by left|].
      rewrite IH; [done|]. intros ?; apply Hn; by right. }
  induction 1 as [|t ts Ht Hts IH]; intros Hne; [done|].
  destruct ts as [|t' ts]; [by apply Hone|].
  change (join [c] (t :: t' :: ts)) with (t ++ c :: join [c] (t' :: ts)).
  rewrite Happ by done. f_equal. by apply IH.
Qed.

Lemma piece_component_tail piece c :
  ~ In (chr "/") piece -> piece_component piece = Some c -> tail_component c.
Proof.
  unfold piece_component. intros Hn H.
  destruct (is_empty piece) eqn:E0; simpl in H; [done|].
  destruct (teqb_spec piece (str ".")); [done|].
  destruct (teqb_spec piece (str "..")); injection H as <-; [done|].
  split; [by intros ->|]. auto.
Qed.

Lemma omap_piece_tail pieces :
  Forall (fun piece => ~ In (chr "/") piece) pieces ->
  Forall tail_component (omap piece_component pieces).
Proof.
  induction 1 as [|piece rest Hp _ IH]; simpl; [constructor|].
  destruct (piece_component piece) eqn:E; [|done].
  constructor; [by eapply piece_component_tail|done].
Qed.

Lemma components_wf t : wf_path (components t).
Proof.
  unfold components. pose proof (split_on_no_sep (chr "/") t) as Hs.
  destruct (starts_with [chr "/"] t); [by apply omap_piece_tail|].
  destruct (split_on (chr "/") t) as [|piece rest]; [constructor|].
  destruct (teqb piece (str ".")); [inversion Hs; by apply omap_piece_tail|].
  pose proof (omap_piece_tail _ Hs) as Ht.
  destruct (omap piece_component (piece :: rest)) as [|[] ?]; try done; by inversion Ht.
Qed.

(** ** Text and components *)

Lemma piece_component_text c : tail_component c -> piece_component (component_text c) = Some c.
Proof.
  destruct c as [| | |n]; simpl; try done. intros (H0 & H1 & H2 & _).
  unfold piece_component.
  replace (is_empty n) with false by (destruct n; done).
  apply teqb_neq in H1 as ->, H2 as ->. done.
Qed.

Lemma component_text_no_sep c : tail_component c -> ~ In (chr "/") (component_text c).
Proof.
  destruct c as [| | |n]; simpl; try done; [|by intros (_ & _ & _ & ?)].
  intros _ H. repeat destruct H as [H|H]; done.
Qed.

Lemma omap_piece_text cs :
  Forall tail_component cs -> omap piece_component (map component_text cs) = cs.
Proof.
  induction 1 as [|c cs Hc _ IH]; [done|].
  simpl. rewrite piece_component_text by done. f_equal. exact IH.
Qed.

Lemma split_display cs :
  Forall tail_component cs ->
  omap piece_component (split_on (chr "/") (join [chr "/"] (map component_text cs))) = cs.
Proof.
  intros H. destruct cs as [|c cs]; [done|].
  change [chr "/"] with [chr "/"]. rewrite split_on_join.
  - by apply omap_piece_text.
  - apply Forall_map. eapply Forall_impl; [exact H|]. apply component_text_no_sep.
  - done.
Qed.

Lemma starts_with_sep c rest :
  tail_component c ->
  starts_with [chr "/"] (join [chr "/"] (map component_text (c :: rest))) = false.
Proof.
  intros H. destruct c as [| | |n]; simpl in H; try done; [by destruct rest|].
  destruct H as (H0 & _ & _ & H3). destruct n as [|x n]; [done|].
  assert (Hx : (chr "/" =? x)%N = false)
    by (apply N.eqb_neq; intros <-; apply H3; by left).
  destruct rest; simpl; change [chr "/"] with [chr "/"]; simpl; by rewrite Hx.
Qed.

Lemma split_display_cons c rest :
  tail_component c -> Forall tail_component rest ->
  split_on (chr "/") (join [chr "/"] (map component_text (c :: rest)))
  = map component_text (c :: rest).
Proof.
  intros Hc Hr. apply split_on_join; [|done].
  apply Forall_map. eapply Forall_impl; [by apply Forall_cons_2|apply component_text_no_sep].
Qed.

Lemma components_relative c rest :
  tail_component c -> Forall tail_component rest ->
  components (join [chr "/"] (map component_text (c :: rest))) = c :: rest.
Proof.
  intros Hc Hr. unfold components.
  rewrite starts_with_sep, split_display_cons by done. cbn [map].
  destruct (teqb_spec (component_text c) (str ".")) as [E|_].
  - exfalso. apply piece_component_text in Hc. by rewrite E in Hc.
  - apply (omap_piece_text (c :: rest)). by apply Forall_cons_2.
Qed.

(** Reading back the text of a component sequence gives the sequence. *)
Lemma components_display_wf p : wf_path p -> components (display p) = p.
Proof.
  destruct p as [|[| | |n] rest]; intros H; [done| | |by apply components_relative; inversion H..].
  - unfold components, display. cbn [starts_with].
    rewrite N.eqb_refl. simpl. f_equal. by apply split_display.
  - unfold display. destruct rest as [|c rest]; [done|].
    assert (Ht : tail_component c /\ Forall tail_component rest) by (by inversion H).
    destruct Ht as [Hc Hr]. pose proof (split_display_cons c rest Hc Hr) as E.
    cbn [map] in *.
    set (body := join [chr "/"] _) in E.
    change (join [chr "/"] _) with (chr "." :: chr "/" :: body).
    unfold components. cbn [starts_with split_on].
    change (chr "/" =? chr ".")%N with false. change (chr "." =? chr "/")%N with false.
    rewrite N.eqb_refl, E. cbn. f_equal.
    apply (omap_piece_text (c :: rest)). by apply Forall_cons_2.
Qed.

(** ** [normalize] *)

Lemma removelast_app_one {A} (l : list A) x : removelast (l ++ [x]) = l.
Proof. by rewrite removelast_app, app_nil_r. Qed.

Lemma path_join_push out c :
  c <> RootDir -> c <> CurDir -> path_join out [c] = out ++ [c].
Proof. intros H1 H2. unfold path_join. destruct c, out; done. Qed.

Lemma names_app ns ms : names (ns ++ ms) = names ns ++ names ms.
Proof. apply map_app. Qed.

Lemma names_snoc l ns n : l ++ names (ns ++ [n]) = (l ++ names ns) ++ [Normal n].
Proof. by rewrite names_app, app_assoc. Qed.

Lemma normalize_pop l ns n :
  normalize_component (l ++ names (ns ++ [n])) ParentDir = l ++ names ns.
Proof.
  unfold normalize_component. rewrite names_snoc, last_snoc. apply removelast_app_one.
Qed.

Lemma normalize_push out n : normalize_component out (Normal n) = out ++ [Normal n].
Proof. by apply path_join_push. Qed.

Lemma snoc_cases {A} (l : list A) : l = [] \/ exists l' x, l = l' ++ [x].
Proof. induction l using rev_ind; [by left|right; eauto]. Qed.

Lemma normalize_parent_root ns :
  normalize_component (RootDir :: names ns) ParentDir = RootDir :: names (removelast ns).
Proof.
  destruct (snoc_cases ns) as [->|(ns' & n & ->)]; [done|].
  rewrite removelast_app_one. apply (normalize_pop [RootDir]).
Qed.

Lemma normalize_parent_rel k ns :
  normalize_component (replicate k ParentDir ++ names ns) ParentDir =
  match ns with
  | [] => replicate (S k) ParentDir
  | _ => replicate k ParentDir ++ names (removelast ns)
  end.
Proof.
  destruct (snoc_cases ns) as [->|(ns' & n & ->)].
  - simpl names. rewrite app_nil_r. unfold normalize_component.
    assert (Hl : match last (replicate k ParentDir) with
                 | Some (Normal _) | Some RootDir => False | _ => True end).
    { destruct (last (replicate k ParentDir)) as [c|] eqn:E; [|done].
      apply last_Some in E as (l & E).
      assert (Hin : c ∈ replicate k ParentDir) by (rewrite E; apply elem_of_app; right; constructor).
      apply elem_of_replicate in Hin as [-> _]. done. }
    rewrite path_join_push by done.
    rewrite replicate_S_end.
    destruct (last _) as [[]|]; done.
  - rewrite removelast_app_one, normalize_pop.
    destruct (ns' ++ [n]) eqn:E; [by destruct ns'|done].
Qed.

Lemma Forall_removelast {A} (P : A -> Prop) l : Forall P l -> Forall P (removelast l).
Proof.
  destruct (snoc_cases l) as [->|(l' & x & ->)]; [done|].
  rewrite removelast_app_one. by intros [? _]%Forall_app.
Qed.

Lemma normalize_component_canonical out c :
  canonical out -> tail_component c -> canonical (normalize_component out c).
Proof.
  intros H Hc. destruct c as [| | |n]; try done.
  - destruct H as [ns Hns|k ns Hns].
    + rewrite normalize_parent_root. constructor. by apply Forall_removelast.
    + rewrite normalize_parent_rel. destruct ns as [|n ns].
      * rewrite <- (app_nil_r (replicate (S k) ParentDir)). apply (canonical_rel _ []). done.
      * constructor. by apply Forall_removelast.
  - rewrite normalize_push.
    destruct H as [ns Hns|k ns Hns].
    + change (RootDir :: names ns) with ([RootDir] ++ names ns).
      rewrite <- names_snoc. apply canonical_abs.
      apply Forall_app; split; [done|by constructor].
    + rewrite <- names_snoc. constructor. apply Forall_app; split; [done|by constructor].
Qed.

Lemma foldl_canonical out p :
  canonical out -> Forall tail_component p -> canonical (foldl normalize_component out p).
Proof.
  intros H Hp. revert out H. induction Hp as [|c p Hc _ IH]; intros out H; simpl; [done|].
  apply IH. by apply normalize_component_canonical.
Qed.

Lemma canonical_nil : canonical [].
Proof. apply (canonical_rel 0 []). constructor. Qed.

Lemma canonical_root : canonical [RootDir].
Proof. apply (canonical_abs []). constructor. Qed.

Lemma normalize_canonical p : wf_path p -> canonical (normalize p).
Proof.
  unfold normalize. intros H.
  destruct p as [|[| | |n] rest]; [apply canonical_nil|..]; simpl.
  - apply foldl_canonical; [apply canonical_root|done].
  - apply foldl_canonical; [apply canonical_nil|done].
  - inversion H; subst. apply foldl_canonical; [|done].
    by apply (normalize_component_canonical [] ParentDir); [apply canonical_nil|].
  - inversion H; subst. apply foldl_canonical; [|done].
    apply (normalize_component_canonical [] (Normal n)); [apply canonical_nil|done].
Qed.

Lemma foldl_names out ns : foldl normalize_component out (names ns) = out ++ names ns.
Proof.
  revert out; induction ns as [|n ns IH]; intros out; simpl; [by rewrite app_nil_r|].
  rewrite (path_join_push out (Normal n)) by done.
  rewrite IH, <- app_assoc. done.
Qed.

Lemma foldl_parents j k :
  foldl normalize_component (replicate j ParentDir) (replicate k ParentDir)
  = replicate (k + j) ParentDir.
Proof.
  revert j; induction k as [|k IH]; intros j; [done|]. cbn [replicate foldl].
  pose proof (normalize_parent_rel j []) as E. simpl names in E. rewrite app_nil_r in E.
  rewrite E, IH. f_equal. lia.
Qed.

Lemma canonical_fixpoint p : canonical p -> normalize p = p.
Proof.
  unfold normalize. intros [ns _|k ns _].
  - simpl. apply (foldl_names [RootDir]).
  - rewrite foldl_app. change [] with (replicate 0 ParentDir).
    rewrite foldl_parents, Nat.add_0_r. apply foldl_names.
Qed.

Lemma wf_absolute p :
  wf_path p -> is_absolute p = true -> exists rest, p = RootDir :: rest /\ Forall tail_component rest.
Proof. destruct p as [|[| | |n] rest]; simpl; try done. eauto. Qed.

Lemma foldl_absolute ns p :
  Forall tail_component p ->
  exists ms, foldl normalize_component (RootDir :: names ns) p = RootDir :: names ms.
Proof.
  intros H. revert ns. induction H as [|c p Hc _ IH]; intros ns; cbn [foldl]; [eauto|].
  destruct c as [| | |n]; try done.
  - rewrite normalize_parent_root. apply IH.
  - rewrite normalize_push. change (RootDir :: names ns) with ([RootDir] ++ names ns).
    rewrite <- names_snoc. apply (IH (ns ++ [n])).
Qed.

(** An absolute path normalizes to a root and plain names: no [..] is left. *)
Lemma normalize_absolute p :
  wf_path p -> is_absolute p = true -> exists ns, normalize p = RootDir :: names ns.
Proof.
  intros H (rest & -> & Hr)%wf_absolute; [|done]. apply (foldl_absolute []). done.
Qed.

Lemma is_absolute_normalize p :
  wf_path p -> is_absolute p = true -> is_absolute (normalize p) = true.
Proof. intros H Ha. destruct (normalize_absolute p H Ha) as (ns & ->). done. Qed.

(** The components after the leading [.] of a relative path. *)
Definition relative_tail (p : path) : path :=
  match p with CurDir :: rest => rest | _ => p end.

Lemma normalize_join root p :
  is_absolute p = false ->
  normalize (path_join root p) = foldl normalize_component (normalize root) (relative_tail p).
Proof.
  unfold normalize, path_join. intros ->.
  destruct root as [|c root], p as [|[| | |n] p]; cbn [relative_tail app];
    rewrite <- ?foldl_app; done.
Qed.

Lemma relative_tail_wf p :
  wf_path p -> is_absolute p = false -> Forall tail_component (relative_tail p).
Proof. destruct p as [|[| | |n] rest]; done. Qed.

Lemma escapes_relative_tail p : escapes_start (relative_tail p) = escapes_start p.
Proof. by destruct p as [|[| | |n] rest]. Qed.

(** While the depth counter stays non-negative the walk stays below its start. *)
Lemma escapes_from_below base extra p :
  Forall tail_component p -> escapes_from (length extra) p = false ->
  exists extra', foldl normalize_component (base ++ names extra) p = base ++ names extra'.
Proof.
  intros H. revert extra. induction H as [|c p Hc _ IH]; intros extra He; cbn [foldl]; [eauto|].
  destruct c as [| | |n]; try done; cbn [escapes_from] in He.
  - destruct (snoc_cases extra) as [->|(ex & x & ->)]; [done|].
    rewrite length_app, Nat.add_1_r in He. rewrite normalize_pop. by apply IH.
  - rewrite normalize_push, <- names_snoc. apply IH.
    by rewrite length_app, Nat.add_1_r.
Qed.

(** When the counter would go negative, some prefix of the walk is above. *)
Lemma escapes_from_above ns n extra p :
  Forall tail_component p -> escapes_from (length extra) p = true ->
  exists k, foldl normalize_component (RootDir :: names (ns ++ [n]) ++ names extra) (take k p)
            = RootDir :: names ns.
Proof.
  intros H. revert extra. induction H as [|c p Hc _ IH]; intros extra He; [done|].
  destruct c as [| | |m]; try done; cbn [escapes_from] in He.
  - destruct (snoc_cases extra) as [->|(ex & x & ->)].
    + exists 1. cbn [take foldl]. simpl names. rewrite app_nil_r. 
      rewrite take_0. apply (normalize_pop [RootDir]).
    + rewrite length_app, Nat.add_1_r in He.
      destruct (IH ex He) as (k & Hk). exists (S k). cbn [take foldl].
      change (RootDir :: names (ns ++ [n]) ++ names (ex ++ [x]))
        with ((RootDir :: names (ns ++ [n])) ++ names (ex ++ [x])).
      by rewrite normalize_pop.
  - destruct (IH (extra ++ [m])) as (k & Hk).
    { by rewrite length_app, Nat.add_1_r. }
    exists (S k). cbn [take foldl]. rewrite normalize_push.
    change (RootDir :: names (ns ++ [n]) ++ names extra)
      with ((RootDir :: names (ns ++ [n])) ++ names extra).
    by rewrite <- names_snoc.
Qed.

Lemma wf_take k p : wf_path p -> wf_path (take k p).
Proof.
  assert (Ht : forall j (q : path), Forall tail_component q -> Forall tail_component (take j q)).
  { intros j q Hq. rewrite <- (take_drop j q) in Hq. by apply Forall_app in Hq as [? _]. }
  destruct k as [|k]; [constructor|].
  destruct p as [|[| | |n] rest]; [constructor|apply Ht|apply Ht|apply (Ht (S k))..].
Qed.

Lemma take_relative k p : is_absolute p = false -> is_absolute (take k p) = false.
Proof. destruct k, p as [|[] ?]; done. Qed.

Lemma take_relative_tail k p :
  exists j, relative_tail (take j p) = take k (relative_tail p).
Proof.
  destruct p as [|[| | |n] rest]; [by exists 0; destruct k| | | |];
    (destruct k as [|k]; [by exists 0|]); try by exists (S k). by exists (S (S k)).
Qed.

(** A relative operand that never climbs above its start resolves inside
    the directory it starts from. *)
Lemma resolve_contained root p :
  wf_path p -> is_absolute p = false -> escapes_start p = false ->
  path_starts_with (resolve root p) (normalize root) = true.
Proof.
  intros Hp Ha He. unfold resolve. rewrite Ha, normalize_join by done.
  rewrite <- escapes_relative_tail in He.
  destruct (escapes_from_below (normalize root) [] _ (relative_tail_wf _ Hp Ha) He) as (ex & Hex).
  simpl names in Hex. rewrite app_nil_r in Hex. rewrite Hex.
  apply path_starts_with_spec. eauto.
Qed.

Lemma not_prefix_shorter ns n : path_starts_with (RootDir :: names ns) (RootDir :: names (ns ++ [n])) = false.
Proof.
  destruct (path_starts_with _ _) eqn:E; [|done].
  apply path_starts_with_spec in E as (r & E).
  apply (f_equal length) in E. unfold names in E.
  rewrite length_app in E. simpl in E. rewrite !length_map, length_app in E. simpl in E. lia.
Qed.

Lemma canonical_wf p : canonical p -> wf_path p.
Proof.
  assert (Hn : forall ns, Forall good_name ns -> Forall tail_component (names ns)).
  { intros ns H. apply Forall_map. done. }
  intros [ns H|k ns H]; [by apply Hn|].
  assert (Hf : Forall tail_component (replicate k ParentDir ++ names ns)).
  { apply Forall_app; split; [|by apply Hn]. by apply Forall_replicate. }
  destruct k as [|k]; [|done]. destruct ns; done.
Qed.

Lemma foldl_absolute_take k root p :
  wf_path root -> is_absolute root = true -> wf_path p -> is_absolute p = false ->
  exists j, normalize (path_join root (take j p))
            = foldl normalize_component (normalize root) (take k (relative_tail p)).
Proof.
  intros _ _ _ Ha. destruct (take_relative_tail k p) as (j & Hj).
  exists j. rewrite normalize_join by (by apply take_relative). by rewrite Hj.
Qed.

(** * Properties *)

(** Lexical normalization of any path text yields a canonical component
    sequence (a root and plain names, or leading [..]s and plain names),
    normalizing again changes nothing, and the text printed for the result
    reads back as the result. *)
Theorem normalize_canonical_form (t : text) :
  let p := normalize (components t) in
  canonical p /\ normalize p = p /\ components (display p) = p.
Proof.
  intros p. assert (Hc : canonical p) by apply normalize_canonical, components_wf.
  split_and!; [done|by apply canonical_fixpoint|].
  by apply components_display_wf, canonical_wf.
Qed.

(** [escapes_start] is exact.  Below any absolute directory other than the
    root, a relative path is reported as not escaping exactly when the whole
    walk it describes (every prefix of its components) stays inside the
    directory after normalization. *)
Theorem escapes_start_exact (root_text t : text) :
  is_absolute (components root_text) = true ->
  normalize (components root_text) <> [RootDir] ->
  is_absolute (components t) = false ->
  escapes_start (components t) = false <->
  forall k, path_starts_with (resolve (components root_text) (take k (components t)))
              (normalize (components root_text)) = true.
Proof.
  set (root := components root_text). set (p := components t). intros Hra Hne Ha.
  pose proof (components_wf t : wf_path p) as Hp.
  pose proof (components_wf root_text : wf_path root) as Hr. split.
  - intros He k. apply resolve_contained; [by apply wf_take|by apply take_relative|].
    revert He. unfold escapes_start. generalize 0. clear. revert k.
    induction p as [|[| | |n] rest IH]; intros [|k] d; cbn [take escapes_from]; auto.
    destruct d; auto.
  - intros H. destruct (escapes_start p) eqn:He; [|done]. exfalso.
    rewrite <- escapes_relative_tail in He.
    destruct (normalize_absolute root Hr Hra) as (ns & Hns).
    destruct (snoc_cases ns) as [->|(ns' & n & ->)]; [done|].
    destruct (escapes_from_above ns' n [] _ (relative_tail_wf _ Hp Ha) He) as (k & Hk).
    destruct (foldl_absolute_take k root p Hr Hra Hp Ha) as (j & Hj).
    specialize (H j). unfold resolve in H. rewrite take_relative in H by done.
    simpl names in Hk. rewrite app_nil_r in Hk.
    rewrite Hj, Hns, Hk, not_prefix_shorter in H. done.
Qed.

Lemma escapes_start_exact_witness :
  escapes_start (components (str "src/../../proj/x")) = true /\
  ~ (forall k, path_starts_with
        (resolve (components (str "/work/./proj/")) (take k (components (str "src/../../proj/x"))))
        (normalize (components (str "/work/./proj/"))) = true).
Proof.
  split; [vm_compute; reflexivity|]. intros H.
  apply (escapes_start_exact (str "/work/./proj/") (str "src/../../proj/x")) in H;
    vm_compute in *; congruence.
Defined.
