(* ===== verification/Lexer.v ===== *)
(** The shell syntax tree and the lexer ([shell/syntax.rs], [shell/lexer/*.rs]). *)

From S2P Require Export Text.

(** A word after quote removal; the flags record what the shell would still
    expand at run time. *)
Record Word := mkWord {
  text_ : text;
  quoted : bool;
  glob : bool;
  brace : bool;
  param : bool;
  tilde : bool;
  assignment : bool
}.

Definition default_word : Word := mkWord [] false false false false false false.

Definition expands (w : Word) : bool := glob w || brace w || param w || tilde w.
Definition splits (w : Word) : bool := glob w || brace w || param w.

Inductive RedirectKind := RRead | RWrite | RDuplicate | RInline.

Record Redirect := mkRedirect { kind : RedirectKind; target : Word }.

Definition STREAMS : list text := [str "/dev/null"; str "/dev/stdout"; str "/dev/stderr"].

Definition writes_file (r : Redirect) : bool :=
  match kind r with
  | RWrite => expands (target r) || negb (mem (text_ (target r)) STREAMS)
  | _ => false
  end.

Definition LEADING_KEYWORDS : list text :=
  [str "!"; str "{"; str "}"; str "if"; str "then"; str "else"; str "elif"; str "fi";
   str "while"; str "until"; str "do"; str "done"; str "esac"; str "time"].

Record Segment := mkSegment { words : list Word; redirects : list Redirect }.

Definition default_segment : Segment := mkSegment [] [].

(** The words from the command name on. *)
Fixpoint strip_keywords (ws : list Word) : list Word :=
  match ws with
  | [] => []
  | first :: rest =>
      if quoted first || negb (mem (text_ first) LEADING_KEYWORDS) then ws
      else match rest with
           | flag :: after =>
               if teqb (text_ first) (str "time") && teqb (text_ flag) (str "-p")
               then strip_keywords after
               else strip_keywords rest
           | [] => []
           end
  end.

Definition command (s : Segment) : list Word := strip_keywords (words s).

Definition argv (s : Segment) : list text := map text_ (command s).

Definition write_targets (s : Segment) : list Word :=
  map target (List.filter writes_file (redirects s)).

(** * Decidable equality ([derive(PartialEq)]) *)

#[export] Instance Word_eq_dec : EqDecision Word.
Proof. solve_decision. Defined.
#[export] Instance RedirectKind_eq_dec : EqDecision RedirectKind.
Proof. solve_decision. Defined.
#[export] Instance Redirect_eq_dec : EqDecision Redirect.
Proof. solve_decision. Defined.
#[export] Instance Segment_eq_dec : EqDecision Segment.
Proof. solve_decision. Defined.

(** Field updates. *)
Definition set_text (t : text) (w : Word) : Word :=
  mkWord t (quoted w) (glob w) (brace w) (param w) (tilde w) (assignment w).
Definition push (c : char) (w : Word) : Word := set_text (text_ w ++ [c]) w.
Definition push_str (t : text) (w : Word) : Word := set_text (text_ w ++ t) w.
Definition set_quoted (w : Word) : Word :=
  mkWord (text_ w) true (glob w) (brace w) (param w) (tilde w) (assignment w).
Definition set_glob (w : Word) : Word :=
  mkWord (text_ w) (quoted w) true (brace w) (param w) (tilde w) (assignment w).
Definition set_brace (b : bool) (w : Word) : Word :=
  mkWord (text_ w) (quoted w) (glob w) b (param w) (tilde w) (assignment w).
Definition set_param (b : bool) (w : Word) : Word :=
  mkWord (text_ w) (quoted w) (glob w) (brace w) b (tilde w) (assignment w).
Definition set_tilde (b : bool) (w : Word) : Word :=
  mkWord (text_ w) (quoted w) (glob w) (brace w) (param w) b (assignment w).
Definition set_assignment (w : Word) : Word :=
  mkWord (text_ w) (quoted w) (glob w) (brace w) (param w) (tilde w) true.

(** * Facts *)

Lemma strip_keywords_suffix ws : exists pre, ws = pre ++ strip_keywords ws.
Proof.
  remember (length ws) as n eqn:Hn. revert ws Hn.
  induction (lt_wf n) as [n _ IH]. intros ws ->.
  destruct ws as [|w rest]; [by exists []|]. cbn [strip_keywords].
  destruct (_ || _); [by exists []|].
  destruct rest as [|flag after]; [by exists [w]|].
  destruct (_ && _).
  - destruct (IH (length after) ltac:(simpl; lia) after eq_refl) as (pre & E).
    exists (w :: flag :: pre). simpl. by rewrite <- E.
  - destruct (IH (length (flag :: after)) ltac:(simpl; lia) (flag :: after) eq_refl) as (pre & E).
    exists (w :: pre). rewrite <- app_comm_cons, <- E. done.
Qed.

(** A first word that is quoted or no keyword stays the command name. *)
Lemma strip_keywords_head w ws :
  quoted w || negb (mem (text_ w) LEADING_KEYWORDS) = true -> strip_keywords (w :: ws) = w :: ws.
Proof. intros H. cbn [strip_keywords]. by rewrite H. Qed.

Lemma expands_splits w : expands w = false -> splits w = false.
Proof. unfold expands, splits. intros [H _]%orb_false_elim. exact H. Qed.

Local Open Scope N_scope.

(** * State and results *)

Record Heredoc := mkHeredoc { delimiter : text; strip_tabs : bool; heredoc_expands : bool }.

Record Lexer := mkLexer {
  chars : list char;
  pos : nat;
  depth : nat;
  ok : bool;
  dynamic : bool;
  nested : list Segment;
  heredocs : list Heredoc;
  word_end : option nat
}.

Record Lexed := mkLexed {
  lexed_segments : list Segment;
  lexed_nested : list Segment;
  lexed_ok : bool;
  lexed_dynamic : bool
}.

Definition MAX_LEN : N := 10000.
Definition MAX_DEPTH : nat := 32.

Definition new_lexer (input : text) (d : nat) : Lexer :=
  mkLexer input 0 d true false [] [] None.

Definition set_pos (p : nat) (lx : Lexer) : Lexer :=
  mkLexer (chars lx) p (depth lx) (ok lx) (dynamic lx) (nested lx) (heredocs lx) (word_end lx).
Definition set_depth (d : nat) (lx : Lexer) : Lexer :=
  mkLexer (chars lx) (pos lx) d (ok lx) (dynamic lx) (nested lx) (heredocs lx) (word_end lx).
Definition set_ok (b : bool) (lx : Lexer) : Lexer :=
  mkLexer (chars lx) (pos lx) (depth lx) b (dynamic lx) (nested lx) (heredocs lx) (word_end lx).
Definition set_dynamic (b : bool) (lx : Lexer) : Lexer :=
  mkLexer (chars lx) (pos lx) (depth lx) (ok lx) b (nested lx) (heredocs lx) (word_end lx).
Definition set_nested (n : list Segment) (lx : Lexer) : Lexer :=
  mkLexer (chars lx) (pos lx) (depth lx) (ok lx) (dynamic lx) n (heredocs lx) (word_end lx).
Definition set_heredocs (h : list Heredoc) (lx : Lexer) : Lexer :=
  mkLexer (chars lx) (pos lx) (depth lx) (ok lx) (dynamic lx) (nested lx) h (word_end lx).
Definition set_word_end (e : option nat) (lx : Lexer) : Lexer :=
  mkLexer (chars lx) (pos lx) (depth lx) (ok lx) (dynamic lx) (nested lx) (heredocs lx) e.

(** [self.pos += n]. *)
Definition advance (n : nat) (lx : Lexer) : Lexer := set_pos (pos lx + n) lx.

(** [self.chars[self.pos..]]. *)
Definition unread (lx : Lexer) : list char := drop (pos lx) (chars lx).

Definition peek (lx : Lexer) : option char := chars lx !! pos lx.
Definition peek_at (offset : nat) (lx : Lexer) : option char := chars lx !! (pos lx + offset)%nat.

Definition bump (lx : Lexer) : option char * Lexer :=
  match peek lx with
  | Some c => (Some c, advance 1 lx)
  | None => (None, lx)
  end.

(** [while self.peek().is_some_and(keep) { self.pos += 1 }]. *)
Definition skip_while (keep : char -> bool) (lx : Lexer) : Lexer :=
  advance (length (take_while keep (unread lx))) lx.

(** [matches!(option, Some(..))] against a set of chars, and against one. *)
Definition peeks (p : char -> bool) (o : option char) : bool :=
  match o with Some c => p c | None => false end.

Definition eqc (a : char) (c : char) : bool := c =? a.

Definition DQUOTE : char := 34.

(** State transformers that may run out of fuel. *)
Definition M (A : Type) : Type := Lexer -> option (A * Lexer).

Definition bindM {A B} (m : M A) (k : A -> M B) : M B := fun lx =>
  match m lx with
  | Some (a, lx') => k a lx'
  | None => None
  end.

Definition retM {A} (a : A) : M A := fun lx => Some (a, lx).

(** The loops, as functions of their loop variables. *)
Record Rec := mkRec {
  r_list : bool -> list Segment -> Segment -> nat -> M (list Segment);
  r_word : Word -> bool -> option nat -> M (option Word);
  r_double_quoted : Word -> M Word;
  r_parameter : Word -> nat -> M Word;
  r_ansi_c : Word -> M Word;
  r_heredoc_lines : Heredoc -> text -> M (text * bool);
  r_expansions : Word -> M Word
}.

(** * words.rs *)

Definition name_start (c : char) : bool := eqc (chr "_") c || is_ascii_alphabetic c.
Definition name_char (c : char) : bool := eqc (chr "_") c || is_ascii_alphanumeric c.

Definition is_name (t : text) : bool :=
  match t with
  | first :: rest => name_start first && forallb name_char rest
  | [] => false
  end.

Definition unwrap_or {A} (d : A) (o : option A) : A :=
  match o with Some a => a | None => d end.

Definition plain (w : Word) (c : char) (started : bool) (brace_at : option nat)
  : Word * option nat :=
  let '(w', at') :=
    if one_of "*?[" c then (set_glob w, brace_at)
    else if eqc (chr "~") c && negb started then (set_tilde true w, brace_at)
    else if eqc (chr "{") c then (w, Some (length (text_ w)))
    else if eqc (chr "}") c then
      match brace_at with
      | Some at_ =>
          let inner := drop at_ (text_ w) in
          (set_brace (brace w || (contains_char (chr ",") inner || contains_str (str "..") inner)) w,
           brace_at)
      | None => (w, brace_at)
      end
    else if eqc (chr "=") c && negb (assignment w) && negb (quoted w)
            && is_name (unwrap_or (text_ w) (strip_suffix [chr "+"] (text_ w)))
    then (set_assignment w, brace_at)
    else (w, brace_at) in
  (push c w', at').

Definition names_descriptor (w : Word) : bool :=
  let t := text_ w in
  let digits := negb (is_empty t) && forallb is_ascii_digit t in
  let variable :=
    match strip_prefix [chr "{"] t with
    | Some rest => match strip_suffix [chr "}"] rest with Some n => is_name n | None => false end
    | None => false
    end in
  negb (quoted w) && negb (param w) && (digits || variable).

Definition is_descriptor (w : Word) : bool :=
  let digits := unwrap_or (text_ w) (strip_suffix [chr "-"] (text_ w)) in
  negb (quoted w) && negb (expands w) && forallb is_ascii_digit digits.

(** * quoting.rs *)

Fixpoint single_quoted_loop (rest : list char) (w : Word) (lx : Lexer) : Word * Lexer :=
  match rest with
  | [] => (w, set_ok false lx)
  | c :: rest' =>
      if eqc (chr "'") c then (w, advance 1 lx)
      else single_quoted_loop rest' (push c w) (advance 1 lx)
  end.

Definition single_quoted (w : Word) (lx : Lexer) : Word * Lexer :=
  single_quoted_loop (unread lx) (set_quoted w) lx.

(** Up to [max] digits; [None] when there are none. *)
Fixpoint code_point_loop (max : nat) (radix value : N) (digits : nat) (lx : Lexer)
  : N * nat * Lexer :=
  match max with
  | O => (value, digits, lx)
  | S max' =>
      match peek lx with
      | Some c =>
          match to_digit radix c with
          | Some digit => code_point_loop max' radix (value * radix + digit) (S digits) (advance 1 lx)
          | None => (value, digits, lx)
          end
      | None => (value, digits, lx)
      end
  end.

Definition code_point (radix : N) (max : nat) (lx : Lexer) : option char * Lexer :=
  let '(value, digits, lx') := code_point_loop max radix 0 0 lx in
  match digits with
  | O => (None, lx')
  | _ => (char_from_u32 value, lx')
  end.

Definition ansi_escape (w : Word) (lx : Lexer) : Word * Lexer :=
  match bump lx with
  | (None, lx1) => (w, set_ok false lx1)
  | (Some c, lx1) =>
      let '(w', decoded, lx2) :=
        if eqc (chr "n") c then (w, Some 10, lx1)
        else if eqc (chr "t") c then (w, Some 9, lx1)
        else if eqc (chr "r") c then (w, Some 13, lx1)
        else if eqc (chr "a") c then (w, Some 7, lx1)
        else if eqc (chr "b") c then (w, Some 8, lx1)
        else if one_of "eE" c then (w, Some 27, lx1)
        else if eqc (chr "f") c then (w, Some 12, lx1)
        else if eqc (chr "v") c then (w, Some 11, lx1)
        else if eqc (chr "x") c then let '(d, l) := code_point 16 2 lx1 in (w, d, l)
        else if eqc (chr "u") c then let '(d, l) := code_point 16 4 lx1 in (w, d, l)
        else if eqc (chr "U") c then let '(d, l) := code_point 16 8 lx1 in (w, d, l)
        else if in_range 48 55 c then
          let '(d, l) := code_point 8 3 (set_pos (pos lx1 - 1) lx1) in
          (w, (fun v => N.land v 255) <$> d, l)
        else if eqc (chr "c") c then
          let '(n, l) := bump lx1 in (w, (fun v => N.land v 31) <$> n, l)
        else if one_of "\'?" c || eqc DQUOTE c then (w, Some c, lx1)
        else (push (chr "\") w, Some c, lx1) in
      (match decoded with Some d => push d w' | None => w' end, lx2)
  end.

Section WithLoops.
Variable self : Rec.

Definition ansi_c_loop (w : Word) : M Word := fun lx =>
  match bump lx with
  | (None, lx1) => Some (w, set_ok false lx1)
  | (Some c, lx1) =>
      if eqc (chr "'") c then Some (w, lx1)
      else if eqc (chr "\") c then
        let '(w', lx2) := ansi_escape w lx1 in r_ansi_c self w' lx2
      else r_ansi_c self (push c w) lx1
  end.

Definition ansi_c (w : Word) : M Word := r_ansi_c self (set_quoted w).

Definition double_quoted (w : Word) : M Word := r_double_quoted self (set_quoted w).

Definition parameter (w : Word) : M Word :=
  r_parameter self (push_str (str "${") (set_param true w)) 1.

(** * nested.rs *)

(** The number of chars up to and including the closing parenthesis;
    [in_quote] while the inner loop skips a single-quoted part. *)
Fixpoint skip_to_close_loop (rest : list char) (in_quote : bool) (open : nat) : nat :=
  match rest with
  | [] => 0
  | c :: rest' =>
      if in_quote then S (skip_to_close_loop rest' (negb (eqc (chr "'") c)) open)
      else if eqc (chr "\") c then
        match rest' with
        | _ :: rest'' => S (S (skip_to_close_loop rest'' false open))
        | [] => 1
        end
      else if eqc (chr "'") c then S (skip_to_close_loop rest' true open)
      else if eqc (chr "(") c then S (skip_to_close_loop rest' false (S open))
      else if eqc (chr ")") c then
        match open with
        | O => 1
        | S open' => S (skip_to_close_loop rest' false open')
        end
      else S (skip_to_close_loop rest' false open)
  end.

Definition skip_to_close (lx : Lexer) : Lexer :=
  advance (skip_to_close_loop (unread lx) false 0) lx.

(** The commands of [$(..)], [<(..)] or [>(..)], or the skipped text of a
    substitution nested too deeply. *)
Definition substitution_commands (lx : Lexer) : option Lexer :=
  if (MAX_DEPTH <=? depth lx)%nat then Some (skip_to_close (set_ok false lx))
  else
    let outer := heredocs lx in
    match r_list self true [] default_segment 0 (set_heredocs [] (set_depth (S (depth lx)) lx)) with
    | None => None
    | Some (segments, lx1) =>
        let lx2 := set_ok (ok lx1 && is_empty (heredocs lx1)) lx1 in
        let lx3 := set_depth (depth lx2 - 1) (set_heredocs outer lx2) in
        Some (set_nested (nested lx3 ++ segments) lx3)
    end.

Definition substitution (w : Word) (sigil : char) : M Word := fun lx =>
  let w1 := set_param true w in
  let start := pos lx in
  match substitution_commands (set_dynamic true lx) with
  | None => None
  | Some lx1 =>
      let end_ := Nat.min (pos lx1) (length (chars lx1)) in
      let slice := take (end_ - start) (drop start (chars lx1)) in
      Some (push_str (sigil :: chr "(" :: slice) w1, lx1)
  end.

(** The text between backticks, whether it was closed, and its length. *)
Fixpoint backtick_loop (rest : list char) (inner : text) : text * bool * nat :=
  match rest with
  | [] => (inner, false, 0%nat)
  | c :: rest' =>
      if eqc (chr "`") c then (inner, true, 1%nat)
      else if eqc (chr "\") c then
        match rest' with
        | e :: rest'' =>
            let inner' :=
              if one_of "`\$" e then inner ++ [e] else inner ++ [chr "\"; e] in
            let '(i, closed, n) := backtick_loop rest'' inner' in (i, closed, S (S n))
        | [] => (inner, false, 1%nat)
        end
      else let '(i, closed, n) := backtick_loop rest' (inner ++ [c]) in (i, closed, S n)
  end.

Definition absorb (sub lx : Lexer) : Lexer :=
  set_nested (nested lx ++ nested sub)
    (set_dynamic (dynamic lx || dynamic sub) (set_ok (ok lx && ok sub) lx)).

Definition backtick (w : Word) : M Word := fun lx =>
  let lx1 := set_dynamic true lx in
  let '(inner, closed, n) := backtick_loop (unread lx1) [] in
  let lx2 := set_ok (ok lx1 && closed) (advance n lx1) in
  let w1 := push (chr "`") (push_str inner (push (chr "`") (set_param true w))) in
  if (MAX_DEPTH <=? depth lx2)%nat then Some (w1, set_ok false lx2)
  else
    match r_list self false [] default_segment 0 (new_lexer inner (S (depth lx2))) with
    | None => None
    | Some (segments, sub) =>
        Some (w1, absorb sub (set_nested (nested lx2 ++ segments) lx2))
    end.

(** A [$] construct; [in_double] disables [$'..'] and [$".."]. *)
Definition dollar (w : Word) (in_double : bool) : M Word := fun lx0 =>
  let lx := advance 1 lx0 in
  match peek lx with
  | None => Some (push (chr "$") w, lx)
  | Some c =>
      if eqc (chr "(") c then substitution w (chr "$") (advance 1 lx)
      else if eqc (chr "{") c then parameter w (advance 1 lx)
      else if eqc (chr "'") c && negb in_double then ansi_c w (advance 1 lx)
      else if eqc DQUOTE c && negb in_double then double_quoted w (advance 1 lx)
      else if eqc (chr "[") c then
        Some (push (chr "$") (set_param true w), set_dynamic true lx)
      else if name_start c then
        let name := take_while name_char (unread lx) in
        Some (push_str (chr "$" :: name) (set_param true w), advance (length name) lx)
      else if is_ascii_digit c || one_of "@*#?$!-" c then
        Some (push_str [chr "$"; c] (set_param true w), advance 1 lx)
      else Some (push (chr "$") w, lx)
  end.

Definition double_quoted_loop (w : Word) : M Word := fun lx =>
  match peek lx with
  | None => Some (w, set_ok false lx)
  | Some c =>
      if eqc DQUOTE c then Some (w, advance 1 lx)
      else if eqc (chr "\") c then
        match bump (advance 1 lx) with
        | (None, lx1) => Some (w, set_ok false lx1)
        | (Some e, lx1) =>
            if eqc NEWLINE e then r_double_quoted self w lx1
            else if one_of "$`\" e || eqc DQUOTE e then r_double_quoted self (push e w) lx1
            else r_double_quoted self (push_str [chr "\"; e] w) lx1
        end
      else if eqc (chr "$") c then
        bindM (dollar w true) (fun w' => r_double_quoted self w') lx
      else if eqc (chr "`") c then
        bindM (backtick w) (fun w' => r_double_quoted self w') (advance 1 lx)
      else r_double_quoted self (push c w) (advance 1 lx)
  end.

(** The rest of [${..}], with [open] braces still to close. *)
Definition parameter_loop (w : Word) (open : nat) : M Word := fun lx =>
  match open with
  | O => Some (w, lx)
  | S open' =>
      match peek lx with
      | None => Some (w, set_ok false lx)
      | Some c =>
          if eqc (chr "'") c then
            let '(w', lx1) := single_quoted w (advance 1 lx) in r_parameter self w' open lx1
          else if eqc DQUOTE c then
            bindM (double_quoted w) (fun w' => r_parameter self w' open) (advance 1 lx)
          else if eqc (chr "$") c then
            bindM (dollar w true) (fun w' => r_parameter self w' open) lx
          else if eqc (chr "`") c then
            bindM (backtick w) (fun w' => r_parameter self w' open) (advance 1 lx)
          else if eqc (chr "\") c then
            match bump (advance 1 lx) with
            | (Some e, lx1) => r_parameter self (push e w) open lx1
            | (None, lx1) => r_parameter self w open lx1
            end
          else
            let open1 := if eqc (chr "{") c then S open else if eqc (chr "}") c then open' else open in
            r_parameter self (push c w) open1 (advance 1 lx)
      end
  end.

(** Command substitutions inside an unquoted heredoc body. *)
Definition expansions_loop (sink : Word) : M Word := fun sub =>
  match peek sub with
  | None => Some (sink, sub)
  | Some c =>
      if eqc (chr "\") c then
        r_expansions self sink (set_pos (Nat.min (pos sub + 2) (length (chars sub))) sub)
      else if eqc (chr "$") c then
        bindM (dollar sink true) (fun w => r_expansions self w) sub
      else if eqc (chr "`") c then
        bindM (backtick sink) (fun w => r_expansions self w) (advance 1 sub)
      else r_expansions self sink (advance 1 sub)
  end.

Definition body_expansions (body : text) (lx : Lexer) : option Lexer :=
  if (MAX_DEPTH <=? depth lx)%nat then Some (set_ok false lx)
  else
    match r_expansions self default_word (new_lexer body (S (depth lx))) with
    | None => None
    | Some (_, sub) => Some (absorb sub lx)
    end.

(** The lines of one heredoc body: the body and whether it was closed. *)
Definition heredoc_lines_loop (doc : Heredoc) (body : text) : M (text * bool) := fun lx =>
  if (pos lx <? length (chars lx))%nat then
    let line := take_while (fun c => negb (eqc NEWLINE c)) (unread lx) in
    let end_ := (pos lx + length line)%nat in
    let lx1 := set_pos (Nat.min (end_ + 1) (length (chars lx))) lx in
    let candidate := if strip_tabs doc then trim_start_by (eqc TAB) line else line in
    if teqb candidate (delimiter doc) then Some ((body, true), lx1)
    else r_heredoc_lines self doc (body ++ line ++ [NEWLINE]) lx1
  else Some ((body, false), lx).

Fixpoint heredoc_each (docs : list Heredoc) (lx : Lexer) : option Lexer :=
  match docs with
  | [] => Some lx
  | doc :: docs' =>
      match r_heredoc_lines self doc [] lx with
      | None => None
      | Some ((body, closed), lx1) =>
          let lx2 := set_ok (ok lx1 && closed) lx1 in
          match (if heredoc_expands doc then body_expansions body lx2 else Some lx2) with
          | None => None
          | Some lx3 => heredoc_each docs' lx3
          end
      end
  end.

Definition heredoc_bodies (lx : Lexer) : option Lexer :=
  heredoc_each (heredocs lx) (set_heredocs [] lx).

(** * scanner.rs: words *)

(** A decoded NUL ends the word. *)
Definition finish_word (w : Word) (started : bool) : option Word :=
  if started then Some (set_text (take_while (fun c => negb (c =? 0)) (text_ w)) w) else None.

Definition word_loop (w : Word) (started : bool) (brace_at : option nat) : M (option Word) :=
  fun lx =>
  match peek lx with
  | None => Some (finish_word w started, lx)
  | Some c =>
      if one_of " ;&|()" c || eqc TAB c || eqc NEWLINE c then Some (finish_word w started, lx)
      else if one_of "<>" c && negb (peeks (eqc (chr "(")) (peek_at 1 lx)) then
        Some (finish_word w started, lx)
      else if one_of "<>" c then
        bindM (substitution w c) (fun w' => r_word self w' true brace_at) (advance 2 lx)
      else if eqc (chr "'") c then
        let '(w', lx1) := single_quoted w (advance 1 lx) in r_word self w' true brace_at lx1
      else if eqc DQUOTE c then
        bindM (double_quoted w) (fun w' => r_word self w' true brace_at) (advance 1 lx)
      else if eqc (chr "\") c then
        match bump (advance 1 lx) with
        | (Some e, lx1) =>
            if eqc NEWLINE e then r_word self w started brace_at lx1
            else r_word self (set_quoted (push e w)) true brace_at lx1
        | (None, lx1) => r_word self (push (chr "\") w) true brace_at lx1
        end
      else if eqc (chr "$") c then
        bindM (dollar w false) (fun w' => r_word self w' true brace_at) lx
      else if eqc (chr "`") c then
        bindM (backtick w) (fun w' => r_word self w' true brace_at) (advance 1 lx)
      else
        let '(w', brace_at') := plain w c started brace_at in
        r_word self w' true brace_at' (advance 1 lx)
  end.

(** One word; [None] when only a line continuation was consumed. *)
Definition word : M (option Word) := r_word self default_word false None.

(** * redirect.rs *)

Inductive Operator :=
| ORead | OWrite | ODuplicateOut | ODuplicateIn | OHeredoc (strip : bool) | OHereString.

Definition operator (lx0 : Lexer) : Operator * Lexer :=
  let '(c, lx) := bump lx0 in
  if peeks (eqc (chr "&")) c then
    let lx1 := advance 1 lx in
    (OWrite, if peeks (eqc (chr ">")) (peek lx1) then advance 1 lx1 else lx1)
  else if peeks (eqc (chr ">")) c then
    if peeks (one_of ">|") (peek lx) then (OWrite, advance 1 lx)
    else if peeks (eqc (chr "&")) (peek lx) then (ODuplicateOut, advance 1 lx)
    else (OWrite, lx)
  else if peeks (eqc (chr "<")) (peek lx) then
    let lx1 := advance 1 lx in
    if peeks (eqc (chr "<")) (peek lx1) then (OHereString, advance 1 lx1)
    else if peeks (eqc (chr "-")) (peek lx1) then (OHeredoc true, advance 1 lx1)
    else (OHeredoc false, lx1)
  else if peeks (eqc (chr ">")) (peek lx) then (OWrite, advance 1 lx)
  else if peeks (eqc (chr "&")) (peek lx) then (ODuplicateIn, advance 1 lx)
  else (ORead, lx).

(** A redirection starting at [<], [>] or [&>]. *)
Definition redirect (segment : Segment) : M Segment := fun lx0 =>
  let attached := bool_decide (word_end lx0 = Some (pos lx0))
                  && match last (words segment) with Some w => names_descriptor w | None => false end in
  let segment1 := if attached then mkSegment (removelast (words segment)) (redirects segment)
                  else segment in
  let '(op, lx1) := operator lx0 in
  let lx2 := skip_while (fun c => eqc (chr " ") c || eqc TAB c) lx1 in
  bindM word (fun found lx3 =>
    match found with
    | None => Some (segment1, set_ok false lx3)
    | Some target_ =>
        let '(kind_, lx4) :=
          match op with
          | ORead => (RRead, lx3)
          | OWrite => (RWrite, lx3)
          | ODuplicateOut => (if is_descriptor target_ then RDuplicate else RWrite, lx3)
          | ODuplicateIn => (if is_descriptor target_ then RDuplicate else RRead, lx3)
          | OHeredoc strip =>
              (RInline,
               set_heredocs (heredocs lx3 ++ [mkHeredoc (text_ target_) strip (negb (quoted target_))]) lx3)
          | OHereString => (RInline, lx3)
          end in
        Some (mkSegment (words segment1) (redirects segment1 ++ [mkRedirect kind_ target_]), lx4)
    end) lx2.

(** * scanner.rs: lists *)

Definition finish (segments : list Segment) (current : Segment) : list Segment :=
  if negb (is_empty (words current)) || negb (is_empty (redirects current))
  then segments ++ [current] else segments.

Definition push_word (w : Word) (s : Segment) : Segment :=
  mkSegment (words s ++ [w]) (redirects s).

(** Segments up to the end of input or, inside a substitution, up to and
    including its closing parenthesis. *)
Definition list_loop (in_substitution : bool) (segments : list Segment) (current : Segment)
    (groups : nat) : M (list Segment) := fun lx =>
  match peek lx with
  | None =>
      let lx1 := if in_substitution || negb (is_empty (heredocs lx))
                 then set_heredocs [] (set_ok false lx) else lx in
      Some (finish segments current, lx1)
  | Some c =>
      if eqc (chr " ") c || eqc TAB c then
        r_list self in_substitution segments current groups (advance 1 lx)
      else if eqc NEWLINE c then
        match heredoc_bodies (advance 1 lx) with
        | None => None
        | Some lx1 =>
            r_list self in_substitution (finish segments current) default_segment groups lx1
        end
      else if eqc (chr "#") c then
        r_list self in_substitution segments current groups
          (skip_while (fun x => negb (eqc NEWLINE x)) lx)
      else if eqc (chr "&") c && peeks (eqc (chr ">")) (peek_at 1 lx) then
        bindM (redirect current) (fun s => r_list self in_substitution segments s groups) lx
      else if one_of ";&|" c then
        r_list self in_substitution (finish segments current) default_segment groups (advance 1 lx)
      else if eqc (chr "(") c then
        r_list self in_substitution (finish segments current) default_segment (S groups) (advance 1 lx)
      else if eqc (chr ")") c then
        let segments' := finish segments current in
        let lx1 := advance 1 lx in
        match groups with
        | S groups' => r_list self in_substitution segments' default_segment groups' lx1
        | O =>
            if in_substitution then Some (segments', lx1)
            else r_list self in_substitution segments' default_segment groups (set_ok false lx1)
        end
      else if one_of "<>" c && negb (peeks (eqc (chr "(")) (peek_at 1 lx)) then
        bindM (redirect current) (fun s => r_list self in_substitution segments s groups) lx
      else
        bindM word (fun found lx1 =>
          match found with
          | Some w =>
              r_list self in_substitution segments (push_word w current) groups
                (set_word_end (Some (pos lx1)) lx1)
          | None => r_list self in_substitution segments current groups lx1
          end) lx
  end.

(** One turn of every loop, over [self] for the turns that follow. *)
Definition step : Rec :=
  mkRec list_loop word_loop double_quoted_loop parameter_loop ansi_c_loop
    heredoc_lines_loop expansions_loop.
End WithLoops.

(** * Tying the knot *)

Definition stuck : Rec :=
  mkRec (fun _ _ _ _ _ => None) (fun _ _ _ _ => None) (fun _ _ => None) (fun _ _ _ => None)
    (fun _ _ => None) (fun _ _ _ => None) (fun _ _ => None).

Fixpoint lexn (fuel : nat) : Rec :=
  match fuel with
  | O => stuck
  | S f => step (lexn f)
  end.

(** Two units of fuel per char and two more are enough (LexerFacts). *)
Definition lex_fuel (input : text) : nat := 2 * length input + 2.

Definition lex_with (fuel : nat) (input : text) : option Lexed :=
  match r_list (lexn fuel) false [] default_segment 0
          (set_ok (blen input <=? MAX_LEN) (new_lexer input 0)) with
  | Some (segments, lx) => Some (mkLexed segments (nested lx) (ok lx) (dynamic lx))
  | None => None
  end.

Definition lex (input : text) : Lexed :=
  match lex_with (lex_fuel input) input with
  | Some r => r
  | None => mkLexed [] [] false true
  end.
