(* ===== verification/LexerFacts.v ===== *)
(** Facts about the lexer: it terminates within its fuel whatever the input,
    more fuel changes nothing, and its flags fail closed. *)

From S2P Require Export Lexer.

(** * Termination *)

(** Chars still to read. *)
Definition rem (lx : Lexer) : nat := length (chars lx) - pos lx.

(** What every lexer function keeps: the input, and a position that only
    moves forward. *)
Definition frame (lx lx' : Lexer) : Prop :=
  chars lx' = chars lx /\ (pos lx <= pos lx')%nat.

(** The char at which [word] stops without consuming anything. *)
Definition word_breaks (c : char) (lx : Lexer) : bool :=
  one_of " ;&|()" c || eqc TAB c || eqc NEWLINE c
  || one_of "<>" c && negb (peeks (eqc (chr "(")) (peek_at 1 lx)).

Definition terminates {A} (o : option (A * Lexer)) (lx : Lexer) (Q : A -> Lexer -> Prop) : Prop :=
  exists a lx', o = Some (a, lx') /\ frame lx lx' /\ Q a lx'.

(** The loops terminate when two units of fuel per unread char are left. *)
Record Enough (n : nat) (self : Rec) : Prop := {
  e_list : forall b segs cur g lx, 2 * rem lx + 2 <= n ->
    terminates (r_list self b segs cur g lx) lx (fun _ _ => True);
  e_word : forall w st br lx, 2 * rem lx + 1 <= n ->
    terminates (r_word self w st br lx) lx (fun _ lx' =>
      forall c, peek lx = Some c -> word_breaks c lx = false -> (pos lx < pos lx')%nat);
  e_double : forall w lx, 2 * rem lx + 1 <= n ->
    terminates (r_double_quoted self w lx) lx (fun _ _ => True);
  e_param : forall w d lx, 2 * rem lx + 1 <= n ->
    terminates (r_parameter self w d lx) lx (fun _ _ => True);
  e_ansi : forall w lx, 2 * rem lx + 1 <= n ->
    terminates (r_ansi_c self w lx) lx (fun _ _ => True);
  e_lines : forall doc body lx, 2 * rem lx + 1 <= n ->
    terminates (r_heredoc_lines self doc body lx) lx (fun r _ =>
      (length (fst r) <= length body + rem lx + Nat.min 1 (rem lx))%nat);
  e_exp : forall w lx, 2 * rem lx + 1 <= n ->
    terminates (r_expansions self w lx) lx (fun _ _ => True)
}.

Lemma frame_refl lx : frame lx lx.
Proof. by split. Qed.

Lemma frame_trans lx1 lx2 lx3 : frame lx1 lx2 -> frame lx2 lx3 -> frame lx1 lx3.
Proof. intros [H1 H2] [H3 H4]. split; [congruence|lia]. Qed.

Lemma peek_lt lx c : peek lx = Some c -> (pos lx < length (chars lx))%nat.
Proof. apply lookup_lt_Some. Qed.

Lemma peek_unread lx c : peek lx = Some c -> unread lx = c :: drop (S (pos lx)) (chars lx).
Proof. intros H. by apply drop_S. Qed.

Lemma peek_None_rem lx : peek lx = None -> rem lx = 0%nat.
Proof. intros H%lookup_ge_None. unfold rem. lia. Qed.

Lemma length_unread lx : length (unread lx) = rem lx.
Proof. apply length_drop. Qed.

Lemma bump_frame lx : frame lx (bump lx).2.
Proof. unfold bump. destruct (peek lx); (split; simpl; [done|lia]). Qed.

Lemma bump_Some lx c lx' : bump lx = (Some c, lx') -> peek lx = Some c /\ lx' = advance 1 lx.
Proof. unfold bump. destruct (peek lx); intros [= <- <-]. done. Qed.

Lemma bump_None lx lx' : bump lx = (None, lx') -> peek lx = None /\ lx' = lx.
Proof. unfold bump. destruct (peek lx); intros [= <-]. done. Qed.

(** Arithmetic over positions. *)
Ltac lx_arith :=
  repeat match goal with
  | H : peek _ = Some _ |- _ => apply peek_lt in H
  | H : frame _ _ |- _ => destruct H
  end;
  unfold rem, frame, advance, set_pos, set_ok, set_dynamic, set_depth, set_heredocs,
    set_nested, set_word_end, new_lexer in *;
  simpl in *;
  repeat match goal with H : chars _ = _ |- _ => rewrite H in * end;
  split_and?; try done; lia.

Lemma single_quoted_frame rest w lx : frame lx (single_quoted_loop rest w lx).2.
Proof.
  revert w lx. induction rest as [|c rest IH]; intros w lx; simpl; [by split|].
  destruct (eqc (chr "'") c); [by split; simpl; [done|lia]|].
  eapply frame_trans; [|apply IH]. split; simpl; [done|lia].
Qed.

Lemma code_point_frame max radix v d lx : frame lx (code_point_loop max radix v d lx).2.
Proof.
  revert v d lx. induction max as [|max IH]; intros v d lx; simpl; [by split|].
  destruct (peek lx) as [c|]; [|by split].
  destruct (to_digit radix c); [|by split].
  eapply frame_trans; [|apply IH]. split; simpl; [done|lia].
Qed.

Lemma code_point_frame' radix max lx : frame lx (code_point radix max lx).2.
Proof.
  unfold code_point. pose proof (code_point_frame max radix 0 0 lx) as H.
  destruct (code_point_loop max radix 0 0 lx) as [[v d] l]. by destruct d.
Qed.

Lemma ansi_escape_frame w lx : frame lx (ansi_escape w lx).2.
Proof.
  unfold ansi_escape. destruct (bump lx) as [[c|] lx1] eqn:Eb.
  2: { apply bump_None in Eb as [_ ->]. by split. }
  apply bump_Some in Eb as [Hp ->].
  pose proof (code_point_frame' 16 2 (advance 1 lx)) as H2.
  pose proof (code_point_frame' 16 4 (advance 1 lx)) as H4.
  pose proof (code_point_frame' 16 8 (advance 1 lx)) as H8.
  pose proof (code_point_frame' 8 3 (set_pos (pos (advance 1 lx) - 1) (advance 1 lx))) as H3.
  pose proof (bump_frame (advance 1 lx)) as Hb.
  assert (Ha : frame lx (advance 1 lx)) by (split; simpl; [done|lia]).
  assert (H0 : frame lx (set_pos (pos (advance 1 lx) - 1) (advance 1 lx))) by (split; simpl; [done|lia]).
  destruct (code_point 16 2 _), (code_point 16 4 _), (code_point 16 8 _),
    (code_point 8 3 _), (bump (advance 1 lx)).
  repeat case_if; cbn [snd] in *; eauto using frame_trans.
Qed.

Lemma backtick_loop_len rest inner i closed n :
  backtick_loop rest inner = (i, closed, n) ->
  (length i <= length inner + length rest /\ n <= length rest)%nat.
Proof.
  remember (length rest) as k eqn:Hk. revert rest inner i closed n Hk.
  induction (lt_wf k) as [k _ IH]. intros rest inner i closed n -> H.
  destruct rest as [|c rest]; simpl in H; [injection H as <- <- <-; simpl; lia|].
  destruct (eqc (chr "`") c); [injection H as <- <- <-; simpl; lia|].
  destruct (eqc (chr "\") c).
  - destruct rest as [|e rest]; [injection H as <- <- <-; simpl; lia|].
    destruct (backtick_loop rest _) as [[i' c'] n'] eqn:E. injection H as <- <- <-.
    apply (IH (length rest)) in E; [|simpl; lia|done].
    destruct (one_of _ _); rewrite length_app in E; simpl in *; lia.
  - destruct (backtick_loop rest _) as [[i' c'] n'] eqn:E. injection H as <- <- <-.
    apply (IH (length rest)) in E; [|simpl; lia|done].
    rewrite length_app in E; simpl in *; lia.
Qed.

Section Termination.
Variables (n : nat) (self : Rec).
Hypothesis EN : Enough n self.

Lemma terminates_bind {A B} (m : M A) (k : A -> M B) lx (P : A -> Lexer -> Prop) Q :
  terminates (m lx) lx P ->
  (forall a lx1, frame lx lx1 -> P a lx1 -> terminates (k a lx1) lx1 (fun b lx' => Q b lx')) ->
  terminates (bindM m k lx) lx Q.
Proof.
  intros (a & lx1 & Em & Hf & HP) Hk.
  destruct (Hk a lx1 Hf HP) as (b & lx2 & Ek & Hf2 & HQ).
  exists b, lx2. unfold bindM. rewrite Em. eauto using frame_trans.
Qed.

(** A call that starts after part of the input was consumed. *)
Lemma terminates_from {A} (o : option (A * Lexer)) lx lx1 P Q :
  terminates o lx1 P -> frame lx lx1 ->
  (forall a lx', frame lx1 lx' -> P a lx' -> Q a lx') ->
  terminates o lx Q.
Proof. intros (a & lx' & E & Hf & HP) H1 HQ. exists a, lx'. eauto using frame_trans. Qed.

Lemma terminates_ret {A} (a : A) lx lx' (Q : A -> Lexer -> Prop) :
  frame lx lx' -> Q a lx' -> terminates (Some (a, lx')) lx Q.
Proof. intros. exists a, lx'. done. Qed.

Lemma substitution_commands_terminates lx :
  2 * rem lx + 2 <= n -> exists lx', substitution_commands self lx = Some lx' /\ frame lx lx'.
Proof using EN.
  intros Hn. unfold substitution_commands.
  case_if; [eexists; split; [done|]; split; simpl; [done|lia]|].
  edestruct (e_list _ _ EN true [] default_segment 0
    (set_heredocs [] (set_depth (S (depth lx)) lx))) as (a & lx1 & -> & Hf & _); [lx_arith|].
  eexists; split; [done|]. lx_arith.
Qed.

Lemma substitution_terminates w sigil lx :
  2 * rem lx + 2 <= n -> terminates (substitution self w sigil lx) lx (fun _ _ => True).
Proof using EN.
  intros Hn. unfold substitution.
  destruct (substitution_commands_terminates (set_dynamic true lx)) as (lx' & -> & Hf); [lx_arith|].
  apply terminates_ret; [|done]. lx_arith.
Qed.

Lemma backtick_terminates w lx :
  2 * rem lx + 2 <= n -> terminates (backtick self w lx) lx (fun _ _ => True).
Proof using EN.
  intros Hn. unfold backtick.
  destruct (backtick_loop (unread (set_dynamic true lx)) []) as [[inner closed] k] eqn:E.
  apply backtick_loop_len in E as [Hi Hk].
  assert (Hu : length (unread (set_dynamic true lx)) = rem lx) by (apply (length_unread (set_dynamic true lx))).
  rewrite Hu in *. simpl in Hi.
  case_if; [apply terminates_ret; [lx_arith|done]|].
  edestruct (e_list _ _ EN false [] default_segment 0
    (new_lexer inner (S (depth (set_ok (ok (set_dynamic true lx) && closed)
       (advance k (set_dynamic true lx))))))) as (a & sub & -> & Hf & _); [lx_arith|].
  apply terminates_ret; [unfold absorb; lx_arith|done].
Qed.

Lemma double_quoted_terminates w lx :
  2 * rem lx + 1 <= n -> terminates (double_quoted self w lx) lx (fun _ _ => True).
Proof using EN. apply (e_double _ _ EN). Qed.

Lemma dollar_terminates w b lx :
  1 <= rem lx -> 2 * rem lx <= n ->
  terminates (dollar self w b lx) lx (fun _ lx' => (pos lx < pos lx')%nat).
Proof using EN.
  intros H1 Hn. unfold dollar.
  assert (Hf : frame lx (advance 1 lx)) by lx_arith.
  destruct (peek (advance 1 lx)) as [c|] eqn:Hp; [|apply terminates_ret; [done|lx_arith]].
  assert (Hf2 : frame lx (advance 1 (advance 1 lx))) by lx_arith.
  assert (Hgo : forall A (o : option (A * Lexer)) lx1, (pos lx < pos lx1)%nat -> frame lx lx1 ->
            terminates o lx1 (fun _ _ => True) -> terminates o lx (fun _ lx' => (pos lx < pos lx')%nat)).
  { intros A o lx1 Hlt Hfr Ht. eapply terminates_from; [exact Ht|done|].
    intros a lx' [_ ?] _. lia. }
  assert (Hlt : (pos lx < pos (advance 1 (advance 1 lx)))%nat) by lx_arith.
  repeat case_if;
    try (apply terminates_ret; [lx_arith|lx_arith]).
  - apply (Hgo _ _ _ Hlt Hf2), substitution_terminates. lx_arith.
  - apply (Hgo _ _ _ Hlt Hf2), (e_param _ _ EN). lx_arith.
  - apply (Hgo _ _ _ Hlt Hf2), (e_ansi _ _ EN). lx_arith.
  - apply (Hgo _ _ _ Hlt Hf2), (e_double _ _ EN). lx_arith.
Qed.

Lemma body_expansions_terminates body lx :
  2 * length body + 1 <= n -> exists lx', body_expansions self body lx = Some lx' /\ frame lx lx'.
Proof using EN.
  intros Hn. unfold body_expansions. case_if; [eexists; split; [done|lx_arith]|].
  edestruct (e_exp _ _ EN default_word (new_lexer body (S (depth lx))))
    as (a & sub & -> & Hf & _); [lx_arith|].
  eexists; split; [done|]. unfold absorb. lx_arith.
Qed.

Lemma heredoc_each_terminates docs lx :
  2 * rem lx + 3 <= n -> exists lx', heredoc_each self docs lx = Some lx' /\ frame lx lx'.
Proof using EN.
  revert lx. induction docs as [|doc docs IH]; intros lx Hn; cbn [heredoc_each].
  { eexists; split; [done|apply frame_refl]. }
  edestruct (e_lines _ _ EN doc [] lx) as ([body closed] & lx1 & -> & Hf & Hlen); [lia|].
  cbn [fst length] in Hlen.
  assert (Hb : exists lx3,
    (if heredoc_expands doc then body_expansions self body (set_ok (ok lx1 && closed) lx1)
     else Some (set_ok (ok lx1 && closed) lx1)) = Some lx3 /\ frame lx lx3).
  { case_if.
    - destruct (body_expansions_terminates body (set_ok (ok lx1 && closed) lx1))
        as (lx3 & -> & Hf3); [lia|].
      exists lx3. split; [done|]. lx_arith.
    - eexists; split; [done|]. lx_arith. }
  destruct Hb as (lx3 & -> & Hf3).
  destruct (IH lx3) as (lx' & E & Hf'); [lx_arith|].
  exists lx'. eauto using frame_trans.
Qed.

Lemma operator_frame lx c :
  peek lx = Some c -> frame lx (operator lx).2 /\ (pos lx < pos (operator lx).2)%nat.
Proof using.
  intros Hp. unfold operator, bump. rewrite Hp.
  repeat case_if; cbn [snd]; lx_arith.
Qed.

Lemma redirect_terminates seg lx c :
  peek lx = Some c -> 2 * rem lx <= n + 1 ->
  terminates (redirect self seg lx) lx (fun _ lx' => (pos lx < pos lx')%nat).
Proof using EN.
  intros Hp Hn. unfold redirect.
  destruct (operator_frame lx c Hp) as [Hf Hlt].
  destruct (operator lx) as [op lx1]. cbn [snd] in *.
  set (lx2 := skip_while _ lx1).
  assert (Hf2 : frame lx lx2 /\ (pos lx < pos lx2)%nat) by (unfold lx2, skip_while; lx_arith).
  destruct Hf2 as [Hf2 Hlt2]. pose proof (peek_lt _ _ Hp) as Hlen.
  eapply (terminates_from _ _ lx2 (fun _ _ => True)); [|done|intros a lx' [_ ?] _; lia].
  eapply terminates_bind; [apply (e_word _ _ EN); lx_arith|].
  intros [w|] lx3 Hf3 _; [|apply terminates_ret; [by split; simpl|done]].
  destruct op; apply terminates_ret; try done; split; simpl; auto.
Qed.

(** One loop turn that consumes a char and continues. *)
Lemma terminates_after {A} (o : option (A * Lexer)) lx lx1 P :
  frame lx lx1 -> terminates o lx1 P -> terminates o lx (fun _ _ => True).
Proof using. intros Hf Ht. eapply terminates_from; eauto. Qed.

Lemma ansi_c_loop_terminates w lx :
  2 * rem lx + 1 <= S n -> terminates (ansi_c_loop self w lx) lx (fun _ _ => True).
Proof using EN.
  intros Hn. unfold ansi_c_loop. destruct (bump lx) as [[c|] lx1] eqn:Eb.
  2: { apply bump_None in Eb as [_ ->]. apply terminates_ret; [by split|done]. }
  apply bump_Some in Eb as [Hp ->].
  assert (Hf : frame lx (advance 1 lx)) by lx_arith.
  repeat case_if.
  - apply terminates_ret; [done|done].
  - pose proof (ansi_escape_frame w (advance 1 lx)) as He.
    destruct (ansi_escape w (advance 1 lx)) as [w' lx2]. cbn [snd] in He.
    eapply terminates_after; [by eapply frame_trans|apply (e_ansi _ _ EN)].
    lx_arith.
  - eapply terminates_after; [done|apply (e_ansi _ _ EN)]. lx_arith.
Qed.

Lemma double_quoted_loop_terminates w lx :
  2 * rem lx + 1 <= S n -> terminates (double_quoted_loop self w lx) lx (fun _ _ => True).
Proof using EN.
  intros Hn. unfold double_quoted_loop. destruct (peek lx) as [c|] eqn:Hp.
  2: { apply terminates_ret; [by split|done]. }
  assert (Hf : frame lx (advance 1 lx)) by lx_arith.
  assert (Hr : 1 <= rem lx) by lx_arith.
  assert (Hgo : forall w' lx1, frame lx lx1 -> (pos lx < pos lx1)%nat ->
            terminates (r_double_quoted self w' lx1) lx1 (fun _ _ => True)).
  { intros w' lx1 H1 H2. apply (e_double _ _ EN). lx_arith. }
  repeat case_if; try (apply terminates_ret; [lx_arith|done]).
  - destruct (bump (advance 1 lx)) as [[e|] lx1] eqn:Eb.
    + apply bump_Some in Eb as [Hp1 ->].
      repeat case_if; (eapply terminates_after; [|apply Hgo]); lx_arith.
    + apply bump_None in Eb as [_ ->]. apply terminates_ret; [lx_arith|done].
  - eapply terminates_bind; [apply dollar_terminates; lia|].
    intros w' lx1 Hf1 Hlt. by apply Hgo.
  - eapply terminates_after; [done|].
    eapply terminates_bind; [apply backtick_terminates; lx_arith|].
    intros w' lx1 Hf1 _. apply Hgo; lx_arith.
  - eapply terminates_after; [done|]. apply Hgo; lx_arith.
Qed.

Lemma parameter_loop_terminates w d lx :
  2 * rem lx + 1 <= S n -> terminates (parameter_loop self w d lx) lx (fun _ _ => True).
Proof using EN.
  intros Hn. unfold parameter_loop.
  destruct d as [|d]; [apply terminates_ret; [by split|done]|].
  destruct (peek lx) as [c|] eqn:Hp; [|apply terminates_ret; [by split|done]].
  assert (Hf : frame lx (advance 1 lx)) by lx_arith.
  assert (Hr : 1 <= rem lx) by lx_arith.
  assert (Hgo : forall w' d' lx1, frame lx lx1 -> (pos lx < pos lx1)%nat ->
            terminates (r_parameter self w' d' lx1) lx1 (fun _ _ => True)).
  { intros w' d' lx1 H1 H2. apply (e_param _ _ EN). lx_arith. }
  repeat case_if; try (eapply terminates_after; [done|]; apply Hgo; lx_arith).
  - unfold single_quoted.
    pose proof (single_quoted_frame (unread (advance 1 lx)) (set_quoted w) (advance 1 lx)) as Hs.
    destruct (single_quoted_loop _ _ _) as [w' lx1]. cbn [snd] in Hs.
    eapply terminates_after; [by eapply frame_trans|apply Hgo; lx_arith].
  - eapply terminates_after; [done|].
    eapply terminates_bind; [apply double_quoted_terminates; lx_arith|].
    intros w' lx1 Hf1 _. apply Hgo; lx_arith.
  - eapply terminates_bind; [apply dollar_terminates; lia|].
    intros w' lx1 Hf1 Hlt. by apply Hgo.
  - eapply terminates_after; [done|].
    eapply terminates_bind; [apply backtick_terminates; lx_arith|].
    intros w' lx1 Hf1 _. apply Hgo; lx_arith.
  - destruct (bump (advance 1 lx)) as [[e|] lx1] eqn:Eb.
    + apply bump_Some in Eb as [Hp1 ->]. eapply terminates_after; [|apply Hgo]; lx_arith.
    + apply bump_None in Eb as [_ ->]. eapply terminates_after; [|apply Hgo]; lx_arith.
Qed.

Lemma expansions_loop_terminates w lx :
  2 * rem lx + 1 <= S n -> terminates (expansions_loop self w lx) lx (fun _ _ => True).
Proof using EN.
  intros Hn. unfold expansions_loop. destruct (peek lx) as [c|] eqn:Hp.
  2: { apply terminates_ret; [by split|done]. }
  assert (Hf : frame lx (advance 1 lx)) by lx_arith.
  assert (Hr : 1 <= rem lx) by lx_arith.
  assert (Hgo : forall w' lx1, frame lx lx1 -> (pos lx < pos lx1)%nat ->
            terminates (r_expansions self w' lx1) lx1 (fun _ _ => True)).
  { intros w' lx1 H1 H2. apply (e_exp _ _ EN). lx_arith. }
  repeat case_if.
  - eapply terminates_after; [|apply Hgo]; lx_arith.
  - eapply terminates_bind; [apply dollar_terminates; lia|].
    intros w' lx1 Hf1 Hlt. by apply Hgo.
  - eapply terminates_after; [done|].
    eapply terminates_bind; [apply backtick_terminates; lx_arith|].
    intros w' lx1 Hf1 _. apply Hgo; lx_arith.
  - eapply terminates_after; [done|]. apply Hgo; lx_arith.
Qed.

Lemma take_while_length {A} (p : A -> bool) l : (length (take_while p l) <= length l)%nat.
Proof using. rewrite <- (take_while_drop_while p l) at 2. rewrite length_app. lia. Qed.

Lemma heredoc_lines_loop_terminates doc body lx :
  2 * rem lx + 1 <= S n ->
  terminates (heredoc_lines_loop self doc body lx) lx (fun r _ =>
    (length (fst r) <= length body + rem lx + Nat.min 1 (rem lx))%nat).
Proof using EN.
  intros Hn. unfold heredoc_lines_loop.
  destruct (Nat.ltb_spec (pos lx) (length (chars lx))) as [Hlt|Hge].
  2: { apply terminates_ret; [by split|]. cbn [fst]. lia. }
  pose proof (take_while_length (fun c => negb (eqc NEWLINE c)) (unread lx)) as Hl.
  rewrite length_unread in Hl.
  set (line := take_while _ (unread lx)) in *.
  set (lx1 := set_pos _ lx).
  assert (Hf : frame lx lx1) by (unfold lx1; lx_arith).
  set (stop := teqb _ _). destruct stop.
  { apply terminates_ret; [done|]. cbn [fst]. lia. }
  eapply terminates_from; [apply (e_lines _ _ EN)|done|].
  - unfold lx1. lx_arith.
  - intros [b closed] lx' _ Hb. cbn [fst] in *. rewrite !length_app in Hb.
    assert (Hr : rem lx1 = (rem lx - (length line + 1))%nat)
      by (unfold lx1, rem, set_pos; cbn [pos chars]; lia).
    cbn [length] in Hb. assert (1 <= rem lx) by (unfold rem; lia). lia.
Qed.

Lemma word_loop_terminates w st br lx :
  2 * rem lx + 1 <= S n ->
  terminates (word_loop self w st br lx) lx (fun _ lx' =>
    forall c, peek lx = Some c -> word_breaks c lx = false -> (pos lx < pos lx')%nat).
Proof using EN.
  intros Hn. unfold word_loop. destruct (peek lx) as [c|] eqn:Hp.
  2: { apply terminates_ret; [by split|done]. }
  assert (Hf : frame lx (advance 1 lx)) by lx_arith.
  assert (Hr : 1 <= rem lx) by lx_arith.
  set (Q := fun (_ : option Word) (lx' : Lexer) => forall c0, _).
  assert (Hgo : forall w' st' br' lx1, frame lx lx1 -> (pos lx < pos lx1)%nat ->
            terminates (r_word self w' st' br' lx1) lx1 Q).
  { intros w' st' br' lx1 H1 H2.
    destruct (e_word _ _ EN w' st' br' lx1) as (a & lx' & E & Hf' & _); [lx_arith|].
    exists a, lx'. split_and!; [done|done|]. intros c0 _ _. destruct Hf'. lia. }
  assert (Hafter : forall lx1 w' st' br', frame lx lx1 -> (pos lx < pos lx1)%nat ->
            terminates (r_word self w' st' br' lx1) lx Q).
  { intros. eapply terminates_from; [by apply Hgo|done|]. by intros. }
  assert (Hbind : forall (m : M Word) st' br' lx1, frame lx lx1 -> (pos lx < pos lx1)%nat ->
            terminates (m lx1) lx1 (fun _ _ => True) ->
            terminates (bindM m (fun w' => r_word self w' st' br') lx1) lx Q).
  { intros m st' br' lx1 H1 H2 Hm.
    eapply terminates_from; [eapply terminates_bind; [exact Hm|]|exact H1|by intros].
    intros a lx2 H3 _. apply Hgo; [by eapply frame_trans|]. destruct H3. lia. }
  destruct (one_of " ;&|()" c || eqc TAB c || eqc NEWLINE c) eqn:E1.
  { apply terminates_ret; [by split|]. intros c0 [= <-] Hb.
    unfold word_breaks in Hb. by rewrite E1 in Hb. }
  destruct (one_of "<>" c && negb (peeks (eqc (chr "(")) (peek_at 1 lx))) eqn:E2.
  { apply terminates_ret; [by split|]. intros c0 [= <-] Hb.
    unfold word_breaks in Hb. by rewrite E1, E2 in Hb. }
  repeat case_if.
  - apply Hbind; [lx_arith|lx_arith|]. apply substitution_terminates. lx_arith.
  - unfold single_quoted.
    pose proof (single_quoted_frame (unread (advance 1 lx)) (set_quoted w) (advance 1 lx)) as Hs.
    destruct (single_quoted_loop _ _ _) as [w' lx1]. cbn [snd] in Hs.
    apply Hafter; [by eapply frame_trans|lx_arith].
  - apply Hbind; [done|lx_arith|]. apply double_quoted_terminates. lx_arith.
  - destruct (bump (advance 1 lx)) as [[e|] lx1] eqn:Eb.
    + apply bump_Some in Eb as [Hp1 ->]. case_if; apply Hafter; lx_arith.
    + apply bump_None in Eb as [_ ->]. apply Hafter; lx_arith.
  - eapply terminates_bind; [apply dollar_terminates; lia|].
    intros w' lx1 Hf1 Hlt. by apply Hgo.
  - apply Hbind; [done|lx_arith|]. apply backtick_terminates. lx_arith.
  - destruct (plain w c st br) as [w' br']. apply Hafter; lx_arith.
Qed.

Lemma skip_while_first keep lx c :
  peek lx = Some c -> keep c = true -> frame lx (skip_while keep lx) /\ (pos lx < pos (skip_while keep lx))%nat.
Proof using.
  intros Hp Hk. unfold skip_while. rewrite (peek_unread lx c Hp). simpl. rewrite Hk.
  split; [|simpl; lia]. split; simpl; [done|lia].
Qed.

Lemma list_loop_terminates b segs cur g lx :
  2 * rem lx + 2 <= S n -> terminates (list_loop self b segs cur g lx) lx (fun _ _ => True).
Proof using EN.
  intros Hn. unfold list_loop. destruct (peek lx) as [c|] eqn:Hp.
  2: { case_if; apply terminates_ret; (by split). }
  assert (Hf : frame lx (advance 1 lx)) by lx_arith.
  assert (Hr : 1 <= rem lx) by lx_arith.
  assert (Hgo : forall segs' cur' g' lx1, frame lx lx1 -> (pos lx < pos lx1)%nat ->
            terminates (r_list self b segs' cur' g' lx1) lx1 (fun _ _ => True)).
  { intros segs' cur' g' lx1 H1 H2. apply (e_list _ _ EN). lx_arith. }
  assert (Hnext : forall segs' cur' g' lx1, frame lx lx1 -> (pos lx < pos lx1)%nat ->
            terminates (r_list self b segs' cur' g' lx1) lx (fun _ _ => True)).
  { intros. eapply terminates_after; [done|by apply Hgo]. }
  assert (Hred : terminates (bindM (redirect self cur) (fun s => r_list self b segs s g) lx) lx
                   (fun _ _ => True)).
  { eapply terminates_bind; [eapply redirect_terminates; [done|lia]|].
    intros s lx1 Hf1 Hlt. by apply Hgo. }
  repeat case_if; try (apply Hnext; [done|lx_arith]); try exact Hred.
  - destruct (heredoc_each_terminates (heredocs (advance 1 lx)) (set_heredocs [] (advance 1 lx)))
      as (lx1 & E & Hf1); [lx_arith|].
    unfold heredoc_bodies. rewrite E. apply Hnext; lx_arith.
  - assert (Hk : negb (eqc NEWLINE c) = true).
    { rename select (eqc NEWLINE c = false) into Hc. by rewrite Hc. }
    destruct (skip_while_first (fun x => negb (eqc NEWLINE x)) lx c Hp Hk).
    by apply Hnext.
  - destruct g as [|g]; [by apply terminates_ret|]. apply Hnext; [done|lx_arith].
  - destruct g as [|g]; apply Hnext; lx_arith.
  - assert (Hb : word_breaks c lx = false).
    { unfold word_breaks. rename select (one_of "<>" c && _ = false) into Hlg. rewrite Hlg.
      clear Hlg. unfold eqc in *. expand_sets. bool_hyps.
      repeat match goal with
      | |- context [(?x =? ?y)%N] =>
          replace (x =? y)%N with false by (symmetry; apply N.eqb_neq; unfold TAB, NEWLINE in *; lia)
      end. done. }
    eapply terminates_bind; [apply (e_word _ _ EN); lia|].
    intros [w|] lx1 Hf1 Hlt.
    + apply (terminates_after _ _ (set_word_end (Some (pos lx1)) lx1) (fun _ _ => True)); [by split|].
      apply Hgo; [by destruct Hf1; split|]. by eapply Hlt.
    + apply Hgo; [done|]. by eapply Hlt.
Qed.

Lemma step_enough : Enough (S n) (step self).
Proof using EN.
  split; cbn [step r_list r_word r_double_quoted r_parameter r_ansi_c r_heredoc_lines r_expansions];
    eauto using list_loop_terminates, word_loop_terminates, double_quoted_loop_terminates,
      parameter_loop_terminates, ansi_c_loop_terminates, heredoc_lines_loop_terminates,
      expansions_loop_terminates.
Qed.
End Termination.

Lemma lexn_enough n : Enough n (lexn n).
Proof. induction n as [|n IH]; [split; intros; lia|by apply step_enough]. Qed.

Lemma lex_with_total input fuel :
  (lex_fuel input <= fuel)%nat -> exists r, lex_with fuel input = Some r.
Proof.
  intros Hf. unfold lex_with.
  destruct (e_list _ _ (lexn_enough fuel) false [] default_segment 0
    (set_ok (blen input <=? MAX_LEN)%N (new_lexer input 0))) as (segs & lx & -> & _).
  - unfold lex_fuel in Hf. unfold rem. simpl. lia.
  - eauto.
Qed.

(** * More fuel changes nothing *)

Definition opt_le {A} (a b : option A) : Prop := forall x, a = Some x -> b = Some x.

Record Rec_le (f g : Rec) : Prop := {
  le_list : forall b s c n lx, opt_le (r_list f b s c n lx) (r_list g b s c n lx);
  le_word : forall w s b lx, opt_le (r_word f w s b lx) (r_word g w s b lx);
  le_double : forall w lx, opt_le (r_double_quoted f w lx) (r_double_quoted g w lx);
  le_param : forall w d lx, opt_le (r_parameter f w d lx) (r_parameter g w d lx);
  le_ansi : forall w lx, opt_le (r_ansi_c f w lx) (r_ansi_c g w lx);
  le_lines : forall d b lx, opt_le (r_heredoc_lines f d b lx) (r_heredoc_lines g d b lx);
  le_exp : forall w lx, opt_le (r_expansions f w lx) (r_expansions g w lx)
}.

Lemma opt_le_refl {A} (a : option A) : opt_le a a.
Proof. by intros x. Qed.

Lemma opt_le_match {A B} (a a' : option A) (k k' : A -> option B) :
  opt_le a a' -> (forall x, opt_le (k x) (k' x)) ->
  opt_le (match a with Some x => k x | None => None end)
         (match a' with Some x => k' x | None => None end).
Proof.
  intros Ha Hk y. destruct a as [x|]; [|done]. rewrite (Ha x eq_refl). apply Hk.
Qed.

Lemma bindM_le {A B} (m m' : M A) (k k' : A -> M B) lx :
  opt_le (m lx) (m' lx) -> (forall a lx', opt_le (k a lx') (k' a lx')) ->
  opt_le (bindM m k lx) (bindM m' k' lx).
Proof. intros Hm Hk. apply opt_le_match; [done|]. by intros [a lx']. Qed.

#[export] Hint Resolve opt_le_refl le_list le_word le_double le_param le_ansi le_lines le_exp : zeng.

Ltac le_step :=
  match goal with
  | |- opt_le ?a ?a => apply opt_le_refl
  | |- opt_le (if ?b then _ else _) (if ?b then _ else _) => destruct b
  | |- opt_le (bindM _ _ _) (bindM _ _ _) => apply bindM_le; [|intros ? ?]
  | |- opt_le (match ?x with _ => _ end) (match ?x with _ => _ end) => destruct x
  | |- opt_le (match _ with Some _ => _ | None => None end)
              (match _ with Some _ => _ | None => None end) =>
      apply opt_le_match; [|intros ?]
  | |- _ => solve [eauto with zeng]
  end.

Section FuelMonotone.
Variables f g : Rec.
Hypothesis LE : Rec_le f g.

Lemma substitution_le w s lx : opt_le (substitution f w s lx) (substitution g w s lx).
Proof using LE. unfold substitution, substitution_commands. repeat le_step. Qed.

Lemma backtick_le w lx : opt_le (backtick f w lx) (backtick g w lx).
Proof using LE. unfold backtick. repeat le_step. Qed.

Lemma dollar_le w b lx : opt_le (dollar f w b lx) (dollar g w b lx).
Proof using LE.
  pose proof substitution_le. unfold dollar, parameter, ansi_c, double_quoted. repeat le_step.
Qed.

Lemma body_expansions_le b lx : opt_le (body_expansions f b lx) (body_expansions g b lx).
Proof using LE. unfold body_expansions. repeat le_step. Qed.

Lemma heredoc_each_le docs lx : opt_le (heredoc_each f docs lx) (heredoc_each g docs lx).
Proof using LE.
  pose proof body_expansions_le.
  revert lx. induction docs as [|d docs IH]; intros lx; cbn [heredoc_each]; repeat le_step.
Qed.

Lemma redirect_le s lx : opt_le (redirect f s lx) (redirect g s lx).
Proof using LE. unfold redirect, word. repeat le_step. Qed.

Lemma step_le : Rec_le (step f) (step g).
Proof using LE.
  pose proof substitution_le. pose proof backtick_le. pose proof dollar_le.
  pose proof heredoc_each_le. pose proof redirect_le.
  split; cbn [step r_list r_word r_double_quoted r_parameter r_ansi_c r_heredoc_lines r_expansions];
    intros; unfold list_loop, word_loop, double_quoted_loop, parameter_loop, ansi_c_loop,
      heredoc_lines_loop, expansions_loop, heredoc_bodies, word, double_quoted; repeat le_step.
Qed.
End FuelMonotone.

Lemma lexn_le n m : (n <= m)%nat -> Rec_le (lexn n) (lexn m).
Proof.
  revert m. induction n as [|n IH]; intros m H.
  - split; intros; intros x; discriminate.
  - destruct m as [|m]; [lia|]. apply step_le, IH. lia.
Qed.

Lemma lex_with_le n m input : (n <= m)%nat -> opt_le (lex_with n input) (lex_with m input).
Proof.
  intros H. pose proof (lexn_le n m H) as LE. unfold lex_with. repeat le_step.
Qed.

(** * Flags fail closed *)

(** [dynamic] and a cleared [ok] are sticky, and commands inside
    substitutions are only ever recorded together with [dynamic]. *)
Definition sticky (lx lx' : Lexer) : Prop :=
  (dynamic lx' = false -> dynamic lx = false /\ nested lx' = nested lx)
  /\ (ok lx' = true -> ok lx = true).

Lemma sticky_refl lx : sticky lx lx.
Proof. by split. Qed.

Lemma sticky_trans a b c : sticky a b -> sticky b c -> sticky a c.
Proof. intros [H1 H2] [H3 H4]. split; [|tauto]. intros (H5 & H6)%H3. destruct (H1 H5). split; congruence. Qed.

(** Every result of a partial lexer function is related to its start. *)
Definition related {A} (o : option (A * Lexer)) (lx : Lexer) : Prop :=
  forall a lx', o = Some (a, lx') -> sticky lx lx'.

Record Sticky (self : Rec) : Prop := {
  s_list : forall b s c n lx, related (r_list self b s c n lx) lx;
  s_word : forall w s b lx, related (r_word self w s b lx) lx;
  s_double : forall w lx, related (r_double_quoted self w lx) lx;
  s_param : forall w d lx, related (r_parameter self w d lx) lx;
  s_ansi : forall w lx, related (r_ansi_c self w lx) lx;
  s_lines : forall d b lx, related (r_heredoc_lines self d b lx) lx;
  s_exp : forall w lx, related (r_expansions self w lx) lx
}.

Lemma related_from {A} (o : option (A * Lexer)) lx lx1 :
  related o lx1 -> sticky lx lx1 -> related o lx.
Proof. intros H1 H2 a lx' E. eapply sticky_trans; eauto. Qed.

Lemma related_ret {A} (a : A) lx lx' : sticky lx lx' -> related (Some (a, lx')) lx.
Proof. by intros H ? ? [= <- <-]. Qed.

Lemma related_bind {A B} (m : M A) (k : A -> M B) lx :
  related (m lx) lx -> (forall a lx1, related (k a lx1) lx1) -> related (bindM m k lx) lx.
Proof.
  unfold bindM. intros Hm Hk b lx'. destruct (m lx) as [[a lx1]|] eqn:E; [|done].
  intros E'. eapply sticky_trans; [by eapply Hm|by eapply Hk].
Qed.

(** Setters that keep [sticky]. *)
Ltac sticky_prim :=
  unfold sticky, advance, set_pos, set_ok, set_dynamic, set_depth, set_heredocs, set_nested,
    set_word_end, absorb, skip_while, skip_to_close in *; simpl in *;
  intuition (bool_hyps; auto; try congruence).

#[export] Hint Resolve sticky_refl s_list s_word s_double s_param s_ansi s_lines s_exp : zeng.

Lemma single_quoted_sticky rest w lx : sticky lx (single_quoted_loop rest w lx).2.
Proof.
  revert w lx. induction rest as [|c rest IH]; intros w lx; simpl; [sticky_prim|].
  destruct (eqc (chr "'") c); [sticky_prim|].
  eapply sticky_trans; [|apply IH]. sticky_prim.
Qed.

Lemma code_point_loop_sticky max radix v d lx : sticky lx (code_point_loop max radix v d lx).2.
Proof.
  revert v d lx. induction max as [|max IH]; intros v d lx; simpl; [by split|].
  destruct (peek lx) as [c|]; [|by split].
  destruct (to_digit radix c); [|by split].
  eapply sticky_trans; [|apply IH]. sticky_prim.
Qed.

Lemma code_point_sticky radix max lx : sticky lx (code_point radix max lx).2.
Proof.
  unfold code_point. pose proof (code_point_loop_sticky max radix 0 0 lx) as H.
  destruct (code_point_loop max radix 0 0 lx) as [[v d] l]. by destruct d.
Qed.

Lemma bump_sticky lx : sticky lx (bump lx).2.
Proof. unfold bump. destruct (peek lx); [sticky_prim|apply sticky_refl]. Qed.

Lemma ansi_escape_sticky w lx : sticky lx (ansi_escape w lx).2.
Proof.
  unfold ansi_escape. pose proof (bump_sticky lx) as H0.
  destruct (bump lx) as [[c|] lx1]; cbn [snd] in *; [|sticky_prim].
  pose proof (code_point_sticky 16 2 lx1) as H2.
  pose proof (code_point_sticky 16 4 lx1) as H4.
  pose proof (code_point_sticky 16 8 lx1) as H8.
  pose proof (code_point_sticky 8 3 (set_pos (pos lx1 - 1) lx1)) as H3.
  pose proof (bump_sticky lx1) as Hb.
  destruct (code_point 16 2 _), (code_point 16 4 _), (code_point 16 8 _),
    (code_point 8 3 _), (bump lx1).
  repeat case_if; cbn [snd] in *; eauto using sticky_trans.
Qed.

Lemma operator_sticky lx : sticky lx (operator lx).2.
Proof.
  unfold operator. pose proof (bump_sticky lx) as H0. destruct (bump lx) as [c lx1].
  cbn [snd] in H0. repeat case_if; cbn [snd]; (eapply sticky_trans; [exact H0|]); sticky_prim.
Qed.

Section StickyStep.
Variable self : Rec.
Hypothesis ST : Sticky self.

Lemma substitution_commands_sticky lx lx' :
  dynamic lx = true -> substitution_commands self lx = Some lx' ->
  dynamic lx' = true /\ (ok lx' = true -> ok lx = true).
Proof using ST.
  unfold substitution_commands. intros Hd. case_if; [intros [= <-]; sticky_prim|].
  destruct (r_list self true _ _ _ _) as [[segs lx1]|] eqn:E; [|done]. intros [= <-].
  apply (s_list _ ST) in E as [H1 H2]. simpl in *. split.
  - destruct (dynamic lx1); [done|]. destruct H1; congruence.
  - intros [? _]%andb_prop. auto.
Qed.

Lemma substitution_sticky w s lx : related (substitution self w s lx) lx.
Proof using ST.
  intros a lx'. unfold substitution.
  destruct (substitution_commands self (set_dynamic true lx)) as [lx1|] eqn:E; [|done].
  apply substitution_commands_sticky in E as [H1 H2]; [|done].
  intros [= <- <-]. split; [congruence|]. exact H2.
Qed.

Lemma backtick_sticky w lx : related (backtick self w lx) lx.
Proof using ST.
  unfold backtick. destruct (backtick_loop _ _) as [[inner closed] k].
  case_if; [apply related_ret; sticky_prim|].
  destruct (r_list self false _ _ _ _) as [[segs sub]|] eqn:E; [|by intros ? ?].
  apply related_ret. split.
  - simpl. done.
  - simpl. intros H. bool_hyps. done.
Qed.

Ltac related_step :=
  match goal with
  | |- related None _ => by intros ? ?
  | |- related (Some (_, ?l)) ?l => apply related_ret, sticky_refl
  | |- related (Some _) _ => apply related_ret; sticky_prim
  | |- related (if ?b then _ else _) _ => destruct b
  | |- related (bindM _ _ ?l) ?l => apply related_bind; [|intros ? ?]
  | |- related (bindM _ _ _) _ => eapply related_from; [apply related_bind; [|intros ? ?]|sticky_prim]
  | |- related _ _ => solve [eauto with zeng]
  | |- related _ _ => solve [eapply related_from; [eauto with zeng|sticky_prim]]
  | |- related (match ?x with Some _ => _ | None => _ end) _ => destruct x
  end.

Lemma dollar_sticky w b lx : related (dollar self w b lx) lx.
Proof using ST.
  pose proof substitution_sticky. unfold dollar, parameter, ansi_c, double_quoted.
  repeat related_step.
Qed.

Lemma body_expansions_sticky b lx lx' : body_expansions self b lx = Some lx' -> sticky lx lx'.
Proof using ST.
  unfold body_expansions. case_if; [intros [= <-]; sticky_prim|].
  destruct (r_expansions self _ _) as [[w sub]|] eqn:E; [|done]. intros [= <-].
  apply (s_exp _ ST) in E as [H1 H2]. unfold absorb, sticky. simpl in *. split.
  - intros [Hd Hs]%orb_false_elim. destruct (H1 Hs) as [_ ->]. by rewrite app_nil_r.
  - intros H. by bool_hyps.
Qed.

Lemma heredoc_each_sticky docs lx lx' : heredoc_each self docs lx = Some lx' -> sticky lx lx'.
Proof using ST.
  revert lx. induction docs as [|d docs IH]; intros lx; cbn [heredoc_each].
  { intros [= ->]. apply sticky_refl. }
  destruct (r_heredoc_lines self d [] lx) as [[[body closed] lx1]|] eqn:E; [|done].
  apply (s_lines _ ST) in E.
  assert (H1 : sticky lx (set_ok (ok lx1 && closed) lx1)) by sticky_prim.
  destruct (heredoc_expands d).
  - destruct (body_expansions self body _) as [lx3|] eqn:E3; [|done].
    apply body_expansions_sticky in E3. intros E4%IH.
    eapply sticky_trans; [|exact E4]. by eapply sticky_trans.
  - intros E4%IH. by eapply sticky_trans.
Qed.

Lemma redirect_sticky s lx : related (redirect self s lx) lx.
Proof using ST.
  unfold redirect, word. pose proof (operator_sticky lx) as Ho.
  destruct (operator lx) as [op lx1]. cbn [snd] in Ho.
  eapply related_from; [apply related_bind; [eauto with zeng|]|].
  - intros [w|] lx3; [|related_step].
    destruct op; related_step.
  - eapply sticky_trans; [exact Ho|]. sticky_prim.
Qed.

Lemma single_quoted_related {A} (k : Word -> Lexer -> option (A * Lexer)) w lx lx0 :
  (forall w' lx1, related (k w' lx1) lx1) -> sticky lx0 lx ->
  related (let '(w', lx1) := single_quoted w lx in k w' lx1) lx0.
Proof using.
  intros Hk H0. unfold single_quoted.
  pose proof (single_quoted_sticky (unread lx) (set_quoted w) lx) as Hs.
  destruct (single_quoted_loop _ _ _) as [w' lx1]. cbn [snd] in Hs.
  eapply related_from; [apply Hk|]. by eapply sticky_trans.
Qed.

Lemma bump_related {A} (k : option char -> Lexer -> option (A * Lexer)) lx lx0 :
  (forall c lx1, related (k c lx1) lx1) -> sticky lx0 lx ->
  related (let '(c, lx1) := bump lx in k c lx1) lx0.
Proof using.
  intros Hk H0. pose proof (bump_sticky lx) as Hb. destruct (bump lx) as [c lx1].
  eapply related_from; [apply Hk|]. by eapply sticky_trans.
Qed.

Lemma ansi_c_loop_sticky w lx : related (ansi_c_loop self w lx) lx.
Proof using ST.
  unfold ansi_c_loop. pose proof (bump_sticky lx) as Hb.
  destruct (bump lx) as [[c|] lx1]; cbn [snd] in Hb.
  2: { eapply related_from; [|exact Hb]. related_step. }
  eapply related_from; [|exact Hb]. repeat case_if; repeat related_step.
  pose proof (ansi_escape_sticky w lx1) as He.
  destruct (ansi_escape w lx1) as [w' lx2]. cbn [snd] in He.
  eapply related_from; [|exact He]. related_step.
Qed.

Lemma word_loop_sticky w st br lx : related (word_loop self w st br lx) lx.
Proof using ST.
  pose proof substitution_sticky. pose proof backtick_sticky. pose proof dollar_sticky.
  unfold word_loop, double_quoted. destruct (peek lx) as [c|]; [|related_step].
  repeat case_if; try solve [repeat related_step].
  - apply single_quoted_related; [eauto with zeng|sticky_prim].
  - pose proof (bump_sticky (advance 1 lx)) as Hb.
    destruct (bump (advance 1 lx)) as [[e|] lx1]; cbn [snd] in Hb;
      (eapply related_from; [|eapply sticky_trans; [|exact Hb]; sticky_prim]); repeat related_step.
  - destruct (plain w c st br). related_step.
Qed.

Lemma parameter_loop_sticky w d lx : related (parameter_loop self w d lx) lx.
Proof using ST.
  pose proof backtick_sticky. pose proof dollar_sticky.
  unfold parameter_loop, double_quoted. destruct d as [|d]; [related_step|].
  destruct (peek lx) as [c|]; [|related_step].
  repeat case_if; try solve [repeat related_step].
  - apply single_quoted_related; [eauto with zeng|sticky_prim].
  - pose proof (bump_sticky (advance 1 lx)) as Hb.
    destruct (bump (advance 1 lx)) as [[e|] lx1]; cbn [snd] in Hb;
      (eapply related_from; [|eapply sticky_trans; [|exact Hb]; sticky_prim]); repeat related_step.
Qed.

Lemma double_quoted_loop_sticky w lx : related (double_quoted_loop self w lx) lx.
Proof using ST.
  pose proof backtick_sticky. pose proof dollar_sticky.
  unfold double_quoted_loop. destruct (peek lx) as [c|]; [|related_step].
  repeat case_if; try solve [repeat related_step].
  pose proof (bump_sticky (advance 1 lx)) as Hb.
  destruct (bump (advance 1 lx)) as [[e|] lx1]; cbn [snd] in Hb;
    (eapply related_from; [|eapply sticky_trans; [|exact Hb]; sticky_prim]); repeat related_step.
Qed.

Lemma expansions_loop_sticky w lx : related (expansions_loop self w lx) lx.
Proof using ST.
  pose proof backtick_sticky. pose proof dollar_sticky.
  unfold expansions_loop. repeat related_step.
Qed.

Lemma heredoc_lines_loop_sticky d b lx : related (heredoc_lines_loop self d b lx) lx.
Proof using ST. unfold heredoc_lines_loop. repeat related_step. Qed.

Lemma list_loop_sticky b segs cur g lx : related (list_loop self b segs cur g lx) lx.
Proof using ST.
  pose proof redirect_sticky.
  unfold list_loop, word. destruct (peek lx) as [c|]; [|case_if; related_step].
  repeat case_if; try solve [repeat related_step].
  - unfold heredoc_bodies.
    destruct (heredoc_each self _ _) as [lx1|] eqn:E; [|by intros ? ?].
    apply heredoc_each_sticky in E. eapply related_from; [eauto with zeng|].
    eapply sticky_trans; [|exact E]. sticky_prim.
  - destruct g; repeat related_step.
  - destruct g; repeat related_step.
Qed.

Lemma step_sticky : Sticky (step self).
Proof using ST.
  split; cbn [step r_list r_word r_double_quoted r_parameter r_ansi_c r_heredoc_lines r_expansions];
    eauto using list_loop_sticky, word_loop_sticky, double_quoted_loop_sticky,
      parameter_loop_sticky, ansi_c_loop_sticky, heredoc_lines_loop_sticky,
      expansions_loop_sticky.
Qed.
End StickyStep.

Lemma lexn_sticky n : Sticky (lexn n).
Proof. induction n as [|n IH]; [split; intros; by intros ? ?|by apply step_sticky]. Qed.

Lemma lex_with_sticky fuel input r :
  lex_with fuel input = Some r ->
  (lexed_dynamic r = false -> lexed_nested r = [])
  /\ (lexed_ok r = true -> (blen input <= MAX_LEN)%N).
Proof.
  unfold lex_with. destruct (r_list (lexn fuel) _ _ _ _ _) as [[segs lx]|] eqn:E; [|done].
  intros [= <-]. apply (s_list _ (lexn_sticky fuel)) in E as [H1 H2]. simpl in *.
  split; [by intros [_ H]%H1|]. intros H%H2. by apply N.leb_le.
Qed.

Lemma lex_with_lex input fuel : lex_fuel input <= fuel -> lex_with fuel input = Some (lex input).
Proof.
  intros Hf. unfold lex.
  destruct (lex_with_total input (lex_fuel input) (le_n _)) as (r & Hr).
  rewrite Hr. by eapply lex_with_le.
Qed.

(** A result found with any fuel is the result. *)
Lemma lex_with_Some input fuel r : lex_with fuel input = Some r -> lex input = r.
Proof.
  intros H. pose proof (lex_with_lex input (fuel + lex_fuel input) ltac:(lia)) as H1.
  pose proof (lex_with_le fuel (fuel + lex_fuel input) input ltac:(lia) r H). congruence.
Qed.

Lemma lex_static_nested input : lexed_dynamic (lex input) = false -> lexed_nested (lex input) = [].
Proof. eapply lex_with_sticky, (lex_with_lex _ (lex_fuel input)), le_n. Qed.

(** * Properties *)

(** The lexer terminates on every input.  With at least [lex_fuel input]
    units of fuel (two per char and two more) it always returns a result, the
    result is the one [lex] reports, and more fuel never changes it. *)
Theorem lex_terminates (input : text) (fuel : nat) :
  lex_fuel input <= fuel -> lex_with fuel input = Some (lex input).
Proof. apply lex_with_lex. Qed.

Lemma lex_terminates_witness :
  lex_fuel (str "a `b $(c <<X") <= 100 /\
  lex_with 100 (str "a `b $(c <<X") = Some (lex (str "a `b $(c <<X")).
Proof.
  split; [vm_compute; lia|]. apply (lex_terminates (str "a `b $(c <<X") 100). vm_compute. lia.
Defined.

(** The lexer fails closed.  Commands inside substitutions, backticks,
    process substitutions and expanding heredocs are only ever recorded
    together with the [dynamic] flag, and input longer than [MAX_LEN] bytes is
    never reported as parsed. *)
Theorem lex_fails_closed (input : text) :
  (lexed_dynamic (lex input) = false -> lexed_nested (lex input) = [])
  /\ (lexed_ok (lex input) = true -> (blen input <= MAX_LEN)%N).
Proof. eapply lex_with_sticky, (lex_with_lex _ (lex_fuel input)), le_n. Qed.
