(* ===== verification/Wrappers.v ===== *)
(** Expansion readings, the commands a segment may run, and the parse of a command line ([shell/fields.rs], [shell/wrappers.rs], [shell/analysis.rs]). *)

From S2P Require Export Lexer.

(** The closing delimiter's end inside [rest], whose first char opens. *)
Fixpoint close_len (rest : list char) (open close : char) (depth_ : nat) : option nat :=
  match rest with
  | [] => None
  | c :: rest' =>
      if eqc open c then S <$> close_len rest' open close (S depth_)
      else if eqc close c then
        if (depth_ - 1 =? 0)%nat then Some 1 else S <$> close_len rest' open close (depth_ - 1)
      else S <$> close_len rest' open close depth_
  end.

(** [expansion_end - start] for the expansion that starts [rest]; 0 when
    there is none. *)
Definition expansion_len (rest : list char) : nat :=
  match rest with
  | sigil :: after =>
      if negb (eqc (chr "$") sigil) then 0
      else
        let close open close_ :=
          match close_len after open close_ 0 with Some n => S n | None => length rest end in
        match after with
        | [] => 0
        | c :: _ =>
            if eqc (chr "{") c then close (chr "{") (chr "}")
            else if eqc (chr "(") c then close (chr "(") (chr ")")
            else if is_ascii_digit c || one_of "@*#?$!-" c then 2
            else if name_start c then 1 + length (take_while name_char after)
            else 0
        end
  | [] => 0
  end.

(** The scan over the chars: [skip] counts the chars of an expansion still
    to pass over, [field] is the literal run being collected. *)
Fixpoint fields_loop (rest : list char) (skip : nat) (done_ : list text) (field joined : text)
  : list text * text :=
  match rest with
  | [] => (done_ ++ [field], joined)
  | c :: rest' =>
      match skip with
      | S k => fields_loop rest' k done_ field joined
      | O =>
          match expansion_len rest with
          | S k => fields_loop rest' k (done_ ++ [field]) [] joined
          | O => fields_loop rest' 0 done_ (field ++ [c]) (joined ++ [c])
          end
      end
  end.

(** The literal runs between expansions, and their concatenation. *)
Definition fields (t : text) : list text * text :=
  let '(fs, joined) := fields_loop t 0 [] [] [] in
  (List.filter (fun f => negb (is_empty f)) fs, joined).

(** The two readings of one word. *)
Definition word_readings (w : Word) : list Word * list Word :=
  if negb (param w) then ([w], [w])
  else
    let '(fs, concatenated) := fields (text_ w) in
    let with_ t := set_param false (set_text t w) in
    (map with_ fs, if is_empty concatenated then [] else [with_ concatenated]).

Definition expansion_readings (ws : list Word) : option (list Word * list Word) :=
  if negb (existsb param ws) then None
  else Some (flat_map (fun w => fst (word_readings w)) ws,
             flat_map (fun w => snd (word_readings w)) ws).

(** * Facts *)

(** No expansion is left in either reading. *)
Lemma word_readings_static w :
  Forall (fun w' => param w' = false) (fst (word_readings w))
  /\ Forall (fun w' => param w' = false) (snd (word_readings w)).
Proof.
  unfold word_readings. destruct (param w) eqn:E; cbn [negb].
  - destruct (fields (text_ w)) as [fs joined]. cbn [fst snd]. split.
    + by apply Forall_map, Forall_true.
    + destruct (is_empty joined); repeat constructor.
  - split; by repeat constructor.
Qed.

(** The joined reading is the split reading without its boundaries. *)
Lemma fields_loop_concat rest skip done_ field joined :
  concat done_ ++ field = joined ->
  let '(fs, j) := fields_loop rest skip done_ field joined in concat fs = j.
Proof.
  revert skip done_ field joined. induction rest as [|c rest IH]; intros skip done_ field joined H.
  - cbn [fields_loop]. rewrite concat_app. cbn [concat]. by rewrite app_nil_r.
  - cbn [fields_loop]. destruct skip as [|k]; [|by apply IH].
    destruct (expansion_len (c :: rest)) as [|k]; apply IH.
    + rewrite app_assoc. by rewrite H.
    + rewrite concat_app. cbn [concat]. by rewrite !app_nil_r.
Qed.

Lemma concat_filter_nonempty (fs : list text) :
  concat (List.filter (fun f => negb (is_empty f)) fs) = concat fs.
Proof. induction fs as [|[|c f] fs IH]; cbn; [done|done|by rewrite IH]. Qed.

Lemma fields_concat t : concat (fst (fields t)) = snd (fields t).
Proof.
  unfold fields. pose proof (fields_loop_concat t 0 [] [] [] eq_refl) as H.
  destruct (fields_loop t 0 [] [] []) as [fs j]. cbn [fst snd].
  by rewrite concat_filter_nonempty.
Qed.

Definition WRAPPERS : list text :=
  [str "sudo"; str "doas"; str "pkexec"; str "runuser"; str "env"; str "nohup"; str "time";
   str "command"; str "builtin"; str "exec"; str "nice"; str "ionice"; str "renice";
   str "stdbuf"; str "timeout"; str "gtimeout"; str "xargs"; str "caffeinate"; str "chrt";
   str "taskset"; str "setsid"; str "unbuffer"; str "flock"; str "busybox"; str "watch";
   str "strace"; str "ltrace"; str "nsenter"; str "chroot"; str "parallel"].
Definition SHELLS : list text :=
  [str "sh"; str "bash"; str "zsh"; str "dash"; str "ksh"; str "mksh"; str "ash"; str "fish";
   str "su"].
Definition FIND_ACTIONS : list text :=
  [str "-exec"; str "-execdir"; str "-ok"; str "-okdir"].
Definition MAX_CANDIDATES : nat := 256.
Definition MAX_DEPTH : nat := 8.

(** The first later word that is no option. *)
Definition first_operand (ws : list Word) : option text :=
  text_ <$> List.find (fun w => negb (starts_with [chr "-"] (text_ w))) ws.

(** The command line after a [-c] option cluster. *)
Fixpoint shell_script_loop (rest : list Word) : option text :=
  match rest with
  | [] => None
  | w :: rest' =>
      let t := text_ w in
      match strip_prefix (str "--command=") t with
      | Some script => Some script
      | None =>
          let cluster :=
            match strip_prefix [chr "-"] t with
            | Some flags => negb (starts_with [chr "-"] flags) && contains_char (chr "c") flags
            | None => false
            end in
          if teqb t (str "--command") || cluster then first_operand rest'
          else shell_script_loop rest'
      end
  end.
Definition shell_script (ws : list Word) : option text := shell_script_loop (tail ws).

(** [env -S 'cmd args'] and [env --split-string=..]. *)
Fixpoint split_string_loop (rest : list Word) : option text :=
  match rest with
  | [] => None
  | w :: rest' =>
      let t := text_ w in
      if teqb t (str "-S") || teqb t (str "--split-string") then text_ <$> head rest'
      else match strip_prefix (str "--split-string=") t with
           | Some value => Some value
           | None =>
               match strip_prefix (str "-S") t with
               | Some value => if is_empty value then split_string_loop rest' else Some value
               | None => split_string_loop rest'
               end
           end
  end.
Definition split_string (ws : list Word) : option text := split_string_loop (tail ws).

Definition ends_find_action (w : Word) : bool :=
  teqb (text_ w) (str ";") || teqb (text_ w) (str "+").

(** Commands after [find -exec] and friends; [skip] counts the words of a
    collected command still to pass over. *)
Fixpoint find_actions_loop (rest : list Word) (skip : nat) : list (list Word) :=
  match rest with
  | [] => []
  | w :: rest' =>
      match skip with
      | S k => find_actions_loop rest' k
      | O =>
          if mem (text_ w) FIND_ACTIONS then
            let found := take_while (fun x => negb (ends_find_action x)) rest' in
            (if is_empty found then [] else [found]) ++ find_actions_loop rest' (length found)
          else find_actions_loop rest' 0
      end
  end.
Definition find_actions (ws : list Word) : list (list Word) := find_actions_loop ws 0.

Definition script_commands (script : text) : list Segment :=
  let lexed := lex script in
  map (fun s => mkSegment (command s) (redirects s)) (lexed_segments lexed ++ lexed_nested lexed).

Definition join_words (ws : list Word) : text := join (str " ") (map text_ ws).

(** Every suffix of the arguments that starts at a word that is no option. *)
Fixpoint wrapped_commands (ws : list Word) : list (list Word) :=
  match ws with
  | [] => []
  | w :: rest =>
      (if starts_with [chr "-"] (text_ w) then [] else [ws]) ++ wrapped_commands rest
  end.

Definition rename_first (base : text) (ws : list Word) : list Word :=
  match ws with
  | w :: rest => set_text base w :: rest
  | [] => []
  end.

Definition script_of (name : text) (ws : list Word) : option text :=
  if mem name SHELLS then shell_script ws
  else if mem name [str "eval"; str "watch"] then Some (join_words (tail ws))
  else if teqb name (str "env") then split_string ws
  else None.

Definition expand (candidate : Segment) : list Segment :=
  let ws := words candidate in
  match ws with
  | [] => []
  | first :: args =>
      let with_ ws' := mkSegment ws' (redirects candidate) in
      let out :=
        match expansion_readings ws with
        | Some (split, joined) =>
            map with_ (List.filter (fun reading => negb (is_empty reading)) [split; joined])
        | None => []
        end in
      let assignments := length (take_while assignment ws) in
      if (0 <? assignments)%nat then out ++ [with_ (drop assignments ws)]
      else
        let base := after_last (chr "/") (text_ first) in
        if negb (teqb base (text_ first)) && negb (is_empty base) then
          out ++ [with_ (rename_first base ws)]
        else
          let name := to_ascii_lowercase base in
          let wrapped := if mem name WRAPPERS then map with_ (wrapped_commands args) else [] in
          let scripted :=
            match script_of name ws with Some script => script_commands script | None => [] end in
          let found := if teqb name (str "find") then map with_ (find_actions ws) else [] in
          out ++ wrapped ++ scripted ++ found
  end.

(** Pops candidates that were already found. *)
Fixpoint next_candidate (queue : list (Segment * nat)) (found : list Segment)
  : option (Segment * nat * list (Segment * nat)) :=
  match queue with
  | [] => None
  | (candidate, d) :: rest =>
      if existsb (fun s => bool_decide (s = candidate)) found then next_candidate rest found
      else Some (candidate, d, rest)
  end.

(** The work list; the last pushed candidate is at the head.  A new candidate
    uses one unit of the code's own budget. *)
Fixpoint search (budget : nat) (queue : list (Segment * nat)) (found : list Segment)
    (truncated : bool) : list Segment * bool :=
  match next_candidate queue found with
  | None => (found, truncated)
  | Some (candidate, d, rest) =>
      match budget with
      | O => (found, true)
      | S budget' =>
          let next := expand candidate in
          if (MAX_DEPTH <=? d)%nat then
            search budget' rest (found ++ [candidate]) (truncated || negb (is_empty next))
          else
            search budget' (reverse (map (fun s => (s, S d)) next) ++ rest)
              (found ++ [candidate]) truncated
      end
  end.

Definition start_candidate (segment : Segment) : Segment :=
  mkSegment (command segment) (redirects segment).

(** Candidate commands for one segment and whether the budget ran out. *)
Definition executed_commands (segment : Segment) : list Segment * bool :=
  search MAX_CANDIDATES [(start_candidate segment, 0)] [] false.

Record Parsed := mkParsed {
  parsed_segments : list Segment;
  parsed_nested : list Segment;
  parsed_ok : bool;
  parsed_dynamic : bool
}.

Definition all_segments (p : Parsed) : list Segment := parsed_segments p ++ parsed_nested p.

Definition runs_eval (segment : Segment) : bool :=
  existsb (fun candidate =>
             match words candidate with
             | w :: _ => teqb (text_ w) (str "eval")
             | [] => false
             end) (fst (executed_commands segment)).

Definition parse (command : text) : Parsed :=
  let lexed := lex command in
  let evaluates := existsb runs_eval (lexed_segments lexed ++ lexed_nested lexed) in
  mkParsed (lexed_segments lexed) (lexed_nested lexed) (lexed_ok lexed)
    (lexed_dynamic lexed || evaluates).
