(* ===== verification/WrappersFacts.v ===== *)
(** The candidate search of [executed_commands]: bounded, duplicate free,
    sound for the [expand] relation and, unless it reports that its budget ran
    out, closed under it. *)

From stdpp Require Export relations.
From S2P Require Export Wrappers.

(** [b] is a command that [a] may run. *)
Definition runs (a b : Segment) : Prop := In b (expand a).

Definition found_in (found : list Segment) (c : Segment) : bool :=
  existsb (fun s => bool_decide (s = c)) found.

Lemma found_in_spec found c : found_in found c = true <-> In c found.
Proof.
  unfold found_in. rewrite existsb_exists. split.
  - intros (x & Hx & ->%bool_decide_eq_true). done.
  - intros H. exists c. split; [done|]. by apply bool_decide_eq_true.
Qed.

Lemma next_candidate_None queue found :
  next_candidate queue found = None -> forall q, In q queue -> In (fst q) found.
Proof.
  induction queue as [|[c d] rest IH]; cbn [next_candidate]; [by intros _ ? []|].
  fold (found_in found c). destruct (found_in found c) eqn:E; [|done].
  apply found_in_spec in E. intros H q [<-|Hq]; [done|by apply IH].
Qed.

Lemma next_candidate_Some queue found c d rest :
  next_candidate queue found = Some (c, d, rest) ->
  ~ In c found /\ In (c, d) queue /\ (forall q, In q rest -> In q queue)
  /\ (forall q, In q queue -> In (fst q) found \/ fst q = c \/ In q rest).
Proof.
  induction queue as [|[c' d'] queue IH]; cbn [next_candidate]; [done|].
  fold (found_in found c'). destruct (found_in found c') eqn:E.
  - apply found_in_spec in E. intros (H1 & H2 & H3 & H4)%IH. split_and!; [done|by right|..].
    + intros q Hq. right. by apply H3.
    + intros q [<-|Hq]; [by left|by apply H4].
  - intros [= -> -> ->]. split_and!.
    + intros H%found_in_spec. congruence.
    + by left.
    + intros q Hq. by right.
    + intros q [<-|Hq]; [right; by left|right; by right].
Qed.

(** What one run of the work list adds to the candidates found so far. *)
Record search_result (start : Segment) (queue : list (Segment * nat)) (found res : list Segment)
    (budget : nat) (before cut : bool) : Prop := {
  sr_more : exists more, res = found ++ more
    /\ (cut = false -> forall c c', In c more -> runs c c' -> In c' res);
  sr_nodup : List.NoDup res;
  sr_length : (length res <= length found + budget)%nat;
  sr_queue : cut = false -> before = false /\ (forall q, In q queue -> In (fst q) res);
  sr_reach : Forall (rtc runs start) res
}.

Lemma search_spec start budget queue found before res cut :
  List.NoDup found -> Forall (rtc runs start) found ->
  Forall (fun q => rtc runs start (fst q)) queue ->
  search budget queue found before = (res, cut) ->
  search_result start queue found res budget before cut.
Proof.
  revert queue found before. induction budget as [|budget IH];
    intros queue found before Hn Hf Hq; cbn [search];
    destruct (next_candidate queue found) as [[[c d] rest]|] eqn:E.
  - intros [= <- <-]. split; [|done|lia|done|done].
    exists []. by rewrite app_nil_r.
  - intros [= <- <-]. pose proof (next_candidate_None _ _ E) as Hall.
    split; [|done|lia|eauto|done]. exists []. rewrite app_nil_r. split; [done|]. by intros _ ? ? [].
  - apply next_candidate_Some in E as (Hnew & Hin & Hsub & Hcov).
    assert (Hc : rtc runs start c).
    { rewrite List.Forall_forall in Hq. exact (Hq _ Hin). }
    assert (Hn' : List.NoDup (found ++ [c])).
    { apply NoDup_ListNoDup, NoDup_app. split; [by apply NoDup_ListNoDup|]. split.
      - intros x Hx%list_elem_of_In Hx'%list_elem_of_singleton. subst. done.
      - apply NoDup_singleton. }
    assert (Hf' : Forall (rtc runs start) (found ++ [c])) by (apply Forall_app; eauto).
    assert (Hr : Forall (fun q => rtc runs start (fst q)) rest).
    { rewrite List.Forall_forall in *. eauto. }
    assert (Hback : forall q', forall queue' before',
      (forall q, In q rest -> In q queue') ->
      (q' = false -> before' = false -> before = false) ->
      (q' = false -> before' = false -> forall c', runs c c' -> In c' (map fst queue')) ->
      search_result start queue' (found ++ [c]) res budget before' q' ->
      search_result start queue found res (S budget) before q').
    { intros q' queue' before' Hrest Hb Hcl [(more & -> & Hm) H2 H3 H4 H5].
      split; [| done | rewrite !length_app in *; simpl in *; lia | | done].
      - exists (c :: more). rewrite <- app_assoc. split; [done|].
        intros -> x x' [<-|Hx] Hrun; [|rewrite app_assoc; eauto].
        destruct (H4 eq_refl) as [Hbe Hq']. specialize (Hcl eq_refl Hbe x' Hrun).
        apply in_map_iff in Hcl as (y & <- & Hy). rewrite app_assoc. by apply Hq'.
      - intros ->. destruct (H4 eq_refl) as [Hbe Hq']. split; [auto|].
        intros q Hq0. destruct (Hcov q Hq0) as [H|[H|H]].
        + rewrite <- app_assoc. apply in_app_iff. by left.
        + rewrite H, <- app_assoc. apply in_app_iff. right. by left.
        + by apply Hq', Hrest. }
    destruct (MAX_DEPTH <=? d)%nat.
    + intros Hs. apply IH in Hs; [|done..].
      apply (Hback _ rest (before || negb (is_empty (expand c)))); [done| | |done].
      * intros _ []%orb_false_elim. done.
      * intros _ [_ H]%orb_false_elim c' Hrun. unfold runs in Hrun.
        destruct (expand c); [done|]. simpl in H. discriminate.
    + intros Hs. apply IH in Hs; [|done|done|].
      * eapply Hback; [| | |exact Hs]; [|done|].
        -- intros q Hq0. apply in_app_iff. by right.
        -- intros _ _ c' Hrun. rewrite map_app. apply in_app_iff. left.
           apply in_map_iff. exists (c', S d). split; [done|].
           apply list_elem_of_In, elem_of_reverse, list_elem_of_fmap.
           exists c'. split; [done|]. by apply list_elem_of_In.
      * apply Forall_app. split; [|done].
        apply Forall_reverse, Forall_map, List.Forall_forall.
        intros c' Hrun. simpl. eapply rtc_r; [exact Hc|exact Hrun].
  - intros [= <- <-]. pose proof (next_candidate_None _ _ E) as Hall.
    split; [|done|lia|eauto|done]. exists []. rewrite app_nil_r. split; [done|]. by intros _ ? ? [].
Qed.

Lemma executed_commands_result s :
  search_result (start_candidate s) [(start_candidate s, 0)] []
    (fst (executed_commands s)) MAX_CANDIDATES false (snd (executed_commands s)).
Proof.
  unfold executed_commands. destruct (search _ _ _ _) as [res cut] eqn:E.
  eapply search_spec; [| | |exact E]; repeat constructor.
Qed.

Lemma search_start budget c d before : In c (fst (search (S budget) [(c, d)] [] before)).
Proof.
  cbn [search next_candidate existsb].
  assert (Hgo : forall queue b, Forall (fun q => rtc runs c (fst q)) queue ->
            In c (fst (search budget queue ([] ++ [c]) b))).
  { intros queue b Hq. destruct (search budget queue _ b) as [res cut] eqn:E.
    eapply (search_spec c) in E as [(more & -> & _) _ _ _ _]; [by left| | |done].
    - repeat constructor. by intros [].
    - by repeat constructor. }
  destruct (MAX_DEPTH <=? d)%nat; apply Hgo; [done|].
  apply Forall_app. split; [|constructor].
  apply Forall_reverse, Forall_map, List.Forall_forall.
  intros c' Hrun. simpl. by apply rtc_once.
Qed.

Lemma executed_commands_start s : In (start_candidate s) (fst (executed_commands s)).
Proof. exact (search_start 255 (start_candidate s) 0 false). Qed.

(** Unless the budget ran out, every command the segment may run is found. *)
Lemma executed_commands_complete s c :
  snd (executed_commands s) = false -> rtc runs (start_candidate s) c ->
  In c (fst (executed_commands s)).
Proof.
  intros Hc. pose proof (executed_commands_start s) as H0.
  destruct (executed_commands_result s) as [(more & E & Hm) _ _ _ _]. simpl in E.
  rewrite <- E in Hm. revert H0. generalize (start_candidate s).
  induction 2 as [|a b c' Hab _ IH]; eauto.
Qed.

(** Every operand position of a wrapper is a command it may run. *)
Lemma wrapped_commands_suffix pre w rest :
  starts_with [chr "-"] (text_ w) = false -> In (w :: rest) (wrapped_commands (pre ++ w :: rest)).
Proof.
  intros Hw. induction pre as [|x pre IH]; cbn [app wrapped_commands].
  - rewrite Hw. by left.
  - apply in_app_iff. by right.
Qed.

Lemma runs_wrapped first pre w rest reds :
  existsb param (first :: pre ++ w :: rest) = false -> assignment first = false ->
  after_last (chr "/") (text_ first) = text_ first ->
  mem (to_ascii_lowercase (text_ first)) WRAPPERS = true ->
  starts_with [chr "-"] (text_ w) = false ->
  runs (mkSegment (first :: pre ++ w :: rest) reds) (mkSegment (w :: rest) reds).
Proof.
  intros Hp Ha Hb Hm Hw. unfold runs, expand. cbn [words redirects].
  unfold expansion_readings. rewrite Hp. cbn [negb]. cbn [take_while]. rewrite Ha. cbn [length].
  change (0 <? 0)%nat with false. cbn [app]. rewrite Hb, teqb_refl. cbn [negb andb]. rewrite Hm.
  apply in_app_iff. left. apply in_map_iff. eexists. split; [done|].
  by apply wrapped_commands_suffix.
Qed.

(** * Properties *)

(** The search for the commands a segment may run, wrappers, shells and
    [find] actions included, is exact up to its budget.  It returns at most
    [MAX_CANDIDATES] candidates without duplicates, the literal command among
    them, and each is reachable by [expand] steps; when it does not report
    truncation, every reachable command is returned. *)
Theorem executed_commands_exact (s : Segment) :
  let found := fst (executed_commands s) in
  (length found <= MAX_CANDIDATES)%nat /\ List.NoDup found /\ In (start_candidate s) found
  /\ (forall c, In c found -> rtc runs (start_candidate s) c)
  /\ (snd (executed_commands s) = false -> forall c, rtc runs (start_candidate s) c -> In c found).
Proof.
  intros found. destruct (executed_commands_result s) as [_ H2 H3 _ H5].
  split_and!; [done|done|apply executed_commands_start| |intros; by apply executed_commands_complete].
  by apply List.Forall_forall.
Qed.
