(* ===== verification/EscapeFacts.v ===== *)
(** Machine-width arithmetic of the ANSI-C escapes, and the readings of words
    with parameter expansions. *)

From S2P Require Export LexerFacts Wrappers.

Local Open Scope N_scope.

(** * Escapes *)

Lemma to_digit_bound radix c d : to_digit radix c = Some d -> d < radix.
Proof.
  unfold to_digit. destruct (is_ascii_digit c); [|destruct (is_ascii_lower c); [|destruct (is_ascii_upper c); [|done]]];
    (destruct (N.ltb_spec (c - 48) radix) || destruct (N.ltb_spec (c - 87) radix) || destruct (N.ltb_spec (c - 55) radix));
    repeat case_match; try done; intros [= <-]; try (apply N.ltb_lt; done); try done.
Qed.

(** After [k] digits the value is below [radix ^ k]. *)
Lemma code_point_loop_bound max radix value digits lx k :
  radix <> 0 -> value < radix ^ k ->
  let '(v, _, _) := code_point_loop max radix value digits lx in v < radix ^ (k + N.of_nat max).
Proof.
  intros Hr. revert value digits lx k. induction max as [|max IH]; intros value digits lx k Hv; cbn [code_point_loop].
  { by rewrite N.add_0_r. }
  assert (Hmono : value < radix ^ (k + N.of_nat (S max))).
  { eapply N.lt_le_trans; [exact Hv|]. apply N.pow_le_mono_r; [done|lia]. }
  destruct (peek lx) as [c|]; [|done].
  destruct (to_digit radix c) as [d|] eqn:Ed; [|done]. apply to_digit_bound in Ed.
  specialize (IH (value * radix + d) (S digits) (advance 1 lx) (k + 1)).
  replace (k + N.of_nat (S max)) with (k + 1 + N.of_nat max) by lia. apply IH.
  rewrite N.pow_add_r, N.pow_1_r. nia.
Qed.

(** The radix and digit limits the escapes use: [\x], [\u], [\U] and octal. *)
Definition escape_limits : list (N * nat) := [(16, 2%nat); (16, 4%nat); (16, 8%nat); (8, 3%nat)].

(** * Properties *)

(** Decoding [\x], [\u], [\U] and octal escapes never overflows.  With
    the digit limits the lexer uses, the accumulator of every partial value
    fits a [u32] (and an octal one nine bits), and what is decoded is a
    Unicode scalar value, never a surrogate. *)
Theorem escape_values_fit (radix : N) (max k : nat) (lx : Lexer) :
  In (radix, max) escape_limits -> (k <= max)%nat ->
  (let '(v, _, _) := code_point_loop k radix 0 0 lx in
   v < 2 ^ 32 /\ (radix = 8 -> v < 2 ^ 9))
  /\ forall c lx', code_point radix max lx = (Some c, lx') ->
       c <= 1114111 /\ ~ (55296 <= c <= 57343).
Proof.
  intros Hin Hk. split.
  - pose proof (code_point_loop_bound k radix 0 0 lx 0) as H.
    destruct (code_point_loop k radix 0 0 lx) as [[v d] l].
    specialize (H ltac:(repeat destruct Hin as [[= <- <-]|Hin]; done) ltac:(rewrite N.pow_0_r; lia)). rewrite N.add_0_l in H.
    assert (Hm : v < radix ^ N.of_nat max).
    { eapply N.lt_le_trans; [exact H|]. apply N.pow_le_mono_r; [|lia].
      repeat destruct Hin as [[= <- <-]|Hin]; done. }
    repeat destruct Hin as [[= <- <-]|Hin]; try done; cbn in Hm |- *; split; lia.
  - intros c lx'. unfold code_point. destruct (code_point_loop _ _ _ _ _) as [[v [|d]] l]; [done|].
    unfold char_from_u32, in_range. destruct (_ || _) eqn:E; [|done]. intros [= <- _].
    apply orb_prop in E as [E|E]; apply andb_prop in E as [E1 E2];
      apply N.leb_le in E1, E2; lia.
Qed.

Lemma escape_values_fit_witness :
  (let '(v, _, _) := code_point_loop 8 16 0 0 (new_lexer (str "FFFFFFFFF") 0) in v < 2 ^ 32).
Proof.
  pose proof (escape_values_fit 16 8 8 (new_lexer (str "FFFFFFFFF") 0)) as H.
  destruct H as [H _]; [right; right; left; reflexivity|lia|].
  destruct (code_point_loop 8 16 0 0 (new_lexer (str "FFFFFFFFF") 0)) as [[v d] l].
  exact (proj1 H).
Defined.

(** The two readings of a command with parameter expansions.  Neither
    reading contains an expansion any more, both spell the same text (the
    literal text of the words in order), and words without expansions appear
    unchanged in both. *)
Theorem expansion_readings_agree (ws split_ joined : list Word) :
  expansion_readings ws = Some (split_, joined) ->
  Forall (fun w => param w = false) split_ /\ Forall (fun w => param w = false) joined
  /\ concat (map text_ split_) = concat (map text_ joined)
  /\ (forall w, In w ws -> param w = false -> In w split_ /\ In w joined).
Proof.
  unfold expansion_readings. destruct (negb (existsb param ws)); [done|]. intros [= <- <-].
  split_and!.
  - induction ws as [|w ws IH]; [constructor|]. apply Forall_app. split; [apply word_readings_static|done].
  - induction ws as [|w ws IH]; [constructor|]. apply Forall_app. split; [apply word_readings_static|done].
  - induction ws as [|w ws IH]; [done|]. cbn [flat_map]. rewrite !map_app, !concat_app, IH. f_equal.
    unfold word_readings. destruct (param w); [|done]. cbn [negb].
    pose proof (fields_concat (text_ w)) as H. destruct (fields (text_ w)) as [fs j]. cbn [fst snd] in *.
    rewrite map_map. cbn. rewrite map_id, H. destruct j; [done|]. cbn. by rewrite app_nil_r.
  - intros w Hin Hp. unfold word_readings.
    split; apply in_flat_map; exists w; rewrite Hp; (split; [done|by left]).
Qed.

Lemma expansion_readings_agree_witness :
  match expansion_readings [set_text (str "r${x}m") (set_param true default_word); set_text (str "-f") default_word] with
  | Some (split_, joined) =>
      map text_ split_ = [str "r"; str "m"; str "-f"] /\ map text_ joined = [str "rm"; str "-f"]
      /\ concat (map text_ split_) = concat (map text_ joined)
  | None => False
  end.
Proof.
  destruct (expansion_readings _) as [[s j]|] eqn:E; [|vm_compute in E; discriminate].
  pose proof (expansion_readings_agree _ _ _ E) as (_ & _ & H & _).
  split; [vm_compute in E; injection E as <- <-; vm_compute; reflexivity|].
  split; [vm_compute in E; injection E as <- <-; vm_compute; reflexivity|exact H].
Defined.
