(* ===== verification/Sed.v ===== *)
(** The arguments and scripts of sed ([shell/sed.rs], [shell/sed_script.rs]). *)

From S2P Require Export Lexer.

Definition blank (c : char) : bool := eqc (chr " ") c || eqc TAB c.
Definition skip_blanks (rest : text) : text := drop_while blank rest.
Definition skip_digits (rest : text) : text := drop_while is_ascii_digit rest.

Definition usable_delimiter (c : char) : bool :=
  negb (eqc (chr "\") c || eqc NEWLINE c || one_of "[]" c).

(** The two loops of [bracket]; [class] is the kind of the open [[:..:]]. *)
Fixpoint bracket_loop (delimiter : char) (rest : text) (class : option char) : option text :=
  match rest with
  | [] => None
  | c :: rest' =>
      if eqc NEWLINE c || eqc delimiter c then None
      else
        match class with
        | None =>
            if eqc (chr "]") c then Some rest'
            else match rest' with
                 | k :: rest'' =>
                     if eqc (chr "[") c && one_of ":=." k then bracket_loop delimiter rest'' (Some k)
                     else bracket_loop delimiter rest' None
                 | [] => bracket_loop delimiter rest' None
                 end
        | Some k =>
            match rest' with
            | b :: rest'' =>
                if eqc k c && eqc (chr "]") b then bracket_loop delimiter rest'' None
                else bracket_loop delimiter rest' class
            | [] => bracket_loop delimiter rest' class
            end
        end
  end.

Definition bracket (delimiter : char) (rest : text) : option text :=
  let rest1 := match rest with c :: r => if eqc (chr "^") c then r else rest | [] => rest end in
  let rest2 := match rest1 with c :: r => if eqc (chr "]") c then r else rest1 | [] => rest1 end in
  bracket_loop delimiter rest2 None.

(** A regular expression up to [delimiter]. *)
Fixpoint regex_loop (fuel : nat) (delimiter : char) (rest : text) : option text :=
  match fuel with
  | O => None
  | S f =>
      match rest with
      | [] => None
      | c :: rest' =>
          if eqc NEWLINE c then None
          else if eqc delimiter c then Some rest'
          else if eqc (chr "\") c then
            match rest' with _ :: rest'' => regex_loop f delimiter rest'' | [] => None end
          else if eqc (chr "[") c then
            match bracket delimiter rest' with
            | Some rest'' => regex_loop f delimiter rest''
            | None => None
            end
          else regex_loop f delimiter rest'
      end
  end.
Definition regex (delimiter : char) (rest : text) : option text :=
  regex_loop (length rest) delimiter rest.

(** A replacement or [y] part up to [delimiter]. *)
Fixpoint literal (delimiter : char) (rest : text) : option text :=
  match rest with
  | [] => None
  | c :: rest' =>
      if eqc NEWLINE c then None
      else if eqc delimiter c then Some rest'
      else if eqc (chr "\") c then
        match rest' with _ :: rest'' => literal delimiter rest'' | [] => None end
      else literal delimiter rest'
  end.

Definition address_flags (rest : text) : option text := Some (drop_while (one_of "IM") rest).

Definition address (rest : text) : option text :=
  match rest with
  | [] => Some rest
  | c :: rest' =>
      if is_ascii_digit c then
        let after := skip_digits rest in
        match after with
        | t :: after' => if eqc (chr "~") t then Some (skip_digits after') else Some after
        | [] => Some after
        end
      else if one_of "+~" c then Some (skip_digits rest')
      else if eqc (chr "$") c then Some rest'
      else if eqc (chr "/") c then regex (chr "/") rest' ≫= address_flags
      else if eqc (chr "\") c then
        match rest' with
        | d :: rest'' => if usable_delimiter d then regex d rest'' ≫= address_flags else None
        | [] => None
        end
      else Some rest
  end.

Definition substitution_flag (c : char) : bool := one_of "gpiImM" c || is_ascii_digit c.

Definition sed_substitution (rest : text) : option text :=
  match rest with
  | d :: rest' =>
      if usable_delimiter d then
        drop_while substitution_flag <$> (regex d rest' ≫= literal d)
      else None
  | [] => None
  end.

Definition transliteration (rest : text) : option text :=
  match rest with
  | d :: rest' => if usable_delimiter d then literal d rest' ≫= literal d else None
  | [] => None
  end.

(** The arguments of the command [c]; [None] for a command that is refused. *)
Definition command_arguments (c : char) (rest : text) : option text :=
  if one_of "pPdDnN=gGhHxzF}" c then Some rest
  else if one_of "lqQ" c then Some (skip_digits (skip_blanks rest))
  else if one_of "btT:" c then Some (drop_while (fun x => negb (eqc (chr ";") x || eqc NEWLINE x)) rest)
  else if one_of "aic" c then Some (drop_while (fun x => negb (eqc NEWLINE x)) rest)
  else if eqc (chr "s") c then sed_substitution rest
  else if eqc (chr "y") c then transliteration rest
  else None.

(** The optional second address, after a comma. *)
Definition second_address (rest : text) : option text :=
  match rest with
  | c :: rest' => if eqc (chr ",") c then address (skip_blanks rest') else Some rest
  | [] => Some rest
  end.

(** [while peek = '!' { at += 1; skip_blanks }]. *)
Fixpoint skip_negations (rest : text) (blanks : bool) : text :=
  match rest with
  | c :: rest' =>
      if eqc (chr "!") c then skip_negations rest' true
      else if blanks && blank c then skip_negations rest' true
      else rest
  | [] => []
  end.

Definition ends_command (rest : text) : bool :=
  match rest with c :: _ => one_of ";}#" c || eqc NEWLINE c | [] => true end.

Fixpoint commands (fuel : nat) (rest0 : text) : bool :=
  match fuel with
  | O => false
  | S f =>
      let rest := drop_while (fun c => is_whitespace c || eqc (chr ";") c) rest0 in
      match rest with
      | [] => true
      | first :: _ =>
          if eqc (chr "#") first then commands f (drop_while (fun c => negb (eqc NEWLINE c)) rest)
          else
            match address rest ≫= (fun r => second_address (skip_blanks r)) with
            | None => false
            | Some r =>
                match skip_negations (skip_blanks r) false with
                | [] => false
                | c :: r1 =>
                    if eqc (chr "{") c then commands f r1
                    else match command_arguments c r1 with
                         | None => false
                         | Some r2 =>
                             let r3 := skip_blanks r2 in
                             ends_command r3 && commands f r3
                         end
                end
            end
      end
  end.

(** Every turn consumes a char, so one turn more than there are chars is
    enough ([commands_enough]). *)
Definition script_is_safe (script : text) : bool := commands (S (length script)) script.

Record SedCall := mkSedCall { in_place : bool; files : list Word }.

Record SedState := mkSedState {
  scripts : list text;
  sed_positionals : list Word;
  sed_in_place : bool;
  sed_options : bool
}.

Definition push_script (t : text) (s : SedState) : SedState :=
  mkSedState (scripts s ++ [t]) (sed_positionals s) (sed_in_place s) (sed_options s).

Definition SED_LONG_FLAGS : list text :=
  [str "quiet"; str "silent"; str "regexp-extended"; str "separate"; str "unbuffered";
   str "null-data"; str "posix"; str "sandbox"; str "debug"; str "follow-symlinks"].

(** A long option, with the words after it: the new state and how many of
    those words it takes. *)
Definition sed_long (long : text) (after : list Word) (s : SedState) : option (SedState * nat) :=
  let '(name, value) :=
    match split_once [chr "="] long with
    | Some (name, value) => (name, Some value)
    | None => (long, None)
    end in
  if mem name SED_LONG_FLAGS then Some (s, 0)
  else if teqb name (str "expression") then
    match value with
    | Some value => Some (push_script value s, 0)
    | None => match after with
              | w :: _ => Some (push_script (text_ w) s, 1)
              | [] => None
              end
    end
  else if teqb name (str "in-place") then
    Some (mkSedState (scripts s) (sed_positionals s) true (sed_options s), 0)
  else if teqb name (str "line-length") then
    Some (s, match value with None => 1 | Some _ => 0 end)
  else None.

(** A short-option cluster. *)
Fixpoint sed_cluster (cluster : list char) (after : list Word) (s : SedState)
  : option (SedState * nat) :=
  match cluster with
  | [] => Some (s, 0)
  | flag :: rest =>
      if one_of "nErsuz" flag then sed_cluster rest after s
      else if eqc (chr "e") flag then
        if is_empty rest then
          match after with
          | w :: _ => Some (push_script (text_ w) s, 1)
          | [] => None
          end
        else Some (push_script rest s, 0)
      else if one_of "iI" flag then
        let suffix :=
          match after with
          | next :: _ => is_empty (text_ next) || starts_with [chr "."] (text_ next)
          | [] => false
          end in
        Some (mkSedState (scripts s) (sed_positionals s) true (sed_options s),
              if is_empty rest && suffix then 1 else 0)
      else if eqc (chr "l") flag then Some (s, if is_empty rest then 1 else 0)
      else None
  end.

(** The options loop; [skip] counts words an option has taken. *)
Fixpoint sed_args (args : list Word) (skip : nat) (s : SedState) : option SedState :=
  match args with
  | [] => Some s
  | w :: after =>
      match skip with
      | S k => sed_args after k s
      | O =>
          let t := text_ w in
          if negb (sed_options s) || negb (starts_with [chr "-"] t) || teqb t (str "-") then
            sed_args after 0 (mkSedState (scripts s) (sed_positionals s ++ [w])
                                (sed_in_place s) (sed_options s))
          else if teqb t (str "--") then
            sed_args after 0 (mkSedState (scripts s) (sed_positionals s) (sed_in_place s) false)
          else
            match (match strip_prefix (str "--") t with
                   | Some long => sed_long long after s
                   | None => sed_cluster (tail t) after s
                   end) with
            | Some (s', k) => sed_args after k s'
            | None => None
            end
      end
  end.

Definition parse_call (args : list Word) : option SedCall :=
  if existsb splits args then None
  else
    match sed_args args 0 (mkSedState [] [] false true) with
    | None => None
    | Some s =>
        match (match scripts s with
               | [] => match sed_positionals s with
                       | w :: rest => Some ([text_ w], rest)
                       | [] => None
                       end
               | all => Some (all, sed_positionals s)
               end) with
        | None => None
        | Some (all, positionals) =>
            if script_is_safe (join [NEWLINE] all) then Some (mkSedCall (sed_in_place s) positionals)
            else None
        end
    end.
