(* ===== verification/SedFacts.v ===== *)
(** The [sed] script scanner: its fuel is enough, and what it accepts is a
    sequence of commands that only print, delete, substitute or
    transliterate. *)

From S2P Require Export Sed.

(** * Suffixes and fuel *)

(** [r] is what is left of [t], with something consumed unless [k] is 0. *)
Definition leaves (k : nat) (t r : text) : Prop := exists pre, t = pre ++ r /\ (k <= length pre)%nat.

Lemma leaves_refl t : leaves 0 t t.
Proof. by exists []. Qed.

Lemma leaves_trans i j a b c : leaves i a b -> leaves j b c -> leaves (i + j) a c.
Proof.
  intros (p & -> & Hp) (q & -> & Hq). exists (p ++ q). rewrite app_assoc, length_app.
  split; [done|lia].
Qed.

Lemma leaves_cons k c t r : leaves k t r -> leaves (S k) (c :: t) r.
Proof. intros (p & -> & Hp). exists (c :: p). simpl. split; [done|lia]. Qed.

Lemma leaves_le k j t r : (j <= k)%nat -> leaves k t r -> leaves j t r.
Proof. intros H (p & -> & Hp). exists p. split; [done|lia]. Qed.

Lemma leaves_length k t r : leaves k t r -> (length r + k <= length t)%nat.
Proof. intros (p & -> & Hp). rewrite length_app. lia. Qed.

Lemma leaves_drop_while p t : leaves 0 t (drop_while p t).
Proof. exists (take_while p t). split; [by rewrite take_while_drop_while|lia]. Qed.

Lemma bracket_loop_leaves d rest class r : bracket_loop d rest class = Some r -> leaves 1 rest r.
Proof.
  remember (length rest) as n eqn:Hn. revert rest class r Hn.
  induction (lt_wf n) as [n _ IH]. intros rest class r -> H.
  destruct rest as [|c rest]; cbn [bracket_loop] in H; [done|].
  destruct (_ || _); [done|].
  assert (Hgo : forall rest' class', (length rest' <= length rest)%nat ->
            bracket_loop d rest' class' = Some r -> leaves 1 rest' r).
  { intros rest' class' Hl Hb. eapply (IH (length rest')); [simpl; lia|done|exact Hb]. }
  assert (H1 : forall class', bracket_loop d rest class' = Some r -> leaves 1 (c :: rest) r).
  { intros class' Hb. eapply leaves_le, leaves_cons, Hgo; [|done|exact Hb]. lia. }
  destruct class as [k|].
  - destruct rest as [|b rest]; [by apply (H1 (Some k))|]. destruct (_ && _); [|by apply (H1 (Some k))].
    eapply leaves_le, leaves_cons, leaves_cons, Hgo; [|simpl; lia|exact H]. lia.
  - destruct (eqc (chr "]") c); [injection H as <-; apply leaves_cons, leaves_refl|].
    destruct rest as [|b rest]; [by apply (H1 None)|]. destruct (_ && _); [|by apply (H1 None)].
    eapply leaves_le, leaves_cons, leaves_cons, Hgo; [|simpl; lia|exact H]. lia.
Qed.

Lemma bracket_leaves d rest r : bracket d rest = Some r -> leaves 0 rest r.
Proof.
  unfold bracket. intros H%bracket_loop_leaves. eapply (leaves_le 1); [lia|].
  assert (Hone : forall p (t : text), leaves 0 t
            (match t with c :: u => if (p c : bool) then u else t | [] => t end)).
  { intros p [|c u]; [apply leaves_refl|]. destruct (p c); [|apply leaves_refl].
    eapply leaves_le, leaves_cons, leaves_refl. lia. }
  pose proof (Hone (eqc (chr "^")) rest) as H1. cbv zeta in H.
  eapply (leaves_trans 0 1); [exact H1|]. eapply (leaves_trans 0 1); [|exact H].
  apply (Hone (eqc (chr "]"))).
Qed.

Lemma regex_loop_leaves fuel d rest r : regex_loop fuel d rest = Some r -> leaves 1 rest r.
Proof.
  revert rest. induction fuel as [|fuel IH]; intros rest H; cbn [regex_loop] in H; [done|].
  destruct rest as [|c rest]; [done|]. repeat case_if_in H; try done.
  - injection H as <-. apply leaves_cons, leaves_refl.
  - destruct rest as [|e rest]; [done|]. apply IH in H.
    eapply leaves_le, leaves_cons, leaves_cons, H. lia.
  - destruct (bracket d rest) as [rest'|] eqn:E; [|done]. apply bracket_leaves in E. apply IH in H.
    eapply leaves_le, leaves_cons; [|by eapply leaves_trans]. lia.
  - apply IH in H. eapply leaves_le, leaves_cons, H. lia.
Qed.

(** As much fuel as there are chars is enough. *)
Lemma regex_loop_fuel d n m rest :
  (length rest <= n)%nat -> (length rest <= m)%nat -> regex_loop n d rest = regex_loop m d rest.
Proof.
  revert m rest. induction n as [|n IH]; intros m rest Hn Hm.
  { destruct rest; [|simpl in Hn; lia]. by destruct m. }
  destruct rest as [|c rest]; [by destruct m|]. destruct m as [|m]; [simpl in Hm; lia|].
  cbn [regex_loop length] in *. repeat case_if; try done.
  - destruct rest as [|e rest]; [done|]. cbn [length] in *. apply IH; lia.
  - destruct (bracket d rest) as [rest'|] eqn:E; [|done].
    apply bracket_leaves, leaves_length in E. apply IH; lia.
  - apply IH; lia.
Qed.

Lemma literal_leaves d rest r : literal d rest = Some r -> leaves 1 rest r.
Proof.
  remember (length rest) as n eqn:Hn. revert rest r Hn.
  induction (lt_wf n) as [n _ IH]. intros rest r -> H.
  destruct rest as [|c rest]; cbn [literal] in H; [done|]. repeat case_if_in H; try done.
  - injection H as <-. apply leaves_cons, leaves_refl.
  - destruct rest as [|e rest]; [done|]. apply (IH (length rest)) in H; [|simpl; lia|done].
    eapply leaves_le, leaves_cons, leaves_cons, H. lia.
  - apply (IH (length rest)) in H; [|simpl; lia|done]. eapply leaves_le, leaves_cons, H. lia.
Qed.

Lemma address_leaves rest r : address rest = Some r -> leaves 0 rest r.
Proof.
  unfold address, skip_digits, address_flags, regex. destruct rest as [|c rest]; [intros [= <-]; apply leaves_refl|].
  intros H. repeat case_if_in H; try done.
  - pose proof (leaves_drop_while is_ascii_digit (c :: rest)) as H1.
    destruct (drop_while is_ascii_digit (c :: rest)) as [|t after]; [by injection H as <-|].
    destruct (eqc (chr "~") t); injection H as <-; [|done].
    eapply (leaves_le 1); [lia|]. eapply (leaves_trans 0 1); [exact H1|].
    apply leaves_cons, leaves_drop_while.
  - injection H as <-. eapply leaves_le, leaves_cons, leaves_drop_while. lia.
  - injection H as <-. eapply leaves_le, leaves_cons, leaves_refl. lia.
  - apply bind_Some in H as (r' & H%regex_loop_leaves & [= <-]).
    eapply leaves_le; [|eapply leaves_cons, leaves_trans; [exact H|apply leaves_drop_while]]. lia.
  - destruct rest as [|d rest]; [done|]. destruct (usable_delimiter d); [|done].
    apply bind_Some in H as (r' & H%regex_loop_leaves & [= <-]).
    eapply leaves_le; [|eapply leaves_cons, leaves_cons, leaves_trans; [exact H|apply leaves_drop_while]]. lia.
  - injection H as <-. apply leaves_refl.
Qed.

Lemma second_address_leaves rest r : second_address rest = Some r -> leaves 0 rest r.
Proof.
  unfold second_address, skip_blanks. destruct rest as [|c rest]; [intros [= <-]; apply leaves_refl|].
  destruct (eqc (chr ",") c); [|intros [= <-]; apply leaves_refl].
  intros H%address_leaves. eapply leaves_le; [|eapply leaves_cons, leaves_trans; [apply leaves_drop_while|exact H]].
  lia.
Qed.

Lemma skip_negations_leaves rest b : leaves 0 rest (skip_negations rest b).
Proof.
  revert b. induction rest as [|c rest IH]; intros b; cbn [skip_negations]; [apply leaves_refl|].
  repeat case_if; try apply leaves_refl; (eapply leaves_le, leaves_cons, IH; lia).
Qed.

(** * The grammar of accepted scripts *)

(** A part that ends at its first unescaped delimiter [d]; with [brackets]
    a bracket expression, which holds no delimiter after its [^], is passed
    over. *)
Inductive delimited (brackets : bool) (d : char) : text -> Prop :=
| del_end : delimited brackets d [d]
| del_char c t :
    c <> d -> c <> NEWLINE -> c <> chr "\" -> (brackets = true -> c <> chr "[") ->
    delimited brackets d t -> delimited brackets d (c :: t)
| del_escape e t : delimited brackets d t -> delimited brackets d (chr "\" :: e :: t)
| del_bracket negation b t :
    brackets = true -> In negation [[]; [chr "^"]] -> Forall (fun c => c <> d /\ c <> NEWLINE) b ->
    delimited brackets d t -> delimited brackets d (chr "[" :: negation ++ b ++ t).

Definition all_digits (t : text) : Prop := forallb is_ascii_digit t = true.

(** A line address: nothing, a number or step, the last line, or a regular
    expression with its flags. *)
Inductive address_text : text -> Prop :=
| addr_none : address_text []
| addr_number n : all_digits n -> address_text n
| addr_step n m : all_digits n -> all_digits m -> address_text (n ++ chr "~" :: m)
| addr_offset c n : one_of "+~" c = true -> all_digits n -> address_text (c :: n)
| addr_last : address_text [chr "$"]
| addr_regex t flags :
    delimited true (chr "/") t -> forallb (one_of "IM") flags = true ->
    address_text (chr "/" :: t ++ flags)
| addr_custom d t flags :
    usable_delimiter d = true -> delimited true d t -> forallb (one_of "IM") flags = true ->
    address_text (chr "\" :: d :: t ++ flags).

(** One address or a range, and negations. *)
Inductive where_text : text -> Prop :=
| where_one a pad : address_text a -> forallb (fun c => blank c || eqc (chr "!") c) pad = true ->
    where_text (a ++ pad)
| where_range a p q b pad :
    address_text a -> forallb blank p = true -> forallb blank q = true -> address_text b ->
    forallb (fun c => blank c || eqc (chr "!") c) pad = true ->
    where_text (a ++ p ++ chr "," :: q ++ b ++ pad).

(** The arguments of a command other than a block: [s] and [y] take delimited
    parts, and after [s] only flags that print or select; no command names a
    file or a program. *)
Inductive safe_arguments : char -> text -> Prop :=
| args_none c : one_of "pPdDnN=gGhHxzF}" c = true -> safe_arguments c []
| args_number c pad n :
    one_of "lqQ" c = true -> forallb blank pad = true -> all_digits n -> safe_arguments c (pad ++ n)
| args_label c l :
    one_of "btT:" c = true -> forallb (fun x => negb (eqc (chr ";") x || eqc NEWLINE x)) l = true ->
    safe_arguments c l
| args_text c l :
    one_of "aic" c = true -> forallb (fun x => negb (eqc NEWLINE x)) l = true ->
    safe_arguments c l
| args_substitute d pattern replacement flags :
    usable_delimiter d = true -> delimited true d pattern -> delimited false d replacement ->
    forallb substitution_flag flags = true ->
    safe_arguments (chr "s") (d :: pattern ++ replacement ++ flags)
| args_transliterate d from to :
    usable_delimiter d = true -> delimited false d from -> delimited false d to ->
    safe_arguments (chr "y") (d :: from ++ to).

(** A script: blanks, separators and comments, blocks, and commands, each
    followed by a separator. *)
Inductive safe_script : text -> Prop :=
| script_nil : safe_script []
| script_skip pre s :
    forallb (fun c => is_whitespace c || eqc (chr ";") c) pre = true ->
    safe_script s -> safe_script (pre ++ s)
| script_comment l s :
    head l = Some (chr "#") -> forallb (fun c => negb (eqc NEWLINE c)) l = true ->
    safe_script s -> safe_script (l ++ s)
| script_block where_ s :
    where_text where_ -> safe_script s -> safe_script (where_ ++ chr "{" :: s)
| script_command where_ c args pad s :
    where_text where_ -> safe_arguments c args -> forallb blank pad = true ->
    ends_command s = true -> safe_script s -> safe_script (where_ ++ c :: args ++ pad ++ s).

(** * What the scanner consumes *)

Lemma consumed_while p (t : text) :
  exists l, t = l ++ drop_while p t /\ forallb p l = true.
Proof. exists (take_while p t). split; [by rewrite take_while_drop_while|apply take_while_all]. Qed.

Definition no_end (d : char) : char -> Prop := fun c => c <> d /\ c <> NEWLINE.

Lemma eqc_spec a c : reflect (c = a) (eqc a c).
Proof. apply N.eqb_spec. Qed.

(** A class whose kind is the delimiter is never closed. *)
Lemma bracket_loop_kind d rest : bracket_loop d rest (Some d) = None.
Proof.
  induction rest as [|c rest IH]; cbn [bracket_loop]; [done|].
  destruct (eqc d c) eqn:E; [by rewrite orb_true_r|]. rewrite orb_false_r.
  destruct (eqc NEWLINE c); [done|]. cbn [andb]. by destruct rest.
Qed.

Lemma bracket_loop_consumed d rest class r :
  d <> chr "]" -> bracket_loop d rest class = Some r ->
  exists b, rest = b ++ r /\ Forall (no_end d) b.
Proof.
  intros Hd. remember (length rest) as n eqn:Hn. revert rest class r Hn.
  induction (lt_wf n) as [n _ IH]. intros rest class r -> H.
  destruct rest as [|c rest]; cbn [bracket_loop] in H; [done|].
  destruct (eqc NEWLINE c || eqc d c) eqn:Ec; [done|].
  assert (Hc : no_end d c). { apply orb_false_elim in Ec as [E1 E2]. split; by apply N.eqb_neq. }
  assert (H1 : forall class', bracket_loop d rest class' = Some r ->
            exists b, c :: rest = b ++ r /\ Forall (no_end d) b).
  { intros class' Hb. apply (IH (length rest)) in Hb as (b & -> & Hb); [|simpl; lia|done].
    exists (c :: b). split; [done|by constructor]. }
  assert (H2 : forall k rest' class', rest = k :: rest' -> no_end d k ->
            bracket_loop d rest' class' = Some r -> exists b, c :: rest = b ++ r /\ Forall (no_end d) b).
  { intros k rest' class' -> Hk Hb.
    apply (IH (length rest')) in Hb as (b & -> & Hb); [|simpl; lia|done].
    exists (c :: k :: b). split; [done|]. constructor; [done|by constructor]. }
  destruct class as [k|].
  - destruct rest as [|b rest]; [by apply (H1 (Some k))|].
    destruct (eqc k c && eqc (chr "]") b) eqn:E; [|by apply (H1 (Some k))].
    eapply H2; [done| |exact H]. apply andb_prop in E as [_ E]. apply N.eqb_eq in E as ->.
    split; [congruence|done].
  - destruct (eqc (chr "]") c); [injection H as <-; exists [c]; split; [done|by constructor]|].
    destruct rest as [|k rest]; [by apply (H1 None)|].
    destruct (eqc (chr "[") c && one_of ":=." k) eqn:E; [|by apply (H1 None)].
    eapply H2; [done| |exact H]. apply andb_prop in E as [_ E].
    split; [intros ->; by rewrite bracket_loop_kind in H|].
    intros ->. vm_compute in E. discriminate.
Qed.

Lemma bracket_consumed d rest r :
  d <> chr "]" -> bracket d rest = Some r ->
  exists negation b, rest = negation ++ b ++ r /\ In negation [[]; [chr "^"]] /\ Forall (no_end d) b.
Proof.
  intros Hd. unfold bracket.
  assert (Hclose : forall t, bracket_loop d (match t with c :: u => if eqc (chr "]") c then u else t | [] => t end) None
              = Some r -> exists b, t = b ++ r /\ Forall (no_end d) b).
  { intros [|c u]; [by apply bracket_loop_consumed|]. destruct (eqc_spec (chr "]") c) as [->|_].
    - intros (b & -> & Hb)%bracket_loop_consumed; [|done]. exists (chr "]" :: b).
      split; [done|]. constructor; [by split|done].
    - by apply bracket_loop_consumed. }
  destruct rest as [|c rest]; [done|].
  destruct (eqc_spec (chr "^") c) as [->|_].
  - intros (b & -> & Hb)%(Hclose rest). exists [chr "^"], b. split_and!; [done|right; by left|done].
  - intros (b & -> & Hb)%(Hclose (c :: rest)). exists [], b. split_and!; [done|by left|done].
Qed.

Lemma regex_consumed d rest r :
  usable_delimiter d = true -> regex d rest = Some r ->
  exists t, rest = t ++ r /\ delimited true d t.
Proof.
  intros Hu. assert (Hd : d <> chr "]") by (by intros ->). unfold regex. revert Hu.
  generalize (length rest) as fuel. intros fuel Hu. revert rest.
  induction fuel as [|fuel IH]; intros rest H; cbn [regex_loop] in H; [done|].
  destruct rest as [|c rest]; [done|].
  destruct (eqc_spec NEWLINE c) as [|Hn]; [done|].
  destruct (eqc_spec d c) as [->|Hcd]; [injection H as <-; exists [d]; split; [done|constructor]|].
  destruct (eqc_spec (chr "\") c) as [->|Hb].
  { destruct rest as [|e rest]; [done|]. apply IH in H as (t & -> & Ht).
    exists (chr "\" :: e :: t). split; [done|by constructor]. }
  destruct (eqc_spec (chr "[") c) as [->|Hbr].
  { destruct (bracket d rest) as [rest'|] eqn:E; [|done].
    apply bracket_consumed in E as (neg & b & -> & Hneg & Hfb); [|done]. apply IH in H as (t & -> & Ht).
    exists (chr "[" :: neg ++ b ++ t). split; [cbn; by rewrite <- !app_assoc|by constructor]. }
  apply IH in H as (t & -> & Ht). exists (c :: t). split; [done|by constructor].
Qed.

Lemma literal_consumed d rest r :
  literal d rest = Some r -> exists t, rest = t ++ r /\ delimited false d t.
Proof.
  remember (length rest) as n eqn:Hl. revert rest r Hl.
  induction (lt_wf n) as [n _ IH]. intros rest r -> H.
  destruct rest as [|c rest]; cbn [literal] in H; [done|].
  destruct (eqc_spec NEWLINE c) as [|Hn]; [done|].
  destruct (eqc_spec d c) as [->|Hcd]; [injection H as <-; exists [d]; split; [done|constructor]|].
  destruct (eqc_spec (chr "\") c) as [->|Hb].
  - destruct rest as [|e rest]; [done|]. apply (IH (length rest)) in H as (t & -> & Ht); [|simpl; lia|done].
    exists (chr "\" :: e :: t). split; [done|by constructor].
  - apply (IH (length rest)) in H as (t & -> & Ht); [|simpl; lia|done].
    exists (c :: t). split; [done|by constructor].
Qed.

Lemma address_consumed rest r :
  address rest = Some r -> exists a, rest = a ++ r /\ address_text a.
Proof.
  unfold address, skip_digits, address_flags. destruct rest as [|c rest]; [intros [= <-]; exists []; split; [done|apply addr_none]|].
  intros H. destruct (is_ascii_digit c) eqn:Ec.
  { destruct (consumed_while is_ascii_digit (c :: rest)) as (n & E & Hn).
    destruct (drop_while is_ascii_digit (c :: rest)) as [|t after];
      [injection H as <-; exists n; split; [done|by apply addr_number]|].
    destruct (eqc_spec (chr "~") t) as [->|_]; injection H as <-;
      [|exists n; split; [done|by apply addr_number]].
    destruct (consumed_while is_ascii_digit after) as (m & E2 & Hm).
    exists (n ++ chr "~" :: m). split; [|by apply addr_step].
    rewrite E, E2 at 1. by rewrite <- app_assoc. }
  destruct (one_of "+~" c) eqn:Ep.
  { injection H as <-. destruct (consumed_while is_ascii_digit rest) as (m & E & Hm).
    exists (c :: m). split; [by rewrite E at 1|by apply addr_offset]. }
  destruct (eqc_spec (chr "$") c) as [->|_]; [injection H as <-; exists [chr "$"]; split; [done|apply addr_last]|].
  destruct (eqc_spec (chr "/") c) as [->|_].
  { apply bind_Some in H as (r' & (t & -> & Ht)%regex_consumed & [= <-]); [|done].
    destruct (consumed_while (one_of "IM") r') as (fl & E & Hf).
    exists (chr "/" :: t ++ fl). split; [by rewrite E at 1; cbn; rewrite <- app_assoc|by apply addr_regex]. }
  destruct (eqc_spec (chr "\") c) as [->|_].
  { destruct rest as [|d rest]; [done|]. destruct (usable_delimiter d) eqn:Eu; [|done].
    apply bind_Some in H as (r' & (t & -> & Ht)%regex_consumed & [= <-]); [|done].
    destruct (consumed_while (one_of "IM") r') as (fl & E & Hf).
    exists (chr "\" :: d :: t ++ fl).
    split; [by rewrite E at 1; cbn; rewrite <- app_assoc|by apply addr_custom]. }
  injection H as <-. exists []. split; [done|apply addr_none].
Qed.

Lemma skip_negations_consumed rest b :
  exists pad, rest = pad ++ skip_negations rest b
              /\ forallb (fun c => blank c || eqc (chr "!") c) pad = true.
Proof.
  revert b. induction rest as [|c rest IH]; intros b; cbn [skip_negations]; [by exists []|].
  destruct (IH true) as (pad & E & Hp).
  destruct (eqc (chr "!") c) eqn:Ec.
  - exists (c :: pad). cbn. rewrite <- E, Ec, orb_true_r. done.
  - destruct (b && blank c) eqn:Eb; [|by exists []].
    apply andb_prop in Eb as [_ Eb]. exists (c :: pad). cbn. by rewrite <- E, Eb.
Qed.

Lemma where_consumed rest r :
  address rest ≫= (fun a => second_address (skip_blanks a)) = Some r ->
  exists where_, rest = where_ ++ skip_negations (skip_blanks r) false /\ where_text where_.
Proof.
  intros (r1 & (a & -> & Ha)%address_consumed & Hr)%bind_Some.
  unfold skip_blanks in *. destruct (consumed_while blank r1) as (p & E1 & Hp).
  assert (Hpad : forall t, exists pad, t = pad ++ skip_negations (drop_while blank t) false
            /\ forallb (fun c => blank c || eqc (chr "!") c) pad = true).
  { intros t. destruct (consumed_while blank t) as (q & E & Hq).
    destruct (skip_negations_consumed (drop_while blank t) false) as (n & En & Hn).
    exists (q ++ n). split; [rewrite <- app_assoc, <- En; exact E|].
    rewrite forallb_app, Hn, andb_true_r, forallb_forall. intros x Hx.
    by rewrite (forallb_In _ _ _ Hq Hx). }
  assert (Hone : forall t, t = r1 -> exists where_,
            a ++ r1 = where_ ++ skip_negations (drop_while blank (drop_while blank t)) false
            /\ where_text where_).
  { intros t ->. destruct (Hpad (drop_while blank r1)) as (pad & En & Hn).
    exists (a ++ p ++ pad). split; [rewrite <- !app_assoc, <- En; by rewrite <- E1|].
    apply where_one; [done|]. rewrite forallb_app, Hn, andb_true_r, forallb_forall.
    intros x Hx. by rewrite (forallb_In _ _ _ Hp Hx). }
  unfold second_address in Hr.
  destruct (drop_while blank r1) as [|c r2] eqn:Ed; [injection Hr as <-; specialize (Hone r1 eq_refl); by rewrite Ed in Hone|].
  destruct (eqc_spec (chr ",") c) as [->|_]; [|injection Hr as <-; specialize (Hone r1 eq_refl); by rewrite Ed in Hone].
  unfold skip_blanks in Hr. destruct (consumed_while blank r2) as (q & E2 & Hq).
  apply address_consumed in Hr as (b & Eb & Hb). destruct (Hpad r) as (pad & En & Hn).
  exists (a ++ p ++ chr "," :: q ++ b ++ pad). split; [|by constructor].
  rewrite E1, E2, Eb. rewrite <- !app_assoc. cbn. rewrite <- !app_assoc. by rewrite <- En.
Qed.

Lemma command_arguments_sound c rest r :
  command_arguments c rest = Some r -> exists args, rest = args ++ r /\ safe_arguments c args.
Proof.
  unfold command_arguments. intros H. repeat case_if_in H; try done.
  - injection H as <-. exists []. split; [done|by constructor].
  - injection H as <-. unfold skip_digits, skip_blanks.
    destruct (consumed_while blank rest) as (p & E & Hp).
    destruct (consumed_while is_ascii_digit (drop_while blank rest)) as (n & En & Hn).
    exists (p ++ n). split; [by rewrite <- app_assoc, <- En|by apply args_number].
  - injection H as <-. edestruct consumed_while as (l & E & Hl). exists l. split; [exact E|by apply args_label].
  - injection H as <-. edestruct consumed_while as (l & E & Hl). exists l. split; [exact E|by apply args_text].
  - apply N.eqb_eq in Heqb3 as ->. unfold sed_substitution in H.
    destruct rest as [|d rest]; [done|]. destruct (usable_delimiter d) eqn:Ed; [|done].
    apply fmap_Some in H as (r2 & H & ->).
    apply bind_Some in H as (r1 & (pat & -> & Hp)%regex_consumed & (repl & -> & Hr)%literal_consumed); [|done].
    destruct (consumed_while substitution_flag r2) as (fl & E & Hf).
    exists (d :: pat ++ repl ++ fl). split; [|by apply args_substitute].
    rewrite E at 1. cbn. by rewrite <- !app_assoc.
  - apply N.eqb_eq in Heqb4 as ->. unfold transliteration in H.
    destruct rest as [|d rest]; [done|]. destruct (usable_delimiter d) eqn:Ed; [|done].
    apply bind_Some in H as (r1 & (a & -> & Ha)%literal_consumed & (b & -> & Hb)%literal_consumed).
    exists (d :: a ++ b). split; [cbn; by rewrite <- app_assoc|by apply args_transliterate].
Qed.

(** The addresses and negations in front of a command. *)
Lemma where_leaves rest r :
  address rest ≫= (fun a => second_address (skip_blanks a)) = Some r ->
  leaves 0 rest (skip_negations (skip_blanks r) false).
Proof.
  intros (a & Ha%address_leaves & Hr%second_address_leaves)%bind_Some.
  eapply (leaves_trans 0 0); [exact Ha|]. eapply (leaves_trans 0 0); [apply leaves_drop_while|].
  eapply (leaves_trans 0 0); [exact Hr|]. eapply (leaves_trans 0 0); [apply leaves_drop_while|].
  apply skip_negations_leaves.
Qed.

Lemma commands_sound fuel rest : commands fuel rest = true -> safe_script rest.
Proof.
  revert rest. induction fuel as [|fuel IH]; intros rest H; cbn [commands] in H; [done|].
  set (skip := fun c => is_whitespace c || eqc (chr ";") c) in H.
  rewrite <- (take_while_drop_while skip rest). apply script_skip; [apply take_while_all|].
  destruct (drop_while skip rest) as [|first r0]; [constructor|].
  destruct (eqc_spec (chr "#") first) as [->|_].
  - rewrite <- (take_while_drop_while (fun c => negb (eqc NEWLINE c)) (chr "#" :: r0)).
    apply script_comment; [done|apply take_while_all|by apply IH].
  - destruct (address (first :: r0) ≫= _) as [r|] eqn:Ea; [|done].
    apply where_consumed in Ea as (where_ & -> & Hwhere).
    destruct (skip_negations _ _) as [|c r1]; [done|].
    destruct (eqc_spec (chr "{") c) as [->|_]; [apply script_block; [done|by apply IH]|].
    destruct (command_arguments c r1) as [r2|] eqn:Ec; [|done]. bool_hyps.
    apply command_arguments_sound in Ec as (args & -> & Hargs).
    rewrite <- (take_while_drop_while blank r2).
    apply script_command; [done|done|apply take_while_all|done|by apply IH].
Qed.

Lemma command_arguments_leaves c rest r : command_arguments c rest = Some r -> leaves 0 rest r.
Proof. intros (args & -> & _)%command_arguments_sound. exists args. split; [done|lia]. Qed.

Lemma commands_fuel n m rest :
  (length rest < n)%nat -> (length rest < m)%nat -> commands n rest = commands m rest.
Proof.
  revert m rest. induction n as [|n IH]; intros m rest Hn Hm; [lia|].
  destruct m as [|m]; [lia|]. cbn [commands].
  set (skip := fun c => is_whitespace c || eqc (chr ";") c).
  pose proof (leaves_length _ _ _ (leaves_drop_while skip rest)) as Hl.
  destruct (drop_while skip rest) as [|first r0]; [done|]. case_if.
  - pose proof (leaves_drop_while (fun c => negb (eqc NEWLINE c)) r0) as Hd%leaves_length.
    cbn [drop_while]. replace (eqc NEWLINE first) with false; [cbn [negb length] in *; apply IH; lia|].
    apply N.eqb_eq in Heqb as ->. done.
  - destruct (address (first :: r0) ≫= _) as [r|] eqn:Ea; [|done].
    apply where_leaves, leaves_length in Ea.
    destruct (skip_negations _ _) as [|c r1]; [done|]. cbn [length] in *.
    case_if; [apply IH; lia|].
    destruct (command_arguments c r1) as [r2|] eqn:Ec; [|done].
    apply command_arguments_leaves, leaves_length in Ec.
    pose proof (leaves_length _ _ _ (leaves_drop_while blank r2)). unfold skip_blanks.
    f_equal. apply IH; lia.
Qed.

(** A leading [^] in a bracket expression is skipped without the comparison
    with the delimiter, so with the delimiter [^] a bracket expression that
    holds it is accepted. *)
Lemma bracket_caret_delimiter :
  script_is_safe (str "s^[^]a]^b^") = true /\ script_is_safe (str "s,[,]a],b,") = false.
Proof. by split; vm_compute. Qed.

(** * Properties *)

(** An accepted [sed] script belongs to the safe grammar: every command
    in it prints, deletes, moves between the buffers, branches, substitutes
    without the [w] and [e] flags, or transliterates; none can name a file to
    read or write or a program to run. *)
Theorem script_safe_sound (script : text) :
  script_is_safe script = true -> safe_script script.
Proof. apply commands_sound. Qed.

Lemma script_safe_sound_witness :
  safe_script (str "/a[[:x:]]b/,$ !s|u\|v|w|gp; y/ab/cd/ # done").
Proof. apply (script_safe_sound (str "/a[[:x:]]b/,$ !s|u\|v|w|gp; y/ab/cd/ # done")). vm_compute. reflexivity. Defined.

(** The [sed] scanner terminates with its answer.  Any fuel above the
    length of the script gives the answer [script_is_safe] gives, so running
    out of fuel never decides it. *)
Theorem script_scan_terminates (script : text) (fuel : nat) :
  (length script < fuel)%nat -> commands fuel script = script_is_safe script.
Proof. intros H. apply commands_fuel; lia. Qed.

Lemma script_scan_terminates_witness :
  commands 1000 (str "s/a/b/w out") = script_is_safe (str "s/a/b/w out").
Proof. apply (script_scan_terminates (str "s/a/b/w out") 1000). vm_compute. lia. Defined.
