(* ===== verification/Git.v ===== *)
(** Read-only [git] invocations ([shell/git.rs]). *)

From S2P Require Export Lexer.

Definition INSPECT : list text :=
  [str "status"; str "diff"; str "log"; str "show"; str "rev-parse"; str "ls-files";
   str "blame"; str "describe"; str "ls-tree"; str "cat-file"; str "rev-list";
   str "merge-base"; str "show-ref"; str "shortlog"; str "grep"].
Definition FORBIDDEN : list text :=
  [str "--output"; str "--ext-diff"; str "--open-files-in-pager"; str "--textconv"; str "--filters"].
Definition BRANCH_FLAGS : list text :=
  [str "--all"; str "--remotes"; str "--list"; str "--verbose"; str "--show-current";
   str "--no-color"; str "--color"; str "--column"; str "--no-column"; str "--ignore-case";
   str "--omit-empty"; str "--no-abbrev"; str "--quiet"].
Definition TAG_FLAGS : list text :=
  [str "--list"; str "--column"; str "--no-column"; str "--ignore-case"; str "--color"].
Definition LIST_FILTERS : list text :=
  [str "--contains"; str "--no-contains"; str "--merged"; str "--no-merged"; str "--points-at"].
Definition CONFIG_READS : list text :=
  [str "--get"; str "--get-all"; str "--get-regexp"; str "--get-urlmatch"; str "--get-color";
   str "--get-colorbool"; str "--list"; str "-l"].
Definition CONFIG_WRITES : list text :=
  [str "--add"; str "--unset"; str "--unset-all"; str "--replace-all"; str "--rename-section";
   str "--remove-section"; str "--edit"; str "-e"; str "set"; str "unset";
   str "rename-section"; str "remove-section"; str "edit"].
Definition CONFIG_SCOPES : list text :=
  [str "--global"; str "--local"; str "--system"; str "--worktree"; str "--show-origin";
   str "--show-scope"].

Definition is_option (t : text) : bool := starts_with [chr "-"] t.

Definition forbidden (t : text) : bool :=
  existsb (fun flag =>
             teqb t flag
             || match strip_prefix flag t with
                | Some v => starts_with [chr "="] v
                | None => false
                end) FORBIDDEN.

(** A short-option cluster of [git branch] or [git tag]. *)
Definition known_cluster (short cluster : text) : bool :=
  (negb (is_empty cluster)
   && forallb (fun c => contains_char c short || (eqc (chr "n") c && teqb short (str "li"))) cluster)
  || (teqb short (str "li") && starts_with [chr "n"] cluster
      && forallb is_ascii_digit (tail cluster)).

(** The loop of [lists_only]; [skip] is set when the next word is a value. *)
Fixpoint lists_only_loop (args : list text) (flags : list text) (short : text)
    (skip listing : bool) (names_ : nat) : bool :=
  match args with
  | [] => (names_ =? 0)%nat || listing
  | t :: rest =>
      if skip then lists_only_loop rest flags short false listing names_
      else
        let '(flag, has_value) :=
          match split_once [chr "="] t with
          | Some (flag, _) => (flag, true)
          | None => (t, false)
          end in
        if mem flag LIST_FILTERS then
          let takes := negb has_value
                       && match rest with next :: _ => negb (is_option next) | [] => false end in
          lists_only_loop rest flags short takes true names_
        else if mem flag [str "--sort"; str "--format"] then
          lists_only_loop rest flags short (negb has_value) listing names_
        else if mem flag flags || starts_with (str "--abbrev") flag then
          lists_only_loop rest flags short false (listing || teqb flag (str "--list")) names_
        else
          match strip_prefix [chr "-"] t with
          | Some cluster =>
              known_cluster short cluster
              && lists_only_loop rest flags short false
                   (listing || contains_char (chr "l") cluster) names_
          | None => lists_only_loop rest flags short false listing (S names_)
          end
  end.

Definition lists_only (args : list text) (flags : list text) (short : text) : bool :=
  lists_only_loop args flags short false false 0.

Definition config_reads_only (args : list text) : bool :=
  if existsb (fun t => mem t CONFIG_WRITES) args then false
  else if existsb (fun t => mem t CONFIG_READS) args
          || match args with t :: _ => mem t [str "get"; str "list"] | [] => false end
  then true
  else
    (length (List.filter (fun t => negb (is_option t)) args) =? 1)%nat
    && forallb (fun t => negb (is_option t) || mem t CONFIG_SCOPES) args.

(** The words from the subcommand on. *)
Fixpoint skip_global (rest : list Word) : list Word :=
  match rest with
  | [] => []
  | flag :: tail_ =>
      if mem (text_ flag) [str "--no-pager"; str "-P"; str "--no-optional-locks";
                           str "--literal-pathspecs"]
      then skip_global tail_
      else match tail_ with
           | _ :: after => if teqb (text_ flag) (str "-C") then skip_global after else rest
           | [] => rest
           end
  end.

Definition subcommand_reads_only (name : text) (texts : list text) : bool :=
  if mem name [str "--version"; str "version"] then true
  else if teqb name (str "grep") && existsb (starts_with (str "-O")) texts then false
  else if mem name INSPECT then negb (existsb forbidden texts)
  else if teqb name (str "branch") then lists_only texts BRANCH_FLAGS (str "arlviq")
  else if teqb name (str "tag") then lists_only texts TAG_FLAGS (str "li")
  else if teqb name (str "remote") then
    match texts with
    | [] => true
    | [t] => mem t [str "-v"; str "--verbose"] || teqb t (str "get-url")
    | t :: _ => teqb t (str "get-url")
    end
  else if teqb name (str "stash") then
    match texts with t :: _ => mem t [str "list"; str "show"] | [] => false end
  else if teqb name (str "worktree") then
    match texts with t :: _ => teqb t (str "list") | [] => false end
  else if teqb name (str "config") then config_reads_only texts
  else false.

Definition is_read_only (args : list Word) : bool :=
  if existsb splits args then false
  else match skip_global args with
       | [] => false
       | subcommand :: args' => subcommand_reads_only (text_ subcommand) (map text_ args')
       end.
