(* ===== verification/ReadOnly.v ===== *)
(** The files a command names and the commands that change nothing ([shell/operands.rs],
    [shell/read_only.rs]), and what a read-only verdict guarantees. *)

From S2P Require Export Sed Wrappers Git LexerFacts WrappersFacts.

Definition NO_FILES : list text :=
  [str "echo"; str "printf"; str "pwd"; str "true"; str "false"; str "seq"; str "expr"; str "date";
   str "id"; str "whoami"; str "hostname"; str "uname"; str "env"; str "printenv"; str "getconf";
   str "basename"; str "dirname"; str "type"; str "which"; str "test"; str "["; str "nproc";
   str "groups"; str "uptime"; str "numfmt"].
Definition PATTERN_FIRST : list text := [str "grep"; str "egrep"; str "fgrep"; str "rg"; str "jq"].
Definition PATTERN_FLAGS : list text :=
  [str "-e"; str "--regexp"; str "-f"; str "--file"; str "--from-file"; str "--files"].
Definition WRITERS : list text :=
  [str "rm"; str "rmdir"; str "touch"; str "mkdir"; str "ln"; str "truncate"; str "chmod";
   str "chown"; str "chgrp"; str "tee"; str "shred"; str "unlink"].
Definition COPIERS : list text := [str "cp"; str "mv"; str "install"; str "rsync"].

Record Operands := mkOperands { reads : list Word; writes : list Word }.

(** [-x..]: an option, as [text.starts_with('-') && text.len() > 1]. *)
Definition dashed (t : text) : bool := starts_with [chr "-"] t && (1 <? blen t)%N.

(** Non-option arguments plus the values of [--flag=value] options. *)
Fixpoint positionals_loop (args : list Word) (options : bool) : list Word :=
  match args with
  | [] => []
  | w :: rest =>
      let t := text_ w in
      if options && teqb t (str "--") then positionals_loop rest false
      else if options && dashed t then
        (if starts_with (str "--") t then
           match split_once [chr "="] t with
           | Some (_, value) => if is_empty value then [] else [set_tilde false (set_text value w)]
           | None => []
           end
         else []) ++ positionals_loop rest options
      else (if contains_str (str "://") t then [] else [w]) ++ positionals_loop rest options
  end.
Definition positionals (args : list Word) : list Word := positionals_loop args true.

(** [cd] with no directory goes home; [cd -] goes somewhere unknown. *)
Definition cd_flag (w : Word) : bool := mem (text_ w) [str "-L"; str "-P"; str "-e"; str "-@"].

Definition cd_target (args : list Word) : Word :=
  match List.find (fun w => negb (cd_flag w)) args with
  | None => set_tilde true (set_text (str "~") default_word)
  | Some w =>
      if teqb (text_ w) (str "-") then set_param true (set_text (str "-") default_word) else w
  end.

Definition starts_find_expression (t : text) : bool :=
  dashed t || mem t [str "("; str ")"; str "!"; str ","].

Definition dd_operands (args : list Word) (key : text) : list Word :=
  omap (fun w => (fun value => set_tilde false (set_text value w)) <$> strip_prefix key (text_ w)) args.

Definition sed_operands (args : list Word) : Operands :=
  match parse_call args with
  | Some call => if in_place call then mkOperands [] (files call) else mkOperands (files call) []
  | None => mkOperands (positionals args) []
  end.

Definition pattern_operands (args : list Word) : Operands :=
  let fs := positionals args in
  let explicit := existsb (fun w => existsb (fun flag => starts_with flag (text_ w)) PATTERN_FLAGS) args in
  mkOperands (if negb explicit && negb (is_empty fs) then tail fs else fs) [].

(** Operands of one command; the words start at the program name. *)
Definition operands (ws : list Word) : Operands :=
  match ws with
  | [] => mkOperands [] []
  | w :: args =>
      let name := text_ w in
      if mem name NO_FILES then mkOperands [] []
      else if teqb name (str "cd") then mkOperands [cd_target args] []
      else if teqb name (str "find") then
        mkOperands (take_while (fun a => negb (starts_find_expression (text_ a))) args) []
      else if teqb name (str "sed") then sed_operands args
      else if teqb name (str "dd") then
        mkOperands (dd_operands args (str "if=")) (dd_operands args (str "of="))
      else if mem name PATTERN_FIRST then pattern_operands args
      else if mem name COPIERS then
        let fs := positionals args in mkOperands fs fs
      else if mem name WRITERS then mkOperands [] (positionals args)
      else mkOperands (positionals args) []
  end.

Definition SAFE : list text :=
  [str "ls"; str "cat"; str "head"; str "tail"; str "grep"; str "egrep"; str "fgrep"; str "wc";
   str "which"; str "type"; str "stat"; str "du"; str "df"; str "pwd"; str "echo"; str "cd";
   str "diff"; str "cmp"; str "comm"; str "printenv"; str "id"; str "whoami"; str "uname";
   str "seq"; str "expr"; str "test"; str "["; str "fmt"; str "pr"; str "numfmt"; str "tsort";
   str "getconf"; str "basename"; str "dirname"; str "realpath"; str "readlink"; str "md5sum";
   str "shasum"; str "sha1sum"; str "sha256sum"; str "sha512sum"; str "b2sum"; str "cksum";
   str "nl"; str "jq"; str "true"; str "false"; str "cut"; str "tr"; str "paste"; str "rev";
   str "tac"; str "column"; str "strings"; str "od"; str "hexdump"; str "nproc"; str "groups";
   str "uptime"].
Definition FLAG_SENSITIVE : list text :=
  [str "find"; str "sort"; str "uniq"; str "sed"; str "git"; str "env"; str "date";
   str "hostname"; str "tree"; str "file"; str "rg"; str "bat"; str "printf"].
Definition FIND_ACTIONS : list text :=
  [str "-delete"; str "-exec"; str "-execdir"; str "-ok"; str "-okdir"; str "-fprint";
   str "-fprint0"; str "-fprintf"; str "-fls"].
Definition VERSION_PROBES : list text :=
  [str "cargo"; str "rustc"; str "rustup"; str "node"; str "npm"; str "pnpm"; str "yarn";
   str "bun"; str "deno"; str "python"; str "python3"; str "go"; str "uv"; str "pip"; str "pip3";
   str "ruby"; str "java"; str "gcc"; str "clang"; str "make"; str "cmake"].
Definition DASH_V_PROBES : list text := [str "node"; str "npm"; str "pnpm"; str "yarn"; str "bun"].
Definition HOSTNAME_FLAGS : list text :=
  [str "-f"; str "--fqdn"; str "--long"; str "-s"; str "--short"; str "-i"; str "--ip-address";
   str "-I"; str "--all-ip-addresses"; str "-d"; str "--domain"; str "-A"; str "--all-fqdns";
   str "-a"; str "--alias"].
Definition BAT_WRITES : list text :=
  [str "--pager"; str "--paging"; str "--config-file"; str "--generate-config-file"].

(** The letters of a short-option cluster. *)
Definition short_flags (t : text) : option text :=
  match strip_prefix [chr "-"] t with
  | Some flags => if negb (is_empty flags) && negb (starts_with [chr "-"] flags) then Some flags else None
  | None => None
  end.

Definition short_has (c : char) (t : text) : bool :=
  match short_flags t with Some f => contains_char c f | None => false end.

(** Non-option operands, skipping the values of [value_flags]. *)
Fixpoint operand_count_loop (args : list Word) (value_flags : list text) (skip options : bool)
    (count : nat) : nat :=
  match args with
  | [] => count
  | arg :: rest =>
      if skip then operand_count_loop rest value_flags false options count
      else
        let t := text_ arg in
        if options && teqb t (str "--") then operand_count_loop rest value_flags false false count
        else if options && dashed t then
          operand_count_loop rest value_flags (mem t value_flags) options count
        else operand_count_loop rest value_flags false options (S count)
  end.
Definition operand_count (args : list Word) (value_flags : list text) : nat :=
  operand_count_loop args value_flags false true 0.

(** [env] with only assignments and printing flags. *)
Fixpoint env_only_prints (args : list Word) : bool :=
  match args with
  | [] => true
  | arg :: rest =>
      let t := text_ arg in
      if mem t [str "-0"; str "--null"; str "-i"; str "--ignore-environment"; str "-"] then
        env_only_prints rest
      else if mem t [str "-u"; str "--unset"] then
        match rest with _ :: rest' => env_only_prints rest' | [] => false end
      else if starts_with (str "--unset=") t || (starts_with (str "-u") t && (2 <? blen t)%N) then
        env_only_prints rest
      else if negb (starts_with [chr "-"] t) && contains_char (chr "=") t then env_only_prints rest
      else false
  end.

(** One short-option cluster of [date]: [None] for [-s]; otherwise whether
    [-j] was seen and whether the next word is a value. *)
Fixpoint date_flags (flags : list char) (no_set : bool) : option (bool * bool) :=
  match flags with
  | [] => Some (no_set, false)
  | flag :: rest =>
      if eqc (chr "s") flag then None
      else if eqc (chr "j") flag then date_flags rest true
      else if one_of "drfvz" flag then Some (no_set, is_empty rest)
      else if eqc (chr "I") flag then Some (no_set, false)
      else date_flags rest no_set
  end.

Fixpoint date_loop (args : list Word) (skip no_set : bool) (operands_ : nat) : bool :=
  match args with
  | [] => (operands_ =? 0)%nat || no_set
  | arg :: rest =>
      if skip then date_loop rest false no_set operands_
      else
        let t := text_ arg in
        if starts_with [chr "+"] t then date_loop rest false no_set operands_
        else if teqb t (str "--set") || starts_with (str "--set=") t then false
        else if mem t [str "--date"; str "--reference"; str "--file"] then
          date_loop rest true no_set operands_
        else if starts_with (str "--") t then date_loop rest false no_set operands_
        else
          match short_flags t with
          | None => date_loop rest false no_set (S operands_)
          | Some flags =>
              match date_flags flags no_set with
              | None => false
              | Some (no_set', takes) => date_loop rest takes no_set' operands_
              end
          end
  end.
Definition date_only_prints (args : list Word) : bool := date_loop args false false 0.

Definition version_probe (name : text) (args : list Word) : bool :=
  negb (is_empty args)
  && forallb (fun arg => mem (text_ arg) [str "--version"; str "-V"]
                         || (teqb (text_ arg) (str "-v") && mem name DASH_V_PROBES)) args.

Definition program_is_read_only (name : text) (args : list Word) : bool :=
  if mem name FLAG_SENSITIVE && existsb splits args then false
  else
    let has pred := existsb (fun arg => pred (text_ arg)) args in
    if teqb name (str "find") then negb (has (fun a => mem a FIND_ACTIONS))
    else if teqb name (str "sort") then
      negb (has (fun a => short_has (chr "o") a || starts_with (str "--output") a
                          || starts_with (str "--compress-program") a))
    else if teqb name (str "uniq") then
      (operand_count args [str "-f"; str "-s"; str "-w"] <? 2)%nat
    else if teqb name (str "sed") then
      match parse_call args with Some call => negb (in_place call) | None => false end
    else if teqb name (str "git") then Git.is_read_only args
    else if teqb name (str "env") then env_only_prints args
    else if teqb name (str "date") then date_only_prints args
    else if teqb name (str "hostname") then forallb (fun arg => mem (text_ arg) HOSTNAME_FLAGS) args
    else if teqb name (str "tree") then negb (has (short_has (chr "o")))
    else if teqb name (str "file") then
      negb (has (fun a => short_has (chr "C") a || teqb a (str "--compile")))
    else if teqb name (str "rg") then
      negb (has (fun a => teqb a (str "--pre") || starts_with (str "--pre=") a
                          || starts_with (str "--hostname-bin") a))
    else if teqb name (str "bat") then
      match args with first :: _ => negb (teqb (text_ first) (str "cache")) | [] => true end
      && negb (has (fun a => existsb (fun flag => starts_with flag a) BAT_WRITES))
    else if teqb name (str "printf") then
      match args with first :: _ => negb (starts_with (str "-v") (text_ first)) | [] => true end
    else if teqb name (str "cargo")
            && match args with [arg] => teqb (text_ arg) (str "--list") | _ => false end then true
    else if mem name VERSION_PROBES then version_probe name args
    else mem name SAFE.

Definition segment_is_read_only (segment : Segment) : bool :=
  if existsb writes_file (redirects segment) then false
  else match command segment with
       | [] => true
       | name :: args =>
           if assignment name || expands name then false
           else program_is_read_only (text_ name) args
       end.

Definition command_is_read_only (p : Parsed) : bool :=
  parsed_ok p && negb (parsed_dynamic p) && negb (is_empty (parsed_segments p))
  && forallb segment_is_read_only (parsed_segments p).

Definition is_read_only (command : text) : bool := command_is_read_only (parse command).

(** [shell/analysis.rs] *)
Record ShellAnalysis := mkShellAnalysis {
  segments : list (list text);
  parse_ok : bool;
  dynamic_ : bool;
  writes_ : list text;
  read_only : bool
}.

Definition analyze (command : text) : ShellAnalysis :=
  let parsed := parse command in
  mkShellAnalysis
    (List.filter (fun a => negb (is_empty a)) (map argv (parsed_segments parsed)))
    (parsed_ok parsed) (parsed_dynamic parsed)
    (map text_ (flat_map write_targets (all_segments parsed)))
    (command_is_read_only parsed).

Lemma parse_static_nested c : parsed_dynamic (parse c) = false -> parsed_nested (parse c) = [].
Proof.
  unfold parse. cbn [parsed_dynamic parsed_nested]. intros [H _]%orb_false_elim.
  by apply lex_static_nested.
Qed.

(** The programs a read-only command may name. *)
Definition allowlist : list text := SAFE ++ FLAG_SENSITIVE ++ VERSION_PROBES.

Lemma mem_app t l k : mem t (l ++ k) = mem t l || mem t k.
Proof. apply existsb_app. Qed.

(** Turns a test against a literal program name into membership of a list. *)
Lemma teqb_mem n l name : mem n l = true -> teqb name n = true -> mem name l = true.
Proof. by intros H ->%teqb_eq. Qed.

Lemma program_allowlisted name args :
  program_is_read_only name args = true -> mem name allowlist = true.
Proof.
  unfold allowlist. rewrite !mem_app. unfold program_is_read_only.
  case_if; [done|].
  assert (Hn : forall n, mem n FLAG_SENSITIVE = true -> teqb name n = true ->
            mem name SAFE || (mem name FLAG_SENSITIVE || mem name VERSION_PROBES) = true).
  { intros n Hn Ht. rewrite (teqb_mem n FLAG_SENSITIVE name Hn Ht). by rewrite orb_true_r. }
  do 13 (case_if; [intros _; by eapply Hn; [|eassumption]|]).
  destruct (teqb name (str "cargo")) eqn:Ec.
  - intros _. rewrite (teqb_mem (str "cargo") VERSION_PROBES name) by done. by rewrite !orb_true_r.
  - cbn [andb]. destruct (mem name VERSION_PROBES); [by rewrite !orb_true_r|by intros ->].
Qed.

(** The command name of a read-only segment is literal and allowlisted. *)
Definition literal_program (s : Segment) : Prop :=
  match command s with
  | [] => True
  | name :: args => assignment name = false /\ expands name = false
                    /\ mem (text_ name) allowlist = true
                    /\ (mem (text_ name) FLAG_SENSITIVE = true -> existsb splits args = false)
  end.

Lemma segment_read_only_sound s :
  segment_is_read_only s = true -> write_targets s = [] /\ literal_program s.
Proof.
  unfold segment_is_read_only, literal_program, write_targets.
  destruct (existsb writes_file (redirects s)) eqn:E; [done|]. intros H. split.
  - induction (redirects s) as [|r rs IH]; [done|]. cbn in E |- *.
    apply orb_false_elim in E as [-> E]. by apply IH.
  - destruct (command s) as [|name args]; [done|]. case_if_in H; [done|]. bool_hyps.
    split_and!; [done|done|by eapply program_allowlisted|].
    intros Hs. unfold program_is_read_only in H. rewrite Hs in H.
    by destruct (existsb splits args).
Qed.

Lemma command_read_only_sound p :
  command_is_read_only p = true ->
  parsed_ok p = true /\ parsed_dynamic p = false /\ parsed_segments p <> []
  /\ Forall (fun s => write_targets s = [] /\ literal_program s) (parsed_segments p).
Proof.
  unfold command_is_read_only. intros H. bool_hyps. split_and!; [done|done|by intros E; rewrite E in *|].
  apply List.Forall_forall. intros s Hs. rewrite forallb_forall in H0.
  by apply segment_read_only_sound, H0.
Qed.

(** * Properties *)

(** C40: a command line judged read-only reads only.  It parsed completely,
    computes no part of itself at run time, hides no command in a
    substitution, opens no file for writing, and every simple command names,
    literally and without an assignment in front, a program of the fixed
    allowlist; a program with dangerous flags has no argument that could
    expand into one. *)
Theorem read_only_sound (c : text) :
  is_read_only c = true ->
  parse_ok (analyze c) = true /\ dynamic_ (analyze c) = false /\ writes_ (analyze c) = []
  /\ parsed_nested (parse c) = []
  /\ parsed_segments (parse c) <> []
  /\ Forall literal_program (parsed_segments (parse c)).
Proof.
  intros H. destruct (command_read_only_sound _ H) as (Hok & Hd & Hne & Hs).
  pose proof (parse_static_nested c Hd) as Hn.
  split_and!; [done|done| |done|done|].
  - unfold analyze, all_segments. cbn [writes_]. rewrite Hn, app_nil_r.
    clear Hne. induction Hs as [|s ss [Hw _] _ IH]; [done|]. cbn [flat_map]. rewrite Hw. exact IH.
  - eapply Forall_impl; [exact Hs|]. by intros s [_ ?].
Qed.

Lemma read_only_sound_witness :
  is_read_only (str "git log -3 | head -n 1; ls 'a b' 2>/dev/null") = true
  /\ writes_ (analyze (str "git log -3 | head -n 1; ls 'a b' 2>/dev/null")) = [].
Proof.
  split; [vm_compute; reflexivity|].
  apply (read_only_sound (str "git log -3 | head -n 1; ls 'a b' 2>/dev/null")).
  vm_compute. reflexivity.
Defined.
