(* ===== verification/FsCommand.v ===== *)
(** Where words point and the filesystem commands of accept-edits mode ([shell/location.rs], [shell/fs_command.rs]), and what they may touch. *)

From S2P Require Export Paths Lexer ReadOnly.

Inductive Location :=
| Relative (path : path) (escapes : bool)
| Absolute (path : path)
| Unknown.

(** A glob component starting with [.] may match [..] in older shells. *)
Definition glob_may_climb (t : text) : bool :=
  existsb (fun part => starts_with [chr "."] part && existsb (one_of "*?[") part)
    (split_on (chr "/") t).

(** What follows the home directory; [None] for [~user] or when anything else
    expands. *)
Definition home_suffix (w : Word) : option text :=
  let t := text_ w in
  let rest :=
    if tilde w then strip_prefix [chr "~"] t
    else match strip_prefix (str "${HOME}") t with
         | Some rest => Some rest
         | None =>
             match strip_prefix (str "$HOME") t with
             | Some rest =>
                 match rest with
                 | c :: _ => if eqc (chr "_") c || is_ascii_alphanumeric c then None else Some rest
                 | [] => Some rest
                 end
             | None => None
             end
         end in
  match rest with
  | None => None
  | Some rest =>
      if contains_char (chr "$") rest then None
      else if is_empty rest then Some []
      else trim_start_by (eqc (chr "/")) <$> strip_prefix [chr "/"] rest
  end.

(** Any expansion but the home directory leaves the location unknown. *)
Definition locate (w : Word) (home : option path) : Location :=
  let t := text_ w in
  if brace w || is_empty t || (glob w && glob_may_climb t) then Unknown
  else if tilde w || param w then
    match home_suffix w, home with
    | Some rest, Some home => Absolute (normalize (path_join home (components rest)))
    | _, _ => Unknown
    end
  else
    let p := components t in
    if is_absolute p then Absolute (normalize p) else Relative p (escapes_start p).

Definition MUTATORS : list text :=
  [str "mkdir"; str "touch"; str "rm"; str "rmdir"; str "mv"; str "cp"].

(** The operand's path when it provably stays inside [root]. *)
Definition contained (w : Word) (cwd root : path) : option path :=
  match (match locate w None with
         | Relative p false => Some (normalize (path_join cwd p))
         | Absolute p => Some p
         | _ => None
         end) with
  | Some p => if path_starts_with p root then Some p else None
  | None => None
  end.

Definition writable (w : Word) (cwd root : path) : bool :=
  match contained w cwd root with Some p => negb (is_protected p [root]) | None => false end.

Definition reads_inside (ws : list Word) (cwd root : path) : bool :=
  forallb (fun w => match contained w cwd root with Some _ => true | None => false end)
    (reads (operands ws)).

(** [cd]: the new working directory, or [None] when it is refused. *)
Definition change_directory (cwd : path) (args : list Word) (root : path) : option path :=
  match List.filter (fun w => negb (cd_flag w)) args with
  | [target_] => if teqb (text_ target_) (str "-") then None else contained target_ cwd root
  | _ => None
  end.

(** The words a mutation names; [None] when one expands at run time. *)
Fixpoint mutation_targets (args : list Word) (options : bool) : option (list Word) :=
  match args with
  | [] => Some []
  | w :: rest =>
      if expands w then None
      else
        let t := text_ w in
        if options && teqb t (str "--") then mutation_targets rest false
        else if options && dashed t then
          match split_once [chr "="] t with
          | Some (_, value) =>
              if contains_char (chr "/") value then
                cons (set_text value w) <$> mutation_targets rest options
              else mutation_targets rest options
          | None => mutation_targets rest options
          end
        else cons w <$> mutation_targets rest options
  end.

Definition mutation_contained (name : text) (args : list Word) (cwd root : path) : bool :=
  match mutation_targets args true with
  | None => false
  | Some targets =>
      let removes_root := mem name [str "rm"; str "rmdir"; str "mv"] in
      forallb (fun target_ =>
                 match contained target_ cwd root with
                 | Some p => negb (is_protected p [root] || (removes_root && path_eqb p root))
                 | None => false
                 end) targets
  end.

(** One segment, run in [cwd]: the directory it leaves, or [None] when the
    segment does not qualify. *)
Definition fs_segment (root cwd : path) (segment : Segment) : option path :=
  if existsb writes_file (redirects segment) then None
  else match command segment with
       | [] => Some cwd
       | name :: args =>
           if assignment name || expands name then None
           else
             let keep (b : bool) := if b then Some cwd else None in
             if teqb (text_ name) (str "cd") then change_directory cwd args root
             else if teqb (text_ name) (str "sed") then
               match parse_call args with
               | Some call =>
                   if in_place call then keep (forallb (fun f => writable f cwd root) (files call))
                   else keep (reads_inside (name :: args) cwd root)
               | None => None
               end
             else if mem (text_ name) MUTATORS then
               keep (mutation_contained (text_ name) args cwd root)
             else keep (segment_is_read_only segment && reads_inside (name :: args) cwd root)
       end.

(** [segments.iter().all(..)] with the directory the closure captures. *)
Fixpoint fs_segments (root cwd : path) (ss : list Segment) : bool :=
  match ss with
  | [] => true
  | s :: ss' =>
      match fs_segment root cwd s with
      | Some cwd' => fs_segments root cwd' ss'
      | None => false
      end
  end.

Definition is_common_fs_command (command : text) (project_root : path) : bool :=
  let parsed := parse command in
  if negb (parsed_ok parsed) || parsed_dynamic parsed || is_empty (parsed_segments parsed) then false
  else let root := normalize project_root in fs_segments root root (parsed_segments parsed).

(** * The contract *)

Definition inside (root q : path) : Prop := path_starts_with q root = true.

(** Where a literal operand points when the shell is in [cwd]. *)
Definition operand_path (cwd : path) (w : Word) : path := resolve cwd (components (text_ w)).

Definition safe_target (root cwd : path) (w : Word) : Prop :=
  inside root (operand_path cwd w) /\ is_protected (operand_path cwd w) [root] = false.

(** The word is an operand: it has no leading dash, or follows [--]. *)
Definition operand_of (args : list Word) (w : Word) : Prop :=
  exists pre post, args = pre ++ w :: post
    /\ ((dashed (text_ w) = false /\ text_ w <> str "--") \/ In (str "--") (map text_ pre)).

(** What one simple command may do when run in [cwd], and where it leaves the
    shell. *)
Inductive fs_effect (root cwd : path) (s : Segment) : path -> Prop :=
| effect_none : command s = [] -> fs_effect root cwd s cwd
| effect_cd name args w :
    command s = name :: args -> text_ name = str "cd" -> In w args ->
    inside root (operand_path cwd w) -> fs_effect root cwd s (operand_path cwd w)
| effect_sed name args call :
    command s = name :: args -> text_ name = str "sed" -> parse_call args = Some call ->
    in_place call = true -> Forall (safe_target root cwd) (files call) ->
    fs_effect root cwd s cwd
| effect_mutate name args :
    command s = name :: args -> mem (text_ name) MUTATORS = true ->
    Forall (fun w => expands w = false) args ->
    (forall w, operand_of args w ->
       safe_target root cwd w
       /\ (In (text_ name) [str "rm"; str "rmdir"; str "mv"] -> operand_path cwd w <> root)) ->
    fs_effect root cwd s cwd
| effect_read :
    segment_is_read_only s = true ->
    Forall (fun w => inside root (operand_path cwd w)) (reads (operands (command s))) ->
    fs_effect root cwd s cwd.

(** A line runs its commands in order; the shell never leaves [root] and no
    command opens a file for writing with a redirect. *)
Inductive fs_run (root : path) : path -> list Segment -> Prop :=
| run_nil cwd : fs_run root cwd []
| run_cons cwd s cwd' ss :
    write_targets s = [] -> fs_effect root cwd s cwd' -> inside root cwd' ->
    fs_run root cwd' ss -> fs_run root cwd (s :: ss).

(** * The implementation meets it *)

Lemma contained_sound w cwd root q :
  contained w cwd root = Some q -> q = operand_path cwd w /\ inside root q.
Proof.
  unfold contained, operand_path, inside, locate.
  destruct (_ || _ || _); [done|]. destruct (tilde w || param w); [by destruct (home_suffix w)|].
  unfold resolve. destruct (is_absolute (components (text_ w))).
  - destruct (path_starts_with _ root) eqn:E; [|done]. intros [= <-]. done.
  - destruct (escapes_start _); [done|].
    destruct (path_starts_with _ root) eqn:E; [|done]. by intros [= <-].
Qed.

Lemma contained_canonical w cwd root q :
  canonical cwd -> is_absolute cwd = true -> contained w cwd root = Some q ->
  canonical q /\ is_absolute q = true.
Proof.
  intros Hc Ha [-> _]%contained_sound.
  unfold operand_path, resolve. destruct (is_absolute (components (text_ w))) eqn:E.
  - split; [apply normalize_canonical|apply is_absolute_normalize]; auto using components_wf.
  - rewrite normalize_join, (canonical_fixpoint cwd) by done. split.
    + apply foldl_canonical; [done|]. apply relative_tail_wf; [apply components_wf|done].
    + destruct Hc as [ns Hns|k ns Hns]; [|by destruct k, ns].
      destruct (foldl_absolute ns (relative_tail (components (text_ w)))) as (ms & ->); [|done].
      apply relative_tail_wf; [apply components_wf|done].
Qed.

Lemma writable_sound w cwd root : writable w cwd root = true -> safe_target root cwd w.
Proof.
  unfold writable. destruct (contained w cwd root) as [q|] eqn:E; [|done].
  apply contained_sound in E as [-> Hi]. intros H. bool_hyps. by split.
Qed.

Lemma reads_inside_sound ws cwd root :
  reads_inside ws cwd root = true ->
  Forall (fun w => inside root (operand_path cwd w)) (reads (operands ws)).
Proof.
  unfold reads_inside. rewrite forallb_forall. intros H. apply List.Forall_forall.
  intros w Hw. specialize (H w Hw). destruct (contained w cwd root) eqn:E; [|done].
  by apply contained_sound in E as [-> ?].
Qed.

Lemma operand_of_cons a args w :
  operand_of (a :: args) w ->
  (w = a /\ dashed (text_ w) = false /\ text_ w <> str "--")
  \/ (text_ a = str "--" /\ In w args) \/ operand_of args w.
Proof.
  intros (pre & post & E & H). destruct pre as [|x pre]; injection E as -> ->.
  - left. by destruct H as [[? ?]|[]].
  - right. destruct H as [H|[H|H]].
    + right. exists pre, post. auto.
    + left. split; [done|]. apply in_app_iff. right. by left.
    + right. exists pre, post. auto.
Qed.

(** Every operand is among the targets a mutation is checked on. *)
Lemma mutation_targets_operands args options ts :
  mutation_targets args options = Some ts ->
  Forall (fun w => expands w = false) args
  /\ forall w, (if options then operand_of args w else In w args) -> In w ts.
Proof.
  revert options ts. induction args as [|a args IH]; intros options ts; cbn [mutation_targets].
  { intros [= <-]. split; [constructor|]. destruct options; [|done].
    intros w (pre & post & E & _). by destruct pre. }
  destruct (expands a) eqn:Ea; [done|].
  assert (Hcons : forall b (o : option (list Word)), cons b <$> o = Some ts ->
            exists ts', o = Some ts' /\ ts = b :: ts').
  { intros b [ts'|]; [intros [= <-]; eauto|done]. }
  destruct (options && teqb (text_ a) (str "--")) eqn:Edd.
  { apply andb_prop in Edd as [-> Edd%teqb_eq]. intros [Hf Hin]%IH.
    split; [by constructor|]. intros w [(-> & _ & ?)|[(_ & H)|H]]%operand_of_cons; [done|auto|].
    apply Hin. destruct H as (pre & post & -> & _). apply in_app_iff. right. by left. }
  destruct (options && dashed (text_ a)) eqn:Eda.
  - apply andb_prop in Eda as [-> Eda]. cbn [andb] in Edd. apply teqb_neq in Edd.
    assert (Hrec : forall ts', mutation_targets args true = Some ts' ->
              Forall (fun w => expands w = false) (a :: args)
              /\ forall w, operand_of (a :: args) w -> In w ts').
    { intros ts' [Hf Hin]%IH. split; [by constructor|].
      intros w [(-> & ? & _)|[[? _]|H]]%operand_of_cons; [congruence|done|auto]. }
    destruct (split_once [chr "="] (text_ a)) as [[k v]|]; [|by apply Hrec].
    destruct (contains_char (chr "/") v); [|by apply Hrec].
    intros (ts' & [Hf Hin]%Hrec & ->)%Hcons. split; [done|]. intros w Hw. right. auto.
  - intros (ts' & [Hf Hin]%IH & ->)%Hcons. split; [by constructor|].
    destruct options.
    + apply teqb_neq in Edd.
      intros w [(-> & _)|[[? _]|H]]%operand_of_cons; [by left|done|right; auto].
    + intros w [->|H]; [by left|right; auto].
Qed.

Lemma mutation_contained_sound name args cwd root :
  mutation_contained name args cwd root = true ->
  Forall (fun w => expands w = false) args
  /\ forall w, operand_of args w ->
       safe_target root cwd w
       /\ (In name [str "rm"; str "rmdir"; str "mv"] -> operand_path cwd w <> root).
Proof.
  unfold mutation_contained. destruct (mutation_targets args true) as [ts|] eqn:E; [|done].
  apply mutation_targets_operands in E as [Hf Hin]. intros H. split; [done|].
  intros w Hw. rewrite forallb_forall in H. specialize (H w (Hin w Hw)).
  destruct (contained w cwd root) as [q|] eqn:Ec; [|done]. apply contained_sound in Ec as [-> Hi].
  apply negb_true_iff, orb_false_elim in H as [Hp Hr]. split; [by split|].
  intros Hn%mem_spec. rewrite Hn in Hr. cbn [andb] in Hr. intros E.
  apply path_eqb_eq in E. congruence.
Qed.

Lemma change_directory_sound cwd args root cwd' :
  change_directory cwd args root = Some cwd' ->
  exists w, In w args /\ contained w cwd root = Some cwd'.
Proof.
  unfold change_directory. destruct (List.filter _ args) as [|w [|]] eqn:E; try done.
  destruct (teqb _ _); [done|]. intros H. exists w. split; [|done].
  assert (Hin : In w (List.filter (fun w => negb (cd_flag w)) args)) by (rewrite E; by left).
  by apply List.filter_In in Hin as [? _].
Qed.

(** One segment that qualifies has a permitted effect. *)
Lemma fs_segment_sound root cwd s cwd' :
  canonical cwd -> is_absolute cwd = true -> inside root cwd ->
  fs_segment root cwd s = Some cwd' ->
  write_targets s = [] /\ fs_effect root cwd s cwd' /\ inside root cwd'
  /\ canonical cwd' /\ is_absolute cwd' = true.
Proof.
  intros Hc Ha Hi. unfold fs_segment. destruct (existsb writes_file (redirects s)) eqn:Ew; [done|].
  assert (Hw : write_targets s = []).
  { unfold write_targets. clear -Ew. induction (redirects s) as [|r rs IH]; [done|]. cbn in *.
    apply orb_false_elim in Ew as [-> Ew]. by apply IH. }
  destruct (command s) as [|name args] eqn:Ecmd.
  { intros [= <-]. split_and!; [done|by apply effect_none|done..]. }
  destruct (assignment name || expands name) eqn:En; [done|].
  assert (Hkeep : forall b : bool, (if b then Some cwd else None) = Some cwd' ->
            (b = true -> fs_effect root cwd s cwd) ->
            write_targets s = [] /\ fs_effect root cwd s cwd' /\ inside root cwd'
            /\ canonical cwd' /\ is_absolute cwd' = true).
  { intros [|]; [|done]. intros [= <-] H. split_and!; auto. }
  assert (Hread : segment_is_read_only s && reads_inside (name :: args) cwd root = true ->
                  fs_effect root cwd s cwd).
  { intros [Hro Hri]%andb_prop. apply effect_read; [done|].
    rewrite Ecmd. by apply reads_inside_sound. }
  destruct (teqb (text_ name) (str "cd")) eqn:Ecd.
  { apply teqb_eq in Ecd. intros (w & Hin & Hcw)%change_directory_sound.
    pose proof (contained_canonical _ _ _ _ Hc Ha Hcw) as [Hc' Ha'].
    apply contained_sound in Hcw as [-> Hi']. split_and!; try done. by eapply effect_cd. }
  destruct (teqb (text_ name) (str "sed")) eqn:Esed.
  { apply teqb_eq in Esed. destruct (parse_call args) as [call|] eqn:Ep; [|done].
    destruct (in_place call) eqn:Eip; intros H; apply (Hkeep _ H); intros Hok.
    - eapply effect_sed; try done. rewrite forallb_forall in Hok. apply List.Forall_forall.
      intros f Hf. by apply writable_sound, Hok.
    - apply Hread, andb_true_intro. split; [|done].
      unfold segment_is_read_only. rewrite Ew, Ecmd, En, Esed. unfold program_is_read_only.
      assert (Hsp : existsb splits args = false).
      { unfold parse_call in Ep. by destruct (existsb splits args). }
      rewrite Hsp, andb_false_r, Ep. cbn. by rewrite Eip. }
  destruct (mem (text_ name) MUTATORS) eqn:Em.
  - intros H. apply (Hkeep _ H). intros [Hf Hop]%mutation_contained_sound.
    by eapply effect_mutate.
  - intros H. by apply (Hkeep _ H).
Qed.

Lemma fs_segments_sound root cwd ss :
  canonical cwd -> is_absolute cwd = true -> inside root cwd ->
  fs_segments root cwd ss = true -> fs_run root cwd ss.
Proof.
  revert cwd. induction ss as [|s ss IH]; intros cwd Hc Ha Hi; cbn [fs_segments]; [constructor|].
  destruct (fs_segment root cwd s) as [cwd'|] eqn:E; [|done]. intros H.
  apply fs_segment_sound in E as (Hw & He & Hi' & Hc' & Ha'); [|done..].
  econstructor; eauto.
Qed.

(** * Properties *)

(** C39: the contract of the accept-edits filesystem commands.  A qualifying
    line parsed completely and computes nothing at run time; run from the
    project root, the shell never leaves the root, no redirect writes a file,
    and each command either reads inside the root, moves inside it, edits
    files inside it in place with [sed], or is one of the named mutators
    whose every operand points inside the root, at no protected path, and,
    for the removing ones, not at the root itself. *)
Theorem fs_commands_contained (c : text) (project_root_ : path) :
  wf_path project_root_ -> is_absolute project_root_ = true ->
  is_common_fs_command c project_root_ = true ->
  let root := normalize project_root_ in
  parsed_ok (parse c) = true /\ parsed_dynamic (parse c) = false
  /\ fs_run root root (parsed_segments (parse c)).
Proof.
  intros Hw Ha. unfold is_common_fs_command.
  destruct (_ || _ || _) eqn:E; [done|]. bool_hyps. intros Hs. split_and!; [done|done|].
  apply fs_segments_sound; try done.
  - by apply normalize_canonical.
  - by apply is_absolute_normalize.
  - unfold inside. apply path_starts_with_spec. exists []. by rewrite app_nil_r.
Qed.

Lemma fs_commands_contained_witness :
  parsed_dynamic (parse (str "mkdir -p a/b && cd a && rm -- -x; sed -i s/u/v/ b/f")) = false
  /\ fs_run (normalize (components (str "/work/app"))) (normalize (components (str "/work/app")))
       (parsed_segments (parse (str "mkdir -p a/b && cd a && rm -- -x; sed -i s/u/v/ b/f"))).
Proof.
  apply (fs_commands_contained (str "mkdir -p a/b && cd a && rm -- -x; sed -i s/u/v/ b/f")
           (components (str "/work/app"))).
  - apply components_wf.
  - reflexivity.
  - vm_compute. reflexivity.
Defined.

(** * Where the contract ends *)

(** The values of attached options are not operands: these commands qualify
    although they write above the project root. *)
Lemma fs_attached_option_escapes :
  is_common_fs_command (str "cp --target-directory=.. notes") (components (str "/work/app")) = true
  /\ is_common_fs_command (str "cp -t/etc notes") (components (str "/work/app")) = true
  /\ is_common_fs_command (str "cp notes ..") (components (str "/work/app")) = false.
Proof. split_and!; vm_compute; reflexivity. Qed.

(** A trailing line continuation hides an operand when the line is trimmed
    before it is judged: the shell runs [cp notes ..], the judged text names
    a file called [..\]. *)
Lemma fs_trailing_continuation :
  let line := str "cp notes ..\" ++ [NEWLINE] in
  map argv (parsed_segments (parse line)) = [[str "cp"; str "notes"; str ".."]]
  /\ is_common_fs_command line (components (str "/work/app")) = false
  /\ is_common_fs_command (trim line) (components (str "/work/app")) = true.
Proof. cbv zeta. split_and!; vm_compute; reflexivity. Qed.
