(* ===== verification/Suggest.v ===== *)
(** Command prefixes suggested for always-allow rules ([shell/suggest.rs]), and quoted words read back: the
    lexer applied to the words [quote] prints for a rule gives exactly those words. *)

From S2P Require Export ReadOnly LexerFacts.

Definition NEVER_PREFIX : list text :=
  [str "rm"; str "rmdir"; str "sudo"; str "doas"; str "su"; str "chmod"; str "chown"; str "chgrp";
   str "dd"; str "shred"; str "mkfs"; str "kill"; str "killall"; str "pkill"; str "eval";
   str "exec"; str "xargs"; str "env"; str "nohup"; str "command"; str "builtin"; str "source";
   str "."; str "time"; str "timeout"; str "nice"; str "export"; str "unset"; str "set";
   str "alias"; str "trap"].
Definition SHELLS : list text := [str "sh"; str "bash"; str "zsh"; str "dash"; str "ksh"; str "fish"].
Definition INTERPRETERS : list text :=
  [str "python"; str "python3"; str "node"; str "ruby"; str "perl"; str "php"].
Definition RUN_VERBS : list text := [str "run"; str "run-script"; str "exec"; str "x"; str "dlx"].
Definition MULTIPLEXERS : list text :=
  [str "git"; str "cargo"; str "npm"; str "pnpm"; str "yarn"; str "bun"; str "deno"; str "go";
   str "docker"; str "podman"; str "kubectl"; str "gh"; str "uv"; str "pip"; str "pip3";
   str "poetry"; str "brew"; str "apt"; str "apt-get"; str "dotnet"; str "rustup"; str "npx"].

Definition bare_char (c : char) : bool := is_ascii_alphanumeric c || one_of "_./:=+@%,-" c.

(** Quotes a text for a rule so it lexes back to the same word. *)
Definition quote (t : text) : text :=
  if forallb bare_char t && negb (is_empty t) then t
  else [chr "'"] ++ replace_char (chr "'") (str "'\''") t ++ [chr "'"].

Definition plain_word (w : Word) : bool :=
  negb (is_empty (text_ w)) && negb (starts_with [chr "-"] (text_ w)) && negb (expands w).

(** The program and subcommand words of a prefix. *)
Definition picked_words (name : Word) (args : list Word) : option (list Word) :=
  let program := text_ name in
  if mem program SHELLS || mem program INTERPRETERS then
    match args with
    | [] => None
    | first :: rest =>
        if teqb (text_ first) (str "-m") && mem program INTERPRETERS then
          match rest with
          | module_ :: _ => if plain_word module_ then Some [name; first; module_] else None
          | [] => None
          end
        else if plain_word first then Some [name; first]
        else None
    end
  else
    match args with
    | [] => Some [name]
    | sub :: rest =>
        if plain_word sub then
          let chained := mem (text_ sub) RUN_VERBS || starts_with [chr "+"] (text_ sub) in
          match rest with
          | next :: _ => if plain_word next && chained then Some [name; sub; next] else Some [name; sub]
          | [] => Some [name; sub]
          end
        else if mem program MULTIPLEXERS then None
        else Some [name]
    end.

(** The prefix for one command. *)
Definition prefix_for (ws : list Word) : option text :=
  let assignments := length (take_while assignment ws) in
  let env := take assignments ws in
  match drop assignments ws with
  | [] => None
  | name :: args =>
      if expands name || is_empty (text_ name) || mem (text_ name) NEVER_PREFIX then None
      else match picked_words name args with
           | None => None
           | Some picked => Some (join (str " ") (map (fun w => quote (text_ w)) (env ++ picked)))
           end
  end.

Definition suggest_prefix (command_ : text) : option text :=
  let parsed := parse command_ in
  if negb (parsed_ok parsed) || parsed_dynamic parsed then None
  else
    match (match List.find (fun s => negb (segment_is_read_only s)) (parsed_segments parsed) with
           | Some s => Some s
           | None => head (parsed_segments parsed)
           end) with
    | None => None
    | Some segment => prefix_for (command segment)
    end.

Local Open Scope N_scope.

(** * Positions *)

Lemma advance_advance m n lx : advance m (advance n lx) = advance (n + m) lx.
Proof. unfold advance, set_pos. cbn. by rewrite Nat.add_assoc. Qed.

Lemma advance_0 lx : advance 0 lx = lx.
Proof. unfold advance, set_pos. rewrite Nat.add_0_r. by destruct lx. Qed.

Lemma unread_advance n lx : unread (advance n lx) = drop n (unread lx).
Proof. unfold unread. cbn. by rewrite drop_drop. Qed.

Lemma unread_app lx a b : unread lx = a ++ b -> unread (advance (length a) lx) = b.
Proof. intros H. rewrite unread_advance, H. apply drop_app_length. Qed.

Lemma unread_cons lx c r : unread lx = c :: r -> peek lx = Some c /\ unread (advance 1 lx) = r.
Proof.
  intros H. split.
  - unfold peek. unfold unread in H. rewrite <- (Nat.add_0_r (pos lx)), <- lookup_drop. by rewrite H.
  - rewrite unread_advance, H. done.
Qed.

Lemma unread_nil lx : unread lx = [] -> peek lx = None.
Proof.
  unfold peek, unread. intros H. apply lookup_ge_None. apply (f_equal length) in H.
  rewrite length_drop in H. simpl in H. lia.
Qed.

Lemma peek_at_1 lx c d r : unread lx = c :: d :: r -> peek_at 1 lx = Some d.
Proof.
  unfold peek_at, unread. intros H. rewrite <- lookup_drop. by rewrite H.
Qed.

(** * Single quotes *)

Lemma push_push_str c t w : push_str t (push c w) = push_str (c :: t) w.
Proof. unfold push_str, push, set_text. cbn. by rewrite <- app_assoc. Qed.

Lemma push_str_nil w : push_str [] w = w.
Proof. unfold push_str, set_text. rewrite app_nil_r. by destruct w. Qed.

Lemma single_quoted_to_end a r w lx :
  ~ In (chr "'") a ->
  single_quoted_loop (a ++ chr "'" :: r) w lx = (push_str a w, advance (length a + 1) lx).
Proof.
  revert w lx. induction a as [|c a IH]; intros w lx Hn; cbn [app single_quoted_loop].
  - unfold eqc. rewrite N.eqb_refl. by rewrite push_str_nil.
  - unfold eqc. destruct (N.eqb_spec c (chr "'")) as [->|_]; [exfalso; apply Hn; by left|].
    rewrite IH by (intros ?; apply Hn; by right).
    rewrite push_push_str, advance_advance. done.
Qed.

(** * Words *)

(** The word ends here. *)
Definition word_stops (rest : text) : Prop :=
  match rest with [] => True | c :: _ => c = chr " " end.

Definition nul_free (t : text) : Prop := forallb (fun c => negb (c =? 0)) t = true.

Lemma nul_free_app a b : nul_free (a ++ b) <-> nul_free a /\ nul_free b.
Proof. unfold nul_free. by rewrite forallb_app, andb_true_iff. Qed.

Lemma finish_word_nul_free w : nul_free (text_ w) -> finish_word w true = Some w.
Proof.
  intros H. unfold finish_word. rewrite take_while_id by done. unfold set_text. by destruct w.
Qed.

Lemma r_word_step n w st br lx : r_word (lexn (S n)) w st br lx = word_loop (lexn n) w st br lx.
Proof. done. Qed.

Lemma word_at_stop w lx rest n :
  unread lx = rest -> word_stops rest -> nul_free (text_ w) ->
  r_word (lexn (S n)) w true None lx = Some (Some w, lx).
Proof.
  intros Hu Hs Hn. rewrite r_word_step. unfold word_loop. destruct rest as [|c rest].
  - rewrite unread_nil by done. by rewrite finish_word_nul_free.
  - cbn in Hs. subst c. apply unread_cons in Hu as [-> _].
    change (one_of " ;&|()" (chr " ")) with true. cbn [orb]. by rewrite finish_word_nul_free.
Qed.

(** What an unquoted char of a bare word does to the word. *)
Lemma bare_char_facts c :
  bare_char c = true ->
  (one_of " ;&|()" c || eqc TAB c || eqc NEWLINE c) = false /\ one_of "<>" c = false
  /\ eqc (chr "'") c = false /\ eqc DQUOTE c = false /\ eqc (chr "\") c = false
  /\ eqc (chr "$") c = false /\ eqc (chr "`") c = false /\ one_of "*?[" c = false
  /\ eqc (chr "~") c = false /\ eqc (chr "{") c = false /\ eqc (chr "}") c = false
  /\ eqc (chr "#") c = false /\ (c =? 0) = false.
Proof.
  intros H. assert (Hne : forall x, bare_char x = false -> (c =? x) = false).
  { intros x Hx. apply N.eqb_neq. intros ->. congruence. }
  unfold one_of, contains_char. expand_literals. cbn [existsb]. unfold eqc.
  rewrite !Hne by (vm_compute; reflexivity).
  split_and!; done || (apply Hne; vm_compute; reflexivity).
Qed.

Lemma plain_bare w c st :
  bare_char c = true ->
  exists w', plain w c st None = (w', None) /\ text_ w' = text_ w ++ [c]
             /\ expands w' = expands w /\ quoted w' = quoted w.
Proof.
  intros H. destruct (bare_char_facts c H) as (_ & _ & _ & _ & _ & _ & _ & H1 & H2 & H3 & H4 & _ & _).
  unfold plain. rewrite H1, H2, H3, H4. cbn [andb].
  destruct (_ && _ && _ && _); (eexists; split; [reflexivity|done]).
Qed.

Lemma bare_nul_free t : forallb bare_char t = true -> nul_free t.
Proof.
  unfold nul_free. rewrite !forallb_forall. intros H c Hc. apply H in Hc.
  apply bare_char_facts in Hc as (_ & _ & _ & _ & _ & _ & _ & _ & _ & _ & _ & _ & ->). done.
Qed.

(** The lexer reads [t] and stands after its [k] chars. *)
Definition reads_word (w : Word) (st : bool) (lx : Lexer) (t : text) (k : nat) : Prop :=
  exists n w', r_word (lexn n) w st None lx = Some (Some w', advance k lx)
    /\ text_ w' = t /\ expands w' = expands w.

Lemma read_bare t w st lx rest :
  forallb bare_char t = true -> (t <> [] \/ st = true) -> nul_free (text_ w) ->
  unread lx = t ++ rest -> word_stops rest ->
  reads_word w st lx (text_ w ++ t) (length t).
Proof.
  revert w st lx. induction t as [|c t IH]; intros w st lx Hb Hne Hn Hu Hs.
  - destruct Hne as [?| ->]; [done|]. exists 1%nat, w.
    rewrite (word_at_stop w lx rest) by done. rewrite advance_0, app_nil_r. done.
  - cbn in Hb. apply andb_prop in Hb as [Hc Hb]. cbn [app] in Hu.
    assert (Hnc : nul_free [c]).
    { apply bare_nul_free. cbn. by rewrite Hc. }
    destruct (plain_bare w c st Hc) as (w1 & Hp & Ht1 & He1 & Hq1).
    destruct (IH w1 true (advance 1 lx)) as (n & w' & Hr & Ht & He);
      [done|by right|rewrite Ht1; by apply nul_free_app|by apply unread_cons in Hu as [_ ?]|done|].
    exists (S n), w'. rewrite r_word_step. unfold word_loop.
    destruct (bare_char_facts c Hc) as (H1 & H2 & H3 & H4 & H5 & H6 & H7 & _).
    apply unread_cons in Hu as [-> _]. rewrite H1, H2, H3, H4, H5, H6, H7, Hp, Hr.
    rewrite advance_advance, Ht, Ht1, <- app_assoc, He, He1. done.
Qed.

(** * Quoted words *)

Definition QUOTE : char := chr "'".

(** [text.replace('\'', "'\\''")]. *)
Definition escaped (t : text) : text := replace_char QUOTE (str "'\''") t.

Lemma escaped_plain a : ~ In QUOTE a -> escaped a = a.
Proof.
  unfold escaped, replace_char. induction a as [|c a IH]; intros Hn; [done|]. cbn [flat_map].
  destruct (N.eqb_spec c QUOTE) as [->|_]; [exfalso; apply Hn; by left|].
  rewrite IH; [done|]. intros ?. apply Hn. by right.
Qed.

Lemma escaped_split a t : ~ In QUOTE a -> escaped (a ++ QUOTE :: t) = a ++ str "'\''" ++ escaped t.
Proof.
  intros Hn. unfold escaped, replace_char. rewrite flat_map_app.
  fold (replace_char QUOTE (str "'\''") a). fold (escaped a). rewrite escaped_plain by done.
  done.
Qed.

Lemma first_quote (t : text) :
  ~ In QUOTE t \/ exists a r, t = a ++ QUOTE :: r /\ ~ In QUOTE a.
Proof.
  induction t as [|c t [IH|(a & r & -> & IH)]]; [left; by intros []| |].
  - destruct (N.eqb_spec c QUOTE) as [->|Hne]; [right; exists [], t; by split; [|intros []]|].
    left. intros [->|?]; done.
  - destruct (N.eqb_spec c QUOTE) as [->|Hne]; [right; eexists [], _; split; [done|by intros []]|].
    right. exists (c :: a), r. split; [done|]. intros [->|?]; done.
Qed.

Lemma single_quoted_reads a r w lx :
  ~ In QUOTE a -> unread lx = a ++ QUOTE :: r ->
  single_quoted w lx = (push_str a (set_quoted w), advance (length a + 1) lx)
  /\ unread (advance (length a + 1) lx) = r.
Proof.
  intros Hn Hu. unfold single_quoted. rewrite Hu. split; [by apply single_quoted_to_end|].
  rewrite unread_advance, Hu, drop_app_ge by lia. by replace (length a + 1 - length a)%nat with 1%nat by lia.
Qed.

(** A single-quoted text that continues until the word stops. *)
Definition reads_single (w : Word) (lx : Lexer) (t : text) (k : nat) : Prop :=
  exists n w', (let '(w1, lx1) := single_quoted w lx in r_word (lexn n) w1 true None lx1)
               = Some (Some w', advance k lx)
    /\ text_ w' = t /\ expands w' = expands w.

(** One turn of the word loop at a quote, and at an escaped quote. *)
Lemma word_at_quote n w st lx r :
  unread lx = QUOTE :: r ->
  r_word (lexn (S n)) w st None lx
  = let '(w1, lx1) := single_quoted w (advance 1 lx) in r_word (lexn n) w1 true None lx1.
Proof. intros Hu. rewrite r_word_step. unfold word_loop. by apply unread_cons in Hu as [-> _]. Qed.

Lemma word_at_escape n w lx r :
  unread lx = chr "\" :: QUOTE :: r ->
  r_word (lexn (S n)) w true None lx
  = r_word (lexn n) (set_quoted (push QUOTE w)) true None (advance 2 lx).
Proof.
  intros Hu. rewrite r_word_step. unfold word_loop. apply unread_cons in Hu as [-> Hu].
  change (one_of " ;&|()" (chr "\")) with false. cbn [orb].
  unfold bump. apply unread_cons in Hu as [-> _]. by rewrite advance_advance.
Qed.

Lemma read_single t w lx rest :
  nul_free (text_ w) -> nul_free t -> unread lx = escaped t ++ QUOTE :: rest -> word_stops rest ->
  reads_single w lx (text_ w ++ t) (length (escaped t) + 1).
Proof.
  remember (length t) as len eqn:Hlen. revert t w lx Hlen.
  induction (lt_wf len) as [len _ IH]. intros t w lx -> Hnw Hnt Hu Hs.
  destruct (first_quote t) as [Hq|(a & r & -> & Hq)].
  - rewrite escaped_plain in * by done.
    destruct (single_quoted_reads t rest w lx Hq Hu) as [Hsq Hrest].
    exists 1%nat, (push_str t (set_quoted w)). rewrite Hsq.
    rewrite (word_at_stop _ _ rest); [done|done|done|]. cbn. by apply nul_free_app.
  - rewrite escaped_split in * by done.
    assert (Hu1 : unread lx = a ++ QUOTE :: chr "\" :: QUOTE :: QUOTE :: escaped r ++ QUOTE :: rest).
    { rewrite Hu, <- !app_assoc. done. }
    destruct (single_quoted_reads a _ w lx Hq Hu1) as [Hsq Hrest].
    set (lx1 := advance (length a + 1) lx) in *.
    apply nul_free_app in Hnt as [Hna Hnr]. apply (nul_free_app [QUOTE]) in Hnr as [_ Hnr].
    set (w1 := set_quoted (push QUOTE (push_str a (set_quoted w)))).
    assert (Hw1 : text_ w1 = text_ w ++ a ++ [QUOTE]) by (cbn; by rewrite <- app_assoc).
    assert (Hu3 : unread (advance 3 lx1) = escaped r ++ QUOTE :: rest).
    { rewrite unread_advance, Hrest. done. }
    destruct (IH (length r)) with (t := r) (w := w1) (lx := advance 3 lx1)
      as (n & w' & Hr & Ht & He); try done.
    + rewrite length_app. simpl. lia.
    + rewrite Hw1. apply nul_free_app. split; [done|]. by apply nul_free_app.
    + exists (S (S n)), w'. rewrite Hsq. fold lx1. rewrite (word_at_escape _ _ _ _ Hrest).
      rewrite (word_at_quote n _ _ _ (escaped r ++ QUOTE :: rest)).
      2: { rewrite unread_advance, Hrest. done. }
      rewrite (advance_advance 1 2 lx1). change (2 + 1)%nat with 3%nat. fold w1. rewrite Hr.
      split_and!.
      * unfold lx1. rewrite !advance_advance. do 2 f_equal. rewrite !length_app.
        change (length (str "'\''")) with 4%nat. f_equal. lia.
      * by rewrite Ht, Hw1, <- !app_assoc.
      * by rewrite He.
Qed.

(** A quoted text reads back as one word with that text and no expansion. *)
Lemma read_quote t lx rest :
  nul_free t -> unread lx = quote t ++ rest -> word_stops rest ->
  reads_word default_word false lx t (length (quote t)).
Proof.
  intros Hn Hu Hs. unfold quote in *.
  destruct (forallb bare_char t && negb (is_empty t)) eqn:Eb.
  - bool_hyps. apply (read_bare t default_word false lx rest); try done. left. by intros ->.
  - fold QUOTE (escaped t) in *. rewrite <- !app_assoc in Hu. cbn [app] in Hu.
    destruct (read_single t default_word (advance 1 lx) rest) as (n & w' & Hr & Ht & He);
      [done|done|by apply unread_cons in Hu as [_ ?]|done|].
    exists (S n), w'. rewrite (word_at_quote _ _ _ _ _ Hu), Hr. split_and!; [|by rewrite Ht|by rewrite He].
    rewrite advance_advance. do 2 f_equal. rewrite !length_app. by simpl.
Qed.

(** * Lines *)

Lemma quote_nonempty t : quote t <> [].
Proof. unfold quote. destruct (_ && _) eqn:E; [|done]. bool_hyps. intros ->. done. Qed.

(** The first char of a quoted word is no operator of the list loop. *)
Lemma quote_head t c r :
  quote t = c :: r ->
  (eqc (chr " ") c || eqc TAB c) = false /\ eqc NEWLINE c = false /\ eqc (chr "#") c = false
  /\ eqc (chr "&") c = false /\ one_of ";&|" c = false /\ eqc (chr "(") c = false
  /\ eqc (chr ")") c = false /\ one_of "<>" c = false.
Proof.
  unfold quote. destruct (_ && _) eqn:E.
  - intros ->. cbn in E. apply andb_prop in E as [[Hc _]%andb_prop _].
    assert (Hne : forall x, bare_char x = false -> (c =? x) = false).
    { intros x Hx. apply N.eqb_neq. intros ->. congruence. }
    unfold one_of, contains_char. expand_literals. cbn [existsb]. unfold eqc.
    rewrite !Hne by (vm_compute; reflexivity). split_and!; done || (apply Hne; vm_compute; reflexivity).
  - intros [= <- _]. split_and!; vm_compute; reflexivity.
Qed.

Lemma r_list_step n b segs cur g lx :
  r_list (lexn (S n)) b segs cur g lx = list_loop (lexn n) b segs cur g lx.
Proof. done. Qed.

(** The list loop reads a quoted word and goes on after it. *)
Lemma list_at_word n m segs cur g lx t rest w k res :
  unread lx = quote t ++ rest ->
  r_word (lexn n) default_word false None lx = Some (Some w, advance k lx) ->
  r_list (lexn m) false segs (push_word w cur) g
    (set_word_end (Some (pos (advance k lx))) (advance k lx)) = Some res ->
  r_list (lexn (S (Nat.max n m))) false segs cur g lx = Some res.
Proof.
  intros Hu Hw Hl. destruct (quote t) as [|c q] eqn:Eq; [by apply quote_nonempty in Eq|].
  destruct (quote_head t c q Eq) as (H1 & H2 & H3 & H4 & H5 & H6 & H7 & H8).
  rewrite r_list_step. unfold list_loop. apply unread_cons in Hu as [-> _].
  rewrite H1, H2, H3, H4, H5, H6, H7, H8. cbn [andb]. unfold bindM, word.
  rewrite (le_word _ _ (lexn_le n (Nat.max n m) ltac:(lia)) _ _ _ _ _ Hw).
  exact (le_list _ _ (lexn_le m (Nat.max n m) ltac:(lia)) _ _ _ _ _ _ Hl).
Qed.

Lemma list_at_space n b segs cur g lx r :
  unread lx = chr " " :: r ->
  r_list (lexn (S n)) b segs cur g lx = r_list (lexn n) b segs cur g (advance 1 lx).
Proof. intros Hu. rewrite r_list_step. unfold list_loop. by apply unread_cons in Hu as [-> _]. Qed.

Lemma list_at_end n segs cur g lx :
  unread lx = [] -> heredocs lx = [] ->
  r_list (lexn (S n)) false segs cur g lx = Some (finish segs cur, lx).
Proof.
  intros Hu Hh. rewrite r_list_step. unfold list_loop. rewrite unread_nil by done.
  by rewrite Hh.
Qed.

(** The flags and the substitution commands are as they were. *)
Definition quiet (lx lx' : Lexer) : Prop :=
  ok lx' = ok lx /\ dynamic lx' = dynamic lx /\ nested lx' = nested lx.

(** What follows one word of a line of quoted words. *)
Definition line_rest (ts : list text) : text :=
  match ts with [] => [] | _ => chr " " :: join (str " ") (map quote ts) end.

Lemma join_quote_cons t ts :
  join (str " ") (map quote (t :: ts)) = quote t ++ line_rest ts.
Proof. destruct ts as [|t' ts]; [cbn [map join line_rest]; by rewrite app_nil_r|done]. Qed.

Lemma line_rest_stops ts : word_stops (line_rest ts).
Proof. by destruct ts. Qed.

(** A line of quoted words reads as exactly those words. *)
Lemma read_line ts cur lx :
  Forall nul_free ts -> unread lx = line_rest ts -> heredocs lx = [] ->
  exists n ws lx', r_list (lexn n) false [] cur 0 lx
      = Some (finish [] (mkSegment (words cur ++ ws) (redirects cur)), lx')
    /\ map text_ ws = ts /\ Forall (fun w => expands w = false) ws /\ quiet lx lx'.
Proof.
  intros Hn. revert cur lx. induction Hn as [|t ts Ht _ IH]; intros cur lx Hu Hh.
  - exists 1%nat, [], lx. rewrite list_at_end by done. rewrite app_nil_r. by destruct cur.
  - unfold line_rest in Hu. rewrite join_quote_cons in Hu.
    assert (Hu1 : unread (advance 1 lx) = quote t ++ line_rest ts) by (by apply unread_cons in Hu as [_ ?]).
    destruct (read_quote t (advance 1 lx) (line_rest ts) Ht Hu1 (line_rest_stops ts))
      as (n & w & Hw & Etext & Eexp).
    set (lx2 := advance (length (quote t)) (advance 1 lx)) in *.
    destruct (IH (push_word w cur) (set_word_end (Some (pos lx2)) lx2)) as (m & ws & lx' & Hl & Hws & He & Hq).
    + apply (unread_app (advance 1 lx)). exact Hu1.
    + exact Hh.
    + exists (S (S (Nat.max n m))), (w :: ws), lx'. rewrite (list_at_space _ _ _ _ _ _ _ Hu).
      rewrite (list_at_word n m _ _ _ _ t (line_rest ts) w (length (quote t)) _ Hu1 Hw Hl).
      cbn [words redirects push_word]. rewrite <- app_assoc. cbn [app map].
      split_and!; [done|by rewrite Etext, Hws|by constructor|exact Hq].
Qed.

(** The whole line, through [lex]. *)
Lemma lex_quoted ts :
  ts <> [] -> Forall nul_free ts ->
  exists ws, lex (join (str " ") (map quote ts))
    = mkLexed [mkSegment ws []] [] (blen (join (str " ") (map quote ts)) <=? MAX_LEN) false
    /\ map text_ ws = ts /\ Forall (fun w => expands w = false) ws.
Proof.
  intros Hne Hn. destruct ts as [|t ts]; [done|]. inversion Hn as [|? ? Ht Hts]; subst.
  set (input := join _ _). set (lx := set_ok (blen input <=? MAX_LEN) (new_lexer input 0)).
  assert (Hu : unread lx = quote t ++ line_rest ts) by (apply join_quote_cons).
  destruct (read_quote t lx (line_rest ts) Ht Hu (line_rest_stops ts)) as (n & w & Hw & Etext & Eexp).
  set (lx2 := advance (length (quote t)) lx) in *.
  destruct (read_line ts (push_word w default_segment) (set_word_end (Some (pos lx2)) lx2))
    as (m & ws & lx' & Hl & Hws & He & (Hok & Hdy & Hne')); [done|by apply (unread_app lx)|done|].
  exists (w :: ws). split_and!; [|by cbn; rewrite Etext, Hws|by constructor].
  apply (lex_with_Some _ (S (Nat.max n m))). unfold lex_with. fold lx.
  rewrite (list_at_word n m _ _ _ _ t (line_rest ts) w (length (quote t)) _ Hu Hw Hl).
  by rewrite Hok, Hdy, Hne'.
Qed.

(** * Properties *)

(** Quoting round trip.  Words printed with [quote] and joined by spaces
    lex back to exactly the same words: one simple command, no redirect,
    nothing that expands, no substitution; only a line over the lexer's length
    limit is reported as not parsed. *)
Theorem quoted_words_lex_back (ts : list text) :
  ts <> [] -> Forall nul_free ts ->
  let line := join (str " ") (map quote ts) in
  exists ws, lexed_segments (lex line) = [mkSegment ws []]
    /\ map text_ ws = ts /\ Forall (fun w => expands w = false) ws
    /\ lexed_nested (lex line) = [] /\ lexed_dynamic (lex line) = false
    /\ lexed_ok (lex line) = (blen line <=? MAX_LEN).
Proof.
  intros Hne Hn. destruct (lex_quoted ts Hne Hn) as (ws & E & Hws & He).
  cbv zeta. rewrite E. by exists ws.
Qed.

Lemma quoted_words_lex_back_witness :
  let ts := [str "it's"; str "a b"; str "$HOME/*"; str ""; str "x=1"] in
  Forall nul_free ts
  /\ exists ws, lexed_segments (lex (join (str " ") (map quote ts))) = [mkSegment ws []]
       /\ map text_ ws = ts.
Proof.
  cbv zeta. assert (H : Forall nul_free [str "it's"; str "a b"; str "$HOME/*"; str ""; str "x=1"])
    by (repeat constructor).
  split; [exact H|].
  destruct (quoted_words_lex_back [str "it's"; str "a b"; str "$HOME/*"; str ""; str "x=1"])
    as (ws & E & Hws & _); [discriminate|exact H|].
  exists ws. split; [exact E|exact Hws].
Defined.
