(* ===== verification/Command.v ===== *)
(** Globs and the platform as interfaces, command patterns and path patterns of rules ([rules/command.rs], [rules/path_pattern.rs]). *)

From S2P Require Export Text Wrappers Paths.

(** [GlobBuilder], [GlobSetBuilder] and [globset::escape]. *)
Class Globset := {
  glob_error : Type;
  glob : Type;
  glob_set : Type;
  (** [GlobBuilder::new(t).literal_separator(l).case_insensitive(c).build()] *)
  glob_build : forall (literal_separator case_insensitive : bool) (t : text), result glob_error glob;
  (** [glob.compile_matcher().is_match(name)] *)
  glob_is_match : glob -> text -> bool;
  glob_set_build : list glob -> result glob_error glob_set;
  glob_set_is_match : glob_set -> text -> bool;
  glob_escape : text -> text;
  (** [globset::Error] as a message *)
  glob_error_text : glob_error -> text
}.

(** [cfg!(any(target_os = "macos", target_os = "windows"))]. *)
Class Platform := { CASE_INSENSITIVE : bool }.

(** A small instance for concrete runs: every glob compiles; [**] matches
    everything, [d/**] what is below [d], [**/n] the name [n] at any depth and
    any other glob itself. *)
Definition simple_match (g t : text) : bool :=
  if teqb g (str "**") then true
  else match strip_suffix (str "/**") g, strip_prefix (str "**/") g with
       | Some d, None => starts_with (d ++ [chr "/"]) t
       | Some d, Some _ =>
           let n := drop 3 d in
           starts_with (n ++ [chr "/"]) t || contains_str ([chr "/"] ++ n ++ [chr "/"]) t
       | None, Some n => teqb n t || ends_with ([chr "/"] ++ n) t
       | None, None => teqb g t
       end.

Definition simple_globset : Globset := {|
  glob_error := text;
  glob := text;
  glob_set := list text;
  glob_build := fun _ _ t =>
    if contains_char (chr "[") t && negb (contains_char (chr "]") t)
    then Err (str "unclosed character class") else Ok t;
  glob_is_match := simple_match;
  glob_set_build := fun gs => Ok gs;
  glob_set_is_match := fun gs t => existsb (fun g => simple_match g t) gs;
  glob_escape := fun t => t;
  glob_error_text := fun e => e
|}.

Definition linux : Platform := {| CASE_INSENSITIVE := false |}.

Record CommandPattern := mkCommandPattern {
  cp_text : text;
  cp_words : option (list text);
  cp_prefix : bool
}.

#[export] Instance CommandPattern_eq_dec : EqDecision CommandPattern.
Proof. solve_decision. Defined.

(** The pattern's text, and whether it is a prefix. *)
Definition command_body (spec : text) : text * bool :=
  match strip_suffix (str ":*") spec with
  | Some body => (trim_end body, true)
  | None =>
      match strip_suffix (str "*") spec with
      | Some body => (trim_end body, true)
      | None => (spec, false)
      end
  end.

(** The words of one simple command without substitutions or redirects. *)
Definition simple_words (t : text) : option (list text) :=
  let parsed := parse t in
  if parsed_ok parsed && negb (parsed_dynamic parsed) then
    match parsed_segments parsed with
    | [segment] =>
        if is_empty (redirects segment) && negb (is_empty (argv segment)) then Some (argv segment)
        else None
    | _ => None
    end
  else None.

(** [Ok None] for [*] and [:*]. *)
Definition CommandPattern_parse (spec0 : text) : result text (option CommandPattern) :=
  let spec := trim spec0 in
  let '(t, prefix) := command_body spec in
  if is_empty t then
    if prefix then Ok None else Err (str "empty command")
  else
    match simple_words t, prefix with
    | None, true => Err (str "a prefix rule must name one simple command")
    | ws, _ => Ok (Some (mkCommandPattern t ws prefix))
    end.

(** [argv.starts_with(words)] and [argv == words]. *)
Definition words_prefix (ws argv_ : list text) : bool := list_prefix_by teqb ws argv_.
Definition words_eqb (a b : list text) : bool := bool_decide (a = b).

(** Allow semantics for one simple command's words. *)
Definition allows (p : CommandPattern) (argv_ : list text) : bool :=
  match cp_words p with
  | None => false
  | Some ws => if cp_prefix p then words_prefix ws argv_ else words_eqb argv_ ws
  end.

Section WithGlobs.
Context {G : Globset}.

(** The program is [name], or a wildcard that could expand to it. *)
Definition may_name (program : Word) (name : text) : bool :=
  if eq_ignore_ascii_case (text_ program) name then true
  else if negb (Lexer.glob program || brace program) then false
  else match glob_build false true (text_ program) with
       | Ok g => glob_is_match g name
       | Err _ => true
       end.

(** Deny and ask semantics. *)
Definition restricts (p : CommandPattern) (command_ : list Word) : bool :=
  match cp_words p with
  | Some (name :: rest) =>
      match command_ with
      | program :: args =>
          (if cp_prefix p then words_prefix rest (map text_ args)
           else words_eqb (map text_ args) rest)
          && may_name program name
      | [] => false
      end
  | _ => false
  end.
End WithGlobs.

(** Exact rules also match the whole command line verbatim. *)
Definition matches_line (p : CommandPattern) (command_ : text) : bool :=
  negb (cp_prefix p) && teqb (trim command_) (cp_text p).

Definition CommandPattern_display (p : CommandPattern) : text :=
  if cp_prefix p then cp_text p ++ str ":*" else cp_text p.

Record PolicyContext := mkPolicyContext {
  project_root : path;
  additional_dirs : list path;
  home : option path
}.

Inductive Anchor := AProject | AHome | ARoot.

#[export] Instance Anchor_eq_dec : EqDecision Anchor.
Proof. solve_decision. Defined.

(** The glob and its descendants; unanchored bodies match at any depth. *)
Definition globs (body : text) (anchored : bool) : list text :=
  if is_empty body || teqb body (str "**") then [str "**"]
  else
    let base := if anchored then body else str "**/" ++ body in
    match strip_suffix (str "/**") base with
    | Some dir => [dir; base]
    | None => [base ++ str "/**"; base]
    end.

(** The absolute path without its leading separator. *)
Definition root_relative (p : path) : text :=
  let t := replace_char (chr "\") (str "/") (display p) in
  match strip_prefix [chr "/"] t with
  | Some rest => rest
  | None => t
  end.

(** The anchors of a pattern and the rest of its source. *)
Definition anchors_of (source : text) : result text (list Anchor * text) :=
  match strip_prefix (str "//") source with
  | Some rest => Ok ([ARoot], rest)
  | None =>
      match strip_prefix [chr "~"] source with
      | Some rest =>
          if is_empty rest || starts_with [chr "/"] rest then Ok ([AHome], rest)
          else Err (str "only `~/` home paths are supported")
      | None =>
          match strip_prefix [chr "/"] source with
          | Some rest => Ok ([ARoot; AProject], rest)
          | None =>
              Ok ([AProject],
                  match strip_prefix (str "./") source with Some rest => rest | None => source end)
          end
      end
  end.

Definition is_slash (c : char) : bool := (c =? chr "/")%N.

Section WithGlobs.
Context {G : Globset} {P : Platform}.

Record PathPattern := mkPathPattern {
  source : text;
  anchors : list Anchor;
  matcher : glob_set
}.

Inductive PatternError :=
| Invalid (message : text)
| Glob (error : glob_error).

Fixpoint build_globs (gs : list text) : result glob_error (list glob) :=
  match gs with
  | [] => Ok []
  | g :: gs' =>
      let? built := glob_build true CASE_INSENSITIVE g in
      let? rest := build_globs gs' in
      Ok (built :: rest)
  end.

Definition PathPattern_parse (source0 : text) : result PatternError PathPattern :=
  let source_ := trim source0 in
  if starts_with [chr "!"] source_ then Err (Invalid (str "negated patterns are not supported"))
  else
    let? (anchors_, rest) := map_err Invalid (anchors_of source_) in
    let body :=
      let body := trim_by is_slash rest in if teqb body (str ".") then [] else body in
    let anchored := negb (bool_decide (anchors_ = [AProject])) || contains_char (chr "/") body in
    let? built := map_err Glob (build_globs (globs body anchored)) in
    let? set := map_err Glob (glob_set_build built) in
    Ok (mkPathPattern source_ anchors_ set).

Definition under (pattern : PathPattern) (p base : path) : bool :=
  match path_strip_prefix base p with
  | Some relative => glob_set_is_match (matcher pattern) (display relative)
  | None => false
  end.

(** A relative path is taken from the project root. *)
Definition PathPattern_matches (pattern : PathPattern) (p0 : path) (ctx : PolicyContext) : bool :=
  let p := resolve (project_root ctx) p0 in
  existsb (fun anchor =>
             match anchor with
             | AProject => under pattern p (project_root ctx)
             | AHome => match home ctx with Some h => under pattern p h | None => false end
             | ARoot => glob_set_is_match (matcher pattern) (root_relative p)
             end) (anchors pattern).

(** Patterns are equal when their sources are. *)
Definition PathPattern_eqb (a b : PathPattern) : bool := teqb (source a) (source b).
End WithGlobs.
