(* ===== verification/Rule.v ===== *)
(** Domains of fetch rules, and the rules with their grammar ([rules/domain.rs], [rules/rule.rs], [rules/grammar.rs], [error.rs]). *)

From S2P Require Export Text Command.

Local Open Scope N_scope.

Record DomainPattern := mkDomainPattern { domain : text; wildcard : bool }.

#[export] Instance DomainPattern_eq_dec : EqDecision DomainPattern.
Proof. solve_decision. Defined.

Definition domain_char (c : char) : bool := is_ascii_alphanumeric c || one_of ".-_" c.

Definition is_dot (c : char) : bool := c =? chr ".".

Definition DomainPattern_parse (spec : text) : result text DomainPattern :=
  match strip_prefix (str "domain:") spec with
  | None => Err (str "WebFetch rules take `domain:<host>`")
  | Some value0 =>
      let value := trim value0 in
      let '(wildcard_, host) :=
        match strip_prefix (str "*.") value with
        | Some host => (true, host)
        | None => (false, value)
        end in
      let domain_ := to_ascii_lowercase (trim_end_by is_dot host) in
      if is_empty domain_ || negb (forallb domain_char domain_) then
        Err (str "invalid domain `" ++ value ++ str "`")
      else Ok (mkDomainPattern domain_ wildcard_)
  end.

(** [host] must already be lower-cased. *)
Definition matches_host (p : DomainPattern) (host : text) : bool :=
  teqb host (domain p)
  || match strip_suffix (domain p) host with
     | Some rest => ends_with [chr "."] rest
     | None => false
     end.

Definition DomainPattern_display (p : DomainPattern) : text :=
  str "domain:" ++ (if wildcard p then str "*." else []) ++ domain p.

(** * Bytes *)

(** The UTF-8 encoding of a char, as [str::as_bytes] gives it. *)
Definition utf8_encode (c : char) : list N :=
  if c <? 128 then [c]
  else if c <? 2048 then [192 + c / 64; 128 + c mod 64]
  else if c <? 65536 then [224 + c / 4096; 128 + c / 64 mod 64; 128 + c mod 64]
  else [240 + c / 262144; 128 + c / 4096 mod 64; 128 + c / 64 mod 64; 128 + c mod 64].

Definition as_bytes (t : text) : list N := flat_map utf8_encode t.

Definition continuation (b : N) : bool := in_range 128 191 b.
Definition REPLACEMENT : char := 65533.

(** The second bytes a three- or four-byte sequence may have. *)
Definition second_of_three (b0 b1 : N) : bool :=
  if b0 =? 224 then in_range 160 191 b1
  else if b0 =? 237 then in_range 128 159 b1
  else in_range 225 239 b0 && continuation b1.
Definition second_of_four (b0 b1 : N) : bool :=
  if b0 =? 240 then in_range 144 191 b1
  else if b0 =? 244 then in_range 128 143 b1
  else in_range 241 243 b0 && continuation b1.

(** [String::from_utf8_lossy]: one replacement char per maximal invalid part. *)
Fixpoint from_utf8_lossy (bs : list N) : text :=
  match bs with
  | [] => []
  | b0 :: r0 =>
      if b0 <? 128 then b0 :: from_utf8_lossy r0
      else
        match r0 with
        | [] => [REPLACEMENT]
        | b1 :: r1 =>
            if in_range 194 223 b0 && continuation b1 then
              ((b0 - 192) * 64 + (b1 - 128)) :: from_utf8_lossy r1
            else if second_of_three b0 b1 then
              match r1 with
              | [] => [REPLACEMENT]
              | b2 :: r2 =>
                  if continuation b2 then
                    ((b0 - 224) * 4096 + (b1 - 128) * 64 + (b2 - 128)) :: from_utf8_lossy r2
                  else REPLACEMENT :: from_utf8_lossy r1
              end
            else if second_of_four b0 b1 then
              match r1 with
              | [] => [REPLACEMENT]
              | b2 :: r2 =>
                  if continuation b2 then
                    match r2 with
                    | [] => [REPLACEMENT]
                    | b3 :: r3 =>
                        if continuation b3 then
                          ((b0 - 240) * 262144 + (b1 - 128) * 4096 + (b2 - 128) * 64 + (b3 - 128))
                            :: from_utf8_lossy r3
                        else REPLACEMENT :: from_utf8_lossy r2
                    end
                  else REPLACEMENT :: from_utf8_lossy r1
              end
            else REPLACEMENT :: from_utf8_lossy r0
        end
  end.

(** The bytes with every [%XX] replaced. *)
Fixpoint percent_bytes (bs : list N) : list N :=
  match bs with
  | [] => []
  | b :: rest =>
      if b =? chr "%" then
        match rest with
        | h :: l :: rest' =>
            match to_digit 16 h, to_digit 16 l with
            | Some hi, Some lo => (hi * 16 + lo) :: percent_bytes rest'
            | _, _ => b :: percent_bytes rest
            end
        | _ => b :: percent_bytes rest
        end
      else b :: percent_bytes rest
  end.

Definition percent_decode (t : text) : text := from_utf8_lossy (percent_bytes (as_bytes t)).

(** * URL hosts *)

Definition is_scheme (t : text) : bool :=
  match t with c :: _ => is_ascii_alphabetic c | [] => false end
  && forallb (fun c => is_ascii_alphanumeric c || one_of "+-." c) t.

(** What follows the scheme; [None] for a [file:] URL. *)
Definition after_scheme (url : text) : option text :=
  let bare := match strip_prefix (str "//") url with Some rest => rest | None => url end in
  match split_once (str "://") url with
  | Some (scheme, rest) =>
      if eq_ignore_ascii_case scheme (str "file") then None
      else if is_scheme scheme then Some (trim_start_by (one_of "/\") rest)
      else Some bare
  | None => Some bare
  end.

Definition url_host (url0 : text) : option text :=
  match after_scheme (trim url0) with
  | None => None
  | Some rest =>
      let authority := take_while (fun c => negb (one_of "/\?#" c)) rest in
      let host_port := after_last (chr "@") authority in
      let host :=
        match strip_prefix [chr "["] host_port with
        | Some ipv6 => before_first (chr "]") ipv6
        | None => before_first (chr ":") host_port
        end in
      let host' := trim_end_by is_dot (to_ascii_lowercase (percent_decode host)) in
      if is_empty host' then None else Some host'
  end.

Inductive RuleKind := KAllow | KAsk | KDeny.

Inductive FileScope :=
| ScopeRead
| ScopeEdit
| ScopeTool (name : text).

Inductive McpTool :=
| McpAll (star : bool)
| McpNamed (name : text).

#[export] Instance FileScope_eq_dec : EqDecision FileScope.
Proof. solve_decision. Defined.
#[export] Instance McpTool_eq_dec : EqDecision McpTool.
Proof. solve_decision. Defined.

(** File tools that take path specifiers besides the [Read] and [Edit] groups. *)
Definition FILE_TOOLS : list text :=
  [str "Write"; str "MultiEdit"; str "NotebookEdit"; str "ApplyAgentChanges"; str "Glob";
   str "Grep"; str "LSP"; str "NotebookRead"].

Definition option_eqb {A} (eqb : A -> A -> bool) (a b : option A) : bool :=
  match a, b with
  | Some x, Some y => eqb x y
  | None, None => true
  | _, _ => false
  end.

Section WithGlobs.
Context {G : Globset} {P : Platform}.

Inductive Target :=
| TBash (pattern : option CommandPattern)
| TFiles (scope : FileScope) (pattern : option PathPattern)
| TWebFetch (domain_ : option DomainPattern)
| TWebSearch
| TAgent (name : option text)
| TSkill (name : option text)
| TMcp (server : text) (tool : McpTool)
| TTool (name : text).

Record Rule := mkRule { rule_target : Target }.

(** [derive(PartialEq)], with the equality [PathPattern] defines. *)
Definition target_eqb (a b : Target) : bool :=
  match a, b with
  | TBash p, TBash q => bool_decide (p = q)
  | TFiles s p, TFiles s' q => bool_decide (s = s') && option_eqb PathPattern_eqb p q
  | TWebFetch d, TWebFetch d' => bool_decide (d = d')
  | TWebSearch, TWebSearch => true
  | TAgent n, TAgent n' | TSkill n, TSkill n' => bool_decide (n = n')
  | TMcp s t, TMcp s' t' => bool_decide (s = s') && bool_decide (t = t')
  | TTool n, TTool n' => bool_decide (n = n')
  | _, _ => false
  end.
Definition rule_eqb (a b : Rule) : bool := target_eqb (rule_target a) (rule_target b).

(** * Canonical text *)

Definition optional (tool : text) (specifier : option text) : text :=
  match specifier with
  | Some s => tool ++ [chr "("] ++ s ++ [chr ")"]
  | None => tool
  end.

Definition scope_name (s : FileScope) : text :=
  match s with
  | ScopeRead => str "Read"
  | ScopeEdit => str "Edit"
  | ScopeTool name => name
  end.

Definition rule_display (r : Rule) : text :=
  match rule_target r with
  | TBash p => optional (str "Bash") (CommandPattern_display <$> p)
  | TFiles s p => optional (scope_name s) (source <$> p)
  | TWebFetch d => optional (str "WebFetch") (DomainPattern_display <$> d)
  | TWebSearch => str "WebSearch"
  | TAgent n => optional (str "Agent") n
  | TSkill n => optional (str "Skill") n
  | TMcp server (McpAll false) => str "mcp__" ++ server
  | TMcp server (McpAll true) => str "mcp__" ++ server ++ str "__*"
  | TMcp server (McpNamed tool) => str "mcp__" ++ server ++ str "__" ++ tool
  | TTool n => n
  end.

(** * Errors *)

Inductive PolicyError :=
| InvalidRule (rule message : text)
| InvalidPattern (rule : text) (source_ : glob_error).

(** The messages of [thiserror]. *)
Definition PolicyError_display (e : PolicyError) : text :=
  match e with
  | InvalidRule rule message => str "invalid permission rule `" ++ rule ++ str "`: " ++ message
  | InvalidPattern rule source_ =>
      str "invalid path pattern in permission rule `" ++ rule ++ str "`: " ++ glob_error_text source_
  end.

(** * The grammar *)

Definition tool_char (c : char) : bool := is_ascii_alphanumeric c || one_of "_-.*" c.

Definition split (t : text) : result PolicyError (text * option text) :=
  let? (tool, specifier) :=
    match split_once [chr "("] t with
    | Some (tool, rest) =>
        match strip_suffix [chr ")"] rest with
        | None => Err (InvalidRule t (str "missing closing parenthesis"))
        | Some inner =>
            let inner := trim inner in
            if is_empty inner then Err (InvalidRule t (str "empty specifier"))
            else Ok (trim_end tool, Some inner)
        end
    | None => Ok (t, None)
    end in
  if is_empty tool then Err (InvalidRule t (str "missing tool name"))
  else if negb (forallb tool_char tool) then
    Err (InvalidRule t (str "tool names use letters, digits, `_`, `-` and `.`"))
  else Ok (tool, specifier).

Definition pattern_error (t : text) (e : PatternError) : PolicyError :=
  match e with
  | Invalid message => InvalidRule t message
  | Glob e => InvalidPattern t e
  end.

Definition files_target (t : text) (scope : FileScope) (specifier : option text)
  : result PolicyError Target :=
  let? pattern := map_err (pattern_error t) (transpose_map PathPattern_parse specifier) in
  Ok (TFiles scope pattern).

Definition mcp (t rest : text) : result PolicyError Target :=
  let invalid message := InvalidRule t message in
  let? (server, tool) :=
    match split_once (str "__") rest with
    | None => Ok (rest, McpAll false)
    | Some (server, tool) =>
        if teqb tool (str "*") then Ok (server, McpAll true)
        else if is_empty tool then Err (invalid (str "missing MCP tool name"))
        else if contains_char (chr "*") tool then
          Err (invalid (str "only `mcp__server__*` wildcards are supported"))
        else Ok (server, McpNamed tool)
    end in
  if is_empty server || contains_char (chr "*") server then
    Err (invalid (str "missing MCP server name"))
  else Ok (TMcp server tool).

Definition target_of (t tool : text) (specifier : option text) : result PolicyError Target :=
  let invalid message := InvalidRule t message in
  if contains_char (chr "*") tool then
    Err (invalid (str "wildcards are only supported as `mcp__server__*`"))
  else if teqb tool (str "Bash") then
    match specifier with
    | None => Ok (TBash None)
    | Some spec => let? p := map_err invalid (CommandPattern_parse spec) in Ok (TBash p)
    end
  else if teqb tool (str "Read") then files_target t ScopeRead specifier
  else if teqb tool (str "Edit") then files_target t ScopeEdit specifier
  else if mem tool FILE_TOOLS then files_target t (ScopeTool tool) specifier
  else if teqb tool (str "WebFetch") then
    let? d := map_err invalid (transpose_map DomainPattern_parse specifier) in Ok (TWebFetch d)
  else if teqb tool (str "WebSearch") && negb (bool_decide (is_Some specifier)) then Ok TWebSearch
  else if teqb tool (str "Agent") || teqb tool (str "Task") then Ok (TAgent specifier)
  else if teqb tool (str "Skill") then Ok (TSkill specifier)
  else match specifier with
       | None => Ok (TTool tool)
       | Some _ => Err (invalid (tool ++ str " rules do not take a specifier"))
       end.

(** [Rule::parse]. *)
Definition rule_parse (t0 : text) : result PolicyError Rule :=
  let t := trim t0 in
  let? (tool, specifier) := split t in
  let? target_ :=
    match strip_prefix (str "mcp__") tool with
    | Some rest =>
        match specifier with
        | Some _ => Err (InvalidRule t (str "MCP rules do not take a specifier"))
        | None => mcp t rest
        end
    | None => target_of t tool specifier
    end in
  Ok (mkRule target_).
End WithGlobs.
