(* ===== verification/RuleFacts.v ===== *)
(** Facts about rules: equality of parsed rules, and the round trip between a
    rule and its canonical text. *)

From S2P Require Export Text Rule.

(** * Specifiers *)

Lemma trim_end_idem t : trim_end (trim_end t) = trim_end t.
Proof. apply trim_end_by_id, trim_end_by_clean. Qed.

Lemma command_body_prefix t :
  trim_end t = t -> command_body (t ++ str ":*") = (t, true).
Proof. intros H. unfold command_body. by rewrite strip_suffix_app, H. Qed.

Lemma trimmed_prefix_text spec body suffix :
  trimmed is_whitespace spec -> spec = body ++ suffix -> trim_end body <> [] ->
  clean_head is_whitespace (trim_end body).
Proof.
  intros [Hh _] E Hne. apply trim_end_by_head. destruct body; [done|].
  by rewrite E in Hh.
Qed.

(** The canonical text of a command pattern reads back as the pattern. *)
Lemma CommandPattern_roundtrip s p :
  CommandPattern_parse s = Ok (Some p) ->
  CommandPattern_parse (CommandPattern_display p) = Ok (Some p)
  /\ trimmed is_whitespace (CommandPattern_display p) /\ CommandPattern_display p <> [].
Proof.
  unfold CommandPattern_parse. pose proof (trim_trimmed s) as Ht.
  destruct (command_body (trim s)) as [t prefix] eqn:Eb.
  destruct (is_empty t) eqn:Et; [by destruct prefix|].
  assert (Hne : t <> []) by (by intros ->).
  intros E. assert (Hp : p = mkCommandPattern t (simple_words t) prefix
                         /\ (prefix = true -> is_Some (simple_words t))).
  { destruct (simple_words t), prefix; simplify_eq; split; done || by eexists. }
  destruct Hp as [-> Hws]. clear E. unfold CommandPattern_display. cbn [cp_prefix cp_text].
  destruct prefix.
  - destruct (Hws eq_refl) as [ws Ew].
    assert (Hc : clean_head is_whitespace t /\ trim_end t = t).
    { unfold command_body in Eb.
      destruct (strip_suffix (str ":*") (trim s)) as [body|] eqn:E1;
        [|destruct (strip_suffix (str "*") (trim s)) as [body|] eqn:E2; [|done]];
        injection Eb as <-; apply strip_suffix_Some in E1 || apply strip_suffix_Some in E2;
        (split; [by eapply trimmed_prefix_text|apply trim_end_idem]). }
    destruct Hc as [Hc He].
    assert (Htr : trimmed is_whitespace (t ++ str ":*")).
    { split; [by apply clean_head_app|]. by rewrite reverse_app. }
    split_and!; [|done|by destruct t].
    rewrite trimmed_trim by done. rewrite command_body_prefix by done. by rewrite Et, Ew.
  - assert (E : t = trim s).
    { unfold command_body in Eb. repeat case_match; congruence. }
    split_and!; [|by rewrite E|done]. rewrite E, trim_idem, Eb, Et, <- E.
    by destruct (simple_words t).
Qed.

Lemma lower_char_idem c : lower_char (lower_char c) = lower_char c.
Proof.
  unfold lower_char. destruct (is_ascii_upper c) eqn:E; [|by rewrite E].
  unfold is_ascii_upper, in_range in *. bool_hyps.
  replace ((65 <=? c + 32) && (c + 32 <=? 90))%N with false; [done|]. symmetry.
  apply andb_false_iff. right. apply N.leb_gt. apply N.leb_le in H, H0. lia.
Qed.

Lemma to_ascii_lowercase_idem t : to_ascii_lowercase (to_ascii_lowercase t) = to_ascii_lowercase t.
Proof. unfold to_ascii_lowercase. rewrite map_map. apply map_ext, lower_char_idem. Qed.

Lemma lower_char_dot c : is_dot (lower_char c) = is_dot c.
Proof.
  unfold lower_char, is_dot. destruct (is_ascii_upper c) eqn:E; [|done].
  unfold is_ascii_upper, in_range in E. bool_hyps. apply N.leb_le in H, H0.
  expand_literals. destruct (N.eqb_spec (c + 32) 46), (N.eqb_spec c 46); lia || done.
Qed.

Lemma lower_trim_dots t :
  trim_end_by is_dot (to_ascii_lowercase (trim_end_by is_dot t))
  = to_ascii_lowercase (trim_end_by is_dot t).
Proof.
  apply trim_end_by_id. pose proof (trim_end_by_clean is_dot t) as H.
  revert H. unfold to_ascii_lowercase, reverse. rewrite <- !List.rev_alt, <- map_rev.
  destruct (rev (trim_end_by is_dot t)) as [|c r]; [done|].
  cbn. by rewrite lower_char_dot.
Qed.

Lemma domain_char_black c : domain_char c = true -> is_whitespace c = false /\ c <> chr "*".
Proof.
  unfold domain_char, is_ascii_alphanumeric, is_ascii_alphabetic, is_ascii_upper, is_ascii_lower,
    is_ascii_digit, is_whitespace, in_range. expand_sets. intros H. split.
  - destruct (_ || _)%bool eqn:E at 1; [|done]. exfalso.
    repeat match goal with
    | H : (_ || _)%bool = true |- _ => apply orb_prop in H as [?|?]
    | H : (_ && _)%bool = true |- _ => apply andb_prop in H as [? ?]
    | H : (_ <=? _)%N = true |- _ => apply N.leb_le in H
    | H : (_ =? _)%N = true |- _ => apply N.eqb_eq in H
    end; try lia; done.
  - intros ->. vm_compute in H. discriminate.
Qed.

Lemma forallb_clean_head (p q : char -> bool) t :
  (forall c, p c = true -> q c = false) -> forallb p t = true -> clean_head q t.
Proof. destruct t as [|c t]; [done|]. cbn. intros H [Hc _]%andb_prop. auto. Qed.

Lemma forallb_reverse {A} (p : A -> bool) l : forallb p (reverse l) = forallb p l.
Proof.
  apply eq_bool_prop_intro. rewrite !Is_true_true, !forallb_forall.
  setoid_rewrite <- list_elem_of_In. by setoid_rewrite elem_of_reverse.
Qed.

Lemma forallb_trimmed (p q : char -> bool) t :
  (forall c, p c = true -> q c = false) -> forallb p t = true -> trimmed q t.
Proof.
  intros H Ht. split; [by eapply forallb_clean_head|].
  eapply forallb_clean_head; [exact H|]. by rewrite forallb_reverse.
Qed.

(** The canonical text of a domain pattern reads back as the pattern. *)
Lemma DomainPattern_roundtrip s d :
  DomainPattern_parse s = Ok d ->
  DomainPattern_parse (DomainPattern_display d) = Ok d
  /\ trimmed is_whitespace (DomainPattern_display d) /\ DomainPattern_display d <> [].
Proof.
  unfold DomainPattern_parse at 1. destruct (strip_prefix _ s) as [value0|]; [|done].
  set (wh := match strip_prefix (str "*.") (trim value0) with Some _ => _ | None => _ end).
  destruct wh as [w host]. destruct (is_empty _ || _) eqn:Eg; [done|]. intros [= <-].
  set (dom := to_ascii_lowercase (trim_end_by is_dot host)) in *. bool_hyps.
  assert (Hne : dom <> []) by (intros E; by rewrite E in *).
  assert (Hblack : forall c, domain_char c = true -> is_whitespace c = false) by apply domain_char_black.
  assert (Hw : forall pre, clean_head is_whitespace pre -> trimmed is_whitespace (pre ++ dom)).
  { intros pre Hp. destruct (forallb_trimmed domain_char _ dom Hblack H0) as [H1 H2]. split.
    - by destruct pre.
    - rewrite reverse_app. apply clean_head_app; [|done].
      intros E. apply (f_equal reverse) in E. by rewrite reverse_involutive in E. }
  unfold DomainPattern_display. cbn [domain wildcard]. split_and!; [| |done].
  - unfold DomainPattern_parse. rewrite strip_prefix_app.
    rewrite trimmed_trim by (apply Hw; by destruct w).
    assert (Hs : match strip_prefix (str "*.") ((if w then str "*." else []) ++ dom) with
                 | Some host' => (true, host')
                 | None => (false, (if w then str "*." else []) ++ dom)
                 end = (w, dom)).
    { destruct w; [by rewrite strip_prefix_app|]. cbn [app].
      destruct (strip_prefix (str "*.") dom) as [rest|] eqn:E; [|done].
      apply strip_prefix_Some in E. exfalso. rewrite E in H0. cbn in H0.
      apply andb_prop in H0 as [H0 _]. by apply domain_char_black in H0 as [_ ?]. }
    rewrite Hs. assert (Hd : to_ascii_lowercase (trim_end_by is_dot dom) = dom).
    { unfold dom. by rewrite lower_trim_dots, to_ascii_lowercase_idem. }
    rewrite Hd, H0. by destruct dom.
  - rewrite app_assoc. by apply Hw.
Qed.

Lemma tool_char_black c : tool_char c = true -> is_whitespace c = false /\ c <> chr "(".
Proof.
  unfold tool_char. intros H. split.
  - destruct (domain_char c) eqn:E; [by apply domain_char_black|].
    unfold domain_char in E. apply orb_false_elim in E as [E1 E2]. rewrite E1 in H. cbn in H.
    assert (Hc : c = chr "*").
    { revert H E2. expand_sets. intros H E. bool_hyps; congruence. }
    by rewrite Hc.
  - intros ->. vm_compute in H. discriminate.
Qed.

Section WithGlobs.
Context {G : Globset} {P : Platform}.

(** * Splitting [Tool(specifier)] *)

Definition good_tool (tool : text) : Prop := tool <> [] /\ forallb tool_char tool = true.
Definition good_specifier (spec : option text) : Prop :=
  match spec with Some s => s <> [] /\ trimmed is_whitespace s | None => True end.

Lemma tool_no_paren tool : forallb tool_char tool = true -> ~ In (chr "(") tool.
Proof using. intros H Hin. apply (forallb_In _ _ _ H) in Hin. by apply tool_char_black in Hin as [_ ?]. Qed.

Lemma good_tool_trimmed tool : good_tool tool -> trimmed is_whitespace tool.
Proof using. intros [_ H]. eapply forallb_trimmed; [|exact H]. apply tool_char_black. Qed.

Lemma optional_trimmed tool spec :
  good_tool tool -> good_specifier spec -> trimmed is_whitespace (optional tool spec).
Proof using.
  intros Ht Hs. pose proof (good_tool_trimmed tool Ht) as Htr. destruct spec as [s|]; [|done].
  unfold optional. split; [apply clean_head_app; [apply Ht|apply Htr]|].
  rewrite !app_assoc, reverse_app. done.
Qed.

Lemma split_optional tool spec :
  good_tool tool -> good_specifier spec -> split (optional tool spec) = Ok (tool, spec).
Proof using.
  intros Ht Hs. pose proof (good_tool_trimmed tool Ht) as [_ Hend]. destruct Ht as [Hne Hc].
  pose proof (tool_no_paren tool Hc) as Hp. unfold split, optional. destruct spec as [s|].
  - destruct Hs as [Hs Htr]. cbn [app]. rewrite split_once_char_app by done.
    rewrite strip_suffix_app, trimmed_trim by done.
    destruct (is_empty s) eqn:E; [by destruct s|]. cbn [result_bind].
    unfold trim_end. rewrite trim_end_by_id, Hc by done. by destruct tool.
  - apply split_once_char_None in Hp. rewrite Hp. cbn [result_bind]. rewrite Hc. by destruct tool.
Qed.

Lemma split_good t tool spec :
  split t = Ok (tool, spec) ->
  good_tool tool /\ good_specifier spec /\ (spec = None -> t = tool).
Proof using.
  unfold split. rewrite result_bind_Ok. intros ([tool' spec'] & Hsplit & H).
  destruct (is_empty tool') eqn:Ee; [done|].
  destruct (forallb tool_char tool') eqn:Ec; [|done]. injection H as -> ->.
  split_and!; [split; [by intros ->|done]| |].
  - destruct (split_once _ t) as [[a rest]|].
    + destruct (strip_suffix _ rest) as [inner|]; [|done].
      destruct (is_empty (trim inner)) eqn:Ei; [done|]. injection Hsplit as _ <-.
      split; [by intros E; rewrite E in Ei|apply trim_trimmed].
    + by injection Hsplit as _ <-.
  - intros ->. destruct (split_once _ t) as [[a rest]|]; [|by injection Hsplit].
    destruct (strip_suffix _ rest) as [inner|]; [|done]. by destruct (is_empty (trim inner)).
Qed.

(** * Parsed targets *)

Lemma PathPattern_parse_source s pattern :
  PathPattern_parse s = Ok pattern ->
  source pattern = trim s /\ PathPattern_parse (source pattern) = Ok pattern.
Proof using.
  intros H. assert (Hs : source pattern = trim s).
  { revert H. unfold PathPattern_parse. case_if; [done|].
    rewrite result_bind_Ok. intros ([anchors_ rest] & _ & H).
    apply result_bind_Ok in H as (built & _ & H).
    by apply result_bind_Ok in H as (set & _ & [= <-]). }
  split; [done|]. rewrite Hs. unfold PathPattern_parse in *. by rewrite trim_idem.
Qed.

(** What [target_of] reads from a tool name and its specifier. *)
Inductive reads_target : text -> option text -> Target -> Prop :=
| reads_bash : reads_target (str "Bash") None (TBash None)
| reads_bash_spec s p :
    CommandPattern_parse s = Ok p -> reads_target (str "Bash") (Some s) (TBash p)
| reads_files scope :
    match scope with ScopeTool name => mem name FILE_TOOLS = true | _ => True end ->
    reads_target (scope_name scope) None (TFiles scope None)
| reads_files_spec scope s p :
    match scope with ScopeTool name => mem name FILE_TOOLS = true | _ => True end ->
    PathPattern_parse s = Ok p ->
    reads_target (scope_name scope) (Some s) (TFiles scope (Some p))
| reads_fetch : reads_target (str "WebFetch") None (TWebFetch None)
| reads_fetch_spec s d :
    DomainPattern_parse s = Ok d -> reads_target (str "WebFetch") (Some s) (TWebFetch (Some d))
| reads_search : reads_target (str "WebSearch") None TWebSearch
| reads_agent tool spec :
    In tool [str "Agent"; str "Task"] -> reads_target tool spec (TAgent spec)
| reads_skill spec : reads_target (str "Skill") spec (TSkill spec)
| reads_tool tool :
    (forall t, target_of t tool None = Ok (TTool tool)) -> reads_target tool None (TTool tool).

Lemma files_target_reads t scope spec target_ :
  match scope with ScopeTool name => mem name FILE_TOOLS = true | _ => True end ->
  files_target t scope spec = Ok target_ -> reads_target (scope_name scope) spec target_.
Proof using.
  intros Hs. unfold files_target. rewrite result_bind_Ok. intros (pattern & H & [= <-]).
  destruct spec as [s|]; cbn in H; [|injection H as <-; by constructor].
  destruct (PathPattern_parse s) as [p|e] eqn:E; [|done]. injection H as <-. by constructor.
Qed.

Lemma target_of_reads t tool spec target_ :
  target_of t tool spec = Ok target_ -> reads_target tool spec target_.
Proof using.
  unfold target_of at 1. intros H.
  destruct (contains_char (chr "*") tool) eqn:E0; [done|].
  destruct (teqb tool (str "Bash")) eqn:E1.
  { apply teqb_eq in E1 as ->. destruct spec as [s|]; [|injection H as <-; constructor].
    apply result_bind_Ok in H as (p & H & [= <-]). constructor.
    destruct (CommandPattern_parse s); [by injection H as ->|done]. }
  destruct (teqb tool (str "Read")) eqn:E2; [apply teqb_eq in E2 as ->; by apply (files_target_reads t ScopeRead)|].
  destruct (teqb tool (str "Edit")) eqn:E3; [apply teqb_eq in E3 as ->; by apply (files_target_reads t ScopeEdit)|].
  destruct (mem tool FILE_TOOLS) eqn:Em; [by apply (files_target_reads t (ScopeTool tool))|].
  destruct (teqb tool (str "WebFetch")) eqn:E4.
  { apply teqb_eq in E4 as ->. apply result_bind_Ok in H as (d & H & [= <-]).
    destruct spec as [s|]; cbn in H; [|injection H as <-; constructor].
    destruct (DomainPattern_parse s) eqn:Ed; [|done]. injection H as <-. by constructor. }
  destruct (teqb tool (str "WebSearch")) eqn:E5; cbn [andb] in H.
  { apply teqb_eq in E5 as ->. destruct spec as [s|]; [done|]. injection H as <-. constructor. }
  destruct (teqb tool (str "Agent") || _) eqn:E6.
  { injection H as <-. constructor. apply orb_prop in E6 as [->%teqb_eq| ->%teqb_eq]; cbn; auto. }
  destruct (teqb tool (str "Skill")) eqn:E7; [apply teqb_eq in E7 as ->; injection H as <-; constructor|].
  destruct spec as [s|]; [done|]. injection H as <-. constructor. intros t'.
  unfold target_of. by rewrite E0, E1, E2, E3, Em, E4, E5, E6, E7.
Qed.

(** The canonical tool name and specifier of a target. *)
Definition display_parts (t : Target) : text * option text :=
  match t with
  | TBash p => (str "Bash", CommandPattern_display <$> p)
  | TFiles s p => (scope_name s, source <$> p)
  | TWebFetch d => (str "WebFetch", DomainPattern_display <$> d)
  | TWebSearch => (str "WebSearch", None)
  | TAgent n => (str "Agent", n)
  | TSkill n => (str "Skill", n)
  | TMcp _ _ => (rule_display (mkRule t), None)
  | TTool n => (n, None)
  end.

Lemma rule_display_parts t :
  rule_display (mkRule t) = optional (fst (display_parts t)) (snd (display_parts t)).
Proof using. by destruct t. Qed.

Lemma files_target_scope t scope spec :
  match scope with ScopeTool name => mem name FILE_TOOLS = true | _ => True end ->
  target_of t (scope_name scope) spec = files_target t scope spec.
Proof using.
  destruct scope as [| |name]; [done|done|]. intros Hm. cbn [scope_name].
  apply mem_spec in Hm. unfold FILE_TOOLS in Hm.
  repeat destruct Hm as [<-|Hm]; done.
Qed.

(** Reading the canonical parts gives the target back. *)
Lemma reads_target_roundtrip t tool spec target_ :
  good_tool tool -> strip_prefix (str "mcp__") tool = None -> good_specifier spec ->
  reads_target tool spec target_ ->
  let '(tool', spec') := display_parts target_ in
  good_tool tool' /\ strip_prefix (str "mcp__") tool' = None /\ good_specifier spec'
  /\ target_of t tool' spec' = Ok target_.
Proof using.
  intros Ht Hm Hs H.
  destruct H as [|s [p|] Hp|scope Hsc|scope s p Hsc Hp| |s d Hd| |tool spec Hin|spec|tool Htool];
    cbn [display_parts fst snd fmap option_fmap option_map]; try done.
  - apply CommandPattern_roundtrip in Hp as (Hp & Htr & Hne). split_and!; [done|done|by split|].
    unfold target_of. cbn. by rewrite Hp.
  - split_and!; [done|done|done|]. by rewrite files_target_scope.
  - apply PathPattern_parse_source in Hp as [Hsrc Hp]. destruct Hs as [Hne Htr].
    rewrite trimmed_trim in Hsrc by done. split_and!; [done|done|by rewrite Hsrc|].
    rewrite files_target_scope by done. unfold files_target. cbn. by rewrite Hp.
  - apply DomainPattern_roundtrip in Hd as (Hd & Htr & Hne). split_and!; [done|done|by split|].
    unfold target_of. cbn. by rewrite Hd.
Qed.

Lemma mcp_display t rest target_ :
  mcp t rest = Ok target_ -> rule_display (mkRule target_) = str "mcp__" ++ rest.
Proof using.
  unfold mcp. rewrite result_bind_Ok. intros ([server tool] & Hs & H).
  destruct (_ || _); [done|]. injection H as <-.
  destruct (split_once (str "__") rest) as [[a b]|] eqn:E; [|by injection Hs as -> <-].
  apply split_once_app in E as ->.
  destruct (teqb b (str "*")) eqn:Eb; [apply teqb_eq in Eb as ->; by injection Hs as -> <-|].
  destruct (is_empty b); [done|]. destruct (contains_char _ b); [done|].
  by injection Hs as -> <-.
Qed.

Lemma rule_parse_roundtrip t r : rule_parse t = Ok r -> rule_parse (rule_display r) = Ok r.
Proof using.
  intros H. pose proof H as H0. unfold rule_parse in H.
  apply result_bind_Ok in H as ([tool spec] & Hsplit & H).
  apply result_bind_Ok in H as (target_ & Ht & [= <-]).
  pose proof (split_good _ _ _ Hsplit) as (Hg & Hspec & Hnone).
  destruct (strip_prefix (str "mcp__") tool) as [rest|] eqn:Em.
  - destruct spec; [done|]. rewrite (mcp_display _ _ _ Ht).
    apply strip_prefix_Some in Em as <-. rewrite <- (Hnone eq_refl).
    unfold rule_parse in *. by rewrite trim_idem.
  - apply target_of_reads in Ht.
    pose proof (reads_target_roundtrip (optional (fst (display_parts target_)) (snd (display_parts target_)))
                  tool spec target_ Hg Em Hspec Ht) as Hrt.
    rewrite rule_display_parts. destruct (display_parts target_) as [tool' spec'].
    cbn [fst snd] in *. destruct Hrt as (Hg' & Hm' & Hs' & Hok).
    unfold rule_parse. rewrite trimmed_trim by (by apply optional_trimmed).
    rewrite split_optional by done. cbn [result_bind]. rewrite Hm'. by rewrite Hok.
Qed.

(** The rule's path pattern is the one its own source parses to. *)
Definition parsed_target (t : Target) : Prop :=
  match t with
  | TFiles _ (Some pattern) => PathPattern_parse (source pattern) = Ok pattern
  | _ => True
  end.

Lemma rule_parse_parsed t r : rule_parse t = Ok r -> parsed_target (rule_target r).
Proof using.
  intros H. unfold rule_parse in H.
  apply result_bind_Ok in H as ([tool spec] & Hsplit & H).
  apply result_bind_Ok in H as (target_ & Ht & [= <-]). cbn [rule_target].
  destruct (strip_prefix (str "mcp__") tool) as [rest|] eqn:Em.
  - destruct spec; [done|]. unfold mcp in Ht.
    apply result_bind_Ok in Ht as ([server called] & _ & Ht).
    destruct (_ || _); [done|]. by injection Ht as <-.
  - apply target_of_reads in Ht. destruct Ht as [| | |scope s p Hsc Hp| | | | | |]; try done.
    by apply PathPattern_parse_source in Hp as [_ Hp].
Qed.

(** The equality of rules, which compares path patterns by source, is
    equality on parsed rules. *)
Lemma parsed_rule_eqb a b :
  parsed_target (rule_target a) -> parsed_target (rule_target b) -> rule_eqb a b = true -> a = b.
Proof using.
  destruct a as [a], b as [b]. unfold rule_eqb. cbn [rule_target]. intros Ha Hb H. f_equal.
  destruct a as [p|s p|d| |n|n|sv tl|n], b as [q|s' q|d'| |n'|n'|sv' tl'|n']; cbn in H; try done;
    bool_hyps; repeat match goal with H : bool_decide _ = true |- _ => apply bool_decide_eq_true in H end;
    subst; try done.
  destruct p as [p|], q as [q|]; try done. cbn in *. apply teqb_eq in H0. congruence.
Qed.

Lemma rule_eqb_refl r : rule_eqb r r = true.
Proof using.
  destruct r as [[p|s [p|]|d| |n|n|sv tl|n]]; unfold rule_eqb; cbn;
    rewrite ?bool_decide_true by done; try done. apply teqb_refl.
Qed.

(** * Properties *)

(** The canonical text of a rule reads back as the rule.  Whatever
    spelling a rule was parsed from, printing it and parsing the text gives
    exactly the same rule, its compiled path pattern included. *)
Theorem rule_display_parses (t : text) (r : Rule) :
  rule_parse t = Ok r -> rule_parse (rule_display r) = Ok r.
Proof using. apply rule_parse_roundtrip. Qed.
End WithGlobs.

Lemma rule_display_parses_witness :
  let parse := @rule_parse simple_globset linux in
  let show := @rule_display simple_globset in
  match parse (str "  Task ( explore )"), parse (str "Bash(cargo test *)") with
  | Ok r, Ok r' =>
      show r = str "Agent(explore)" /\ show r' = str "Bash(cargo test:*)"
      /\ parse (show r) = Ok r /\ parse (show r') = Ok r'
  | _, _ => False
  end.
Proof.
  cbv zeta. destruct (@rule_parse simple_globset linux (str "  Task ( explore )")) as [r|] eqn:E;
    [|vm_compute in E; discriminate].
  destruct (@rule_parse simple_globset linux (str "Bash(cargo test *)")) as [r'|] eqn:E';
    [|vm_compute in E'; discriminate].
  split; [vm_compute in E; injection E as <-; vm_compute; reflexivity|].
  split; [vm_compute in E'; injection E' as <-; vm_compute; reflexivity|].
  split; [exact (@rule_display_parses simple_globset linux _ r E)
         |exact (@rule_display_parses simple_globset linux _ r' E')].
Defined.
