(* ===== verification/Engine.v ===== *)
(** Actions, what a rule says of them, and the policy itself ([action.rs], [rules/matching.rs], [engine.rs]). *)

From S2P Require Export Rule ReadOnly.

Inductive Action :=
| ARead (paths : list path)
| AWrite (paths : list path)
| AExecute (command_ : text)
| AFetch (url : text)
| ASearch
| AAgent (agent_type : text)
| AMcp (server tool : text) (read_only_ : bool)
| ASkill (name : text)
| AOther (read_only_ : bool).

(** Changes state, so plan mode refuses it. *)
Definition mutates (a : Action) : bool :=
  match a with
  | AWrite _ => true
  | AExecute command_ => negb (ReadOnly.is_read_only command_)
  | AMcp _ _ r | AOther r => negb r
  | ARead _ | AFetch _ | ASearch | AAgent _ | ASkill _ => false
  end.

(** * [permission.rs] *)

Inductive PermissionMode := MDefault | MAcceptEdits | MPlan | MBypass.

#[export] Instance PermissionMode_eq_dec : EqDecision PermissionMode.
Proof. solve_decision. Defined.

Definition mode_label (m : PermissionMode) : text :=
  match m with
  | MDefault => str "default"
  | MAcceptEdits => str "acceptEdits"
  | MPlan => str "plan"
  | MBypass => str "bypass"
  end.

Definition mode_parse (value : text) : option PermissionMode :=
  let v := trim value in
  if mem v [str "default"; str "normal"; str "ask"] then Some MDefault
  else if mem v [str "acceptEdits"; str "accept_edits"; str "accept-edits"; str "auto-accept edits"]
  then Some MAcceptEdits
  else if mem v [str "plan"; str "readOnly"; str "read-only"] then Some MPlan
  else if mem v [str "bypass"; str "bypassPermissions"] then Some MBypass
  else None.

Inductive ApprovalDecision :=
| AllowOnce
| AllowSession (rule : text)
| AllowProject (rule : text)
| DenyWith (feedback : option text).

Definition approval_allows (d : ApprovalDecision) : bool :=
  match d with DenyWith _ => false | _ => true end.

(** * [rules/matching.rs] *)

(** [(server, tool)] of an MCP call. *)
Definition mcp_identity (tool : text) (a : Action) : option (text * text) :=
  match a with
  | AMcp server called _ => Some (server, called)
  | _ => strip_prefix (str "mcp__") tool ≫= split_once (str "__")
  end.

Section WithGlobs.
Context {G : Globset} {P : Platform}.

(** A bare rule naming exactly this tool. *)
Definition names_tool (r : Rule) (tool : text) : bool :=
  match rule_target r with
  | TTool name => teqb name tool
  | TFiles (ScopeTool name) None => teqb name tool
  | TSkill None => teqb tool (str "Skill")
  | _ => false
  end.

(** [None] when the rule does not govern the read or write action,
    [Some None] for a rule without a path pattern. *)
Definition path_scope (r : Rule) (tool : text) (a : Action) : option (option PathPattern) :=
  let reads_ := match a with ARead _ => true | _ => false end in
  let writes_ := match a with AWrite _ => true | _ => false end in
  match rule_target r with
  | TFiles scope pattern =>
      let governs :=
        match scope with
        | ScopeRead => reads_
        | ScopeEdit => writes_
        | ScopeTool name => teqb name tool && (reads_ || writes_)
        end in
      if governs then Some pattern else None
  | TTool name => if teqb name tool && (reads_ || writes_) then Some None else None
  | _ => None
  end.

Definition command_pattern (r : Rule) : option (option CommandPattern) :=
  match rule_target r with TBash pattern => Some pattern | _ => None end.

(** The path pattern of a group rule, which also applies to files named by
    shell commands. *)
Definition operand_pattern (r : Rule) (writes_ : bool) : option PathPattern :=
  match rule_target r with
  | TFiles ScopeRead (Some pattern) => if writes_ then None else Some pattern
  | TFiles ScopeEdit (Some pattern) => if writes_ then Some pattern else None
  | _ => None
  end.

(** Match for actions without paths or commands. *)
Definition matches_call (r : Rule) (tool : text) (a : Action) : bool :=
  if names_tool r tool then true
  else
    match rule_target r, a with
    | TWebFetch None, AFetch _ | TWebSearch, ASearch | TAgent None, AAgent _
    | TSkill None, ASkill _ => true
    | TWebFetch (Some d), AFetch url =>
        match url_host url with Some host => matches_host d host | None => false end
    | TAgent (Some name), AAgent agent_type => eq_ignore_ascii_case name agent_type
    | TSkill (Some name), ASkill skill => eq_ignore_ascii_case name skill
    | TMcp server pattern, _ =>
        match mcp_identity tool a with
        | None => false
        | Some (called_server, called_tool) =>
            eq_ignore_ascii_case server called_server
            && match pattern with
               | McpAll _ => true
               | McpNamed name => eq_ignore_ascii_case name called_tool
               end
        end
    | _, _ => false
    end.
End WithGlobs.

Record PolicyConfig := mkPolicyConfig {
  config_allow : list text;
  config_ask : list text;
  config_deny : list text;
  config_auto_allow_read_only_bash : bool;
  config_sandbox_auto_allow : bool
}.

Definition default_config : PolicyConfig := mkPolicyConfig [] [] [] true false.

Inductive Decision :=
| Allow (reason_ : text)
| Ask (reason_ : text) (suggested_rule : option text) (can_persist : bool)
| Deny (reason_ : text).

Definition reason (d : Decision) : text :=
  match d with Allow r | Ask r _ _ | Deny r => r end.

Definition normalize_context (ctx : PolicyContext) : PolicyContext :=
  mkPolicyContext (normalize (project_root ctx)) (map normalize (additional_dirs ctx))
    (normalize <$> home ctx).

Section WithGlobs.
Context {G : Globset} {P : Platform}.

Record Policy := mkPolicy {
  policy_ctx : PolicyContext;
  policy_allow : list Rule;
  policy_ask : list Rule;
  policy_deny : list Rule;
  session : list Rule;
  auto_allow_read_only_bash : bool;
  sandbox_auto_allow : bool
}.

Definition contains_rule (rules_ : list Rule) (r : Rule) : bool :=
  existsb (fun x => rule_eqb x r) rules_.

(** The [parse] closure of [Policy::new]: the rules read so far and the
    errors. *)
Definition parse_step (acc : list Rule * list PolicyError) (t : text)
  : list Rule * list PolicyError :=
  let '(rules_, errors) := acc in
  match rule_parse t with
  | Ok r => if negb (contains_rule rules_ r) then (rules_ ++ [r], errors) else (rules_, errors)
  | Err e => (rules_, errors ++ [e])
  end.
Definition parse_rules (texts : list text) (errors : list PolicyError)
  : list Rule * list PolicyError :=
  foldl parse_step ([], errors) texts.

Definition new (config : PolicyConfig) (ctx : PolicyContext) : Policy * list PolicyError :=
  let '(allow, errors1) := parse_rules (config_allow config) [] in
  let '(ask, errors2) := parse_rules (config_ask config) errors1 in
  let '(deny, errors3) := parse_rules (config_deny config) errors2 in
  (mkPolicy (normalize_context ctx) allow ask deny []
     (config_auto_allow_read_only_bash config) (config_sandbox_auto_allow config),
   errors3).

Definition set_session (rules_ : list Rule) (p : Policy) : Policy :=
  mkPolicy (policy_ctx p) (policy_allow p) (policy_ask p) (policy_deny p) rules_
    (auto_allow_read_only_bash p) (sandbox_auto_allow p).

(** Grants an allow rule for the rest of the session. *)
Definition add_session_rule (p : Policy) (t : text) : result PolicyError Policy :=
  let? r := rule_parse t in
  Ok (if negb (contains_rule (session p) r) then set_session (session p ++ [r]) p else p).

Definition session_rules (p : Policy) : list text := map rule_display (session p).

Definition rules (p : Policy) (kind_ : RuleKind) : list text :=
  map rule_display
    match kind_ with
    | KAllow => policy_allow p
    | KAsk => policy_ask p
    | KDeny => policy_deny p
    end.

Definition roots (p : Policy) : list path :=
  project_root (policy_ctx p) :: additional_dirs (policy_ctx p).

Definition is_inside_allowed (p : Policy) (p0 : path) : bool :=
  let q := resolve (project_root (policy_ctx p)) p0 in
  existsb (fun root => path_starts_with q root) (roots p).

(** Configured and session allow rules. *)
Definition allow_rules (p : Policy) : list Rule := policy_allow p ++ session p.

Definition policy_is_protected (p : Policy) (q : path) : bool := is_protected q (roots p).
End WithGlobs.
