(* ===== verification/DomainFacts.v ===== *)
(** Which host a URL names and which domain rules match it. *)

From S2P Require Export RuleFacts Engine.

Local Open Scope N_scope.

(** * Splitting *)

Lemma split_once_fresh c sep a b :
  ~ In c a -> split_once (c :: sep) (a ++ (c :: sep) ++ b) = Some (a, b).
Proof.
  intros Hn. induction a as [|x a IH].
  - cbn [app]. pose proof (strip_prefix_app (c :: sep) b) as E. cbn [app] in E.
    unfold split_once. by rewrite E.
  - cbn [app split_once]. replace (strip_prefix (c :: sep) _) with (@None (list N)).
    + cbn [app] in IH. rewrite IH; [done|]. intros ?. apply Hn. by right.
    + cbn [strip_prefix]. destruct (N.eqb_spec c x) as [->|]; [|done].
      exfalso. apply Hn. by left.
Qed.

Lemma take_while_stop p (a : text) c b :
  forallb p a = true -> p c = false -> take_while p (a ++ c :: b) = a.
Proof.
  induction a as [|x a IH]; cbn; [by intros _ ->|]. intros [-> H]%andb_prop Hc. by rewrite IH.
Qed.

Lemma forallb_negb_eqb c (t : text) : ~ In c t -> forallb (fun x => negb (x =? c)) t = true.
Proof.
  intros Hn. apply forallb_forall. intros x Hx. apply negb_true_iff, N.eqb_neq. by intros ->.
Qed.

Lemma after_last_app c a b : ~ In c b -> after_last c (a ++ c :: b) = b.
Proof.
  intros Hn. unfold after_last. rewrite reverse_app, reverse_cons, <- app_assoc. cbn [app].
  rewrite take_while_stop; [apply reverse_involutive| |by rewrite N.eqb_refl].
  rewrite forallb_reverse. by apply forallb_negb_eqb.
Qed.

Lemma before_first_app c a b : ~ In c a -> before_first c (a ++ c :: b) = a.
Proof.
  intros Hn. unfold before_first. apply take_while_stop; [by apply forallb_negb_eqb|].
  by rewrite N.eqb_refl.
Qed.

(** * Decoding plain hosts *)

Lemma domain_char_ascii c : domain_char c = true -> c < 128 /\ c <> chr "%".
Proof.
  unfold domain_char, is_ascii_alphanumeric, is_ascii_alphabetic, is_ascii_upper, is_ascii_lower,
    is_ascii_digit, in_range. expand_sets. intros H.
  assert (Hc : c < 128 /\ c <> 37); [|done].
  repeat match goal with
  | H : (_ || _)%bool = true |- _ => apply orb_prop in H as [?|?]
  | H : (_ && _)%bool = true |- _ => apply andb_prop in H as [? ?]
  | H : (_ <=? _) = true |- _ => apply N.leb_le in H
  | H : (_ =? _) = true |- _ => apply N.eqb_eq in H
  end; try done; lia.
Qed.

Lemma percent_decode_plain t : forallb domain_char t = true -> percent_decode t = t.
Proof.
  unfold percent_decode, as_bytes. intros H.
  assert (Hb : flat_map utf8_encode t = t).
  { induction t as [|c t IH]; [done|]. cbn in H |- *. apply andb_prop in H as [Hc H].
    apply domain_char_ascii in Hc as [Hc _]. unfold utf8_encode at 1.
    apply N.ltb_lt in Hc as ->. cbn. by rewrite IH. }
  rewrite Hb. clear Hb.
  assert (Hp : percent_bytes t = t).
  { induction t as [|c t IH]; [done|]. cbn [percent_bytes forallb] in *. apply andb_prop in H as [Hc H].
    apply domain_char_ascii in Hc as [_ Hc]. apply N.eqb_neq in Hc as ->. by rewrite IH. }
  rewrite Hp. clear Hp.
  induction t as [|c t IH]; [done|]. cbn [from_utf8_lossy forallb] in *. apply andb_prop in H as [Hc H].
  apply domain_char_ascii in Hc as [Hc _]. apply N.ltb_lt in Hc as ->. by rewrite IH.
Qed.

Lemma scheme_no_colon scheme : is_scheme scheme = true -> ~ In (chr ":") scheme.
Proof.
  unfold is_scheme. intros [_ H]%andb_prop Hin. apply (forallb_In _ _ _ H) in Hin.
  vm_compute in Hin. discriminate.
Qed.

Lemma scheme_head scheme rest :
  is_scheme scheme = true -> clean_head is_whitespace (scheme ++ rest).
Proof.
  unfold is_scheme. destruct scheme as [|c s]; [done|]. intros [Hc _]%andb_prop. cbn.
  apply domain_char_black. unfold domain_char, is_ascii_alphanumeric. by rewrite Hc.
Qed.

(** A user or password part, which may hold anything that does not end the
    authority. *)
Definition authority_char (c : char) : bool := negb (one_of "/\?#" c).

Lemma domain_char_not c x : domain_char c = true -> domain_char x = false -> c <> x.
Proof. intros H1 H2 ->. congruence. Qed.

Lemma domain_chars_no x t : domain_char x = false -> forallb domain_char t = true -> ~ In x t.
Proof. intros Hx Ht Hin. apply (forallb_In _ _ _ Ht) in Hin. congruence. Qed.

Lemma one_of_excl s c x : one_of s x = true -> one_of s c = false -> c <> x.
Proof. intros H1 H2 ->. congruence. Qed.

Lemma domain_char_authority c : domain_char c = true -> authority_char c = true.
Proof.
  intros H. unfold authority_char. apply negb_true_iff. expand_sets.
  rewrite !orb_false_iff. split_and!; try done; apply N.eqb_neq;
    (eapply domain_char_not; [exact H|by vm_compute]).
Qed.

(** The host of a URL with all of its other parts. *)
Lemma url_host_parts scheme user host port rest :
  is_scheme scheme = true -> eq_ignore_ascii_case scheme (str "file") = false ->
  forallb authority_char user = true ->
  forallb domain_char host = true -> host <> [] -> clean_head is_dot (reverse host) ->
  forallb is_ascii_digit port = true ->
  clean_head is_whitespace (reverse rest) ->
  url_host (scheme ++ str "://" ++ user ++ [chr "@"] ++ host ++ [chr ":"] ++ port ++ [chr "/"] ++ rest)
  = Some (to_ascii_lowercase host).
Proof.
  intros Hs Hf Hu Hh Hne Hd Hp Hr. unfold url_host.
  set (auth := user ++ chr "@" :: host ++ chr ":" :: port).
  set (url := scheme ++ str "://" ++ _).
  assert (Eurl : url = scheme ++ str "://" ++ (auth ++ chr "/" :: rest)).
  { unfold url, auth. rewrite <- (app_assoc user). cbn [app]. by rewrite <- (app_assoc host). }
  assert (Etrim : trim url = url).
  { apply trimmed_trim. split; [by apply scheme_head|].
    rewrite Eurl, !app_assoc. rewrite reverse_app, reverse_cons.
    destruct (reverse rest) as [|c r]; [done|exact Hr]. }
  assert (Hdom : forall c, domain_char c = true -> negb (one_of "/\?#" c) = true)
    by apply domain_char_authority.
  assert (Hdig : forall c, is_ascii_digit c = true -> domain_char c = true).
  { intros c Hc. unfold domain_char, is_ascii_alphanumeric. by rewrite Hc, orb_true_r. }
  assert (Hpd : forallb domain_char port = true) by (by eapply forallb_imp).
  assert (Hauth : forallb (fun c => negb (one_of "/\?#" c)) auth = true).
  { unfold auth. rewrite forallb_app. cbn [forallb]. rewrite forallb_app. cbn [forallb].
    unfold authority_char in Hu. rewrite Hu. rewrite (forallb_imp _ _ host Hdom Hh).
    rewrite (forallb_imp _ _ port Hdom Hpd). by vm_compute. }
  rewrite Etrim, Eurl. unfold after_scheme.
  change (str "://") with (chr ":" :: str "//").
  rewrite (split_once_fresh (chr ":") (str "//") scheme) by (by apply scheme_no_colon).
  rewrite Hf, Hs.
  assert (Estart : trim_start_by (one_of "/\") (auth ++ chr "/" :: rest) = auth ++ chr "/" :: rest).
  { apply drop_while_id. unfold auth in *. destruct user as [|c user]; [by vm_compute|].
    cbn in Hauth |- *. apply andb_prop in Hauth as [Hc _]. apply negb_true_iff in Hc.
    revert Hc. expand_sets. intros Hc. bool_hyps.
    rewrite !orb_false_iff. split_and!; try done; by apply N.eqb_neq. }
  rewrite Estart, take_while_stop by (done || by vm_compute).
  unfold auth. rewrite after_last_app.
  2: { intros [Hin|[Hin|Hin]]%in_app_iff; [|done|].
       - by apply (domain_chars_no (chr "@") host) in Hin.
       - by apply (domain_chars_no (chr "@") port) in Hin. }
  assert (Hbr : strip_prefix [chr "["] (host ++ chr ":" :: port) = None).
  { destruct host as [|c host]; [done|]. cbn [app strip_prefix].
    destruct (N.eqb_spec (chr "[") c) as [<-|_]; [|done]. cbn in Hh. by apply andb_prop in Hh as [? _]. }
  rewrite Hbr, before_first_app by (by apply domain_chars_no).
  rewrite percent_decode_plain by done.
  assert (Hl : trim_end_by is_dot (to_ascii_lowercase host) = to_ascii_lowercase host).
  { rewrite <- (trim_end_by_id is_dot host) by done. apply lower_trim_dots. }
  rewrite Hl. by destruct host.
Qed.

Lemma matches_host_spec d host :
  matches_host d host = true <-> host = domain d \/ exists sub, host = sub ++ [chr "."] ++ domain d.
Proof.
  unfold matches_host. rewrite orb_true_iff, teqb_eq. split.
  - intros [->|H]; [by left|]. right. destruct (strip_suffix (domain d) host) as [r|] eqn:E; [|done].
    apply strip_suffix_Some in E as ->. apply ends_with_spec in H as (sub & ->).
    exists sub. by rewrite <- app_assoc.
  - intros [->|(sub & ->)]; [by left|]. right. rewrite app_assoc, strip_suffix_app.
    apply ends_with_spec. by exists sub.
Qed.

(** * Properties *)

Section WithGlobs.
Context {G : Globset} {P : Platform}.

(** A domain rule matches exactly its domain and the subdomains of it;
    a host that merely ends in the same letters is not matched. *)
Theorem domain_matches_subdomains (d : DomainPattern) (host : text) :
  matches_host d host = true <->
  host = domain d \/ exists sub, host = sub ++ [chr "."] ++ domain d.
Proof using. apply matches_host_spec. Qed.

(** The user name, password, port and path of a URL have no influence
    on which domain rule governs a fetch.  For any scheme but [file:], any
    user part (even one that looks like a host), port and path, a
    [WebFetch(domain:..)] rule matches exactly when the lower-cased host is
    the rule's domain or a subdomain of it. *)
Theorem fetch_rule_host (d : DomainPattern) (tool scheme user host port rest : text) :
  is_scheme scheme = true -> eq_ignore_ascii_case scheme (str "file") = false ->
  forallb authority_char user = true ->
  forallb domain_char host = true -> host <> [] -> clean_head is_dot (reverse host) ->
  forallb is_ascii_digit port = true -> clean_head is_whitespace (reverse rest) ->
  let url := scheme ++ str "://" ++ user ++ [chr "@"] ++ host ++ [chr ":"] ++ port ++ [chr "/"] ++ rest in
  matches_call (mkRule (TWebFetch (Some d))) tool (AFetch url) = true <->
  to_ascii_lowercase host = domain d
  \/ exists sub, to_ascii_lowercase host = sub ++ [chr "."] ++ domain d.
Proof using.
  intros Hs Hf Hu Hh Hne Hd Hp Hr. cbv zeta. unfold matches_call. cbn [names_tool rule_target].
  rewrite (url_host_parts scheme user host port rest) by done.
  apply matches_host_spec.
Qed.
End WithGlobs.

Lemma fetch_rule_host_witness :
  @matches_call simple_globset (mkRule (TWebFetch (Some (mkDomainPattern (str "example.com") true))))
    (str "WebFetch")
    (AFetch (str "https" ++ str "://" ++ str "evil.org:pw" ++ [chr "@"] ++ str "API.Example.com"
             ++ [chr ":"] ++ str "8443" ++ [chr "/"] ++ str "evil.org?x")) = true.
Proof.
  apply (@fetch_rule_host simple_globset (mkDomainPattern (str "example.com") true) (str "WebFetch")
           (str "https") (str "evil.org:pw") (str "API.Example.com") (str "8443") (str "evil.org?x"));
    try (vm_compute; reflexivity); [discriminate|].
  right. exists (str "api"). vm_compute. reflexivity.
Defined.
