(* ===== verification/DecideFiles.v ===== *)
(** Read and Write actions: per-path rules and location defaults ([decide/files.rs]), where targets point,
    what an allowing rule covers, and that more session rules never take an answer back. *)

From S2P Require Export Engine.

Section WithGlobs.
Context {G : Globset} {P : Platform}.

(** Normalized targets; a read without paths reads the project root. *)
Definition targets (p : Policy) (a : Action) (paths : list path) : list path :=
  let root := project_root (policy_ctx p) in
  match paths, a with
  | [], ARead _ => [root]
  | _, _ => map (resolve root) paths
  end.

(** Deny and ask semantics. *)
Definition restricts (p : Policy) (r : Rule) (tool : text) (a : Action) (paths : list path) : bool :=
  match path_scope r tool a with
  | None => false
  | Some None => true
  | Some (Some pattern) =>
      existsb (fun q => PathPattern_matches pattern q (policy_ctx p)) (targets p a paths)
  end.

Definition covers_path (p : Policy) (tool : text) (a : Action) (q : path) (r : Rule) : bool :=
  match path_scope r tool a with
  | None => false
  | Some None => is_inside_allowed p q
  | Some (Some pattern) => PathPattern_matches pattern q (policy_ctx p)
  end.

(** The loop over the targets; [first] is the first rule that covered one. *)
Fixpoint allowing_loop (p : Policy) (tool : text) (a : Action) (ts : list path)
    (first : option Rule) : option Rule :=
  match ts with
  | [] => first
  | q :: rest =>
      let writes_ := match a with AWrite _ => true | _ => false end in
      if writes_ && is_inside_allowed p q && policy_is_protected p q then None
      else
        match List.find (covers_path p tool a q) (allow_rules p) with
        | None => None
        | Some r =>
            allowing_loop p tool a rest (match first with Some f => Some f | None => Some r end)
        end
  end.
Definition allowing_rule (p : Policy) (tool : text) (a : Action) (ts : list path) : option Rule :=
  allowing_loop p tool a ts None.

Definition slashed (q : path) : text := replace_char (chr "\") (str "/") (display q).

(** The rule in canonical form when it parses. *)
Definition canonical_rule (t : text) : option text := rule_display <$> result_ok (rule_parse t).

(** [Read(//abs/path)] or [Read(~/path)] for exactly this path. *)
Definition exact_rule (p : Policy) (tool : text) (q : path) : option text :=
  let under_home :=
    match home (policy_ctx p) with
    | Some h => match path_strip_prefix h q with
                | Some (c :: rest) => Some (c :: rest)
                | _ => None
                end
    | None => None
    end in
  let spec :=
    match under_home with
    | Some rest => str "~/" ++ slashed rest
    | None => str "//" ++ trim_start_by is_slash (slashed q)
    end in
  canonical_rule (tool ++ [chr "("] ++ glob_escape spec ++ [chr ")"]).

(** A path shown relative to the project root when inside it. *)
Definition shown (p : Policy) (q : path) : text :=
  display (match path_strip_prefix (project_root (policy_ctx p)) q with
           | Some rest => rest
           | None => q
           end).

Definition describe (p : Policy) (ts : list path) : text :=
  match ts with
  | [] => str "nothing"
  | [only] => shown p only
  | first :: rest => shown p first ++ str " and " ++ show_N (N.of_nat (length rest)) ++ str " more"
  end.

Definition decide (p : Policy) (tool : text) (a : Action) (paths : list path)
    (mode : PermissionMode) : Engine.Decision :=
  let ts := targets p a paths in
  match allowing_rule p tool a ts with
  | Some r => Allow (str "allowed by rule " ++ rule_display r)
  | None =>
      let outside := List.find (fun q => negb (is_inside_allowed p q)) ts in
      match a with
      | ARead _ =>
          match outside with
          | None => Allow (str "reads inside the project")
          | Some q => Ask (str "reads outside the project: " ++ display q)
                        (exact_rule p (str "Read") q) false
          end
      | _ =>
          if is_empty ts then Ask (str "the files to edit are unknown") None false
          else
            match outside, List.find (policy_is_protected p) ts with
            | Some q, _ => Ask (str "writes outside the project: " ++ display q)
                             (exact_rule p (str "Edit") q) false
            | None, Some q => Ask (str "edits a protected path: " ++ shown p q) None false
            | None, None =>
                if bool_decide (mode = MAcceptEdits) then
                  Allow (str "acceptEdits mode allows edits inside the project")
                else Ask (str "edits " ++ describe p ts) (Some (str "Edit")) true
            end
      end
  end.

(** Any path outside the allowed directories. *)
Definition touches_outside (p : Policy) (a : Action) : bool :=
  match a with
  | ARead paths | AWrite paths =>
      existsb (fun q => negb (is_inside_allowed p q)) (targets p a paths)
  | _ => false
  end.
End WithGlobs.

(** * Targets *)

(** The session runs in an absolute directory, as [PolicyContext] asks. *)
Definition absolute_root (ctx : PolicyContext) : Prop :=
  wf_path (project_root ctx) /\ is_absolute (project_root ctx) = true.

Lemma resolve_canonical root q :
  wf_path root -> is_absolute root = true -> wf_path q ->
  canonical (resolve root q) /\ is_absolute (resolve root q) = true.
Proof.
  intros Hr Ha Hq. unfold resolve. destruct (is_absolute q) eqn:E.
  - split; [by apply normalize_canonical|by apply is_absolute_normalize].
  - rewrite normalize_join by done. split.
    + apply foldl_canonical; [by apply normalize_canonical|by apply relative_tail_wf].
    + destruct (normalize_absolute root) as (ns & ->); [done..|].
      destruct (foldl_absolute ns (relative_tail q)) as (ms & ->); [by apply relative_tail_wf|done].
Qed.

(** Resolving a resolved path changes nothing. *)
Lemma resolve_resolved root q : canonical q -> is_absolute q = true -> resolve root q = q.
Proof. intros Hc Ha. unfold resolve. rewrite Ha. by apply canonical_fixpoint. Qed.

Section WithGlobs.
Context {G : Globset} {P : Platform}.

Lemma targets_resolved p a paths :
  absolute_root (policy_ctx p) -> project_root (policy_ctx p) = normalize (project_root (policy_ctx p)) ->
  Forall wf_path paths ->
  Forall (fun q => canonical q /\ is_absolute q = true) (targets p a paths).
Proof using.
  intros [Hw Ha] Hn Hp. unfold targets.
  assert (Hm : Forall (fun q => canonical q /\ is_absolute q = true)
                 (map (resolve (project_root (policy_ctx p))) paths)).
  { apply Forall_map. eapply Forall_impl; [exact Hp|]. intros q Hq. by apply resolve_canonical. }
  destruct paths, a; try done. constructor; [|done].
  rewrite Hn. split; [by apply normalize_canonical|by apply is_absolute_normalize].
Qed.

Lemma is_inside_resolved p q :
  canonical q -> is_absolute q = true ->
  is_inside_allowed p q = existsb (path_starts_with q) (roots p).
Proof using. intros Hc Ha. unfold is_inside_allowed. by rewrite resolve_resolved. Qed.

(** A protected path lies inside an allowed directory. *)
Lemma protected_inside p q :
  canonical q -> is_absolute q = true ->
  policy_is_protected p q = true -> is_inside_allowed p q = true.
Proof using.
  intros Hc Ha. rewrite is_inside_resolved by done. unfold policy_is_protected, is_protected.
  rewrite !existsb_exists. intros (rest & Hin & _).
  apply list_elem_of_In, list_elem_of_omap in Hin as (root & Hroot & E).
  exists root. split; [by apply list_elem_of_In|].
  apply path_starts_with_spec. exists rest. by apply path_strip_prefix_Some.
Qed.

(** * Allowing rules *)

(** A path a file rule allows to write: not protected, and inside the
    allowed directories or named by the rule's own pattern. *)
Definition write_covered (p : Policy) (tool : text) (a : Action) (q : path) : Prop :=
  (is_inside_allowed p q && policy_is_protected p q = false)
  /\ exists r, In r (allow_rules p) /\ covers_path p tool a q r = true.

Lemma allowing_loop_covers p tool paths ts first r :
  allowing_loop p tool (AWrite paths) ts first = Some r ->
  Forall (write_covered p tool (AWrite paths)) ts.
Proof using.
  revert first. induction ts as [|q ts IH]; intros first; cbn [allowing_loop]; [constructor|].
  destruct (true && is_inside_allowed p q && policy_is_protected p q) eqn:Ep; [done|].
  destruct (List.find _ _) as [r'|] eqn:Ef; [|done].
  intros H. constructor; [|by eapply IH].
  apply find_some in Ef as [Hin Hc]. split; [exact Ep|]. by exists r'.
Qed.

(** * Session rules only add *)

Definition is_allow (d : Engine.Decision) : bool := match d with Allow _ => true | _ => false end.
Definition is_deny (d : Engine.Decision) : bool := match d with Deny _ => true | _ => false end.

(** The policy after [extra] was granted during the session. *)
Definition granted (extra : list Rule) (p : Policy) : Policy := set_session (session p ++ extra) p.

Lemma allow_rules_granted extra p : allow_rules (granted extra p) = allow_rules p ++ extra.
Proof using. unfold allow_rules, granted. cbn. by rewrite app_assoc. Qed.

Lemma find_granted f extra p :
  is_Some (List.find f (allow_rules p)) -> is_Some (List.find f (allow_rules (granted extra p))).
Proof using. rewrite allow_rules_granted. apply find_app_is_Some. Qed.

Lemma allowing_loop_granted extra p tool a ts first first' :
  (is_Some first -> is_Some first') ->
  is_Some (allowing_loop p tool a ts first) ->
  is_Some (allowing_loop (granted extra p) tool a ts first').
Proof using.
  revert first first'. induction ts as [|q ts IH]; intros first first' Hf; cbn [allowing_loop]; [done|].
  change (is_inside_allowed (granted extra p) q) with (is_inside_allowed p q).
  change (policy_is_protected (granted extra p) q) with (policy_is_protected p q).
  change (covers_path (granted extra p) tool a q) with (covers_path p tool a q).
  destruct (_ && _ && _); [done|].
  destruct (List.find _ (allow_rules p)) as [r|] eqn:E; [|by intros [? ?]].
  destruct (find_granted (covers_path p tool a q) extra p) as [r' ->]; [by rewrite E|].
  apply IH. intros _. destruct first'; eauto.
Qed.

Lemma decide_files_granted extra p tool a paths mode :
  is_allow (decide p tool a paths mode) = true ->
  is_allow (decide (granted extra p) tool a paths mode) = true.
Proof using.
  unfold decide, allowing_rule.
  change (targets (granted extra p) a paths) with (targets p a paths).
  pose proof (allowing_loop_granted extra p tool a (targets p a paths) None None) as H.
  destruct (allowing_loop (granted extra p) _ _ _ _); [done|].
  destruct (allowing_loop p _ _ _ _); [|done].
  destruct H as [? ?]; [done|eauto|done].
Qed.

Lemma decide_files_never_denies p tool a paths mode : is_deny (decide p tool a paths mode) = false.
Proof using.
  unfold decide. destruct (allowing_rule _ _ _ _); [done|].
  destruct a; repeat (case_match; try done).
Qed.

(** ** What an allowed write guarantees *)

Lemma find_negb_None {A} (f : A -> bool) l :
  List.find (fun x => negb (f x)) l = None -> Forall (fun x => f x = true) l.
Proof using.
  intros H. apply List.Forall_forall. intros x Hx.
  apply (find_none _ _ H) in Hx. by apply negb_false_iff in Hx.
Qed.

Lemma find_None_false {A} (f : A -> bool) l :
  List.find f l = None -> Forall (fun x => f x = false) l.
Proof using. intros H. apply List.Forall_forall. intros x Hx. by apply (find_none _ _ H) in Hx. Qed.

(** A write is allowed by a rule for every target, or by the accept-edits
    default when every target is inside and none is protected. *)
Lemma decide_write_allow p tool paths mode :
  is_allow (decide p tool (AWrite paths) paths mode) = true ->
  Forall (write_covered p tool (AWrite paths)) (targets p (AWrite paths) paths)
  \/ mode = MAcceptEdits
     /\ Forall (fun q => is_inside_allowed p q = true /\ policy_is_protected p q = false)
          (targets p (AWrite paths) paths).
Proof using.
  unfold decide, allowing_rule. set (ts := targets _ _ _).
  destruct (allowing_loop _ _ _ _ _) as [r|] eqn:E.
  { intros _. left. by eapply allowing_loop_covers. }
  destruct (is_empty ts); [done|].
  destruct (List.find _ ts) as [q|] eqn:Eo; [done|].
  destruct (List.find (policy_is_protected p) ts) as [q|] eqn:Ep; [done|].
  case_bool_decide; [|done]. intros _. right. split; [done|].
  apply find_negb_None in Eo. apply find_None_false in Ep. by apply Forall_and.
Qed.
End WithGlobs.
