(* ===== verification/DecideExecute.v ===== *)
(** Decisions on shell commands, sandboxed or not ([decide/sandbox.rs], [decide/execute.rs]): more session
    rules never take an answer back, restrictive matching is at least as wide as permissive matching and sees
    through wrappers, and the defaults that allow without asking are confined. *)

From S2P Require Export Engine FsCommand Suggest DecideFiles ReadOnly.

Definition REASON : text := str "sandboxed".

Section WithGlobs.
Context {G : Globset} {P : Platform}.

Definition sandbox_contained (p : Policy) (w : Word) : bool :=
  match (match locate w (home (policy_ctx p)) with
         | Relative q false => Some (resolve (project_root (policy_ctx p)) q)
         | Absolute q => if is_inside_allowed p q then Some q else None
         | _ => None
         end) with
  | Some q => negb (policy_is_protected p q)
  | None => false
  end.

Definition writes_contained (p : Policy) (segment : Segment) : bool :=
  forallb (sandbox_contained p) (write_targets segment ++ writes (operands (command segment))).

Definition sandbox_allows (p : Policy) (parsed : Parsed) (candidates : list Segment)
    (truncated : bool) : bool :=
  sandbox_auto_allow p && parsed_ok parsed && negb (parsed_dynamic parsed) && negb truncated
  && forallb (writes_contained p) (all_segments parsed)
  && forallb (writes_contained p) candidates.
End WithGlobs.

Record CommandFacts := mkCommandFacts {
  facts_command : text;
  facts_parsed : Parsed;
  candidates : list Segment;
  truncated : bool;
  facts_read_only : bool
}.

(** [CommandFacts::new]. *)
Definition new_facts (command_ : text) : CommandFacts :=
  let parsed := parse command_ in
  let runs := map executed_commands (all_segments parsed) in
  mkCommandFacts (trim command_) parsed (flat_map fst runs) (existsb snd runs)
    (command_is_read_only parsed).

Section WithGlobs.
Context {G : Globset} {P : Platform}.

(** Where a restrictive rule should look for an operand. *)
Definition best_guess (p : Policy) (w : Word) : option path :=
  match locate w (home (policy_ctx p)) with
  | Relative q _ => Some (resolve (project_root (policy_ctx p)) q)
  | Absolute q => Some q
  | Unknown => None
  end.

(** The files a candidate names for reading or for writing. *)
Definition named_words (writes_ : bool) (candidate : Segment) : list Word :=
  let ops := operands (words candidate) in
  if writes_ then writes ops ++ write_targets candidate else reads ops.

Definition names_file (p : Policy) (pattern : PathPattern) (writes_ : bool) (facts : CommandFacts)
  : bool :=
  truncated facts
  || existsb (fun candidate =>
                existsb (fun q => PathPattern_matches pattern q (policy_ctx p))
                  (omap (best_guess p) (named_words writes_ candidate)))
       (candidates facts).

(** Deny and ask semantics. *)
Definition restricts_command (p : Policy) (r : Rule) (tool : text) (facts : CommandFacts) : bool :=
  if names_tool r tool then true
  else
    match command_pattern r with
    | Some None => true
    | Some (Some pattern) =>
        truncated facts || matches_line pattern (facts_command facts)
        || existsb (fun c => Command.restricts pattern (words c)) (candidates facts)
    | None =>
        match operand_pattern r false with
        | Some pattern => names_file p pattern false facts
        | None =>
            match operand_pattern r true with
            | Some pattern => names_file p pattern true facts
            | None => false
            end
        end
    end.

Definition read_rule_covers (p : Policy) (q : path) : bool :=
  existsb (fun r => match operand_pattern r false with
                    | Some pattern => PathPattern_matches pattern q (policy_ctx p)
                    | None => false
                    end) (allow_rules p).

(** Every file the command reads is inside the allowed directories or
    covered by a [Read(..)] allow rule. *)
Definition read_word_allowed (p : Policy) (w : Word) : bool :=
  match locate w (home (policy_ctx p)) with
  | Relative _ escapes => negb escapes
  | Absolute q => is_inside_allowed p q || read_rule_covers p q
  | Unknown => false
  end.
Definition reads_allowed (p : Policy) (segment : Segment) : bool :=
  forallb (read_word_allowed p) (reads (operands (command segment))).

(** Redirect targets stay inside the allowed directories and off protected
    paths. *)
Definition redirect_contained (p : Policy) (w : Word) : bool :=
  match locate w (home (policy_ctx p)) with
  | Relative q false => negb (policy_is_protected p (resolve (project_root (policy_ctx p)) q))
  | Absolute q => is_inside_allowed p q && negb (policy_is_protected p q)
  | _ => false
  end.
Definition redirects_contained (p : Policy) (segment : Segment) : bool :=
  forallb (redirect_contained p) (write_targets segment).

Inductive Coverage :=
| CRule (r : Rule)
| CHarmless
| CNone.

Definition allows_argv (argv_ : list text) (r : Rule) : bool :=
  match command_pattern r with
  | Some (Some pattern) => allows pattern argv_
  | _ => false
  end.

Definition coverage (p : Policy) (segment : Segment) : Coverage :=
  let contained_ := redirects_contained p segment in
  let argv_ := argv segment in
  if is_empty argv_ then if contained_ then CHarmless else CNone
  else
    match (if contained_ then List.find (allows_argv argv_) (allow_rules p) else None) with
    | Some r => CRule r
    | None =>
        if auto_allow_read_only_bash p && segment_is_read_only segment && reads_allowed p segment
        then CHarmless else CNone
    end.

Fixpoint covering_loop (p : Policy) (ss : list Segment) (first : option Rule) : option Rule :=
  match ss with
  | [] => first
  | s :: rest =>
      match coverage p s with
      | CRule r => covering_loop p rest (match first with Some f => Some f | None => Some r end)
      | CHarmless => covering_loop p rest first
      | CNone => None
      end
  end.

Definition covers_line (tool command_ : text) (r : Rule) : bool :=
  names_tool r tool
  || match command_pattern r with
     | Some None => true
     | Some (Some pattern) => matches_line pattern command_
     | None => false
     end.

(** An allow rule for the tool or the whole line, or every top-level command
    covered. *)
Definition allowing_rule (p : Policy) (tool : text) (facts : CommandFacts) : option Rule :=
  match List.find (covers_line tool (facts_command facts)) (allow_rules p) with
  | Some r => Some r
  | None =>
      let parsed := facts_parsed facts in
      if negb (parsed_ok parsed) || parsed_dynamic parsed || is_empty (parsed_segments parsed)
      then None
      else covering_loop p (parsed_segments parsed) None
  end.

Definition ask_reason (p : Policy) (facts : CommandFacts) : text :=
  if negb (parsed_ok (facts_parsed facts)) then str "the command could not be fully parsed"
  else if parsed_dynamic (facts_parsed facts) then
    str "the command computes part of itself at run time"
  else if facts_read_only facts && negb (auto_allow_read_only_bash p) then
    str "read-only commands need approval"
  else if facts_read_only facts then str "the command reads outside the project"
  else str "the command needs approval".

(** The rule text for the first uncovered command. *)
Definition suggestion_text (p : Policy) (facts : CommandFacts) (segment : Segment) : option text :=
  match (if redirects_contained p segment then prefix_for (command segment) else None) with
  | Some prefix => Some (str "Bash(" ++ prefix ++ str ":*)")
  | None =>
      let command_ := facts_command facts in
      let expressible :=
        (blen command_ <=? 200)%N && negb (contains_char NEWLINE command_)
        && negb (ends_with [chr "*"] command_) in
      if expressible then Some (str "Bash(" ++ command_ ++ str ")") else None
  end.

Definition suggestion (p : Policy) (facts : CommandFacts) : option text :=
  let parsed := facts_parsed facts in
  if negb (parsed_ok parsed) || parsed_dynamic parsed then None
  else
    match List.find (fun s => match coverage p s with CNone => true | _ => false end)
            (parsed_segments parsed) with
    | None => None
    | Some segment =>
        match suggestion_text p facts segment with
        | None => None
        | Some t => rule_display <$> result_ok (rule_parse t)
        end
    end.

Definition decide_execute (p : Policy) (tool : text) (facts : CommandFacts)
    (mode : PermissionMode) : Engine.Decision :=
  match allowing_rule p tool facts with
  | Some r => Allow (str "allowed by rule " ++ rule_display r)
  | None =>
      if facts_read_only facts && auto_allow_read_only_bash p
         && forallb (reads_allowed p) (parsed_segments (facts_parsed facts)) then
        Allow (str "read-only command")
      else if bool_decide (mode = MAcceptEdits)
              && (auto_allow_read_only_bash p || negb (facts_read_only facts))
              && is_common_fs_command (facts_command facts) (project_root (policy_ctx p)) then
        Allow (str "acceptEdits mode allows filesystem commands inside the project")
      else if sandbox_allows p (facts_parsed facts) (candidates facts) (truncated facts) then
        Allow REASON
      else Ask (ask_reason p facts) (suggestion p facts) true
  end.
End WithGlobs.

Section WithGlobs.
Context {G : Globset} {P : Platform}.

(** * Session rules only add *)

Lemma read_word_allowed_granted extra p w :
  read_word_allowed p w = true -> read_word_allowed (granted extra p) w = true.
Proof using.
  unfold read_word_allowed.
  change (home (policy_ctx (granted extra p))) with (home (policy_ctx p)).
  destruct (locate w _) as [q e|q|]; [done| |done].
  change (is_inside_allowed (granted extra p) q) with (is_inside_allowed p q).
  intros [->|H]%orb_prop; [done|]. apply orb_true_iff. right.
  unfold read_rule_covers in *. rewrite allow_rules_granted, existsb_app.
  apply orb_true_iff. by left.
Qed.

Lemma reads_allowed_granted extra p s :
  reads_allowed p s = true -> reads_allowed (granted extra p) s = true.
Proof using.
  unfold reads_allowed. rewrite !forallb_forall.
  intros H w Hw. by apply read_word_allowed_granted, H.
Qed.

Definition coverage_le (a b : Coverage) : Prop :=
  match a, b with
  | CNone, _ => True
  | CHarmless, (CHarmless | CRule _) => True
  | CRule _, CRule _ => True
  | _, _ => False
  end.

Lemma coverage_granted extra p s : coverage_le (coverage p s) (coverage (granted extra p) s).
Proof using.
  unfold coverage.
  change (redirects_contained (granted extra p) s) with (redirects_contained p s).
  change (auto_allow_read_only_bash (granted extra p)) with (auto_allow_read_only_bash p).
  destruct (is_empty (argv s)); [by destruct (redirects_contained p s)|].
  pose proof (find_granted (allows_argv (argv s)) extra p) as Hf.
  pose proof (reads_allowed_granted extra p s) as Hr.
  destruct (redirects_contained p s).
  - destruct (List.find _ (allow_rules p)).
    + destruct Hf as [r' ->]; [eauto|]. done.
    + destruct (List.find _ (allow_rules (granted extra p))); [by case_if|].
      destruct (_ && _ && reads_allowed p s) eqn:E; [|done].
      bool_hyps. rewrite Hr by done. by rewrite H, H1.
  - destruct (_ && _ && reads_allowed p s) eqn:E; [|done].
    bool_hyps. rewrite Hr by done. by rewrite H, H1.
Qed.

Lemma covering_loop_granted extra p ss first first' :
  (is_Some first -> is_Some first') ->
  is_Some (covering_loop p ss first) -> is_Some (covering_loop (granted extra p) ss first').
Proof using.
  revert first first'. induction ss as [|s ss IH]; intros first first' Hf; cbn [covering_loop]; [done|].
  pose proof (coverage_granted extra p s) as Hc.
  destruct (coverage p s), (coverage (granted extra p) s); try done.
  - apply IH. intros _. destruct first'; eauto.
  - apply IH. intros _. destruct first'; eauto.
  - by apply IH.
Qed.

Lemma allowing_rule_granted extra p tool facts :
  is_Some (allowing_rule p tool facts) -> is_Some (allowing_rule (granted extra p) tool facts).
Proof using.
  unfold allowing_rule.
  pose proof (find_granted (covers_line tool (facts_command facts)) extra p) as Hf.
  destruct (List.find _ (allow_rules p)).
  - destruct Hf as [r' ->]; eauto.
  - destruct (List.find _ (allow_rules (granted extra p))); [eauto|].
    case_if; [done|]. by apply covering_loop_granted.
Qed.

Lemma decide_execute_granted extra p tool facts mode :
  is_allow (decide_execute p tool facts mode) = true ->
  is_allow (decide_execute (granted extra p) tool facts mode) = true.
Proof using.
  unfold decide_execute. pose proof (allowing_rule_granted extra p tool facts) as Ha.
  change (auto_allow_read_only_bash (granted extra p)) with (auto_allow_read_only_bash p).
  change (sandbox_allows (granted extra p)) with (sandbox_allows p).
  change (policy_ctx (granted extra p)) with (policy_ctx p).
  destruct (allowing_rule (granted extra p) tool facts); [done|].
  destruct (allowing_rule p tool facts); [destruct Ha; [eauto|done]|].
  assert (Hr : forallb (reads_allowed p) (parsed_segments (facts_parsed facts)) = true ->
               forallb (reads_allowed (granted extra p)) (parsed_segments (facts_parsed facts)) = true).
  { rewrite !forallb_forall. intros H s Hs. by apply reads_allowed_granted, H. }
  destruct (facts_read_only facts && auto_allow_read_only_bash p); cbn [andb].
  - destruct (forallb (reads_allowed p) _); [by rewrite Hr|].
    intros H. repeat (case_if; [done|]). rewrite <- H. repeat case_if; done.
  - repeat (case_if; [done|]). done.
Qed.

Lemma decide_execute_never_denies p tool facts mode :
  is_deny (decide_execute p tool facts mode) = false.
Proof using. unfold decide_execute. destruct (allowing_rule _ _ _); repeat case_if; done. Qed.

(** * Restrictive matching *)

Lemma words_prefix_spec ws l : words_prefix ws l = true <-> exists rest, l = ws ++ rest.
Proof using.
  unfold words_prefix. revert l. induction ws as [|w ws IH]; intros [|x l]; cbn [list_prefix_by].
  - split; [by exists []|done].
  - split; [by exists (x :: l)|done].
  - split; [done|by intros (? & ?)].
  - rewrite andb_true_iff, teqb_eq, IH. split.
    + intros [-> (r & ->)]. by exists r.
    + intros (r & [= -> ->]). eauto.
Qed.

Lemma words_eqb_spec a b : words_eqb a b = true <-> a = b.
Proof using. apply bool_decide_eq_true. Qed.

(** What an allow rule covers, a deny rule with the same pattern restricts. *)
Lemma allows_restricts pattern s :
  allows pattern (argv s) = true -> argv s <> [] -> cp_words pattern <> Some [] ->
  Command.restricts pattern (command s) = true.
Proof using.
  unfold allows, Command.restricts, argv.
  destruct (cp_words pattern) as [[|name ws]|]; [done| |done].
  destruct (command s) as [|program args]; [done|]. cbn [map].
  intros H _ _.
  assert (Hn : name = text_ program /\
    (if cp_prefix pattern then words_prefix ws (map text_ args)
     else words_eqb (map text_ args) ws) = true).
  { destruct (cp_prefix pattern).
    - apply words_prefix_spec in H as (r & [= -> E]). split; [done|].
      apply words_prefix_spec. eauto.
    - apply words_eqb_spec in H as [= -> ->]. split; [done|]. by apply words_eqb_spec. }
  destruct Hn as [-> ->]. unfold may_name, eq_ignore_ascii_case. by rewrite teqb_refl.
Qed.

Lemma new_facts_candidate c s cand :
  In s (all_segments (parse c)) -> rtc runs (start_candidate s) cand ->
  truncated (new_facts c) = true \/ In cand (candidates (new_facts c)).
Proof using.
  intros Hs Hr. unfold new_facts. cbn [truncated candidates].
  destruct (snd (executed_commands s)) eqn:Ec.
  - left. apply existsb_exists. exists (executed_commands s). split; [|done].
    by apply in_map.
  - right. apply in_flat_map. exists (executed_commands s). split; [by apply in_map|].
    by apply executed_commands_complete.
Qed.

Lemma restricts_command_candidate p r tool c pattern s cand :
  command_pattern r = Some (Some pattern) ->
  In s (all_segments (parse c)) -> rtc runs (start_candidate s) cand ->
  Command.restricts pattern (words cand) = true ->
  restricts_command p r tool (new_facts c) = true.
Proof using.
  intros Hp Hs Hr Hc. unfold restricts_command. destruct (names_tool r tool); [done|].
  rewrite Hp. destruct (new_facts_candidate c s cand Hs Hr) as [->|Hin]; [done|].
  apply orb_true_iff. right. apply existsb_exists. eauto.
Qed.

(** * Containment *)

(** The policy's root is absolute and normalized, as [new] leaves it. *)
Definition rooted (p : Policy) : Prop :=
  absolute_root (policy_ctx p)
  /\ normalize (project_root (policy_ctx p)) = project_root (policy_ctx p).

(** Where the word points is known, inside the allowed directories and not
    protected. *)
Definition confined (p : Policy) (w : Word) : Prop :=
  exists q, best_guess p w = Some q /\ is_inside_allowed p q = true
            /\ policy_is_protected p q = false.

Lemma locate_relative w h q e :
  locate w h = Relative q e ->
  q = components (text_ w) /\ is_absolute q = false /\ e = escapes_start q.
Proof using.
  unfold locate. destruct (_ || _ || _); [done|]. destruct (tilde w || param w).
  - destruct (home_suffix w), h; done.
  - destruct (is_absolute _) eqn:E; [done|]. by intros [= <- <-].
Qed.

Lemma relative_inside p q :
  rooted p -> wf_path q -> is_absolute q = false -> escapes_start q = false ->
  is_inside_allowed p (resolve (project_root (policy_ctx p)) q) = true.
Proof using.
  intros [[Hw Ha] Hn] Hq Hr He.
  destruct (resolve_canonical (project_root (policy_ctx p)) q) as [Hc Hab]; [done..|].
  rewrite is_inside_resolved by done. apply existsb_exists.
  exists (project_root (policy_ctx p)). split; [by left|].
  rewrite <- Hn at 2. by apply resolve_contained.
Qed.

Lemma redirect_contained_sound p w : rooted p -> redirect_contained p w = true -> confined p w.
Proof using.
  intros Hp. unfold redirect_contained, confined, best_guess.
  destruct (locate w _) as [q [|]|q|] eqn:E; try done; intros H.
  - apply locate_relative in E as (-> & Ha & He). eexists. split; [done|].
    split; [apply relative_inside; auto using components_wf|]. by apply negb_true_iff.
  - bool_hyps. eauto.
Qed.

Lemma sandbox_contained_sound p w : rooted p -> sandbox_contained p w = true -> confined p w.
Proof using.
  intros Hp. unfold sandbox_contained, confined, best_guess.
  destruct (locate w _) as [q [|]|q|] eqn:E; try done; intros H.
  - apply locate_relative in E as (-> & Ha & He). eexists. split; [done|].
    split; [apply relative_inside; auto using components_wf|]. by apply negb_true_iff.
  - destruct (is_inside_allowed p q) eqn:Ei; [|done]. bool_hyps. eauto.
Qed.

Lemma redirects_contained_sound p s :
  rooted p -> redirects_contained p s = true -> Forall (confined p) (write_targets s).
Proof using.
  intros Hp. unfold redirects_contained. rewrite forallb_forall. intros H.
  apply List.Forall_forall. intros w Hw. by apply redirect_contained_sound, H.
Qed.

Lemma coverage_contained p s :
  rooted p -> coverage p s <> CNone -> Forall (confined p) (write_targets s).
Proof using.
  intros Hp. unfold coverage.
  destruct (redirects_contained p s) eqn:E; [intros _; by apply redirects_contained_sound|].
  destruct (is_empty _); [done|].
  destruct (_ && segment_is_read_only s && _) eqn:Er; [|done]. bool_hyps. intros _.
  apply segment_read_only_sound in H1 as [-> _]. constructor.
Qed.

Lemma covering_loop_contained p ss first r :
  rooted p -> covering_loop p ss first = Some r ->
  Forall (fun s => Forall (confined p) (write_targets s)) ss.
Proof using.
  intros Hp. revert first. induction ss as [|s ss IH]; intros first; [constructor|].
  cbn [covering_loop]. pose proof (coverage_contained p s Hp) as Hc.
  destruct (coverage p s); try done; intros H; (constructor; [by apply Hc|by eapply IH]).
Qed.

Lemma writes_free_targets s : existsb writes_file (redirects s) = false -> write_targets s = [].
Proof using.
  unfold write_targets. induction (redirects s) as [|r rs IH]; [done|]. cbn.
  intros [-> H]%orb_false_elim. by apply IH.
Qed.

Lemma fs_segments_write_free root cwd ss :
  fs_segments root cwd ss = true -> Forall (fun s => write_targets s = []) ss.
Proof using.
  revert cwd. induction ss as [|s ss IH]; intros cwd; cbn [fs_segments]; [constructor|].
  destruct (fs_segment root cwd s) as [cwd'|] eqn:E; [|done]. intros H.
  constructor; [|by eapply IH]. apply writes_free_targets. unfold fs_segment in E.
  by destruct (existsb _ _).
Qed.

(** [facts.command] is trimmed; what an accept-edits command is judged on is
    parsed again. *)
Lemma fs_command_static c root :
  is_common_fs_command c root = true ->
  parsed_ok (parse c) = true /\ parsed_dynamic (parse c) = false
  /\ Forall (fun s => write_targets s = []) (parsed_segments (parse c)).
Proof using.
  unfold is_common_fs_command. destruct (_ || _ || _) eqn:E; [done|]. bool_hyps.
  intros Hs. split_and!; [done|done|by eapply fs_segments_write_free].
Qed.
End WithGlobs.
