(* ===== verification/Pipeline.v ===== *)
(** The decision order shared by every action ([decide/pipeline.rs]), the actions without paths or commands
    ([decide/other.rs]), and the properties of [Policy::decide]: the order of its rules, what each answer
    guarantees, and what the session can change. *)

From S2P Require Export DecideFiles DecideExecute.

Section WithGlobs.
Context {G : Globset} {P : Platform}.

(** * [decide/other.rs] *)

Definition decide_other (p : Policy) (tool : text) (a : Action) : Engine.Decision :=
  match List.find (fun r => matches_call r tool a) (allow_rules p) with
  | Some r => Allow (str "allowed by rule " ++ rule_display r)
  | None =>
      match a with
      | AFetch url =>
          match url_host url with
          | Some host => Ask (str "fetches " ++ host)
                           (canonical_rule (str "WebFetch(domain:" ++ host ++ str ")")) true
          | None => Ask (str "fetches a URL without a host") None true
          end
      | ASearch => Ask (str "searches the web") (Some (str "WebSearch")) true
      | AAgent _ => Allow (str "subagents are gated per tool call")
      | ASkill _ => Allow (str "skills only load instructions")
      | AMcp server called _ =>
          Ask (str "calls MCP tool " ++ called ++ str " on " ++ server)
            (canonical_rule (str "mcp__" ++ server ++ str "__" ++ called)) true
      | AOther true => Allow (str "read-only tool")
      | AOther false => Ask (tool ++ str " changes state") (canonical_rule tool) true
      | ARead _ | AWrite _ | AExecute _ => Ask (tool ++ str " needs approval") None false
      end
  end.

(** * [decide/pipeline.rs] *)

Definition PLAN_MODE : text :=
  str "plan mode is read-only; use ExitPlanMode to propose the plan".

Definition facts_of (a : Action) : option CommandFacts :=
  match a with AExecute command_ => Some (new_facts command_) | _ => None end.

(** A deny or ask rule matches the action. *)
Definition restricts_action (p : Policy) (tool : text) (a : Action) (facts : option CommandFacts)
    (r : Rule) : bool :=
  match a, facts with
  | ARead paths, _ | AWrite paths, _ => DecideFiles.restricts p r tool a paths
  | AExecute _, Some f => restricts_command p r tool f
  | _, _ => matches_call r tool a
  end.

Definition restricting (p : Policy) (rules_ : list Rule) (tool : text) (a : Action)
    (facts : option CommandFacts) : option Rule :=
  List.find (restricts_action p tool a facts) rules_.

Definition decide (p : Policy) (tool : text) (a : Action) (mode : PermissionMode) : Engine.Decision :=
  let facts := facts_of a in
  match restricting p (policy_deny p) tool a facts with
  | Some r => Deny (str "denied by rule " ++ rule_display r)
  | None =>
      let mutates_ := match facts with Some f => negb (facts_read_only f) | None => mutates a end in
      if bool_decide (mode = MPlan) && mutates_ then Deny PLAN_MODE
      else if bool_decide (mode = MBypass) then Allow (str "bypass mode")
      else
        match restricting p (policy_ask p) tool a facts with
        | Some r =>
            Ask (str "rule " ++ rule_display r ++ str " requires approval") None
              (negb (touches_outside p a))
        | None =>
            match a, facts with
            | ARead paths, _ | AWrite paths, _ => DecideFiles.decide p tool a paths mode
            | AExecute _, Some f => decide_execute p tool f mode
            | _, _ => decide_other p tool a
            end
        end
  end.
End WithGlobs.

Section WithGlobs.
Context {G : Globset} {P : Platform}.

(** A session: the configured policy and the rules granted since. *)
Definition session_policy (config : PolicyConfig) (ctx : PolicyContext) (extra : list Rule) : Policy :=
  granted extra (fst (new config ctx)).

Lemma session_policy_ctx config ctx extra :
  policy_ctx (session_policy config ctx extra) = normalize_context ctx.
Proof using.
  unfold session_policy, new. destruct (parse_rules _ _) as [? e1].
  destruct (parse_rules _ e1) as [? e2]. by destruct (parse_rules _ e2).
Qed.

Lemma session_policy_rooted config ctx extra :
  absolute_root ctx -> rooted (session_policy config ctx extra).
Proof using.
  intros [Hw Ha]. unfold rooted, absolute_root. rewrite session_policy_ctx. cbn.
  pose proof (normalize_canonical _ Hw) as Hc. split_and!.
  - by apply canonical_wf.
  - by apply is_absolute_normalize.
  - by apply canonical_fixpoint.
Qed.

Lemma find_is_Some_exists {A} (f : A -> bool) l :
  is_Some (List.find f l) <-> exists x, In x l /\ f x = true.
Proof using.
  split.
  - intros [x H]. exists x. by apply find_some in H.
  - intros (x & Hx & Hf). destruct (List.find f l) eqn:E; [eauto|].
    apply (find_none _ _ E) in Hx. congruence.
Qed.

(** Some rule of the list matches the action. *)
Definition matched (p : Policy) (rules_ : list Rule) (tool : text) (a : Action) : Prop :=
  exists r, In r rules_ /\ restricts_action p tool a (facts_of a) r = true.

Lemma restricting_matched p rules_ tool a :
  is_Some (restricting p rules_ tool a (facts_of a)) <-> matched p rules_ tool a.
Proof using. apply find_is_Some_exists. Qed.

Lemma decide_other_never_denies p tool a : is_deny (decide_other p tool a) = false.
Proof using.
  unfold decide_other. destruct (List.find _ _); [done|].
  destruct a as [| | | | | | | |[|]]; try done. by destruct (url_host _).
Qed.

(** The last step of [decide], after deny rules, modes and ask rules. *)
Definition decide_default (p : Policy) (tool : text) (a : Action) (mode : PermissionMode)
  : Engine.Decision :=
  match a, facts_of a with
  | ARead paths, _ | AWrite paths, _ => DecideFiles.decide p tool a paths mode
  | AExecute _, Some f => decide_execute p tool f mode
  | _, _ => decide_other p tool a
  end.

Lemma decide_default_never_denies p tool a mode : is_deny (decide_default p tool a mode) = false.
Proof using.
  unfold decide_default. destruct a; cbn [facts_of];
    auto using decide_files_never_denies, decide_execute_never_denies, decide_other_never_denies.
Qed.

Lemma decide_other_granted extra p tool a :
  is_allow (decide_other p tool a) = true -> is_allow (decide_other (granted extra p) tool a) = true.
Proof using.
  unfold decide_other. pose proof (find_granted (fun r => matches_call r tool a) extra p) as Hf.
  destruct (List.find _ (allow_rules p)); [destruct Hf as [r' ->]; eauto|].
  by destruct (List.find _ (allow_rules (granted extra p))).
Qed.

Lemma decide_default_granted extra p tool a mode :
  is_allow (decide_default p tool a mode) = true ->
  is_allow (decide_default (granted extra p) tool a mode) = true.
Proof using.
  unfold decide_default. destruct a; cbn [facts_of];
    auto using decide_files_granted, decide_execute_granted, decide_other_granted.
Qed.

Lemma decide_eq p tool a mode :
  Pipeline.decide p tool a mode =
  match restricting p (policy_deny p) tool a (facts_of a) with
  | Some r => Deny (str "denied by rule " ++ rule_display r)
  | None =>
      if bool_decide (mode = MPlan) && mutates a then Deny PLAN_MODE
      else if bool_decide (mode = MBypass) then Allow (str "bypass mode")
      else
        match restricting p (policy_ask p) tool a (facts_of a) with
        | Some r => Ask (str "rule " ++ rule_display r ++ str " requires approval") None
                      (negb (touches_outside p a))
        | None => decide_default p tool a mode
        end
  end.
Proof using. unfold Pipeline.decide. by destruct a. Qed.

(** The order of the steps, with each step's condition. *)
Lemma decide_cases p tool a mode :
  (matched p (policy_deny p) tool a /\ is_deny (Pipeline.decide p tool a mode) = true)
  \/ ~ matched p (policy_deny p) tool a
     /\ ((mode = MPlan /\ mutates a = true /\ Pipeline.decide p tool a mode = Deny PLAN_MODE)
         \/ ~ (mode = MPlan /\ mutates a = true)
            /\ ((mode = MBypass /\ Pipeline.decide p tool a mode = Allow (str "bypass mode"))
                \/ mode <> MBypass
                   /\ ((matched p (policy_ask p) tool a
                        /\ is_allow (Pipeline.decide p tool a mode) = false
                        /\ is_deny (Pipeline.decide p tool a mode) = false)
                       \/ (~ matched p (policy_ask p) tool a
                           /\ Pipeline.decide p tool a mode = decide_default p tool a mode)))).
Proof using.
  rewrite decide_eq.
  pose proof (restricting_matched p (policy_deny p) tool a) as Hd.
  pose proof (restricting_matched p (policy_ask p) tool a) as Hk.
  destruct (restricting p (policy_deny p) _ _ _) as [r|].
  { left. split; [apply Hd; eauto|done]. }
  right. split; [intros H%Hd; by destruct H|].
  case_bool_decide as Hp; cbn [andb]; [destruct (mutates a) eqn:Em; [by left|]|]; right;
    (split; [intros [? ?]; congruence|]); (case_bool_decide as Hb; [by left|]); right;
    (split; [done|]); (destruct (restricting p (policy_ask p) _ _ _) as [r|];
      [left; split_and!; [apply Hk; eauto|done|done]|]); right;
    (split; [intros H%Hk; by destruct H|done]).
Qed.

(** * Properties *)

(** C1: exactly two things deny a tool call, in every mode and whatever the
    allow, ask and session rules say: a deny rule that matches the action,
    and plan mode for an action that changes state. *)
Theorem decide_denies_exactly (p : Policy) (tool : text) (a : Action) (mode : PermissionMode) :
  is_deny (Pipeline.decide p tool a mode) = true <->
  matched p (policy_deny p) tool a \/ (mode = MPlan /\ mutates a = true).
Proof using.
  destruct (decide_cases p tool a mode)
    as [[? ?]|[Hd [(? & ? & ->)|[Hm [[? ->]|[? [(? & ? & ?)|[? ->]]]]]]]];
    rewrite ?decide_default_never_denies; cbn [is_deny]; intuition congruence.
Qed.

(** C2: a tool call allowed without asking has passed every earlier step: no
    deny rule matches it, it does not change state in plan mode, and outside
    bypass mode no ask rule matches it. *)
Theorem decide_allow_order (p : Policy) (tool : text) (a : Action) (mode : PermissionMode) :
  is_allow (Pipeline.decide p tool a mode) = true ->
  ~ matched p (policy_deny p) tool a
  /\ (mode = MPlan -> mutates a = false)
  /\ (mode <> MBypass ->
      ~ matched p (policy_ask p) tool a
      /\ Pipeline.decide p tool a mode = decide_default p tool a mode).
Proof using.
  intros Ha. destruct (decide_cases p tool a mode)
    as [[? E]|[Hd [(? & ? & E)|[Hm [[? E]|[? [(? & E & ?)|[? E]]]]]]]];
    try (rewrite E in Ha; done);
    try (destruct (Pipeline.decide p tool a mode); done);
    (split_and!; [done| |by intros ?]);
    intros ->; destruct (mutates a); [exfalso; by apply Hm|done|exfalso; by apply Hm|done].
Qed.

(** C34: granting rules during a session only moves answers from ask to
    allow.  What was allowed stays allowed and exactly the same calls are
    denied, whichever rules were added. *)
Theorem session_rules_only_allow (p : Policy) (extra : list Rule) (tool : text) (a : Action)
    (mode : PermissionMode) :
  (is_allow (Pipeline.decide p tool a mode) = true -> is_allow (Pipeline.decide (granted extra p) tool a mode) = true)
  /\ is_deny (Pipeline.decide (granted extra p) tool a mode) = is_deny (Pipeline.decide p tool a mode).
Proof using.
  assert (Hr : forall rules_, restricting (granted extra p) rules_ tool a (facts_of a)
                              = restricting p rules_ tool a (facts_of a)) by done.
  rewrite !decide_eq, !Hr.
  change (policy_deny (granted extra p)) with (policy_deny p).
  change (policy_ask (granted extra p)) with (policy_ask p).
  destruct (restricting p (policy_deny p) _ _ _); [done|].
  case_if; [done|]. case_if; [done|].
  destruct (restricting p (policy_ask p) _ _ _); [done|]. rewrite !decide_default_never_denies.
  split; [apply decide_default_granted|done].
Qed.
End WithGlobs.
