(* ===== verification/AccessFacts.v ===== *)
(** What reaches the machine: configured deny rules always hold, and writes
    and shell commands that are allowed without asking stay where the policy
    promises. *)

From S2P Require Export Pipeline RuleFacts.

Section WithGlobs.
Context {G : Globset} {P : Platform}.

(** * Configured rules *)

Definition all_parsed (rules_ : list Rule) : Prop :=
  Forall (fun r => parsed_target (rule_target r)) rules_.

Lemma parse_step_keeps acc t :
  all_parsed (fst acc) ->
  all_parsed (fst (parse_step acc t))
  /\ (forall r, In r (fst acc) -> In r (fst (parse_step acc t)))
  /\ (forall r, rule_parse t = Ok r -> In r (fst (parse_step acc t))).
Proof using.
  destruct acc as [rules_ errs]. unfold parse_step. cbn [fst]. intros Ha.
  destruct (rule_parse t) as [r|e] eqn:E; [|by split_and!].
  pose proof (rule_parse_parsed t r E) as Hr.
  destruct (contains_rule rules_ r) eqn:Ec; cbn [negb fst].
  - split_and!; [done|done|]. intros r' [= <-].
    apply existsb_exists in Ec as (x & Hx & He).
    rewrite (parsed_rule_eqb x r) in Hx; [done| |done|done].
    unfold all_parsed in Ha. rewrite List.Forall_forall in Ha. by apply Ha.
  - split_and!.
    + apply Forall_app. split; [done|]. by constructor.
    + intros r' Hr'. apply in_app_iff. by left.
    + intros r' [= <-]. apply in_app_iff. right. by left.
Qed.

Lemma parse_rules_complete texts acc :
  all_parsed (fst acc) ->
  (forall r, In r (fst acc) -> In r (fst (foldl parse_step acc texts)))
  /\ (forall t r, In t texts -> rule_parse t = Ok r -> In r (fst (foldl parse_step acc texts))).
Proof using.
  revert acc. induction texts as [|t texts IH]; intros acc Ha; cbn [foldl]; [by split|].
  destruct (parse_step_keeps acc t Ha) as (H1 & H2 & H3).
  destruct (IH (parse_step acc t) H1) as [H4 H5]. split; [by auto|].
  intros t' r [->|Ht] E; eauto.
Qed.

Lemma new_deny_complete config ctx t r :
  In t (config_deny config) -> rule_parse t = Ok r -> In r (policy_deny (fst (new config ctx))).
Proof using.
  intros Ht Hr. unfold new, parse_rules.
  destruct (foldl parse_step ([], []) (config_allow config)) as [allow e1].
  destruct (foldl parse_step ([], e1) (config_ask config)) as [ask e2].
  destruct (parse_rules_complete (config_deny config) ([], e2)) as [_ H]; [constructor|].
  specialize (H t r Ht Hr). by destruct (foldl parse_step ([], e2) (config_deny config)).
Qed.

Lemma policy_deny_granted extra p : policy_deny (granted extra p) = policy_deny p.
Proof using. done. Qed.

(** * Commands *)

(** Every file a top-level command of the line opens for writing is
    confined. *)
Definition writes_confined (p : Policy) (c : text) : Prop :=
  Forall (fun s => Forall (confined p) (write_targets s)) (parsed_segments (parse c)).

Definition static_command (c : text) : Prop :=
  parsed_ok (parse c) = true /\ parsed_dynamic (parse c) = false.

Lemma segments_confined p ss :
  Forall (fun s => write_targets s = [] /\ literal_program s) ss ->
  Forall (fun s => Forall (confined p) (write_targets s)) ss.
Proof using. intros H. eapply Forall_impl; [exact H|]. by intros s [-> _]. Qed.

Lemma allowing_rule_confined p tool c r :
  rooted p -> allowing_rule p tool (new_facts c) = Some r ->
  (exists r, In r (allow_rules p) /\ covers_line tool (trim c) r = true)
  \/ static_command c /\ writes_confined p c.
Proof using.
  intros Hp. unfold allowing_rule.
  destruct (List.find _ (allow_rules p)) as [r'|] eqn:Ef.
  { intros _. left. exists r'. by apply find_some in Ef. }
  destruct (_ || _ || _) eqn:Eg; [done|]. bool_hyps. intros H'. right.
  split; [by split|]. by eapply covering_loop_contained.
Qed.

Lemma sandbox_allows_confined p c :
  rooted p -> sandbox_allows p (parse c) (candidates (new_facts c)) (truncated (new_facts c)) = true ->
  static_command c /\ truncated (new_facts c) = false
  /\ Forall (fun s => Forall (confined p) (write_targets s ++ writes (operands (command s))))
       (all_segments (parse c) ++ candidates (new_facts c)).
Proof using.
  intros Hp H. unfold sandbox_allows in H. bool_hyps. split_and!; [by split|done|].
  apply List.Forall_forall. intros s Hs.
  assert (Hw : writes_contained p s = true).
  { rewrite forallb_forall in H0, H1. apply in_app_iff in Hs as [Hs|Hs]; auto. }
  apply List.Forall_forall. intros w Hin. unfold writes_contained in Hw.
  rewrite forallb_forall in Hw. by apply sandbox_contained_sound, Hw.
Qed.

Lemma decide_execute_confined p tool c mode :
  rooted p -> is_allow (decide_execute p tool (new_facts c) mode) = true ->
  (exists r, In r (allow_rules p) /\ covers_line tool (trim c) r = true)
  \/ static_command c /\ writes_confined p c
  \/ mode = MAcceptEdits /\ is_common_fs_command (trim c) (project_root (policy_ctx p)) = true.
Proof using.
  intros Hp. unfold decide_execute.
  destruct (allowing_rule p tool (new_facts c)) as [r|] eqn:Ea.
  { intros _. destruct (allowing_rule_confined p tool c r Hp Ea) as [?|?]; auto. }
  destruct (_ && forallb (reads_allowed p) _) eqn:Er.
  { bool_hyps. intros _. right. left. unfold new_facts in H. cbn in H.
    apply command_read_only_sound in H as (Hok & Hd & _ & Hs).
    split; [by split|]. by apply segments_confined. }
  destruct (_ && is_common_fs_command _ _) eqn:Efs.
  { apply andb_prop in Efs as [[Hm _]%andb_prop Hfs]. intros _. right. right.
    apply bool_decide_eq_true in Hm. by split. }
  destruct (sandbox_allows _ _ _ _) eqn:Es; [|done]. intros _. right. left.
  apply sandbox_allows_confined in Es as (Hst & _ & Hs); [|done]. split; [done|].
  unfold all_segments in Hs. rewrite !Forall_app in Hs. destruct Hs as [[Hs _] _].
  eapply Forall_impl; [exact Hs|]. intros s Hw. by apply Forall_app in Hw as [? _].
Qed.

(** * Properties *)

(** C35: a deny rule in the settings holds for the whole session.  If the
    rule's text parses and the rule matches a tool call, the call is denied
    in every mode, whatever else is configured and whatever rules are
    granted later. *)
Theorem configured_deny_holds (config : PolicyConfig) (ctx : PolicyContext) (extra : list Rule)
    (t : text) (r : Rule) (tool : text) (a : Action) (mode : PermissionMode) :
  In t (config_deny config) -> rule_parse t = Ok r ->
  restricts_action (session_policy config ctx extra) tool a (facts_of a) r = true ->
  is_deny (Pipeline.decide (session_policy config ctx extra) tool a mode) = true.
Proof using.
  intros Ht Hr Hm.
  destruct (decide_cases (session_policy config ctx extra) tool a mode) as [[_ ?]|[Hn _]]; [done|].
  exfalso. apply Hn. exists r. split; [|done].
  unfold session_policy. rewrite policy_deny_granted. by eapply new_deny_complete.
Qed.

(** C36: repository metadata and harness settings are never written without
    asking.  Outside bypass mode, a write that is allowed names at least one
    file, and no file it names is protected; each is inside the allowed
    directories or covered by the path pattern of an allow rule. *)
Theorem allowed_writes_contained (config : PolicyConfig) (ctx : PolicyContext) (extra : list Rule)
    (tool : text) (paths : list path) (mode : PermissionMode) :
  absolute_root ctx -> Forall wf_path paths -> mode <> MBypass ->
  let p := session_policy config ctx extra in
  is_allow (Pipeline.decide p tool (AWrite paths) mode) = true ->
  paths <> [] /\
  Forall (fun q =>
    let target_ := resolve (project_root (policy_ctx p)) q in
    policy_is_protected p target_ = false
    /\ (is_inside_allowed p target_ = true
        \/ exists r pattern, In r (allow_rules p)
            /\ path_scope r tool (AWrite paths) = Some (Some pattern)
            /\ PathPattern_matches pattern target_ (policy_ctx p) = true)) paths.
Proof using.
  intros Hc Hw Hmode p Ha.
  destruct (session_policy_rooted config ctx extra Hc) as [Habs Hnorm]. fold p in Habs, Hnorm.
  assert (Hd : is_allow (DecideFiles.decide p tool (AWrite paths) paths mode) = true).
  { destruct (decide_cases p tool (AWrite paths) mode)
      as [[? E]|[_ [(? & ? & E)|[_ [[? E]|[_ [(? & E & ?)|[_ E]]]]]]]];
      try done; try (destruct (Pipeline.decide p tool (AWrite paths) mode); done).
    by rewrite E in Ha. }
  pose proof (targets_resolved p (AWrite paths) paths Habs (eq_sym Hnorm) Hw) as Hr.
  pose proof (decide_write_allow p tool paths mode Hd) as Hcov.
  assert (Ht : targets p (AWrite paths) paths = map (resolve (project_root (policy_ctx p))) paths)
    by (by destruct paths).
  split.
  { intros ->. revert Hd. unfold DecideFiles.decide. done. }
  rewrite Ht in *. rewrite Forall_map in Hr.
  assert (Hprot : forall q, canonical q -> is_absolute q = true ->
    is_inside_allowed p q && policy_is_protected p q = false -> policy_is_protected p q = false).
  { intros q Hcq Haq Hq. destruct (policy_is_protected p q) eqn:Ep; [|done].
    by rewrite (protected_inside p q) in Hq. }
  destruct Hcov as [Hcov|[_ Hcov]]; rewrite Forall_map in Hcov;
    pose proof (conj Hr Hcov) as H; rewrite <- Forall_and in H; clear Hr Hcov;
    (eapply Forall_impl; [exact H|]); intros q [[Hcq Haq] Hq]; cbn zeta.
  - destruct Hq as [Hq (r & Hin & Hcv)]. split; [by apply Hprot|].
    unfold covers_path in Hcv. destruct (path_scope r tool (AWrite paths)) as [[pattern|]|] eqn:Es;
      [right; by exists r, pattern|by left|done].
  - destruct Hq as [Hq ->]. split; [done|by left].
Qed.

(** C37: why a shell command may run without asking.  Outside bypass mode an
    allowed command line is named as a whole by an allow rule, or it parsed
    completely, computes nothing at run time, and every file its commands
    open for writing is inside the allowed directories and unprotected, or
    the accept-edits mode judged it a contained filesystem command. *)
Theorem allowed_commands_justified (config : PolicyConfig) (ctx : PolicyContext)
    (extra : list Rule) (tool c : text) (mode : PermissionMode) :
  absolute_root ctx -> mode <> MBypass ->
  let p := session_policy config ctx extra in
  is_allow (Pipeline.decide p tool (AExecute c) mode) = true ->
  (exists r, In r (allow_rules p) /\ covers_line tool (trim c) r = true)
  \/ static_command c /\ writes_confined p c
  \/ mode = MAcceptEdits /\ is_common_fs_command (trim c) (project_root (policy_ctx p)) = true.
Proof using.
  intros Hc Hmode p Ha. apply (decide_execute_confined p tool c mode).
  - by apply session_policy_rooted.
  - destruct (decide_cases p tool (AExecute c) mode)
      as [[? E]|[_ [(? & ? & E)|[_ [[? E]|[_ [(? & E & ?)|[_ E]]]]]]]];
      try done; try (destruct (Pipeline.decide p tool (AExecute c) mode); done).
    by rewrite E in Ha.
Qed.

(** A sandboxed command is allowed only when every file it names for
    writing is confined: the redirect targets and written operands of each
    of its commands and of each command those may run through wrappers,
    shells and [find] actions. *)
Theorem sandboxed_writes_confined (config : PolicyConfig) (ctx : PolicyContext)
    (extra : list Rule) (c : text) (s cand : Segment) (w : Word) :
  absolute_root ctx ->
  let p := session_policy config ctx extra in
  sandbox_allows p (parse c) (candidates (new_facts c)) (truncated (new_facts c)) = true ->
  In s (all_segments (parse c)) -> rtc runs (start_candidate s) cand ->
  In w (write_targets cand ++ writes (operands (command cand))) ->
  confined p w.
Proof using.
  intros Hc p Hs Hin Hr Hw.
  apply sandbox_allows_confined in Hs as (_ & Ht & Hall); [|by apply session_policy_rooted].
  destruct (new_facts_candidate c s cand Hin Hr) as [E|Hcand]; [congruence|].
  rewrite List.Forall_forall in Hall. specialize (Hall cand (in_or_app _ _ _ (or_intror Hcand))).
  rewrite List.Forall_forall in Hall. by apply Hall.
Qed.

(** A Bash deny or ask rule cannot be dodged by running the command
    indirectly.  If a command that some part of the line may run, through any
    chain of wrappers, shells, paths, assignments or [find] actions, is
    restricted by the rule's pattern, the rule matches the line. *)
Theorem bash_rules_see_through (p : Policy) (r : Rule) (pattern : CommandPattern) (tool c : text)
    (s cand : Segment) :
  command_pattern r = Some (Some pattern) ->
  In s (all_segments (parse c)) -> rtc runs (start_candidate s) cand ->
  Command.restricts pattern (words cand) = true ->
  restricts_command p r tool (new_facts c) = true.
Proof using. apply restricts_command_candidate. Qed.

(** Deny rules cover at least what the same allow rule covers.  If a
    Bash pattern allows one command of a line, the deny rule with that
    pattern matches the whole line. *)
Theorem allow_pattern_denies (p : Policy) (r : Rule) (pattern : CommandPattern) (tool c : text)
    (s : Segment) :
  command_pattern r = Some (Some pattern) -> cp_words pattern <> Some [] ->
  In s (all_segments (parse c)) -> argv s <> [] -> allows pattern (argv s) = true ->
  restricts_command p r tool (new_facts c) = true.
Proof using.
  intros Hp Hw Hs Ha Hal. eapply restricts_command_candidate; [done|done|apply rtc_refl|].
  by apply allows_restricts.
Qed.
End WithGlobs.
