(* ===== verification/SuggestFacts.v ===== *)
(** The rule offered for "always allow" covers the command it was offered
    for. *)

From S2P Require Export AccessFacts Suggest.

(** * The lexer's words hold no NUL *)

Definition nul_free_words (ws : list Word) : Prop := Forall (fun w => nul_free (text_ w)) ws.

Lemma finish_word_free w st w' : finish_word w st = Some w' -> nul_free (text_ w').
Proof.
  unfold finish_word. destruct st; [|done]. intros [= <-]. cbn. apply take_while_all.
Qed.

Lemma bindM_Some {A B} (m : M A) (k : A -> M B) lx res :
  bindM m k lx = Some res -> exists a lx1, m lx = Some (a, lx1) /\ k a lx1 = Some res.
Proof. unfold bindM. destruct (m lx) as [[a lx1]|]; [eauto|done]. Qed.

Lemma r_word_free n w st br lx w' lx' :
  r_word (lexn n) w st br lx = Some (Some w', lx') -> nul_free (text_ w').
Proof.
  revert w st br lx. induction n as [|n IH]; intros w st br lx; [done|].
  rewrite r_word_step. unfold word_loop.
  assert (Hend : forall w0 st0 (lx0 : Lexer), Some (finish_word w0 st0, lx0) = Some (Some w', lx') ->
            nul_free (text_ w')).
  { intros w0 st0 lx0 [= E _]. by eapply finish_word_free. }
  assert (Hbind : forall m st0 br0 lx0,
            bindM m (fun w0 => r_word (lexn n) w0 st0 br0) lx0 = Some (Some w', lx') -> nul_free (text_ w')).
  { intros m st0 br0 lx0 (w0 & lx1 & _ & H)%bindM_Some. by eapply IH. }
  destruct (peek lx) as [c|]; [|apply Hend].
  repeat (case_if; [first [apply Hend|apply Hbind|idtac]|]); try apply Hbind.
  - destruct (single_quoted _ _). apply IH.
  - destruct (bump _) as [[e|] lx1]; [destruct (eqc NEWLINE e)|]; apply IH.
  - destruct (plain _ _ _ _). apply IH.
Qed.

Definition free_segment (s : Segment) : Prop := nul_free_words (words s).

Lemma finish_free segs cur :
  Forall free_segment segs -> free_segment cur -> Forall free_segment (finish segs cur).
Proof. intros Hs Hc. unfold finish. destruct (_ || _); [|done]. apply Forall_app. by repeat constructor. Qed.

Lemma redirect_free n s lx s' lx' :
  free_segment s -> redirect (lexn n) s lx = Some (s', lx') -> free_segment s'.
Proof.
  intros Hs. unfold redirect. destruct (operator lx) as [op lx1].
  intros (found & lx2 & _ & H)%bindM_Some.
  assert (Hseg : forall b : bool, free_segment (if b then mkSegment (removelast (words s)) (redirects s) else s)).
  { intros [|]; [|done]. by apply Forall_removelast. }
  destruct found as [w|]; [|injection H as <- _; apply Hseg].
  destruct op; injection H as <- _; apply Hseg.
Qed.

Lemma r_list_free n b segs cur g lx segs' lx' :
  Forall free_segment segs -> free_segment cur ->
  r_list (lexn n) b segs cur g lx = Some (segs', lx') -> Forall free_segment segs'.
Proof.
  assert (H0 : free_segment default_segment) by constructor.
  revert b segs cur g lx. induction n as [|n IH]; intros b segs cur g lx Hs Hc; [done|].
  rewrite r_list_step. unfold list_loop. pose proof (finish_free segs cur Hs Hc) as Hf.
  destruct (peek lx) as [c|]; [|by intros [= <- _]].
  assert (Hredir : bindM (redirect (lexn n) cur) (fun s => r_list (lexn n) b segs s g) lx
                   = Some (segs', lx') -> Forall free_segment segs').
  { intros (s & lx1 & Hr & H)%bindM_Some.
    eapply (IH b segs s g lx1); [done| |exact H]. by eapply redirect_free. }
  case_if; [by apply IH|].
  case_if; [destruct (heredoc_bodies _ _); [by apply IH|done]|].
  case_if; [by apply IH|]. case_if; [exact Hredir|]. case_if; [by apply IH|]. case_if; [by apply IH|].
  destruct (eqc (chr ")") c).
  { destruct g as [|g]; [|by apply IH]. destruct b; [by intros [= <- _]|by apply IH]. }
  case_if; [exact Hredir|].
  intros ([w|] & lx1 & Hw & H)%bindM_Some; [|by eapply (IH b segs cur g lx1)].
  eapply (IH b segs (push_word w cur)); [done| |exact H]. apply Forall_app. split; [done|].
  constructor; [|done]. by eapply r_word_free.
Qed.

Lemma lex_free c : Forall free_segment (lexed_segments (lex c)).
Proof.
  pose proof (lex_with_lex c (lex_fuel c) (le_n _)) as H. unfold lex_with in H.
  destruct (r_list _ _ _ _ _ _) as [[segs lx]|] eqn:E; [|done]. injection H as H. rewrite <- H.
  cbn. eapply r_list_free in E; [done|constructor|constructor].
Qed.

Lemma command_free s : free_segment s -> Forall nul_free (argv s).
Proof.
  unfold free_segment, argv, command. intros H. apply Forall_map.
  destruct (strip_keywords_suffix (words s)) as (pre & E). unfold nul_free_words in H.
  rewrite E in H. by apply Forall_app in H as [_ H].
Qed.

(** * The words of a prefix *)

Lemma picked_words_prefix name args picked :
  picked_words name args = Some picked ->
  exists more rest, picked = name :: more /\ args = more ++ rest.
Proof.
  unfold picked_words. intros H. destruct (_ || _).
  - destruct args as [|first rest]; [done|]. destruct (_ && _).
    + destruct rest as [|m rest]; [done|]. destruct (plain_word m); [|done]. injection H as <-.
      by exists [first; m], rest.
    + destruct (plain_word first); [|done]. injection H as <-. by exists [first], rest.
  - destruct args as [|sub rest]; [injection H as <-; by exists [], []|].
    destruct (plain_word sub).
    + destruct rest as [|next rest]; [injection H as <-; by exists [sub], []|].
      destruct (_ && _); injection H as <-; [by exists [sub; next], rest|by exists [sub], (next :: rest)].
    + destruct (mem _ _); [done|]. injection H as <-. by exists [], (sub :: rest).
Qed.

Lemma prefix_for_words ws t :
  prefix_for ws = Some t ->
  exists picked rest, ws = picked ++ rest /\ picked <> []
    /\ t = join (str " ") (map quote (map text_ picked)).
Proof.
  unfold prefix_for. set (n := length (take_while assignment ws)).
  destruct (drop n ws) as [|name args] eqn:Ed; [done|].
  destruct (_ || _ || _); [done|].
  destruct (picked_words name args) as [picked|] eqn:Ep; [|done]. intros [= <-].
  apply picked_words_prefix in Ep as (more & rest & -> & ->).
  exists (take n ws ++ name :: more), rest. split_and!.
  - rewrite <- app_assoc. cbn [app]. rewrite app_comm_cons, <- (take_drop n ws) at 1. by rewrite Ed.
  - by destruct (take n ws).
  - by rewrite map_map.
Qed.

Lemma bare_char_black c : bare_char c = true -> is_whitespace c = false.
Proof.
  unfold bare_char, is_ascii_alphanumeric, is_ascii_alphabetic, is_ascii_upper, is_ascii_lower,
    is_ascii_digit, is_whitespace, in_range. expand_sets. intros H.
  match goal with |- ?b = false => destruct b eqn:E; [|done] end. exfalso.
  repeat match goal with
  | H : (_ || _)%bool = true |- _ => apply orb_prop in H as [?|?]
  | H : (_ && _)%bool = true |- _ => apply andb_prop in H as [? ?]
  | H : (_ <=? _)%N = true |- _ => apply N.leb_le in H
  | H : (_ =? _)%N = true |- _ => apply N.eqb_eq in H
  end; try lia; done.
Qed.

Lemma quote_trimmed t : trimmed is_whitespace (quote t).
Proof.
  unfold quote. destruct (_ && _) eqn:E.
  - apply andb_prop in E as [E _]. eapply forallb_trimmed; [|exact E]. apply bare_char_black.
  - by apply trimmed_between.
Qed.

Lemma trimmed_app a b m :
  a <> [] -> b <> [] -> trimmed is_whitespace a -> trimmed is_whitespace b ->
  trimmed is_whitespace (a ++ m ++ b).
Proof.
  intros Ha Hb [H1 _] [_ H2]. split; [by apply clean_head_app|].
  rewrite !reverse_app, <- app_assoc. apply clean_head_app; [|done].
  intros E. apply Hb. by rewrite <- (reverse_involutive b), E.
Qed.

Lemma join_quote_trimmed ts :
  ts <> [] -> join (str " ") (map quote ts) <> []
  /\ trimmed is_whitespace (join (str " ") (map quote ts)).
Proof.
  induction ts as [|t ts IH]; [done|]. intros _. destruct ts as [|t' ts].
  - cbn. split; [apply quote_nonempty|apply quote_trimmed].
  - destruct IH as [Hne Htr]; [done|].
    change (join (str " ") (map quote (t :: t' :: ts)))
      with (quote t ++ str " " ++ join (str " ") (map quote (t' :: ts))).
    split; [by destruct (quote t)|]. apply trimmed_app; auto using quote_nonempty, quote_trimmed.
Qed.

(** The words of a printed prefix, as a rule reads them. *)
Lemma simple_words_quoted ts ws :
  ts <> [] -> Forall nul_free ts -> mem (List.hd [] ts) LEADING_KEYWORDS = false ->
  simple_words (join (str " ") (map quote ts)) = Some ws -> ws = ts.
Proof.
  intros Hne Hn Hk. destruct (lex_quoted ts Hne Hn) as (wl & E & Ht & _).
  unfold simple_words, parse. rewrite E. cbn [lexed_segments lexed_nested lexed_ok lexed_dynamic parsed_segments parsed_ok parsed_dynamic].
  destruct (_ && _); [|done]. cbn [redirects is_empty andb].
  destruct (negb _); [|done]. intros [= <-]. unfold argv, command. cbn [words].
  destruct wl as [|w wl]; [done|]. rewrite strip_keywords_head; [done|].
  rewrite <- Ht in Hk. cbn [map List.hd] in Hk. by rewrite Hk, orb_true_r.
Qed.

Section WithGlobs.
Context {G : Globset} {P : Platform}.

(** A Bash rule text with a trimmed specifier parses to that pattern. *)
Lemma rule_parse_bash spec r :
  spec <> [] -> trimmed is_whitespace spec ->
  rule_parse (str "Bash(" ++ spec ++ str ")") = Ok r ->
  exists p, CommandPattern_parse spec = Ok p /\ r = mkRule (TBash p).
Proof using.
  intros Hne Htr H.
  assert (Hg : good_tool (str "Bash")) by (by split).
  assert (Hs : good_specifier (Some spec)) by (by split).
  change (str "Bash(" ++ spec ++ str ")") with (optional (str "Bash") (Some spec)) in H.
  unfold rule_parse in H. rewrite trimmed_trim in H by (by apply optional_trimmed).
  rewrite split_optional in H by done. cbn [result_bind] in H.
  change (strip_prefix (str "mcp__") (str "Bash")) with (@None (list N)) in H.
  apply result_bind_Ok in H as (tg & Ht & [= <-]). unfold target_of in Ht.
  change (contains_char (chr "*") (str "Bash")) with false in Ht.
  change (teqb (str "Bash") (str "Bash")) with true in Ht.
  apply result_bind_Ok in Ht as (p & Hp & [= <-]). exists p. split; [|done].
  destruct (CommandPattern_parse spec); [by injection Hp as ->|done].
Qed.

(** A prefix suggestion, read back, allows the command's words. *)
Lemma prefix_rule_allows s prefix r :
  Forall nul_free (argv s) -> mem (List.hd [] (argv s)) LEADING_KEYWORDS = false ->
  prefix_for (command s) = Some prefix ->
  rule_parse (str "Bash(" ++ prefix ++ str ":*)") = Ok r ->
  allows_argv (argv s) r = true.
Proof using.
  intros Hn Hk (picked & rest & Hcmd & Hne & ->)%prefix_for_words Hr.
  set (ts := map text_ picked) in *.
  assert (Hts : ts <> []) by (unfold ts; by destruct picked).
  assert (Ha : argv s = ts ++ map text_ rest) by (unfold argv; rewrite Hcmd; apply map_app).
  destruct (join_quote_trimmed ts Hts) as [Hjne Hjt].
  set (line := join (str " ") (map quote ts)) in *.
  assert (Hst : trimmed is_whitespace (line ++ str ":*")).
  { apply (trimmed_app line (str ":*") []); [done|done|done|by vm_compute]. }
  replace (str "Bash(" ++ line ++ str ":*)") with (str "Bash(" ++ (line ++ str ":*") ++ str ")") in Hr
    by (by rewrite <- app_assoc).
  apply rule_parse_bash in Hr as (p & Hp & ->); [|by destruct line|done].
  unfold CommandPattern_parse in Hp. rewrite trimmed_trim in Hp by done.
  rewrite command_body_prefix in Hp by (apply trim_end_by_id, Hjt).
  destruct (is_empty line) eqn:Ee; [by destruct line|].
  destruct (simple_words line) as [ws|] eqn:Ew; [|done]. injection Hp as <-.
  rewrite Ha in Hn, Hk. apply Forall_app in Hn as [Hn _].
  apply simple_words_quoted in Ew; [|done|done|by destruct ts]. subst ws.
  unfold allows_argv, command_pattern, allows. cbn [rule_target cp_words cp_prefix].
  apply words_prefix_spec. exists (map text_ rest). exact Ha.
Qed.

(** An exact suggestion, read back, names the whole line. *)
Lemma exact_rule_matches command_ r :
  trimmed is_whitespace command_ -> ends_with [chr "*"] command_ = false ->
  rule_parse (str "Bash(" ++ command_ ++ str ")") = Ok r ->
  exists p, command_pattern r = Some (Some p) /\ matches_line p command_ = true.
Proof using.
  intros Htr He Hr. destruct (decide (command_ = [])) as [->|Hne]; [by vm_compute in Hr|].
  apply rule_parse_bash in Hr as (p & Hp & ->); [|done|done].
  unfold CommandPattern_parse in Hp. rewrite trimmed_trim in Hp by done.
  assert (Hno : forall a, strip_suffix (a ++ [chr "*"]) command_ = None).
  { intros a. destruct (strip_suffix _ command_) as [b|] eqn:E; [|done].
    apply strip_suffix_Some in E. assert (ends_with [chr "*"] command_ = true); [|congruence].
    apply ends_with_spec. exists (b ++ a). by rewrite E, app_assoc. }
  unfold command_body in Hp. change (str ":*") with ([chr ":"] ++ [chr "*"]) in Hp.
  change (str "*") with ([] ++ [chr "*"]) in Hp. rewrite !Hno in Hp.
  destruct (is_empty command_) eqn:Ee; [by destruct command_|].
  exists (mkCommandPattern command_ (simple_words command_) false). split.
  - destruct (simple_words command_); injection Hp as <-; done.
  - unfold matches_line. cbn. by rewrite trimmed_trim, teqb_refl.
Qed.

(** * Properties *)

(** The rule suggested for "always allow" does cover what it was
    suggested for.  The suggestion is in canonical form; its rule names the
    whole line, or it allows a command of the line that no rule covered
    before, provided that command is not a quoted reserved word. *)
Theorem suggested_rule_covers (p : Policy) (tool c t : text) :
  suggestion p (new_facts c) = Some t ->
  Forall (fun s => mem (List.hd [] (argv s)) LEADING_KEYWORDS = false) (parsed_segments (parse c)) ->
  exists r s, rule_parse t = Ok r
    /\ In s (parsed_segments (parse c)) /\ coverage p s = CNone
    /\ (covers_line tool (trim c) r = true \/ allows_argv (argv s) r = true).
Proof using.
  intros Hs Hk. unfold suggestion in Hs. destruct (_ || _); [done|].
  destruct (List.find _ _) as [s|] eqn:Ef; [|done]. apply find_some in Ef as [Hin Hc].
  destruct (suggestion_text p (new_facts c) s) as [t0|] eqn:Et; [|done].
  destruct (rule_parse t0) as [r|] eqn:Er; [|done]. injection Hs as <-.
  exists r, s. split; [by eapply rule_parse_roundtrip|]. split; [exact Hin|].
  split; [by destruct (coverage p s)|].
  assert (Hkw : mem (List.hd [] (argv s)) LEADING_KEYWORDS = false).
  { rewrite List.Forall_forall in Hk. by apply Hk. }
  assert (Hfree : Forall nul_free (argv s)).
  { apply command_free. pose proof (lex_free c) as Hl. rewrite List.Forall_forall in Hl. by apply Hl. }
  unfold suggestion_text in Et.
  destruct (if redirects_contained p s then prefix_for (command s) else None) as [prefix|] eqn:Ep.
  - right. injection Et as <-. destruct (redirects_contained p s); [|done].
    by eapply prefix_rule_allows.
  - left. destruct (_ && _ && negb (ends_with _ _)) eqn:Ee; [|done]. injection Et as <-.
    apply andb_prop in Ee as [_ Ee]. apply negb_true_iff in Ee.
    apply exact_rule_matches in Er as (pat & Hp & Hm); [|apply trim_trimmed|exact Ee].
    unfold covers_line. rewrite Hp. cbn in Hm. rewrite Hm. apply orb_true_r.
Qed.
End WithGlobs.

(** A quoted reserved word is printed bare and read back as the reserved word:
    the rule suggested for the program [then] allows every [rm]. *)
Lemma suggested_keyword_rule :
  let parse_ := @rule_parse simple_globset linux in
  suggest_prefix (str "'then' rm x") = Some (str "then rm")
  /\ suggest_prefix (str "rm x") = None
  /\ match parse_ (str "Bash(then rm:*)") with
     | Ok r => allows_argv [str "rm"; str "-rf"; str "/"] r = true
               /\ allows_argv [str "then"; str "rm"; str "x"] r = false
     | Err _ => False
     end.
Proof. cbv zeta. split_and!; vm_compute; auto. Qed.

Lemma suggested_rule_covers_witness :
  let ctx := mkPolicyContext (components (str "/work/app")) [] None in
  let p := @session_policy simple_globset linux default_config ctx [] in
  @suggestion simple_globset linux p (new_facts (str "ls; cargo test -p 'my crate'"))
    = Some (str "Bash(cargo test:*)")
  /\ exists r s, @rule_parse simple_globset linux (str "Bash(cargo test:*)") = Ok r
       /\ In s (parsed_segments (parse (str "ls; cargo test -p 'my crate'"))).
Proof.
  cbv zeta.
  assert (H : @suggestion simple_globset linux
      (@session_policy simple_globset linux default_config
         (mkPolicyContext (components (str "/work/app")) [] None) [])
      (new_facts (str "ls; cargo test -p 'my crate'")) = Some (str "Bash(cargo test:*)"))
    by (vm_compute; reflexivity).
  split; [exact H|].
  destruct (@suggested_rule_covers simple_globset linux _ (str "Bash") _ _ H) as (r & s & Hr & Hs & _).
  - vm_compute. repeat constructor.
  - exists r, s. split; [exact Hr|exact Hs].
Defined.
