(* ===== verification/Protocol.v ===== *)
(** Permissions, interactions and conversations of the protocol crate ([permission.rs], [interaction.rs], [content.rs], [session.rs]). *)

From S2P Require Export Pipeline.

Abbreviation id := (list N) (only parsing).

(** [serde_json::Value]: a third-party type, used through its accessors. *)
Class Json := {
  json : Type;
  is_object : json -> bool;
  json_get : json -> text -> option json;
  as_array : json -> option (list json);
  as_str : json -> option text;
  is_null : json -> bool;
  (** its [Display] *)
  to_text : json -> text
}.

(** * Approvals *)

Inductive Preview :=
| PreviewDiff (path_ diff : text)
| PreviewCommand (command_ : text) (description : option text)
| PreviewText (text_ : text).

Record ApprovalRequest {J : Json} := mkApprovalRequest {
  request_id : id;
  request_agent : id;
  call_id : id;
  request_tool : text;
  title : text;
  input : json;
  preview : option Preview;
  request_reason : text;
  suggested_rule : option text;
  can_persist : bool
}.

Arguments mkApprovalRequest {J} _ _ _ _ _ _ _ _ _ _.

(** * Questions and plans *)

Record QuestionOption := mkQuestionOption {
  option_label : text;
  option_description : option text
}.

Record Question := mkQuestion {
  question : text;
  header : text;
  options : list QuestionOption;
  multi_select : bool
}.

Record QuestionAnswer := mkQuestionAnswer {
  answered_question : text;
  answers : list text
}.

Inductive PlanDecision :=
| Approve (mode : PermissionMode) (edited_plan : option text)
| Revise (feedback : text).

Record PendingQuestion := mkPendingQuestion {
  question_id : id;
  question_agent : id;
  questions : list Question
}.

Record PendingPlan := mkPendingPlan {
  plan_id : id;
  plan_agent : id;
  plan : text
}.

(** * Session status *)

Inductive SessionStatus := Idle | Busy | Waiting.

#[export] Instance SessionStatus_eq_dec : EqDecision SessionStatus.
Proof. solve_decision. Defined.

Inductive NoticeLevel := Info | Warn | NoticeError.

Inductive ToolStatus := SOk | SError | SDenied | SCancelled.

#[export] Instance ToolStatus_eq_dec : EqDecision ToolStatus.
Proof. solve_decision. Defined.

(** * Content *)

Inductive MediaSource :=
| Base64 (media_type data : text)
| Url (url : text).

Inductive ToolResultPart :=
| PartText (t : text)
| PartImage (source : MediaSource).

Inductive ContentBlock {J : Json} :=
| BText (t : text)
| BImage (source : MediaSource)
| BDocument (source : MediaSource) (title_ : option text)
| BThinking (t : text) (signature : option text)
| BRedactedThinking (data : text)
| BToolUse (i : id) (n : text) (v : json)
| BToolResult (i : id) (content : list ToolResultPart) (is_error : bool).

(** * Messages *)

Inductive Role := User | Assistant.

#[global] Instance Role_eq_dec : EqDecision Role.
Proof. solve_decision. Defined.

Section WithJson.
Context {J : Json}.

Record Message := mkMessage {
  message_id : id;
  role : Role;
  content : list ContentBlock;
  created_at : N
}.

(** [Message::new], with the identifier and the time it takes from the
    machine. *)
Definition new_message (stamp : id * N) (r : Role) (blocks : list ContentBlock) : Message :=
  mkMessage (fst stamp) r blocks (snd stamp).

Definition set_content (m : Message) (blocks : list ContentBlock) : Message :=
  mkMessage (message_id m) (role m) blocks (created_at m).

Definition tool_use (b : ContentBlock) : option (id * text * json) :=
  match b with BToolUse i n v => Some (i, n, v) | _ => None end.

Definition tool_uses (m : Message) : list (id * text * json) := omap tool_use (content m).

(** The call a block is the result of. *)
Definition result_of (b : ContentBlock) : option id :=
  match b with BToolResult i _ _ => Some i | _ => None end.

Definition is_result (b : ContentBlock) : bool :=
  match b with BToolResult _ _ _ => true | _ => false end.

Definition tool_result (i : id) (t : text) (is_error : bool) : ContentBlock :=
  BToolResult i [PartText t] is_error.

(** The text blocks, a newline between them unless nothing came before. *)
Definition push_text (out : text) (b : ContentBlock) : text :=
  match b with
  | BText t => (if is_empty out then out else out ++ [NEWLINE]) ++ t
  | _ => out
  end.

Definition message_text (m : Message) : text := foldl push_text [] (content m).

End WithJson.
