(* ===== verification/Float.v ===== *)
(** [f64] and [Duration] of the Rust standard library: IEEE doubles as
    [SpecFloat] computes them, their reading and printing. *)

From Stdlib Require Import SpecFloat.
From S2P Require Export Text.

#[local] Open Scope N_scope.

Definition U64 : N := 2 ^ 64.

Definition f64 : Type := spec_float.
Definition f64_zero : f64 := S754_zero false.
Definition f64_add : f64 -> f64 -> f64 := SFadd 53 1024.

(** * [f64] and [Duration] of the standard library *)

Definition PREC : Z := 53.
Definition EMAX : Z := 1024.

(** The float nearest to [n * 10^k]. *)
Definition decimal_f64 (n : N) (k : Z) : f64 :=
  match n with
  | 0 => S754_zero false
  | Npos d =>
      match k with
      | Zneg p =>
          let '(m, e, l) := SFdiv_core_binary PREC EMAX (Zpos d) 0 (10 ^ Zpos p) 0 in
          binary_round_aux PREC EMAX false m e l
      | _ => binary_normalize PREC EMAX (Zpos d * 10 ^ k) 0 false
      end
  end.

(** The digits at the start of a text, and what follows. *)
Fixpoint take_digits (t : text) : text * text :=
  match t with
  | c :: t' => if is_ascii_digit c then let '(d, rest) := take_digits t' in (c :: d, rest) else ([], t)
  | [] => ([], [])
  end.

Definition digits_value (digits : text) : N := fold_left (fun n c => n * 10 + (c - 48)) digits 0.

Definition take_sign (t : text) : bool * text :=
  match t with
  | c :: t' => if c =? 45 then (true, t') else if c =? 43 then (false, t') else (false, t)
  | [] => (false, [])
  end.

(** The exponent after a mantissa: nothing, or [e] and an integer. *)
Definition parse_exponent (t : text) : option Z :=
  match t with
  | [] => Some 0%Z
  | c :: t =>
      if (c =? 101) || (c =? 69) then
        let '(negative, t) := take_sign t in
        let '(digits, rest) := take_digits t in
        if is_empty digits || negb (is_empty rest) then None
        else let n := Z.of_N (digits_value digits) in Some (if negative then - n else n)%Z
      else None
  end.

(** [f64::from_str] on a number; [inf] and [nan], which it also reads, are
    not finite and are given as no number. *)
Definition parse_f64 (t : text) : option f64 :=
  let '(negative, t) := take_sign t in
  let '(whole, t) := take_digits t in
  let '(part, t) :=
    match t with
    | c :: t' => if c =? 46 then take_digits t' else ([], t)
    | [] => ([], [])
    end in
  if is_empty (whole ++ part) then None
  else match parse_exponent t with
       | Some e =>
           let value := decimal_f64 (digits_value (whole ++ part)) (e - Z.of_nat (length part)) in
           Some (if negative then SFopp value else value)
       | None => None
       end.

Definition is_finite (v : f64) : bool :=
  match v with S754_zero _ | S754_finite _ _ _ => true | S754_infinity _ | S754_nan => false end.

Definition f64_of_N (n : N) : f64 := binary_normalize PREC EMAX (Z.of_N n) 0 false.

Definition NANOS_PER_SEC : N := 1000000000.

(** [Duration::MAX] *)
Definition DURATION_MAX : N := U64 * NANOS_PER_SEC - 1.

Definition as_secs_f64 (d : N) : f64 :=
  SFadd PREC EMAX (f64_of_N (d / NANOS_PER_SEC))
    (SFdiv PREC EMAX (f64_of_N (d mod NANOS_PER_SEC)) (f64_of_N NANOS_PER_SEC)).

(** [f64::min] of two numbers. *)
Definition f64_min (a b : f64) : f64 := if SFltb b a then b else a.

(** The integer nearest to [a / b], the even one of two. *)
Definition round_div (a b : Z) : Z :=
  let '(q, r) := Z.div_eucl a b in
  match (2 * r ?= b)%Z with
  | Lt => q
  | Gt => q + 1
  | Eq => if Z.even q then q else q + 1
  end%Z.

(** [Duration::from_secs_f64] of a finite number that is not negative. *)
Definition from_secs_f64 (v : f64) : N :=
  match v with
  | S754_finite false m e =>
      let n := (Zpos m * Z.of_N NANOS_PER_SEC)%Z in
      Z.to_N (if (0 <=? e)%Z then n * 2 ^ e else round_div n (2 ^ (- e)))
  | _ => 0
  end.

(** [{:.2}] of a number: its hundredths, rounded to even. *)
Definition show_cents (x : f64) : text :=
  let digits n :=
    show_N (n / 100) ++ str "." ++ (if (n mod 100 <? 10) then str "0" else []) ++ show_N (n mod 100) in
  match x with
  | S754_zero sign => (if sign then str "-" else []) ++ digits 0
  | S754_finite sign m e =>
      let n := (Zpos m * 100)%Z in
      (if sign then str "-" else [])
      ++ digits (Z.to_N (if (0 <=? e)%Z then n * 2 ^ e else round_div n (2 ^ (- e))))
  | S754_infinity sign => (if sign then str "-" else []) ++ str "inf"
  | S754_nan => str "NaN"
  end.

(** The decimal text of an [i64]. *)
Definition show_Z (z : Z) : text :=
  if (z <? 0)%Z then chr "-" :: show_N (Z.to_N (- z)) else show_N (Z.to_N z).
