(* ===== verification/Edit.v ===== *)
(** Replacements in file content ([z-engine-tools/src/edit], files
    [engine.rs] and [ladder.rs], with [text/numbering.rs]): exact matches
    first, then the fallback ladder for a single unambiguous region, with the
    line endings of the file kept. *)

From Stdlib Require Import String SpecFloat.
From stdpp Require Import list.
From S2P Require Export Float.

(** The third-party crate [strsim]. *)
Class Strsim := { normalized_levenshtein : text -> text -> f64 }.

(** [f64::total_cmp], with one kind of NaN, above all numbers. *)
Definition total_cmp (a b : f64) : comparison :=
  match SFcompare a b with
  | Some Eq => match a, b with
               | S754_zero true, S754_zero false => Lt
               | S754_zero false, S754_zero true => Gt
               | _, _ => Eq
               end
  | Some c => c
  | None => match a, b with S754_nan, S754_nan => Eq | S754_nan, _ => Gt | _, _ => Lt end
  end.

(** * [numbering.rs] *)

(** [{number:>6}] *)
Definition right_aligned (width : nat) (t : text) : text := repeat 32%N (width - length t) ++ t.

Definition cut_line (line : text) (max_chars : nat) : option (text * nat) :=
  if Nat.ltb max_chars (length line) then Some (take max_chars line, length line - max_chars) else None.

Definition push_numbered (number : nat) (line : text) (max_chars : nat) : text :=
  right_aligned 6 (show_N (N.of_nat number)) ++ [TAB]
  ++ match cut_line line max_chars with
     | Some (kept, omitted) =>
         kept ++ str "... [line truncated: " ++ show_N (N.of_nat omitted) ++ str " more characters]"
     | None => line
     end ++ [NEWLINE].

Definition numbered (ls : list text) (first max_chars : nat) : text :=
  concat (imap (fun index line => push_numbered (first + index) line max_chars) ls).

(** * [ladder.rs] *)

Definition FUZZY_THRESHOLD : f64 := decimal_f64 9 (-1).
Definition FUZZY_MIN_CHARS : nat := 12.
Definition FUZZY_BUDGET : N := 150000000.
Definition HINT_THRESHOLD : f64 := decimal_f64 6 (-1).

Inductive Rung := Whitespace | Fuzzy (score : f64).

Record Region := mkRegion { region_start : nat; region_len : nat; region_rung : Rung; region_indent : option text }.

Inductive Miss :=
| Ambiguous (count : nat) (rung : Rung)
| NotFound (closest : option (nat * nat * f64)).

Definition SPACE : char := 32%N.

Definition normalize (line : text) : text := join [SPACE] (split_whitespace line).

Definition leading_ws (line : text) : text := take_while is_whitespace line.

(** [None] when two lines have different extra indentation, or one has less
    than the old line. *)
Fixpoint indent_loop (delta : option text) (pairs : list (text * text)) : option (option text) :=
  match pairs with
  | [] => Some delta
  | (file_line, old_line) :: pairs =>
      if is_empty (trim file_line) || is_empty (trim old_line) then indent_loop delta pairs
      else match strip_suffix (leading_ws old_line) (leading_ws file_line) with
           | None => None
           | Some extra =>
               match delta with
               | Some seen => if teqb seen extra then indent_loop (Some extra) pairs else None
               | None => indent_loop (Some extra) pairs
               end
           end
  end.

Definition indent_delta (file old : list text) : option text :=
  match indent_loop None (combine file old) with
  | Some (Some extra) => if is_empty extra then None else Some extra
  | _ => None
  end.

Definition reindent (new : text) (indent : option text) : text :=
  match indent with
  | None => new
  | Some indent =>
      concat (map (fun line => if is_empty (trim line) then line else indent ++ line) (split_inclusive new))
  end.

(** [k] lines from line [start]. *)
Definition window {A} (l : list A) (start k : nat) : list A := take k (drop start l).

Definition abs_diff (a b : nat) : nat := (a - b) + (b - a).

Definition f64_of_nat (n : nat) : f64 := f64_of_N (N.of_nat n).

Section WithStrsim.
Context {S : Strsim}.

(** The similarity that the lengths allow at most. *)
Definition ceiling (window_len target_len : nat) : f64 :=
  let longest := Nat.max (Nat.max window_len target_len) 1 in
  SFsub PREC EMAX (f64_of_nat 1)
    (SFdiv PREC EMAX (f64_of_nat (abs_diff window_len target_len)) (f64_of_nat longest)).

Definition window_chars (norm_file : list text) (k start : nat) : nat :=
  list_sum (map (@length char) (window norm_file start k)) + (k - 1).

(** The windows that are compared: the closest one and the candidates;
    [None] when the budget is spent. *)
Fixpoint fuzzy_scan (norm_file : list text) (k : nat) (target : text) (starts : list nat) (spent : N)
    (candidates : list (nat * f64)) (closest : option (nat * f64))
  : option (list (nat * f64) * option (nat * f64)) :=
  match starts with
  | [] => Some (candidates, closest)
  | start :: starts =>
      let window_len := window_chars norm_file k start in
      if SFltb (ceiling window_len (length target)) HINT_THRESHOLD
      then fuzzy_scan norm_file k target starts spent candidates closest
      else
        let spent := (spent + N.of_nat window_len * N.of_nat (length target))%N in
        if (FUZZY_BUDGET <? spent)%N then None
        else
          let score := normalized_levenshtein (join [NEWLINE] (window norm_file start k)) target in
          fuzzy_scan norm_file k target starts spent
            (if SFleb FUZZY_THRESHOLD score then candidates ++ [(start, score)] else candidates)
            (match closest with
             | Some (_, best) => if SFltb best score then Some (start, score) else closest
             | None => Some (start, score)
             end)
  end.

(** The order of candidates: by score, then the earlier one first. *)
Definition compare_candidates (a b : nat * f64) : comparison :=
  match total_cmp (snd a) (snd b) with Eq => Nat.compare (fst b) (fst a) | c => c end.

Definition max_candidate (candidates : list (nat * f64)) : option (nat * f64) :=
  match candidates with
  | [] => None
  | c :: candidates =>
      Some (foldl (fun m x => match compare_candidates m x with Gt => m | _ => x end) c candidates)
  end.

(** The places of the candidates that do not overlap the best one, counted as
    clusters, and the best one itself. *)
Definition count_places (k best : nat) (candidates : list (nat * f64)) : nat :=
  fst (foldl (fun '(separate, cluster) start =>
                match cluster with
                | Some first => if Nat.leb k (start - first) then (separate + 1, Some start) else (separate, cluster)
                | None => (separate + 1, Some start)
                end) (1, None)
         (List.filter (fun s => Nat.leb k (abs_diff s best)) (map fst candidates))).

Definition fuzzy (norm_file norm_old ls old_lines : list text) : result Miss Region :=
  let k := length norm_old in
  let target := join [NEWLINE] norm_old in
  match fuzzy_scan norm_file k target (seq 0 (length norm_file - k + 1)) 0 [] None with
  | None => Err (NotFound None)
  | Some (candidates, closest) =>
      let hint :=
        match closest with
        | Some (start, score) => if SFleb HINT_THRESHOLD score then Some (start, k, score) else None
        | None => None
        end in
      if Nat.ltb (length target) FUZZY_MIN_CHARS then Err (NotFound hint)
      else match max_candidate candidates with
           | None => Err (NotFound hint)
           | Some (best, score) =>
               let separate := count_places k best candidates in
               if Nat.ltb 1 separate then Err (Ambiguous separate (Fuzzy score))
               else Ok (mkRegion best k (Fuzzy score) (indent_delta (window ls best k) old_lines))
           end
  end.

(** [old.strip_suffix('\n').unwrap_or(old).split('\n')] *)
Definition lines_of_old (old : text) : list text := split_on NEWLINE (default old (strip_suffix [NEWLINE] old)).

(** Where the normalized lines stand in the file. *)
Definition hits (norm_file norm_old : list text) : list nat :=
  List.filter (fun i => bool_decide (window norm_file i (length norm_old) = norm_old))
    (seq 0 (length norm_file - length norm_old + 1)).

Definition locate (ls : list text) (old : text) : result Miss Region :=
  let old_lines := lines_of_old old in
  let k := length old_lines in
  if Nat.ltb (length ls) k then Err (NotFound None)
  else
    let norm_old := map normalize old_lines in
    let norm_file := map normalize ls in
    if existsb (fun line => negb (is_empty line)) norm_old then
      match hits norm_file norm_old with
      | [start] => Ok (mkRegion start k Whitespace (indent_delta (window ls start k) old_lines))
      | [] => fuzzy norm_file norm_old ls old_lines
      | many => Err (Ambiguous (length many) Whitespace)
      end
    else fuzzy norm_file norm_old ls old_lines.

(** * [engine.rs] *)

Definition HINT_MAX_LINES : nat := 20.
Definition HINT_LINE_CHARS : nat := 300.

Record EditSpec := mkEditSpec { edit_old : text; edit_new : text; replace_all : bool }.

Inductive MatchKind :=
| Exact
| Ladder (rung : Rung) (first last : nat)
| Created.

Record EditReport := mkEditReport { replacements : nat; match_kind : MatchKind }.
Record Applied := mkApplied { applied_content : text; reports : list EditReport }.
Record EditFailure := mkEditFailure { failed_index : nat; failure_message : text }.

Definition created : EditReport := mkEditReport 1 Created.

Definition rung_label (r : Rung) : text :=
  match r with
  | Whitespace => str "after normalizing whitespace"
  | Fuzzy score => str "approximately (similarity " ++ show_cents score ++ str ")"
  end.

Definition show_nat (n : nat) : text := show_N (N.of_nat n).

Definition miss_message (ls : list text) (m : Miss) : text :=
  match m with
  | Ambiguous count rung =>
      str "old_string was not found exactly, and " ++ show_nat count ++ str " places match it " ++ rung_label rung
      ++ str ". Include more surrounding lines so it matches exactly once"
  | NotFound closest =>
      str "old_string was not found in the file. It must match exactly, including whitespace and indentation, without the line-number prefix Read adds. Read the file again and copy the text exactly"
      ++ match closest with
         | Some (start, len, score) =>
             str "." ++ [NEWLINE] ++ str "The most similar text is at lines " ++ show_nat (start + 1) ++ str "-"
             ++ show_nat (start + len) ++ str " (similarity " ++ show_cents score ++ str "):" ++ [NEWLINE]
             ++ numbered (window ls start (Nat.min len HINT_MAX_LINES)) (start + 1) HINT_LINE_CHARS
         | None => []
         end
  end.

Definition ends_with_newline (t : text) : bool := ends_with [NEWLINE] t.

(** [text] with the region's whole lines replaced by [new]. *)
Definition splice (t : text) (r : Region) (new : text) : text :=
  let pieces := split_inclusive t in
  let ends_with_newline_ := match last (window pieces (region_start r) (region_len r)) with
                            | Some piece => ends_with_newline piece
                            | None => false
                            end in
  let middle := reindent new (region_indent r) in
  let middle := if ends_with_newline_ && negb (is_empty middle) && negb (ends_with_newline middle)
                then middle ++ [NEWLINE] else middle in
  concat (take (region_start r) pieces) ++ middle ++ concat (drop (region_start r + region_len r) pieces).

Definition replace_region (t old new : text) : result text (text * EditReport) :=
  let ls := lines t in
  match locate ls old with
  | Err miss => Err (miss_message ls miss)
  | Ok r =>
      Ok (splice t r new,
          mkEditReport 1 (Ladder (region_rung r) (region_start r + 1) (region_start r + region_len r)))
  end.

Definition replace (t old new : text) (all : bool) : result text (text * EditReport) :=
  let count := occurrences old t in
  if Nat.eqb count 1 then
    match split_once old t with
    | Some (before, after) => Ok (before ++ new ++ after, mkEditReport 1 Exact)
    | None => Ok (t, mkEditReport 1 Exact)
    end
  else if Nat.ltb 1 count then
    if all then Ok (replace_text old new t, mkEditReport count Exact)
    else Err (str "old_string occurs " ++ show_nat count ++ str " times in the file. Set replace_all to replace every occurrence, or include more surrounding lines so it matches exactly once")
  else replace_region t old new.

Definition CRLF : text := [13%N; NEWLINE].

Definition is_crlf (t : text) : bool :=
  let breaks := occurrences [NEWLINE] t in
  Nat.ltb 0 breaks && Nat.eqb (occurrences CRLF t) breaks.

Definition lf (t : text) (crlf : bool) : text := if crlf then replace_text CRLF [NEWLINE] t else t.

(** One edit of the content so far. *)
Definition apply_edit (crlf : bool) (index : nat) (current : option text) (edit : EditSpec)
  : result text (text * EditReport) :=
  let old := lf (edit_old edit) crlf in
  let new := lf (edit_new edit) crlf in
  if teqb old new then Err (str "old_string and new_string are identical, so there is nothing to change")
  else match current with
       | None =>
           if is_empty old then Ok (new, created)
           else Err (str "the file does not exist. To create it, use Write, or pass an empty old_string with the new content")
       | Some t =>
           if is_empty old then
             if Nat.ltb 0 index || negb (is_empty (trim t))
             then Err (str "old_string is empty, which only creates a new file or fills an empty one. Give the exact text to replace")
             else Ok (new, created)
           else replace t old new (replace_all edit)
       end.

Fixpoint apply_loop (crlf : bool) (index : nat) (edits : list EditSpec) (current : option text)
    (reports_ : list EditReport) : result EditFailure (option text * list EditReport) :=
  match edits with
  | [] => Ok (current, reports_)
  | edit :: edits =>
      match apply_edit crlf index current edit with
      | Err message => Err (mkEditFailure index message)
      | Ok (next, report) => apply_loop crlf (index + 1) edits (Some next) (reports_ ++ [report])
      end
  end.

Definition apply_edits (content_ : option text) (edits : list EditSpec) : result EditFailure Applied :=
  let crlf := match content_ with Some t => is_crlf t | None => false end in
  match apply_loop crlf 0 edits (option_map (fun t => lf t crlf) content_) [] with
  | Err failure => Err failure
  | Ok (current, reports_) =>
      let content_ := default [] current in
      Ok (mkApplied (if crlf then replace_text [NEWLINE] CRLF content_ else content_) reports_)
  end.

End WithStrsim.
