(* ===== verification/EditFacts.v ===== *)
(** What an edit does to a file's content: exactly the chosen text changes,
    an ambiguous edit is refused, and line endings are kept. *)

From Stdlib Require Import String SpecFloat.
From stdpp Require Import list sets.
From S2P Require Export Edit.

(** * Occurrences of a text *)

Section Pieces.
Context (sep : text).

(** The pieces between the occurrences of [sep], from the left. *)
Inductive pieces_of : text -> list text -> Prop :=
| pieces_end t : split_once sep t = None -> pieces_of t [t]
| pieces_more t a b ps : split_once sep t = Some (a, b) -> pieces_of b ps -> pieces_of t (a :: ps).

Lemma split_once_shorter t a b : sep <> [] -> split_once sep t = Some (a, b) -> length b < length t.
Proof.
  intros Hs H. apply split_once_app in H as ->. rewrite !length_app.
  destruct sep as [|c s]; [done|]. cbn [length]. lia.
Qed.

Lemma split_str_loop_pieces fuel t : sep <> [] -> length t <= fuel -> pieces_of t (split_str_loop fuel sep t).
Proof.
  intros Hs. revert t. induction fuel as [|fuel IH]; intros t Hf; cbn [split_str_loop].
  - destruct t; [|cbn in Hf; lia]. apply pieces_end. destruct sep; done.
  - destruct (split_once sep t) as [[a b]|] eqn:E; [|by apply pieces_end].
    eapply pieces_more; [done|]. apply IH. pose proof (split_once_shorter t a b Hs E). lia.
Qed.

Lemma split_str_pieces t : sep <> [] -> pieces_of t (split_str sep t).
Proof. intros Hs. by apply split_str_loop_pieces. Qed.

Lemma pieces_nonempty t ps : pieces_of t ps -> ps <> [].
Proof. by destruct 1. Qed.

Lemma pieces_unique t ps qs : pieces_of t ps -> pieces_of t qs -> ps = qs.
Proof.
  intros H. revert qs. induction H as [t E|t a b ps E H IH]; intros qs Hq; inversion Hq; subst; try congruence.
  assert (a0 = a /\ b0 = b) as [-> ->] by (split; congruence). f_equal. by apply IH.
Qed.

Lemma join_pieces t ps : pieces_of t ps -> join sep ps = t.
Proof.
  induction 1 as [t E|t a b ps E H IH]; [done|]. apply split_once_app in E as ->.
  rewrite <- IH. apply pieces_nonempty in H. by destruct ps.
Qed.

Lemma occurrences_none t : sep <> [] -> occurrences sep t = 0 <-> split_once sep t = None.
Proof.
  intros Hs. unfold occurrences. pose proof (split_str_pieces t Hs) as H.
  inversion H as [? E|? a b ps E Hb]; subst; rewrite E; [done|].
  apply pieces_nonempty in Hb. destruct ps; [done|]. by cbn.
Qed.

Lemma occurrences_one t : sep <> [] ->
  occurrences sep t = 1 -> exists a b, split_once sep t = Some (a, b) /\ split_once sep b = None.
Proof.
  intros Hs. unfold occurrences. pose proof (split_str_pieces t Hs) as H.
  inversion H as [? E|? a b ps E Hb]; [done|].
  inversion Hb as [? Eb|? a' b' ps' Eb Hb']; [by eauto|]. subst.
  apply pieces_nonempty in Hb'. destruct ps'; [done|]. by cbn.
Qed.

End Pieces.

Lemma split_once_None sep t : split_once sep t = None <-> forall a b, t <> a ++ sep ++ b.
Proof.
  split.
  - intros H a. revert t H. induction a as [|c a IH]; intros t H b ->.
    + destruct (sep ++ b) eqn:E; cbn [app] in *.
      * destruct sep; [|done]. done.
      * cbn [split_once] in H. rewrite <- E, strip_prefix_app in H. done.
    + cbn [app split_once] in H. destruct (strip_prefix _ _); [done|].
      destruct (split_once sep (a ++ sep ++ b)) as [[??]|] eqn:E; [done|]. by apply (IH _ E b).
  - intros H. destruct (split_once sep t) as [[a b]|] eqn:E; [|done].
    apply split_once_app in E. by destruct (H a b).
Qed.

(** * Line breaks *)

Definition breaks (t : text) : nat := length (List.filter (N.eqb NEWLINE) t).

Lemma breaks_app a b : breaks (a ++ b) = breaks a + breaks b.
Proof. unfold breaks. by rewrite List.filter_app, length_app. Qed.

Lemma breaks_none t : breaks t = 0 <-> NEWLINE ∉ t.
Proof.
  unfold breaks. split.
  - intros H%length_zero_iff_nil Hin. apply list_elem_of_In in Hin.
    assert (In NEWLINE []) as []. rewrite <- H. by apply filter_In.
  - intros H. destruct (List.filter _ t) as [|c l] eqn:E; [done|]. destruct H.
    assert (Hc : In c (c :: l)) by (by left). rewrite <- E, filter_In, N.eqb_eq in Hc.
    destruct Hc as [Hc ->]. by apply list_elem_of_In.
Qed.

Lemma breaks_join sep ps : breaks (join sep ps) = pred (length ps) * breaks sep + list_sum (map breaks ps).
Proof.
  induction ps as [|p ps IH]; [done|]. destruct ps as [|q ps]; [change (breaks p = 0 * breaks sep + (breaks p + 0)); lia|].
  change (join sep (p :: q :: ps)) with (p ++ sep ++ join sep (q :: ps)).
  rewrite !breaks_app, IH. change (list_sum (map breaks (p :: q :: ps))) with (breaks p + list_sum (map breaks (q :: ps))).
  cbn [length pred]. lia.
Qed.

Lemma no_breaks ps : list_sum (map breaks ps) = 0 <-> Forall (fun p => NEWLINE ∉ p) ps.
Proof.
  induction ps as [|p ps IH]; [done|]. rewrite Forall_cons, <- IH, <- breaks_none. change (list_sum (map breaks (p :: ps))) with (breaks p + list_sum (map breaks ps)). lia.
Qed.

(** A separator whose line break is its last char and its only one, as the two
    line ends are. *)
Definition line_end (sep : text) : Prop :=
  breaks sep = 1 /\ forall p rest, NEWLINE ∉ p -> split_once sep (p ++ sep ++ rest) = Some (p, rest).

Lemma newline_line_end : line_end [NEWLINE].
Proof.
  split; [done|]. intros p rest Hp. apply split_once_char_app. by rewrite <- list_elem_of_In.
Qed.

Lemma crlf_line_end : line_end CRLF.
Proof.
  split; [done|]. intros p rest. induction p as [|c p IH]; intros Hp; [done|].
  rewrite not_elem_of_cons in Hp. destruct Hp as [Hc Hp]. specialize (IH Hp).
  assert (E : strip_prefix CRLF ((c :: p) ++ CRLF ++ rest) = None).
  { cbn. destruct (N.eqb_spec 13 c) as [<-|_]; [|done]. destruct p as [|d p]; [done|]. cbn.
    destruct (N.eqb_spec NEWLINE d) as [<-|_]; [|done]. rewrite not_elem_of_cons in Hp. by destruct Hp. }
  cbn [app split_once] in *. by rewrite E, IH.
Qed.

Section LineEnd.
Context (sep : text) (Hsep : line_end sep).

Lemma line_end_nonempty : sep <> [].
Proof using Hsep. destruct Hsep as [H _]. by destruct sep. Qed.

Lemma line_end_absent t : NEWLINE ∉ t -> split_once sep t = None.
Proof using Hsep.
  destruct Hsep as [H1 _]. intros Ht. apply split_once_None. intros a b ->.
  apply breaks_none in Ht. rewrite !breaks_app in Ht. lia.
Qed.

Lemma pieces_of_lines ps : ps <> [] -> Forall (fun p => NEWLINE ∉ p) ps -> pieces_of sep (join sep ps) ps.
Proof using Hsep.
  intros Hn H. induction H as [|p ps Hp H IH]; [done|]. destruct ps as [|q ps].
  - apply pieces_end. by apply line_end_absent.
  - eapply pieces_more; [|by apply IH]. apply Hsep, Hp.
Qed.

Lemma split_lines_joined ps : ps <> [] -> Forall (fun p => NEWLINE ∉ p) ps -> split_str sep (join sep ps) = ps.
Proof using Hsep.
  intros Hn H. eapply pieces_unique; [|by apply pieces_of_lines]. apply split_str_pieces, line_end_nonempty.
Qed.

(** All breaks of a text are [sep] exactly if there is none in its pieces. *)
Lemma breaks_pieces t :
  breaks t = occurrences sep t + list_sum (map breaks (split_str sep t)).
Proof using Hsep.
  assert (H := split_str_pieces sep t line_end_nonempty). rewrite <- (join_pieces _ _ _ H) at 1.
  rewrite breaks_join. destruct Hsep as [-> _]. unfold occurrences. lia.
Qed.

End LineEnd.

Lemma occurrences_newline t : occurrences [NEWLINE] t = breaks t.
Proof.
  rewrite (breaks_pieces _ newline_line_end t).
  assert (H : list_sum (map breaks (split_str [NEWLINE] t)) = 0); [|lia].
  rewrite no_breaks. assert (Hp := split_str_pieces [NEWLINE] t ltac:(done)).
  induction Hp as [t E|t a b ps E Hp IH].
  - apply Forall_singleton. rewrite list_elem_of_In. by apply split_once_char_None.
  - constructor; [|done]. intros Hin. apply list_elem_of_split in Hin as (k & rest & ->).
    pose proof (split_once_first _ _ _ _ E k (rest ++ [NEWLINE] ++ b)) as Hf.
    rewrite <- !app_assoc in Hf. specialize (Hf eq_refl). rewrite length_app in Hf. cbn in Hf. lia.
Qed.

(** Every break of [t] is a carriage return and a newline. *)
Definition breaks_with_crlf (t : text) : Prop := Forall (fun p => NEWLINE ∉ p) (split_str CRLF t).

Lemma breaks_with_crlf_spec t : breaks_with_crlf t <-> occurrences CRLF t = occurrences [NEWLINE] t.
Proof. unfold breaks_with_crlf. rewrite <- no_breaks, occurrences_newline, (breaks_pieces _ crlf_line_end t). lia. Qed.

Lemma is_crlf_spec t : is_crlf t = true <-> 0 < breaks t /\ breaks_with_crlf t.
Proof.
  unfold is_crlf. rewrite breaks_with_crlf_spec, andb_true_iff, Nat.ltb_lt, Nat.eqb_eq, occurrences_newline. done.
Qed.

Lemma split_str_nonempty sep t : sep <> [] -> split_str sep t <> [].
Proof. intros H. eapply pieces_nonempty, split_str_pieces, H. Qed.

Lemma lf_restored t : breaks_with_crlf t -> replace_text [NEWLINE] CRLF (lf t true) = t.
Proof.
  intros H. unfold lf, replace_text at 2. cbn [is_empty CRLF]. unfold replace_text. cbn [is_empty].
  rewrite (split_lines_joined _ newline_line_end); [|by apply split_str_nonempty|done].
  apply join_pieces. by apply split_str_pieces.
Qed.

Lemma restored_breaks t : breaks_with_crlf (replace_text [NEWLINE] CRLF t).
Proof.
  unfold breaks_with_crlf, replace_text. cbn [is_empty].
  assert (H : Forall (fun p => NEWLINE ∉ p) (split_str [NEWLINE] t)).
  { apply no_breaks. pose proof (breaks_pieces _ newline_line_end t). rewrite occurrences_newline in *. lia. }
  rewrite (split_lines_joined _ crlf_line_end); [done|by apply split_str_nonempty|done].
Qed.

(** * Lines *)

(** A line without its end. *)
Definition line_of (piece : text) : text :=
  match strip_suffix [NEWLINE] piece with
  | Some l => default l (strip_suffix [13%N] l)
  | None => piece
  end.

Lemma split_lines t :
  exists ended final, split_on NEWLINE t = ended ++ [final] /\ Forall (fun l => NEWLINE ∉ l) (ended ++ [final])
    /\ split_inclusive t = map (fun l => l ++ [NEWLINE]) ended ++ (if is_empty final then [] else [final]).
Proof.
  induction t as [|c t (ended & final & E1 & Hn & E2)].
  - exists [], []. split_and!; [done| |done]. apply Forall_singleton. by apply not_elem_of_nil.
  - cbn [split_on split_inclusive]. destruct (N.eqb_spec c NEWLINE) as [->|Hc].
    + exists ([] :: ended), final. rewrite E1, E2. split_and!; [done| |done]. constructor; [by apply not_elem_of_nil|done].
    + rewrite E1, E2. destruct ended as [|e ended].
      * exists [], (c :: final). split_and!; [done| |by destruct final].
        cbn [app] in Hn. rewrite Forall_singleton in Hn. apply Forall_singleton. rewrite not_elem_of_cons. split; [congruence|done].
      * exists ((c :: e) :: ended), final. split_and!; [done| |done].
        inversion Hn as [|?? He Hr]; subst. constructor; [|done]. rewrite not_elem_of_cons. split; [congruence|done].
Qed.

Lemma ended_lines_app ended final :
  ended_lines (ended ++ [final])
  = map (fun l => default l (strip_suffix [13%N] l)) ended ++ (if is_empty final then [] else [final]).
Proof.
  induction ended as [|e ended IH]; [done|]. cbn [app map ended_lines]. rewrite IH. by destruct ended.
Qed.

Lemma lines_pieces t : lines t = map line_of (split_inclusive t).
Proof.
  destruct (split_lines t) as (ended & final & E1 & Hn & E2). unfold lines.
  rewrite E1, E2, ended_lines_app, map_app, map_map. f_equal.
  - apply map_ext. intros l. unfold line_of. by rewrite strip_suffix_app.
  - destruct final as [|c final]; [done|]. cbn [is_empty map]. unfold line_of.
    destruct (strip_suffix [NEWLINE] (c :: final)) as [l|] eqn:E; [|done].
    apply strip_suffix_Some in E. apply Forall_app in Hn as [_ Hn]. rewrite Forall_singleton in Hn.
    exfalso. apply Hn. rewrite E. apply elem_of_app. right. by apply list_elem_of_singleton.
Qed.

Lemma concat_pieces t : concat (split_inclusive t) = t.
Proof.
  induction t as [|c t IH]; [done|]. cbn [split_inclusive]. destruct (N.eqb_spec c NEWLINE) as [->|Hc].
  - cbn [concat app]. by rewrite IH.
  - rewrite <- IH at 2. by destruct (split_inclusive t).
Qed.

(** * Windows *)

Lemma window_length {A} (l : list A) start k : start + k <= length l -> length (window l start k) = k.
Proof. intros H. unfold window. rewrite length_take, length_drop. lia. Qed.

Lemma window_split {A} (l : list A) start k : l = take start l ++ window l start k ++ drop (start + k) l.
Proof.
  unfold window. rewrite <- drop_drop, take_drop, take_drop. done.
Qed.

Lemma window_map {A B} (f : A -> B) l start k : window (map f l) start k = map f (window l start k).
Proof. unfold window. by rewrite <- fmap_drop, <- fmap_take. Qed.

Lemma length_hits_bound norm_file norm_old i :
  length norm_old <= length norm_file ->
  i ∈ hits norm_file norm_old <-> i + length norm_old <= length norm_file /\ window norm_file i (length norm_old) = norm_old.
Proof.
  intros Hk. unfold hits. rewrite list_elem_of_In, filter_In, in_seq, bool_decide_eq_true. split; intros [??]; split; (done || lia).
Qed.

(** * The ladder *)

Definition blank (line : text) : bool := is_empty (trim line).

Lemma indent_loop_uniform pairs delta found :
  indent_loop delta pairs = Some (Some found) ->
  (forall d, delta = Some d -> d = found)
  /\ Forall (fun p => blank (fst p) || blank (snd p) = true \/ leading_ws (fst p) = found ++ leading_ws (snd p)) pairs.
Proof.
  revert delta. induction pairs as [|[f o] pairs IH]; intros delta H; cbn [indent_loop] in H.
  - injection H as ->. split; [by intros d [= <-]|done].
  - fold (blank f) (blank o) in H. destruct (blank f || blank o) eqn:B.
    + apply IH in H as [Hd Hp]. split; [done|]. constructor; [by left|done].
    + destruct (strip_suffix (leading_ws o) (leading_ws f)) as [extra|] eqn:E; [|done].
      apply strip_suffix_Some in E. destruct delta as [seen|].
      * destruct (teqb seen extra) eqn:T; [|done]. apply teqb_eq in T as ->. apply IH in H as [Hd Hp].
        split; [by intros d [= <-]; apply Hd|]. constructor; [right|done]. by rewrite <- (Hd extra eq_refl).
      * apply IH in H as [Hd Hp]. split; [done|]. constructor; [right|done]. by rewrite <- (Hd extra eq_refl).
Qed.

(** The indentation that is added back is what every line of the region has
    beyond its old line. *)
Definition indented_by (extra : text) (file old : list text) : Prop :=
  extra <> [] /\ Forall (fun p => blank (fst p) || blank (snd p) = true
                         \/ leading_ws (fst p) = extra ++ leading_ws (snd p)) (combine file old).

Lemma indent_delta_uniform file old extra : indent_delta file old = Some extra -> indented_by extra file old.
Proof.
  unfold indent_delta. destruct (indent_loop None (combine file old)) as [[found|]|] eqn:E; [|done|done].
  apply indent_loop_uniform in E as [_ E]. destruct found as [|c found]; [done|].
  intros [= <-]. by split.
Qed.

Section WithStrsim.
Context {S : Strsim}.

(** The similarity of the window at [start], and whether it is looked at. *)
Definition score_at (norm_file norm_old : list text) (start : nat) : f64 :=
  normalized_levenshtein (join [NEWLINE] (window norm_file start (length norm_old))) (join [NEWLINE] norm_old).

Definition looked_at (norm_file norm_old : list text) (start : nat) : bool :=
  negb (SFltb (ceiling (window_chars norm_file (length norm_old) start) (length (join [NEWLINE] norm_old)))
          HINT_THRESHOLD).

Definition similar (norm_file norm_old : list text) (start : nat) : Prop :=
  start + length norm_old <= length norm_file /\ looked_at norm_file norm_old start = true
  /\ SFleb FUZZY_THRESHOLD (score_at norm_file norm_old start) = true.

Lemma fuzzy_scan_candidates norm_file norm_old starts spent candidates closest found hint :
  fuzzy_scan norm_file (length norm_old) (join [NEWLINE] norm_old) starts spent candidates closest = Some (found, hint) ->
  found = candidates ++ map (fun s => (s, score_at norm_file norm_old s))
            (List.filter (fun s => looked_at norm_file norm_old s && SFleb FUZZY_THRESHOLD (score_at norm_file norm_old s)) starts).
Proof.
  revert spent candidates closest. induction starts as [|s starts IH]; intros spent candidates closest H;
    cbn [fuzzy_scan] in H; cbn [List.filter].
  - injection H as -> _. by rewrite app_nil_r.
  - unfold looked_at at 1. destruct (SFltb _ _); cbn [negb andb]; [by apply IH in H|].
    cbv zeta in H. destruct (_ <? _)%N; [done|]. apply IH in H as ->.
    fold (score_at norm_file norm_old s). destruct (SFleb _ _); [|done]. by rewrite <- app_assoc.
Qed.

Lemma found_similar norm_file norm_old hint found :
  length norm_old <= length norm_file ->
  fuzzy_scan norm_file (length norm_old) (join [NEWLINE] norm_old)
    (seq 0 (length norm_file - length norm_old + 1)) 0 [] None = Some (found, hint) ->
  forall s score, (s, score) ∈ found <-> similar norm_file norm_old s /\ score = score_at norm_file norm_old s.
Proof.
  intros Hk H s score. apply fuzzy_scan_candidates in H as ->. cbn [app]. unfold similar.
  rewrite list_elem_of_In, in_map_iff. setoid_rewrite filter_In. setoid_rewrite in_seq. setoid_rewrite andb_true_iff.
  split.
  - intros (x & [= <- <-] & ? & ? & ?). split_and!; try done. lia.
  - intros ((? & ? & ?) & ->). exists s. split_and!; try done; lia.
Qed.

Lemma max_candidate_in cs c : max_candidate cs = Some c -> c ∈ cs.
Proof.
  destruct cs as [|x cs]; [done|]. cbn [max_candidate]. intros [= <-].
  assert (H : forall cs m, foldl (fun m x => match compare_candidates m x with Gt => m | _ => x end) m cs ∈ m :: cs).
  { clear. induction cs as [|y cs IH]; intros m; cbn [foldl]; [by apply list_elem_of_here|].
    assert (Hg : forall z, z = m \/ z = y ->
      foldl (fun m x => match compare_candidates m x with Gt => m | _ => x end) z cs ∈ m :: y :: cs).
    { intros z Hz. specialize (IH z). rewrite !elem_of_cons in *. destruct Hz as [-> | ->], IH as [IH|IH]; auto. }
    destruct (compare_candidates m y); apply Hg; auto. }
  apply H.
Qed.

Lemma count_loop_grows k (starts : list nat) separate cluster :
  let r := fst (foldl (fun '(separate, cluster) start =>
                match cluster with
                | Some first => if Nat.leb k (start - first) then (separate + 1, Some start) else (separate, cluster)
                | None => (separate + 1, Some start)
                end) (separate, cluster) starts) in
  separate <= r /\ (starts <> [] -> cluster = None -> separate < r).
Proof.
  revert separate cluster. induction starts as [|s starts IH]; intros separate cluster; cbn [foldl]; [split; [done|by intros []]|].
  destruct cluster as [first|].
  - split; [|done]. destruct (Nat.leb k (s - first)).
    + destruct (IH (separate + 1) (Some s)) as [H _]. lia.
    + apply (IH separate (Some first)).
  - destruct (IH (separate + 1) (Some s)) as [H _]. split; [|intros _ _]; lia.
Qed.

Lemma count_places_one k best candidates :
  count_places k best candidates <= 1 <-> forall s score, (s, score) ∈ candidates -> abs_diff s best < k.
Proof.
  unfold count_places.
  destruct (List.filter (fun s => Nat.leb k (abs_diff s best)) (map fst candidates)) as [|f fs] eqn:E.
  - cbn. split; [|lia]. intros _ s score H. destruct (Nat.leb_spec k (abs_diff s best)) as [Hle|]; [|done].
    assert (In s []) as []. rewrite <- E. apply filter_In. split; [|by apply Nat.leb_le].
    apply in_map_iff. exists (s, score). split; [done|by apply list_elem_of_In].
  - split.
    + destruct (count_loop_grows k (f :: fs) 1 None) as [_ H]. intros Hle. specialize (H ltac:(done) eq_refl). cbn in *. lia.
    + intros H. assert (Hf : In f (f :: fs)) by (by left). rewrite <- E, filter_In, in_map_iff in Hf.
      destruct Hf as [([s score] & <- & Hin) Hle]. apply list_elem_of_In in Hin. apply H in Hin.
      apply Nat.leb_le in Hle. cbn [fst] in *. lia.
Qed.

(** The lines of [old] as they are compared, and where they stand in a file. *)
Definition old_block (old : text) : list text := map normalize (lines_of_old old).

Definition stands_at (ls : list text) (old : text) (i : nat) : Prop :=
  i + length (old_block old) <= length ls
  /\ window (map normalize ls) i (length (old_block old)) = old_block old.

Definition some_text (old : text) : bool := existsb (fun line => negb (is_empty line)) (old_block old).

Definition near (ls : list text) (old : text) (i : nat) : Prop := similar (map normalize ls) (old_block old) i.

(** What [locate] may answer. *)
Definition located (ls : list text) (old : text) (answer : result Miss Region) : Prop :=
  match answer with
  | Ok (mkRegion start k rung indent) =>
      k = length (lines_of_old old) /\ start + k <= length ls
      /\ (forall extra, indent = Some extra -> indented_by extra (window ls start k) (lines_of_old old))
      /\ match rung with
         | Whitespace => some_text old = true /\ forall i, stands_at ls old i <-> i = start
         | Fuzzy score =>
             (some_text old = true -> forall i, ~ stands_at ls old i)
             /\ near ls old start /\ score = score_at (map normalize ls) (old_block old) start
             /\ forall i, near ls old i -> abs_diff i start < k
         end
  | Err (Ambiguous count Whitespace) =>
      some_text old = true /\ 2 <= count /\ exists starts, NoDup starts /\ length starts = count
        /\ forall i, i ∈ starts <-> stands_at ls old i
  | Err (Ambiguous count (Fuzzy score)) =>
      (some_text old = true -> forall i, ~ stands_at ls old i)
      /\ 2 <= count /\ exists i j, near ls old i /\ near ls old j /\ length (lines_of_old old) <= abs_diff i j
  | Err (NotFound _) => some_text old = true -> forall i, ~ stands_at ls old i
  end.

Lemma hits_stand ls old i :
  length (old_block old) <= length ls -> i ∈ hits (map normalize ls) (old_block old) <-> stands_at ls old i.
Proof. intros Hk. unfold stands_at. rewrite length_hits_bound by (by rewrite length_map). by rewrite length_map. Qed.

Lemma fuzzy_located ls old :
  length (lines_of_old old) <= length ls ->
  (some_text old = true -> forall i, ~ stands_at ls old i) ->
  located ls old (fuzzy (map normalize ls) (old_block old) ls (lines_of_old old)).
Proof.
  intros Hk Hno. unfold fuzzy.
  assert (Hb : length (old_block old) = length (lines_of_old old)) by apply length_map.
  destruct (fuzzy_scan _ _ _ _ _ _ _) as [[found closest]|] eqn:E; [|done].
  assert (Hf := found_similar (map normalize ls) (old_block old) closest found).
  rewrite length_map, Hb in Hf. rewrite length_map, Hb in E. specialize (Hf Hk E).
  cbv zeta. rewrite Hb. destruct (Nat.ltb _ _); [done|].
  destruct (max_candidate found) as [[best score]|] eqn:Em; [|done]. apply max_candidate_in, Hf in Em as [Hbest Hs].
  destruct (Nat.ltb_spec 1 (count_places (length (lines_of_old old)) best found)) as [Hp|Hp].
  - split_and!; [done|lia|].
    destruct (decide (Forall (fun c => abs_diff (fst c) best < length (lines_of_old old)) found)) as [Hall|Hall].
    + exfalso. assert (H1 : count_places (length (lines_of_old old)) best found <= 1); [|lia].
      apply count_places_one. intros s sc Hin. rewrite Forall_forall in Hall. by apply (Hall (s, sc)).
    + apply not_Forall_Exists in Hall; [|apply _]. apply Exists_exists in Hall as ([s sc] & Hin & Hd).
      apply Hf in Hin as [Hin _]. exists s, best. unfold compose in Hd. cbn [fst] in Hd. split_and!; [done|done|lia].
  - split_and!; [done| | |done|done|done|].
    + destruct Hbest as [Hbest _]. rewrite length_map, Hb in Hbest. lia.
    + intros extra Hx. by apply indent_delta_uniform.
    + rewrite count_places_one in Hp. intros i Hi. apply (Hp i (score_at (map normalize ls) (old_block old) i)).
      apply Hf. by split.
Qed.

(** The ladder takes a region only if it is the one place that qualifies: the
    lines of the old text, up to whitespace, stand exactly there; or they stand
    nowhere, and every block that is similar enough overlaps the region.  It
    reports ambiguity only if two places qualify, and finds nothing only if
    the lines stand nowhere; it adds back just the indentation the region has
    beyond the old text. *)
Lemma locate_located ls old : located ls old (locate ls old).
Proof.
  unfold locate. fold (old_block old).
  assert (Hb : length (old_block old) = length (lines_of_old old)) by apply length_map.
  destruct (Nat.ltb_spec (length ls) (length (lines_of_old old))) as [Hk|Hk].
  - intros _ i [H _]. lia.
  - fold (some_text old). destruct (some_text old) eqn:Ht; [|apply fuzzy_located; [done|by rewrite Ht]].
    assert (Hh := fun i => hits_stand ls old i). rewrite Hb in Hh.
    destruct (hits _ _) as [|start [|second more]] eqn:E.
    + apply fuzzy_located; [done|]. intros _ i Hi. apply Hh in Hi; [|done]. by apply elem_of_nil in Hi.
    + assert (Hs : forall i, stands_at ls old i <-> i = start).
      { intros i. rewrite <- Hh by done. by rewrite list_elem_of_singleton. }
      split_and!; [done| | |done|done].
      * destruct (proj2 (Hs start) eq_refl) as [H _]. lia.
      * intros extra Hx. by apply indent_delta_uniform.
    + split_and!; [done|cbn; lia|]. exists (start :: second :: more). split_and!; [|done|].
      * rewrite <- E. unfold hits. apply NoDup_ListNoDup, List.NoDup_filter, seq_NoDup.
      * intros i. by apply Hh.
Qed.

(** * Edits *)

(** The new text of a region: at the file's indentation, and ending its line
    if the region did. *)
Definition new_region (mid : list text) (indent : option text) (new : text) : text :=
  let middle := reindent new indent in
  if match last mid with Some piece => ends_with_newline piece | None => false end
     && negb (is_empty middle) && negb (ends_with_newline middle)
  then middle ++ [NEWLINE] else middle.

(** A text that can stand at two places which overlap: it ends as it begins. *)
Definition overlaps_itself (old : text) : bool :=
  existsb (fun n => teqb (take n old) (drop (length old - n) old)) (seq 1 (length old - 1)).

(** Occurrences [a ++ old ++ b] and [k ++ old ++ rest] of one text that overlap. *)
Lemma overlap_shows (old a b k rest : text) :
  a ++ old ++ b = k ++ old ++ rest -> length a < length k < length a + length old -> overlaps_itself old = true.
Proof.
  intros E Hl. apply existsb_exists. exists (length a + length old - length k). split; [apply in_seq; lia|]. apply teqb_eq.
  assert (H : drop (length k - length a) old ++ b = old ++ rest).
  { apply (f_equal (drop (length k))) in E. rewrite (drop_app_ge _ _ (length k)), drop_app_length in E by lia.
    by rewrite drop_app_le in E by lia. }
  apply (f_equal (take (length a + length old - length k))) in H.
  rewrite take_app_le in H by (rewrite length_drop; lia). rewrite (take_app_le old) in H by lia. rewrite <- H.
  replace (length old - (length a + length old - length k)) with (length k - length a) by lia.
  apply take_ge. rewrite length_drop. lia.
Qed.

(** One replacement of [old] in [t].  [edited_once] replaces the first
    occurrence, when every other one overlaps it; a text that cannot overlap
    itself then has no other occurrence. *)
Inductive edited (t old new : text) (all : bool) : text -> EditReport -> Prop :=
| edited_once a b :
    t = a ++ old ++ b ->
    (forall k rest, t = k ++ old ++ rest -> length a <= length k < length a + length old) ->
    (overlaps_itself old = false -> forall k rest, t = k ++ old ++ rest -> k = a) ->
    edited t old new all (a ++ new ++ b) (mkEditReport 1 Exact)
| edited_all ps :
    all = true -> 2 < length ps -> pieces_of old t ps -> t = join old ps ->
    edited t old new all (join new ps) (mkEditReport (pred (length ps)) Exact)
| edited_region pre mid post rung indent :
    (forall k rest, t <> k ++ old ++ rest) ->
    split_inclusive t = pre ++ mid ++ post -> t = concat pre ++ concat mid ++ concat post ->
    located (lines t) old (Ok (mkRegion (length pre) (length mid) rung indent)) ->
    edited t old new all (concat pre ++ new_region mid indent new ++ concat post)
      (mkEditReport 1 (Ladder rung (length pre + 1) (length pre + length mid))).

Lemma replace_edited t old new all t' r :
  old <> [] -> replace t old new all = Ok (t', r) -> edited t old new all t' r.
Proof.
  intros Ho. unfold replace. destruct (Nat.eqb_spec (occurrences old t) 1) as [H1|H1].
  - apply occurrences_one in H1 as (a & b & E & Eb); [|done]. rewrite E. intros [= <- <-].
    pose proof (split_once_first _ _ _ _ E) as Hf. apply split_once_app in E. rewrite split_once_None in Eb.
    assert (Hk : forall k rest, t = k ++ old ++ rest -> length a <= length k < length a + length old).
    { intros k rest Hk. rewrite E in Hk. split; [by apply (Hf k rest)|]. destruct (Nat.lt_ge_cases (length k) (length a + length old)) as [|Hge]; [done|].
      exfalso. apply (f_equal (drop (length a + length old))) in Hk. rewrite app_assoc, <- length_app, drop_app_length in Hk.
      rewrite drop_app_le in Hk by (rewrite length_app; lia). by apply (Eb _ _ Hk). }
    apply edited_once; [done|exact Hk|]. intros Hno k rest Ek. pose proof (Hk k rest Ek) as Hl. rewrite E in Ek.
    destruct (Nat.eq_dec (length k) (length a)) as [El|El]; [by apply app_inj_1 in Ek as [-> _]|].
    assert (Ht : overlaps_itself old = true) by (apply (overlap_shows old a b k rest Ek); lia). congruence.
  - destruct (Nat.ltb_spec 1 (occurrences old t)) as [H2|H2].
    + destruct all; [|done]. intros [= <- <-]. unfold replace_text. destruct old as [|c o]; [done|]. cbn [is_empty].
      assert (Hp := split_str_pieces (c :: o) t Ho). unfold occurrences in *.
      apply edited_all; [done|lia|done|]. symmetry. by apply join_pieces.
    + assert (H0 : split_once old t = None) by (apply occurrences_none; [done|lia]).
      unfold replace_region. pose proof (locate_located (lines t) old) as Hl.
      destruct (locate (lines t) old) as [[start k rung indent]|]; [|done]. intros [= <- <-].
      cbn [region_start region_len region_rung]. destruct Hl as (Hk & Hlen & Hrest).
      rewrite lines_pieces, length_map in Hlen.
      assert (Hs := window_split (split_inclusive t) start k).
      assert (Hpre : length (take start (split_inclusive t)) = start) by (rewrite length_take; lia).
      assert (Hmid : length (window (split_inclusive t) start k) = k) by (by apply window_length).
      assert (He := edited_region t old new all (take start (split_inclusive t)) (window (split_inclusive t) start k)
                (drop (start + k) (split_inclusive t)) rung indent).
      rewrite Hpre, Hmid in He. apply He; [by apply split_once_None|done| |].
      * rewrite <- (concat_pieces t) at 1. rewrite Hs at 1. by rewrite !concat_app.
      * destruct Hrest. split_and!; [done|by rewrite lines_pieces, length_map|done|done].
Qed.

(** One edit of the content so far; [index] counts the edits before it. *)
Inductive edit_step (crlf : bool) (index : nat) (e : EditSpec) : option text -> text -> EditReport -> Prop :=
| step_create :
    lf (edit_old e) crlf = [] -> lf (edit_new e) crlf <> [] ->
    edit_step crlf index e None (lf (edit_new e) crlf) created
| step_fill t :
    index = 0 -> blank t = true -> lf (edit_old e) crlf = [] -> lf (edit_new e) crlf <> [] ->
    edit_step crlf index e (Some t) (lf (edit_new e) crlf) created
| step_replace t t' r :
    lf (edit_old e) crlf <> [] -> lf (edit_old e) crlf <> lf (edit_new e) crlf ->
    edited t (lf (edit_old e) crlf) (lf (edit_new e) crlf) (replace_all e) t' r ->
    edit_step crlf index e (Some t) t' r.

Inductive edit_run (crlf : bool) : nat -> option text -> list EditSpec -> list EditReport -> option text -> Prop :=
| run_done index current : edit_run crlf index current [] [] current
| run_edit index current e t r es rs final :
    edit_step crlf index e current t r -> edit_run crlf (index + 1) (Some t) es rs final ->
    edit_run crlf index current (e :: es) (r :: rs) final.

Lemma apply_edit_step crlf index current e t r :
  apply_edit crlf index current e = Ok (t, r) -> edit_step crlf index e current t r.
Proof.
  unfold apply_edit. destruct (teqb _ _) eqn:Et; [done|]. apply teqb_neq in Et.
  destruct (lf (edit_old e) crlf) as [|c old] eqn:Eo; cbn [is_empty].
  - assert (Hn : lf (edit_new e) crlf <> []) by congruence. destruct current as [t0|].
    + destruct (Nat.ltb_spec 0 index) as [|Hi]; [done|]. fold (blank t0). cbn [orb].
      destruct (blank t0) eqn:B; [|done]. intros [= <- <-]. apply step_fill; (done || lia).
    + intros [= <- <-]. by apply step_create.
  - destruct current as [t0|]; [|done]. intros H. rewrite <- Eo in *.
    apply step_replace; [by rewrite Eo|done|]. apply replace_edited; [by rewrite Eo|done].
Qed.

Lemma apply_loop_run crlf index edits current reports_ :
  match apply_loop crlf index edits current reports_ with
  | Ok (final, rs) => exists more, rs = reports_ ++ more /\ edit_run crlf index current edits more final
  | Err f => exists before e after rs c, edits = before ++ e :: after /\ failed_index f = index + length before
      /\ edit_run crlf index current before rs c /\ apply_edit crlf (failed_index f) c e = Err (failure_message f)
  end.
Proof.
  revert index current reports_. induction edits as [|e edits IH]; intros index current reports_; cbn [apply_loop].
  - exists []. split; [by rewrite app_nil_r|constructor].
  - destruct (apply_edit crlf index current e) as [[t r]|message] eqn:E.
    + pose proof (apply_edit_step _ _ _ _ _ _ E) as Hs. specialize (IH (index + 1) (Some t) (reports_ ++ [r])).
      destruct (apply_loop _ _ _ _ _) as [[final rs]|f].
      * destruct IH as (more & -> & Hr). exists (r :: more). split; [by rewrite <- app_assoc|]. by econstructor.
      * destruct IH as (before & e' & after & rs & c & -> & Hi & Hr & He). exists (e :: before), e', after, (r :: rs), c.
        split_and!; [done|cbn; lia|by econstructor|done].
    + exists [], e, edits, [], current. cbn. split_and!; [done|lia|constructor|done].
Qed.

(** C19: edits change exactly what they name, all of them or none.  When they
    succeed, each one in turn created the file, filled an empty one, replaced
    the first occurrence of its old text, when every other one overlaps it (so
    the only occurrence, unless the text overlaps itself: see
    [overlapping_match_accepted]), or, if asked, all that are found without
    overlaps, or, when the text does not occur, replaced the one block of whole
    lines that the ladder accepts; everything else is as it was.  Otherwise the
    edits before the named one would apply, that one does not, and nothing is
    returned. *)
Theorem apply_edits_exact (content_ : option text) (edits : list EditSpec) :
  let crlf := match content_ with Some t => is_crlf t | None => false end in
  let start := option_map (fun t => lf t crlf) content_ in
  match apply_edits content_ edits with
  | Ok a => exists final, edit_run crlf 0 start edits (reports a) final
      /\ applied_content a = (if crlf then replace_text [NEWLINE] CRLF (default [] final) else default [] final)
  | Err f => exists before e after rs current, edits = before ++ e :: after /\ failed_index f = length before
      /\ edit_run crlf 0 start before rs current
      /\ apply_edit crlf (failed_index f) current e = Err (failure_message f)
  end.
Proof.
  intros crlf start. unfold apply_edits. fold crlf. fold start.
  pose proof (apply_loop_run crlf 0 edits start []) as H. destruct (apply_loop _ _ _ _ _) as [[final rs]|f].
  - destruct H as (more & -> & Hr). exists final. by split.
  - destruct H as (before & e & after & rs & c & -> & Hi & Hr & He). exists before, e, after, rs, c. by split_and!.
Qed.

(** The line endings of a file are kept: text edited with newlines only is
    written back as it was where nothing changed, and every line break of the
    result is a carriage return and a newline, whatever the edits brought. *)
Theorem edits_keep_line_endings (t : text) (edits : list EditSpec) :
  is_crlf t = true ->
  replace_text [NEWLINE] CRLF (lf t true) = t
  /\ forall a, apply_edits (Some t) edits = Ok a -> breaks_with_crlf (applied_content a).
Proof.
  intros H. split; [by apply lf_restored, is_crlf_spec|]. intros a. unfold apply_edits. rewrite H.
  destruct (apply_loop _ _ _ _ _) as [[final rs]|f]; [|done]. intros [= <-]. apply restored_breaks.
Qed.

(** Occurrences are counted without overlaps: a text that stands at two
    places, which overlap, counts as one, and the first of them is replaced
    although the edit does not say which is meant. *)
Lemma overlapping_match_accepted :
  let t := str "}" ++ [NEWLINE] ++ str "}" ++ [NEWLINE] ++ str "}" ++ [NEWLINE] in
  let old := str "}" ++ [NEWLINE] ++ str "}" ++ [NEWLINE] in
  t = [] ++ old ++ str "}" ++ [NEWLINE] /\ t = (str "}" ++ [NEWLINE]) ++ old ++ []
  /\ replace t old (str "x") false = Ok (str "x" ++ str "}" ++ [NEWLINE], mkEditReport 1 Exact).
Proof. by split_and!. Qed.

End WithStrsim.

(** A similarity that knows equal texts only. *)
Definition equal_only : Strsim := {| normalized_levenshtein a b := if teqb a b then f64_of_N 1 else f64_zero |}.

Lemma edits_keep_line_endings_witness :
  let t := str "one" ++ CRLF ++ str "two" ++ CRLF in
  is_crlf t = true /\ replace_text [NEWLINE] CRLF (lf t true) = t.
Proof.
  split; [reflexivity|].
  exact (proj1 (@edits_keep_line_endings equal_only (str "one" ++ CRLF ++ str "two" ++ CRLF)
                  [mkEditSpec (str "two") (str "2") false] eq_refl)).
Defined.
