(* ===== verification/Records.v ===== *)
(** The records of the session log, their parts, and the events of a session ([record.rs] of the store; [usage.rs], [agents.rs], [verification.rs], [decisions.rs], [jobs.rs], [events.rs] of the protocol). *)

From Stdlib Require Import SpecFloat.
From S2P Require Export Protocol Float.

(** * Numbers *)

(** [+] on [u64] in a release build. *)
Definition u64_add (a b : N) : N := (a + b) mod U64.

(** * Usage *)

Record Usage := mkUsage {
  input_tokens : N;
  output_tokens : N;
  cache_read_tokens : N;
  cache_write_tokens : N;
  reasoning_tokens : N
}.

#[export] Instance Usage_eq_dec : EqDecision Usage.
Proof. solve_decision. Defined.

Definition usage_default : Usage := mkUsage 0 0 0 0 0.

Definition prompt_tokens (u : Usage) : N :=
  u64_add (u64_add (input_tokens u) (cache_read_tokens u)) (cache_write_tokens u).

Definition total_tokens (u : Usage) : N := u64_add (prompt_tokens u) (output_tokens u).

Definition usage_is_empty (u : Usage) : bool := bool_decide (u = usage_default).

Definition usage_add (a b : Usage) : Usage :=
  mkUsage (u64_add (input_tokens a) (input_tokens b)) (u64_add (output_tokens a) (output_tokens b))
    (u64_add (cache_read_tokens a) (cache_read_tokens b))
    (u64_add (cache_write_tokens a) (cache_write_tokens b))
    (u64_add (reasoning_tokens a) (reasoning_tokens b)).

(** * Turns and compaction *)

Inductive Effort := Low | Medium | High | Max.

#[export] Instance Effort_eq_dec : EqDecision Effort.
Proof. solve_decision. Defined.

Inductive TurnOutcome :=
| TurnCompleted
| TurnCancelled
| TurnFailed (message : text)
| BudgetExhausted (reason : text)
| Interrupted.

#[export] Instance TurnOutcome_eq_dec : EqDecision TurnOutcome.
Proof. solve_decision. Defined.

Inductive VerificationOutcome :=
| NotApplicable
| Unverified (reason : text)
| Verified (checks : list text)
| VerificationFailed (reason : text).

Record TurnRecord := mkTurnRecord {
  turn_id : id;
  turn_message : id;
  outcome : TurnOutcome;
  verification : VerificationOutcome;
  turn_usage : Usage;
  turn_cost : f64;
  turn_started_at : N;
  turn_finished_at : N
}.

Inductive CompactionTrigger := CompactAuto | CompactManual.

Record CompactionMarker := mkCompactionMarker {
  keep_from : option id;
  marker_summary : text;
  tokens_before : N;
  tokens_after : N;
  compacted_at : N
}.

Record CheckpointInfo := mkCheckpointInfo {
  checkpoint_id : id;
  checkpoint_message : id;
  checkpointed_at : N
}.

(** * Agents *)

Inductive Isolation := Shared | Worktree.

Inductive AgentStatus := AgentRunning | AgentWaiting | AgentCompleted | AgentFailed | AgentCancelled.

Definition is_terminal (s : AgentStatus) : bool :=
  match s with
  | AgentCompleted | AgentFailed | AgentCancelled => true
  | AgentRunning | AgentWaiting => false
  end.

Inductive WorktreeState := WorktreePending | WorktreeApplied | WorktreeDiscarded | WorktreeConflicted | WorktreeEmpty.

Record WorktreeInfo := mkWorktreeInfo {
  worktree_path : text;
  branch : text;
  base_commit : text;
  worktree_state : WorktreeState;
  files_changed : N;
  diffstat : text
}.

Record AgentInfo := mkAgentInfo {
  agent_id : id;
  parent_id : option id;
  agent_call : option id;
  agent_type : text;
  agent_description : text;
  agent_model : text;
  background : bool;
  isolation : Isolation;
  worktree : option WorktreeInfo;
  agent_status : AgentStatus;
  agent_depth : N;
  agent_started_at : N;
  agent_finished_at : option N;
  agent_usage : Usage;
  agent_cost : f64;
  tool_calls : N;
  result_preview : option text;
  agent_error : option text
}.

(** * Checks, todos and task views *)

Inductive CheckKind := KTest | KBuild | KLint | KTypecheck | KFormat | KCustom.

#[export] Instance CheckKind_eq_dec : EqDecision CheckKind.
Proof. solve_decision. Defined.

Record TestCounts := mkTestCounts { tests_passed : N; tests_failed : N; tests_skipped : N }.

Record CheckRecord := mkCheckRecord {
  record_id : text;
  check_id : text;
  check_label : text;
  check_kind : CheckKind;
  check_command : text;
  check_cwd : text;
  check_agent : id;
  exit_code : option Z;
  passed : bool;
  timed_out : bool;
  check_started_at : N;
  duration_ms : N;
  test_counts : option TestCounts;
  artifact : option text;
  fingerprint_before : text;
  fingerprint_after : text;
  output_tail : text
}.

Inductive TodoStatus := TodoPending | TodoInProgress | TodoCompleted.

#[export] Instance TodoStatus_eq_dec : EqDecision TodoStatus.
Proof. solve_decision. Defined.

Record TodoItem := mkTodoItem {
  todo_content : text;
  active_form : text;
  todo_status : TodoStatus
}.

Record TaskViewInfo := mkTaskViewInfo {
  boundary : id;
  views_aside : N;
  view_tokens : N;
  restored : bool;
  viewed_at : N
}.

(** * Records *)

Definition SESSION_SCHEMA : N := 2.

Section WithJson.
Context {J : Json}.

Inductive LogRecord :=
| LSessionStarted (schema : N) (session_id : id) (project_root model_ : text) (mode_ : PermissionMode)
    (created : N)
| LMessage (message : Message) (turn : option id)
| LTurnStarted (turn message : id) (started : N)
| LTurnFinished (turn : TurnRecord)
| LTodos (agent : id) (todos_ : list TodoItem)
| LPlanProposed (request_ agent : id) (proposed : text)
| LPlanResolved (request_ : id) (approved : bool) (feedback final_plan : option text)
| LQuestionAsked (request_ agent : id) (qs : list Question)
| LQuestionAnswered (request_ : id) (given : option (list QuestionAnswer))
| LApproval (request_ : id) (tool title_ : text) (allowed : bool) (rule : option text)
| LAgentUpdated (info_ : AgentInfo)
| LCheck (record : CheckRecord)
| LCheckpoint (info_ : CheckpointInfo) (snapshot : text)
| LCompacted (marker : CompactionMarker) (summary : Message)
| LRewound (message : id) (conversation code : bool)
| LModeChanged (mode_ : PermissionMode)
| LModelChanged (model_ : text)
| LEffortChanged (effort_ : option Effort)
| LTitle (title_ : text)
| LUsage (agent : id) (usage_ : Usage) (cost : f64)
| LNote (t : text)
| LTaskView (view : TaskViewInfo) (kept : list id) (index : option Message).

End WithJson.

(** * Jobs *)

Inductive JobKind := JobShell | JobAgent.
Inductive JobStatus := JobRunning | JobCompleted | JobFailed | JobKilled.

Definition job_is_terminal (s : JobStatus) : bool := match s with JobRunning => false | _ => true end.

Record JobInfo := mkJobInfo {
  job_id : id;
  job_kind : JobKind;
  job_label : text;
  job_owner : id;
  job_agent : option id;
  job_status : JobStatus;
  job_exit_code : option Z;
  job_started_at : N;
  job_finished_at : option N;
  job_output_tail : text
}.

(** * What decision uses add *)

Inductive TurnTone := ToneSmooth | ToneStruggling | ToneBlocked | ToneDoneWell.
Inductive Urgency := UrgencyLow | UrgencyNormal | UrgencyHigh.

Record UrgencyInfo := mkUrgencyInfo { urgency_key : text; urgency : Urgency }.

Record RouteInfo := mkRouteInfo {
  route_agent : id;
  route_effort : option Effort;
  route_model : option text;
  route_reason : text
}.

Inductive SuggestionKind :=
| PlanFirst
| SaveRule (rule : text)
| Review (areas paths : list text).

Record Suggestion := mkSuggestion { suggestion_id : text; suggestion_kind : SuggestionKind }.

Record UncheckedClaim := mkUncheckedClaim { claim_done : bool; claim_checks : bool }.

(** * Context use *)

Record ContextBreakdown := mkContextBreakdown {
  system_tokens : N;
  tools_tokens : N;
  instructions_tokens : N;
  messages_tokens : N;
  breakdown_total : N;
  breakdown_limit : N
}.

(** * Snapshots *)

Record SessionInfo := mkSessionInfo {
  info_session : id;
  info_title : option text;
  info_root : text;
  info_model : text;
  info_mode : PermissionMode;
  info_effort : option Effort;
  info_created_at : N;
  info_updated_at : N;
  info_legacy : bool
}.

Section WithJson.
Context {J : Json}.

Record SessionSnapshot := mkSessionSnapshot {
  snap_info : SessionInfo;
  snap_status : SessionStatus;
  snap_messages : list Message;
  snap_compactions : list CompactionMarker;
  snap_turns : list TurnRecord;
  snap_todos : list TodoItem;
  snap_agents : list AgentInfo;
  snap_jobs : list JobInfo;
  snap_checks : list CheckRecord;
  snap_checkpoints : list CheckpointInfo;
  snap_approvals : list ApprovalRequest;
  snap_questions : list PendingQuestion;
  snap_plans : list PendingPlan;
  snap_queued : list text;
  snap_usage : Usage;
  snap_cost : f64;
  snap_context_tokens : N;
  snap_context_limit : N;
  snap_task_views : list TaskViewInfo
}.

(** * Events *)

Inductive Event :=
| SnapshotSent (snapshot : SessionSnapshot)
| StatusChanged (status_ : SessionStatus)
| UserMessage (message : Message) (turn : option id) (steering : bool)
| TurnStarted (turn message : id)
| TurnFinished (turn : TurnRecord)
| AssistantStarted (agent message : id)
| TextDelta (agent message : id) (t : text)
| ThinkingDelta (agent message : id) (t : text)
| AssistantFinished (agent : id) (message : Message)
| ToolStarted (agent call : id) (tool title_ : text) (input_ : json)
| ToolProgress (agent call : id) (t : text)
| ToolFinished (agent call : id) (status_ : ToolStatus) (summary output : text) (duration : N)
| ApprovalRequested (request : ApprovalRequest)
| ApprovalResolved (request_ : id) (allowed : bool)
| QuestionAsked (request_ agent : id) (qs : list Question)
| QuestionResolved (request_ : id) (answered : bool)
| PlanProposed (request_ agent : id) (proposed : text)
| PlanResolved (request_ : id) (approved : bool)
| TodosUpdated (agent : id) (todos_ : list TodoItem)
| AgentStarted (info_ : AgentInfo)
| AgentUpdated (info_ : AgentInfo)
| JobUpdated (job : JobInfo)
| UsageUpdated (agent : id) (mine total : Usage) (cost : f64) (tokens limit : N)
| ModeChanged (mode_ : PermissionMode)
| ModelChanged (model_ : text)
| EffortChanged (effort_ : option Effort)
| CompactionStarted (trigger : CompactionTrigger)
| Compacted (marker : CompactionMarker)
| CheckpointCreated (checkpoint : CheckpointInfo)
| CheckRecorded (record : CheckRecord)
| VerificationChanged (outcome_ : VerificationOutcome)
| HookRan (hook_event command_ : text) (blocked : bool) (message : option text)
| CommandOutput (name_ markdown : text)
| ContextReport (breakdown : ContextBreakdown)
| Notice (level : NoticeLevel) (message : text)
| Retrying (attempt delay : N) (reason : text)
| TitleChanged (title_ : text)
| QueueChanged (queued : list text)
| TrustRequired (project_root : text) (defines : list text)
| TurnToneJudged (turn : id) (tone : TurnTone)
| UrgencyScored (urgency_ : UrgencyInfo)
| RouteChosen (route : RouteInfo)
| Suggested (suggestion : Suggestion)
| SuggestionResolved (suggestion_ : text) (accepted : bool)
| CompletionClaimUnchecked (claim : UncheckedClaim)
| TaskViewApplied (view : TaskViewInfo)
| ErrorEvent (message : text).

End WithJson.
