(* ===== verification/Model.v ===== *)
(** Requests, events and errors of the llm crate ([types.rs], [error.rs]), the accumulation of a response ([accumulate.rs]) and what it says. *)

From stdpp Require Import gmap.
From S2P Require Export Records.

(** * [types.rs] *)

Record SystemBlock := mkSystemBlock { block_text : text; block_cache : bool }.

Inductive ToolChoice := ChoiceAuto | ChoiceNone | ChoiceAny | ChoiceTool (tool : text).

Record ThinkingConfig := mkThinkingConfig { thinking_effort : Effort; budget_tokens : option N }.

Inductive StopReason := EndTurn | ToolUse | MaxTokens | StopSequence | Refusal | OtherStop (reason : text).

(** An event of a response; the fields of [Retrying] are the attempt, the
    delay in milliseconds and the reason. *)
Inductive ModelEvent :=
| TextPiece (delta : text)
| ThinkingPiece (delta : text)
| ThinkingSignature (signature_ : text)
| RedactedPiece (data : text)
| ToolUseStart (index : N) (i : id) (n : text)
| ToolUseDelta (index : N) (partial_json : text)
| ToolUseEnd (index : N)
| UsageSoFar (u : Usage)
| Stop (reason : StopReason)
| Backoff (attempt delay : N) (reason : text).

(** * [error.rs] *)

Inductive LlmError :=
| ConfigError (t : text)
| Http (status : N) (body : text)
| RateLimited (attempts : N) (detail : text)
| Overloaded (attempts : N) (detail : text)
| Connect (attempts : N) (cause : text)
| StreamError (t : text)
| DecodeError (t : text)
| CancelledError.

(** Its [Display]. *)
Definition show_error (e : LlmError) : text :=
  match e with
  | ConfigError t => str "provider misconfigured: " ++ t
  | Http status body => str "provider returned HTTP " ++ show_N status ++ str ": " ++ body
  | RateLimited n t => str "rate limited after " ++ show_N n ++ str " attempts: " ++ t
  | Overloaded n t => str "provider overloaded after " ++ show_N n ++ str " attempts: " ++ t
  | Connect n t => str "connection failed after " ++ show_N n ++ str " attempts: " ++ t
  | StreamError t => str "stream interrupted: " ++ t
  | DecodeError t => str "could not decode provider response: " ++ t
  | CancelledError => str "request cancelled"
  end.

Definition OVERFLOW_MARKERS : list text :=
  [str "context length"; str "context_length"; str "maximum context"; str "prompt is too long";
   str "too many tokens"; str "context window"].

Definition is_retryable (e : LlmError) : bool :=
  match e with
  | RateLimited _ _ | Overloaded _ _ | Connect _ _ | StreamError _ => true
  | Http status _ => (status =? 408)%N || (status =? 429)%N || (500 <=? status)%N
  | ConfigError _ | DecodeError _ | CancelledError => false
  end.

Definition is_context_overflow (e : LlmError) : bool :=
  match e with
  | Http status body =>
      ((status =? 400)%N || (status =? 413)%N)
      && existsb (fun marker => contains_str marker (to_ascii_lowercase body)) OVERFLOW_MARKERS
  | _ => false
  end.

(** * [accumulate.rs] *)

Record MalformedToolUse := mkMalformed {
  malformed_id : text;
  malformed_name : text;
  malformed_raw : text;
  malformed_error : text
}.

(** A block being built; the index of a tool block is its call. *)
Inductive Building :=
| BuildText (t : text)
| BuildThinking (t : text) (signature_ : option text)
| BuildRedacted (data : text)
| BuildTool (i : id) (n : text) (raw : text).

(** [tools] maps the index of a call to its block. *)
Record ResponseAccumulator := mkAccumulator {
  blocks : list Building;
  tools : gmap N nat;
  acc_usage : Usage;
  acc_stop : option StopReason
}.

Definition new_accumulator : ResponseAccumulator := mkAccumulator [] ∅ usage_default None.

Definition put_blocks (l : list Building) (a : ResponseAccumulator) : ResponseAccumulator :=
  mkAccumulator l (tools a) (acc_usage a) (acc_stop a).

(** [self.blocks.push(b)] *)
Definition push_block (b : Building) (a : ResponseAccumulator) : ResponseAccumulator :=
  put_blocks (blocks a ++ [b]) a.

(** Replaces the last block. *)
Definition change_last (b : Building) (a : ResponseAccumulator) : ResponseAccumulator :=
  put_blocks (removelast (blocks a) ++ [b]) a.

(** A new tool block, with its index. *)
Definition start_tool (index : N) (i : id) (n : text) (a : ResponseAccumulator) : ResponseAccumulator :=
  mkAccumulator (blocks a ++ [BuildTool i n []]) (<[index := length (blocks a)]> (tools a)) (acc_usage a) (acc_stop a).

Definition push_json (partial : text) (b : Building) : Building :=
  match b with BuildTool i n raw => BuildTool i n (raw ++ partial) | _ => b end.

(** [absorb]; [fresh n] is the identifier of a call whose start is missing and
    whose block is the [n]th. *)
Definition absorb (fresh : nat -> id) (a : ResponseAccumulator) (e : ModelEvent) : ResponseAccumulator :=
  match e with
  | TextPiece delta =>
      match last (blocks a) with
      | Some (BuildText t) => change_last (BuildText (t ++ delta)) a
      | _ => push_block (BuildText delta) a
      end
  | ThinkingPiece delta =>
      match last (blocks a) with
      | Some (BuildThinking t None) => change_last (BuildThinking (t ++ delta) None) a
      | _ => push_block (BuildThinking delta None) a
      end
  | ThinkingSignature sig =>
      match last (blocks a) with
      | Some (BuildThinking t _) => change_last (BuildThinking t (Some sig)) a
      | _ => push_block (BuildThinking [] (Some sig)) a
      end
  | RedactedPiece data => push_block (BuildRedacted data) a
  | ToolUseStart index i n => start_tool index i n a
  | ToolUseDelta index partial =>
      match tools a !! index with
      | Some slot => put_blocks (alter (push_json partial) slot (blocks a)) a
      | None =>
          let slot := length (blocks a) in
          let a := start_tool index (fresh slot) [] a in
          put_blocks (alter (push_json partial) slot (blocks a)) a
      end
  | ToolUseEnd _ | Backoff _ _ _ => a
  | UsageSoFar u => mkAccumulator (blocks a) (tools a) u (acc_stop a)
  | Stop reason => mkAccumulator (blocks a) (tools a) (acc_usage a) (Some reason)
  end.

Definition built_text (b : Building) : option text := match b with BuildText t => Some t | _ => None end.

Definition text_so_far (a : ResponseAccumulator) : text := concat (omap built_text (blocks a)).

(** [serde_json]'s parser and the accessors the streams need. *)
Class JsonText {J : Json} := {
  parse_json : text -> result text json;
  as_u64 : json -> option N;
  empty_object : json
}.

Section WithJson.
Context {J : Json} {T : JsonText}.

Record AssistantTurn := mkAssistantTurn {
  turn_content : list ContentBlock;
  response_usage : Usage;
  turn_stop : option StopReason;
  turn_malformed : list MalformedToolUse
}.

(** [AssistantTurn::text] *)
Definition turn_text (t : AssistantTurn) : text :=
  concat (omap (fun b => match b with BText t => Some t | _ => None end) (turn_content t)).

Definition turn_has_tool_use (t : AssistantTurn) : bool :=
  existsb (fun b => match b with BToolUse _ _ _ => true | _ => false end) (turn_content t).

Definition parse_input (raw : text) : result text json :=
  if is_empty (trim raw) then Ok empty_object
  else match parse_json raw with
       | Ok v => if is_object v then Ok v else Err (str "expected a JSON object, got " ++ to_text v)
       | Err e => Err e
       end.

Definition finish_block (b : Building) : list ContentBlock * list MalformedToolUse :=
  match b with
  | BuildText t => (if is_empty t then [] else [BText t], [])
  | BuildThinking t sig =>
      (match sig with None => if is_empty t then [] else [BThinking t sig] | Some _ => [BThinking t sig] end, [])
  | BuildRedacted data => ([BRedactedThinking data], [])
  | BuildTool i n raw =>
      match parse_input raw with
      | Ok v => ([BToolUse i n v], [])
      | Err e => ([BToolUse i n empty_object], [mkMalformed i n raw e])
      end
  end.

Definition finish_response (a : ResponseAccumulator) : AssistantTurn :=
  let built := map finish_block (blocks a) in
  mkAssistantTurn (concat (map fst built)) (acc_usage a) (acc_stop a) (concat (map snd built)).

(** * [client.rs] *)

(** [collect], on the items of a stream. *)
Fixpoint collect_stream (fresh : nat -> id) (items : list (result LlmError ModelEvent)) (a : ResponseAccumulator)
  : result LlmError AssistantTurn :=
  match items with
  | [] => Ok (finish_response a)
  | Ok e :: items => collect_stream fresh items (absorb fresh a e)
  | Err e :: _ => Err e
  end.

End WithJson.

(** * Requests *)

Section WithJsonRequests.
Context {J : Json}.

Record ToolSpec := mkToolSpec { spec_tool : text; spec_description : text; input_schema : json }.

Record ModelRequest := mkModelRequest {
  request_model : text;
  request_system : list SystemBlock;
  request_messages : list Message;
  cache_breakpoints : list nat;
  request_tools : list ToolSpec;
  cache_tools : bool;
  tool_choice : ToolChoice;
  max_tokens : N;
  temperature : option f64;
  thinking : option ThinkingConfig;
  stop_sequences : list text;
  session_key : option text
}.

Definition new_request (m : text) (messages : list Message) : ModelRequest :=
  mkModelRequest m [] messages [] [] false ChoiceAuto 4096 None None [] None.

Definition system_text (r : ModelRequest) : text :=
  join [NEWLINE; NEWLINE] (map block_text (request_system r)).

End WithJsonRequests.

(** * The calls of a response *)

(** A call as the events describe it; one whose start is missing has no
    identifier and no name. *)
Record StreamCall := mkStreamCall {
  stream_index : N;
  stream_id : option id;
  stream_name : text;
  stream_raw : text
}.

Definition push_raw (partial : text) (c : StreamCall) : StreamCall :=
  mkStreamCall (stream_index c) (stream_id c) (stream_name c) (stream_raw c ++ partial).

(** The position of the last call with an index. *)
Fixpoint last_with (index : N) (cs : list StreamCall) : option nat :=
  match cs with
  | [] => None
  | c :: cs =>
      match last_with index cs with
      | Some k => Some (S k)
      | None => if N.eqb (stream_index c) index then Some 0%nat else None
      end
  end.

(** Input fragments go to the latest call of their index. *)
Definition call_step (cs : list StreamCall) (e : ModelEvent) : list StreamCall :=
  match e with
  | ToolUseStart index i n => cs ++ [mkStreamCall index (Some i) n []]
  | ToolUseDelta index partial =>
      match last_with index cs with
      | Some k => alter (push_raw partial) k cs
      | None => cs ++ [mkStreamCall index None [] partial]
      end
  | _ => cs
  end.

Definition calls_of_events (es : list ModelEvent) : list StreamCall := foldl call_step [] es.

Definition text_piece (e : ModelEvent) : option text := match e with TextPiece t => Some t | _ => None end.

(** * Tool blocks *)

Definition tool_block (b : Building) : option (id * text * text) :=
  match b with BuildTool i n raw => Some (i, n, raw) | _ => None end.

Fixpoint slots (from : nat) (bs : list Building) : list nat :=
  match bs with
  | [] => []
  | BuildTool _ _ _ :: bs => from :: slots (S from) bs
  | _ :: bs => slots (S from) bs
  end.

Lemma slots_app n a b : slots n (a ++ b) = slots n a ++ slots (n + length a) b.
Proof.
  revert n. induction a as [|x a IH]; intros n; cbn; [by rewrite Nat.add_0_r|].
  rewrite IH, Nat.add_succ_r. by destruct x.
Qed.

Lemma slots_alter p n k bs : slots n (alter (push_json p) k bs) = slots n bs.
Proof. revert n k. induction bs as [|b bs IH]; intros n [|k]; cbn; try done; destruct b; cbn; try done; by rewrite IH. Qed.

Lemma slots_ge n bs : Forall (fun s => (n <= s)%nat) (slots n bs).
Proof.
  revert n. induction bs as [|b bs IH]; intros n; cbn; [constructor|].
  assert (H : Forall (fun s => (n <= s)%nat) (slots (S n) bs)) by (eapply Forall_impl; [apply IH|]; cbn; lia).
  destruct b; [done..|]. by constructor.
Qed.

(** Changing the [k]th tool block changes the [k]th call. *)
Lemma alter_tool_block p n k slot bs :
  slots n bs !! k = Some (n + slot)%nat ->
  omap tool_block (alter (push_json p) slot bs)
  = alter (fun c => (fst (fst c), snd (fst c), snd c ++ p)) k (omap tool_block bs).
Proof.
  revert n k slot. induction bs as [|b bs IH]; intros n k slot; cbn; [done|].
  assert (Hge : forall j s, slots (S n) bs !! j = Some s -> (S n <= s)%nat).
  { intros j s Hj. pose proof (slots_ge (S n) bs) as H. rewrite Forall_lookup in H. eauto. }
  destruct b as [t|t s|d|i m raw]; cbn.
  1-3: intros Hk; pose proof (Hge _ _ Hk); destruct slot as [|slot]; [lia|]; cbn;
       apply (IH (S n)); etrans; [exact Hk|]; f_equal; lia.
  destruct k as [|k]; cbn.
  - intros [= E]. assert (slot = 0%nat) as -> by lia. done.
  - intros Hk. pose proof (Hge _ _ Hk). destruct slot as [|slot]; [lia|]. cbn. f_equal.
    apply (IH (S n)). etrans; [exact Hk|]. f_equal. lia.
Qed.

Lemma slots_length n bs : length (slots n bs) = length (omap tool_block bs).
Proof. revert n. induction bs as [|b bs IH]; intros n; cbn; [done|]. destruct b; cbn; by rewrite ?IH. Qed.

Lemma last_with_snoc index cs c :
  last_with index (cs ++ [c]) = if N.eqb (stream_index c) index then Some (length cs) else last_with index cs.
Proof.
  induction cs as [|d cs IH]; cbn; [done|]. rewrite IH. by destruct (N.eqb (stream_index c) index).
Qed.

Lemma last_with_alter index p k cs : last_with index (alter (push_raw p) k cs) = last_with index cs.
Proof. revert k. induction cs as [|c cs IH]; intros [|k]; cbn; try done. by rewrite IH. Qed.

Lemma last_with_lt index cs k : last_with index cs = Some k -> (k < length cs)%nat.
Proof.
  revert k. induction cs as [|c cs IH]; intros k; cbn; [done|]. destruct (last_with index cs) as [j|].
  - intros [= <-]. specialize (IH j eq_refl). lia.
  - destruct (N.eqb _ _); [|done]. intros [= <-]. lia.
Qed.

(** * What is built so far *)

(** A block is the call the events describe. *)
Definition is_call (c : StreamCall) (b : id * text * text) : Prop :=
  (forall i, stream_id c = Some i -> fst (fst b) = i) /\ snd (fst b) = stream_name c /\ snd b = stream_raw c.

Record assembled (es : list ModelEvent) (a : ResponseAccumulator) : Prop := {
  calls_built : Forall2 is_call (calls_of_events es) (omap tool_block (blocks a));
  calls_indexed : forall index,
    tools a !! index = k ← last_with index (calls_of_events es); slots 0 (blocks a) !! k;
  text_built : text_so_far a = concat (omap text_piece es)
}.

Lemma assembled_nil : assembled [] new_accumulator.
Proof. constructor; [constructor|intros index; apply lookup_empty|done]. Qed.

(** A change of the blocks that are no tools. *)
Lemma assembled_other es e a bs :
  call_step (calls_of_events es) e = calls_of_events es ->
  slots 0 bs = slots 0 (blocks a) -> omap tool_block bs = omap tool_block (blocks a) ->
  concat (omap built_text bs) = text_so_far a ++ default [] (text_piece e) ->
  assembled es a -> assembled (es ++ [e]) (put_blocks bs a).
Proof.
  intros Hc Hs Ht Hx [H1 H2 H3]. assert (E : calls_of_events (es ++ [e]) = calls_of_events es).
  { unfold calls_of_events in *. by rewrite foldl_app. }
  constructor; rewrite ?E; cbn [blocks tools put_blocks].
  - by rewrite Ht.
  - intros index. by rewrite Hs.
  - unfold text_so_far at 1. cbn [blocks put_blocks]. rewrite Hx, H3, omap_app, concat_app. f_equal. cbn.
    destruct (text_piece e); cbn; by rewrite ?app_nil_r.
Qed.

Lemma assembled_same es e a a' :
  call_step (calls_of_events es) e = calls_of_events es -> text_piece e = None ->
  blocks a' = blocks a -> tools a' = tools a -> assembled es a -> assembled (es ++ [e]) a'.
Proof.
  intros Hc Ht Eb Et [H1 H2 H3]. assert (E : calls_of_events (es ++ [e]) = calls_of_events es).
  { unfold calls_of_events in *. by rewrite foldl_app. }
  constructor; rewrite ?E, ?Eb, ?Et; [done|done|]. unfold text_so_far in *. rewrite Eb, H3, omap_app, concat_app. cbn.
  by rewrite Ht, app_nil_r.
Qed.

Lemma assembled_push es e a b :
  call_step (calls_of_events es) e = calls_of_events es -> tool_block b = None ->
  default [] (built_text b) = default [] (text_piece e) ->
  assembled es a -> assembled (es ++ [e]) (push_block b a).
Proof.
  intros Hc Hb Hx. apply assembled_other; [done|..].
  - rewrite slots_app. by destruct b; [rewrite app_nil_r..|].
  - rewrite omap_app. cbn. by rewrite Hb, app_nil_r.
  - rewrite omap_app, concat_app. unfold text_so_far. f_equal. rewrite <- Hx. cbn.
    destruct (built_text b); cbn; by rewrite ?app_nil_r.
Qed.

Lemma assembled_change es e a b0 b t :
  call_step (calls_of_events es) e = calls_of_events es -> last (blocks a) = Some b0 ->
  tool_block b0 = None -> tool_block b = None ->
  default [] (built_text b) = default [] (built_text b0) ++ t -> t = default [] (text_piece e) ->
  assembled es a -> assembled (es ++ [e]) (change_last b a).
Proof.
  intros Hc (bs & Ebs)%last_Some Hb0 Hb Hx ->. unfold change_last. rewrite Ebs, removelast_last.
  apply assembled_other; [done|..]; rewrite ?Ebs.
  - rewrite !slots_app. by destruct b0, b.
  - rewrite !omap_app. cbn. by rewrite Hb, Hb0.
  - unfold text_so_far. rewrite Ebs, !omap_app, !concat_app, <- app_assoc. f_equal. cbn.
    destruct (built_text b), (built_text b0); cbn in *; rewrite ?app_nil_r; done.
Qed.

Lemma assembled_start es e a index sid i n p :
  call_step (calls_of_events es) e = calls_of_events es ++ [mkStreamCall index sid n p] ->
  text_piece e = None -> (forall j, sid = Some j -> i = j) ->
  assembled es a ->
  assembled (es ++ [e])
    (put_blocks (alter (push_json p) (length (blocks a)) (blocks (start_tool index i n a))) (start_tool index i n a)).
Proof.
  intros Hc Ht Hi [H1 H2 H3]. assert (E : calls_of_events (es ++ [e]) = calls_of_events es ++ [mkStreamCall index sid n p]).
  { unfold calls_of_events in *. by rewrite foldl_app. }
  assert (Eb : alter (push_json p) (length (blocks a)) (blocks (start_tool index i n a)) = blocks a ++ [BuildTool i n p]).
  { cbn [start_tool blocks]. rewrite alter_app_r_alt, Nat.sub_diag by done. done. }
  rewrite Eb. constructor; rewrite ?E; cbn [blocks tools put_blocks start_tool].
  - rewrite omap_app. apply Forall2_app; [done|]. by repeat constructor.
  - intros j. rewrite last_with_snoc. cbn [stream_index]. rewrite slots_app. cbn.
    destruct (N.eqb_spec index j) as [->|Hne].
    + rewrite lookup_insert_eq. cbn. apply Forall2_length in H1. rewrite lookup_app_r; rewrite slots_length, <- H1; [|done].
      by rewrite Nat.sub_diag.
    + rewrite lookup_insert_ne, H2 by done. destruct (last_with j _) as [k|] eqn:Ek; [|done]. cbn.
      apply last_with_lt in Ek. apply Forall2_length in H1. by rewrite lookup_app_l by (rewrite slots_length; lia).
  - unfold text_so_far in *. cbn [blocks put_blocks]. rewrite !omap_app, !concat_app, H3. cbn. by rewrite Ht.
Qed.

Lemma absorb_assembled fresh es e a : assembled es a -> assembled (es ++ [e]) (absorb fresh a e).
Proof.
  intros Ha. destruct e as [t|t|t|t|index i n|index p|index|u|r|n d r]; cbn [absorb].
  - destruct (last (blocks a)) as [[u|u s|u|i n r]|] eqn:El;
      try (by apply assembled_push). by apply (assembled_change _ _ _ (BuildText u) _ t).
  - destruct (last (blocks a)) as [[u|u [s|]|u|i n r]|] eqn:El;
      try (by apply assembled_push). by apply (assembled_change _ _ _ (BuildThinking u None) _ []).
  - destruct (last (blocks a)) as [[u|u s|u|i n r]|] eqn:El;
      try (by apply assembled_push). by apply (assembled_change _ _ _ (BuildThinking u s) _ []).
  - by apply assembled_push.
  - pose proof (assembled_start es (ToolUseStart index i n) a index (Some i) i n []) as H.
    assert (Eb : alter (push_json []) (length (blocks a)) (blocks (start_tool index i n a)) = blocks (start_tool index i n a)).
    { cbn [start_tool blocks]. rewrite alter_app_r_alt, Nat.sub_diag by done. done. }
    rewrite Eb in H. apply H; [done|done|by intros ? [= ->]|done].
  - pose proof Ha as [H1 H2 H3]. specialize (H2 index) as Hs. cbn [absorb].
    destruct (last_with index (calls_of_events es)) as [k|] eqn:Ek; cbn in Hs.
    + pose proof (last_with_lt _ _ _ Ek) as Hlt. rewrite (Forall2_length _ _ _ H1), <- (slots_length 0) in Hlt.
      apply lookup_lt_is_Some_2 in Hlt as [slot Hslot]. rewrite Hs, Hslot.
      assert (E : calls_of_events (es ++ [ToolUseDelta index p]) = alter (push_raw p) k (calls_of_events es)).
      { unfold calls_of_events in *. rewrite foldl_app. cbn [foldl call_step]. by rewrite Ek. }
      constructor; rewrite ?E; cbn [blocks tools put_blocks].
      * rewrite (alter_tool_block p 0 k slot) by done. clear -H1. revert k. induction H1 as [|c b cs bs Hc H IH]; [done|].
        intros [|k]; cbn; constructor; auto. destruct Hc as (? & ? & E). split_and!; [done|done|by cbn; rewrite E].
      * intros j. by rewrite slots_alter, last_with_alter.
      * unfold text_so_far in *. cbn [blocks]. rewrite omap_app, concat_app, <- H3. cbn. rewrite app_nil_r. f_equal.
        clear. generalize (blocks a). intros bs. revert slot. induction bs as [|b bs IH]; intros [|slot]; cbn; try done; destruct b; cbn; by rewrite ?IH.
    + rewrite Hs. apply (assembled_start es (ToolUseDelta index p) a index None); [cbn; by rewrite Ek|done|done|done].
  - by apply (assembled_same es _ a).
  - by apply (assembled_same es _ a).
  - by apply (assembled_same es _ a).
  - by apply (assembled_same es _ a).
Qed.

Lemma absorb_all fresh es : assembled es (foldl (absorb fresh) new_accumulator es).
Proof.
  induction es as [|e es IH] using rev_ind; [apply assembled_nil|]. rewrite foldl_app. by apply absorb_assembled.
Qed.

(** * The finished message *)

Section WithJson.
Context {J : Json} {T : JsonText}.

(** The input of a call, [{}] if it is no JSON object. *)
Definition call_value (raw : text) : json := match parse_input raw with Ok v => v | Err _ => empty_object end.

(** The part of a call a malformed entry repeats. *)
Definition malformed_of (b : id * text * text) : option MalformedToolUse :=
  match parse_input (snd b) with
  | Ok _ => None
  | Err e => Some (mkMalformed (fst (fst b)) (snd (fst b)) (snd b) e)
  end.

Lemma finished_tools bs :
  omap tool_use (concat (map (fun b => fst (finish_block b)) bs))
  = map (fun b => (fst (fst b), snd (fst b), call_value (snd b))) (omap tool_block bs)
  /\ concat (map (fun b => snd (finish_block b)) bs) = omap malformed_of (omap tool_block bs).
Proof.
  induction bs as [|b bs [IH1 IH2]]; [done|]. cbn [map concat]. rewrite omap_app, IH1, IH2.
  destruct b as [t|t s|d|i n raw]; cbn.
  - by destruct (is_empty t).
  - by destruct s; [|destruct (is_empty t)].
  - done.
  - unfold call_value, malformed_of. cbn. by destruct (parse_input raw).
Qed.

Lemma finished_text bs :
  concat (omap (fun b => match b with BText t => Some t | _ => None end) (concat (map (fun b => fst (finish_block b)) bs)))
  = concat (omap built_text bs).
Proof.
  induction bs as [|b bs IH]; [done|]. cbn [map concat]. rewrite omap_app, concat_app, IH.
  destruct b as [t|t s|d|i n raw]; cbn.
  - destruct t; cbn; by rewrite ?app_nil_r.
  - by destruct s; [|destruct (is_empty t)].
  - done.
  - by destruct (parse_input raw).
Qed.

(** The message a response is assembled into says what was streamed.  Its
    text is the text pieces in order; its calls are the calls started, in
    order, each with the identifier and name it started with and all the input
    fragments sent for it, as an object; the calls whose input is no JSON
    object, and only they, are listed as malformed and carry an empty object;
    and the text shown before the end is the text of the message. *)
Theorem response_assembled (fresh : nat -> id) (es : list ModelEvent) :
  let a := foldl (absorb fresh) new_accumulator es in
  let turn := finish_response a in
  turn_text turn = concat (omap text_piece es)
  /\ text_so_far a = turn_text turn
  /\ exists calls, Forall2 is_call (calls_of_events es) calls
     /\ omap tool_use (turn_content turn) = map (fun b => (fst (fst b), snd (fst b), call_value (snd b))) calls
     /\ turn_malformed turn = omap malformed_of calls.
Proof using.
  intros a turn. destruct (absorb_all fresh es) as [H1 _ H3]. fold a in H1, H3.
  assert (Ht : turn_text turn = text_so_far a).
  { unfold turn_text, turn, finish_response. cbn [turn_content]. rewrite map_map. apply finished_text. }
  split_and!; [by rewrite Ht|done|]. exists (omap tool_block (blocks a)).
  unfold turn, finish_response. cbn [turn_content turn_malformed]. rewrite !map_map. by split_and!; try apply finished_tools.
Qed.

End WithJson.
