(* ===== verification/Broker.v ===== *)
(** The broker of user interactions ([engine/src/broker/*.rs]), the session
    handlers that resolve them ([session/control.rs]), the journal and the
    status they update ([session/journal.rs], [session/status.rs]).

    Agents and the session actor run on several threads; each takes a mutex
    for a short section and nothing across sections.  An operation is
    therefore a list of atomic sections ([Atom]); running one changes the
    session ([World]) and may put further sections in front of what remains.
    [BrokerFacts] interleaves the sections of any number of operations. *)

From S2P Require Export Records.

(** How the file writes of one section turn out: the first append to the
    session log, reopening the log, the second append, and the project's
    settings file. *)
Record Io := mkIo {
  first_ok : bool;
  reopen_ok : bool;
  retry_ok : bool;
  settings_ok : bool;
  io_error : text
}.

Section WithJson.
Context {G : Globset} {P : Platform} {J : Json}.

(** What a waiting agent can receive. *)
Inductive Reply :=
| RApproval (d : ApprovalDecision)
| RAnswers (given : option (list QuestionAnswer))
| RPlan (d : PlanDecision).

(** The three kinds of request. *)
Inductive Kind := KApproval | KQuestion | KPlan.

(** [Pending]; a reply channel is its number. *)
Record Pending := mkPending {
  approvals : list (ApprovalRequest * nat);
  pending_questions : list (PendingQuestion * nat);
  plans : list (PendingPlan * nat)
}.

(** [Inner] of the status tracker. *)
Record Status := mkStatus { active : nat; waiting : nat; current : SessionStatus }.

Record World := mkWorld {
  pending : Pending;
  log : list LogRecord;
  events : list Event;
  status : Status;
  policy : Policy;
  mode : PermissionMode;
  (** Rules written to the project's settings file. *)
  persisted : list text;
  (** The request each reply channel was created for, the channels whose
      receiver is gone, and the replies sent. *)
  channels : list (Kind * id);
  dropped : list nat;
  sends : list (nat * Reply)
}.

Definition set_pending (p : Pending) (w : World) : World :=
  mkWorld p (log w) (events w) (status w) (policy w) (mode w) (persisted w) (channels w)
    (dropped w) (sends w).
Definition set_log (l : list LogRecord) (w : World) : World :=
  mkWorld (pending w) l (events w) (status w) (policy w) (mode w) (persisted w) (channels w)
    (dropped w) (sends w).
Definition set_status (s : Status) (w : World) : World :=
  mkWorld (pending w) (log w) (events w) s (policy w) (mode w) (persisted w) (channels w)
    (dropped w) (sends w).
Definition set_policy (p : Policy) (w : World) : World :=
  mkWorld (pending w) (log w) (events w) (status w) p (mode w) (persisted w) (channels w)
    (dropped w) (sends w).
Definition set_world_mode (m : PermissionMode) (w : World) : World :=
  mkWorld (pending w) (log w) (events w) (status w) (policy w) m (persisted w) (channels w)
    (dropped w) (sends w).
Definition emit (e : Event) (w : World) : World :=
  mkWorld (pending w) (log w) (events w ++ [e]) (status w) (policy w) (mode w) (persisted w)
    (channels w) (dropped w) (sends w).
Definition persist (rule : text) (w : World) : World :=
  mkWorld (pending w) (log w) (events w) (status w) (policy w) (mode w) (persisted w ++ [rule])
    (channels w) (dropped w) (sends w).
Definition send (c : nat) (r : Reply) (w : World) : World :=
  mkWorld (pending w) (log w) (events w) (status w) (policy w) (mode w) (persisted w)
    (channels w) (dropped w) (sends w ++ [(c, r)]).
(** [oneshot::channel()]. *)
Definition fresh_channel (k : Kind) (i : id) (w : World) : nat * World :=
  (length (channels w),
   mkWorld (pending w) (log w) (events w) (status w) (policy w) (mode w) (persisted w)
     (channels w ++ [(k, i)]) (dropped w) (sends w)).
Definition drop_receiver (c : nat) (w : World) : World :=
  mkWorld (pending w) (log w) (events w) (status w) (policy w) (mode w) (persisted w)
    (channels w) (dropped w ++ [c]) (sends w).

Definition set_approvals (l : list (ApprovalRequest * nat)) (p : Pending) : Pending :=
  mkPending l (pending_questions p) (plans p).
Definition set_questions (l : list (PendingQuestion * nat)) (p : Pending) : Pending :=
  mkPending (approvals p) l (plans p).
Definition set_plans (l : list (PendingPlan * nat)) (p : Pending) : Pending :=
  mkPending (approvals p) (pending_questions p) l.

(** * [pending.rs] *)

Definition pending_count (p : Pending) : nat :=
  length (approvals p) + length (pending_questions p) + length (plans p).

(** The first match, and the list without it. *)
Fixpoint take_first {A} (matches : A -> bool) (l : list A) : option (A * list A) :=
  match l with
  | [] => None
  | x :: rest =>
      if matches x then Some (x, rest)
      else match take_first matches rest with
           | Some (y, rest') => Some (y, x :: rest')
           | None => None
           end
  end.

Definition approval_is (i : id) (e : ApprovalRequest * nat) : bool := teqb (request_id (fst e)) i.
Definition question_is (i : id) (e : PendingQuestion * nat) : bool := teqb (question_id (fst e)) i.
Definition plan_is (i : id) (e : PendingPlan * nat) : bool := teqb (plan_id (fst e)) i.

Definition take_approval (i : id) (p : Pending) : option (ApprovalRequest * nat * Pending) :=
  match take_first (approval_is i) (approvals p) with
  | Some (e, rest) => Some (e, set_approvals rest p)
  | None => None
  end.
Definition take_question (i : id) (p : Pending) : option (PendingQuestion * nat * Pending) :=
  match take_first (question_is i) (pending_questions p) with
  | Some (e, rest) => Some (e, set_questions rest p)
  | None => None
  end.
Definition take_plan (i : id) (p : Pending) : option (PendingPlan * nat * Pending) :=
  match take_first (plan_is i) (plans p) with
  | Some (e, rest) => Some (e, set_plans rest p)
  | None => None
  end.

(** Ids whose waiter dropped its reply; [gone] is [tx.is_closed()]. *)
Definition abandoned (gone : nat -> bool) (p : Pending) : list id * list id * list id :=
  (map (fun e => request_id (fst e)) (List.filter (fun e => gone (snd e)) (approvals p)),
   map (fun e => question_id (fst e)) (List.filter (fun e => gone (snd e)) (pending_questions p)),
   map (fun e => plan_id (fst e)) (List.filter (fun e => gone (snd e)) (plans p))).

(** The ids of everything pending ([snapshot]). *)
Definition snapshot_ids (p : Pending) : list id * list id * list id :=
  (map (fun e => request_id (fst e)) (approvals p),
   map (fun e => question_id (fst e)) (pending_questions p),
   map (fun e => plan_id (fst e)) (plans p)).

(** * [status.rs] *)

Definition status_of (s : Status) : SessionStatus :=
  if Nat.ltb 0 (waiting s) then Waiting else if Nat.ltb 0 (active s) then Busy else Idle.

(** [update]: the event is emitted under the lock. *)
Definition update_status (change : Status -> Status) (w : World) : World :=
  let s := change (status w) in
  let now := status_of s in
  if bool_decide (now = current s) then set_status s w
  else emit (StatusChanged now) (set_status (mkStatus (active s) (waiting s) now) w).

Definition set_waiting (n : nat) (s : Status) : Status := mkStatus (active s) n (current s).
Definition begin_ (s : Status) : Status := mkStatus (S (active s)) (waiting s) (current s).
Definition end_ (s : Status) : Status := mkStatus (active s - 1) (waiting s) (current s).

(** * [journal.rs] *)

(** [append]: on failure the log is reopened and the record retried once. *)
Definition append (io : Io) (r : LogRecord) (w : World) : result text World :=
  if first_ok io then Ok (set_log (log w ++ [r]) w)
  else if reopen_ok io then
    if retry_ok io then Ok (set_log (log w ++ [r]) w) else Err (io_error io)
  else Err (io_error io).

Definition append_or_report (io : Io) (r : LogRecord) (w : World) : bool * World :=
  match append io r w with
  | Ok w' => (true, w')
  | Err e => (false, emit (ErrorEvent (str "could not save the session log: " ++ e)) w)
  end.

(** * Sections *)

Inductive Atom :=
(** [approvals.rs] *)
| ARequest (rs : list ApprovalRequest)
| ATakeApproval (i : id) (d : ApprovalDecision)
| AWithdrawApproval (i : id)
(** [reviews.rs] *)
| AAsk (i agent : id) (qs : list Question)
| APushQuestion (i agent : id) (qs : list Question)
| AAnswer (i : id) (given : option (list QuestionAnswer))
| AWithdrawQuestion (i : id)
| APropose (i agent : id) (proposed : text)
| APushPlan (i agent : id) (proposed : text)
| ATakePlan (i : id) (d : PlanDecision)
| AWithdrawPlan (i : id)
(** [exchange.rs] *)
| AAbandoned
| ASnapshot
| ACount
| ASetWaiting (n : nat)
(** [control.rs] *)
| AGrant (rule : text) (persist_ : bool)
| APersist (rule : text)
| ASetMode (m : PermissionMode)
| ALogMode (m : PermissionMode)
| AStoreMode (m : PermissionMode)
(** journal, events, replies and activities *)
| ALog (r : LogRecord)
| AEmit (e : Event)
| ASend (c : nat) (r : Reply)
| ABegin
| AEnd.

Definition notice (t : text) : Atom := AEmit (Notice Warn t).

(** [request_approvals]: every request is pushed and announced under one
    lock. *)
Definition push_approval (w : World) (r : ApprovalRequest) : World :=
  let '(c, w) := fresh_channel KApproval (request_id r) w in
  emit (ApprovalRequested r) (set_pending (set_approvals (approvals (pending w) ++ [(r, c)]) (pending w)) w).

(** The [before_reply] closure of [control::resolve_approval]. *)
Definition before_approval (r : ApprovalRequest) (d : ApprovalDecision) : list Atom :=
  match d with
  | AllowSession rule => [AGrant rule false]
  | AllowProject rule => [AGrant rule (can_persist r)]
  | AllowOnce | DenyWith _ => []
  end.

Definition rule_of (d : ApprovalDecision) : option text :=
  match d with
  | AllowSession rule | AllowProject rule => Some rule
  | AllowOnce | DenyWith _ => None
  end.

(** [resolve_approval] after the request is taken. *)
Definition finish_approval (i : id) (r : ApprovalRequest) (c : nat) (d : ApprovalDecision) : list Atom :=
  before_approval r d ++
  [ALog (LApproval i (request_tool r) (title r) (approval_allows d) (rule_of d));
   AEmit (ApprovalResolved i (approval_allows d));
   ASend c (RApproval d);
   ACount].

Definition finish_question (i : id) (given : option (list QuestionAnswer)) (reply : option nat)
  : list Atom :=
  [ALog (LQuestionAnswered i given);
   AEmit (QuestionResolved i (match given with Some _ => true | None => false end))]
  ++ match reply with Some c => [ASend c (RAnswers given)] | None => [] end
  ++ [ACount].

(** The [before_reply] closure of [control::resolve_plan]. *)
Definition before_plan (d : PlanDecision) : list Atom :=
  match d with Approve m _ => [ASetMode m] | Revise _ => [] end.

Definition finish_plan (i : id) (p : PendingPlan) (c : nat) (d : PlanDecision) : list Atom :=
  let '(approved, feedback, final_plan) :=
    match d with
    | Approve _ edited =>
        (true, None, Some (match edited with Some t => t | None => plan p end))
    | Revise feedback => (false, Some feedback, None)
    end in
  [ALog (LPlanResolved i approved feedback final_plan); AEmit (PlanResolved i approved)]
  ++ before_plan d ++ [ASend c (RPlan d); ACount].

Definition not_found (what : text) (i : id) : text := str "not found: " ++ what ++ str " " ++ i.

(** * The operations, section by section *)

Definition request_approvals (rs : list ApprovalRequest) (w : World) : World * list Atom :=
  (foldl push_approval w rs, [ACount]).

(** [control::resolve_approval] and the broker's. *)
Definition resolve_approval (i : id) (d : ApprovalDecision) (w : World) : World * list Atom :=
  match take_approval i (pending w) with
  | Some (r, c, p) => (set_pending p w, finish_approval i r c d)
  | None => (w, [notice (str "approval not applied: " ++ not_found (str "approval request") i)])
  end.

Definition withdraw_approval (i : id) (w : World) : World * list Atom :=
  match take_approval i (pending w) with
  | Some (_, _, p) => (set_pending p w, [AEmit (ApprovalResolved i false); ACount])
  | None => (w, [])
  end.

Definition ask (io : Io) (i agent : id) (qs : list Question) (w : World) : World * list Atom :=
  match append io (LQuestionAsked i agent qs) w with
  | Ok w' => (w', [APushQuestion i agent qs; ACount])
  | Err _ => (w, [])
  end.

Definition push_question (i agent : id) (qs : list Question) (w : World) : World :=
  let '(c, w) := fresh_channel KQuestion i w in
  emit (QuestionAsked i agent qs)
    (set_pending (set_questions (pending_questions (pending w) ++ [(mkPendingQuestion i agent qs, c)])
                    (pending w)) w).

(** [control::answer_question] and [answer]. *)
Definition answer (i : id) (given : option (list QuestionAnswer)) (w : World) : World * list Atom :=
  match take_question i (pending w) with
  | Some (_, c, p) => (set_pending p w, finish_question i given (Some c))
  | None => (w, [notice (str "answer not applied: " ++ not_found (str "question") i)])
  end.

Definition withdraw_question (i : id) (w : World) : World * list Atom :=
  match take_question i (pending w) with
  | Some (_, _, p) => (set_pending p w, finish_question i None None)
  | None => (w, [])
  end.

Definition propose_plan (io : Io) (i agent : id) (proposed : text) (w : World) : World * list Atom :=
  match append io (LPlanProposed i agent proposed) w with
  | Ok w' => (w', [APushPlan i agent proposed; ACount])
  | Err _ => (w, [])
  end.

Definition push_plan (i agent : id) (proposed : text) (w : World) : World :=
  let '(c, w) := fresh_channel KPlan i w in
  emit (PlanProposed i agent proposed)
    (set_pending (set_plans (plans (pending w) ++ [(mkPendingPlan i agent proposed, c)]) (pending w)) w).

(** [control::resolve_plan] and the broker's. *)
Definition resolve_plan (i : id) (d : PlanDecision) (w : World) : World * list Atom :=
  match take_plan i (pending w) with
  | Some (pl, c, p) => (set_pending p w, finish_plan i pl c d)
  | None => (w, [notice (str "plan decision not applied: " ++ not_found (str "plan") i)])
  end.

Definition withdraw_plan (i : id) (w : World) : World * list Atom :=
  match take_plan i (pending w) with
  | Some (_, _, p) =>
      (set_pending p w, [ALog (LPlanResolved i false None None); AEmit (PlanResolved i false); ACount])
  | None => (w, [])
  end.

(** The withdrawals of [withdraw_abandoned] and [withdraw_all]. *)
Definition withdrawals (ids : list id * list id * list id) : list Atom :=
  let '(a, q, p) := ids in
  map AWithdrawApproval a ++ map AWithdrawQuestion q ++ map AWithdrawPlan p.

Definition withdraw_abandoned (w : World) : World * list Atom :=
  (w, withdrawals (abandoned (fun c => existsb (Nat.eqb c) (dropped w)) (pending w))).

Definition withdraw_all (w : World) : World * list Atom := (w, withdrawals (snapshot_ids (pending w))).

(** [refresh_status] reads the count under one lock and stores it under
    another. *)
Definition refresh_status (w : World) : World * list Atom :=
  (w, [ASetWaiting (pending_count (pending w))]).

(** [grant]: the session rule, then the project's settings file. *)
Definition grant (rule : text) (persist_ : bool) (w : World) : World * list Atom :=
  match add_session_rule (policy w) rule with
  | Ok p => (set_policy p w, if persist_ then [APersist rule] else [])
  | Err e =>
      (w, [notice (str "the rule `" ++ rule ++ str "` was not added: " ++ PolicyError_display e)])
  end.

Definition grant_persist (io : Io) (rule : text) (w : World) : World * list Atom :=
  if settings_ok io then (persist rule w, [])
  else (w, [notice (str "the rule `" ++ rule ++ str "` applies to this session only: " ++ io_error io)]).

(** [set_mode]: unless it is the mode already, log it, store it, announce
    it. *)
Definition set_mode (m : PermissionMode) (w : World) : World * list Atom :=
  (w, if bool_decide (mode w = m) then [] else [ALogMode m]).

Definition log_mode (io : Io) (m : PermissionMode) (w : World) : World * list Atom :=
  let '(saved, w') := append_or_report io (LModeChanged m) w in
  (w', if saved then [AStoreMode m; AEmit (ModeChanged m)] else []).

(** A reply to a waiter that is gone is lost. *)
Definition send_reply (c : nat) (r : Reply) (w : World) : World :=
  if existsb (Nat.eqb c) (dropped w) then w else send c r w.

(** One section: the session it leaves and the sections that come next. *)
Definition run_atom (io : Io) (a : Atom) (w : World) : World * list Atom :=
  match a with
  | ARequest rs => request_approvals rs w
  | ATakeApproval i d => resolve_approval i d w
  | AWithdrawApproval i => withdraw_approval i w
  | AAsk i agent qs => ask io i agent qs w
  | APushQuestion i agent qs => (push_question i agent qs w, [])
  | AAnswer i given => answer i given w
  | AWithdrawQuestion i => withdraw_question i w
  | APropose i agent proposed => propose_plan io i agent proposed w
  | APushPlan i agent proposed => (push_plan i agent proposed w, [])
  | ATakePlan i d => resolve_plan i d w
  | AWithdrawPlan i => withdraw_plan i w
  | AAbandoned => withdraw_abandoned w
  | ASnapshot => withdraw_all w
  | ACount => refresh_status w
  | ASetWaiting n => (update_status (set_waiting n) w, [])
  | AGrant rule persist_ => grant rule persist_ w
  | APersist rule => grant_persist io rule w
  | ASetMode m => set_mode m w
  | ALogMode m => log_mode io m w
  | AStoreMode m => (set_world_mode m w, [])
  | ALog r => (snd (append_or_report io r w), [])
  | AEmit e => (emit e w, [])
  | ASend c r => (send_reply c r w, [])
  | ABegin => (update_status begin_ w, [])
  | AEnd => (update_status end_ w, [])
  end.

(** * Operations *)

Inductive Op :=
| OpRequestApprovals (rs : list ApprovalRequest)
| OpResolveApproval (i : id) (d : ApprovalDecision)
| OpWithdrawApproval (i : id)
| OpAsk (i agent : id) (qs : list Question)
| OpAnswer (i : id) (given : option (list QuestionAnswer))
| OpWithdrawQuestion (i : id)
| OpProposePlan (i agent : id) (proposed : text)
| OpResolvePlan (i : id) (d : PlanDecision)
| OpWithdrawPlan (i : id)
| OpWithdrawAbandoned
| OpWithdrawAll
| OpSetMode (m : PermissionMode)
| OpBegin
| OpEnd.

(** The first section of an operation. *)
Definition start (op : Op) : list Atom :=
  match op with
  | OpRequestApprovals rs => [ARequest rs]
  | OpResolveApproval i d => [ATakeApproval i d]
  | OpWithdrawApproval i => [AWithdrawApproval i]
  | OpAsk i agent qs => [AAsk i agent qs]
  | OpAnswer i given => [AAnswer i given]
  | OpWithdrawQuestion i => [AWithdrawQuestion i]
  | OpProposePlan i agent proposed => [APropose i agent proposed]
  | OpResolvePlan i d => [ATakePlan i d]
  | OpWithdrawPlan i => [AWithdrawPlan i]
  | OpWithdrawAbandoned => [AAbandoned]
  | OpWithdrawAll => [ASnapshot]
  | OpSetMode m => [ASetMode m]
  | OpBegin => [ABegin]
  | OpEnd => [AEnd]
  end.

(** Runs sections to the end without interruption, [depth] bounding how
    often a section is followed by new ones. *)
Fixpoint run_task (depth : nat) (io : Io) (task : list Atom) (w : World) : World :=
  match depth with
  | O => w
  | S depth =>
      foldl (fun w a => let '(w', more) := run_atom io a w in run_task depth io more w') w task
  end.

(** An operation alone: no section is followed by more than five levels. *)
Definition run_op (io : Io) (op : Op) (w : World) : World := run_task 6 io (start op) w.
End WithJson.
