(* ===== verification/BrokerFacts.v ===== *)
(** Facts about the broker: what any interleaving of operations preserves, and
    what one operation run alone achieves. *)

From S2P Require Export Broker RuleFacts.
From stdpp Require Import relations.

(** * Counting occurrences *)

Section Counting.
Context {A : Type} `{EqDecision A}.

Definition occ (x : A) (l : list A) : nat := count_occ (fun a b => decide (a = b)) l x.

Lemma occ_nil x : occ x [] = 0%nat.
Proof using. done. Qed.

Lemma occ_cons x y l : occ x (y :: l) = ((if decide (y = x) then 1 else 0) + occ x l)%nat.
Proof using. unfold occ. simpl. by destruct (decide (y = x)). Qed.

Lemma occ_app x l k : occ x (l ++ k) = (occ x l + occ x k)%nat.
Proof using. apply count_occ_app. Qed.

Lemma occ_perm l k : l ≡ₚ k <-> forall x, occ x l = occ x k.
Proof using. apply (Permutation_count_occ (fun a b => decide (a = b))). Qed.

Lemma occ_nodup l : List.NoDup l <-> forall x, (occ x l <= 1)%nat.
Proof using. apply (NoDup_count_occ (fun a b => decide (a = b))). Qed.

Lemma occ_In x l : In x l <-> (0 < occ x l)%nat.
Proof using. rewrite (count_occ_In (fun a b => decide (a = b))). unfold occ. lia. Qed.
End Counting.

#[global] Arguments occ : simpl never.
Create HintDb broker.
Create Rewrite HintDb occ.
#[export] Hint Rewrite @occ_nil @occ_cons @occ_app @app_nil_r : occ.

(** Splits the branches of [run_atom] in a hypothesis. *)
Ltac atom_cases H :=
  cbn [run_atom] in H;
  cbv beta delta [request_approvals resolve_approval withdraw_approval ask push_question answer
    withdraw_question propose_plan push_plan resolve_plan withdraw_plan withdrawals
    withdraw_abandoned withdraw_all refresh_status grant grant_persist set_mode log_mode
    send_reply] in H;
  repeat match type of H with
  | context [match ?m with _ => _ end] => destruct m eqn:?
  end;
  injection H as <- <-.

Lemma take_first_perm {A} (m : A -> bool) l x rest :
  take_first m l = Some (x, rest) -> l ≡ₚ x :: rest /\ m x = true.
Proof.
  revert rest. induction l as [|y l IH]; intros rest; [done|]. cbn [take_first].
  destruct (m y) eqn:Em; [by intros [= <- <-]|].
  destruct (take_first m l) as [[z k]|]; [|done]. intros [= <- <-].
  destruct (IH k eq_refl) as [Hp Hz]. split; [|done]. rewrite Hp. apply Permutation_swap.
Qed.

Lemma take_first_None {A} (m : A -> bool) l : take_first m l = None -> forall x, In x l -> m x = false.
Proof.
  induction l as [|y l IH]; [done|]. cbn [take_first]. destruct (m y) eqn:Em; [done|].
  destruct (take_first m l) as [[? ?]|] eqn:E; [done|]. intros _ x [<-|Hx]; [done|by apply IH].
Qed.

#[export] Instance Kind_eq_dec : EqDecision Kind.
Proof. solve_decision. Defined.

Section WithJson.
Context {G : Globset} {P : Platform} {J : Json}.

(** * Interleavings *)

(** The session, what remains of each operation that started, and the
    operations started so far. *)
Record State := mkState { world : World; tasks : list (list Atom); history : list Op }.

Inductive step : State -> State -> Prop :=
| step_section io w a k before after h w' more :
    run_atom io a w = (w', more) ->
    step (mkState w (before ++ (a :: k) :: after) h)
         (mkState w' (before ++ (more ++ k) :: after) h)
| step_start op w ts h : step (mkState w ts h) (mkState w (ts ++ [start op]) (h ++ [op]))
| step_drop c w ts h : step (mkState w ts h) (mkState (drop_receiver c w) ts h).

Definition new_world (p : Policy) (m : PermissionMode) : World :=
  mkWorld (mkPending [] [] []) [] [] (mkStatus 0 0 Idle) p m [] [] [] [].

Definition reachable (s : State) : Prop :=
  exists p m, rtc step (mkState (new_world p m) [] []) s.

(** Rule induction for properties of sections: what holds of the start, of
    every section run and of every new operation holds of every reachable
    state. *)
Lemma reachable_invariant (inv : State -> Prop) :
  (forall p m, inv (mkState (new_world p m) [] [])) ->
  (forall s s', step s s' -> inv s -> inv s') -> forall s, reachable s -> inv s.
Proof using.
  intros H0 Hs s (p & m & H). specialize (H0 p m).
  induction H as [|s1 s2 s3 H12 _ IH]; [done|]. apply IH. by eapply Hs.
Qed.

(** * Accounting *)

Definition event_request (e : Event) : option (Kind * id) :=
  match e with
  | ApprovalRequested r => Some (KApproval, request_id r)
  | QuestionAsked i _ _ => Some (KQuestion, i)
  | PlanProposed i _ _ => Some (KPlan, i)
  | _ => None
  end.

Definition event_resolve (e : Event) : option (Kind * id) :=
  match e with
  | ApprovalResolved i _ => Some (KApproval, i)
  | QuestionResolved i _ => Some (KQuestion, i)
  | PlanResolved i _ => Some (KPlan, i)
  | _ => None
  end.

Definition pending_ids (p : Pending) : list (Kind * id) :=
  map (fun e => (KApproval, request_id (fst e))) (approvals p)
  ++ map (fun e => (KQuestion, question_id (fst e))) (pending_questions p)
  ++ map (fun e => (KPlan, plan_id (fst e))) (plans p).

Definition atom_resolves (a : Atom) : option (Kind * id) :=
  match a with AEmit e => event_resolve e | _ => None end.

(** Requests announced and resolved so far, and resolutions under way. *)
Definition requested (w : World) : list (Kind * id) := omap event_request (events w).
Definition resolved (w : World) : list (Kind * id) := omap event_resolve (events w).
Definition in_flight (t : list Atom) : list (Kind * id) := omap atom_resolves t.

(** No remaining section announces a request by itself. *)
Definition announces_nothing (a : Atom) : Prop :=
  match a with AEmit e => event_request e = None | _ => True end.

Lemma requested_emit e w :
  requested (emit e w) = requested w ++ match event_request e with Some x => [x] | None => [] end.
Proof using. unfold requested. cbn [emit events]. rewrite omap_app. cbn. by destruct (event_request e). Qed.

Lemma resolved_emit e w :
  resolved (emit e w) = resolved w ++ match event_resolve e with Some x => [x] | None => [] end.
Proof using. unfold resolved. cbn [emit events]. rewrite omap_app. cbn. by destruct (event_resolve e). Qed.

Lemma in_flight_app s t : in_flight (s ++ t) = in_flight s ++ in_flight t.
Proof using. apply omap_app. Qed.

(** What a section leaves alone. *)
Definition same_account (w w' : World) : Prop :=
  requested w' = requested w /\ resolved w' = resolved w /\ pending w' = pending w.

Lemma update_status_account change w : same_account w (update_status change w).
Proof using.
  unfold update_status. case_bool_decide; [done|]. unfold same_account.
  rewrite requested_emit, resolved_emit. cbn. by rewrite !app_nil_r.
Qed.

Lemma append_account io r w w' : append io r w = Ok w' -> same_account w w'.
Proof using. unfold append. repeat case_if; by intros [= <-]. Qed.

Lemma append_or_report_account io r w : same_account w (snd (append_or_report io r w)).
Proof using.
  unfold append_or_report. destruct (append io r w) eqn:E; [by eapply append_account|].
  unfold same_account. cbn [snd]. rewrite requested_emit, resolved_emit. cbn. by rewrite !app_nil_r.
Qed.

(** Requests announced and pending before, and resolutions under way, are
    accounted for afterwards. *)
Definition balanced (w w' : World) (gone more : list Atom) : Prop :=
  forall x, (occ x (requested w') + occ x (pending_ids (pending w)) + occ x (in_flight gone)
             + occ x (resolved w)
             = occ x (requested w) + occ x (pending_ids (pending w')) + occ x (in_flight more)
               + occ x (resolved w'))%nat.

Lemma balanced_same w w' a more :
  same_account w w' -> atom_resolves a = None -> in_flight more = [] -> balanced w w' [a] more.
Proof using.
  intros (Hq & Hr & Hp) Ha Hm x. unfold in_flight in *. cbn. rewrite Ha, Hm, Hq, Hr, Hp.
  autorewrite with occ. lia.
Qed.

Lemma push_approval_balanced w r x :
  (occ x (requested (push_approval w r)) + occ x (pending_ids (pending w))
   = occ x (requested w) + occ x (pending_ids (pending (push_approval w r))))%nat
  /\ resolved (push_approval w r) = resolved w.
Proof using.
  unfold push_approval. cbn [fresh_channel].
  rewrite requested_emit, resolved_emit. cbn. unfold pending_ids. cbn.
  rewrite map_app. autorewrite with occ. cbn. autorewrite with occ. split; [unfold requested; cbn; lia|].
  unfold resolved. done.
Qed.

Lemma push_approvals_balanced rs w x :
  (occ x (requested (foldl push_approval w rs)) + occ x (pending_ids (pending w))
   = occ x (requested w) + occ x (pending_ids (pending (foldl push_approval w rs))))%nat
  /\ resolved (foldl push_approval w rs) = resolved w.
Proof using.
  revert w. induction rs as [|r rs IH]; intros w; [cbn; split; [lia|done]|]. cbn [foldl].
  destruct (IH (push_approval w r)) as [H1 H2]. destruct (push_approval_balanced w r x) as [H3 H4].
  split; [lia|congruence].
Qed.

Lemma take_approval_ids i p r c p' :
  take_approval i p = Some (r, c, p') ->
  pending_ids p ≡ₚ (KApproval, i) :: pending_ids p' /\ request_id r = i.
Proof using.
  unfold take_approval. destruct (take_first _ _) as [[[r0 c0] rest]|] eqn:E; [|done].
  intros [= -> -> <-]. apply take_first_perm in E as [Hp Hi].
  apply teqb_eq in Hi. cbn in Hi. split; [|done]. unfold pending_ids. cbn. rewrite Hp. cbn. by rewrite Hi.
Qed.

Lemma take_question_ids i p q c p' :
  take_question i p = Some (q, c, p') -> pending_ids p ≡ₚ (KQuestion, i) :: pending_ids p'.
Proof using.
  unfold take_question. destruct (take_first _ _) as [[[q0 c0] rest]|] eqn:E; [|done].
  intros [= -> -> <-]. apply take_first_perm in E as [Hp Hi].
  apply teqb_eq in Hi. cbn in Hi. unfold pending_ids. cbn. rewrite Hp. cbn. rewrite Hi.
  by rewrite <- Permutation_middle.
Qed.

Lemma take_plan_ids i p q c p' :
  take_plan i p = Some (q, c, p') -> pending_ids p ≡ₚ (KPlan, i) :: pending_ids p'.
Proof using.
  unfold take_plan. destruct (take_first _ _) as [[[q0 c0] rest]|] eqn:E; [|done].
  intros [= -> -> <-]. apply take_first_perm in E as [Hp Hi].
  apply teqb_eq in Hi. cbn in Hi. unfold pending_ids. cbn. rewrite Hp. cbn. rewrite Hi.
  rewrite !app_assoc. by rewrite <- Permutation_middle.
Qed.

Lemma taken_balanced w p a more i :
  atom_resolves a = None -> pending_ids (pending w) ≡ₚ i :: pending_ids p -> in_flight more = [i] ->
  balanced w (set_pending p w) [a] more.
Proof using.
  intros Ha Hp Hm x. apply (proj1 (occ_perm _ _)) with (x := x) in Hp. rewrite Hm.
  unfold in_flight. cbn. rewrite Ha. autorewrite with occ in *.
  unfold requested, resolved. cbn. lia.
Qed.

Lemma in_flight_finish_approval i r c d : in_flight (finish_approval i r c d) = [(KApproval, i)].
Proof using. by destruct d. Qed.

Lemma in_flight_finish_question i given c : in_flight (finish_question i given c) = [(KQuestion, i)].
Proof using. by destruct given, c. Qed.

Lemma in_flight_finish_plan i q c d : in_flight (finish_plan i q c d) = [(KPlan, i)].
Proof using. by destruct d. Qed.

Lemma in_flight_withdrawals a q p :
  in_flight (map AWithdrawApproval a ++ map AWithdrawQuestion q ++ map AWithdrawPlan p) = [].
Proof using.
  rewrite !in_flight_app. assert (H : forall (f : id -> Atom) l,
    (forall i, atom_resolves (f i) = None) -> in_flight (map f l) = []).
  { intros f l Hf. induction l as [|i l IH]; [done|]. unfold in_flight in *. cbn. by rewrite Hf. }
  by rewrite !H.
Qed.

Lemma run_atom_announces io a w w' more :
  run_atom io a w = (w', more) -> Forall announces_nothing more.
Proof using.
  assert (Hmap : forall (f : id -> Atom) l, (forall i, announces_nothing (f i)) ->
    Forall announces_nothing (map f l)).
  { intros f l Hf. induction l; by constructor. }
  intros H. destruct a; atom_cases H;
    rewrite ?Forall_app; split_and?; repeat constructor; auto.
  all: try (by apply Hmap). all: destruct d; repeat constructor.
Qed.

Lemma emit_balanced e w more :
  event_request e = None -> in_flight more = [] -> balanced w (emit e w) [AEmit e] more.
Proof using.
  intros He Hm x. unfold in_flight in *. cbn [omap list_omap atom_resolves]. rewrite Hm.
  rewrite requested_emit, resolved_emit, He. cbn [pending emit].
  destruct (event_resolve e); autorewrite with occ; lia.
Qed.

Lemma pushed_balanced w w' a e i p more :
  atom_resolves a = None -> event_request e = Some i -> event_resolve e = None ->
  requested w' = requested w ++ [i] -> resolved w' = resolved w ->
  pending w' = p -> pending_ids p ≡ₚ i :: pending_ids (pending w) -> in_flight more = [] ->
  balanced w w' [a] more.
Proof using.
  intros Ha He Hr Hq Hs Hp Hi Hm x. apply (proj1 (occ_perm _ _)) with (x := x) in Hi.
  unfold in_flight in *. cbn. rewrite Ha, Hm, Hq, Hs, Hp. autorewrite with occ in *. lia.
Qed.

Lemma take_approval_balanced w p a more i r c :
  take_approval i (pending w) = Some (r, c, p) -> atom_resolves a = None ->
  in_flight more = [(KApproval, i)] -> balanced w (set_pending p w) [a] more.
Proof using. intros [Hp _]%take_approval_ids ? ?. by eapply taken_balanced. Qed.

Lemma take_question_balanced w p a more i q c :
  take_question i (pending w) = Some (q, c, p) -> atom_resolves a = None ->
  in_flight more = [(KQuestion, i)] -> balanced w (set_pending p w) [a] more.
Proof using. intros Hp%take_question_ids ? ?. by eapply taken_balanced. Qed.

Lemma take_plan_balanced w p a more i q c :
  take_plan i (pending w) = Some (q, c, p) -> atom_resolves a = None ->
  in_flight more = [(KPlan, i)] -> balanced w (set_pending p w) [a] more.
Proof using. intros Hp%take_plan_ids ? ?. by eapply taken_balanced. Qed.

Lemma push_question_balanced io i agent qs w w' more :
  run_atom io (APushQuestion i agent qs) w = (w', more) ->
  balanced w w' [APushQuestion i agent qs] more.
Proof using.
  intros [= <- <-]. unfold push_question. cbn [fresh_channel].
  eapply (pushed_balanced _ _ _ (QuestionAsked i agent qs) (KQuestion, i)); try done.
  - by rewrite requested_emit.
  - rewrite resolved_emit. cbn. by rewrite app_nil_r.
  - unfold pending_ids. cbn. rewrite map_app. cbn.
    rewrite <- (app_assoc _ [_]). cbn. rewrite app_assoc. rewrite <- Permutation_middle.
    by rewrite <- app_assoc.
Qed.

Lemma push_plan_balanced io i agent proposed w w' more :
  run_atom io (APushPlan i agent proposed) w = (w', more) ->
  balanced w w' [APushPlan i agent proposed] more.
Proof using.
  intros [= <- <-]. unfold push_plan. cbn [fresh_channel].
  eapply (pushed_balanced _ _ _ (PlanProposed i agent proposed) (KPlan, i)); try done.
  - by rewrite requested_emit.
  - rewrite resolved_emit. cbn. by rewrite app_nil_r.
  - unfold pending_ids. cbn. rewrite map_app. cbn. rewrite !app_assoc.
    by rewrite Permutation_app_comm.
Qed.

Lemma request_balanced rs w : balanced w (foldl push_approval w rs) [ARequest rs] [ACount].
Proof using.
  intros x. destruct (push_approvals_balanced rs w x) as [H1 H2].
  unfold in_flight. cbn. rewrite H2. autorewrite with occ. lia.
Qed.

Lemma same_account_refl w : same_account w w.
Proof using. done. Qed.
End WithJson.

#[export] Hint Resolve same_account_refl update_status_account append_account
  append_or_report_account balanced_same take_approval_balanced take_question_balanced
  take_plan_balanced push_question_balanced push_plan_balanced request_balanced emit_balanced
  in_flight_finish_approval in_flight_finish_question in_flight_finish_plan
  in_flight_withdrawals : broker.

Section WithJson.
Context {G : Globset} {P : Platform} {J : Json}.

Lemma run_atom_balanced io a w w' more :
  run_atom io a w = (w', more) -> announces_nothing a -> balanced w w' [a] more.
Proof using.
  intros H Ha.
  destruct a; try (eapply push_question_balanced, H); try (eapply push_plan_balanced, H);
    atom_cases H; try (eapply balanced_same; [done|done|done]); eauto with broker.
  - pose proof (append_or_report_account io (LModeChanged m) w) as Hs. rewrite Heqp in Hs.
    by apply balanced_same.
  - pose proof (append_or_report_account io (LModeChanged m) w) as Hs. rewrite Heqp in Hs.
    by apply balanced_same.
Qed.

Lemma in_flight_cons a t : in_flight (a :: t) = in_flight [a] ++ in_flight t.
Proof using. apply (in_flight_app [a] t). Qed.

Definition accounted (s : State) : Prop :=
  Forall announces_nothing (concat (tasks s))
  /\ forall x, occ x (requested (world s))
       = (occ x (pending_ids (pending (world s))) + occ x (in_flight (concat (tasks s)))
          + occ x (resolved (world s)))%nat.

Lemma accounted_step s s' : step s s' -> accounted s -> accounted s'.
Proof using.
  intros [io w a k before after h w' more H|op w ts h|c w ts h] [Hq Hx]; cbn [world tasks] in *.
  - rewrite !concat_app in *. cbn [concat] in *. rewrite !Forall_app in *.
    destruct Hq as (Hb & Hk & Ha). apply Forall_cons in Hk as [Hone Hk]. split.
    + cbn [tasks]. rewrite concat_app. cbn [concat]. rewrite !Forall_app. split_and!; try done. by eapply run_atom_announces.
    + intros x. specialize (Hx x). pose proof (run_atom_balanced _ _ _ _ _ H Hone x) as Hbal.
      cbn [world tasks]. rewrite concat_app. cbn [concat].
      rewrite !in_flight_app in *. cbn [app] in Hx. rewrite in_flight_cons in Hx.
      autorewrite with occ in *. lia.
  - assert (Hs : Forall announces_nothing (start op) /\ in_flight (start op) = [])
      by (destruct op; split; by repeat constructor).
    destruct Hs as [Hs Hi]. split; cbn [world tasks]; rewrite concat_app; cbn [concat]; rewrite app_nil_r.
    + apply Forall_app. by split.
    + intros x. rewrite in_flight_app, Hi, app_nil_r. apply Hx.
  - by split.
Qed.

Lemma reachable_accounted s : reachable s -> accounted s.
Proof using.
  apply reachable_invariant; [|by intros; eapply accounted_step].
  intros p m. split; [constructor|]. done.
Qed.

(** * Reply channels *)

Definition pending_channels (p : Pending) : list nat :=
  map snd (approvals p) ++ map snd (pending_questions p) ++ map snd (plans p).
Definition send_channel (a : Atom) : option nat :=
  match a with ASend c _ => Some c | _ => None end.
Definition sending (t : list Atom) : list nat := omap send_channel t.
Definition sent (w : World) : list nat := map fst (sends w).

Lemma sending_app s t : sending (s ++ t) = sending s ++ sending t.
Proof using. apply omap_app. Qed.

Lemma sending_cons a t : sending (a :: t) = sending [a] ++ sending t.
Proof using. apply (sending_app [a] t). Qed.

(** A section creates [n] channels and answers on no other channel twice. *)
Definition conserves (w w' : World) (gone more : list Atom) : Prop :=
  exists n, length (channels w') = (length (channels w) + n)%nat
    /\ forall c, (occ c (pending_channels (pending w')) + occ c (sending more) + occ c (sent w')
                  <= occ c (pending_channels (pending w)) + occ c (sending gone) + occ c (sent w)
                     + occ c (seq (length (channels w)) n))%nat.

(** A section that creates no channel and answers nobody. *)
Definition same_channels (w w' : World) : Prop :=
  channels w' = channels w /\ sends w' = sends w /\ pending w' = pending w.

Lemma conserves_same w w' a more :
  same_channels w w' -> sending more = [] -> conserves w w' [a] more.
Proof using.
  intros (Hc & Hs & Hp) Hm. exists 0%nat. unfold sent. rewrite Hc, Hs, Hp, Hm. split; [lia|].
  intros c. autorewrite with occ. lia.
Qed.

Lemma take_channels {A} (m : A * nat -> bool) l r c rest :
  take_first m l = Some (r, c, rest) -> map snd l ≡ₚ c :: map snd rest.
Proof using. intros [Hp _]%take_first_perm. by rewrite Hp. Qed.

Lemma taken_conserves w p a more c :
  pending_channels (pending w) ≡ₚ c :: pending_channels p -> sending more `sublist_of` [c] ->
  conserves w (set_pending p w) [a] more.
Proof using.
  intros Hp Hm. exists 0%nat. split; [cbn; lia|]. intros x. cbn.
  apply (proj1 (occ_perm _ _)) with (x := x) in Hp. rewrite Hp.
  assert (occ x (sending more) <= occ x [c])%nat.
  { apply sublist_cons_r in Hm as [Hm%sublist_nil_r|(l & -> & Hm%sublist_nil_r)].
    - rewrite Hm. autorewrite with occ. lia.
    - rewrite Hm. autorewrite with occ. lia. }
  unfold sent. cbn. autorewrite with occ in *. lia.
Qed.

Lemma take_approval_channels i p r c p' :
  take_approval i p = Some (r, c, p') -> pending_channels p ≡ₚ c :: pending_channels p'.
Proof using.
  unfold take_approval. destruct (take_first _ _) as [[[? ?] rest]|] eqn:E; [|done].
  intros [= -> -> <-]. apply take_channels in E. unfold pending_channels. cbn. by rewrite E.
Qed.

Lemma take_question_channels i p r c p' :
  take_question i p = Some (r, c, p') -> pending_channels p ≡ₚ c :: pending_channels p'.
Proof using.
  unfold take_question. destruct (take_first _ _) as [[[? ?] rest]|] eqn:E; [|done].
  intros [= -> -> <-]. apply take_channels in E. unfold pending_channels. cbn. rewrite E. cbn.
  by rewrite <- Permutation_middle.
Qed.

Lemma take_plan_channels i p r c p' :
  take_plan i p = Some (r, c, p') -> pending_channels p ≡ₚ c :: pending_channels p'.
Proof using.
  unfold take_plan. destruct (take_first _ _) as [[[? ?] rest]|] eqn:E; [|done].
  intros [= -> -> <-]. apply take_channels in E. unfold pending_channels. cbn. rewrite E.
  rewrite !app_assoc. by rewrite <- Permutation_middle.
Qed.

Lemma take_approval_conserves w p a more i r c :
  take_approval i (pending w) = Some (r, c, p) -> sending more `sublist_of` [c] ->
  conserves w (set_pending p w) [a] more.
Proof using. intros Hp%take_approval_channels ?. by eapply taken_conserves. Qed.

Lemma take_question_conserves w p a more i q c :
  take_question i (pending w) = Some (q, c, p) -> sending more `sublist_of` [c] ->
  conserves w (set_pending p w) [a] more.
Proof using. intros Hp%take_question_channels ?. by eapply taken_conserves. Qed.

Lemma take_plan_conserves w p a more i q c :
  take_plan i (pending w) = Some (q, c, p) -> sending more `sublist_of` [c] ->
  conserves w (set_pending p w) [a] more.
Proof using. intros Hp%take_plan_channels ?. by eapply taken_conserves. Qed.

Lemma sending_finish_approval i r c d : sending (finish_approval i r c d) `sublist_of` [c].
Proof using. by destruct d. Qed.

Lemma sending_finish_question i given c : sending (finish_question i given (Some c)) `sublist_of` [c].
Proof using. by destruct given. Qed.

Lemma sending_nobody t c : sending t = [] -> sending t `sublist_of` [c].
Proof using. intros ->. apply sublist_nil_l. Qed.

Lemma sending_finish_plan i q c d : sending (finish_plan i q c d) `sublist_of` [c].
Proof using. by destruct d. Qed.

Lemma sending_withdrawals a q p :
  sending (map AWithdrawApproval a ++ map AWithdrawQuestion q ++ map AWithdrawPlan p) = [].
Proof using.
  rewrite !sending_app. assert (H : forall (f : id -> Atom) l,
    (forall i, send_channel (f i) = None) -> sending (map f l) = []).
  { intros f l Hf. induction l as [|i l IH]; [done|]. unfold sending in *. cbn. by rewrite Hf. }
  by rewrite !H.
Qed.

Lemma update_status_channels change w : same_channels w (update_status change w).
Proof using. unfold update_status. by case_bool_decide. Qed.

Lemma append_channels io r w w' : append io r w = Ok w' -> same_channels w w'.
Proof using. unfold append. repeat case_if; by intros [= <-]. Qed.

Lemma append_or_report_channels io r w b w' :
  append_or_report io r w = (b, w') -> same_channels w w'.
Proof using.
  unfold append_or_report. destruct (append io r w) eqn:E; intros [= <- <-]; [|done].
  by eapply append_channels.
Qed.

Lemma same_channels_refl w : same_channels w w.
Proof using. done. Qed.

(** One new pending entry with its channel. *)
Lemma pushed_conserves w w' a x more :
  channels w' = channels w ++ [x] -> sends w' = sends w ->
  pending_channels (pending w') ≡ₚ length (channels w) :: pending_channels (pending w) ->
  sending more = [] -> conserves w w' [a] more.
Proof using.
  intros Hc Hs Hp Hm. exists 1%nat. split; [by rewrite Hc, length_app|]. intros c.
  apply (proj1 (occ_perm _ _)) with (x := c) in Hp. unfold sent. rewrite Hp, Hs, Hm. cbn [seq].
  autorewrite with occ. lia.
Qed.

Lemma push_approval_conserves w r : conserves w (push_approval w r) [ACount] [ACount].
Proof using.
  eapply pushed_conserves; try done. unfold pending_channels. cbn. rewrite map_app. cbn.
  rewrite <- (app_assoc _ [_]). cbn. by rewrite <- Permutation_middle.
Qed.

Lemma push_approvals_conserves rs w : conserves w (foldl push_approval w rs) [ARequest rs] [ACount].
Proof using.
  change (conserves w (foldl push_approval w rs) [ACount] [ACount]).
  revert w. induction rs as [|r rs IH]; intros w; cbn [foldl]; [by apply conserves_same|].
  destruct (IH (push_approval w r)) as (n & Hn & Hc).
  destruct (push_approval_conserves w r) as (m & Hm & Hc'). exists (m + n)%nat. split; [lia|].
  intros c. specialize (Hc c). specialize (Hc' c). rewrite seq_app, <- Hm.
  autorewrite with occ in *. lia.
Qed.

Lemma push_question_conserves io i agent qs w w' more :
  run_atom io (APushQuestion i agent qs) w = (w', more) ->
  conserves w w' [APushQuestion i agent qs] more.
Proof using.
  intros [= <- <-]. unfold push_question. cbn [fresh_channel].
  eapply pushed_conserves; try done. unfold pending_channels. cbn.
  rewrite map_app. cbn. rewrite <- (app_assoc _ [_]). cbn. rewrite app_assoc.
  rewrite <- Permutation_middle. by rewrite <- app_assoc.
Qed.

Lemma push_plan_conserves io i agent proposed w w' more :
  run_atom io (APushPlan i agent proposed) w = (w', more) ->
  conserves w w' [APushPlan i agent proposed] more.
Proof using.
  intros [= <- <-]. unfold push_plan. cbn [fresh_channel].
  eapply pushed_conserves; try done. unfold pending_channels. cbn.
  rewrite map_app. cbn. rewrite !app_assoc. by rewrite Permutation_app_comm.
Qed.

Lemma send_conserves c r w : conserves w (send c r w) [ASend c r] [].
Proof using.
  exists 0%nat. split; [cbn; lia|]. intros x. unfold sent, sending. cbn. rewrite map_app. cbn.
  autorewrite with occ. lia.
Qed.

Lemma unsent_conserves c r w : conserves w w [ASend c r] [].
Proof using.
  exists 0%nat. split; [cbn; lia|]. intros x. unfold sending. cbn. autorewrite with occ. lia.
Qed.
End WithJson.

#[export] Hint Resolve same_channels_refl update_status_channels append_channels
  append_or_report_channels conserves_same take_approval_conserves take_question_conserves
  take_plan_conserves push_question_conserves push_plan_conserves push_approvals_conserves
  send_conserves unsent_conserves sending_finish_approval sending_finish_question
  sending_finish_plan sending_nobody sending_withdrawals : broker.

Section WithJson.
Context {G : Globset} {P : Platform} {J : Json}.

Lemma run_atom_conserves io a w w' more :
  run_atom io a w = (w', more) -> conserves w w' [a] more.
Proof using.
  intros H.
  destruct a; try (eapply push_question_conserves, H); try (eapply push_plan_conserves, H);
    atom_cases H; try (eapply conserves_same; [done|done]); eauto with broker.
  destruct (append_or_report io r w) eqn:E. eauto with broker.
Qed.

(** Every channel is waiting in one entry, about to be answered once, or
    answered once. *)
Definition channels_linear (s : State) : Prop :=
  forall c, let n := (occ c (pending_channels (pending (world s))) + occ c (sending (concat (tasks s)))
                      + occ c (sent (world s)))%nat in
            (n <= 1)%nat /\ (0 < n -> c < length (channels (world s)))%nat.

Lemma occ_seq c a n : (occ c (seq a n) <= 1)%nat /\ (0 < occ c (seq a n) -> a <= c < a + n)%nat.
Proof using.
  split; [apply occ_nodup, seq_NoDup|]. intros H. apply occ_In in H. by apply in_seq in H.
Qed.

Lemma channels_linear_step s s' : step s s' -> channels_linear s -> channels_linear s'.
Proof using.
  intros [io w a k before after h w' more H|op w ts h|c0 w ts h] Hl c; specialize (Hl c);
    cbn [world tasks] in *.
  - destruct (run_atom_conserves _ _ _ _ _ H) as (n & Hn & Hc). specialize (Hc c).
    pose proof (occ_seq c (length (channels w)) n) as [H1 H2].
    rewrite concat_app in *. cbn [concat app] in *. rewrite sending_app in *.
    rewrite sending_cons, ?sending_app in *. autorewrite with occ in *. cbn zeta in *. lia.
  - rewrite concat_app. cbn [concat]. rewrite app_nil_r, sending_app.
    replace (sending (start op)) with (@nil nat) by (by destruct op). by rewrite app_nil_r.
  - exact Hl.
Qed.

Lemma reachable_linear s : reachable s -> channels_linear s.
Proof using.
  apply reachable_invariant; [|by intros; eapply channels_linear_step].
  intros p m c. cbn. autorewrite with occ. lia.
Qed.

(** * Where replies come from *)

(** The operation with which the user gives a reply to a request. *)
Definition reply_op (i : id) (r : Reply) : Kind * Op :=
  match r with
  | RApproval d => (KApproval, OpResolveApproval i d)
  | RAnswers given => (KQuestion, OpAnswer i given)
  | RPlan d => (KPlan, OpResolvePlan i d)
  end.

(** The reply was given by the user to the request of the channel. *)
Definition given_by_user (h : list Op) (ch : list (Kind * id)) (c : nat) (r : Reply) : Prop :=
  exists i, ch !! c = Some (fst (reply_op i r), i) /\ In (snd (reply_op i r)) h.

Definition atom_grounded (h : list Op) (ch : list (Kind * id)) (a : Atom) : Prop :=
  match a with
  | ATakeApproval i d => In (OpResolveApproval i d) h
  | AAnswer i given => In (OpAnswer i given) h
  | ATakePlan i d => In (OpResolvePlan i d) h
  | ASend c r => given_by_user h ch c r
  | _ => True
  end.

(** Every pending entry names the request its channel was created for. *)
Definition entries_owned (ch : list (Kind * id)) (p : Pending) : Prop :=
  Forall (fun e => ch !! snd e = Some (KApproval, request_id (fst e))) (approvals p)
  /\ Forall (fun e => ch !! snd e = Some (KQuestion, question_id (fst e))) (pending_questions p)
  /\ Forall (fun e => ch !! snd e = Some (KPlan, plan_id (fst e))) (plans p).

Lemma entries_owned_grow ch more p : entries_owned ch p -> entries_owned (ch ++ more) p.
Proof using.
  intros (H1 & H2 & H3). split_and!; (eapply Forall_impl; [eassumption|]); intros e He; by apply lookup_app_l_Some.
Qed.

Lemma atom_grounded_grow h h' ch ch' a :
  atom_grounded h ch a -> atom_grounded (h ++ h') (ch ++ ch') a.
Proof using.
  destruct a; cbn; try done; try (intros; apply in_app_iff; by left).
  intros (i & Hc & Hi). exists i. split; [by apply lookup_app_l_Some|apply in_app_iff; by left].
Qed.

Lemma take_first_Forall {A} (Q : A -> Prop) m l x rest :
  take_first m l = Some (x, rest) -> Forall Q l -> Q x /\ Forall Q rest.
Proof using. intros [Hp _]%take_first_perm. rewrite Hp. by rewrite Forall_cons. Qed.

Lemma take_approval_owned ch i p r c p' :
  take_approval i p = Some (r, c, p') -> entries_owned ch p ->
  ch !! c = Some (KApproval, i) /\ entries_owned ch p'.
Proof using.
  intros E (H1 & H2 & H3). pose proof (take_approval_ids _ _ _ _ _ E) as [_ Hi].
  unfold take_approval in E. destruct (take_first _ _) as [[[? ?] rest]|] eqn:Et; [|done].
  injection E as -> -> <-. destruct (take_first_Forall _ _ _ _ _ Et H1) as [Hc Hr].
  cbn in Hc. rewrite Hi in Hc. split; [done|]. by split_and!.
Qed.

Lemma take_question_owned ch i p r c p' :
  take_question i p = Some (r, c, p') -> entries_owned ch p ->
  ch !! c = Some (KQuestion, i) /\ entries_owned ch p'.
Proof using.
  intros E (H1 & H2 & H3). unfold take_question in E.
  destruct (take_first _ _) as [[[? ?] rest]|] eqn:Et; [|done].
  pose proof (take_first_perm _ _ _ _ Et) as [_ Hi]. apply teqb_eq in Hi. cbn in Hi.
  injection E as -> -> <-. destruct (take_first_Forall _ _ _ _ _ Et H2) as [Hc Hr].
  cbn in Hc. rewrite Hi in Hc. split; [done|]. by split_and!.
Qed.

Lemma take_plan_owned ch i p r c p' :
  take_plan i p = Some (r, c, p') -> entries_owned ch p ->
  ch !! c = Some (KPlan, i) /\ entries_owned ch p'.
Proof using.
  intros E (H1 & H2 & H3). unfold take_plan in E.
  destruct (take_first _ _) as [[[? ?] rest]|] eqn:Et; [|done].
  pose proof (take_first_perm _ _ _ _ Et) as [_ Hi]. apply teqb_eq in Hi. cbn in Hi.
  injection E as -> -> <-. destruct (take_first_Forall _ _ _ _ _ Et H3) as [Hc Hr].
  cbn in Hc. rewrite Hi in Hc. split; [done|]. by split_and!.
Qed.

Definition grounded (h : list Op) (w : World) : Prop :=
  entries_owned (channels w) (pending w)
  /\ Forall (fun e => given_by_user h (channels w) (fst e) (snd e)) (sends w).

(** What one section keeps of the provenance. *)
Definition keeps_grounded (h : list Op) (w w' : World) (more : list Atom) : Prop :=
  channels w `prefix_of` channels w' /\ grounded h w' /\ Forall (atom_grounded h (channels w')) more.

Lemma keeps_same h w w' more :
  same_channels w w' -> grounded h w -> Forall (atom_grounded h (channels w)) more ->
  keeps_grounded h w w' more.
Proof using.
  intros (Hc & Hs & Hp) [H1 H2] Hm. unfold keeps_grounded, grounded. rewrite Hc, Hs, Hp. by split_and!.
Qed.

Lemma grounded_finish h w p more :
  entries_owned (channels w) p -> grounded h w -> Forall (atom_grounded h (channels w)) more ->
  keeps_grounded h w (set_pending p w) more.
Proof using. intros Hp [_ Hs] Hm. by split_and!. Qed.

Lemma given_by_user_grow h ch more c r : given_by_user h ch c r -> given_by_user h (ch ++ more) c r.
Proof using. intros (i & Hc & Hi). exists i. split; [by apply lookup_app_l_Some|done]. Qed.

Lemma grounded_pushed h w w' more :
  channels w `prefix_of` channels w' -> sends w' = sends w -> grounded h w ->
  entries_owned (channels w') (pending w') -> Forall (atom_grounded h (channels w')) more ->
  keeps_grounded h w w' more.
Proof using.
  intros [new Hc] Hs [_ H2] Ho Hm. split_and!; [by exists new|split; [done|]|done].
  rewrite Hs, Hc. eapply Forall_impl; [exact H2|]. intros e He. by apply given_by_user_grow.
Qed.

Lemma lookup_new {A} (l : list A) x : (l ++ [x]) !! length l = Some x.
Proof using. by rewrite lookup_app_r, Nat.sub_diag. Qed.

Lemma push_approval_grounded h w r more :
  grounded h w -> Forall (atom_grounded h (channels (push_approval w r))) more ->
  keeps_grounded h w (push_approval w r) more.
Proof using.
  intros Hg Hm. apply grounded_pushed; try done; [by eexists|].
  destruct Hg as [Ho _]. destruct (entries_owned_grow _ [(KApproval, request_id r)] _ Ho) as (H1 & H2 & H3).
  split_and!; try done. cbn. apply Forall_app. split; [done|]. repeat constructor. apply lookup_new.
Qed.

Lemma push_approvals_grounded h rs w :
  grounded h w -> keeps_grounded h w (foldl push_approval w rs) [ACount].
Proof using.
  revert w. induction rs as [|r rs IH]; intros w Hg; cbn [foldl].
  { apply keeps_same; [done|done|by repeat constructor]. }
  destruct (push_approval_grounded h w r [ACount] Hg ltac:(by repeat constructor)) as (Hp & Hg' & _).
  destruct (IH _ Hg') as (Hp' & Hg'' & Hm). split_and!; [|done|done]. by etrans.
Qed.

Lemma push_question_grounded h io i agent qs w w' more :
  run_atom io (APushQuestion i agent qs) w = (w', more) -> grounded h w -> keeps_grounded h w w' more.
Proof using.
  intros [= <- <-] Hg. unfold push_question. cbn [fresh_channel].
  apply grounded_pushed; try done; [by eexists|].
  destruct Hg as [Ho _]. destruct (entries_owned_grow _ [(KQuestion, i)] _ Ho) as (H1 & H2 & H3).
  split_and!; try done. cbn. apply Forall_app. split; [done|]. repeat constructor. apply lookup_new.
Qed.

Lemma push_plan_grounded h io i agent proposed w w' more :
  run_atom io (APushPlan i agent proposed) w = (w', more) -> grounded h w -> keeps_grounded h w w' more.
Proof using.
  intros [= <- <-] Hg. unfold push_plan. cbn [fresh_channel].
  apply grounded_pushed; try done; [by eexists|].
  destruct Hg as [Ho _]. destruct (entries_owned_grow _ [(KPlan, i)] _ Ho) as (H1 & H2 & H3).
  split_and!; try done. cbn. apply Forall_app. split; [done|]. repeat constructor. apply lookup_new.
Qed.

Lemma finish_approval_grounded h ch i r c d :
  given_by_user h ch c (RApproval d) -> Forall (atom_grounded h ch) (finish_approval i r c d).
Proof using. intros H. by destruct d; repeat constructor. Qed.

Lemma finish_question_grounded h ch i given c :
  given_by_user h ch c (RAnswers given) -> Forall (atom_grounded h ch) (finish_question i given (Some c)).
Proof using. intros H. by destruct given; repeat constructor. Qed.

Lemma finish_plan_grounded h ch i q c d :
  given_by_user h ch c (RPlan d) -> Forall (atom_grounded h ch) (finish_plan i q c d).
Proof using. intros H. by destruct d; repeat constructor. Qed.

Lemma take_approval_grounded h w p i d r c :
  take_approval i (pending w) = Some (r, c, p) -> grounded h w -> In (OpResolveApproval i d) h ->
  keeps_grounded h w (set_pending p w) (finish_approval i r c d).
Proof using.
  intros E Hg Hi. destruct (take_approval_owned _ _ _ _ _ _ E (proj1 Hg)) as [Hc Ho].
  apply grounded_finish; [done|done|]. apply finish_approval_grounded. by exists i.
Qed.

Lemma take_question_grounded h w p i given q c :
  take_question i (pending w) = Some (q, c, p) -> grounded h w -> In (OpAnswer i given) h ->
  keeps_grounded h w (set_pending p w) (finish_question i given (Some c)).
Proof using.
  intros E Hg Hi. destruct (take_question_owned _ _ _ _ _ _ E (proj1 Hg)) as [Hc Ho].
  apply grounded_finish; [done|done|]. apply finish_question_grounded. by exists i.
Qed.

Lemma take_plan_grounded h w p i d q c :
  take_plan i (pending w) = Some (q, c, p) -> grounded h w -> In (OpResolvePlan i d) h ->
  keeps_grounded h w (set_pending p w) (finish_plan i q c d).
Proof using.
  intros E Hg Hi. destruct (take_plan_owned _ _ _ _ _ _ E (proj1 Hg)) as [Hc Ho].
  apply grounded_finish; [done|done|]. apply finish_plan_grounded. by exists i.
Qed.

Lemma withdrawals_grounded h ch a q p :
  Forall (atom_grounded h ch)
    (map AWithdrawApproval a ++ map AWithdrawQuestion q ++ map AWithdrawPlan p).
Proof using.
  rewrite !Forall_app, !Forall_map. by split_and!; apply Forall_true.
Qed.

Lemma send_grounded h w c r :
  grounded h w -> given_by_user h (channels w) c r -> keeps_grounded h w (send c r w) [].
Proof using.
  intros [H1 H2] Hr. split_and!; [done| |constructor]. split; [done|]. cbn.
  apply Forall_app. split; [done|by repeat constructor].
Qed.

Lemma withdraw_grounded h w p more i :
  ((exists r c, take_approval i (pending w) = Some (r, c, p))
   \/ (exists r c, take_question i (pending w) = Some (r, c, p))
   \/ exists r c, take_plan i (pending w) = Some (r, c, p)) ->
  grounded h w -> Forall (atom_grounded h (channels w)) more -> keeps_grounded h w (set_pending p w) more.
Proof using.
  intros H Hg Hm. apply grounded_finish; [|done|done].
  destruct H as [(r & c & E)|[(r & c & E)|(r & c & E)]].
  - by eapply take_approval_owned in E as [_ ?]; [|apply Hg].
  - by eapply take_question_owned in E as [_ ?]; [|apply Hg].
  - by eapply take_plan_owned in E as [_ ?]; [|apply Hg].
Qed.
End WithJson.

#[export] Hint Resolve push_approvals_grounded push_question_grounded push_plan_grounded
  take_approval_grounded take_question_grounded take_plan_grounded withdrawals_grounded
  send_grounded withdraw_grounded keeps_same : broker.

Section WithJson.
Context {G : Globset} {P : Platform} {J : Json}.

Lemma run_atom_grounded h io a w w' more :
  run_atom io a w = (w', more) -> atom_grounded h (channels w) a -> grounded h w ->
  keeps_grounded h w w' more.
Proof using.
  intros H Ha Hg.
  destruct a; try (eapply push_question_grounded; [exact H|done]);
    try (eapply push_plan_grounded; [exact H|done]);
    atom_cases H; cbn in Ha;
    try (apply keeps_same; [done|done|by repeat constructor]); eauto with broker;
    try (eapply withdraw_grounded; [by eauto 6|done|by repeat constructor]);
    try (eapply keeps_same; [by eauto with broker|done|by repeat constructor]).
  destruct (append_or_report io r w) eqn:E.
  eapply keeps_same; [eauto with broker|done|by repeat constructor].
Qed.

Definition all_grounded (s : State) : Prop :=
  grounded (history s) (world s)
  /\ Forall (atom_grounded (history s) (channels (world s))) (concat (tasks s)).

Lemma grounded_later h op w : grounded h w -> grounded (h ++ [op]) w.
Proof using.
  intros [H1 H2]. split; [done|]. eapply Forall_impl; [exact H2|]. intros e (i & Hc & Hi).
  exists i. split; [done|]. apply in_app_iff. by left.
Qed.

Lemma all_grounded_step s s' : step s s' -> all_grounded s -> all_grounded s'.
Proof using.
  intros [io w a k before after h w' more H|op w ts h|c w ts h] [Hg Ht]; unfold all_grounded;
    cbn [world tasks history] in *.
  - rewrite concat_app in *. cbn [concat] in *. rewrite !Forall_app in *.
    destruct Ht as (Hb & Hk & Ha). apply Forall_cons in Hk as [Hone Hk].
    destruct (run_atom_grounded _ _ _ _ _ _ H Hone Hg) as ([new Hc] & Hg' & Hm).
    split; [done|]. rewrite Hc in *.
    assert (Hgrow : forall t, Forall (atom_grounded h (channels w)) t ->
      Forall (atom_grounded h (channels w ++ new)) t).
    { intros t Hf. eapply Forall_impl; [exact Hf|]. intros a' Ha'.
      rewrite <- (app_nil_r h). by apply atom_grounded_grow. }
    split_and!; auto.
  - rewrite concat_app. cbn [concat]. rewrite app_nil_r, Forall_app. split; [by apply grounded_later|].
    split.
    + eapply Forall_impl; [exact Ht|]. intros a' Ha'. rewrite <- (app_nil_r (channels w)).
      by apply atom_grounded_grow.
    + destruct op; repeat constructor; cbn; apply in_app_iff; right; by left.
  - by split.
Qed.

Lemma reachable_grounded s : reachable s -> all_grounded s.
Proof using.
  apply reachable_invariant; [|by intros; eapply all_grounded_step].
  intros p m. by repeat constructor.
Qed.

(** * Granted rules *)

(** The session policy holds the rule, if its text is a rule. *)
Definition granted_rule (p : Policy) (rule : text) : Prop :=
  forall r, rule_parse rule = Ok r -> contains_rule (session p) r = true.

(** In what remains of an operation, a reply that allows with a rule comes
    after the rule is granted. *)
Fixpoint ready (p : Policy) (promised : list text) (t : list Atom) : Prop :=
  match t with
  | [] => True
  | AGrant rule _ :: t => ready p (rule :: promised) t
  | ASend _ (RApproval d) :: t =>
      (forall rule, rule_of d = Some rule -> In rule promised \/ granted_rule p rule)
      /\ ready p promised t
  | _ :: t => ready p promised t
  end.

Lemma ready_mono p p' promised promised' t :
  (forall rule, In rule promised -> In rule promised' \/ granted_rule p' rule) ->
  (forall rule, granted_rule p rule -> granted_rule p' rule) ->
  ready p promised t -> ready p' promised' t.
Proof using.
  revert promised promised'. induction t as [|a t IH]; intros pr pr' Hp Hg; [done|].
  destruct a; cbn; eauto.
  - apply IH; [|done]. intros rule' [<-|Hr]; [left; by left|].
    destruct (Hp rule' Hr); [left; by right|by right].
  - destruct r as [d| |]; eauto. intros [Hd Ht]. split; [|by eapply IH].
    intros rule Hr. destruct (Hd rule Hr); [by apply Hp|right; by apply Hg].
Qed.

Lemma ready_app p promised s t : ready p promised s -> ready p promised t -> ready p promised (s ++ t).
Proof using.
  revert promised. induction s as [|a s IH]; intros pr Hs Ht; [done|].
  destruct a; cbn in *; eauto.
  - apply IH; [done|]. eapply ready_mono; [| |exact Ht]; [|done]. intros r Hr. left. by right.
  - destruct r as [d| |]; eauto. destruct Hs as [Hd Hs]. split; eauto.
Qed.

Lemma add_session_rule_grants p rule p' : add_session_rule p rule = Ok p' -> granted_rule p' rule.
Proof using.
  unfold add_session_rule. destruct (rule_parse rule) as [r|] eqn:E; [|done]. cbn.
  intros [= <-] r' Hr'. rewrite E in Hr'. injection Hr' as <-.
  destruct (contains_rule (session p) r) eqn:Ec; cbn; [done|].
  unfold contains_rule. rewrite existsb_app. cbn.
  rewrite rule_eqb_refl. by rewrite orb_true_r.
Qed.

Lemma add_session_rule_keeps p rule p' rule' :
  add_session_rule p rule = Ok p' -> granted_rule p rule' -> granted_rule p' rule'.
Proof using.
  unfold add_session_rule. destruct (rule_parse rule) as [r|] eqn:E; [|done]. cbn.
  intros [= <-] H r' Hr'. specialize (H r' Hr'). destruct (contains_rule (session p) r); cbn; [done|].
  unfold contains_rule in *. rewrite existsb_app. by rewrite H.
Qed.

Lemma update_status_policy change w : policy (update_status change w) = policy w.
Proof using. unfold update_status. by case_bool_decide. Qed.

Lemma append_policy io r w w' : append io r w = Ok w' -> policy w' = policy w.
Proof using. unfold append. repeat case_if; by intros [= <-]. Qed.

Lemma append_or_report_policy io r w b w' : append_or_report io r w = (b, w') -> policy w' = policy w.
Proof using.
  unfold append_or_report. destruct (append io r w) eqn:E; intros [= <- <-]; [|done].
  by eapply append_policy.
Qed.

Lemma push_approvals_policy rs w : policy (foldl push_approval w rs) = policy w.
Proof using. revert w. induction rs as [|r rs IH]; intros w; [done|]. cbn [foldl]. by rewrite IH. Qed.

(** Only granting a rule changes the policy. *)
Lemma run_atom_policy io a w w' more :
  run_atom io a w = (w', more) ->
  policy w' = policy w
  \/ exists rule b, a = AGrant rule b /\ add_session_rule (policy w) rule = Ok (policy w').
Proof using.
  intros H. destruct a; try (injection H as <- <-; by left); atom_cases H;
    try (left; first [done|by apply push_approvals_policy|by apply update_status_policy
                     |by eapply append_policy|by eapply append_or_report_policy]).
  - right. by exists rule, true.
  - right. by exists rule, false.
  - left. destruct (append_or_report io r w) eqn:E. by eapply append_or_report_policy.
Qed.

Lemma run_atom_grants io a w w' more rule :
  run_atom io a w = (w', more) -> granted_rule (policy w) rule -> granted_rule (policy w') rule.
Proof using.
  intros H Hg. destruct (run_atom_policy _ _ _ _ _ H) as [->|(r & b & _ & E)]; [done|].
  by eapply add_session_rule_keeps.
Qed.

Lemma withdrawals_ready p a q l :
  ready p [] (map AWithdrawApproval a ++ map AWithdrawQuestion q ++ map AWithdrawPlan l).
Proof using. repeat apply ready_app; [induction a|induction q|induction l]; done. Qed.

Lemma finish_approval_ready p i r c d : ready p [] (finish_approval i r c d).
Proof using.
  destruct d; cbn; split; try done; intros rule' [= <-]; left; by left.
Qed.

Lemma finish_question_ready p i given reply : ready p [] (finish_question i given reply).
Proof using. by destruct reply. Qed.

Lemma finish_plan_ready p i q c d : ready p [] (finish_plan i q c d).
Proof using. by destruct d. Qed.

Lemma run_atom_ready io a w w' more :
  run_atom io a w = (w', more) -> ready (policy w') [] more.
Proof using.
  intros H. destruct a; try (injection H as <- <-; exact I); atom_cases H;
    auto using withdrawals_ready, finish_approval_ready, finish_question_ready, finish_plan_ready.
  all: exact I.
Qed.

Lemma grant_runs io rule b w w' more :
  run_atom io (AGrant rule b) w = (w', more) -> granted_rule (policy w') rule.
Proof using.
  cbn [run_atom]. unfold grant.
  destruct (add_session_rule (policy w) rule) as [p|e] eqn:E; intros [= <- <-].
  - by eapply add_session_rule_grants.
  - intros r Hr. unfold add_session_rule in E. rewrite Hr in E. done.
Qed.

(** What remains stays ready when its first section has run. *)
Lemma ready_after io a k w w' more :
  run_atom io a w = (w', more) -> ready (policy w) [] (a :: k) -> ready (policy w') [] k.
Proof using.
  intros H Hr. pose proof (fun rule => run_atom_grants _ _ _ _ _ rule H) as Hg.
  destruct a; try (eapply ready_mono; [|exact Hg|exact Hr]; done).
  - cbn [ready] in Hr. eapply ready_mono; [|exact Hg|exact Hr].
    intros rule' [<-|[]]. right. by eapply grant_runs.
  - destruct r as [d| |]; cbn [ready] in Hr;
      (eapply ready_mono; [|exact Hg|first [exact (proj2 Hr)|exact Hr]]); done.
Qed.

(** The rules of the replies that were sent. *)
Definition replies_granted (w : World) : Prop :=
  Forall (fun e => forall d rule, snd e = RApproval d -> rule_of d = Some rule ->
                     granted_rule (policy w) rule) (sends w).

Definition all_granted (s : State) : Prop :=
  replies_granted (world s) /\ Forall (ready (policy (world s)) []) (tasks s).

Lemma run_atom_sends io a w w' more :
  run_atom io a w = (w', more) -> sends w' = sends w \/ exists c r, a = ASend c r /\ sends w' = sends w ++ [(c, r)].
Proof using.
  assert (Hp : forall rs w, sends (foldl push_approval w rs) = sends w).
  { intros rs. induction rs as [|r rs IH]; intros w0; [done|]. cbn [foldl]. by rewrite IH. }
  intros H. destruct a; try (injection H as <- <-; by left); atom_cases H;
    try (left; first [done|by apply Hp|by apply update_status_channels|by eapply append_channels
                     |by eapply append_or_report_channels]).
  - left. destruct (append_or_report io r w) eqn:E. by eapply append_or_report_channels.
  - right. by exists c, r.
Qed.

Lemma replies_granted_after io a k w w' more :
  run_atom io a w = (w', more) -> replies_granted w -> ready (policy w) [] (a :: k) -> replies_granted w'.
Proof using.
  intros H Hs Hr. unfold replies_granted.
  assert (Hk : Forall (fun e => forall d rule, snd e = RApproval d -> rule_of d = Some rule ->
                 granted_rule (policy w') rule) (sends w)).
  { eapply Forall_impl; [exact Hs|]. intros e He d rule Hd Hrule. eapply run_atom_grants; [exact H|eauto]. }
  destruct (run_atom_sends _ _ _ _ _ H) as [->|(c & r & -> & ->)]; [done|].
  apply Forall_app. split; [done|]. constructor; [|constructor]. cbn. intros d rule -> Hrule.
  cbn [ready] in Hr. destruct (proj1 Hr rule Hrule) as [[]|Hg]. by eapply run_atom_grants.
Qed.

Lemma all_granted_step s s' : step s s' -> all_granted s -> all_granted s'.
Proof using.
  intros [io w a k before after h w' more H|op w ts h|c w ts h] [Hs Ht]; unfold all_granted;
    cbn [world tasks] in *.
  - rewrite Forall_app, Forall_cons in Ht. destruct Ht as (Hb & Hone & Ha).
    assert (Hgrow : forall ts, Forall (ready (policy w) []) ts -> Forall (ready (policy w') []) ts).
    { intros ts Hf. eapply Forall_impl; [exact Hf|]. intros t Hr. eapply ready_mono; [| |exact Hr]; [done|].
      intros rule. by eapply run_atom_grants. }
    split; [by eapply replies_granted_after|].
    rewrite Forall_app, Forall_cons. split_and!; auto. apply ready_app.
    + by eapply run_atom_ready.
    + by eapply ready_after.
  - split; [done|]. rewrite Forall_app. split; [done|]. constructor; [by destruct op|done].
  - by split.
Qed.

Lemma reachable_granted s : reachable s -> all_granted s.
Proof using.
  apply reachable_invariant; [|by intros; eapply all_granted_step].
  intros p m. by repeat constructor.
Qed.
End WithJson.
