(* ===== verification/BrokerSerial.v ===== *)
(** Operations of the broker run one at a time, schedules of interleaved
    operations, and the properties of the broker. *)

From S2P Require Export BrokerFacts.
From stdpp Require Import relations.

(** * Schedules *)

Section WithJson.
Context {G : Globset} {P : Platform} {J : Json}.

(** One move of the scheduler: an operation begins, the next section of an
    operation runs, or a waiter gives up. *)
Inductive Move :=
| MStart (op : Op)
| MRun (io : Io) (index : nat)
| MDrop (c : nat).

Definition move (s : State) (mv : Move) : State :=
  match mv with
  | MStart op => mkState (world s) (tasks s ++ [start op]) (history s ++ [op])
  | MRun io index =>
      match tasks s !! index with
      | Some (a :: k) =>
          let '(w, more) := run_atom io a (world s) in
          mkState w (<[index := more ++ k]> (tasks s)) (history s)
      | _ => s
      end
  | MDrop c => mkState (drop_receiver c (world s)) (tasks s) (history s)
  end.

Definition schedule (moves : list Move) (s : State) : State := foldl move s moves.

Lemma move_step s mv : move s mv = s \/ step s (move s mv).
Proof using.
  destruct s as [w ts h], mv as [op|io index|c]; cbn [move world tasks history].
  - right. constructor.
  - destruct (ts !! index) as [[|a k]|] eqn:E; [by left| |by left].
    destruct (run_atom io a w) as [w' more] eqn:Er. right.
    pose proof (insert_take_drop ts index (more ++ k) ltac:(by eapply lookup_lt_Some)) as ->.
    rewrite <- (take_drop_middle ts index (a :: k)) at 1 by done. by econstructor.
  - right. constructor.
Qed.

Lemma schedule_reachable moves p m : reachable (schedule moves (mkState (new_world p m) [] [])).
Proof using.
  exists p, m. generalize (mkState (new_world p m) [] []). unfold schedule.
  induction moves as [|mv moves IH]; intros s; cbn [foldl]; [apply rtc_refl|].
  destruct (move_step s mv) as [->|H]; [apply IH|]. by eapply rtc_l.
Qed.

(** * One operation at a time *)

(** The status shows what is pending. *)
Definition consistent (w : World) : Prop := current (status w) = status_of (status w).
Definition settled (w : World) : Prop :=
  waiting (status w) = pending_count (pending w) /\ consistent w.

(** Sections that leave the pending requests, or these and the status,
    alone. *)
Definition neutral (a : Atom) : bool :=
  match a with
  | AGrant _ _ | APersist _ | ASetMode _ | ALogMode _ | AStoreMode _ | ALog _ | AEmit _ | ASend _ _ => true
  | _ => false
  end.

Definition quiet (a : Atom) : bool :=
  neutral a || match a with ACount | ASetWaiting _ | ABegin | AEnd => true | _ => false end.

Lemma append_neutral io r w w' : append io r w = Ok w' -> pending w' = pending w /\ status w' = status w.
Proof using. unfold append. repeat case_if; by intros [= <-]. Qed.

Lemma append_or_report_neutral io r w b w' :
  append_or_report io r w = (b, w') -> pending w' = pending w /\ status w' = status w.
Proof using.
  unfold append_or_report. destruct (append io r w) eqn:E; intros [= <- <-]; [|done].
  by eapply append_neutral.
Qed.

Lemma run_atom_neutral io a w w' more :
  run_atom io a w = (w', more) -> neutral a = true ->
  pending w' = pending w /\ status w' = status w /\ forallb neutral more = true.
Proof using.
  intros H Ha. destruct a; try done; atom_cases H; try done.
  - by destruct (append_or_report_neutral _ _ _ _ _ Heqp) as [-> ->].
  - by destruct (append_or_report_neutral _ _ _ _ _ Heqp) as [-> ->].
  - destruct (append_or_report io r w) eqn:E.
    cbn. by destruct (append_or_report_neutral _ _ _ _ _ E) as [-> ->].
Qed.

Lemma update_status_pending change w : pending (update_status change w) = pending w.
Proof using. unfold update_status. by case_bool_decide. Qed.

Lemma run_atom_quiet io a w w' more :
  run_atom io a w = (w', more) -> quiet a = true ->
  pending w' = pending w /\ forallb quiet more = true.
Proof using.
  intros H Ha. unfold quiet in Ha. destruct (neutral a) eqn:En.
  - destruct (run_atom_neutral _ _ _ _ _ H En) as (Hp & _ & Hm). split; [done|].
    eapply forallb_imp; [|exact Hm]. intros a' Hn. unfold quiet. by rewrite Hn.
  - destruct a; try done; atom_cases H; (split; [|done]); try done; apply update_status_pending.
Qed.

Lemma run_task_app depth io s t w :
  run_task (S depth) io (s ++ t) w = run_task (S depth) io t (run_task (S depth) io s w).
Proof using. cbn [run_task]. by rewrite foldl_app. Qed.

Lemma run_task_cons depth io a t w :
  run_task (S depth) io (a :: t) w
  = run_task (S depth) io t (run_task depth io (snd (run_atom io a w)) (fst (run_atom io a w))).
Proof using. cbn [run_task foldl]. by destruct (run_atom io a w). Qed.

Lemma run_task_neutral depth io t w :
  forallb neutral t = true ->
  pending (run_task depth io t w) = pending w /\ status (run_task depth io t w) = status w.
Proof using.
  revert t w. induction depth as [|depth IH]; intros t w Ht; [done|].
  revert w. induction t as [|a t IHt]; intros w; [done|]. cbn [forallb] in Ht.
  apply andb_prop in Ht as [Ha Ht]. rewrite run_task_cons.
  destruct (run_atom io a w) as [w' more] eqn:E. cbn [fst snd].
  destruct (run_atom_neutral _ _ _ _ _ E Ha) as (Hp & Hs & Hm).
  destruct (IHt Ht (run_task depth io more w')) as [-> ->].
  destruct (IH more w' Hm) as [-> ->]. by split.
Qed.

Lemma run_task_quiet depth io t w :
  forallb quiet t = true -> pending (run_task depth io t w) = pending w.
Proof using.
  revert t w. induction depth as [|depth IH]; intros t w Ht; [done|].
  revert w. induction t as [|a t IHt]; intros w; [done|]. cbn [forallb] in Ht.
  apply andb_prop in Ht as [Ha Ht]. rewrite run_task_cons.
  destruct (run_atom io a w) as [w' more] eqn:E. cbn [fst snd].
  destruct (run_atom_quiet _ _ _ _ _ E Ha) as (Hp & Hm). rewrite IHt, IH by done. done.
Qed.

Lemma update_status_consistent change w :
  waiting (status (update_status change w)) = waiting (change (status w))
  /\ consistent (update_status change w).
Proof using.
  unfold update_status, consistent. case_bool_decide as H; [by split|]. by split.
Qed.

(** Counting the pending requests and storing the count settles the
    status. *)
Lemma count_settles depth io w : settled (run_task (S (S depth)) io [ACount] w).
Proof using.
  rewrite run_task_cons. cbn [run_atom refresh_status fst snd]. rewrite run_task_cons. cbn [run_atom refresh_status fst snd].
  assert (H : forall d io w, run_task d io [] w = w) by (intros []; done). rewrite !H.
  destruct (update_status_consistent (set_waiting (pending_count (pending w))) w) as [Hw Hc].
  split; [|done]. rewrite Hw, update_status_pending. done.
Qed.

Lemma neutral_count_settles depth io t w :
  settled (run_task (S (S depth)) io (t ++ [ACount]) w).
Proof using. rewrite run_task_app. apply count_settles. Qed.

Lemma settled_same w w' : pending w' = pending w -> status w' = status w -> settled w -> settled w'.
Proof using. unfold settled, consistent. by intros -> ->. Qed.

Lemma neutral_settled depth io t w :
  forallb neutral t = true -> settled w -> settled (run_task depth io t w).
Proof using. intros [Hp Hs]%(run_task_neutral depth io t w). by apply settled_same. Qed.

Lemma change_settled change w :
  waiting (change (status w)) = waiting (status w) -> settled w -> settled (update_status change w).
Proof using.
  intros Hc [Hw _]. destruct (update_status_consistent change w) as [Hw' Hc'].
  split; [|done]. by rewrite Hw', Hc, Hw, update_status_pending.
Qed.

(** What follows a section either leaves everything alone or ends with a
    count. *)
Definition settling (w w' : World) (more : list Atom) : Prop :=
  (pending w' = pending w /\ status w' = status w /\ forallb neutral more = true)
  \/ last more = Some ACount.

Lemma settling_settled depth io w w' more :
  settling w w' more -> settled w -> settled (run_task (S (S depth)) io more w').
Proof using.
  intros [(Hp & Hs & Hm)|[t ->]%last_Some] Hw; [|apply neutral_count_settles].
  apply neutral_settled; [done|]. by eapply settled_same.
Qed.

(** The sections operations begin with, the two that withdraw many requests
    apart. *)
Definition first_section (a : Atom) : bool :=
  match a with
  | ARequest _ | ATakeApproval _ _ | AWithdrawApproval _ | AAsk _ _ _ | AAnswer _ _
  | AWithdrawQuestion _ | APropose _ _ _ | ATakePlan _ _ | AWithdrawPlan _ | ASetMode _ => true
  | _ => false
  end.

Lemma finish_approval_counts i r c d : last (finish_approval i r c d) = Some ACount.
Proof using. by destruct d. Qed.

Lemma finish_question_counts i given reply : last (finish_question i given reply) = Some ACount.
Proof using. by destruct reply. Qed.

Lemma finish_plan_counts i q c d : last (finish_plan i q c d) = Some ACount.
Proof using. by destruct d. Qed.

Lemma first_section_settling io a w w' more :
  run_atom io a w = (w', more) -> first_section a = true -> settling w w' more.
Proof using.
  intros H Ha. destruct a; try done; atom_cases H;
    try (by left); try (by right);
    try (right; eauto using finish_approval_counts, finish_question_counts, finish_plan_counts).
Qed.

Lemma first_section_settled depth io a w :
  first_section a = true -> settled w -> settled (run_task (S (S (S depth))) io [a] w).
Proof using.
  intros Ha Hw. rewrite run_task_cons. destruct (run_atom io a w) as [w' more] eqn:E. cbn [fst snd].
  pose proof (first_section_settling _ _ _ _ _ E Ha) as Hs.
  pose proof (settling_settled depth io w w' more Hs Hw) as H. exact H.
Qed.

Lemma first_sections_settled depth io t w :
  forallb first_section t = true -> settled w -> settled (run_task (S (S (S depth))) io t w).
Proof using.
  revert w. induction t as [|a t IH]; intros w Ht Hw; [done|]. cbn [forallb] in Ht.
  apply andb_prop in Ht as [Ha Ht].
  change (a :: t) with ([a] ++ t). rewrite run_task_app. apply IH; [done|]. by apply first_section_settled.
Qed.

Lemma withdrawals_first a q p :
  forallb first_section
    (map AWithdrawApproval a ++ map AWithdrawQuestion q ++ map AWithdrawPlan p) = true.
Proof using.
  rewrite !forallb_app. assert (H : forall (f : id -> Atom) l,
    (forall i, first_section (f i) = true) -> forallb first_section (map f l) = true).
  { intros f l Hf. induction l as [|i l IH]; [done|]. cbn. by rewrite Hf, IH. }
  by rewrite !H.
Qed.

Lemma withdrawals_settled io a q p w :
  settled w ->
  settled (run_task 5 io (map AWithdrawApproval a ++ map AWithdrawQuestion q ++ map AWithdrawPlan p) w).
Proof using. intros Hw. apply first_sections_settled; [apply withdrawals_first|done]. Qed.

Lemma run_op_settled io op w : settled w -> settled (run_op io op w).
Proof using.
  intros Hw. unfold run_op. destruct op; cbn [start]; try (by apply first_section_settled).
  - rewrite run_task_cons. cbn [run_atom]. unfold withdraw_abandoned, withdrawals.
    destruct (abandoned _ _) as [[a q] p].
    by apply withdrawals_settled.
  - rewrite run_task_cons. by apply withdrawals_settled.
  - by apply change_settled.
  - by apply change_settled.
Qed.

(** * Shutdown *)

Lemma take_head {A} (m : A -> bool) x l : m x = true -> take_first m (x :: l) = Some (x, l).
Proof using. cbn. by intros ->. Qed.

(** Withdrawing what is pending, in order, removes it. *)
Lemma withdraw_approvals depth io l w :
  approvals (pending w) = l ->
  pending (run_task (S depth) io (map AWithdrawApproval (map (fun e => request_id (fst e)) l)) w)
  = set_approvals [] (pending w).
Proof using.
  revert w. induction l as [|[r c] l IH]; intros w Hl; cbn [map].
  { cbn. destruct w as [[? ? ?]]. cbn in *. by subst. }
  rewrite run_task_cons. cbn [run_atom]. unfold withdraw_approval, take_approval. rewrite Hl.
  rewrite take_head by apply teqb_refl. cbn [fst snd].
  rewrite IH; rewrite run_task_quiet by done; done.
Qed.

Lemma withdraw_questions depth io l w :
  pending_questions (pending w) = l ->
  pending (run_task (S depth) io (map AWithdrawQuestion (map (fun e => question_id (fst e)) l)) w)
  = set_questions [] (pending w).
Proof using.
  revert w. induction l as [|[r c] l IH]; intros w Hl; cbn [map].
  { cbn. destruct w as [[? ? ?]]. cbn in *. by subst. }
  rewrite run_task_cons. cbn [run_atom]. unfold withdraw_question, take_question. rewrite Hl.
  rewrite take_head by apply teqb_refl. cbn [fst snd].
  rewrite IH; rewrite run_task_quiet by done; done.
Qed.

Lemma withdraw_plans depth io l w :
  plans (pending w) = l ->
  pending (run_task (S depth) io (map AWithdrawPlan (map (fun e => plan_id (fst e)) l)) w)
  = set_plans [] (pending w).
Proof using.
  revert w. induction l as [|[r c] l IH]; intros w Hl; cbn [map].
  { cbn. destruct w as [[? ? ?]]. cbn in *. by subst. }
  rewrite run_task_cons. cbn [run_atom]. unfold withdraw_plan, take_plan. rewrite Hl.
  rewrite take_head by apply teqb_refl. cbn [fst snd].
  rewrite IH; rewrite run_task_quiet by done; done.
Qed.

Lemma withdraw_all_empties io w : pending (run_op io OpWithdrawAll w) = mkPending [] [] [].
Proof using.
  unfold run_op. cbn [start]. rewrite run_task_cons. cbn [run_atom withdraw_all withdrawals fst snd snapshot_ids].
  set (w1 := run_task 5 io (map AWithdrawApproval _ ++ _) w).
  change (pending w1 = mkPending [] [] []). unfold w1. rewrite !run_task_app.
  rewrite withdraw_plans, withdraw_questions, withdraw_approvals by
    (rewrite ?withdraw_questions, ?withdraw_approvals by (rewrite ?withdraw_approvals by done; done); done).
  done.
Qed.

(** * Runs alone are interleavings *)

(** How many levels of sections may follow. *)
Definition rank (a : Atom) : nat :=
  match a with
  | AAbandoned | ASnapshot => 4
  | ARequest _ | ATakeApproval _ _ | AWithdrawApproval _ | AAsk _ _ _ | AAnswer _ _
  | AWithdrawQuestion _ | APropose _ _ _ | ATakePlan _ _ | AWithdrawPlan _ => 3
  | AGrant _ _ | ASetMode _ => 2
  | ACount | APersist _ | ALogMode _ => 1
  | _ => 0
  end.

Definition ranked (n : nat) (a : Atom) : Prop := (rank a < n)%nat.

Lemma run_atom_ranked io a w w' more : run_atom io a w = (w', more) -> Forall (ranked (rank a)) more.
Proof using.
  assert (Hmap : forall n (f : id -> Atom) l, (forall i, ranked n (f i)) -> Forall (ranked n) (map f l)).
  { intros n f l Hf. induction l; by constructor. }
  intros H. destruct a; try (injection H as <- <-; repeat constructor; fail); atom_cases H;
    rewrite ?Forall_app; unfold ranked; cbn [rank];
    try (split_and!; apply Hmap; intros; unfold ranked; cbn; lia);
    try (repeat constructor; cbn; lia).
  all: destruct d; repeat constructor; cbn; lia.
Qed.

(** Running the sections of one operation without interruption is a sequence
    of scheduler steps. *)
Lemma run_task_steps depth io t k w before after h :
  Forall (ranked depth) t ->
  rtc step (mkState w (before ++ (t ++ k) :: after) h)
           (mkState (run_task depth io t w) (before ++ k :: after) h).
Proof using.
  revert t k w. induction depth as [|depth IH]; intros t k w Ht.
  { destruct t as [|a t]; [apply rtc_refl|]. apply Forall_inv in Ht. unfold ranked in Ht. lia. }
  revert w. induction t as [|a t IHt]; intros w; [apply rtc_refl|].
  apply Forall_cons in Ht as [Ha Ht]. specialize (IHt Ht). rewrite run_task_cons.
  destruct (run_atom io a w) as [w' more] eqn:E. cbn [fst snd].
  eapply rtc_l; [eapply (step_section io w a (t ++ k)), E|]. etrans; [|apply IHt].
  apply IH. eapply Forall_impl; [by eapply run_atom_ranked|]. unfold ranked in *. lia.
Qed.

Lemma run_op_steps io op w ts h :
  rtc step (mkState w ts h) (mkState (run_op io op w) (ts ++ [[]]) (h ++ [op])).
Proof using.
  eapply rtc_l; [apply step_start|]. rewrite <- (app_nil_r (start op)).
  apply run_task_steps. destruct op; repeat constructor; cbn; lia.
Qed.

(** * Properties *)

(** C38: no request to the user is lost or settled twice.  However the
    sections of concurrent operations interleave, the announced approvals,
    questions and plans are exactly those still pending, those an operation
    has taken and is about to announce as resolved, and those announced as
    resolved. *)
Theorem interactions_accounted (s : State) :
  reachable s ->
  requested (world s)
  ≡ₚ pending_ids (pending (world s)) ++ in_flight (concat (tasks s)) ++ resolved (world s).
Proof using.
  intros [_ H]%reachable_accounted. apply occ_perm. intros x. rewrite H. autorewrite with occ. lia.
Qed.

(** An agent acts only on the user's answer.  However operations
    interleave, every waiter receives at most one reply, and each reply is one
    the user gave to the very request the waiter's channel was created for. *)
Theorem replies_given_by_user (s : State) :
  reachable s ->
  List.NoDup (sent (world s))
  /\ forall c r, In (c, r) (sends (world s)) -> given_by_user (history s) (channels (world s)) c r.
Proof using.
  intros Hs. split.
  - apply occ_nodup. intros c. pose proof (proj1 (reachable_linear s Hs c)). lia.
  - intros c r Hin. apply reachable_grounded in Hs as [[_ H] _]. rewrite List.Forall_forall in H.
    by apply (H (c, r)).
Qed.

(** A granted rule is in force before the agent resumes.  When a waiter
    has received an approval with a rule for the session or the project, and
    the rule's text is a rule, the session policy already holds it. *)
Theorem rules_granted_before_reply (s : State) (c : nat) (d : ApprovalDecision) (rule : text) (r : Rule) :
  reachable s -> In (c, RApproval d) (sends (world s)) -> rule_of d = Some rule ->
  rule_parse rule = Ok r -> contains_rule (session (policy (world s))) r = true.
Proof using.
  intros [Hs _]%reachable_granted Hin Hd Hr. unfold replies_granted in Hs.
  rewrite List.Forall_forall in Hs. by eapply Hs.
Qed.

(** Operations run one at a time keep the session status right.  An
    operation run alone is one of the interleavings; if the status showed what
    was pending before, it does so afterwards; and withdrawing everything at
    shutdown leaves nothing pending and the session not waiting. *)
Theorem serial_operations_settle (io : Io) (op : Op) (w : World) (ts : list (list Atom)) (h : list Op) :
  settled w ->
  rtc step (mkState w ts h) (mkState (run_op io op w) (ts ++ [[]]) (h ++ [op]))
  /\ settled (run_op io op w)
  /\ (op = OpWithdrawAll -> pending (run_op io op w) = mkPending [] [] []
                            /\ current (status (run_op io op w)) <> Waiting).
Proof using.
  intros Hw. pose proof (run_op_settled io op w Hw) as [Hn Hc]. split_and!; [apply run_op_steps|done|].
  intros ->. pose proof (withdraw_all_empties io w) as He. split; [done|].
  rewrite Hc. rewrite He in Hn. unfold status_of. rewrite Hn. cbn. by case_if.
Qed.

(** An approval request, and the moves in which its announcement and its
    answer overlap: the status is stored by the announcing agent after the
    answer has stored its own. *)
Definition lone_request (i : id) (v : json) : ApprovalRequest :=
  mkApprovalRequest i (str "main") (str "c") (str "Bash") (str "ls") v None (str "ask") None true.

Definition all_ok : Io := mkIo true true true true [].

Definition late_status (v : json) : list Move :=
  [MStart (OpRequestApprovals [lone_request (str "r1") v]); MRun all_ok 0; MRun all_ok 0;
   MStart (OpResolveApproval (str "r1") AllowOnce)]
  ++ replicate 6 (MRun all_ok 1) ++ [MRun all_ok 0].

(** The same overlap the other way round: an answer counts nothing pending,
    a new request is announced, and the answer stores its count. *)
Definition early_status (v : json) : list Move :=
  [MStart (OpRequestApprovals [lone_request (str "r1") v])] ++ replicate 3 (MRun all_ok 0)
  ++ [MStart (OpResolveApproval (str "r1") AllowOnce)] ++ replicate 5 (MRun all_ok 1)
  ++ [MStart (OpRequestApprovals [lone_request (str "r2") v])] ++ replicate 3 (MRun all_ok 2)
  ++ [MRun all_ok 1].

(** The status can be left wrong by overlapping operations.  The count
    of pending requests and the status are guarded by different locks, so
    there are interleavings after which every operation has finished and the
    session shows that it waits for the user with nothing pending, and others
    after which an approval is pending and the session does not show it. *)
Theorem overlapping_refresh_stale (p : Policy) (m : PermissionMode) (v : json) :
  (exists s, reachable s /\ concat (tasks s) = [] /\ pending_count (pending (world s)) = 0%nat
             /\ current (status (world s)) = Waiting)
  /\ (exists s, reachable s /\ concat (tasks s) = [] /\ pending_count (pending (world s)) = 1%nat
                /\ current (status (world s)) = Idle).
Proof using.
  split; [exists (schedule (late_status v) (mkState (new_world p m) [] []))
         |exists (schedule (early_status v) (mkState (new_world p m) [] []))];
    (split; [apply schedule_reachable|]); by vm_compute.
Qed.
End WithJson.
