(* ===== verification/Gate.v ===== *)
(** The gate every tool call of a model turn passes: structural check,
    [PreToolUse] hooks, the policy decision and the reviews of the decision
    layer ([engine/src/batch/gate.rs], [schema.rs], [scope.rs],
    [settings/policy.rs], [decisions/seams/*.rs]). *)

From S2P Require Export Protocol Model.

(** * [hooks/outcome.rs] *)

Inductive PermissionOverride := OAllow | OAsk | ODeny.

Section WithJson.
Context {G : Globset} {P : Platform} {J : Json}.

Record HookOutcome := mkHookOutcome {
  blocked : option text;
  stop : option text;
  context : list text;
  permission : option (PermissionOverride * option text);
  updated_input : option json
}.

Definition override_rank (o : PermissionOverride) : nat :=
  match o with OAllow => 0 | OAsk => 1 | ODeny => 2 end.

(** Deny beats ask beats allow. *)
Definition strictest (cur : option (PermissionOverride * option text))
    (next : PermissionOverride * option text) : PermissionOverride * option text :=
  match cur with
  | Some c => if Nat.leb (override_rank (fst next)) (override_rank (fst c)) then c else next
  | None => next
  end.

(** * Tools and calls *)

(** [trait Tool], its functions taken in the context of the call. *)
Record Tool := mkTool {
  tool_name : text;
  input_schema : json;
  tool_read_only : json -> bool;
  concurrency_safe : json -> bool;
  tool_action : json -> Action;
  tool_title : json -> text;
  tool_preview : json -> option Preview
}.

Record ToolCall := mkToolCall { call : id; name : text; call_input : json }.

(** [ToolSet::get] and [ToolSet::names]. *)
Definition get_tool (tools : list Tool) (n : text) : option Tool :=
  List.find (fun t => teqb (tool_name t) n) tools.

(** * [schema.rs] *)

Definition missing_field (input_ : json) (key : text) : bool :=
  match json_get input_ key with None => true | Some v => is_null v end.

Definition required_keys (schema : json) : list text :=
  match json_get schema (str "required") ≫= as_array with
  | Some keys => omap as_str keys
  | None => []
  end.

Definition check (schema input_ : json) : result text unit :=
  if negb (is_object input_) then Err (str "The tool input must be a JSON object.")
  else
    match List.filter (missing_field input_) (required_keys schema) with
    | [] => Ok tt
    | [one] => Err (str "Missing required parameter `" ++ one ++ str "`.")
    | many =>
        Err (str "Missing required parameters: "
             ++ join (str ", ") (map (fun k => str "`" ++ k ++ str "`") many) ++ str ".")
    end.

(** * [settings/policy.rs] *)

Definition push_dir (dirs : list path) (dir : path) : list path :=
  if existsb (fun d => path_eqb d dir) dirs then dirs else dirs ++ [dir].

Definition grant_step (acc : Policy * list PolicyError) (rule : text) : Policy * list PolicyError :=
  let '(p, errors) := acc in
  match add_session_rule p rule with
  | Ok p' => (p', errors)
  | Err e => (p, errors ++ [e])
  end.

Definition build_policy (config : PolicyConfig) (dirs : list path) (root : path) (home_ : option path)
    (session_rules_ : list text) (added : list path) : Policy * list PolicyError :=
  foldl grant_step (new config (mkPolicyContext root (foldl push_dir dirs added) home_)) session_rules_.

(** * [scope.rs] *)

(** What deciding and gating a call depends on: the session policy and mode,
    the agent's root and, for an agent in a worktree, the project it belongs
    to; the settings a worktree's policy is built from; and the answers of
    hooks and of the decision layer. *)
Record RunContext := mkRunContext {
  session_policy_ : Policy;
  run_mode : PermissionMode;
  agent : id;
  root : path;
  worktree : option path;
  settings_config : PolicyConfig;
  settings_dirs : list path;
  home_dir : option path;
  added_dirs : list path;
  pre_tool_use : text -> json -> HookOutcome;
  tool_gate_reasons : ToolCall -> list text;
  fresh_request : ToolCall -> id
}.

Definition in_project (project worktree_ p : path) : bool :=
  path_starts_with p project && negb (path_starts_with p worktree_).

Definition scope_decide (ctx : RunContext) (tool : text) (a : Action) : Engine.Decision :=
  match worktree ctx with
  | None => Pipeline.decide (session_policy_ ctx) tool a (run_mode ctx)
  | Some project =>
      let own :=
        let p := fst (build_policy (settings_config ctx) (settings_dirs ctx) (root ctx) (home_dir ctx)
                        (session_rules (session_policy_ ctx)) (added_dirs ctx)) in
        Pipeline.decide p tool a (run_mode ctx) in
      match a with
      | AWrite paths =>
          if existsb (in_project project (root ctx)) paths then
            Deny (str "this agent works in the isolated worktree " ++ display (root ctx)
                  ++ str "; it may change files only there")
          else own
      | ARead paths =>
          if negb (is_empty paths) && forallb (in_project project (root ctx)) paths then
            Pipeline.decide (session_policy_ ctx) tool a (run_mode ctx)
          else own
      | _ => own
      end
  end.

(** * [gate.rs] *)

Inductive Verdict :=
| VRun (t : Tool)
| VRefuse (status_ : ToolStatus) (message : text)
| VAsk (t : Tool) (request : ApprovalRequest).

Record Gated := mkGated { gated_call : ToolCall; verdict : Verdict }.

Definition hook_reason (r : option text) (default : text) : text :=
  match r with Some t => t | None => default end.

(** A hook may force a decision, but never lifts a policy denial. *)
Definition with_override (d : Engine.Decision) (forced : option (PermissionOverride * option text))
  : Engine.Decision :=
  match forced with
  | None => d
  | Some (o, r) =>
      match o, d with
      | _, Deny _ => d
      | ODeny, _ => Deny (hook_reason r (str "a PreToolUse hook denied it"))
      | OAllow, _ => Allow (hook_reason r (str "a PreToolUse hook allowed it"))
      | OAsk, Ask _ _ _ => d
      | OAsk, Allow _ => Ask (hook_reason r (str "a PreToolUse hook asks for approval")) None false
      end
  end.

(** [escalate] of the tool-gate seam: only an allow becomes an ask. *)
Definition escalate (d : Engine.Decision) (reason_ : option text) : Engine.Decision :=
  match d, reason_ with
  | Allow _, Some r => Ask r None false
  | _, _ => d
  end.

(** [review_call]: the first reason given counts, and only an allow is
    reviewed. *)
Definition review_call (ctx : RunContext) (c : ToolCall) (d : Engine.Decision) : Engine.Decision :=
  match d with
  | Allow _ => escalate d (head (tool_gate_reasons ctx c))
  | _ => d
  end.

Definition refuse (c : ToolCall) (s : ToolStatus) (message : text) : Gated := mkGated c (VRefuse s message).

(** The call with the input a hook rewrote. *)
Definition rewritten (c : ToolCall) (h : HookOutcome) : ToolCall :=
  match updated_input h with Some v => mkToolCall (call c) (name c) v | None => c end.

(** The decision on a call that passed the checks and hooks. *)
Definition call_decision (ctx : RunContext) (t : Tool) (c : ToolCall) (h : HookOutcome) : Engine.Decision :=
  review_call ctx c
    (with_override (scope_decide ctx (tool_name t) (tool_action t (call_input c))) (permission h)).

Definition approval_request (ctx : RunContext) (t : Tool) (c : ToolCall) (reason_ : text)
    (suggested : option text) (can : bool) : ApprovalRequest :=
  mkApprovalRequest (fresh_request ctx c) (agent ctx) (call c) (name c) (tool_title t (call_input c))
    (call_input c) (tool_preview t (call_input c)) reason_ suggested can.

Definition gate (ctx : RunContext) (tools : list Tool) (c : ToolCall) (malformed : list MalformedToolUse)
  : Gated :=
  match List.find (fun bad => teqb (malformed_id bad) (call c)) malformed with
  | Some bad =>
      refuse c SError (str "The input for " ++ name c ++ str " is not a valid JSON object ("
                       ++ malformed_error bad ++ str "). Send the call again with valid JSON.")
  | None =>
      match get_tool tools (name c) with
      | None =>
          refuse c SError (str "Unknown tool `" ++ name c ++ str "`. Available tools: "
                           ++ join (str ", ") (map tool_name tools) ++ str ".")
      | Some t =>
          match check (input_schema t) (call_input c) with
          | Err message => refuse c SError message
          | Ok _ =>
              let h := pre_tool_use ctx (name c) (call_input c) in
              let c := rewritten c h in
              match blocked h with
              | Some r => refuse c SDenied (str "A PreToolUse hook blocked this call: " ++ r)
              | None =>
                  match call_decision ctx t c h with
                  | Allow _ => mkGated c (VRun t)
                  | Deny r => refuse c SDenied (str "Permission denied: " ++ r)
                  | Ask r suggested can => mkGated c (VAsk t (approval_request ctx t c r suggested can))
                  end
              end
          end
      end
  end.
End WithJson.
