(* ===== verification/Batch.v ===== *)
(** One tool batch ([engine/src/batch/execute.rs], [approval.rs], [call.rs],
    [report.rs], [diagnose.rs]): gate every call, resolve the approvals
    together, then run the calls in order, neighbouring safe ones together.

    The environment ([Env]) answers what the machine decides: when the run is
    cancelled, what the user answers, how each call ends. *)

From S2P Require Export Protocol Gate.

Definition CANCELLED : text := str "cancelled by user".

(** * Tool outcomes ([z-engine-tools], [output.rs] and [error.rs]) *)

Record Effects := mkEffects { files_written : list path; files_read : list path; ran_command : bool }.

Record ToolOutput := mkToolOutput {
  output_content : list ToolResultPart;
  output_summary : text;
  output_is_error : bool;
  effects : Effects
}.

Inductive ToolError :=
| InvalidInput (t : text)
| Failed (t : text)
| Cancelled
| Unavailable (t : text).

Definition ToolError_display (e : ToolError) : text :=
  match e with
  | InvalidInput t => str "invalid input: " ++ t
  | Failed t | Unavailable t => t
  | Cancelled => CANCELLED
  end.

Definition no_effects : Effects := mkEffects [] [] false.

Definition VERIFY : text := str "Verify".
Definition TODO_WRITE : text := str "TodoWrite".

Section WithJson.
Context {G : Globset} {P : Platform} {J : Json}.

(** * [call.rs] *)

Record CallResult := mkCallResult {
  result_block : ContentBlock;
  mutated : bool;
  touched : list path;
  written : list path
}.

(** How one call ends: what the tool returns (the grace period of
    [with_grace] included), whether the run was cancelled by then, what the
    [PostToolUse] hooks add and what the after-call seam makes of the
    content. *)
Record CallEnd := mkCallEnd {
  returned : result ToolError ToolOutput;
  cancelled_then : bool;
  post_notes : list ToolResultPart;
  annotate : list ToolResultPart -> list ToolResultPart
}.

Definition is_cancelled_error (e : ToolError) : bool :=
  match e with Cancelled => true | _ => false end.

(** Content, error flag, status and effects of a call, before the notes. *)
Definition call_outcome (e : CallEnd) : list ToolResultPart * bool * ToolStatus * Effects :=
  match returned e with
  | Ok o =>
      let status_ :=
        if cancelled_then e then SCancelled else if output_is_error o then SError else SOk in
      let content := output_content o ++ if cancelled_then e then [PartText CANCELLED] else [] in
      (content, output_is_error o || cancelled_then e, status_, effects o)
  | Err error =>
      let '(status_, t) :=
        if cancelled_then e || is_cancelled_error error then (SCancelled, CANCELLED)
        else (SError, ToolError_display error) in
      ([PartText t], true, status_, no_effects)
  end.

Definition run_call (t : Tool) (c : ToolCall) (e : CallEnd) : CallResult :=
  let '(content, is_error, status_, eff) := call_outcome e in
  let content :=
    if bool_decide (status_ = SCancelled) then content
    else annotate e (content ++ post_notes e) in
  mkCallResult (BToolResult (call c) content is_error)
    (negb (is_empty (files_written eff))
     || ran_command eff && negb (tool_read_only t (call_input c)) && negb (teqb (tool_name t) VERIFY))
    (files_read eff ++ files_written eff) (files_written eff).

(** * [report.rs] *)

(** The result of a call that never ran. *)
Definition refused (c : ToolCall) (message : text) : ContentBlock :=
  BToolResult (call c) [PartText message] true.

(** * The environment *)

Record Env := mkEnv {
  (** the cancellation token, when call [n] is gated, when the execution loop
      looks at it before call [n], before the diagnostics and at the end *)
  gate_cancelled : nat -> bool;
  loop_cancelled : nat -> bool;
  notes_cancelled : bool;
  end_cancelled : bool;
  reply : ApprovalRequest -> option ApprovalDecision;
  call_end : nat -> CallEnd;
  clock : nat -> N;
  (** new instructions for the touched files *)
  nested_docs : list path -> option text;
  (** error notes of the language servers *)
  diagnostics : list (nat * list path) -> option (path -> option text)
}.

(** * [approval.rs] *)

Definition denial (feedback : option text) : text :=
  match feedback with
  | Some f =>
      if is_empty (trim f) then str "The user denied this action."
      else str "The user denied this action." ++ [NEWLINE] ++ str "Feedback from the user: " ++ trim f
  | None => str "The user denied this action."
  end.

(** The approvals to request, in call order. *)
Definition asks (gs : list Gated) : list ApprovalRequest :=
  omap (fun g => match verdict g with VAsk _ r => Some r | _ => None end) gs.

Definition answered (answer : option ApprovalDecision) (t : Tool) : Verdict :=
  match answer with
  | Some (DenyWith feedback) => VRefuse SDenied (denial feedback)
  | Some _ => VRun t
  | None => VRefuse SCancelled CANCELLED
  end.

Definition resolve_one (env : Env) (g : Gated) : Gated :=
  match verdict g with
  | VAsk t r => mkGated (gated_call g) (answered (reply env r) t)
  | _ => g
  end.

(** Every approval is requested and answered; requests nobody answered are
    withdrawn. *)
Definition resolve_approvals (env : Env) (gs : list Gated) : list Gated * list id :=
  (map (resolve_one env) gs,
   map request_id (List.filter (fun r => match reply env r with None => true | Some _ => false end) (asks gs))).

(** * [execute.rs] *)

(** What the loop does, in order: refuse a call, or run a segment of calls at
    the same time. *)
Inductive Act :=
| ARefused (n : nat)
| ARan (segment : list nat).

Record ExecState := mkExecState {
  results : list (option ContentBlock);
  mutated_at : option N;
  touched_files : list path;
  written_files : list (nat * list path);
  acts : list Act
}.

Definition set_result (n : nat) (b : ContentBlock) (s : ExecState) : ExecState :=
  mkExecState (<[n := Some b]> (results s)) (mutated_at s) (touched_files s) (written_files s) (acts s).
Definition add_act (a : Act) (s : ExecState) : ExecState :=
  mkExecState (results s) (mutated_at s) (touched_files s) (written_files s) (acts s ++ [a]).

Definition refuse_call (n : nat) (c : ToolCall) (message : text) (s : ExecState) : ExecState :=
  add_act (ARefused n) (set_result n (refused c message) s).

(** The inner loop: refuses calls and collects the next segment, and leaves
    the index after it. *)
Fixpoint collect (gs : list Gated) (next : nat) (segment : list nat) (s : ExecState)
  : nat * list nat * ExecState :=
  match gs with
  | [] => (next, segment, s)
  | g :: rest =>
      match verdict g with
      | VRefuse _ message => collect rest (S next) segment (refuse_call next (gated_call g) message s)
      | VAsk _ _ => collect rest (S next) segment (refuse_call next (gated_call g) CANCELLED s)
      | VRun t =>
          if concurrency_safe t (call_input (gated_call g)) then
            collect rest (S next) (segment ++ [next]) s
          else if is_empty segment then (S next, [next], s)
          else (next, segment, s)
      end
  end.

(** One finished call of a segment. *)
Definition record_call (env : Env) (gs : list Gated) (s : ExecState) (at_ : nat) : ExecState :=
  match gs !! at_ with
  | Some (mkGated c (VRun t)) =>
      let r := run_call t c (call_end env at_) in
      mkExecState (<[at_ := Some (result_block r)]> (results s))
        (if mutated r then Some (clock env at_) else mutated_at s)
        (touched_files s ++ touched r)
        (if is_empty (written r) then written_files s else written_files s ++ [(at_, written r)])
        (acts s)
  | _ => s
  end.

Definition run_segment (env : Env) (gs : list Gated) (segment : list nat) (s : ExecState) : ExecState :=
  foldl (record_call env gs) (add_act (ARan segment) s) segment.

(** The outer loop; it moves past at least one call each time, so the number
    of calls is fuel enough. *)
Fixpoint execute_loop (fuel : nat) (env : Env) (gs : list Gated) (index : nat) (s : ExecState)
  : ExecState :=
  match fuel with
  | O => s
  | S fuel =>
      if Nat.ltb index (length gs) && negb (loop_cancelled env index) then
        let '(next, segment, s) := collect (drop index gs) index [] s in
        execute_loop fuel env gs next (run_segment env gs segment s)
      else s
  end.

(** * [diagnose.rs] *)

Definition append_note (note : text) (b : option ContentBlock) : option ContentBlock :=
  match b with
  | Some (BToolResult i content e) => Some (BToolResult i (content ++ [PartText note]) e)
  | _ => b
  end.

Definition append_notes (notes : path -> option text) (rs : list (option ContentBlock))
    (w : nat * list path) : list (option ContentBlock) :=
  foldl (fun rs note => alter (append_note note) (fst w) rs) rs (omap notes (snd w)).

Definition append_lsp_errors (env : Env) (rs : list (option ContentBlock)) (ws : list (nat * list path))
  : list (option ContentBlock) :=
  match diagnostics env ws with
  | Some notes => foldl (append_notes notes) rs ws
  | None => rs
  end.

Record BatchOutcome := mkBatchOutcome {
  batch_results : list ContentBlock;
  batch_cancelled : bool;
  batch_mutated : bool;
  batch_mutated_at : option N;
  used_todo_write : bool;
  batch_written : list path;
  batch_acts : list Act
}.

(** Calls without a result were cancelled before they ran. *)
Definition final_result (g : Gated) (r : option ContentBlock) : ContentBlock :=
  match r with Some b => b | None => refused (gated_call g) CANCELLED end.

Definition never_ran (n : nat) (r : option ContentBlock) : list Act :=
  match r with Some _ => [] | None => [ARefused n] end.

Definition execute (env : Env) (gs : list Gated) (pending_ : list text) : BatchOutcome * list text :=
  let s :=
    execute_loop (length gs) env gs 0
      (mkExecState (map (fun _ => None) gs) None [] [] []) in
  let pending_ :=
    if is_empty (touched_files s) then pending_
    else pending_ ++ match nested_docs env (touched_files s) with Some t => [t] | None => [] end in
  let rs :=
    if negb (is_empty (written_files s)) && negb (notes_cancelled env) then
      append_lsp_errors env (results s) (written_files s)
    else results s in
  (mkBatchOutcome (zip_with final_result gs rs) (end_cancelled env)
     (match mutated_at s with Some _ => true | None => false end) (mutated_at s) false
     (flat_map snd (written_files s)) (acts s ++ concat (imap never_ran rs)),
   pending_).

(** Other operations of the session run between two gates, so each call sees
    the session [ctx n] as it is by then. *)
Definition gate_call (ctx : nat -> RunContext) (env : Env) (tools : list Tool) (malformed : list MalformedToolUse)
    (n : nat) (c : ToolCall) : Gated :=
  if gate_cancelled env n then refuse c SCancelled CANCELLED else gate (ctx n) tools c malformed.

Definition run_batch (ctx : nat -> RunContext) (env : Env) (tools : list Tool) (calls : list ToolCall)
    (malformed : list MalformedToolUse) (pending_ : list text) : BatchOutcome * list text :=
  let used := existsb (fun c => teqb (name c) TODO_WRITE) calls in
  let gs := imap (gate_call ctx env tools malformed) calls in
  let '(gs, _) := resolve_approvals env gs in
  let '(o, pending_) := execute env gs pending_ in
  (mkBatchOutcome (batch_results o) (batch_cancelled o) (batch_mutated o) (batch_mutated_at o) used
     (batch_written o) (batch_acts o), pending_).
End WithJson.
