(* ===== verification/BatchFacts.v ===== *)
(** Facts about the tool gate and the batch executor. *)

From S2P Require Export Batch Pipeline.

Section WithJson.
Context {G : Globset} {P : Platform} {J : Json}.

(** * Vocabulary *)

(** The call a result answers. *)
Definition block_call (b : ContentBlock) : option id :=
  match b with BToolResult i _ _ => Some i | _ => None end.

Definition is_run (g : Gated) : bool := match verdict g with VRun _ => true | _ => false end.

Definition is_safe (g : Gated) : bool :=
  match verdict g with VRun t => concurrency_safe t (call_input (gated_call g)) | _ => false end.

(** The calls an act concerns, and those it runs. *)
Definition act_calls (a : Act) : list nat := match a with ARefused n => [n] | ARan ns => ns end.
Definition act_ran (a : Act) : list nat := match a with ARefused _ => [] | ARan ns => ns end.

(** A segment is one call, or calls that are all safe to run together. *)
Definition safe_at (gs : list Gated) (n : nat) : Prop := exists g, gs !! n = Some g /\ is_safe g = true.
Definition segment_ok (gs : list Gated) (ns : list nat) : Prop :=
  (exists n, ns = [n]) \/ Forall (safe_at gs) ns.
Definition act_ok (gs : list Gated) (a : Act) : Prop :=
  match a with ARefused _ => True | ARan ns => segment_ok gs ns end.

(** The indices, from [k] on, of the calls to run. *)
Fixpoint runs_from (k : nat) (gs : list Gated) : list nat :=
  match gs with
  | [] => []
  | g :: gs => (if is_run g then [k] else []) ++ runs_from (S k) gs
  end.

Lemma runs_from_app k gs hs : runs_from k (gs ++ hs) = runs_from k gs ++ runs_from (k + length gs) hs.
Proof using.
  revert k. induction gs as [|g gs IH]; intros k; cbn [app runs_from length]; [by rewrite Nat.add_0_r|].
  rewrite IH, <- app_assoc. by rewrite Nat.add_succ_comm.
Qed.

Lemma runs_from_spec k gs n :
  In n (runs_from k gs) <-> exists g, gs !! (n - k)%nat = Some g /\ (k <= n)%nat /\ is_run g = true.
Proof using.
  revert k. induction gs as [|g gs IH]; intros k; cbn [runs_from].
  { split; [done|]. intros (g & H & _). by rewrite lookup_nil in H. }
  rewrite in_app_iff, IH. split.
  - intros [H|(h & Hl & Hk & Hr)].
    + destruct (is_run g) eqn:E; [|done]. destruct H as [<-|[]]. exists g. by rewrite Nat.sub_diag.
    + exists h. replace (n - k)%nat with (S (n - S k)) by lia. split_and!; [done|lia|done].
  - intros (h & Hl & Hk & Hr). destruct (base.decide (n = k)) as [->|Hne].
    + rewrite Nat.sub_diag in Hl. injection Hl as ->. rewrite Hr. left. by left.
    + right. exists h. replace (n - k)%nat with (S (n - S k)) in Hl by lia. split_and!; [done|lia|done].
Qed.

(** * The inner loop *)

(** Refusing, in order, the calls of a list that do not run. *)
Definition refusal (g : Gated) : text := match verdict g with VRefuse _ m => m | _ => CANCELLED end.
Fixpoint refuse_all (k : nat) (gs : list Gated) (s : ExecState) : ExecState :=
  match gs with
  | [] => s
  | g :: gs =>
      refuse_all (S k) gs (if is_run g then s else refuse_call k (gated_call g) (refusal g) s)
  end.

Lemma collect_spec l next seg s next' seg' s' :
  collect l next seg s = (next', seg', s') ->
  exists pre post, l = pre ++ post /\ next' = (next + length pre)%nat
    /\ seg' = seg ++ runs_from next pre /\ s' = refuse_all next pre s
    /\ (l <> [] -> seg = [] -> pre <> [])
    /\ ((exists n, seg' = [n]) \/ Forall (fun g => is_run g = true -> is_safe g = true) pre).
Proof using.
  revert next seg s. induction l as [|g l IH]; intros next seg s; cbn [collect].
  { intros [= <- <- <-]. exists [], []. cbn. rewrite app_nil_r. split_and!; try done; try lia. by right. }
  destruct (verdict g) as [t|st m|t r] eqn:Ev.
  - destruct (concurrency_safe _ _) eqn:Es.
    + intros H. apply IH in H as (pre & post & -> & -> & -> & -> & _ & Hok).
      exists (g :: pre), post. cbn [length runs_from refuse_all]. unfold is_run at 1 2. rewrite Ev. cbn.
      rewrite <- app_assoc. split_and!; try done; try lia.
      rewrite <- app_assoc in Hok. destruct Hok as [?|Hf]; [by left|right]. constructor; [|done].
      intros _. unfold is_safe. by rewrite Ev.
    + destruct seg as [|n seg]; cbn [is_empty]; intros [= <- <- <-].
      * exists [g], l. cbn. unfold is_run. rewrite Ev. cbn. split_and!; try done; try lia. left. by exists next.
      * exists [], (g :: l). cbn. rewrite app_nil_r. split_and!; try done; try lia. by right.
  - intros H. apply IH in H as (pre & post & -> & -> & -> & -> & _ & Hok).
    exists (g :: pre), post. cbn [length runs_from refuse_all]. unfold is_run at 1 2, refusal. rewrite Ev. cbn.
    split_and!; try done; try lia. destruct Hok as [?|Hf]; [by left|right]. constructor; [|done].
    unfold is_run. by rewrite Ev.
  - intros H. apply IH in H as (pre & post & -> & -> & -> & -> & _ & Hok).
    exists (g :: pre), post. cbn [length runs_from refuse_all]. unfold is_run at 1 2, refusal. rewrite Ev. cbn.
    split_and!; try done; try lia. destruct Hok as [?|Hf]; [by left|right]. constructor; [|done].
    unfold is_run. by rewrite Ev.
Qed.

(** The indices, from [k] on, of the calls that are refused. *)
Fixpoint refusals_from (k : nat) (gs : list Gated) : list nat :=
  match gs with
  | [] => []
  | g :: gs => (if is_run g then [] else [k]) ++ refusals_from (S k) gs
  end.

Lemma refused_and_run k gs : refusals_from k gs ++ runs_from k gs ≡ₚ seq k (length gs).
Proof using.
  revert k. induction gs as [|g gs IH]; intros k; [done|]. cbn [refusals_from runs_from length seq].
  rewrite <- (IH (S k)). destruct (is_run g); cbn [app]; [|done]. by rewrite <- Permutation_middle.
Qed.

Lemma refuse_all_acts k gs s :
  acts (refuse_all k gs s) = acts s ++ map ARefused (refusals_from k gs).
Proof using.
  revert k s. induction gs as [|g gs IH]; intros k s; cbn [refuse_all refusals_from]; [by rewrite app_nil_r|].
  rewrite IH. destruct (is_run g); [done|]. cbn. by rewrite <- app_assoc.
Qed.

(** The results at [D] now answer their calls; the others are as before. *)
Definition updates (gs : list Gated) (D : list nat) (rs rs' : list (option ContentBlock)) : Prop :=
  length rs' = length rs
  /\ (forall i, ~ In i D -> rs' !! i = rs !! i)
  /\ (forall i, In i D -> (i < length rs)%nat ->
      exists g b, gs !! i = Some g /\ rs' !! i = Some (Some b)
                  /\ block_call b = Some (call (gated_call g))).

Lemma updates_nil gs rs : updates gs [] rs rs.
Proof using. by split_and!. Qed.

Lemma updates_app gs D E rs1 rs2 rs3 :
  updates gs D rs1 rs2 -> updates gs E rs2 rs3 -> updates gs (D ++ E) rs1 rs3.
Proof using.
  intros (L1 & U1 & F1) (L2 & U2 & F2). split_and!; [congruence| |].
  - intros i Hi. rewrite in_app_iff in Hi. rewrite U2, U1; tauto.
  - intros i Hi Hl. destruct (in_dec Nat.eq_dec i E) as [HE|HE]; [apply F2; [done|lia]|].
    rewrite U2 by done. apply in_app_iff in Hi as [Hi|Hi]; [by apply F1|done].
Qed.

Lemma updates_one gs rs i g b :
  gs !! i = Some g -> block_call b = Some (call (gated_call g)) -> updates gs [i] rs (<[i := Some b]> rs).
Proof using.
  intros Hg Hb. split_and!; [by rewrite length_insert| |].
  - intros j Hj. rewrite list_lookup_insert_ne; [done|]. intros ->. apply Hj. by left.
  - intros j [<-|[]] Hl. exists g, b. split_and!; [done| |done]. by rewrite list_lookup_insert_eq.
Qed.

Lemma refuse_all_updates gs k pre s :
  (forall i g, pre !! i = Some g -> gs !! (k + i)%nat = Some g) ->
  updates gs (refusals_from k pre) (results s) (results (refuse_all k pre s)).
Proof using.
  revert k s. induction pre as [|g pre IH]; intros k s Hp; cbn [refuse_all refusals_from]; [apply updates_nil|].
  assert (Hg : gs !! k = Some g) by (rewrite <- (Nat.add_0_r k); by apply Hp).
  assert (Hp' : forall i h, pre !! i = Some h -> gs !! (S k + i)%nat = Some h).
  { intros i h Hi. rewrite Nat.add_succ_comm. by apply Hp. }
  eapply updates_app; [|by apply IH]. destruct (is_run g); [apply updates_nil|].
  by eapply updates_one.
Qed.

(** * Running a segment *)

Lemma run_call_answers t c e : block_call (result_block (run_call t c e)) = Some (call c).
Proof using. unfold run_call. by destruct (call_outcome e) as [[[? ?] ?] ?]. Qed.

Lemma record_call_updates env gs s n :
  (exists g, gs !! n = Some g /\ is_run g = true) ->
  updates gs [n] (results s) (results (record_call env gs s n)).
Proof using.
  intros ([c v] & Hg & Hr). unfold record_call. rewrite Hg. unfold is_run in Hr. cbn in Hr.
  destruct v as [t| |]; try done. eapply updates_one; [exact Hg|]. apply run_call_answers.
Qed.

Lemma record_call_acts env gs s n : acts (record_call env gs s n) = acts s.
Proof using. unfold record_call. by destruct (gs !! n) as [[? [| |]]|]. Qed.

Lemma record_calls_updates env gs ns s :
  Forall (fun n => exists g, gs !! n = Some g /\ is_run g = true) ns ->
  updates gs ns (results s) (results (foldl (record_call env gs) s ns))
  /\ acts (foldl (record_call env gs) s ns) = acts s.
Proof using.
  revert s. induction ns as [|n ns IH]; intros s Hn; cbn [foldl]; [by split; [apply updates_nil|]|].
  apply Forall_cons in Hn as [Hn Hns]. destruct (IH (record_call env gs s n) Hns) as [H1 H2].
  split; [|by rewrite H2, record_call_acts].
  change (n :: ns) with ([n] ++ ns). eapply updates_app; [by apply record_call_updates|done].
Qed.

(** * The outer loop *)

(** After the calls before [k]: each of them has been refused or run, once,
    with its result in place; runs are in call order and segments proper. *)
Record progress (gs : list Gated) (k : nat) (s : ExecState) : Prop := mkProgress {
  pg_len : length (results s) = length gs;
  pg_done : forall i, (i < k)%nat -> exists g b, gs !! i = Some g /\ results s !! i = Some (Some b)
                                     /\ block_call b = Some (call (gated_call g));
  pg_todo : forall i, (k <= i < length gs)%nat -> results s !! i = Some None;
  pg_once : flat_map act_calls (acts s) ≡ₚ seq 0 k;
  pg_order : flat_map act_ran (acts s) = runs_from 0 (take k gs);
  pg_segments : Forall (act_ok gs) (acts s);
  pg_bound : (k <= length gs)%nat
}.

Lemma flat_map_refused_calls ns : flat_map act_calls (map ARefused ns) = ns.
Proof using. induction ns as [|n ns IH]; [done|]. cbn. by rewrite IH. Qed.

Lemma flat_map_refused_ran ns : flat_map act_ran (map ARefused ns) = [].
Proof using. by induction ns. Qed.

Lemma runs_of_prefix gs k pre post :
  drop k gs = pre ++ post -> (k <= length gs)%nat ->
  runs_from 0 (take (k + length pre) gs) = runs_from 0 (take k gs) ++ runs_from k pre.
Proof using.
  intros Hd Hk. rewrite <- (take_drop k gs) at 1. rewrite Hd, app_assoc.
  rewrite take_app_length' by (rewrite length_app, length_take; lia).
  rewrite runs_from_app. cbn. by rewrite length_take_le.
Qed.

Lemma prefix_lookup {A} (gs : list A) k pre post i g :
  drop k gs = pre ++ post -> pre !! i = Some g -> gs !! (k + i)%nat = Some g.
Proof using. intros Hd Hi. rewrite <- lookup_drop, Hd. by apply lookup_app_l_Some. Qed.

Lemma runs_of_pre gs k pre post :
  drop k gs = pre ++ post ->
  Forall (fun n => exists g, gs !! n = Some g /\ is_run g = true) (runs_from k pre).
Proof using.
  intros Hd. apply List.Forall_forall. intros n Hn. apply runs_from_spec in Hn as (g & Hg & Hk & Hr).
  exists g. split; [|done]. replace n with (k + (n - k))%nat by lia. by eapply prefix_lookup.
Qed.

Lemma segment_of_pre gs k pre post seg :
  drop k gs = pre ++ post -> seg = runs_from k pre ->
  (exists n, seg = [n]) \/ Forall (fun g => is_run g = true -> is_safe g = true) pre ->
  segment_ok gs seg.
Proof using.
  intros Hd -> [H|Hs]; [by left|right]. apply List.Forall_forall. intros n Hn.
  apply runs_from_spec in Hn as (g & Hg & Hk & Hr). exists g. split.
  - replace n with (k + (n - k))%nat by lia. by eapply prefix_lookup.
  - rewrite List.Forall_forall in Hs. apply Hs; [|done]. apply list_elem_of_In.
    by eapply list_elem_of_lookup_2.
Qed.

(** One round of the outer loop. *)
Lemma round_progress env gs k s next seg s1 :
  progress gs k s -> (k < length gs)%nat -> collect (drop k gs) k [] s = (next, seg, s1) ->
  (k < next)%nat /\ progress gs next (run_segment env gs seg s1).
Proof using.
  intros [Hl Hd Ht Ho Hr Hs Hb] Hk Hc.
  apply collect_spec in Hc as (pre & post & Hdrop & -> & Hseg & -> & Hne & Hok). cbn [app] in Hseg.
  assert (Hpre : (k + length pre <= length gs)%nat).
  { apply (f_equal length) in Hdrop. rewrite length_drop, length_app in Hdrop. lia. }
  assert (Hpos : (0 < length pre)%nat).
  { destruct pre; [|cbn; lia]. exfalso. apply Hne; [|done|done].
    intros E. apply (f_equal length) in E. rewrite length_drop in E. cbn in E. lia. }
  assert (Hlook : forall i g, pre !! i = Some g -> gs !! (k + i)%nat = Some g)
    by (intros; by eapply prefix_lookup).
  split; [lia|]. unfold run_segment.
  destruct (record_calls_updates env gs seg (add_act (ARan seg) (refuse_all k pre s))) as [Hu Ha].
  { rewrite Hseg. by eapply runs_of_pre. }
  pose proof (updates_app _ _ _ _ _ _ (refuse_all_updates gs k pre s Hlook) Hu) as (L & U & F).
  assert (Hin : forall i, In i (refusals_from k pre ++ seg) <-> (k <= i < k + length pre)%nat).
  { intros i. rewrite Hseg. rewrite <- list_elem_of_In, refused_and_run, list_elem_of_In. apply in_seq. }
  split.
  - by rewrite L.
  - intros i Hi. destruct (base.decide (k <= i)%nat) as [Hki|Hki].
    + apply F; [apply Hin; lia|lia].
    + rewrite U by (rewrite Hin; lia). apply Hd. lia.
  - intros i Hi. rewrite U by (rewrite Hin; lia). apply Ht. lia.
  - rewrite Ha. cbn [acts add_act]. rewrite refuse_all_acts, !flat_map_app, flat_map_refused_calls, Ho.
    cbn. rewrite app_nil_r, <- app_assoc, Hseg, refused_and_run. by rewrite seq_app.
  - rewrite Ha. cbn [acts add_act]. rewrite refuse_all_acts, !flat_map_app, flat_map_refused_ran, Hr.
    cbn. rewrite !app_nil_r, Hseg. by erewrite runs_of_prefix.
  - rewrite Ha. cbn [acts add_act]. rewrite refuse_all_acts, !Forall_app. split_and!; [done| |].
    + apply Forall_map. by apply Forall_true.
    + constructor; [|constructor]. exact (segment_of_pre gs k pre post seg Hdrop Hseg Hok).
  - lia.
Qed.

(** Where the loop stops: at the end, or where it saw the cancellation. *)
Lemma execute_loop_progress fuel env gs k s :
  progress gs k s -> (length gs - k <= fuel)%nat ->
  exists k', progress gs k' (execute_loop fuel env gs k s)
    /\ (k' = length gs \/ loop_cancelled env k' = true).
Proof using.
  revert k s. induction fuel as [|fuel IH]; intros k s Hp Hf.
  { exists k. split; [done|]. left. pose proof (pg_bound _ _ _ Hp). lia. }
  cbn [execute_loop]. destruct (Nat.ltb k (length gs)) eqn:El.
  - apply Nat.ltb_lt in El. destruct (loop_cancelled env k) eqn:Ec; cbn [andb negb].
    { exists k. auto. }
    destruct (collect (drop k gs) k [] s) as [[next seg] s1] eqn:E.
    destruct (round_progress env gs k s next seg s1 Hp El E) as [Hlt Hp'].
    apply IH; [done|lia].
  - apply Nat.ltb_ge in El. cbn [andb]. exists k. split; [done|]. left.
    pose proof (pg_bound _ _ _ Hp). lia.
Qed.

Lemma start_progress gs : progress gs 0 (mkExecState (map (fun _ => None) gs) None [] [] []).
Proof using.
  split; cbn; try done.
  - apply length_map.
  - intros i Hi. lia.
  - intros i [_ Hi]. destruct (lookup_lt_is_Some_2 gs i Hi) as [g Hg].
    change (map ?f gs) with (f <$> gs). rewrite list_lookup_fmap. by rewrite Hg.
  - lia.
Qed.

(** * Execution *)

(** Which results are there and which calls they answer. *)
Definition shape (rs : list (option ContentBlock)) : list (option (option id)) :=
  map (fun r => block_call <$> r) rs.

Lemma append_note_shape note n rs : shape (alter (append_note note) n rs) = shape rs.
Proof using.
  revert n. induction rs as [|r rs IH]; intros n; [by destruct n|].
  destruct n as [|n]; [|unfold shape in *; cbn; f_equal; apply IH].
  unfold shape. cbn. f_equal. by destruct r as [[]|].
Qed.

Lemma append_notes_shape notes rs w : shape (append_notes notes rs w) = shape rs.
Proof using.
  unfold append_notes. revert rs. induction (omap notes (snd w)) as [|note l IH]; intros rs; [done|].
  cbn [foldl]. by rewrite IH, append_note_shape.
Qed.

Lemma append_lsp_errors_shape env rs ws : shape (append_lsp_errors env rs ws) = shape rs.
Proof using.
  unfold append_lsp_errors. destruct (diagnostics env ws) as [notes|]; [|done].
  revert rs. induction ws as [|w ws IH]; intros rs; [done|]. cbn [foldl]. by rewrite IH, append_notes_shape.
Qed.

(** The results after [k] calls are done: answers to them, then nothing. *)
Lemma progress_shape gs k s :
  progress gs k s ->
  shape (results s) = map (fun g => Some (Some (call (gated_call g)))) (take k gs)
                      ++ replicate (length gs - k) None.
Proof using.
  intros [Hl Hd Ht _ _ _ Hb]. apply list_eq. intros i. unfold shape.
  change (map ?f ?l) with (f <$> l). rewrite list_lookup_fmap.
  destruct (base.decide (i < k)%nat) as [Hi|Hi].
  - destruct (Hd i Hi) as (g & b & Hg & -> & Hb'). rewrite lookup_app_l by (rewrite length_fmap, length_take; lia).
    change (map ?f ?l) with (f <$> l). rewrite list_lookup_fmap, lookup_take_lt, Hg by lia. cbn. by rewrite Hb'.
  - rewrite lookup_app_r by (rewrite length_map, length_take; lia).
    rewrite length_map, length_take_le by lia. destruct (base.decide (i < length gs)%nat) as [Hn|Hn].
    + rewrite Ht by lia. rewrite lookup_replicate_2 by lia. done.
    + rewrite (lookup_ge_None_2 (results s)) by lia. cbn.
      symmetry. apply lookup_ge_None_2. rewrite length_replicate. lia.
Qed.

Lemma final_results_calls gs rs k :
  shape rs = map (fun g => Some (Some (call (gated_call g)))) (take k gs) ++ replicate (length gs - k) None ->
  (k <= length gs)%nat ->
  map block_call (zip_with final_result gs rs) = map (fun g => Some (call (gated_call g))) gs.
Proof using.
  revert rs k. induction gs as [|g gs IH]; intros rs k Hs Hk; [done|].
  destruct k as [|k]; cbn [take map app replicate length Nat.sub] in Hs;
    (destruct rs as [|r rs]; [done|]); cbn [shape map] in Hs; injection Hs as Hr Hrest;
    cbn [zip_with map]; f_equal.
  - by destruct r.
  - apply (IH rs 0%nat); [|lia]. by rewrite Nat.sub_0_r.
  - destruct r as [b|]; [|done]. cbn in Hr. by injection Hr.
  - apply (IH rs k); [done|]. cbn in Hk. lia.
Qed.

Lemma never_ran_acts rs k n :
  shape rs = replicate n None ->
  flat_map act_calls (concat (imap (fun i => never_ran (k + i)) rs)) = seq k n
  /\ flat_map act_ran (concat (imap (fun i => never_ran (k + i)) rs)) = []
  /\ forall gs, Forall (act_ok gs) (concat (imap (fun i => never_ran (k + i)) rs)).
Proof using.
  revert k n. induction rs as [|r rs IH]; intros k n Hs; destruct n as [|n]; cbn in Hs; try done.
  injection Hs as Hr Hs. destruct r; [done|]. cbn [imap concat]. rewrite Nat.add_0_r.
  destruct (IH (S k) n Hs) as (H1 & H2 & H3).
  rewrite (imap_ext _ (fun i => never_ran (S k + i)) rs) by (intros; cbn; f_equal; lia).
  cbn in *. rewrite H1, H2. split_and!; [done|done|]. intros gs. constructor; [done|apply H3].
Qed.

Lemma never_ran_after (l : list (option id)) rs k n :
  shape rs = map Some l ++ replicate n None ->
  flat_map act_calls (concat (imap (fun i => never_ran (k + i)) rs)) = seq (k + length l) n
  /\ flat_map act_ran (concat (imap (fun i => never_ran (k + i)) rs)) = []
  /\ forall gs, Forall (act_ok gs) (concat (imap (fun i => never_ran (k + i)) rs)).
Proof using.
  revert rs k. induction l as [|x l IH]; intros rs k Hs.
  { cbn [length]. rewrite Nat.add_0_r. by apply never_ran_acts. }
  destruct rs as [|[b|] rs]; try done. cbn in Hs. injection Hs as _ Hs. cbn [imap concat length].
  rewrite Nat.add_0_r. cbn [never_ran app].
  rewrite (imap_ext _ (fun i => never_ran (S k + i)) rs) by (intros; cbn; f_equal; lia).
  rewrite <- Nat.add_succ_comm. by apply IH.
Qed.

(** Everything [execute] promises about its calls. *)
Record executed (gs : list Gated) (cancelled : nat -> bool) (o : BatchOutcome) : Prop := mkExecuted {
  ex_answers : map block_call (batch_results o) = map (fun g => Some (call (gated_call g))) gs;
  ex_once : flat_map act_calls (batch_acts o) ≡ₚ seq 0 (length gs);
  ex_segments : Forall (act_ok gs) (batch_acts o);
  ex_order : exists k, flat_map act_ran (batch_acts o) = runs_from 0 (take k gs)
                       /\ (k = length gs \/ cancelled k = true)
}.

Lemma execute_executed env gs pending_ o rest :
  execute env gs pending_ = (o, rest) -> executed gs (loop_cancelled env) o.
Proof using.
  unfold execute.
  destruct (execute_loop_progress (length gs) env gs 0 _ (start_progress gs) ltac:(lia)) as (k & Hp & Hk).
  set (s := execute_loop _ _ _ _ _) in *. clearbody s. intros [= <- _].
  set (rs := if _ && _ then _ else _).
  assert (Hs : shape rs = map (fun g => Some (Some (call (gated_call g)))) (take k gs)
                          ++ replicate (length gs - k) None).
  { rewrite <- (progress_shape gs k s Hp). unfold rs. case_if; [apply append_lsp_errors_shape|done]. }
  clearbody rs. destruct Hp as [Hl Hd Ht Ho Hr Hseg Hb].
  rewrite <- (map_map (fun g => Some (call (gated_call g))) Some) in Hs.
  destruct (never_ran_after _ rs 0 _ Hs) as (H1 & H2 & H3). cbn [Nat.add] in *.
  rewrite length_map, length_take_le in H1 by lia. split; cbn [batch_results batch_acts].
  - apply (final_results_calls gs rs k); [|lia]. rewrite Hs. by rewrite map_map.
  - rewrite flat_map_app, Ho. change (imap never_ran rs) with (imap (fun i => never_ran i) rs).
    rewrite H1. rewrite <- seq_app. by replace (k + (length gs - k))%nat with (length gs) by lia.
  - apply Forall_app. split; [done|]. apply H3.
  - exists k. split; [|done]. rewrite flat_map_app. change (imap never_ran rs) with (imap (fun i => never_ran i) rs).
    by rewrite H2, app_nil_r.
Qed.

(** * The gate *)

(** What a gated call that is to run has passed. *)
Record passed_gate (ctx : RunContext) (tools : list Tool) (malformed : list MalformedToolUse)
    (c : ToolCall) (t : Tool) (final : ToolCall) (h : HookOutcome) : Prop := mkAdmitted {
  ad_offered : get_tool tools (name c) = Some t;
  ad_wellformed : List.find (fun bad => teqb (malformed_id bad) (call c)) malformed = None;
  ad_checked : check (input_schema t) (call_input c) = Ok tt;
  ad_hooks : h = pre_tool_use ctx (name c) (call_input c);
  ad_unblocked : blocked h = None;
  ad_final : final = rewritten c h
}.

Lemma gate_runs ctx tools c malformed c' t :
  gate ctx tools c malformed = mkGated c' (VRun t) ->
  exists h, passed_gate ctx tools malformed c t c' h /\ is_allow (call_decision ctx t c' h) = true.
Proof using.
  unfold gate. destruct (List.find _ malformed) eqn:Em; [done|].
  destruct (get_tool tools (name c)) as [t0|] eqn:Et; [|done].
  destruct (check _ _) as [[]|] eqn:Ec; [|done].
  destruct (blocked _) eqn:Eb; [done|].
  destruct (call_decision _ _ _ _) eqn:Ed; try done. intros [= <- <-].
  exists (pre_tool_use ctx (name c) (call_input c)). rewrite Ed. by split.
Qed.

Lemma gate_asks ctx tools c malformed c' t r :
  gate ctx tools c malformed = mkGated c' (VAsk t r) ->
  exists h, passed_gate ctx tools malformed c t c' h
    /\ is_allow (call_decision ctx t c' h) = false /\ is_deny (call_decision ctx t c' h) = false
    /\ request_tool r = name c' /\ input r = call_input c' /\ call_id r = call c'.
Proof using.
  unfold gate. destruct (List.find _ malformed) eqn:Em; [done|].
  destruct (get_tool tools (name c)) as [t0|] eqn:Et; [|done].
  destruct (check _ _) as [[]|] eqn:Ec; [|done].
  destruct (blocked _) eqn:Eb; [done|].
  destruct (call_decision _ _ _ _) eqn:Ed; try done. intros [= <- <- <-].
  exists (pre_tool_use ctx (name c) (call_input c)). rewrite Ed. by split_and!.
Qed.

(** Neither hooks nor reviews lift a denial, and reviews allow nothing. *)
Lemma overrides_keep_denial d o : is_deny d = true -> is_deny (with_override d o) = true.
Proof using. by destruct d, o as [[[] ?]|]. Qed.

Lemma reviews_keep_denial ctx c d : is_deny d = true -> review_call ctx c d = d.
Proof using. by destruct d. Qed.

Lemma call_decision_denial ctx t c h :
  is_deny (scope_decide ctx (tool_name t) (tool_action t (call_input c))) = true ->
  is_deny (call_decision ctx t c h) = true.
Proof using.
  intros H. unfold call_decision. pose proof (overrides_keep_denial _ (permission h) H) as Ho.
  by rewrite reviews_keep_denial.
Qed.

Lemma gate_keeps_call ctx tools c malformed :
  call (gated_call (gate ctx tools c malformed)) = call c.
Proof using.
  unfold gate. repeat case_match; try done; cbn; unfold rewritten; by destruct (updated_input _).
Qed.

(** * Whole batches *)

(** The calls after gating and approvals. *)
Definition gated_calls (ctx : nat -> RunContext) (env : Env) (tools : list Tool) (calls : list ToolCall)
    (malformed : list MalformedToolUse) : list Gated :=
  fst (resolve_approvals env (imap (gate_call ctx env tools malformed) calls)).

Lemma gated_calls_lookup ctx env tools calls malformed i :
  gated_calls ctx env tools calls malformed !! i
  = (fun c => resolve_one env (gate_call ctx env tools malformed i c)) <$> calls !! i.
Proof using.
  unfold gated_calls, resolve_approvals. cbn [fst]. change (map ?f ?l) with (f <$> l).
  rewrite list_lookup_fmap, list_lookup_imap. by destruct (calls !! i).
Qed.

Lemma gated_calls_length ctx env tools calls malformed :
  length (gated_calls ctx env tools calls malformed) = length calls.
Proof using. unfold gated_calls, resolve_approvals. cbn [fst]. by rewrite length_map, length_imap. Qed.

Lemma gated_calls_call ctx env tools calls malformed :
  map (fun g => Some (call (gated_call g))) (gated_calls ctx env tools calls malformed)
  = map (fun c => Some (call c)) calls.
Proof using.
  apply list_eq. intros i. change (map ?f ?l) with (f <$> l). rewrite !list_lookup_fmap, gated_calls_lookup.
  destruct (calls !! i) as [c|]; [|done]. cbn. f_equal. f_equal.
  transitivity (call (gated_call (gate_call ctx env tools malformed i c))).
  - unfold resolve_one. by destruct (verdict _).
  - unfold gate_call. case_if; [done|]. apply gate_keeps_call.
Qed.

Lemma run_batch_executed ctx env tools calls malformed pending_ :
  executed (gated_calls ctx env tools calls malformed) (loop_cancelled env)
    (fst (run_batch ctx env tools calls malformed pending_)).
Proof using.
  unfold run_batch, gated_calls. destruct (resolve_approvals env _) as [gs ids]. cbn [fst].
  destruct (execute env gs pending_) as [o rest] eqn:E.
  destruct (execute_executed env gs pending_ o rest E). by split.
Qed.

Lemma gated_run ctx env tools (calls : list ToolCall) malformed i c t c' :
  calls !! i = Some c ->
  resolve_one env (gate_call ctx env tools malformed i c) = mkGated c' (VRun t) ->
  gate_cancelled env i = false
  /\ exists h, passed_gate (ctx i) tools malformed c t c' h
     /\ is_deny (call_decision (ctx i) t c' h) = false
     /\ (is_allow (call_decision (ctx i) t c' h) = true
         \/ exists r answer, reply env r = Some answer /\ approval_allows answer = true
              /\ request_tool r = name c' /\ input r = call_input c' /\ call_id r = call c').
Proof using.
  intros Hc. unfold resolve_one, gate_call. destruct (gate_cancelled env i); [done|].
  destruct (gate (ctx i) tools c malformed) as [c0 v] eqn:Eg. cbn [verdict gated_call].
  destruct v as [t0|s m|t0 r]; try done.
  - intros [= -> ->]. split; [done|]. destruct (gate_runs _ _ _ _ _ _ Eg) as (h & Ha & Hd).
    exists h. split_and!; [done| |by left]. by destruct (call_decision _ _ _ _).
  - intros [= -> Hv]. split; [done|].
    destruct (reply env r) as [answer|] eqn:Er; [|done].
    assert (Hal : approval_allows answer = true /\ t0 = t).
    { destruct answer; cbn in Hv; try done; by injection Hv. }
    destruct Hal as [Hal ->]. destruct (gate_asks _ _ _ _ _ _ _ Eg) as (h & Ha & _ & Hd & H1 & H2 & H3).
    exists h. split_and!; [done|done|]. right. by exists r, answer.
Qed.

Lemma scope_not_denied ctx t c' h :
  is_deny (call_decision ctx t c' h) = false ->
  is_deny (scope_decide ctx (tool_name t) (tool_action t (call_input c'))) = false.
Proof using.
  intros H. destruct (is_deny (scope_decide _ _ _)) eqn:E; [|done].
  by rewrite (call_decision_denial ctx t c' h E) in H.
Qed.

Lemma not_denied_policy p tool a m :
  is_deny (Pipeline.decide p tool a m) = false ->
  ~ matched p (policy_deny p) tool a /\ (m = MPlan -> mutates a = false).
Proof using.
  intros H. destruct (decide_cases p tool a m) as [[_ ?]|[Hd [(_ & _ & E)|[Hn _]]]].
  - congruence.
  - by rewrite E in H.
  - split; [done|]. intros ->. destruct (mutates a); [exfalso; by apply Hn|done].
Qed.

(** * Properties *)

(** Every call of a batch gets exactly one result, in call order.
    Whatever hooks, policy, user and tools do, and wherever the run is
    cancelled, the results answer the calls one by one, and every call is
    either refused or run, once. *)
Theorem batch_answers_every_call (ctx : nat -> RunContext) (env : Env) (tools : list Tool)
    (calls : list ToolCall) (malformed : list MalformedToolUse) (pending_ : list text) :
  let o := fst (run_batch ctx env tools calls malformed pending_) in
  map block_call (batch_results o) = map (fun c => Some (call c)) calls
  /\ flat_map act_calls (batch_acts o) ≡ₚ seq 0 (length calls).
Proof using.
  intros o. destruct (run_batch_executed ctx env tools calls malformed pending_) as [H1 H2 _ _].
  split; [by rewrite <- (gated_calls_call ctx env tools calls malformed)|].
  by rewrite gated_calls_length in H2.
Qed.

(** The calls to run are run in call order, and only safe neighbours run
    together: each segment is a single call or calls that all declared
    themselves safe, and the segments one after the other list the calls to
    run in order, all of them unless the loop saw the cancellation. *)
Theorem batch_runs_in_order (ctx : nat -> RunContext) (env : Env) (tools : list Tool)
    (calls : list ToolCall) (malformed : list MalformedToolUse) (pending_ : list text) :
  let gs := gated_calls ctx env tools calls malformed in
  let o := fst (run_batch ctx env tools calls malformed pending_) in
  Forall (act_ok gs) (batch_acts o)
  /\ exists k, flat_map act_ran (batch_acts o) = runs_from 0 (take k gs)
               /\ (k = length calls \/ loop_cancelled env k = true).
Proof using.
  intros gs o. destruct (run_batch_executed ctx env tools calls malformed pending_) as [_ _ H3 H4].
  split; [done|]. by rewrite <- (gated_calls_length ctx env tools calls malformed).
Qed.

(** C3: a call that runs passed the whole gate.  Its tool is offered, its
    input is well formed, no hook blocked it, the policy did not deny the
    action of its final input (no deny rule matches it, and it changes nothing
    in plan mode), whatever hooks and reviews said; and either the decision
    was to allow it or the user approved a request that shows this tool and
    this input. *)
Theorem calls_run_only_if_permitted (ctx : nat -> RunContext) (env : Env) (tools : list Tool)
    (calls : list ToolCall) (malformed : list MalformedToolUse) (pending_ : list text)
    (i : nat) (c : ToolCall) :
  In i (flat_map act_ran (batch_acts (fst (run_batch ctx env tools calls malformed pending_)))) ->
  calls !! i = Some c ->
  exists t final h, passed_gate (ctx i) tools malformed c t final h
    /\ is_deny (scope_decide (ctx i) (tool_name t) (tool_action t (call_input final))) = false
    /\ (worktree (ctx i) = None ->
        let p := session_policy_ (ctx i) in
        ~ matched p (policy_deny p) (tool_name t) (tool_action t (call_input final))
        /\ (run_mode (ctx i) = MPlan -> mutates (tool_action t (call_input final)) = false))
    /\ (is_allow (call_decision (ctx i) t final h) = true
        \/ exists r answer, reply env r = Some answer /\ approval_allows answer = true
             /\ request_tool r = name final /\ input r = call_input final /\ call_id r = call final).
Proof using.
  intros Hi Hc. destruct (run_batch_executed ctx env tools calls malformed pending_) as [_ _ _ (k & Hk & _)].
  rewrite Hk in Hi. apply runs_from_spec in Hi as (g & Hg & _ & Hr). rewrite Nat.sub_0_r in Hg.
  apply lookup_take_Some in Hg as [Hg _]. rewrite gated_calls_lookup, Hc in Hg. cbn in Hg.
  injection Hg as Hg. destruct g as [c' v]. unfold is_run in Hr. cbn in Hr. destruct v as [t| |]; try done.
  destruct (gated_run _ _ _ _ _ _ _ _ _ Hc Hg) as (_ & h & Ha & Hd & Hor).
  pose proof (scope_not_denied _ _ _ _ Hd) as Hs.
  exists t, c', h. split_and!; [done|done| |done].
  intros Hw p. unfold scope_decide in Hs. rewrite Hw in Hs. by apply not_denied_policy in Hs.
Qed.
End WithJson.
