(* ===== verification/WellFormed.v ===== *)
(** The repair of a history that providers accept ([wellformed.rs]), and what it keeps. *)

From stdpp Require Import sets.
From S2P Require Export Protocol.

Section WithJson.
Context {J : Json}.

Definition MISSING_RESULT : text := str "interrupted: no result was recorded for this call".

(** One message of [merge_adjacent_roles]. *)
Definition merge_step (merged : list Message) (m : Message) : list Message :=
  if is_empty (content m) then merged
  else match last merged with
       | Some previous =>
           if bool_decide (role previous = role m)
           then removelast merged ++ [set_content previous (content previous ++ content m)]
           else merged ++ [m]
       | None => merged ++ [m]
       end.

Definition merge_adjacent_roles (messages : list Message) : list Message := foldl merge_step [] messages.

(** The results that answer one of [calls], the first for each, and the
    blocks that are no results. *)
Fixpoint split_results (calls seen : list id) (blocks : list ContentBlock)
  : list ContentBlock * list ContentBlock :=
  match blocks with
  | [] => ([], [])
  | b :: bs =>
      match result_of b with
      | Some i =>
          if mem i calls && negb (mem i seen)
          then let '(results, rest) := split_results calls (i :: seen) bs in (b :: results, rest)
          else split_results calls seen bs
      | None => let '(results, rest) := split_results calls seen bs in (results, b :: rest)
      end
  end.

Definition answers_call (i : id) (b : ContentBlock) : bool :=
  match result_of b with Some j => teqb j i | None => false end.

(** [Vec::swap_remove]: the last element takes the place of the removed
    one. *)
Definition swap_remove {A} (n : nat) (l : list A) : list A :=
  match last l with
  | Some z => if Nat.eqb (S n) (length l) then removelast l else <[n := z]> (removelast l)
  | None => l
  end.

Fixpoint position {A} (f : A -> bool) (l : list A) : option nat :=
  match l with
  | [] => None
  | x :: l => if f x then Some O else S <$> position f l
  end.

(** One result per call, in call order. *)
Fixpoint order_results (calls : list id) (results : list ContentBlock) : list ContentBlock :=
  match calls with
  | [] => []
  | c :: calls =>
      match position (answers_call c) results ≫= fun n => (fun b => (n, b)) <$> results !! n with
      | Some (n, b) => b :: order_results calls (swap_remove n results)
      | None => tool_result c MISSING_RESULT true :: order_results calls results
      end
  end.

Definition answer_exactly (calls : list id) (m : Message) : Message :=
  let '(results, rest) := split_results calls [] (content m) in
  if Nat.eqb (length results) (length calls) && is_empty rest then set_content m results
  else set_content m (order_results calls results ++ rest).

Definition calls_of (m : Message) : list id := map (fun u => fst (fst u)) (tool_uses m).

Definition is_user (m : Message) : bool := bool_decide (role m = User).

(** One round of the loop, at [index]; [stamp] is what a message made there
    takes from the machine. *)
Definition answer_step (stamp : nat -> id * N) (index : nat) (merged : list Message) : list Message :=
  match merged !! index with
  | Some m =>
      if is_user m then merged
      else
        let calls := calls_of m in
        let answered := match merged !! S index with Some n => is_user n | None => false end in
        let merged :=
          if negb (is_empty calls) && negb answered
          then take (S index) merged ++ [new_message (stamp index) User []] ++ drop (S index) merged
          else merged in
        alter (answer_exactly calls) (S index) merged
  | None => merged
  end.

Fixpoint answer_loop (fuel : nat) (stamp : nat -> id * N) (index : nat) (merged : list Message)
  : list Message :=
  match fuel with
  | O => merged
  | S fuel =>
      if Nat.ltb index (length merged)
      then answer_loop fuel stamp (S index) (answer_step stamp index merged)
      else merged
  end.

(** The first message, when the user's, answers no call. *)
Definition clean_first (merged : list Message) : list Message :=
  match merged with
  | first :: rest => (if is_user first then answer_exactly [] first else first) :: rest
  | [] => []
  end.

(** A round adds at most one message, and none after a user message, so the
    loop ends within two rounds for each message it starts with. *)
Definition well_formed (stamp : nat -> id * N) (messages : list Message) : list Message :=
  let merged := clean_first (merge_adjacent_roles messages) in
  merge_adjacent_roles (answer_loop (2 * length merged) stamp 0 merged).

End WithJson.

Section WithJson.
Context {J : Json}.

(** * Lists *)

Lemma mem_elem (i : id) l : mem i l = true <-> i ∈ l.
Proof using. by rewrite mem_spec, list_elem_of_In. Qed.

Lemma swap_remove_perm {A} (l : list A) n x : l !! n = Some x -> l ≡ₚ x :: swap_remove n l.
Proof using.
  intros H. unfold swap_remove. destruct l as [|z l _] using rev_ind; [done|].
  rewrite last_snoc, removelast_last, length_app, Nat.add_1_r.
  destruct (Nat.eqb_spec (S n) (S (length l))) as [E|E].
  - rewrite lookup_app_r in H by lia. replace (n - length l)%nat with 0%nat in H by lia.
    simplify_eq/=. apply Permutation_app_comm.
  - pose proof (lookup_lt_Some _ _ _ H) as Hlt. rewrite length_app in Hlt. cbn in Hlt.
    rewrite lookup_app_l in H by lia.
    rewrite <- (take_drop_middle l n x) at 1 by done. rewrite insert_take_drop by lia.
    rewrite (Permutation_app_comm _ [z]), !app_comm_cons. cbn. solve_Permutation.
Qed.

Lemma sublist_same_length {A} (l k : list A) : l `sublist_of` k -> length k = length l -> l = k.
Proof using.
  induction 1 as [|x l k Hs IH|x l k Hs IH]; cbn; intros E; [done| |].
  - f_equal. apply IH. lia.
  - apply sublist_length in Hs. lia.
Qed.

Lemma position_lookup {A} (f : A -> bool) l n : position f l = Some n -> exists x, l !! n = Some x /\ f x = true.
Proof using.
  revert n. induction l as [|x l IH]; intros n; cbn; [done|]. destruct (f x) eqn:E.
  - intros [= <-]. eauto.
  - destruct (position f l) as [k|]; [|done]. intros [= <-]. by apply IH.
Qed.

Lemma position_none {A} (f : A -> bool) l : position f l = None -> Forall (fun x => f x = false) l.
Proof using.
  induction l as [|x l IH]; cbn; [done|]. destruct (f x) eqn:E; [done|].
  destruct (position f l); [done|]. intros _. constructor; auto.
Qed.

(** * Results and the other blocks of a message *)

Definition results_in (bs : list ContentBlock) : list id := omap result_of bs.
Definition others (bs : list ContentBlock) : list ContentBlock := List.filter (fun b => negb (is_result b)) bs.

Lemma result_of_is_result b : is_result b = match result_of b with Some _ => true | None => false end.
Proof using. by destruct b. Qed.

Lemma others_app a b : others (a ++ b) = others a ++ others b.
Proof using. apply List.filter_app. Qed.

Lemma answers_call_result i b : answers_call i b = true <-> result_of b = Some i.
Proof using.
  unfold answers_call. destruct (result_of b) as [j|]; [|done]. rewrite teqb_eq. split; congruence.
Qed.

(** [split_results] keeps the first result of each call, and the others. *)
Lemma split_results_others calls seen bs : snd (split_results calls seen bs) = others bs.
Proof using.
  revert seen. induction bs as [|b bs IH]; intros seen; [done|]. cbn.
  rewrite result_of_is_result. destruct (result_of b) as [i|]; cbn.
  - destruct (mem i calls && negb (mem i seen)); [|apply IH].
    specialize (IH (i :: seen)). by destruct (split_results calls (i :: seen) bs).
  - specialize (IH seen). destruct (split_results calls seen bs). cbn in *. by rewrite IH.
Qed.

Lemma split_results_sublist calls seen bs : fst (split_results calls seen bs) `sublist_of` bs.
Proof using.
  revert seen. induction bs as [|b bs IH]; intros seen; [done|]. cbn.
  destruct (result_of b) as [i|].
  - destruct (mem i calls && negb (mem i seen)); [|by constructor].
    specialize (IH (i :: seen)). destruct (split_results calls (i :: seen) bs). by constructor.
  - specialize (IH seen). destruct (split_results calls seen bs). by constructor.
Qed.

(** The results of a list that the first pass keeps. *)
Definition first_results (calls seen : list id) (bs : list ContentBlock) : Prop :=
  Forall (fun b => exists i, result_of b = Some i /\ i ∈ calls /\ i ∉ seen) bs /\ NoDup (results_in bs).

Lemma first_results_cons calls seen b i bs :
  result_of b = Some i -> i ∈ calls -> i ∉ seen ->
  first_results calls (i :: seen) bs -> first_results calls seen (b :: bs).
Proof using.
  intros Hb Hc Hs [Hf Hn]. split.
  - constructor; [eauto|]. eapply Forall_impl; [exact Hf|]. intros x (j & ? & ? & [? ?]%not_elem_of_cons). eauto.
  - unfold results_in. cbn. rewrite Hb. constructor; [|done].
    intros (x & Hx & E)%list_elem_of_omap. rewrite Forall_forall in Hf.
    destruct (Hf x Hx) as (j & ? & ? & ?). set_solver.
Qed.

Lemma split_results_first calls seen bs : first_results calls seen (fst (split_results calls seen bs)).
Proof using.
  revert seen. induction bs as [|b bs IH]; intros seen; cbn; [by split; constructor|].
  destruct (result_of b) as [i|] eqn:E.
  - destruct (mem i calls && negb (mem i seen)) eqn:Em; [|apply IH].
    apply andb_true_iff in Em as [Hc Hs]. apply mem_elem in Hc.
    assert (i ∉ seen) by (intros Hi%mem_elem; by rewrite Hi in Hs).
    specialize (IH (i :: seen)). destruct (split_results calls (i :: seen) bs). cbn in *.
    by eapply first_results_cons.
  - specialize (IH seen). by destruct (split_results calls seen bs).
Qed.

Lemma split_results_complete calls seen bs i b :
  i ∈ calls -> i ∉ seen -> List.find (answers_call i) bs = Some b ->
  List.find (answers_call i) (fst (split_results calls seen bs)) = Some b.
Proof using.
  intros Hc. revert seen. induction bs as [|x bs IH]; intros seen Hs; cbn; [done|].
  unfold answers_call at 1. destruct (result_of x) as [j|] eqn:E; cbn.
  - destruct (teqb_spec j i) as [->|Hne].
    + intros [= <-]. rewrite (proj2 (mem_elem i calls) Hc).
      destruct (mem i seen) eqn:Em; [by apply mem_elem in Em|]. cbn.
      destruct (split_results calls (i :: seen) bs). cbn. unfold answers_call at 1. by rewrite E, teqb_refl.
    + intros H. destruct (mem j calls && negb (mem j seen)); [|by apply IH].
      assert (Hj : i ∉ j :: seen) by (apply not_elem_of_cons; split; congruence || done).
      specialize (IH (j :: seen) Hj H). destruct (split_results calls (j :: seen) bs). cbn in *.
      unfold answers_call at 1. rewrite E. by destruct (teqb_spec j i).
  - intros H. specialize (IH seen Hs H). by destruct (split_results calls seen bs).
Qed.

(** On results it would keep anyway the pass changes nothing. *)
Lemma split_results_fixed calls seen bs tail :
  first_results calls seen bs -> Forall (fun b => is_result b = false) tail ->
  split_results calls seen (bs ++ tail) = (bs, tail).
Proof using.
  intros Hf Ht. revert seen Hf. induction bs as [|b bs IH]; intros seen [Hf Hn]; cbn.
  - induction Ht as [|b tail Hb Ht IHt]; cbn; [done|]. rewrite result_of_is_result in Hb.
    destruct (result_of b); [done|]. by rewrite IHt.
  - apply Forall_cons in Hf as [(i & Hb & Hc & Hs) Hf]. rewrite Hb.
    unfold results_in in Hn. cbn in Hn. rewrite Hb in Hn. apply NoDup_cons in Hn as [Hi Hn].
    rewrite (proj2 (mem_elem i calls) Hc). destruct (mem i seen) eqn:Em; [by apply mem_elem in Em|]. cbn.
    rewrite IH; [done|]. split; [|done]. apply Forall_forall. intros x Hx.
    rewrite Forall_forall in Hf. destruct (Hf x Hx) as (j & Hj & ? & ?). exists j. split_and!; [done|done|].
    apply not_elem_of_cons. split; [|done]. intros ->. apply Hi. apply list_elem_of_omap. eauto.
Qed.

(** * One result per call *)

(** What the results say, call by call. *)
Definition represents (f : id -> option ContentBlock) (results : list ContentBlock) : Prop :=
  NoDup (results_in results) /\ forall i b, f i = Some b <-> b ∈ results /\ result_of b = Some i.

Definition without (c : id) (f : id -> option ContentBlock) (i : id) : option ContentBlock :=
  if teqb i c then None else f i.

Definition missing (c : id) : ContentBlock := tool_result c MISSING_RESULT true.

Fixpoint order_by (calls : list id) (f : id -> option ContentBlock) : list ContentBlock :=
  match calls with
  | [] => []
  | c :: calls => default (missing c) (f c) :: order_by calls (without c f)
  end.

Lemma NoDup_results_unique results b b' i :
  NoDup (results_in results) -> b ∈ results -> b' ∈ results ->
  result_of b = Some i -> result_of b' = Some i -> b = b'.
Proof using.
  unfold results_in. induction results as [|x l IH]; [by intros _ ?%not_elem_of_nil|].
  cbn. intros Hn [->|Hb]%elem_of_cons [->|Hb']%elem_of_cons E E'; [done| | |].
  - rewrite E in Hn. apply NoDup_cons in Hn as [Hn _]. exfalso. apply Hn, list_elem_of_omap. eauto.
  - rewrite E' in Hn. apply NoDup_cons in Hn as [Hn _]. exfalso. apply Hn, list_elem_of_omap. eauto.
  - apply IH; [|done..]. destruct (result_of x); [by apply NoDup_cons in Hn as [_ ?]|done].
Qed.

Lemma represents_swap_remove f results n b c :
  represents f results -> results !! n = Some b -> result_of b = Some c ->
  represents (without c f) (swap_remove n results).
Proof using.
  intros [Hn Hf] Hb Hc. pose proof (swap_remove_perm _ _ _ Hb) as Hp.
  unfold represents, results_in in *. rewrite (omap_Permutation _ _ _ Hp) in Hn. cbn in Hn. rewrite Hc in Hn.
  apply NoDup_cons in Hn as [Hn Hn']. split; [done|]. intros i x. unfold without.
  assert (Hx : x ∈ swap_remove n results -> result_of x <> Some c).
  { intros Hx E. apply Hn, list_elem_of_omap. eauto. }
  destruct (teqb_spec i c) as [->|Hne].
  - split; [done|]. intros [Hin E]. by destruct (Hx Hin).
  - rewrite Hf. assert (Hi : x ∈ results <-> x = b \/ x ∈ swap_remove n results).
    { rewrite <- elem_of_cons. by split; apply elem_of_Permutation_proper. }
    rewrite Hi. split; [|intros [? ?]; split; [by right|done]].
    intros [[->|?] E]; [congruence|done].
Qed.

Lemma represents_none f results c :
  represents f results -> position (answers_call c) results = None -> f c = None.
Proof using.
  intros [_ Hf] Hp%position_none. destruct (f c) as [b|] eqn:E; [|done].
  apply Hf in E as [Hb Hc]. rewrite Forall_forall in Hp. specialize (Hp b Hb).
  apply answers_call_result in Hc. congruence.
Qed.

Lemma order_by_ext calls f g :
  (forall i, i ∈ calls -> default (missing i) (f i) = default (missing i) (g i)) ->
  order_by calls f = order_by calls g.
Proof using.
  revert f g. induction calls as [|c calls IH]; intros f g H; cbn; [done|]. f_equal.
  - apply H. left.
  - apply IH. intros i Hi. unfold without. destruct (teqb i c); [done|]. apply H. by right.
Qed.

Lemma order_results_by calls f results :
  represents f results -> order_results calls results = order_by calls f.
Proof using.
  revert f results. induction calls as [|c calls IH]; intros f results Hr; cbn; [done|].
  destruct (position (answers_call c) results) as [n|] eqn:E; cbn.
  - destruct (position_lookup _ _ _ E) as (b & Hb & Hc%answers_call_result). rewrite Hb. cbn.
    rewrite (proj2 (proj2 Hr c b)) by (split; [by eapply list_elem_of_lookup_2|done]). cbn. f_equal.
    apply IH. by eapply represents_swap_remove.
  - rewrite (represents_none _ _ _ Hr E). cbn. f_equal. apply IH. destruct Hr as [Hn Hf]. split; [done|].
    intros i b. unfold without. destruct (teqb_spec i c) as [->|]; [|done].
    rewrite <- Hf, (represents_none f results c) by done. done.
Qed.

(** The results a list represents. *)
Definition find_result (results : list ContentBlock) (i : id) : option ContentBlock :=
  List.find (answers_call i) results.

Lemma find_represents results : NoDup (results_in results) -> represents (find_result results) results.
Proof using.
  intros Hn. split; [done|]. intros i b. unfold find_result. split.
  - intros [Hin%list_elem_of_In Hb%answers_call_result]%find_some. done.
  - intros [Hin Hb]. destruct (List.find (answers_call i) results) as [b'|] eqn:E.
    + apply find_some in E as [Hin'%list_elem_of_In Hb'%answers_call_result]. f_equal. by eapply NoDup_results_unique.
    + apply list_elem_of_In in Hin. eapply find_none in E; [|done]. apply answers_call_result in Hb. congruence.
Qed.

Lemma find_result_of bs i b : find_result bs i = Some b -> result_of b = Some i.
Proof using. by intros [_ ?%answers_call_result]%find_some. Qed.

Definition labelled (f : id -> option ContentBlock) : Prop := forall i b, f i = Some b -> result_of b = Some i.

Lemma labelled_without c f : labelled f -> labelled (without c f).
Proof using. intros H i b. unfold without. destruct (teqb i c); [done|]. apply H. Qed.

Lemma labelled_default f i : labelled f -> result_of (default (missing i) (f i)) = Some i.
Proof using. intros H. destruct (f i) eqn:E; [by apply H|done]. Qed.

Lemma order_by_results calls f : labelled f -> results_in (order_by calls f) = calls.
Proof using.
  revert f. induction calls as [|c calls IH]; intros f Hf; cbn; [done|].
  unfold results_in. cbn. rewrite labelled_default by done. f_equal. apply IH, labelled_without, Hf.
Qed.

Lemma find_order_by calls f i :
  labelled f -> i ∈ calls -> find_result (order_by calls f) i = Some (default (missing i) (f i)).
Proof using.
  revert f. induction calls as [|c calls IH]; intros f Hf Hi; [by apply not_elem_of_nil in Hi|].
  unfold find_result. cbn. unfold answers_call at 1. rewrite labelled_default by done.
  rewrite teqb_sym. destruct (teqb_spec i c) as [->|Hne]; [done|].
  apply elem_of_cons in Hi as [->|Hi]; [done|].
  change (find_result (order_by calls (without c f)) i = Some (default (missing i) (f i))).
  rewrite IH by (done || by apply labelled_without). unfold without.
  by destruct (teqb_spec i c).
Qed.

Lemma order_by_is_result calls f : labelled f -> Forall (fun b => is_result b = true) (order_by calls f).
Proof using.
  revert f. induction calls as [|c calls IH]; intros f Hf; cbn; constructor.
  - by rewrite result_of_is_result, labelled_default.
  - apply IH, labelled_without, Hf.
Qed.

(** * Answering a message *)

Definition answers (calls : list id) (m : Message) : Prop := answer_exactly calls m = m.

Lemma results_in_length bs :
  Forall (fun b => is_result b = true) bs -> length (results_in bs) = length bs.
Proof using.
  unfold results_in. induction 1 as [|b bs Hb _ IH]; cbn; [done|]. rewrite result_of_is_result in Hb.
  destruct (result_of b); [|done]. cbn. by rewrite IH.
Qed.

Lemma NoDup_same_length (l k : list id) : NoDup l -> l ⊆ k -> length l = length k -> l ≡ₚ k.
Proof using.
  intros Hn Hs Hl. apply submseteq_length_Permutation; [|by rewrite Hl]. by apply NoDup_submseteq.
Qed.

Lemma first_results_subset calls bs : first_results calls [] bs -> results_in bs ⊆ calls.
Proof using.
  intros [Hf _] i (b & Hb & E)%list_elem_of_omap. rewrite Forall_forall in Hf.
  destruct (Hf b Hb) as (j & ? & ? & _). congruence.
Qed.

Lemma first_results_is_result calls bs : first_results calls [] bs -> Forall (fun b => is_result b = true) bs.
Proof using.
  intros [Hf _]. eapply Forall_impl; [exact Hf|]. intros b (i & Hi & _). by rewrite result_of_is_result, Hi.
Qed.

Lemma first_results_length calls bs :
  first_results calls [] bs -> length (results_in bs) = length bs.
Proof using. intros H. by eapply results_in_length, first_results_is_result. Qed.

Lemma others_results bs : Forall (fun b => is_result b = true) bs -> others bs = [].
Proof using. induction 1 as [|b bs Hb Hf IH]; [done|]. unfold others in *. cbn. by rewrite Hb. Qed.

Lemma first_results_others calls bs : first_results calls [] bs -> others bs = [].
Proof using.
  intros H. by eapply others_results, first_results_is_result.
Qed.

Lemma others_idem bs : Forall (fun b => is_result b = false) (others bs).
Proof using.
  apply Forall_forall. intros b Hb%list_elem_of_In. apply filter_In in Hb as [_ Hb].
  by apply negb_true_iff.
Qed.

Lemma results_in_others bs : Forall (fun b => is_result b = false) bs -> results_in bs = [].
Proof using.
  induction 1 as [|b bs Hb Hf IH]; [done|]. rewrite result_of_is_result in Hb.
  unfold results_in in *. cbn. by destruct (result_of b).
Qed.

Lemma others_fixed bs : Forall (fun b => is_result b = false) bs -> others bs = bs.
Proof using.
  induction 1 as [|b bs Hb Hf IH]; [done|]. unfold others in *. cbn. rewrite Hb. cbn. by rewrite IH.
Qed.

(** The two ways a message is answered: its results stand as they are, or one
    result per call is put in front of the other blocks. *)
Lemma answer_exactly_cases calls m :
  let '(results, rest) := split_results calls [] (content m) in
  (rest = [] /\ results_in results ≡ₚ calls /\ answer_exactly calls m = set_content m results)
  \/ ((length results <> length calls \/ rest <> [])
      /\ answer_exactly calls m
         = set_content m (order_by calls (find_result results) ++ rest)).
Proof using.
  pose proof (split_results_first calls [] (content m)) as Hf. unfold answer_exactly.
  destruct (split_results calls [] (content m)) as [results rest]. cbn in Hf.
  destruct (Nat.eqb_spec (length results) (length calls)) as [E|E]; cbn;
    [destruct rest as [|b rest]; cbn|].
  - left. split_and!; [done| |done]. apply NoDup_same_length; [apply Hf|by apply first_results_subset|].
    by rewrite first_results_length with (calls := calls).
  - right. split; [by right|]. by rewrite (order_results_by _ _ _ (find_represents _ (proj2 Hf))).
  - right. split; [by left|]. by rewrite (order_results_by _ _ _ (find_represents _ (proj2 Hf))).
Qed.

Lemma find_labelled bs : labelled (find_result bs).
Proof using. intros i b. apply find_result_of. Qed.

Lemma answer_exactly_role calls m : role (answer_exactly calls m) = role m.
Proof using.
  unfold answer_exactly. destruct (split_results _ _ _). by destruct (_ && _).
Qed.

Lemma answer_exactly_user calls m : is_user (answer_exactly calls m) = is_user m.
Proof using. unfold is_user. by rewrite answer_exactly_role. Qed.

Lemma answer_exactly_others calls m : others (content (answer_exactly calls m)) = others (content m).
Proof using.
  pose proof (answer_exactly_cases calls m) as Hc. pose proof (split_results_others calls [] (content m)) as Ho.
  pose proof (split_results_first calls [] (content m)) as Hf.
  destruct (split_results calls [] (content m)) as [results rest]. cbn in *. subst rest.
  destruct Hc as [(E & _ & ->)|(_ & ->)]; cbn.
  - by rewrite E, (first_results_others calls).
  - rewrite others_app, (others_results (order_by _ _)) by (apply order_by_is_result, find_labelled).
    apply others_fixed, others_idem.
Qed.

Lemma answer_exactly_results calls m : results_in (content (answer_exactly calls m)) ≡ₚ calls.
Proof using.
  pose proof (answer_exactly_cases calls m) as Hc. pose proof (split_results_others calls [] (content m)) as Ho.
  destruct (split_results calls [] (content m)) as [results rest]. cbn in *. subst rest.
  destruct Hc as [(_ & E & ->)|(_ & ->)]; cbn; [done|].
  unfold results_in. rewrite omap_app.
  change (results_in (order_by calls (find_result results)) ++ results_in (others (content m)) ≡ₚ calls).
  rewrite order_by_results, results_in_others by (apply others_idem || apply find_labelled).
  by rewrite app_nil_r.
Qed.

Definition results_first (m : Message) : Prop :=
  content m = List.filter is_result (content m) ++ others (content m).

Lemma filter_result_id bs : Forall (fun b => is_result b = true) bs -> List.filter is_result bs = bs.
Proof using. induction 1 as [|b bs Hb _ IH]; cbn; [done|]. by rewrite Hb, IH. Qed.

Lemma filter_result_nil bs : Forall (fun b => is_result b = false) bs -> List.filter is_result bs = [].
Proof using. induction 1 as [|b bs Hb _ IH]; cbn; [done|]. by rewrite Hb, IH. Qed.

Lemma answer_exactly_results_first calls m : results_first (answer_exactly calls m).
Proof using.
  unfold results_first. rewrite answer_exactly_others.
  pose proof (answer_exactly_cases calls m) as Hc. pose proof (split_results_others calls [] (content m)) as Ho.
  pose proof (split_results_first calls [] (content m)) as Hf.
  destruct (split_results calls [] (content m)) as [results rest]. cbn in *. subst rest.
  destruct Hc as [(E & _ & ->)|(_ & ->)]; cbn.
  - rewrite E, app_nil_r. symmetry. apply filter_result_id. by eapply first_results_is_result.
  - rewrite List.filter_app, filter_result_id, (filter_result_nil (others _)), app_nil_r;
      [done|apply others_idem|apply order_by_is_result, find_labelled].
Qed.

Lemma find_result_app a b i x : find_result a i = Some x -> find_result (a ++ b) i = Some x.
Proof using.
  unfold find_result. induction a as [|y a IH]; cbn; [done|]. by destruct (answers_call i y).
Qed.

Lemma set_content_same m : set_content m (content m) = m.
Proof using. by destruct m. Qed.

Lemma set_content_twice m a b : set_content (set_content m a) b = set_content m b.
Proof using. done. Qed.

(** Answering what the ordering has put together changes nothing. *)
Lemma ordered_answers calls f m rest :
  labelled f -> Forall (fun b => is_result b = false) rest ->
  answers calls (set_content m (order_by calls f ++ rest)).
Proof using.
  intros Hf Hr. unfold answers. set (X := order_by calls f).
  assert (HX : Forall (fun b => is_result b = true) X) by by apply order_by_is_result.
  pose proof (answer_exactly_cases calls (set_content m (X ++ rest))) as Hc. cbn in Hc.
  pose proof (split_results_others calls [] (X ++ rest)) as Ho.
  pose proof (split_results_sublist calls [] (X ++ rest)) as Hs.
  assert (Hfind : forall i, i ∈ calls ->
    find_result (fst (split_results calls [] (X ++ rest))) i = Some (default (missing i) (f i))).
  { intros i Hi. apply split_results_complete; [done|by apply not_elem_of_nil|].
    by apply find_result_app, find_order_by. }
  pose proof (split_results_first calls [] (X ++ rest)) as Hfirst.
  destruct (split_results calls [] (X ++ rest)) as [results rest']. cbn [fst snd] in Ho, Hs, Hfind, Hfirst. subst rest'.
  rewrite others_app, (others_results X), app_nil_l, others_fixed in Hc by done.
  destruct Hc as [(-> & Hp & ->)|(_ & ->)]; rewrite set_content_twice; f_equal.
  - rewrite app_nil_r in *. apply sublist_same_length; [done|].
    rewrite <- (first_results_length calls results), Hp by done.
    rewrite <- (results_in_length X HX). unfold X. by rewrite order_by_results.
  - f_equal. apply order_by_ext. intros i Hi. by rewrite (Hfind i Hi).
Qed.

Lemma answer_exactly_answers calls m : answers calls (answer_exactly calls m).
Proof using.
  pose proof (answer_exactly_cases calls m) as Hc. pose proof (split_results_others calls [] (content m)) as Ho.
  pose proof (split_results_first calls [] (content m)) as Hf.
  destruct (split_results calls [] (content m)) as [results rest] eqn:E. cbn in *.
  destruct Hc as [(-> & Hp & ->)|(_ & ->)].
  - unfold answers, answer_exactly. cbn.
    rewrite <- (app_nil_r results), (split_results_fixed calls [] results []), app_nil_r by (done || constructor).
    apply Permutation_length in Hp. rewrite (first_results_length _ _ Hf) in Hp. by rewrite Hp, Nat.eqb_refl.
  - apply ordered_answers; [apply find_labelled|]. rewrite Ho. apply others_idem.
Qed.

Lemma answers_results calls m : answers calls m -> results_in (content m) ≡ₚ calls.
Proof using. intros H. rewrite <- H. apply answer_exactly_results. Qed.

Lemma answers_results_first calls m : answers calls m -> results_first m.
Proof using. intros H. rewrite <- H. apply answer_exactly_results_first. Qed.

(** A message without results answers no calls. *)
Lemma answers_nothing m : results_in (content m) = [] -> answers [] m.
Proof using.
  intros H. unfold answers, answer_exactly.
  assert (Hn : forall bs, results_in bs = [] -> split_results [] [] bs = ([], bs)).
  { induction bs as [|b bs IH]; [done|]. unfold results_in. cbn. destruct (result_of b); [done|].
    intros E. by rewrite IH. }
  rewrite Hn by done. cbn. destruct (is_empty (content m)) eqn:E; cbn; [|apply set_content_same].
  destruct (content m) eqn:Em; [|done]. rewrite <- Em. apply set_content_same.
Qed.

(** * Merging *)

Definition unlike (p : option Message) (m : Message) : Prop :=
  match p with Some p => role p <> role m | None => True end.

(** Neighbours have different roles. *)
Fixpoint alternates (prev : option Message) (ms : list Message) : Prop :=
  match ms with
  | [] => True
  | m :: ms => unlike prev m /\ alternates (Some m) ms
  end.

Definition last_or (prev : option Message) (ms : list Message) : option Message :=
  match last ms with Some m => Some m | None => prev end.

Lemma last_or_cons prev m ms : last_or prev (m :: ms) = last_or (Some m) ms.
Proof using. unfold last_or. rewrite last_cons. by destruct (last ms). Qed.

Lemma alternates_app prev a b : alternates prev (a ++ b) <-> alternates prev a /\ alternates (last_or prev a) b.
Proof using.
  revert prev. induction a as [|m a IH]; intros prev; cbn [alternates app].
  - unfold last_or. cbn. tauto.
  - rewrite IH, last_or_cons. tauto.
Qed.

Definition filled (m : Message) : Prop := content m <> [].

Lemma is_empty_content m : is_empty (content m) = false <-> filled m.
Proof using. unfold filled. destruct (content m); cbn; split; congruence. Qed.

(** The case analysis of one merge. *)
Lemma merge_step_cases merged m :
  (content m = [] /\ merge_step merged m = merged)
  \/ (filled m /\ exists front p, merged = front ++ [p] /\ role p = role m
        /\ merge_step merged m = front ++ [set_content p (content p ++ content m)])
  \/ (filled m /\ unlike (last merged) m /\ merge_step merged m = merged ++ [m]).
Proof using.
  unfold merge_step. destruct (content m) as [|b bs] eqn:E; cbn [is_empty]; [by left|].
  assert (filled m) by (unfold filled; congruence). right.
  destruct merged as [|p front _] using rev_ind; [by right|].
  rewrite last_snoc, removelast_last. case_bool_decide as Hr.
  - left. split; [done|]. by exists front, p.
  - right. done.
Qed.

Definition tidy (ms : list Message) : Prop := Forall filled ms /\ alternates None ms.

Lemma filled_extended p bs : filled p -> filled (set_content p (content p ++ bs)).
Proof using. unfold filled. cbn. destruct (content p); [done|]. done. Qed.

Lemma merge_step_tidy merged m : tidy merged -> tidy (merge_step merged m).
Proof using.
  intros [Hf Ha].
  destruct (merge_step_cases merged m) as [(_ & ->)|[(Hm & front & p & -> & Hr & ->)|(Hm & Hu & ->)]]; [done|split..].
  - apply Forall_app in Hf as [? [? _]%Forall_cons]. apply Forall_app. split; [done|]. repeat constructor.
    by apply filled_extended.
  - apply alternates_app in Ha as [? Ha]. apply alternates_app. split; [done|].
    destruct Ha as [Ha _]. by split.
  - apply Forall_app. split; [done|]. by repeat constructor.
  - apply alternates_app. split; [done|]. cbn. split; [|done]. unfold last_or. by destruct (last merged).
Qed.

Lemma merge_snoc ms m : merge_adjacent_roles (ms ++ [m]) = merge_step (merge_adjacent_roles ms) m.
Proof using. apply foldl_snoc. Qed.

Lemma merge_tidy ms : tidy (merge_adjacent_roles ms).
Proof using.
  induction ms as [|m ms IH] using rev_ind; [by split|]. rewrite merge_snoc. by apply merge_step_tidy.
Qed.

Lemma tidy_merged ms : tidy ms -> merge_adjacent_roles ms = ms.
Proof using.
  induction ms as [|m ms IH] using rev_ind; [done|]. intros [[Hf Hm]%Forall_app [Ha [Hu _]]%alternates_app].
  rewrite merge_snoc, IH by done. apply Forall_inv in Hm.
  destruct (merge_step_cases ms m) as [(E & _)|[(_ & front & p & -> & Hr & _)|(_ & _ & ->)]]; [by destruct (Hm E)| |done].
  unfold last_or in Hu. rewrite last_snoc in Hu. cbn in Hu. congruence.
Qed.

(** What is kept of a history, role by role: everything but the results in
    user messages. *)
Definition kept_blocks (m : Message) : list (Role * ContentBlock) :=
  map (pair (role m)) (if is_user m then others (content m) else content m).
Definition kept (ms : list Message) : list (Role * ContentBlock) := flat_map kept_blocks ms.

Lemma kept_app a b : kept (a ++ b) = kept a ++ kept b.
Proof using. apply flat_map_app. Qed.

Lemma kept_extended p m :
  role p = role m -> kept_blocks (set_content p (content p ++ content m)) = kept_blocks p ++ kept_blocks m.
Proof using.
  intros E. unfold kept_blocks, is_user. cbn. rewrite E, <- map_app.
  case_bool_decide; [by rewrite others_app|done].
Qed.

Lemma merge_kept ms : kept (merge_adjacent_roles ms) = kept ms.
Proof using.
  induction ms as [|m ms IH] using rev_ind; [done|]. rewrite merge_snoc, kept_app, <- IH.
  destruct (merge_step_cases (merge_adjacent_roles ms) m)
    as [(E & ->)|[(_ & front & p & -> & Hr & ->)|(_ & _ & ->)]].
  - unfold kept at 3. cbn. unfold kept_blocks. rewrite E. cbn. destruct (is_user m); by rewrite !app_nil_r.
  - rewrite !kept_app, <- app_assoc. f_equal. unfold kept. cbn. rewrite !app_nil_r. by apply kept_extended.
  - by rewrite kept_app.
Qed.

(** The blocks of a history. *)
Definition blocks (ms : list Message) : list ContentBlock := flat_map content ms.

Lemma blocks_app a b : blocks (a ++ b) = blocks a ++ blocks b.
Proof using. apply flat_map_app. Qed.

Lemma merge_blocks ms : blocks (merge_adjacent_roles ms) = blocks ms.
Proof using.
  induction ms as [|m ms IH] using rev_ind; [done|]. rewrite merge_snoc, blocks_app, <- IH.
  destruct (merge_step_cases (merge_adjacent_roles ms) m)
    as [(E & ->)|[(_ & front & p & -> & Hr & ->)|(_ & _ & ->)]].
  - unfold blocks at 3. cbn. by rewrite E, !app_nil_r.
  - rewrite !blocks_app, <- app_assoc. f_equal. unfold blocks. cbn. by rewrite !app_nil_r.
  - by rewrite blocks_app.
Qed.

(** * Calls and answers along a history *)

(** From pending calls [prev] to pending calls [q]: a user message answers
    the calls before it, an assistant message finds none and makes its own. *)
Fixpoint leads_by (A : list id -> Message -> Prop) (prev : list id) (ms : list Message) (q : list id) : Prop :=
  match ms with
  | [] => prev = q
  | m :: ms =>
      if is_user m then A prev m /\ leads_by A [] ms q
      else prev = [] /\ leads_by A (calls_of m) ms q
  end.

Abbreviation leads := (leads_by answers).

Lemma leads_app A prev a b q :
  leads_by A prev (a ++ b) q <-> exists r, leads_by A prev a r /\ leads_by A r b q.
Proof using.
  revert prev. induction a as [|m a IH]; intros prev; cbn.
  - split; [eauto|]. by intros (r & -> & ?).
  - destruct (is_user m); rewrite IH;
      (split; [intros (? & r & ? & ?)|intros (r & (? & ?) & ?)]; eauto).
Qed.

Lemma leads_weaken (A B : list id -> Message -> Prop) prev ms q :
  (forall p m, A p m -> B p m) -> leads_by A prev ms q -> leads_by B prev ms q.
Proof using.
  intros H. revert prev. induction ms as [|m ms IH]; intros prev; cbn; [done|].
  destruct (is_user m); intros [? ?]; auto.
Qed.

Lemma calls_of_extended p m : calls_of (set_content p (content p ++ content m)) = calls_of p ++ calls_of m.
Proof using. unfold calls_of, tool_uses. cbn. by rewrite omap_app, map_app. Qed.

Lemma is_user_role m n : role m = role n -> is_user m = is_user n.
Proof using. unfold is_user. by intros ->. Qed.

Lemma is_user_other m n : role m <> role n -> is_user m = negb (is_user n).
Proof using. unfold is_user. by destruct (role m), (role n). Qed.

Lemma merge_step_last merged m :
  filled m -> exists b, last (merge_step merged m) = Some b /\ role b = role m.
Proof using.
  intros Hm. destruct (merge_step_cases merged m) as [(E & _)|[(_ & front & p & _ & Hr & ->)|(_ & _ & ->)]].
  - by destruct (Hm E).
  - rewrite last_snoc. by eexists.
  - rewrite last_snoc. by eexists.
Qed.

Definition speaks (m : Message) : Prop := is_user m = false -> filled m.

(** User messages are never merged with each other when the messages between
    them are not empty. *)
Lemma merge_user_apart ms m p :
  alternates None (ms ++ [m]) -> Forall speaks ms -> is_user m = true ->
  last (merge_adjacent_roles ms) = Some p -> role p <> role m.
Proof using.
  intros [_ [Hu _]]%alternates_app Hs Hm. unfold last_or in Hu.
  destruct ms as [|a ms _] using rev_ind; [done|]. rewrite last_snoc in Hu. cbn in Hu.
  apply Forall_app in Hs as [_ Hs%Forall_inv]. rewrite merge_snoc.
  destruct (merge_step_last (merge_adjacent_roles ms) a) as (b & -> & Hb).
  - apply Hs. by rewrite (is_user_other a m), Hm.
  - intros [= <-]. by rewrite Hb.
Qed.

Lemma merge_leads ms q :
  alternates None ms -> Forall speaks ms -> leads [] ms q -> leads [] (merge_adjacent_roles ms) q.
Proof using.
  revert q. induction ms as [|m ms IH] using rev_ind; intros q Ha Hs Hl; [done|].
  assert (Hapart : forall p, is_user m = true -> last (merge_adjacent_roles ms) = Some p -> role p <> role m).
  { intros p. apply merge_user_apart; [done|by apply Forall_app in Hs as [? _]]. }
  apply alternates_app in Ha as [Ha Hu]. apply Forall_app in Hs as [Hs Hm%Forall_inv].
  apply leads_app in Hl as (r & Hr%IH & Hq); [|done..]. cbn in Hq. rewrite merge_snoc.
  destruct (merge_step_cases (merge_adjacent_roles ms) m)
    as [(E & ->)|[(Hf & front & p & Em & Hp & ->)|(_ & _ & ->)]].
  - destruct (is_user m) eqn:Eu; [|by destruct (Hm Eu E)]. destruct Hq as [Hq <-].
    apply answers_results in Hq. rewrite E in Hq. apply Permutation_nil_l in Hq. by subst.
  - destruct (is_user m) eqn:Eu.
    { exfalso. rewrite Em, last_snoc in Hapart. by apply (Hapart p). }
    rewrite Em in Hr. apply leads_app in Hr as (r0 & Hr0 & Hr). apply leads_app. exists r0. split; [done|].
    cbn [leads_by] in Hr |- *. rewrite (is_user_role p m Hp), Eu in Hr. destruct Hr as [-> Hr], Hq as [-> <-].
    change (is_user (set_content p (content p ++ content m))) with (is_user p).
    rewrite (is_user_role p m Hp), Eu. split; [done|]. by rewrite calls_of_extended, Hr.
  - apply leads_app. exists r. by split.
Qed.

(** * The loop *)

(** What the loop makes of the messages from [index] on, when neighbours have
    different roles. *)
Fixpoint pass (stamp : nat -> id * N) (index : nat) (ms : list Message) : list Message :=
  match ms with
  | [] => []
  | m :: ms =>
      if is_user m then m :: pass stamp (S index) ms
      else match ms with
           | n :: ms => m :: answer_exactly (calls_of m) n :: pass stamp (S (S index)) ms
           | [] =>
               if is_empty (calls_of m) then [m]
               else [m; answer_exactly (calls_of m) (new_message (stamp index) User [])]
           end
  end.

(** Induction over the messages of [pass]. *)
Lemma pass_ind (Q : list Message -> Prop) :
  Q [] ->
  (forall m ms, is_user m = true -> Q ms -> Q (m :: ms)) ->
  (forall m, is_user m = false -> Q [m]) ->
  (forall m n ms, is_user m = false -> Q ms -> Q (m :: n :: ms)) ->
  forall ms, Q ms.
Proof using.
  intros H0 H1 H2 H3 ms. assert (H : forall n ms, (length ms <= n)%nat -> Q ms).
  { clear ms. induction n as [|n IH]; intros [|m ms] Hn; cbn in Hn; [done|lia|done|].
    destruct (is_user m) eqn:Em; [by apply H1, IH; [done|lia]|].
    destruct ms as [|m' ms]; cbn in Hn; [by apply H2|apply H3; [done|apply IH; lia]]. }
  by apply (H (length ms)).
Qed.

Lemma answer_step_user stamp pre m ms :
  is_user m = true -> answer_step stamp (length pre) (pre ++ m :: ms) = pre ++ m :: ms.
Proof using. intros Hm. unfold answer_step. by rewrite list_lookup_middle, Hm. Qed.

Lemma alter_after {A} (f : A -> A) pre m n ms :
  alter f (S (length pre)) (pre ++ m :: n :: ms) = pre ++ m :: f n :: ms.
Proof using. induction pre as [|x pre IH]; cbn; [done|]. f_equal. exact IH. Qed.

Lemma alter_after_end {A} (f : A -> A) pre m : alter f (S (length pre)) (pre ++ [m]) = pre ++ [m].
Proof using. induction pre as [|x pre IH]; cbn; [done|]. f_equal. exact IH. Qed.

Lemma lookup_after {A} (pre : list A) m ms : (pre ++ m :: ms) !! S (length pre) = head ms.
Proof using. rewrite lookup_app_r by lia. rewrite Nat.sub_succ_l, Nat.sub_diag by done. by destruct ms. Qed.

Lemma answer_step_answered stamp pre m n ms :
  is_user m = false -> is_user n = true ->
  answer_step stamp (length pre) (pre ++ m :: n :: ms)
  = pre ++ m :: answer_exactly (calls_of m) n :: ms.
Proof using.
  intros Hm Hn. unfold answer_step. rewrite list_lookup_middle, Hm by done. rewrite lookup_after. cbn [head].
  rewrite Hn, andb_false_r. apply alter_after.
Qed.

Lemma answer_step_last stamp pre m :
  is_user m = false -> answer_step stamp (length pre) (pre ++ [m]) = pre ++ pass stamp (length pre) [m].
Proof using.
  intros Hm. unfold answer_step. rewrite list_lookup_middle, Hm by done. rewrite lookup_after. cbn [head pass].
  rewrite Hm, andb_true_r. destruct (is_empty (calls_of m)); cbn [negb].
  - apply alter_after_end.
  - rewrite take_ge, drop_ge, <- app_assoc by (rewrite length_app; cbn; lia). apply alter_after.
Qed.

(** With two rounds per message the loop does what [pass] says. *)
Lemma answer_loop_pass stamp ms : forall fuel pre prev,
  alternates prev ms -> (2 * length ms <= fuel)%nat ->
  answer_loop fuel stamp (length pre) (pre ++ ms) = pre ++ pass stamp (length pre) ms.
Proof using.
  assert (Hstop : forall fuel (l : list Message), answer_loop fuel stamp (length l) l = l).
  { intros [|fuel] l; cbn [answer_loop]; [done|]. by rewrite Nat.ltb_irrefl. }
  assert (Hround : forall fuel (pre : list Message) m ms, answer_loop (S fuel) stamp (length pre) (pre ++ m :: ms)
    = answer_loop fuel stamp (S (length pre)) (answer_step stamp (length pre) (pre ++ m :: ms))).
  { intros fuel pre m l. cbn [answer_loop]. destruct (Nat.ltb_spec (length pre) (length (pre ++ m :: l))) as [_|H]; [done|].
    rewrite length_app in H. cbn in H. lia. }
  assert (Hsnoc : forall (pre : list Message) m, S (length pre) = length (pre ++ [m])).
  { intros pre m. rewrite length_app. cbn. lia. }
  assert (Hmid : forall (pre : list Message) m l, pre ++ m :: l = (pre ++ [m]) ++ l) by (intros; by rewrite <- app_assoc).
  induction ms as [|m ms Hm IH|m Hm|m n ms Hm IH] using pass_ind; intros fuel pre prev Ha Hfuel; cbn in Hfuel.
  - cbn. rewrite app_nil_r. apply Hstop.
  - destruct fuel as [|fuel]; [lia|]. rewrite Hround, answer_step_user by done. cbn [pass]. rewrite Hm.
    rewrite (Hsnoc pre m), (Hmid pre m ms), (Hmid pre m (pass _ _ _)). apply (IH fuel _ (Some m)); [apply Ha|lia].
  - destruct fuel as [|[|fuel]]; [lia|lia|]. rewrite Hround, answer_step_last by done. cbn [pass]. rewrite Hm.
    destruct (is_empty (calls_of m)); [by rewrite (Hsnoc pre m), Hstop|].
    set (a := answer_exactly (calls_of m) _).
    rewrite (Hsnoc pre m), (Hmid pre m [a]), Hround, answer_step_user
      by (unfold a; by rewrite answer_exactly_user).
    by rewrite (Hsnoc (pre ++ [m]) a), Hstop, <- Hmid.
  - destruct fuel as [|[|fuel]]; [lia|lia|]. destruct Ha as (_ & Hn & Ha).
    assert (Hu : is_user n = true) by (apply is_user_other in Hn; rewrite Hm in Hn; by destruct (is_user n)).
    rewrite Hround, answer_step_answered by done. cbn [pass]. rewrite Hm.
    rewrite (Hsnoc pre m), (Hmid pre m (_ :: _)), Hround, answer_step_user
      by (by rewrite answer_exactly_user).
    set (n' := answer_exactly (calls_of m) n). rewrite (Hsnoc (pre ++ [m]) n'), (Hmid (pre ++ [m]) n' ms).
    rewrite (IH fuel _ (Some n)), <- !Hsnoc by (done || lia). by rewrite <- !Hmid.
Qed.

(** * What the pass keeps and makes *)

Lemma pass_alternates stamp index ms prev : alternates prev ms -> alternates prev (pass stamp index ms).
Proof using.
  revert index prev. induction ms as [|m ms Hm IH|m Hm|m n ms Hm IH] using pass_ind; intros index prev Ha; cbn [pass];
    rewrite ?Hm; [done| | |].
  - destruct Ha. split; [done|]. by apply IH.
  - destruct Ha as [Ha _]. destruct (is_empty (calls_of m)); cbn [alternates]; [done|]. split_and!; [done| |done].
    cbn [unlike]. rewrite answer_exactly_role. intros E. cbn in E. unfold is_user in Hm. by rewrite E in Hm.
  - destruct Ha as (H1 & H2 & Ha). cbn [alternates unlike]. rewrite answer_exactly_role. split_and!; [done..|].
    apply IH. clear -Ha. destruct ms as [|x ms]; [done|]. cbn [alternates unlike] in *. by rewrite answer_exactly_role.
Qed.

(** The first message, when the user's, answers nothing. *)
Definition starts_clean (ms : list Message) : Prop :=
  match ms with m :: _ => is_user m = true -> answers [] m | [] => True end.

Lemma alternates_starts_clean m ms :
  is_user m = true -> alternates (Some m) ms -> starts_clean ms.
Proof using.
  intros Hm. destruct ms as [|n ms]; [done|]. intros [Hn%is_user_other _] Hu. by rewrite Hm, Hu in Hn.
Qed.

Lemma pass_leads stamp index ms prev :
  alternates prev ms -> starts_clean ms -> leads [] (pass stamp index ms) [].
Proof using.
  revert index prev. induction ms as [|m ms Hm IH|m Hm|m n ms Hm IH] using pass_ind;
    intros index prev Ha Hc; cbn [pass]; rewrite ?Hm; [done| | |].
  - destruct Ha as [_ Ha]. cbn. rewrite Hm. split; [by apply Hc|].
    eapply IH; [exact Ha|by eapply alternates_starts_clean].
  - destruct (is_empty (calls_of m)) eqn:E; cbn [leads_by]; rewrite Hm.
    + split; [done|]. by destruct (calls_of m).
    + rewrite answer_exactly_user. split; [done|]. split; [apply answer_exactly_answers|done].
  - destruct Ha as (_ & Hn & Ha). pose proof Hn as Hu%is_user_other. rewrite Hm in Hu.
    assert (Hn' : is_user n = true) by by destruct (is_user n).
    cbn [leads_by]. rewrite Hm, answer_exactly_user, Hn'.
    split_and!; [done|apply answer_exactly_answers|].
    eapply IH; [exact Ha|by eapply alternates_starts_clean].
Qed.

Lemma pass_speaks stamp index ms prev :
  alternates prev ms -> Forall speaks ms -> Forall speaks (pass stamp index ms).
Proof using.
  revert index prev. induction ms as [|m ms Hm IH|m Hm|m n ms Hm IH] using pass_ind;
    intros index prev Ha Hf; cbn [pass]; rewrite ?Hm; [done| | |].
  - apply Forall_cons in Hf as [? ?]. destruct Ha. constructor; [done|by eapply IH].
  - apply Forall_inv in Hf. destruct (is_empty (calls_of m)); repeat constructor; try done.
    unfold speaks. by rewrite answer_exactly_user.
  - apply Forall_cons in Hf as [? [Hn Hf]%Forall_cons]. destruct Ha as (_ & Hu%is_user_other & Ha).
    constructor; [done|]. constructor; [|by eapply IH].
    unfold speaks. rewrite answer_exactly_user. rewrite Hm in Hu. by destruct (is_user n).
Qed.

Lemma answered_kept calls m : kept_blocks (answer_exactly calls m) = if is_user m then kept_blocks m else kept_blocks (answer_exactly calls m).
Proof using.
  destruct (is_user m) eqn:E; [|done]. unfold kept_blocks. by rewrite answer_exactly_user, answer_exactly_role, E, answer_exactly_others.
Qed.

Lemma pass_kept stamp index ms prev : alternates prev ms -> kept (pass stamp index ms) = kept ms.
Proof using.
  revert index prev. induction ms as [|m ms Hm IH|m Hm|m n ms Hm IH] using pass_ind;
    intros index prev Ha; cbn [pass]; rewrite ?Hm; [done| | |].
  - unfold kept in *. cbn. destruct Ha. by erewrite IH.
  - destruct (is_empty (calls_of m)); [done|]. unfold kept. cbn [flat_map].
    by rewrite answered_kept.
  - destruct Ha as (_ & Hu%is_user_other & Ha). rewrite Hm in Hu. unfold kept in *. cbn [flat_map].
    rewrite answered_kept. destruct (is_user n) eqn:En; [|done]. by erewrite IH.
Qed.

(** A block of the repaired history is one of the original, or stands in for
    a result that is missing. *)
Definition known (original : list ContentBlock) (b : ContentBlock) : Prop :=
  b ∈ original \/ exists c, b = missing c.

Lemma order_by_known calls f original :
  (forall i b, f i = Some b -> b ∈ original) -> Forall (known original) (order_by calls f).
Proof using.
  revert f. induction calls as [|c calls IH]; intros f Hf; cbn; constructor.
  - destruct (f c) eqn:E; [left; by eapply Hf|right; by exists c].
  - apply IH. intros i b. unfold without. destruct (teqb i c); [done|]. apply Hf.
Qed.

Lemma answer_exactly_known calls m : Forall (known (content m)) (content (answer_exactly calls m)).
Proof using.
  pose proof (answer_exactly_cases calls m) as Hc. pose proof (split_results_others calls [] (content m)) as Ho.
  pose proof (split_results_sublist calls [] (content m)) as Hs.
  destruct (split_results calls [] (content m)) as [results rest]. cbn [fst snd] in *.
  apply sublist_subseteq in Hs.
  destruct Hc as [(_ & _ & ->)|(_ & ->)]; cbn [content set_content].
  - apply Forall_forall. intros b Hb. left. by apply Hs.
  - apply Forall_app. split.
    + apply order_by_known. intros i b [Hb%list_elem_of_In _]%find_some. by apply Hs.
    + subst rest. apply Forall_forall. intros b [Hb _]%list_elem_of_In%filter_In. left.
      by apply list_elem_of_In.
Qed.

Lemma known_weaken a b x : (forall y, y ∈ a -> y ∈ b) -> known a x -> known b x.
Proof using. intros H [?|?]; [left; auto|by right]. Qed.

Lemma blocks_cons m ms : blocks (m :: ms) = content m ++ blocks ms.
Proof using. done. Qed.

Lemma Forall_known_l a b l : Forall (known a) l -> Forall (known (a ++ b)) l.
Proof using. intros H. eapply Forall_impl; [exact H|]. intros x. apply known_weaken. set_solver. Qed.

Lemma Forall_known_r a b l : Forall (known b) l -> Forall (known (a ++ b)) l.
Proof using. intros H. eapply Forall_impl; [exact H|]. intros x. apply known_weaken. set_solver. Qed.

Lemma Forall_known_refl a : Forall (known a) a.
Proof using. apply Forall_forall. by left. Qed.

Lemma pass_known stamp index ms : Forall (known (blocks ms)) (blocks (pass stamp index ms)).
Proof using.
  revert index. induction ms as [|m ms Hm IH|m Hm|m n ms Hm IH] using pass_ind; intros index; cbn [pass];
    rewrite ?Hm, ?blocks_cons; [constructor| | |].
  - apply Forall_app. split; [apply Forall_known_l, Forall_known_refl|apply Forall_known_r, IH].
  - destruct (is_empty (calls_of m)); rewrite !blocks_cons; (apply Forall_app; split);
      try (apply Forall_known_l, Forall_known_refl); [constructor|].
    change (blocks []) with (@nil ContentBlock). rewrite !app_nil_r.
    eapply Forall_impl; [apply answer_exactly_known|]. intros x. apply known_weaken.
    by intros y ?%elem_of_nil.
  - rewrite ?blocks_cons. apply Forall_app. split; [apply Forall_known_l, Forall_known_refl|].
    apply Forall_known_r, Forall_app. split; [apply Forall_known_l, answer_exactly_known|apply Forall_known_r, IH].
Qed.

(** A history that already leads to no pending calls passes unchanged. *)
Lemma pass_fixed stamp index ms prev :
  alternates prev ms -> leads [] ms [] -> pass stamp index ms = ms.
Proof using.
  revert index prev. induction ms as [|m ms Hm IH|m Hm|m n ms Hm IH] using pass_ind;
    intros index prev Ha Hl; cbn [pass leads_by] in *; rewrite ?Hm; rewrite ?Hm in Hl; [done| | |destruct (is_user n) eqn:En].
  - destruct Ha, Hl. by erewrite IH.
  - destruct Hl as [_ ->]. done.
  - destruct Ha as (_ & _ & Ha), Hl as (_ & Hn & Hl). by erewrite Hn, IH.
  - destruct Ha as (_ & Hu%is_user_other & _). by rewrite Hm, En in Hu.
Qed.

(** * The repaired history *)

Lemma clean_first_alternates ms : alternates None ms -> alternates None (clean_first ms).
Proof using.
  destruct ms as [|m [|n ms]]; [done|done|]. intros (_ & Hn & Ha). cbn [clean_first].
  destruct (is_user m); cbn [alternates unlike]; rewrite ?answer_exactly_role; done.
Qed.

Lemma clean_first_speaks ms : Forall filled ms -> Forall speaks (clean_first ms).
Proof using.
  intros Hf. assert (H : Forall speaks ms) by (eapply Forall_impl; [exact Hf|by intros m Hm _]).
  destruct ms as [|m ms]; cbn [clean_first]; [done|]. apply Forall_cons in H as [Hm H]. constructor; [|done].
  destruct (is_user m) eqn:E; [|done]. unfold speaks. by rewrite answer_exactly_user, E.
Qed.

Lemma clean_first_starts_clean ms : starts_clean (clean_first ms).
Proof using.
  destruct ms as [|m ms]; cbn; [done|]. destruct (is_user m) eqn:E; [|by rewrite E].
  intros _. apply answer_exactly_answers.
Qed.

Lemma clean_first_kept ms : kept (clean_first ms) = kept ms.
Proof using.
  destruct ms as [|m ms]; cbn [clean_first]; [done|]. destruct (is_user m) eqn:E; [|done].
  unfold kept. cbn [flat_map]. by rewrite answered_kept, E.
Qed.

Lemma clean_first_known ms : Forall (known (blocks ms)) (blocks (clean_first ms)).
Proof using.
  destruct ms as [|m ms]; cbn [clean_first]; [constructor|]. rewrite !blocks_cons. apply Forall_app.
  split; [|apply Forall_known_r, Forall_known_refl]. apply Forall_known_l.
  destruct (is_user m); [apply answer_exactly_known|apply Forall_known_refl].
Qed.

Lemma clean_first_fixed ms : leads [] ms [] -> clean_first ms = ms.
Proof using.
  destruct ms as [|m ms]; cbn; [done|]. destruct (is_user m); [|done]. by intros [-> _].
Qed.

Lemma well_formed_pass stamp ms :
  well_formed stamp ms = merge_adjacent_roles (pass stamp 0 (clean_first (merge_adjacent_roles ms))).
Proof using.
  unfold well_formed. cbn zeta. f_equal. set (merged := clean_first _).
  apply (answer_loop_pass stamp merged (2 * length merged) [] None); [|done].
  apply clean_first_alternates, merge_tidy.
Qed.

(** What providers accept: no empty message, roles alternate, and each user
    message answers exactly the calls made just before it. *)
Definition accepted (ms : list Message) : Prop := tidy ms /\ leads [] ms [].

Lemma well_formed_accepted stamp ms : accepted (well_formed stamp ms).
Proof using.
  rewrite well_formed_pass. split; [apply merge_tidy|].
  destruct (merge_tidy ms) as [Hf Ha]. pose proof (clean_first_alternates _ Ha) as Ha'.
  apply merge_leads.
  - by apply pass_alternates.
  - by eapply pass_speaks, clean_first_speaks.
  - eapply pass_leads; [done|]. apply clean_first_starts_clean.
Qed.

Lemma accepted_unchanged stamp ms : accepted ms -> well_formed stamp ms = ms.
Proof using.
  intros [Ht Hl]. rewrite well_formed_pass, (tidy_merged ms), clean_first_fixed by done.
  rewrite (pass_fixed _ _ _ None) by (done || apply Ht). by apply tidy_merged.
Qed.

Lemma leads_lookup ms i n : forall prev q, leads prev ms q -> ms !! i = Some n -> is_user n = true ->
  answers (match i with O => prev | S j => match ms !! j with
                                           | Some m => if is_user m then [] else calls_of m
                                           | None => []
                                           end end) n.
Proof using.
  revert i. induction ms as [|m ms IH]; intros i prev q Hl Hi Hn; [done|]. cbn [leads_by] in Hl.
  destruct i as [|i]; cbn in Hi.
  - simplify_eq. rewrite Hn in Hl. apply Hl.
  - specialize (IH i (if is_user m then [] else calls_of m) q). cbn.
    assert (Hl' : leads (if is_user m then [] else calls_of m) ms q) by (destruct (is_user m); apply Hl).
    specialize (IH Hl' Hi Hn). by destruct i.
Qed.

Lemma leads_calls_answered ms i m : forall prev,
  leads prev ms [] -> ms !! i = Some m -> is_user m = false -> calls_of m <> [] ->
  exists n, ms !! S i = Some n /\ is_user n = true.
Proof using.
  revert i. induction ms as [|x ms IH]; intros i prev Hl Hi Hm Hc; [done|]. cbn [leads_by] in Hl.
  destruct i as [|i]; cbn in Hi.
  - simplify_eq. rewrite Hm in Hl. destruct Hl as [_ Hl]. destruct ms as [|n ms]; cbn in Hl; [done|].
    exists n. split; [done|]. destruct (is_user n); [done|]. by destruct Hl.
  - apply (IH i (if is_user x then [] else calls_of x)); [|done..]. destruct (is_user x); apply Hl.
Qed.

Lemma alternates_lookup ms i m n : forall prev,
  alternates prev ms -> ms !! i = Some m -> ms !! S i = Some n -> role m <> role n.
Proof using.
  revert i. induction ms as [|x ms IH]; intros i prev Ha Hi Hj; [done|]. destruct Ha as [_ Ha].
  destruct i as [|i]; cbn in Hi, Hj; [|by eapply IH]. simplify_eq. destruct ms as [|y ms]; [done|].
  cbn in Hj. simplify_eq. apply Ha.
Qed.

(** The calls a user message at [i] has to answer. *)
Definition calls_before (ms : list Message) (i : nat) : list id :=
  match i with
  | O => []
  | S j => match ms !! j with Some m => if is_user m then [] else calls_of m | None => [] end
  end.

(** A repaired history has the shape every provider accepts, whatever it
    was before: no message is empty; roles alternate; an assistant message
    with calls is followed by a user message; and the results of a user
    message come before its other blocks and answer the calls of the message
    before it, one result for each call and nothing else. *)
Theorem well_formed_shape (stamp : nat -> id * N) (messages : list Message) :
  let out := well_formed stamp messages in
  Forall (fun m => content m <> []) out
  /\ (forall i m n, out !! i = Some m -> out !! S i = Some n -> role m <> role n)
  /\ (forall i m, out !! i = Some m -> role m = Assistant -> calls_of m <> [] ->
       exists n, out !! S i = Some n /\ role n = User)
  /\ (forall i n, out !! i = Some n -> role n = User ->
       results_in (content n) ≡ₚ calls_before out i
       /\ content n = List.filter is_result (content n) ++ others (content n)).
Proof using.
  intros out. destruct (well_formed_accepted stamp messages) as [[Hf Ha] Hl]. fold out in Hf, Ha, Hl.
  split_and!.
  - done.
  - intros i m n. by apply (alternates_lookup _ _ _ _ None).
  - intros i m Hi Hm Hc. destruct (leads_calls_answered out i m [] Hl Hi) as (n & Hn & Hu);
      [unfold is_user; by rewrite Hm|done|].
    exists n. split; [done|]. by apply (bool_decide_eq_true_1 (role n = User)).
  - intros i n Hi Hn. assert (Hu : is_user n = true) by (unfold is_user; by rewrite Hn).
    pose proof (leads_lookup out i n [] [] Hl Hi Hu) as H. split; [by apply answers_results|by eapply answers_results_first].
Qed.

(** Repairing loses nothing and invents nothing.  The blocks said by the
    user and by the assistant, results in user messages apart, are the same
    in the same order; every block comes from the history or stands in for a
    missing result; and a repaired history is not changed again. *)
Theorem well_formed_keeps (stamp stamp' : nat -> id * N) (messages : list Message) :
  kept (well_formed stamp messages) = kept messages
  /\ Forall (known (blocks messages)) (blocks (well_formed stamp messages))
  /\ well_formed stamp' (well_formed stamp messages) = well_formed stamp messages.
Proof using.
  destruct (merge_tidy messages) as [Hf Ha]. pose proof (clean_first_alternates _ Ha) as Ha'. split_and!.
  - rewrite well_formed_pass, merge_kept, (pass_kept _ _ _ None), clean_first_kept by done. apply merge_kept.
  - rewrite well_formed_pass, merge_blocks. eapply Forall_impl; [apply pass_known|]. intros b [Hb|?]; [|by right].
    pose proof (clean_first_known (merge_adjacent_roles messages)) as Hk. rewrite merge_blocks in Hk.
    by rewrite Forall_forall in Hk; apply Hk.
  - apply accepted_unchanged, well_formed_accepted.
Qed.

(** * The shape without the exact order *)

(** A user message answers the calls before it, its results first. *)
Definition fits (calls : list id) (m : Message) : Prop :=
  results_in (content m) ≡ₚ calls /\ results_first m.

Definition provider_ok (ms : list Message) : Prop := tidy ms /\ leads_by fits [] ms [].

Lemma answers_fit calls m : answers calls m -> fits calls m.
Proof using. intros H. split; [by apply answers_results|by eapply answers_results_first]. Qed.

Lemma accepted_provider_ok ms : accepted ms -> provider_ok ms.
Proof using. intros [Ht Hl]. split; [done|]. eapply leads_weaken; [|exact Hl]. apply answers_fit. Qed.

Lemma no_results bs : results_in bs = [] -> Forall (fun b => is_result b = false) bs.
Proof using.
  unfold results_in. induction bs as [|b bs IH]; cbn; intros H; constructor.
  - rewrite result_of_is_result. by destruct (result_of b).
  - apply IH. by destruct (result_of b).
Qed.

Lemma fits_nothing m : fits [] m <-> results_in (content m) = [].
Proof using.
  split; [intros [H _]; by apply Permutation_nil_r in H|]. intros H. split; [by rewrite H|].
  unfold results_first. pose proof (no_results _ H) as Hn.
  by rewrite filter_result_nil, others_fixed.
Qed.

Lemma fits_extended calls p m : fits calls p -> fits [] m -> fits calls (set_content p (content p ++ content m)).
Proof using.
  intros [Hp Hf] Hm%fits_nothing. split; cbn [content set_content].
  - unfold results_in in *. by rewrite omap_app, Hm, app_nil_r.
  - unfold results_first in *. cbn [content set_content]. pose proof (no_results _ Hm) as Hn.
    rewrite List.filter_app, others_app, (filter_result_nil (content m)), (others_fixed (content m)), app_nil_r by done.
    by rewrite app_assoc, <- Hf.
Qed.

(** Merging keeps every call next to its results. *)
Lemma merge_fits ms q : leads_by fits [] ms q -> leads_by fits [] (merge_adjacent_roles ms) q.
Proof using.
  revert q. induction ms as [|m ms IH] using rev_ind; intros q Hl; [done|].
  apply leads_app in Hl as (r & Hr%IH & Hq). cbn in Hq. rewrite merge_snoc.
  destruct (merge_step_cases (merge_adjacent_roles ms) m)
    as [(E & ->)|[(Hf & front & p & Em & Hp & ->)|(_ & _ & ->)]].
  - unfold fits, calls_of, tool_uses in Hq. rewrite E in Hq. destruct (is_user m).
    + destruct Hq as [[Hq _] <-]. apply Permutation_nil_l in Hq. by rewrite <- Hq in Hr.
    + destruct Hq as [-> <-]. done.
  - rewrite Em in Hr. apply leads_app in Hr as (r0 & Hr0 & Hr). apply leads_app. exists r0. split; [done|].
    cbn [leads_by] in Hr |- *. change (is_user (set_content p (content p ++ content m))) with (is_user p).
    rewrite (is_user_role p m Hp) in *. destruct (is_user m).
    + destruct Hr as [Hpf <-], Hq as [Hm Hq]. split; [by apply fits_extended|done].
    + destruct Hr as [-> Hr], Hq as [-> <-]. split; [done|]. by rewrite calls_of_extended, Hr.
  - apply leads_app. exists r. by split.
Qed.

Lemma merged_provider_ok ms : leads_by fits [] ms [] -> provider_ok (merge_adjacent_roles ms).
Proof using. intros H. split; [apply merge_tidy|by apply merge_fits]. Qed.

(** A message that starts a turn or is the assistant's leaves no call behind
    it without its results. *)
Lemma cut_clean ms s m :
  leads_by fits [] ms [] -> ms !! s = Some m -> (is_user m = true -> results_in (content m) = []) ->
  leads_by fits [] (take s ms) [] /\ leads_by fits [] (drop s ms) [].
Proof using.
  intros Hl Hs Hm. pose proof (take_drop s ms) as E. rewrite <- E in Hl.
  apply leads_app in Hl as (r & Hr & Hl). rewrite (drop_S _ _ _ Hs) in *. cbn [leads_by] in *.
  assert (r = []) as ->; [|done]. destruct (is_user m); [|by destruct Hl].
  destruct Hl as [[Hp _] _]. rewrite Hm in Hp by done. by apply Permutation_nil_l in Hp.
Qed.

(** A message whose results all answer, and that holds nothing else, keeps
    them in its own order. *)
Lemma answers_keep_their_order : exists m calls,
  answer_exactly calls m = m /\ results_in (content m) <> calls /\ NoDup calls.
Proof using.
  exists (mkMessage [] User [tool_result (str "b") [] false; tool_result (str "a") [] false] 0%N),
    [str "a"; str "b"].
  split_and!; [done|done|]. by apply (bool_decide_eq_true_1 (NoDup [str "a"; str "b"])).
Qed.

End WithJson.
