(* ===== verification/Template.v ===== *)
(** Templates ([template.rs]), the files a call touches ([compaction/touch.rs]), token estimates
    ([z-engine-context/src/tokens.rs]) and the context meter ([engine/src/run/meter.rs]).  An estimate is at most
    the number of characters and blocks held in memory, so its [u64] sums are sums. *)

From S2P Require Export Text Protocol Records.

Definition OPEN_BRACES : text := str "{{".
Definition CLOSE_BRACES : text := str "}}".

Definition is_placeholder (name : text) : bool :=
  let key := match strip_suffix (str "?") name with Some key => key | None => name end in
  negb (is_empty key) && forallb (fun c => is_ascii_alphanumeric c || N.eqb c (chr "_")) key.

Definition lookup_value (values : list (text * text)) (key : text) : option text :=
  snd <$> List.find (fun v => teqb (fst v) key) values.

(** The loop over one line; the rest gets shorter each time, so its length
    is fuel enough. *)
Fixpoint render_loop (fuel : nat) (values : list (text * text)) (out rest : text) : option text :=
  match fuel with
  | O => Some (out ++ rest)
  | S fuel =>
      match split_once OPEN_BRACES rest with
      | None => Some (out ++ rest)
      | Some (before, after) =>
          let out := out ++ before in
          match split_once CLOSE_BRACES after with
          | Some (name, tail) =>
              if is_placeholder name then
                let '(key, optional) :=
                  match strip_suffix (str "?") name with Some key => (key, true) | None => (name, false) end in
                match lookup_value values key with
                | Some value =>
                    if optional && is_empty (trim value) then None
                    else render_loop fuel values (out ++ value) tail
                | None =>
                    if optional then None
                    else render_loop fuel values (out ++ OPEN_BRACES ++ name ++ CLOSE_BRACES) tail
                end
              else render_loop fuel values (out ++ OPEN_BRACES) after
          | None => render_loop fuel values (out ++ OPEN_BRACES) after
          end
      end
  end.

(** [None] when the line holds an optional placeholder without a value. *)
Definition render_line (values : list (text * text)) (line : text) : option text :=
  render_loop (S (length line)) values [] line.

Definition render_template (template : text) (values : list (text * text)) : text :=
  join [NEWLINE] (omap (render_line values) (split_on NEWLINE template)).

Example render_values :
  render_template (str "Hello {{name}}, today is {{day}}.") [(str "name", str "{{day}}"); (str "day", str "Monday")]
  = str "Hello {{day}}, today is Monday.".
Proof. reflexivity. Qed.

Example render_optional :
  render_template (str "a: {{a}}" ++ [NEWLINE] ++ str "b: {{b?}}" ++ [NEWLINE] ++ str "end")
    [(str "a", str "1"); (str "b", str "  ")]
  = str "a: 1" ++ [NEWLINE] ++ str "end".
Proof. reflexivity. Qed.

Example render_verbatim :
  render_template (str "{{missing}} {{ spaced }} {{}} {{a}}}") [(str "a", str "v")]
  = str "{{missing}} {{ spaced }} {{}} v}".
Proof. reflexivity. Qed.

Definition EDIT_TOOLS : list text := [str "Edit"; str "MultiEdit"; str "Write"; str "NotebookEdit"].
Definition CHECK_TOOLS : list text := [str "Bash"; str "Verify"].
Definition PATH_FIELDS : list text := [str "file_path"; str "notebook_path"; str "path"].

Definition is_edit (tool : text) : bool := mem tool EDIT_TOOLS.
Definition is_check (tool : text) : bool := mem tool CHECK_TOOLS.

Definition SLASH : char := chr "/".

(** [path] is one of the named paths, ends in one, has the file name of one
    or lies in a named directory. *)
Definition names_path (named : list text) (path : text) : bool :=
  let path := match strip_prefix (str "./") path with Some p => p | None => path end in
  let file_name := after_last SLASH path in
  existsb (fun n =>
    let n := trim_end_by (N.eqb SLASH) n in
    negb (is_empty n)
    && (teqb path n
        || ends_with ([SLASH] ++ n) path
        || (negb (contains_char SLASH n) && teqb file_name n)
        || contains_str ([SLASH] ++ n ++ [SLASH]) path
        || starts_with (n ++ [SLASH]) path)) named.

Definition REMINDER_OPEN : text := str "<system-reminder>".
Definition REMINDER_CLOSE : text := str "</system-reminder>".

(** The loop of [strip_reminders]; the rest gets shorter each time. *)
Fixpoint strip_loop (fuel : nat) (out rest : text) : text :=
  match fuel with
  | O => out ++ rest
  | S fuel =>
      match split_once REMINDER_OPEN rest with
      | None => out ++ rest
      | Some (before, after) =>
          match split_once REMINDER_CLOSE (REMINDER_OPEN ++ after) with
          | Some (_, rest) => strip_loop fuel (out ++ before) rest
          | None => strip_loop fuel (out ++ before) []
          end
      end
  end.

Definition strip_reminders (t : text) : text := strip_loop (S (length t)) [] t.

Section WithJson.
Context {J : Json}.

(** The file or directory paths a call's input names. *)
Definition call_paths (v : json) : list text :=
  List.filter (fun p => negb (is_empty p))
    (map trim (omap (fun field => json_get v field ≫= as_str) PATH_FIELDS)).

Definition call_command (v : json) : option text := json_get v (str "command") ≫= as_str.

(** The user's words in a message. *)
Definition request_text (m : Message) : text :=
  trim (join [NEWLINE]
    (List.filter (fun t => negb (is_empty (trim t)))
       (omap (fun b => match b with BText t => Some (strip_reminders t) | _ => None end) (content m)))).

(** A user message that opens a real turn: it holds no results. *)
Definition opens_turn (m : Message) : bool :=
  bool_decide (role m = User) && negb (is_empty (content m)) && negb (existsb is_result (content m)).

Definition latest_request (messages : list Message) : option Message :=
  List.find opens_turn (rev messages).
End WithJson.

Open Scope N_scope.

Definition MEDIA_TOKENS : N := 1600.

Definition is_cjk (c : char) : bool :=
  existsb (fun r => in_range (fst r) (snd r) c)
    [(0x1100, 0x11FF); (0x2E80, 0x2FDF); (0x3000, 0x4DBF); (0x4E00, 0x9FFF); (0xA960, 0xA97F);
     (0xAC00, 0xD7FF); (0xF900, 0xFAFF); (0xFE30, 0xFE4F); (0xFF00, 0xFFEF); (0x20000, 0x3FFFF)].

Definition div_ceil (a b : N) : N := a / b + (if a mod b =? 0 then 0 else 1).

Definition estimate_text (t : text) : N :=
  let cjk := N.of_nat (length (List.filter is_cjk t)) in
  let other := N.of_nat (length (List.filter (fun c => negb (is_cjk c)) t)) in
  cjk + div_ceil other 4.

Definition sum_N (l : list N) : N := foldr N.add 0 l.

Definition estimate_part (p : ToolResultPart) : N :=
  match p with PartText t => estimate_text t | PartImage _ => MEDIA_TOKENS end.

Section WithJson.
Context {J : Json}.

Definition estimate_json (v : json) : N := estimate_text (to_text v).

Definition estimate_block (b : ContentBlock) : N :=
  match b with
  | BText t | BThinking t _ => estimate_text t
  | BRedactedThinking data => estimate_text data
  | BImage _ | BDocument _ _ => MEDIA_TOKENS
  | BToolUse _ n v => estimate_text n + estimate_json v
  | BToolResult _ parts _ => sum_N (map estimate_part parts)
  end.

Definition estimate_message (m : Message) : N := sum_N (map estimate_block (content m)).

Definition estimate_messages (ms : list Message) : N := sum_N (map estimate_message ms).

Definition estimate_tools (tools : list (text * text * json)) : N :=
  sum_N (map (fun '(n, d, schema) => estimate_text n + estimate_text d + estimate_json schema) tools).

(** * [meter.rs] *)

Record Reported := mkReported { reported_tokens : N; reported_messages : nat }.

Record ContextMeter := mkContextMeter { reported : option Reported; overhead : N }.

Definition meter_default : ContextMeter := mkContextMeter None 0.

Definition set_overhead (o : N) (m : ContextMeter) : ContextMeter := mkContextMeter (reported m) o.

Definition observe (tokens : N) (messages : nat) (m : ContextMeter) : ContextMeter :=
  if 0 <? tokens then mkContextMeter (Some (mkReported tokens messages)) (overhead m) else m.

Definition measure (working : list Message) (m : ContextMeter) : N :=
  match reported m with
  | Some r =>
      if Nat.leb (reported_messages r) (length working)
      then u64_add (reported_tokens r) (estimate_messages (drop (reported_messages r) working))
      else u64_add (overhead m) (estimate_messages working)
  | None => u64_add (overhead m) (estimate_messages working)
  end.

Definition rebase (before after : list Message) (m : ContextMeter) : ContextMeter :=
  match reported m with
  | Some r =>
      let covered := Nat.min (Nat.min (reported_messages r) (length before)) (length after) in
      let shrunk := estimate_messages (take covered before) - estimate_messages (take covered after) in
      mkContextMeter (Some (mkReported (reported_tokens r - shrunk) (reported_messages r))) (overhead m)
  | None => m
  end.

Definition reset (m : ContextMeter) : ContextMeter := mkContextMeter None (overhead m).

End WithJson.
