(* ===== verification/Compaction.v ===== *)
(** Compaction of a history ([z-engine-context/src/compaction], files
    [summary.rs], [micro.rs], [ranked.rs] and [keeps.rs]): where a summary may
    cut it, and which old results are cleared. *)

From stdpp Require Import gmap.
From S2P Require Export Template WellFormed.

(** [prompts/reminders/compaction-summary.md]. *)
Definition COMPACTION_SUMMARY : text :=
  join [NEWLINE]
    [str "This session continues an earlier conversation that was summarized to fit the context window. The summary below replaces the earlier messages; the most recent messages follow it unchanged.";
     [];
     str "<summary>";
     str "{{summary}}";
     str "</summary>";
     [];
     str "Use the summary as context for the rest of the conversation. If the summary ends in the middle of a task, continue that task from the messages that follow. Details in it may be out of date, so read files again before you edit them.";
     []].

(** What precedes the first placeholder of a template. *)
Definition template_head (template : text) : text :=
  trim (match split_once OPEN_BRACES template with Some (head, _) => head | None => template end).

Section WithJson.
Context {J : Json}.

(** * [summary.rs] *)

Definition MIN_SUMMARIZED : nat := 2.

Definition is_split_point (m : Message) : bool :=
  match role m with
  | Assistant => true
  | User => negb (is_empty (content m)) && negb (existsb is_result (content m))
  end.

(** The message that first uses each call. *)
Definition add_use (index : nat) (uses : gmap id nat) (i : id) : gmap id nat :=
  match uses !! i with Some _ => uses | None => <[i := index]> uses end.

Fixpoint collect_uses (index : nat) (messages : list Message) (uses : gmap id nat) : gmap id nat :=
  match messages with
  | [] => uses
  | m :: messages => collect_uses (S index) messages (foldl (add_use index) uses (calls_of m))
  end.

(** One more open pair for the splits after [lo] up to [hi]. *)
Definition count_pair (delta : list Z) (lo hi : nat) : list Z :=
  if Nat.ltb lo hi
  then alter (fun n => (n - 1)%Z) (S hi) (alter (fun n => (n + 1)%Z) (S lo) delta)
  else delta.

Definition count_result (uses : gmap id nat) (index : nat) (delta : list Z) (b : ContentBlock) : list Z :=
  match result_of b ≫= fun i => uses !! i with
  | Some use_index => count_pair delta (Nat.min use_index index) (Nat.max use_index index)
  | None => delta
  end.

Fixpoint count_results (uses : gmap id nat) (index : nat) (messages : list Message) (delta : list Z) : list Z :=
  match messages with
  | [] => delta
  | m :: messages => count_results uses (S index) messages (foldl (count_result uses index) delta (content m))
  end.

Fixpoint running (open : Z) (delta : list Z) : list bool :=
  match delta with
  | [] => []
  | change :: delta => let open := (open + change)%Z in (0 <? open)%Z :: running open delta
  end.

Definition crossed_splits (messages : list Message) : list bool :=
  let uses := collect_uses 0 messages ∅ in
  let delta := count_results uses 0 messages (replicate (length messages + 2) 0%Z) in
  running 0 (take (S (length messages)) delta).

Definition may_split (messages : list Message) (crossed : list bool) (split : nat) : bool :=
  negb (default true (crossed !! split))
  && match messages !! split with Some m => is_split_point m | None => false end.

Definition plan_summary (messages : list Message) (keep_recent_messages : nat) : option nat :=
  let crossed := crossed_splits messages in
  match List.filter (may_split messages crossed)
          (rev (seq MIN_SUMMARIZED (length messages - MIN_SUMMARIZED))) with
  | [] => None
  | latest :: splits =>
      Some (match List.find (fun split => Nat.leb keep_recent_messages (length messages - split))
                    (latest :: splits) with
            | Some split => split
            | None => latest
            end)
  end.

Definition summary_message (stamp : id * N) (summary : text) : Message :=
  new_message stamp User
    [BText (trim_end (render_template COMPACTION_SUMMARY [(str "summary", trim summary)]))].

Definition is_summary (m : Message) : bool :=
  let head := template_head COMPACTION_SUMMARY in
  is_user m && negb (is_empty head) && starts_with head (message_text m).

Definition apply_summary (messages : list Message) (split : nat) (summary : Message) : list Message :=
  summary :: drop (Nat.min split (length messages)) messages.

(** * [micro.rs] *)

Definition CLEARED_PREFIX : text := str "[cleared".

Record ClearTarget := mkClearTarget {
  target_message : nat;
  target_block : nat;
  target_call : id;
  target_chars : nat
}.

Definition result_text (parts : list ToolResultPart) : text :=
  join [NEWLINE] (omap (fun p => match p with PartText t => Some t | PartImage _ => None end) parts).

(** The results of a history with their places. *)
Definition placed : Type := nat * nat * id * list ToolResultPart.

Definition block_result (message block : nat) (b : ContentBlock) : option placed :=
  match b with BToolResult i parts _ => Some (message, block, i, parts) | _ => None end.

Definition message_results (message : nat) (m : Message) : list placed :=
  omap (fun r => r) (imap (block_result message) (content m)).

Definition all_results (messages : list Message) : list placed :=
  concat (imap message_results messages).

Definition clear_target (r : placed) : option ClearTarget :=
  let '(message, block, i, parts) := r in
  let t := result_text parts in
  if starts_with CLEARED_PREFIX (trim_start_by is_whitespace t) then None
  else Some (mkClearTarget message block i (length t)).

Definition older_results (messages : list Message) (keep_recent : nat) : list ClearTarget :=
  let results := all_results messages in
  omap clear_target (take (length results - keep_recent) results).

Definition plan_microcompact (messages : list Message) (keep_recent min_chars : nat) : list ClearTarget :=
  List.filter (fun t => Nat.ltb min_chars (target_chars t)) (older_results messages keep_recent).

Definition is_image (p : ToolResultPart) : bool := match p with PartImage _ => true | PartText _ => false end.

(** One target: the new message list and whether it was applied. *)
Definition apply_target (replacement : ClearTarget -> text -> text) (acc : list Message * nat)
    (target : ClearTarget) : list Message * nat :=
  let '(messages, applied) := acc in
  match messages !! target_message target with
  | Some m =>
      match content m !! target_block target with
      | Some (BToolResult i parts e) =>
          if negb (teqb i (target_call target)) then acc
          else
            let t := replacement target (result_text parts) in
            let b := BToolResult i (PartText t :: List.filter is_image parts) e in
            (<[target_message target := set_content m (<[target_block target := b]> (content m))]> messages,
             S applied)
      | _ => acc
      end
  | None => acc
  end.

Definition apply_microcompact (messages : list Message) (targets : list ClearTarget)
    (replacement : ClearTarget -> text -> text) : list Message * nat :=
  foldl (apply_target replacement) (messages, 0%nat) targets.

(** * [ranked.rs] *)

Definition IRRELEVANT_FLOOR_DIVISOR : nat := 4.

Definition ranked_clears (floor min_chars : nat) (relevance : option bool) (target : ClearTarget) : bool :=
  match relevance with
  | Some true => false
  | Some false => Nat.ltb floor (target_chars target)
  | None => Nat.ltb min_chars (target_chars target)
  end.

Definition plan_microcompact_ranked (messages : list Message) (keep_recent min_chars : nat)
    (relevance : id -> option bool) (protected : id -> bool) : list ClearTarget :=
  let floor := (min_chars / IRRELEVANT_FLOOR_DIVISOR)%nat in
  List.filter (fun t => ranked_clears floor min_chars (relevance (target_call t)) t)
    (List.filter (fun t => negb (protected (target_call t))) (older_results messages keep_recent)).

(** * [keeps.rs] *)

Inductive KeepReason := NamedFile | FailingCheck | EditedSince.

(** The calls of a history and the message that last edited each path. *)
Definition note_use (index : nat) (acc : gmap id (text * json) * gmap text nat) (u : id * text * json)
  : gmap id (text * json) * gmap text nat :=
  let '(calls, edited_at) := acc in
  let '(i, n, v) := u in
  (<[i := (n, v)]> calls,
   if is_edit n then foldl (fun m p => <[p := index]> m) edited_at (call_paths v) else edited_at).

Fixpoint note_uses (index : nat) (messages : list Message) (acc : gmap id (text * json) * gmap text nat)
  : gmap id (text * json) * gmap text nat :=
  match messages with
  | [] => acc
  | m :: messages => note_uses (S index) messages (foldl (note_use index) acc (tool_uses m))
  end.

Definition protect_block (named : list text) (calls : gmap id (text * json)) (edited_at : gmap text nat)
    (index : nat) (acc : gmap id KeepReason * option id) (b : ContentBlock) : gmap id KeepReason * option id :=
  let '(protected, failing) := acc in
  match b with
  | BToolResult i _ is_error =>
      match calls !! i with
      | Some (n, v) =>
          let failing := if is_error && is_check n then Some i else failing in
          let paths := call_paths v in
          if existsb (names_path named) paths then (<[i := NamedFile]> protected, failing)
          else if existsb (fun p => match edited_at !! p with Some at_ => Nat.ltb index at_ | None => false end)
                    paths
          then (<[i := EditedSince]> protected, failing)
          else (protected, failing)
      | None => acc
      end
  | _ => acc
  end.

Fixpoint protect_blocks (named : list text) (calls : gmap id (text * json)) (edited_at : gmap text nat)
    (index : nat) (messages : list Message) (acc : gmap id KeepReason * option id)
  : gmap id KeepReason * option id :=
  match messages with
  | [] => acc
  | m :: messages =>
      protect_blocks named calls edited_at (S index) messages
        (foldl (protect_block named calls edited_at index) acc (content m))
  end.

Definition protected_results (messages : list Message) (named : list text) : gmap id KeepReason :=
  let '(calls, edited_at) := note_uses 0 messages (∅, ∅) in
  let '(protected, failing) := protect_blocks named calls edited_at 0 messages (∅, None) in
  match failing with Some i => <[i := FailingCheck]> protected | None => protected end.

End WithJson.
