(* ===== verification/CompactionFacts.v ===== *)
(** Summaries split a history cleanly; clearing old results does what was planned. *)

From stdpp Require Import gmap sets.
From S2P Require Export WellFormed Compaction.

Section WithJson.
Context {J : Json}.

(** * Splits that separate a call from its result *)

(** The message a call is first made in. *)
Definition first_use (messages : list Message) (i : id) : option nat :=
  position (fun m => mem i (calls_of m)) messages.

Lemma add_uses_lookup index calls uses i :
  foldl (add_use index) uses calls !! i
  = match uses !! i with Some n => Some n | None => if mem i calls then Some index else None end.
Proof using.
  revert uses. induction calls as [|c calls IH]; intros uses; cbn; [by destruct (uses !! i)|].
  rewrite IH. unfold add_use, mem. cbn. destruct (teqb_spec i c) as [->|Hne]; cbn.
  - destruct (uses !! c) as [n|] eqn:E; [by rewrite ?E|]. by rewrite lookup_insert_eq.
  - destruct (uses !! c); [done|]. by rewrite lookup_insert_ne by done.
Qed.

Lemma collect_uses_lookup messages index uses i :
  collect_uses index messages uses !! i
  = match uses !! i with Some n => Some n | None => (fun n => index + n)%nat <$> first_use messages i end.
Proof using.
  revert index uses. induction messages as [|m messages IH]; intros index uses; cbn.
  - by destruct (uses !! i).
  - rewrite IH, add_uses_lookup. destruct (uses !! i) as [n|]; [done|].
    destruct (mem i (calls_of m)); cbn; [by rewrite Nat.add_0_r|]. fold (first_use messages i).
    destruct (first_use messages i); cbn; [|done]. f_equal. lia.
Qed.

Lemma uses_first messages i : collect_uses 0 messages ∅ !! i = first_use messages i.
Proof using. rewrite collect_uses_lookup, lookup_empty. by destruct (first_use messages i). Qed.

(** The pairs of a call and its result, by their messages, smaller first. *)
Definition block_pair (uses : id -> option nat) (index : nat) (b : ContentBlock) : option (nat * nat) :=
  (fun u => (Nat.min u index, Nat.max u index)) <$> (result_of b ≫= uses).

Fixpoint pairs (uses : id -> option nat) (index : nat) (messages : list Message) : list (nat * nat) :=
  match messages with
  | [] => []
  | m :: messages => omap (block_pair uses index) (content m) ++ pairs uses (S index) messages
  end.

Definition count_pairs (delta : list Z) (ps : list (nat * nat)) : list Z :=
  foldl (fun d p => count_pair d (fst p) (snd p)) delta ps.

Lemma count_blocks_pairs uses index blocks delta :
  foldl (count_result uses index) delta blocks
  = count_pairs delta (omap (block_pair (fun i => uses !! i) index) blocks).
Proof using.
  revert delta. induction blocks as [|b blocks IH]; intros delta; cbn; [done|].
  rewrite IH. unfold count_result, block_pair. by destruct (result_of b ≫= _).
Qed.

Lemma count_results_pairs uses index messages delta :
  count_results uses index messages delta = count_pairs delta (pairs (fun i => uses !! i) index messages).
Proof using.
  revert index delta. induction messages as [|m messages IH]; intros index delta; cbn; [done|].
  rewrite IH, count_blocks_pairs. unfold count_pairs. by rewrite foldl_app.
Qed.

Definition total (l : list Z) : Z := foldr Z.add 0%Z l.

Lemma running_lookup delta open s :
  (s < length delta)%nat -> running open delta !! s = Some (0 <? open + total (take (S s) delta))%Z.
Proof using.
  revert open s. induction delta as [|c delta IH]; intros open s Hs; cbn in Hs; [lia|].
  destruct s as [|s]; cbn [running].
  - rewrite firstn_cons, take_0. cbn. do 2 f_equal. lia.
  - cbn [lookup list_lookup]. rewrite IH, (firstn_cons (S s)) by lia. cbn [total foldr]. f_equal. f_equal.
    unfold total. lia.
Qed.

Lemma total_alter d k l s :
  (k < length l)%nat ->
  total (take s (alter (fun n => n + d)%Z k l)) = (total (take s l) + (if Nat.ltb k s then d else 0))%Z.
Proof using.
  revert k s. induction l as [|x l IH]; intros k s Hk; cbn in Hk; [lia|].
  destruct s as [|s]; [done|]. destruct k as [|k]; cbn -[Nat.ltb].
  - replace (Nat.ltb 0 (S s)) with true by done. lia.
  - change (list_alter (fun n => n + d)%Z k l) with (alter (fun n => n + d)%Z k l). rewrite IH by lia.
    replace (Nat.ltb (S k) (S s)) with (Nat.ltb k s) by done. unfold total in *. lia.
Qed.

Definition crosses (s : nat) (p : nat * nat) : bool := Nat.ltb (fst p) s && Nat.leb s (snd p).

Lemma total_count_pair delta lo hi s :
  (hi < length delta - 1)%nat ->
  total (take (S s) (count_pair delta lo hi))
  = (total (take (S s) delta) + (if crosses s (lo, hi) then 1 else 0))%Z.
Proof using.
  intros Hhi. unfold count_pair, crosses. cbn [fst snd].
  destruct (Nat.ltb_spec lo hi) as [Hlt|Hge].
  - change (fun n => (n - 1)%Z) with (fun n => (n + (-1))%Z).
    rewrite total_alter, total_alter by (rewrite ?length_alter; lia).
    destruct (Nat.ltb_spec (S lo) (S s)), (Nat.ltb_spec (S hi) (S s)), (Nat.ltb_spec lo s), (Nat.leb_spec s hi);
      cbn; lia.
  - destruct (Nat.ltb_spec lo s), (Nat.leb_spec s hi); cbn; lia.
Qed.

Lemma length_count_pair delta lo hi : length (count_pair delta lo hi) = length delta.
Proof using. unfold count_pair. destruct (Nat.ltb lo hi); [by rewrite !length_alter|done]. Qed.

Lemma total_count_pairs ps delta s :
  Forall (fun p => (snd p < length delta - 1)%nat) ps ->
  total (take (S s) (count_pairs delta ps))
  = (total (take (S s) delta) + Z.of_nat (length (List.filter (crosses s) ps)))%Z.
Proof using.
  revert delta. induction ps as [|[lo hi] ps IH]; intros delta Hf; cbn [count_pairs foldl]; [cbn; lia|].
  apply Forall_cons in Hf as [Hhi Hf]. unfold count_pairs in IH. rewrite IH.
  - cbn [fst snd List.filter]. rewrite total_count_pair by done. destruct (crosses s (lo, hi)); cbn [length]; lia.
  - eapply Forall_impl; [exact Hf|]. intros p. cbn. by rewrite length_count_pair.
Qed.

Lemma length_count_pairs ps delta : length (count_pairs delta ps) = length delta.
Proof using.
  revert delta. induction ps as [|p ps IH]; intros delta; cbn; [done|].
  unfold count_pairs in IH. by rewrite IH, length_count_pair.
Qed.

Lemma pairs_In uses messages index lo hi :
  (lo, hi) ∈ pairs uses index messages <->
  exists j m i u, messages !! j = Some m /\ i ∈ results_in (content m) /\ uses i = Some u
    /\ lo = Nat.min u (index + j) /\ hi = Nat.max u (index + j).
Proof using.
  revert index. induction messages as [|m messages IH]; intros index; cbn [pairs].
  - split; [by intros ?%not_elem_of_nil|by intros (? & ? & ? & ? & ? & _)].
  - rewrite elem_of_app, IH, list_elem_of_omap. unfold block_pair, results_in. split.
    + intros [(b & Hb & E)|(j & m' & i & u & ? & ? & ? & -> & ->)].
      * destruct (result_of b) as [i|] eqn:Ei; [|done]. cbn in E. destruct (uses i) as [u|] eqn:Eu; [|done].
        cbn in E. simplify_eq. exists 0%nat, m, i, u. rewrite Nat.add_0_r. split_and!; try done.
        apply list_elem_of_omap. eauto.
      * exists (S j), m', i, u. split_and!; try done; f_equal; lia.
    + intros ([|j] & m' & i & u & Hm & Hi & Hu & -> & ->); cbn in Hm.
      * simplify_eq. left. apply list_elem_of_omap in Hi as (b & Hb & Ei). exists b. split; [done|].
        rewrite Ei. cbn. rewrite Hu. cbn. by rewrite Nat.add_0_r.
      * right. exists j, m', i, u. split_and!; try done; f_equal; lia.
Qed.

Lemma first_use_lt messages i u : first_use messages i = Some u -> (u < length messages)%nat.
Proof using. intros (m & H & _)%position_lookup. by eapply lookup_lt_Some. Qed.

(** A call and its result are on opposite sides of a split. *)
Definition separates (messages : list Message) (s : nat) : Prop :=
  exists i u j m, first_use messages i = Some u /\ messages !! j = Some m /\ i ∈ results_in (content m)
    /\ (Nat.min u j < s <= Nat.max u j)%nat.

Lemma crossed_splits_spec messages s :
  (s <= length messages)%nat ->
  exists b, crossed_splits messages !! s = Some b /\ (b = true <-> separates messages s).
Proof using.
  intros Hs. unfold crossed_splits. rewrite count_results_pairs.
  set (ps := pairs _ 0 messages). set (delta := replicate _ 0%Z).
  assert (Hps : Forall (fun p => (snd p < length delta - 1)%nat) ps).
  { apply Forall_forall. intros [lo hi] (j & m & i & u & Hj & _ & Hu & -> & ->)%pairs_In. cbn [snd].
    rewrite uses_first in Hu. apply first_use_lt in Hu. apply lookup_lt_Some in Hj.
    unfold delta. rewrite length_replicate. lia. }
  assert (Hd : total (take (S s) delta) = 0%Z).
  { unfold delta. rewrite take_replicate. generalize (Nat.min (S s) (length messages + 2)). clear.
    induction n as [|n IH]; [done|]. exact IH. }
  eexists. split.
  - apply running_lookup. rewrite length_take, length_count_pairs. unfold delta. rewrite length_replicate. lia.
  - rewrite take_take, Nat.min_l, total_count_pairs, Hd by (done || lia). rewrite Z.ltb_lt.
    unfold separates. split.
    + intros H. destruct (List.filter (crosses s) ps) as [|p l] eqn:E; [cbn in H; lia|].
      assert (Hp : p ∈ ps /\ crosses s p = true).
      { rewrite list_elem_of_In, <- filter_In, E. by left. }
      destruct p as [lo hi], Hp as [(j & m & i & u & Hj & Hi & Hu & -> & ->)%pairs_In Hc].
      rewrite uses_first in Hu. exists i, u, j, m. unfold crosses in Hc. cbn [fst snd] in Hc.
      apply andb_true_iff in Hc as [?%Nat.ltb_lt ?%Nat.leb_le]. split_and!; try done; lia.
    + intros (i & u & j & m & Hu & Hj & Hi & Hc).
      assert (Hp : (Nat.min u j, Nat.max u j) ∈ ps).
      { apply pairs_In. exists j, m, i, u. rewrite uses_first. done. }
      assert (Hin : In (Nat.min u j, Nat.max u j) (List.filter (crosses s) ps)).
      { apply filter_In. split; [by apply list_elem_of_In|]. unfold crosses. cbn [fst snd].
        apply andb_true_iff. rewrite Nat.ltb_lt, Nat.leb_le. lia. }
      destruct (List.filter (crosses s) ps); [done|cbn; lia].
Qed.

(** * Where a summary cuts *)

(** The splits the plan may choose. *)
Definition clean_split (messages : list Message) (s : nat) : Prop :=
  ~ separates messages s /\ exists m, messages !! s = Some m /\ is_split_point m = true.

Lemma may_split_spec messages s :
  may_split messages (crossed_splits messages) s = true <-> clean_split messages s.
Proof using.
  unfold may_split, clean_split. destruct (messages !! s) as [m|] eqn:Hm.
  - destruct (crossed_splits_spec messages s) as (b & -> & Hb); [by apply Nat.lt_le_incl; eapply lookup_lt_Some|].
    cbn. rewrite andb_true_iff, negb_true_iff. split.
    + intros [-> Hp]. split; [|eauto]. intros H. by apply Hb in H.
    + intros [Hn (m' & [= <-] & Hp)]. split; [|done]. destruct b; [|done]. exfalso. by apply Hn, Hb.
  - rewrite andb_false_r. split; [done|]. by intros [_ (m & ? & _)].
Qed.

(** The first match in a descending range is the largest. *)
Lemma find_descending (f g : nat -> bool) a n x :
  List.find f (List.filter g (rev (seq a n))) = Some x ->
  forall y, (x < y < a + n)%nat -> g y = true -> f y = false.
Proof using.
  induction n as [|n IH]; [done|]. rewrite seq_S, rev_app_distr. cbn. intros H y Hy Hg.
  destruct (Nat.eq_dec y (a + n)) as [->|Hne].
  - rewrite Hg in H. cbn in H. destruct (f (a + n)%nat) eqn:E; [|done]. simplify_eq. lia.
  - apply IH; [|lia|done]. destruct (g (a + n)%nat); [|done]. cbn in H.
    destruct (f (a + n)%nat); [simplify_eq; lia|done].
Qed.

Lemma in_candidates g a n x : In x (List.filter g (rev (seq a n))) <-> (a <= x < a + n)%nat /\ g x = true.
Proof using. by rewrite filter_In, <- in_rev, in_seq. Qed.

Lemma head_descending g a n x l :
  List.filter g (rev (seq a n)) = x :: l -> forall y, (x < y < a + n)%nat -> g y = false.
Proof using.
  intros H y Hy. destruct (g y) eqn:E; [|done].
  assert (Hf : List.find (fun _ => true) (List.filter g (rev (seq a n))) = Some x) by by rewrite H.
  by specialize (find_descending _ _ _ _ _ Hf y Hy E).
Qed.

(** A summary never separates a call from its result.  The split chosen
    is at an assistant message or at the start of a user turn, with no call
    on one side and its result on the other; of all such splits it is the
    latest that leaves enough recent messages, and the latest at all when
    none does; and no split is chosen only when there is none. *)
Theorem plan_summary_splits (messages : list Message) (keep_recent : nat) :
  let n := length messages in
  match plan_summary messages keep_recent with
  | Some s =>
      (MIN_SUMMARIZED <= s < n)%nat /\ clean_split messages s
      /\ (forall s', (s < s' < n)%nat -> clean_split messages s' -> (n - s' < keep_recent)%nat)
      /\ ((n - s < keep_recent)%nat -> forall s', (s < s' < n)%nat -> ~ clean_split messages s')
  | None => forall s, (MIN_SUMMARIZED <= s < n)%nat -> ~ clean_split messages s
  end.
Proof using.
  intros n. unfold plan_summary. set (g := may_split messages (crossed_splits messages)). fold n.
  pose proof (in_candidates g MIN_SUMMARIZED (n - MIN_SUMMARIZED)) as Hin.
  destruct (List.filter g (rev (seq MIN_SUMMARIZED (n - MIN_SUMMARIZED)))) as [|latest l] eqn:E.
  - intros s Hs Hc%may_split_spec. destruct (proj2 (Hin s)). split; [lia|done].
  - assert (Hlatest : forall s', (latest < s' < n)%nat -> ~ clean_split messages s').
    { intros s' Hs' Hc%may_split_spec. pose proof (head_descending _ _ _ _ _ E s') as H.
      fold g in Hc. rewrite H in Hc; [done|]. lia. }
    set (f := fun split => Nat.leb keep_recent (n - split)). destruct (List.find f (latest :: l)) as [s|] eqn:Ef.
    + pose proof (find_some _ _ Ef) as [Hs Hk%Nat.leb_le]. apply Hin in Hs as [Hs Hc]. split_and!.
      * lia.
      * lia.
      * by apply may_split_spec.
      * intros s' Hs' Hc'%may_split_spec. rewrite <- E in Ef.
        pose proof (find_descending _ _ _ _ _ Ef s') as H. specialize (H ltac:(lia) Hc').
        by apply Nat.leb_gt in H.
      * lia.
    + assert (Hs : In latest (latest :: l)) by by left. apply Hin in Hs as [Hs Hc]. split_and!.
      * lia.
      * lia.
      * by apply may_split_spec.
      * intros s' Hs' Hc'. by destruct (Hlatest s' Hs').
      * intros _. exact Hlatest.
Qed.

Lemma plan_summary_clean messages keep_recent s :
  plan_summary messages keep_recent = Some s -> clean_split messages s.
Proof using.
  unfold plan_summary. set (g := may_split messages (crossed_splits messages)).
  destruct (List.filter g (rev (seq MIN_SUMMARIZED (length messages - MIN_SUMMARIZED)))) as [|latest l] eqn:E; [done|].
  set (f := fun split => Nat.leb keep_recent (length messages - split)).
  assert (H : forall x, In x (latest :: l) -> clean_split messages x).
  { intros x Hx. rewrite <- E in Hx. apply in_candidates in Hx as [_ Hc]. by apply may_split_spec. }
  destruct (List.find f (latest :: l)) as [x|] eqn:Ef; intros [= <-].
  - apply find_some in Ef as [Hx _]. by apply H.
  - apply H. by left.
Qed.

Lemma split_point_clean m : is_split_point m = true -> is_user m = true -> results_in (content m) = [].
Proof using.
  unfold is_split_point, is_user. destruct (role m); [|done]. intros [_ H%negb_true_iff]%andb_true_iff _.
  apply results_in_others, Forall_forall. intros b Hb%list_elem_of_In. by eapply existsb_false_In in H.
Qed.

Lemma summary_message_clean stamp t :
  is_user (summary_message stamp t) = true /\ fits [] (summary_message stamp t).
Proof using. split; [done|]. by apply fits_nothing. Qed.

Lemma apply_summary_fits messages s stamp t :
  leads_by fits [] messages [] -> clean_split messages s ->
  leads_by fits [] (apply_summary messages s (summary_message stamp t)) [].
Proof using.
  intros Hl [_ (m & Hm & Hp)]. unfold apply_summary. cbn [leads_by].
  destruct (summary_message_clean stamp t) as [-> Hf]. split; [done|].
  rewrite Nat.min_l by (by apply Nat.lt_le_incl; eapply lookup_lt_Some).
  eapply cut_clean; [done|exact Hm|]. by apply split_point_clean.
Qed.

End WithJson.

Section WithJson.
Context {J : Json}.

(** * Results and their places *)

Definition place (r : placed) : nat * nat := fst (fst r).
Definition parts_of (r : placed) : list ToolResultPart := snd r.

(** The results of a message, and of a history, counted from any index on. *)
Fixpoint results_at (mi bi : nat) (bs : list ContentBlock) : list placed :=
  match bs with
  | [] => []
  | b :: bs => option_list (block_result mi bi b) ++ results_at mi (S bi) bs
  end.

Fixpoint results_from (mi : nat) (ms : list Message) : list placed :=
  match ms with
  | [] => []
  | m :: ms => results_at mi 0 (content m) ++ results_from (S mi) ms
  end.

Lemma omap_imap_results mi bi bs :
  omap (fun r => r) (imap (fun k => block_result mi (bi + k)) bs) = results_at mi bi bs.
Proof using.
  revert bi. induction bs as [|b bs IH]; intros bi; [done|].
  rewrite imap_cons, Nat.add_0_r. cbn [results_at]. rewrite <- (IH (S bi)).
  rewrite (imap_ext ((fun k => block_result mi (bi + k)) ∘ S) (fun k => block_result mi (S bi + k)))
    by (intros; unfold compose; by rewrite Nat.add_succ_r).
  cbn. by destruct (block_result mi bi b).
Qed.

Lemma concat_imap_results mi ms :
  concat (imap (fun k => message_results (mi + k)) ms) = results_from mi ms.
Proof using.
  revert mi. induction ms as [|m ms IH]; intros mi; [done|]. rewrite imap_cons. cbn [concat results_from].
  rewrite Nat.add_0_r. f_equal; [by apply (omap_imap_results mi 0)|]. rewrite <- IH. f_equal.
  apply imap_ext. intros. unfold compose. by rewrite Nat.add_succ_r.
Qed.

Lemma all_results_from ms : all_results ms = results_from 0 ms.
Proof using. apply (concat_imap_results 0). Qed.

Lemma results_at_In mi bi bs r :
  r ∈ results_at mi bi bs <->
  exists k i parts e, r = (mi, bi + k, i, parts)%nat /\ bs !! k = Some (BToolResult i parts e).
Proof using.
  revert bi. induction bs as [|b bs IH]; intros bi; cbn [results_at].
  - split; [by intros ?%not_elem_of_nil|by intros (? & ? & ? & ? & _ & ?)].
  - rewrite elem_of_app, IH. split.
    + intros [H|(k & i & parts & e & -> & Hk)].
      * destruct b; cbn in H; try (by apply not_elem_of_nil in H); []. apply list_elem_of_singleton in H as ->.
        exists 0%nat. rewrite Nat.add_0_r. eauto.
      * exists (S k), i, parts, e. split; [|done]. by rewrite Nat.add_succ_r.
    + intros ([|k] & i & parts & e & -> & Hk); cbn in Hk.
      * simplify_eq. left. cbn. rewrite Nat.add_0_r. by apply list_elem_of_singleton.
      * right. exists k, i, parts, e. split; [|done]. by rewrite Nat.add_succ_r.
Qed.

Lemma results_from_In mi ms r :
  r ∈ results_from mi ms <->
  exists j m k i parts e, r = (mi + j, k, i, parts)%nat /\ ms !! j = Some m
    /\ content m !! k = Some (BToolResult i parts e).
Proof using.
  revert mi. induction ms as [|m ms IH]; intros mi; cbn [results_from].
  - split; [by intros ?%not_elem_of_nil|by intros (? & ? & ? & ? & ? & ? & _ & ? & _)].
  - rewrite elem_of_app, IH, results_at_In. split.
    + intros [(k & i & parts & e & -> & Hk)|(j & m' & k & i & parts & e & -> & Hj & Hk)].
      * exists 0%nat, m, k, i, parts, e. by rewrite Nat.add_0_r.
      * exists (S j), m', k, i, parts, e. split_and!; [|done..]. by rewrite Nat.add_succ_r.
    + intros ([|j] & m' & k & i & parts & e & -> & Hj & Hk); cbn in Hj.
      * simplify_eq. left. exists k, i, parts, e. by rewrite Nat.add_0_r.
      * right. exists j, m', k, i, parts, e. split_and!; [|done..]. by rewrite Nat.add_succ_r.
Qed.

Lemma results_at_places mi bi bs : NoDup (map place (results_at mi bi bs)).
Proof using.
  revert bi. induction bs as [|b bs IH]; intros bi; cbn [results_at]; [constructor|].
  destruct b; cbn; try apply IH. constructor; [|apply IH].
  intros ((((mi' & bi') & i') & parts') & E & (k & ? & ? & ? & Hr & _)%results_at_In)%list_elem_of_fmap.
  cbn in *. simplify_eq. lia.
Qed.

Lemma results_from_places mi ms : NoDup (map place (results_from mi ms)).
Proof using.
  revert mi. induction ms as [|m ms IH]; intros mi; cbn [results_from]; [constructor|].
  rewrite map_app. apply NoDup_app. split_and!; [apply results_at_places| |apply IH].
  intros p (r & -> & (k & i & parts & e & -> & _)%results_at_In)%list_elem_of_fmap
    (r' & E & (j & m' & k' & i' & parts' & e' & -> & _)%results_from_In)%list_elem_of_fmap.
  cbn in E. simplify_eq. lia.
Qed.

Lemma nodup_map_eq {A B} (f : A -> B) l x y : NoDup (map f l) -> x ∈ l -> y ∈ l -> f x = f y -> x = y.
Proof using.
  induction l as [|z l IH]; cbn; [by intros _ ?%not_elem_of_nil|].
  intros [Hz Hn]%NoDup_cons [->|Hx]%elem_of_cons [->|Hy]%elem_of_cons E; [done| | |auto].
  - exfalso. apply Hz, list_elem_of_fmap. eauto.
  - exfalso. apply Hz, list_elem_of_fmap. eauto.
Qed.

(** * One target *)

(** The result at a place gets new parts. *)
Definition set_parts (p : nat * nat) (parts : list ToolResultPart) (r : placed) : placed :=
  if bool_decide (place r = p) then (fst r, parts) else r.

Lemma set_parts_other p parts rs : p ∉ map place rs -> map (set_parts p parts) rs = rs.
Proof using.
  induction rs as [|r rs IH]; cbn; [done|]. intros [Hr Hrs]%not_elem_of_cons. rewrite IH by done.
  unfold set_parts. by rewrite bool_decide_eq_false_2 by congruence.
Qed.

Lemma results_at_insert mi bi k bs i old new e :
  bs !! k = Some (BToolResult i old e) ->
  results_at mi bi (<[k := BToolResult i new e]> bs) = map (set_parts (mi, bi + k)%nat new) (results_at mi bi bs).
Proof using.
  revert bi k. induction bs as [|b bs IH]; intros bi [|k] Hk; cbn in Hk; [done..| |].
  - simplify_eq. cbn [results_at insert list_insert]. cbn. rewrite Nat.add_0_r. f_equal.
    + unfold set_parts. by rewrite bool_decide_eq_true_2 by done.
    + symmetry. apply set_parts_other. intros (r & Hr & (k & ? & ? & ? & -> & _)%results_at_In)%list_elem_of_fmap.
      cbn in Hr. simplify_eq. lia.
  - cbn [results_at]. change (<[S k := BToolResult i new e]> (b :: bs)) with (b :: <[k := BToolResult i new e]> bs).
    cbn [results_at]. rewrite IH, map_app by done. f_equal.
    + destruct b; cbn; try done. unfold set_parts. rewrite bool_decide_eq_false_2; [done|].
      cbn. intros [= H]. lia.
    + by rewrite Nat.add_succ_r.
Qed.

Lemma results_from_insert mi j k ms m i old new e :
  ms !! j = Some m -> content m !! k = Some (BToolResult i old e) ->
  results_from mi (<[j := set_content m (<[k := BToolResult i new e]> (content m))]> ms)
  = map (set_parts (mi + j, k)%nat new) (results_from mi ms).
Proof using.
  revert mi j. induction ms as [|m' ms IH]; intros mi [|j] Hj Hk; cbn in Hj; [done..| |].
  - simplify_eq. cbn. rewrite map_app, Nat.add_0_r. f_equal; [by apply results_at_insert with (bi := 0%nat) (old := old)|].
    symmetry. apply set_parts_other.
    intros (r & Hr & (j & ? & ? & ? & ? & ? & -> & _)%results_from_In)%list_elem_of_fmap. cbn in Hr. simplify_eq. lia.
  - cbn. rewrite map_app. f_equal.
    + symmetry. apply set_parts_other.
      intros (r & Hr & (? & ? & ? & ? & -> & _)%results_at_In)%list_elem_of_fmap. cbn in Hr. simplify_eq. lia.
    + rewrite IH by done. by rewrite Nat.add_succ_r.
Qed.

(** What a target leaves of a block: the same result, with the same images;
    and of a message. *)
Definition same_block (a b : ContentBlock) : Prop :=
  match a, b with
  | BToolResult i p e, BToolResult i' p' e' =>
      i = i' /\ e = e' /\ List.filter is_image p = List.filter is_image p'
  | _, _ => a = b
  end.

Definition same_shape (m n : Message) : Prop :=
  message_id m = message_id n /\ role m = role n /\ created_at m = created_at n
  /\ Forall2 same_block (content m) (content n).

#[local] Instance same_block_refl : Reflexive same_block.
Proof using. by intros []. Qed.

#[local] Instance same_shape_refl : Reflexive same_shape.
Proof using. intros m. by repeat split. Qed.

#[local] Instance same_block_trans : Transitive same_block.
Proof using. intros [] [] []; cbn; try congruence. intros (-> & -> & ->) (-> & -> & ->). done. Qed.

#[local] Instance same_shape_trans : Transitive same_shape.
Proof using.
  intros a b c (? & ? & ? & H) (? & ? & ? & H'). repeat split; try congruence. by etrans.
Qed.

Definition target_place (t : ClearTarget) : nat * nat := (target_message t, target_block t).

(** A target names a result of the history. *)
Definition points (ms : list Message) (t : ClearTarget) : Prop :=
  exists parts, (target_message t, target_block t, target_call t, parts) ∈ results_from 0 ms.

Definition images (parts : list ToolResultPart) : list ToolResultPart := List.filter is_image parts.

Lemma filter_is_image_idem parts : List.filter is_image (List.filter is_image parts) = List.filter is_image parts.
Proof using. induction parts as [|p parts IH]; cbn; [done|]. destruct (is_image p) eqn:E; cbn; [by rewrite E, IH|done]. Qed.

Lemma apply_target_points replacement ms n t :
  points ms t ->
  exists ms' parts,
    apply_target replacement (ms, n) t = (ms', S n)
    /\ (target_place t, target_call t, parts) ∈ results_from 0 ms
    /\ results_from 0 ms'
       = map (set_parts (target_place t) (PartText (replacement t (result_text parts)) :: images parts))
           (results_from 0 ms)
    /\ Forall2 same_shape ms ms'.
Proof using.
  intros (parts & Hin). pose proof Hin as (j & m & k & i & parts' & e & E & Hj & Hk)%results_from_In.
  cbn in E. simplify_eq. unfold apply_target. rewrite Hj, Hk, teqb_refl. cbn [negb].
  eexists _, parts'. split; [done|]. split; [done|]. split.
  - by rewrite (results_from_insert 0 _ _ ms m (target_call t) parts' _ e).
  - rewrite <- (list_insert_id ms (target_message t) m) at 1 by done. apply Forall2_insert; [reflexivity|].
    repeat split; try done. cbn [content set_content].
    rewrite <- (list_insert_id (content m) (target_block t) (BToolResult (target_call t) parts' e)) at 1 by done.
    apply Forall2_insert; [reflexivity|]. cbn. split_and!; try done.
    unfold images. by rewrite filter_is_image_idem.
Qed.

(** What targets do to the results. *)
Definition clears (replacement : ClearTarget -> text -> text) (ts : list ClearTarget) (rs : list placed)
    (g : placed -> placed) : Prop :=
  (forall r, fst (g r) = fst r)
  /\ (forall r, place r ∉ map target_place ts -> g r = r)
  /\ (forall r t, r ∈ rs -> t ∈ ts -> place r = target_place t ->
       exists s, parts_of (g r) = PartText (replacement t s) :: images (parts_of r)).

Lemma set_parts_fst p parts r : fst (set_parts p parts r) = fst r.
Proof using. unfold set_parts. by case_bool_decide. Qed.

Lemma set_parts_ne p parts r : place r <> p -> set_parts p parts r = r.
Proof using. intros H. unfold set_parts. by rewrite bool_decide_eq_false_2. Qed.

Lemma points_set_parts rs p parts t :
  (exists q, (target_message t, target_block t, target_call t, q) ∈ rs) ->
  exists q, (target_message t, target_block t, target_call t, q) ∈ map (set_parts p parts) rs.
Proof using.
  intros (q & Hq). set (r := (target_message t, target_block t, target_call t, q)) in Hq.
  exists (snd (set_parts p parts r)). apply list_elem_of_fmap. exists r. split; [|done].
  pose proof (set_parts_fst p parts r) as E. destruct (set_parts p parts r). cbn in *. by rewrite E.
Qed.

Lemma apply_targets replacement ts ms n :
  Forall (points ms) ts -> NoDup (map target_place ts) ->
  exists ms' g,
    foldl (apply_target replacement) (ms, n) ts = (ms', n + length ts)%nat
    /\ results_from 0 ms' = map g (results_from 0 ms)
    /\ clears replacement ts (results_from 0 ms) g
    /\ Forall2 same_shape ms ms'.
Proof using.
  revert ms n. induction ts as [|t ts IH]; intros ms n Hp Hn.
  - exists ms, (fun r => r). cbn. rewrite Nat.add_0_r, map_id. split_and!; try done. split_and!; try done.
    by intros r t _ ?%not_elem_of_nil.
  - apply Forall_cons in Hp as [Ht Hp]. apply NoDup_cons in Hn as [Hnt Hn].
    destruct (apply_target_points replacement ms n t Ht) as (ms1 & parts & E & Hin & Hrs & Hs).
    set (f := set_parts _ _) in Hrs.
    destruct (IH ms1 (S n)) as (ms2 & g & E2 & Hrs2 & (Hg1 & Hg2 & Hg3) & Hs2).
    { eapply Forall_impl; [exact Hp|]. intros t' Ht'. unfold points. rewrite Hrs. by apply points_set_parts. }
    { done. }
    exists ms2, (g ∘ f). cbn [foldl]. rewrite E, E2. unfold clears. split_and!.
    + f_equal. cbn. lia.
    + by rewrite Hrs2, Hrs, map_map.
    + intros r. unfold compose. rewrite Hg1. apply set_parts_fst.
    + intros r [Hr Hr']%not_elem_of_cons. unfold compose, f. rewrite set_parts_ne by done. by apply Hg2.
    + intros r t' Hr Ht' E'. unfold compose. apply elem_of_cons in Ht' as [->|Ht'].
      * assert (Ef : f r = (fst r, PartText (replacement t (result_text parts)) :: images parts)).
        { unfold f, set_parts. by rewrite bool_decide_eq_true_2. }
        rewrite Hg2 by (unfold place; rewrite Ef; cbn; unfold place in E'; by rewrite E').
        rewrite Ef. exists (result_text parts). cbn. do 2 f_equal.
        pose proof (results_from_places 0 ms) as Hnd.
        assert (r = (target_place t, target_call t, parts)) as ->; [|done].
        by eapply nodup_map_eq.
      * assert (Hne : place r <> target_place t).
        { intros E1. apply Hnt. rewrite <- E1, E'. apply list_elem_of_fmap. by exists t'. }
        unfold f. rewrite set_parts_ne by done. apply Hg3; [|done|done].
        rewrite Hrs. apply list_elem_of_fmap. exists r. split; [|done]. unfold f. by rewrite set_parts_ne.
    + by etrans.
Qed.

(** * The plan *)

Lemma clear_target_place r t :
  clear_target r = Some t ->
  r = (target_message t, target_block t, target_call t, parts_of r)
  /\ target_chars t = length (result_text (parts_of r)).
Proof using.
  destruct r as [[[mi bi] i] parts]. unfold clear_target, parts_of. cbn.
  destruct (starts_with _ _); [done|]. intros [= <-]. done.
Qed.

Lemma planned_sublist (f : ClearTarget -> bool) rs :
  map target_place (List.filter f (omap clear_target rs)) `sublist_of` map place rs.
Proof using.
  induction rs as [|r rs IH]; cbn; [done|]. destruct (clear_target r) as [t|] eqn:E; [|by constructor].
  cbn. destruct (f t); cbn; [|by constructor].
  apply clear_target_place in E as [E _].
  replace (place r) with (target_place t) by (by rewrite E). by constructor.
Qed.

Lemma planned_points (f : ClearTarget -> bool) ms k :
  Forall (points ms) (List.filter f (omap clear_target (take k (results_from 0 ms)))).
Proof using.
  apply Forall_forall. intros t [Ht _]%list_elem_of_In%filter_In.
  apply list_elem_of_In, list_elem_of_omap in Ht as (r & Hr & [E _]%clear_target_place).
  exists (parts_of r). rewrite <- E. by apply subseteq_take in Hr.
Qed.

Lemma planned_NoDup (f : ClearTarget -> bool) ms k :
  NoDup (map target_place (List.filter f (omap clear_target (take k (results_from 0 ms))))).
Proof using.
  eapply sublist_NoDup; [|apply planned_sublist].
  eapply sublist_NoDup; [apply (results_from_places 0 ms)|]. apply fmap_sublist, sublist_take.
Qed.

(** A replacement that starts with the marker. *)
Definition marked (replacement : ClearTarget -> text -> text) : Prop :=
  forall t s, starts_with CLEARED_PREFIX (trim_start_by is_whitespace (replacement t s)) = true.

Lemma result_text_cleared t parts : result_text (PartText t :: images parts) = t.
Proof using.
  unfold result_text, images. cbn. replace (omap _ (List.filter is_image parts)) with (@nil text); [done|].
  induction parts as [|[] parts IH]; cbn; [done|exact IH|exact IH].
Qed.

Lemma cleared_not_planned replacement t s r :
  marked replacement -> parts_of r = PartText (replacement t s) :: images (parts_of r) ->
  clear_target r = None.
Proof using.
  intros Hm. destruct r as [[[mi bi] i] parts]. unfold parts_of. cbn [snd]. intros E.
  unfold clear_target. rewrite E, result_text_cleared. by rewrite Hm.
Qed.

Lemma filter_nil_iff {A} (f : A -> bool) l : (forall x, In x l -> f x = false) -> List.filter f l = [].
Proof using.
  induction l as [|x l IH]; cbn; intros H; [done|]. rewrite (H x) by by left. apply IH. auto.
Qed.

(** Clearing leaves calls and results as they are matched. *)
Lemma same_block_result a b : same_block a b -> result_of a = result_of b.
Proof using. destruct a, b; cbn; try done; try congruence. by intros [-> _]. Qed.

Lemma same_block_other a b : same_block a b -> is_result a = false -> a = b.
Proof using. by destruct a, b. Qed.

Lemma same_blocks_results a b : Forall2 same_block a b -> results_in a = results_in b.
Proof using.
  unfold results_in. induction 1 as [|x y a b Hxy _ IH]; [done|]. cbn.
  by rewrite (same_block_result x y Hxy), IH.
Qed.

Lemma same_blocks_calls a b : Forall2 same_block a b -> omap tool_use a = omap tool_use b.
Proof using.
  induction 1 as [|x y a b Hxy _ IH]; [done|]. cbn. rewrite IH. clear IH.
  destruct x, y; cbn in *; try done; try congruence.
Qed.

Lemma same_blocks_filter (a b : list ContentBlock) :
  Forall2 same_block a b ->
  Forall2 same_block (List.filter is_result a ++ others a) (List.filter is_result b ++ others b).
Proof using.
  intros H. apply Forall2_app; unfold others; induction H as [|x y a b Hxy _ IH]; cbn; try constructor;
    assert (E : is_result x = is_result y) by (rewrite !result_of_is_result; by rewrite (same_block_result x y Hxy));
    rewrite <- E; destruct (is_result x); cbn; try constructor; done.
Qed.

Lemma results_first_ordered bs : bs = List.filter is_result bs ++ others bs <->
  exists k, Forall (fun b => is_result b = true) (take k bs) /\ Forall (fun b => is_result b = false) (drop k bs).
Proof using.
  split.
  - intros E. exists (length (List.filter is_result bs)). rewrite E at 2 4.
    rewrite take_app_length, drop_app_length. split; [|apply others_idem].
    apply Forall_forall. by intros b [_ ?]%list_elem_of_In%filter_In.
  - intros (k & Ht & Hd). rewrite <- (take_drop k bs) at 2 3.
    rewrite List.filter_app, others_app, filter_result_id, (filter_result_nil (drop k bs)), (others_results (take k bs)),
      others_fixed, app_nil_r, app_nil_l, take_drop by done. done.
Qed.

Lemma same_shape_fits calls m n : same_shape m n -> fits calls m -> fits calls n.
Proof using.
  intros (_ & _ & _ & H) [Hr Hf]. split; [by rewrite <- (same_blocks_results _ _ H)|].
  unfold results_first in *. apply results_first_ordered. apply results_first_ordered in Hf as (k & Ht & Hd).
  exists k.
  assert (Hsame : forall v (a b : list ContentBlock), Forall2 same_block a b ->
    Forall (fun x => is_result x = v) a -> Forall (fun x => is_result x = v) b).
  { intros v a b. induction 1 as [|x y a b Hxy _ IH]; [done|]. intros [Hx Ha]%Forall_cons. constructor; [|auto].
    by rewrite result_of_is_result, <- (same_block_result x y Hxy), <- result_of_is_result. }
  split; (eapply Hsame; [|done]); [by apply Forall2_take|by apply Forall2_drop].
Qed.

Lemma same_shape_leads ms ns prev q :
  Forall2 same_shape ms ns -> leads_by fits prev ms q -> leads_by fits prev ns q.
Proof using.
  intros H. revert prev. induction H as [|m n ms ns Hmn H IH]; intros prev; cbn; [done|].
  pose proof Hmn as (_ & Hr & _ & Hc). rewrite <- (is_user_role m n Hr).
  replace (calls_of n) with (calls_of m) by (unfold calls_of, tool_uses; by rewrite (same_blocks_calls _ _ Hc)).
  destruct (is_user m); intros [? ?]; split; auto. by eapply same_shape_fits.
Qed.

Lemma same_shape_tidy ms ns : Forall2 same_shape ms ns -> tidy ms -> tidy ns.
Proof using.
  intros H [Hf Ha]. split.
  - clear Ha. induction H as [|m n ms ns (_ & _ & _ & Hc) H IH]; [done|].
    apply Forall_cons in Hf as [Hm Hf]. constructor; [|auto]. unfold filled in *. by destruct Hc.
  - clear Hf. assert (Hu : forall p p' (m n : Message), option_Forall2 same_shape p p' -> same_shape m n ->
      unlike p m -> unlike p' n).
    { intros p p' m n Hp (_ & Hr & _). destruct Hp as [x y (_ & Hr' & _)|]; cbn; [congruence|done]. }
    assert (Hp : option_Forall2 same_shape None None) by constructor. revert Hp Ha.
    generalize (@None Message) at 1 3. generalize (@None Message). intros p' p Hp Ha. revert p p' Hp Ha.
    induction H as [|m n ms ns Hmn H IH]; intros p p' Hp Ha; [done|]. destruct Ha as [Hm Ha].
    split; [by eapply Hu|]. eapply IH; [|exact Ha]. by constructor.
Qed.

Lemma same_shape_provider_ok ms ns : Forall2 same_shape ms ns -> provider_ok ms -> provider_ok ns.
Proof using. intros H [Ht Hl]. split; [by eapply same_shape_tidy|by eapply same_shape_leads]. Qed.

Lemma plan_targets messages keep_recent min_chars :
  let older := (length (all_results messages) - keep_recent)%nat in
  plan_microcompact messages keep_recent min_chars
  = List.filter (fun t => Nat.ltb min_chars (target_chars t))
      (omap clear_target (take older (results_from 0 messages))).
Proof using. cbn zeta. unfold plan_microcompact, older_results. by rewrite <- all_results_from. Qed.

(** Applying a plan. *)
Lemma apply_plan messages keep_recent min_chars replacement :
  let targets := plan_microcompact messages keep_recent min_chars in
  exists ms' g,
    apply_microcompact messages targets replacement = (ms', length targets)
    /\ results_from 0 ms' = map g (results_from 0 messages)
    /\ clears replacement targets (results_from 0 messages) g
    /\ Forall2 same_shape messages ms'.
Proof using.
  intros targets. pose proof (plan_targets messages keep_recent min_chars) as Ht. fold targets in Ht. cbn zeta in Ht.
  apply (apply_targets replacement targets messages 0); rewrite Ht; [apply planned_points|apply planned_NoDup].
Qed.

Lemma plan_applied_shape messages keep_recent min_chars replacement :
  Forall2 same_shape messages
    (fst (apply_microcompact messages (plan_microcompact messages keep_recent min_chars) replacement)).
Proof using.
  by destruct (apply_plan messages keep_recent min_chars replacement) as (ms' & g & -> & _ & _ & Hs).
Qed.

(** Clearing old results does what was planned and no more.  Every
    planned target is applied; messages, roles, calls, error flags and images
    stay as they were; the newest [keep_recent] results are untouched; and
    since replacements carry the marker, planning again finds nothing. *)
Theorem microcompact_clears (messages : list Message) (keep_recent min_chars : nat)
    (replacement : ClearTarget -> text -> text) :
  marked replacement ->
  let targets := plan_microcompact messages keep_recent min_chars in
  let out := fst (apply_microcompact messages targets replacement) in
  let older := (length (all_results messages) - keep_recent)%nat in
  snd (apply_microcompact messages targets replacement) = length targets
  /\ Forall2 same_shape messages out
  /\ drop older (all_results out) = drop older (all_results messages)
  /\ plan_microcompact out keep_recent min_chars = [].
Proof using.
  intros Hmark targets out older.
  set (f := fun t => Nat.ltb min_chars (target_chars t)).
  pose proof (plan_targets messages keep_recent min_chars) as Ht. fold targets older f in Ht.
  destruct (apply_plan messages keep_recent min_chars replacement) as (ms' & g & E & Hrs & (Hg1 & Hg2 & Hg3) & Hs).
  fold targets in E, Hg2, Hg3. unfold out. rewrite E. cbn [fst snd]. rewrite !all_results_from.
  pose proof (results_from_places 0 messages) as Hnd. rewrite <- (take_drop older (results_from 0 messages)) in Hnd.
  rewrite map_app in Hnd. apply NoDup_app in Hnd as (_ & Hdis & _).
  split_and!; [done|done| |].
  - rewrite Hrs, skipn_map. rewrite <- (map_id (drop older (results_from 0 messages))) at 2.
    apply map_ext_in. intros r Hr%list_elem_of_In. apply Hg2. rewrite Ht. intros Hin.
    eapply sublist_subseteq in Hin; [|apply planned_sublist].
    apply (Hdis (place r)); [done|]. apply list_elem_of_fmap. eauto.
  - unfold plan_microcompact, older_results. fold f. rewrite all_results_from, Hrs, length_map, <- all_results_from.
    fold older. rewrite all_results_from, firstn_map. apply filter_nil_iff. intros t.
    rewrite <- list_elem_of_In. intros (r' & (r & -> & Hr)%list_elem_of_fmap & Ec)%list_elem_of_omap.
    assert (Hin : r ∈ results_from 0 messages) by by apply subseteq_take in Hr.
    destruct (base.decide (place r ∈ map target_place targets)) as [Hp|Hp].
    + apply list_elem_of_fmap in Hp as (t' & Hp & Ht'). destruct (Hg3 r t' Hin Ht' Hp) as (s & Hs').
      rewrite (cleared_not_planned replacement t' s) in Ec; [done|done|]. rewrite Hs'. cbn. f_equal.
      unfold images. by rewrite filter_is_image_idem.
    + rewrite Hg2 in Ec by done. destruct (f t) eqn:Ef; [|done]. exfalso. apply Hp. apply list_elem_of_fmap.
      exists t. split; [by apply clear_target_place in Ec as [-> _]|]. rewrite Ht.
      apply list_elem_of_In, filter_In. split; [|done]. apply list_elem_of_In, list_elem_of_omap. eauto.
Qed.

End WithJson.
