(* ===== verification/TaskView.v ===== *)
(** The task view ([z-engine-context/src/compaction], files [exchanges.rs] and
    [task_view.rs]): the exchanges of a history, which of them are kept, and
    the history without the others. *)

From stdpp Require Import gmap.
From S2P Require Export Compaction.

(** [prompts/reminders/task-view-index.md]. *)
Definition TASK_VIEW_INDEX : text :=
  join [NEWLINE]
    [str "Earlier exchanges of this chat were set aside because the current task does not need them. Each line names one exchange and the file that holds its full text; read that file if you need what happened there.";
     [];
     str "{{exchanges}}";
     []].

Definition MAX_COMMAND_CHARS : nat := 120.
Definition INDEX_REQUEST_CHARS : nat := 80.
Definition INDEX_FILES : nat := 4.
Definition MIN_HISTORY_TOKENS : N := 30000.
Definition MAX_VIEW_PERCENT : N := 60.

Definition QUOTE : char := 34.
Definition ELLIPSIS : char := 8230.

(** [text.rs] *)
Definition single_line (t : text) : text := join (str " ") (split_whitespace t).

(** [transcript.rs]: a text that is too long keeps its head and tail. *)
Definition truncate (t : text) (max_chars : nat) : text :=
  let total := length t in
  if Nat.leb total max_chars then t
  else
    let tail := (max_chars / 2)%nat in
    take (max_chars - tail) t
    ++ [NEWLINE] ++ str "[" ++ [ELLIPSIS] ++ str " " ++ show_N (N.of_nat (total - max_chars))
    ++ str " chars truncated " ++ [ELLIPSIS] ++ str "]" ++ [NEWLINE]
    ++ drop (total - tail) t.

Record Exchange := mkExchange {
  start : nat;
  stop_ : nat;
  lead : bool;
  request : text;
  files_edited : list text;
  files_read_ : list text;
  tools_used : list (text * nat);
  commands : list text;
  checks : list (text * bool);
  last_reply : text
}.

Definition is_stop (c : char) : bool := one_of ".!?" c.

(** The text after the last position where [p] holds. *)
Definition after_last_by (p : char -> bool) (t : text) : nat :=
  length t - length (take_while (fun c => negb (p c)) (reverse t)).

Definition last_sentence (t : text) : option text :=
  let t := trim t in
  if is_empty t then None
  else
    let body := trim_end_by is_stop t in
    Some (single_line (drop (after_last_by (fun c => is_stop c || N.eqb c NEWLINE) body) t)).

(** [path] without the [root] prefix. *)
Definition relative (path root : text) : text :=
  let root := trim_end_by (N.eqb SLASH) root in
  match strip_prefix root path with
  | Some rest =>
      if is_empty root then path
      else match strip_prefix [SLASH] rest with Some rest => rest | None => path end
  | None => path
  end.

Fixpoint count_tool (n : text) (tools : list (text * nat)) : list (text * nat) :=
  match tools with
  | [] => [(n, 1%nat)]
  | (seen, k) :: tools => if teqb seen n then (seen, S k) :: tools else (seen, k) :: count_tool n tools
  end.

Definition push_file (files : list text) (p : text) : list text := if mem p files then files else files ++ [p].

Section WithJson.
Context {J : Json}.

(** Identifies one check across runs. *)
Definition check_key (n : text) (v : json) : text :=
  match call_command v with
  | Some command => truncate (trim command) MAX_COMMAND_CHARS
  | None => n ++ str " " ++ to_text v
  end.

(** [Exchange::call]. *)
Definition exchange_call (n : text) (v : json) (e : Exchange) : Exchange :=
  let paths := call_paths v in
  mkExchange (start e) (stop_ e) (lead e) (request e)
    (if is_edit n then foldl push_file (files_edited e) paths else files_edited e)
    (if is_edit n then files_read_ e else foldl push_file (files_read_ e) paths)
    (count_tool n (tools_used e))
    (commands e ++ match call_command v with Some c => [trim c] | None => [] end)
    (checks e) (last_reply e).

(** [Exchange::check_result]: the last run of each check. *)
Definition check_result (n : text) (v : json) (failed : bool) (e : Exchange) : Exchange :=
  if negb (is_check n) then e
  else
    let key := check_key n v in
    mkExchange (start e) (stop_ e) (lead e) (request e) (files_edited e) (files_read_ e) (tools_used e)
      (commands e) (List.filter (fun c => negb (teqb (fst c) key)) (checks e) ++ [(key, failed)]) (last_reply e).

Definition set_reply (t : text) (e : Exchange) : Exchange :=
  mkExchange (start e) (stop_ e) (lead e) (request e) (files_edited e) (files_read_ e) (tools_used e)
    (commands e) (checks e) t.

Definition digest_block (names : gmap id (text * json)) (r : Role) (e : Exchange) (b : ContentBlock) : Exchange :=
  match b with
  | BToolUse _ n v => exchange_call n v e
  | BToolResult i _ is_error =>
      match names !! i with Some (n, v) => check_result n v is_error e | None => e end
  | BText t =>
      if bool_decide (r = Assistant)
      then match last_sentence t with Some s => set_reply s e | None => e end
      else e
  | _ => e
  end.

Definition digest (messages : list Message) (names : gmap id (text * json)) (from to : nat) (lead_ : bool) : Exchange :=
  foldl (fun e m => foldl (digest_block names (role m)) e (content m))
    (mkExchange from to lead_ (match messages with m :: _ => request_text m | [] => [] end) [] [] [] [] [] [])
    messages.

Definition is_task_view_index (m : Message) : bool :=
  let head := template_head TASK_VIEW_INDEX in
  negb (is_empty head) && starts_with head (message_text m).

(** Whether an exchange starts at [index]. *)
Definition starts_exchange (messages : list Message) (crossed : list bool) (index : nat) : bool :=
  match messages !! index with
  | Some m =>
      is_user m && is_split_point m && negb (default true (crossed !! index))
      && negb (is_summary m) && negb (is_task_view_index m)
  | None => false
  end.

(** The last call with an identifier names its result. *)
Definition call_names (messages : list Message) : gmap id (text * json) :=
  foldl (fun m (u : id * text * json) => let '(i, n, v) := u in <[i := (n, v)]> m) ∅
    (flat_map tool_uses messages).

(** The end of each exchange is the start of the next. *)
Fixpoint spans (starts : list nat) (n : nat) : list (nat * nat) :=
  match starts with
  | [] => []
  | s :: starts => (s, match starts with next :: _ => next | [] => n end) :: spans starts n
  end.

Definition exchange_starts (messages : list Message) : list nat :=
  List.filter (starts_exchange messages (crossed_splits messages)) (seq 0 (length messages)).

Definition slice {A} (l : list A) (span : nat * nat) : list A := drop (fst span) (take (snd span) l).

Definition exchanges (messages : list Message) : list Exchange :=
  let starts := exchange_starts messages in
  let has_lead := match starts with O :: _ => false | _ => negb (is_empty messages) end in
  let starts := if has_lead then O :: starts else starts in
  let names := call_names messages in
  imap (fun position span =>
          digest (slice messages span) names (fst span) (snd span) (has_lead && Nat.eqb position 0))
    (spans starts (length messages)).

(** * [task_view.rs] *)

Inductive TaskKeep := KeepLead | KeepRecent | KeepNamedFile | KeepFailingCheck | KeepOpenTodos.

Definition wrote_todos (e : Exchange) : bool :=
  existsb (fun t => teqb (fst t) (str "TodoWrite")) (tools_used e).

(** The last position where [p] holds. *)
Fixpoint rposition {A} (p : A -> bool) (l : list A) : option nat :=
  match l with
  | [] => None
  | x :: l => match rposition p l with Some n => Some (S n) | None => if p x then Some O else None end
  end.

(** A check failed here and was not run again later. *)
Definition failing (e : Exchange) (later : list Exchange) : bool :=
  existsb (fun c => snd c && negb (existsb (fun l => existsb (fun seen => teqb (fst seen) (fst c)) (checks l)) later))
    (checks e).

Definition task_keep (exs : list Exchange) (recent_from : nat) (named : list text) (todo_writer : option nat)
    (index : nat) (e : Exchange) : option TaskKeep :=
  if lead e then Some KeepLead
  else if Nat.leb recent_from index then Some KeepRecent
  else if existsb (names_path named) (files_edited e ++ files_read_ e) then Some KeepNamedFile
  else if failing e (drop (S index) exs) then Some KeepFailingCheck
  else if bool_decide (todo_writer = Some index) then Some KeepOpenTodos
  else None.

Definition task_keeps (exs : list Exchange) (keep_recent : nat) (named : list text) (todos_open : bool)
  : list (option TaskKeep) :=
  let todo_writer := if todos_open then rposition wrote_todos exs else None in
  imap (task_keep exs (length exs - keep_recent) named todo_writer) exs.

Record TaskViewPlan := mkTaskViewPlan { set_aside : list nat; pinned : list nat }.

Definition is_none {A} (o : option A) : bool := match o with None => true | Some _ => false end.

Definition plan_task_view (keeps : list (option TaskKeep)) (needed : nat -> option bool) (pin : nat -> bool)
  : TaskViewPlan :=
  let aside :=
    List.filter (fun index =>
      match keeps !! index with Some k => is_none k | None => false end && bool_decide (needed index = Some false))
      (seq 0 (length keeps)) in
  mkTaskViewPlan aside (List.filter pin aside).

(** One exchange of the loop; [index] is the index message while it is not
    placed. *)
Definition view_step (messages : list Message) (plan : TaskViewPlan)
    (acc : list Message * option Message) (pe : nat * Exchange) : list Message * option Message :=
  let '(position, e) := pe in
  let '(view, index) := acc in
  let '(view, index) :=
    if negb (lead e) then
      match index with Some i => (view ++ [i], None) | None => (view, None) end
    else (view, index) in
  let range := (start e, Nat.min (stop_ e) (length messages)) in
  (if negb (existsb (Nat.eqb position) (set_aside plan)) then view ++ slice messages range
   else if existsb (Nat.eqb position) (pinned plan)
   then view ++ match messages !! start e with Some m => [m] | None => [] end
   else view, index).

Definition apply_task_view (messages : list Message) (exs : list Exchange) (plan : TaskViewPlan)
    (index : Message) : list Message :=
  let '(view, index) := foldl (view_step messages plan) ([], Some index) (imap pair exs) in
  view ++ match index with Some i => [i] | None => [] end.

Definition clip (t : text) (max_chars : nat) : text :=
  if Nat.ltb max_chars (length t) then take max_chars t ++ str "..." else t.

Definition index_line (number : N) (e : Exchange) (root artifact : text) : text :=
  str "Turn " ++ show_N number ++ str ": " ++ [QUOTE] ++ clip (single_line (request e)) INDEX_REQUEST_CHARS ++ [QUOTE]
  ++ (if is_empty (files_edited e) then []
      else str "; edited " ++ join (str ", ") (map (fun p => relative p root) (take INDEX_FILES (files_edited e))))
  ++ (match List.find (fun c => snd c) (checks e) with
      | Some (key, _) => str "; check failed: " ++ clip key INDEX_REQUEST_CHARS
      | None => []
      end)
  ++ str " - full text at " ++ artifact.

Definition task_view_index (stamp : id * N) (lines : list text) : Message :=
  new_message stamp User
    [BText (trim_end (render_template TASK_VIEW_INDEX [(str "exchanges", join [NEWLINE] lines)]))].

Definition worth_rebuilding (history_tokens view_tokens : N) (cache_cold : bool) : bool :=
  (view_tokens <? history_tokens)%N
  && (cache_cold
      || ((MIN_HISTORY_TOKENS <=? history_tokens)%N
          && (view_tokens * 100 <=? history_tokens * MAX_VIEW_PERCENT)%N)).

End WithJson.
