(* ===== verification/TaskViewFacts.v ===== *)
(** Facts about exchanges and task views, and their properties. *)

From stdpp Require Import gmap sets.
From S2P Require Export CompactionFacts TaskView.

Section WithJson.
Context {J : Json}.

(** * Exchanges *)

Lemma digest_span messages names from to l :
  start (digest messages names from to l) = from /\ stop_ (digest messages names from to l) = to
  /\ lead (digest messages names from to l) = l.
Proof using.
  unfold digest. set (e := mkExchange _ _ _ _ _ _ _ _ _ _).
  assert (H : start e = from /\ stop_ e = to /\ lead e = l) by done. revert H. generalize e. clear e.
  assert (Hb : forall r b e, start (digest_block names r e b) = start e /\ stop_ (digest_block names r e b) = stop_ e
    /\ lead (digest_block names r e b) = lead e).
  { intros r b e. destruct b as [| | | | |i n v|i parts err]; cbn; try done.
    - case_bool_decide; [|done]. by destruct (last_sentence t).
    - destruct (names !! i) as [[n v]|]; [|done]. unfold check_result. by destruct (is_check n). }
  assert (Hf : forall r bs e, start (foldl (digest_block names r) e bs) = start e
    /\ stop_ (foldl (digest_block names r) e bs) = stop_ e /\ lead (foldl (digest_block names r) e bs) = lead e).
  { intros r bs. induction bs as [|b bs IH]; intros e; cbn; [done|].
    destruct (IH (digest_block names r e b)) as (-> & -> & ->). apply Hb. }
  generalize messages. clear messages. intros ms. induction ms as [|m ms IH]; intros e He; cbn; [done|].
  apply IH. destruct (Hf (role m) (content m) e) as (-> & -> & ->). exact He.
Qed.

(** Starts in order, none past the end. *)
Fixpoint ascending (from : nat) (starts : list nat) (n : nat) : Prop :=
  match starts with
  | [] => True
  | s :: starts => (from <= s < n)%nat /\ ascending (S s) starts n
  end.

Lemma filter_seq_ascending (f : nat -> bool) a k n :
  (a + k <= n)%nat -> ascending a (List.filter f (seq a k)) n.
Proof using.
  revert a. induction k as [|k IH]; intros a H; cbn; [done|]. destruct (f a); cbn.
  - split; [lia|]. apply IH. lia.
  - assert (Hw : forall b c l, (b <= c)%nat -> ascending c l n -> ascending b l n).
    { intros b c [|s l] Hbc; cbn; [done|]. intros [? ?]. split; [lia|done]. }
    eapply Hw; [|apply IH; lia]. lia.
Qed.

Lemma slice_app {A} (l : list A) a b : (a <= b)%nat -> slice l (a, b) ++ drop b l = drop a l.
Proof using.
  intros H. unfold slice. cbn. rewrite <- (take_drop b l) at 3. rewrite drop_app.
  destruct (Nat.le_gt_cases b (length l)).
  - rewrite length_take, Nat.min_l by done. by replace (a - b)%nat with 0%nat by lia.
  - rewrite (drop_ge l b) by lia. by rewrite !drop_nil.
Qed.

Lemma spans_cons s s' starts n : spans (s :: s' :: starts) n = (s, s') :: spans (s' :: starts) n.
Proof using. done. Qed.

(** The exchanges together are the history from the first start on. *)
Lemma spans_cover (ms : list Message) starts s :
  ascending 0 (s :: starts) (length ms) ->
  concat (map (slice ms) (spans (s :: starts) (length ms))) = drop s ms.
Proof using.
  assert (H : forall from, ascending from (s :: starts) (length ms) ->
    concat (map (slice ms) (spans (s :: starts) (length ms))) = drop s ms); [|apply H].
  revert s. induction starts as [|s' starts IH]; intros s from [Hs Ha].
  - cbn. rewrite app_nil_r. unfold slice. cbn. by rewrite firstn_all.
  - rewrite spans_cons, map_cons, concat_cons, (IH s' (S s)) by done. destruct Ha as [Hs' _]. apply slice_app. lia.
Qed.

(** No call is left open at the start of an exchange. *)
Definition clean_start (ms : list Message) (s : nat) : Prop :=
  s = 0%nat \/ exists m, ms !! s = Some m /\ (is_user m = true -> results_in (content m) = []).

Lemma clean_start_drop ms s :
  leads_by fits [] ms [] -> clean_start ms s -> leads_by fits [] (drop s ms) [].
Proof using. intros Hl [->|(m & Hm & Hc)]; [done|]. by eapply cut_clean. Qed.

Lemma slice_leads ms a b :
  leads_by fits [] ms [] -> clean_start ms a -> (a <= b)%nat -> b = length ms \/ clean_start ms b ->
  leads_by fits [] (slice ms (a, b)) [].
Proof using.
  intros Hl Ha Hab Hb. pose proof (clean_start_drop _ _ Hl Ha) as Hd. unfold slice. cbn.
  destruct Hb as [->|Hb]; [by rewrite firstn_all|]. rewrite skipn_firstn_comm.
  destruct Hb as [->|(m & Hm & Hc)]; [by rewrite Nat.le_0_r in Hab; subst; cbn|].
  eapply cut_clean; [exact Hd| |exact Hc]. rewrite lookup_drop. by replace (a + (b - a))%nat with b by lia.
Qed.

(** The starts of all exchanges, the lead's included. *)
Definition all_starts (ms : list Message) : list nat :=
  let starts := exchange_starts ms in
  if match starts with O :: _ => false | _ => negb (is_empty ms) end then O :: starts else starts.

Definition has_lead (ms : list Message) : bool :=
  match exchange_starts ms with O :: _ => false | _ => negb (is_empty ms) end.

Lemma exchanges_spans ms :
  exchanges ms
  = imap (fun position span =>
      digest (slice ms span) (call_names ms) (fst span) (snd span) (has_lead ms && Nat.eqb position 0))
      (spans (all_starts ms) (length ms)).
Proof using. done. Qed.

Definition span_of (e : Exchange) : nat * nat := (start e, stop_ e).

Lemma exchanges_span_of ms : map span_of (exchanges ms) = spans (all_starts ms) (length ms).
Proof using.
  rewrite exchanges_spans. change (map span_of (imap ?f ?l)) with (span_of <$> imap f l). rewrite fmap_imap.
  transitivity (imap (fun _ x => x) (spans (all_starts ms) (length ms))).
  - apply imap_ext. intros n [a b] _. unfold compose, span_of. cbn [fst snd].
    destruct (digest_span (slice ms (a, b)) (call_names ms) a b (has_lead ms && Nat.eqb n 0)) as (-> & -> & _). done.
  - generalize (spans (all_starts ms) (length ms)). induction l as [|x l IH]; [done|]. rewrite imap_cons.
    f_equal. exact IH.
Qed.

Lemma exchanges_lead ms n e : exchanges ms !! n = Some e -> lead e = has_lead ms && Nat.eqb n 0.
Proof using.
  rewrite exchanges_spans, list_lookup_imap. destruct (spans _ _ !! n) as [[a b]|]; cbn [fmap option_fmap option_map]; [|done].
  intros [= <-]. apply digest_span.
Qed.

Lemma all_starts_ascending ms : ascending 0 (all_starts ms) (length ms).
Proof using.
  unfold all_starts. pose proof (filter_seq_ascending (starts_exchange ms (crossed_splits ms)) 0 (length ms)
    (length ms) (le_n _)) as H. fold (exchange_starts ms) in H.
  destruct (exchange_starts ms) as [|[|s] starts]; [|done|]; destruct ms as [|m ms]; cbn in *; try done.
  - split; [lia|done].
  - split; [lia|]. destruct H. split; [lia|done].
Qed.

Lemma all_starts_first ms : ms <> [] -> exists starts, all_starts ms = 0%nat :: starts.
Proof using.
  intros H. unfold all_starts. destruct (exchange_starts ms) as [|[|s] starts]; destruct ms; try done; cbn; eauto.
Qed.

(** The opening of an exchange: a user message without results, that no pair
    of a call and its result straddles, and that the engine did not make. *)
Definition opening (ms : list Message) (s : nat) : Prop :=
  exists m, ms !! s = Some m /\ role m = User /\ results_in (content m) = [] /\ ~ separates ms s
    /\ is_summary m = false /\ is_task_view_index m = false.

Lemma starts_exchange_opening ms s : starts_exchange ms (crossed_splits ms) s = true -> opening ms s.
Proof using.
  unfold starts_exchange. destruct (ms !! s) as [m|] eqn:Hm; [|done].
  rewrite !andb_true_iff, !negb_true_iff. intros [[[[Hu Hp] Hc] Hs] Hi]. exists m. split_and!; try done.
  - by apply (bool_decide_eq_true_1 (role m = User)).
  - by apply split_point_clean.
  - destruct (crossed_splits_spec ms s) as (b & Hb & Hsep); [by apply Nat.lt_le_incl; eapply lookup_lt_Some|].
    rewrite Hb in Hc. cbn in Hc. subst. intros H. by apply Hsep in H.
Qed.

Lemma all_starts_opening ms s : s ∈ all_starts ms -> (s = 0%nat /\ has_lead ms = true) \/ opening ms s.
Proof using.
  unfold all_starts, has_lead.
  assert (H : s ∈ exchange_starts ms -> opening ms s).
  { intros [_ Hs]%list_elem_of_In%filter_In. by apply starts_exchange_opening. }
  destruct (match exchange_starts ms with O :: _ => false | _ => _ end); [|by right; apply H].
  intros [->|Hs]%elem_of_cons; [by left|right; auto].
Qed.

Lemma spans_lookup starts n i a b :
  spans starts n !! i = Some (a, b) ->
  starts !! i = Some a /\ (starts !! S i = Some b \/ (S i = length starts /\ b = n)).
Proof using.
  revert i. induction starts as [|s starts IH]; intros [|i]; cbn; [done..| |].
  - intros [= <- <-]. split; [done|]. destruct starts as [|s' starts]; cbn; [by right|by left].
  - intros [H1 H2]%IH. split; [done|]. destruct H2 as [H2|[H2 H3]]; [by left|right; lia].
Qed.

Lemma ascending_lookup from starts n i a b :
  ascending from starts n -> starts !! i = Some a -> starts !! S i = Some b -> (a < b)%nat.
Proof using.
  revert from i. induction starts as [|s starts IH]; intros from [|i] Ha Hi Hj; cbn in *; try done; destruct Ha as [Hs Ha].
  - simplify_eq. destruct starts as [|s' starts]; [done|]. cbn in *. simplify_eq. lia.
  - by eapply IH.
Qed.

Lemma ascending_bound from starts n i a : ascending from starts n -> starts !! i = Some a -> (a < n)%nat.
Proof using.
  revert from i. induction starts as [|s starts IH]; intros from [|i] Ha Hi; cbn in *; try done.
  - simplify_eq. lia.
  - destruct Ha. by eapply IH.
Qed.

Lemma ascending_from from starts n i a : ascending from starts n -> starts !! i = Some a -> (from <= a)%nat.
Proof using.
  revert from i. induction starts as [|s starts IH]; intros from [|i] Ha Hi; cbn in *; try done; destruct Ha as [? Ha].
  - simplify_eq. lia.
  - specialize (IH _ _ Ha Hi). lia.
Qed.

(** * Whole exchanges *)

Lemma starts_clean_start ms s : s ∈ all_starts ms -> clean_start ms s.
Proof using.
  intros [[-> _]|(m & Hm & _ & Hr & _)]%all_starts_opening; [by left|]. right. exists m. by split.
Qed.

Lemma exchange_leads ms e :
  leads_by fits [] ms [] -> e ∈ exchanges ms ->
  (start e <= stop_ e <= length ms)%nat /\ leads_by fits [] (slice ms (span_of e)) [].
Proof using.
  intros Hl (i & Hi)%list_elem_of_lookup.
  assert (Hs : spans (all_starts ms) (length ms) !! i = Some (span_of e)).
  { rewrite <- exchanges_span_of. change (map ?f ?l !! i) with ((f <$> l) !! i). by rewrite list_lookup_fmap, Hi. }
  apply spans_lookup in Hs as [Ha Hb]. pose proof (all_starts_ascending ms) as Hasc.
  assert (Hle : (start e <= stop_ e <= length ms)%nat).
  { pose proof (ascending_bound _ _ _ _ _ Hasc Ha). destruct Hb as [Hb|[_ ->]]; [|lia].
    pose proof (ascending_lookup _ _ _ _ _ _ Hasc Ha Hb). pose proof (ascending_bound _ _ _ _ _ Hasc Hb). lia. }
  split; [done|]. apply slice_leads; [done| |lia|].
  - by apply starts_clean_start, list_elem_of_lookup_2 with i.
  - destruct Hb as [Hb|[_ ->]]; [right|by left]. by apply starts_clean_start, list_elem_of_lookup_2 with (S i).
Qed.

(** * The view *)

(** What the view holds of an exchange. *)
Definition shown (ms : list Message) (plan : TaskViewPlan) (position : nat) (e : Exchange) : list Message :=
  if negb (existsb (Nat.eqb position) (set_aside plan)) then slice ms (start e, Nat.min (stop_ e) (length ms))
  else if existsb (Nat.eqb position) (pinned plan)
       then match ms !! start e with Some m => [m] | None => [] end
       else [].

Lemma view_step_placed ms plan view position e :
  view_step ms plan (view, None) (position, e) = (view ++ shown ms plan position e, None).
Proof using.
  unfold view_step, shown. destruct (lead e); cbn [negb]; repeat (destruct (existsb _ _); cbn [negb]); try done;
    by rewrite app_nil_r.
Qed.

Lemma view_placed ms plan pes view :
  foldl (view_step ms plan) (view, None) pes = (view ++ concat (map (fun pe => shown ms plan (fst pe) (snd pe)) pes), None).
Proof using.
  revert view. induction pes as [|[position e] pes IH]; intros view; cbn [foldl]; [by rewrite app_nil_r|].
  rewrite view_step_placed, IH. cbn. by rewrite <- app_assoc.
Qed.

Lemma view_open ms plan pes view i :
  Forall (fun pe => lead (snd pe) = false) pes ->
  let '(out, index) := foldl (view_step ms plan) (view, Some i) pes in
  out ++ match index with Some i => [i] | None => [] end
  = view ++ i :: concat (map (fun pe => shown ms plan (fst pe) (snd pe)) pes).
Proof using.
  intros Hf. destruct pes as [|[position e] pes]; cbn [foldl]; [done|]. apply Forall_cons in Hf as [He _].
  cbn [snd] in He. assert (E : view_step ms plan (view, Some i) (position, e)
    = view_step ms plan (view ++ [i], None) (position, e)) by (unfold view_step; by rewrite He).
  rewrite E, view_step_placed, view_placed. cbn. by rewrite app_nil_r, <- !app_assoc.
Qed.

Definition rest_shown (ms : list Message) (plan : TaskViewPlan) (exs : list (nat * Exchange)) : list Message :=
  concat (map (fun pe => shown ms plan (fst pe) (snd pe)) exs).

(** The lead, the index, and what is shown of the others, in order. *)
Lemma apply_task_view_shown ms plan i :
  apply_task_view ms (exchanges ms) plan i
  = match imap pair (exchanges ms) with
    | (position, e) :: pes =>
        if lead e then shown ms plan position e ++ i :: rest_shown ms plan pes
        else i :: rest_shown ms plan ((position, e) :: pes)
    | [] => [i]
    end.
Proof using.
  unfold apply_task_view. destruct (imap pair (exchanges ms)) as [|[position e] pes] eqn:E; [done|].
  assert (Hrest : Forall (fun pe => lead (snd pe) = false) pes).
  { apply Forall_forall. intros [p x] (n & Hn)%list_elem_of_lookup. cbn.
    assert (Hp : imap pair (exchanges ms) !! S n = Some (p, x)) by by rewrite E.
    rewrite list_lookup_imap in Hp. destruct (exchanges ms !! S n) as [y|] eqn:Ey; cbn in Hp; [|done]. simplify_eq.
    rewrite (exchanges_lead _ _ _ Ey). apply andb_false_r. }
  destruct (lead e) eqn:He.
  - cbn [foldl]. assert (Es : view_step ms plan ([], Some i) (position, e) = (shown ms plan position e, Some i)).
    { unfold view_step, shown. rewrite He. cbn [negb app]. by repeat (destruct (existsb _ _); cbn [negb]). }
    rewrite Es. pose proof (view_open ms plan pes (shown ms plan position e) i Hrest) as H.
    by destruct (foldl _ _ _).
  - pose proof (view_open ms plan ((position, e) :: pes) [] i) as H. destruct (foldl _ _ _). apply H.
    by constructor.
Qed.

(** Only the first exchange starts at the beginning. *)
Lemma all_starts_later ms position s : all_starts ms !! position = Some s -> position <> 0%nat -> s <> 0%nat.
Proof using.
  intros Ha Hp. pose proof (all_starts_ascending ms) as Hasc. destruct (all_starts ms) as [|s0 starts]; [done|].
  destruct position as [|position]; [done|]. cbn in Ha. destruct Hasc as [_ Hasc].
  pose proof (ascending_from _ _ _ _ _ Hasc Ha). lia.
Qed.

(** Everything shown is whole exchanges or opening messages. *)
Lemma shown_leads ms plan position e :
  leads_by fits [] ms [] -> exchanges ms !! position = Some e ->
  Forall (fun p => forall e, exchanges ms !! p = Some e -> lead e = false) (set_aside plan) ->
  leads_by fits [] (shown ms plan position e) [].
Proof using.
  intros Hl He Hp. unfold shown.
  pose proof (exchange_leads ms e Hl ltac:(by eapply list_elem_of_lookup_2)) as [Hle Hs].
  rewrite Nat.min_l by lia. destruct (existsb (Nat.eqb position) (set_aside plan)) eqn:Ea; cbn [negb]; [|exact Hs].
  destruct (existsb (Nat.eqb position) (pinned plan)); [|done].
  apply existsb_exists in Ea as (p & Hin & <-%Nat.eqb_eq). rewrite List.Forall_forall in Hp.
  specialize (Hp position Hin e He). rewrite (exchanges_lead _ _ _ He) in Hp.
  assert (Hspan : spans (all_starts ms) (length ms) !! position = Some (span_of e)).
  { rewrite <- exchanges_span_of. change (map ?f ?l !! position) with ((f <$> l) !! position).
    by rewrite list_lookup_fmap, He. }
  apply spans_lookup in Hspan as [Ha _].
  destruct (all_starts_opening ms (start e)) as [[E0 Hlead]|(m & -> & Hr & Hm & _)].
  - by eapply list_elem_of_lookup_2.
  - rewrite Hlead in Hp. cbn in Hp. apply Nat.eqb_neq in Hp.
    by apply (all_starts_later ms position (start e)) in Ha.
  - cbn. unfold is_user. rewrite Hr. cbn. split; [by apply fits_nothing|done].
Qed.

(** The plan sets aside only what nothing keeps. *)
Lemma plan_task_view_aside keeps needed pin position :
  In position (set_aside (plan_task_view keeps needed pin)) ->
  keeps !! position = Some None /\ needed position = Some false.
Proof using.
  unfold plan_task_view. cbn. intros [_ H]%filter_In. apply andb_true_iff in H as [Hk Hn].
  apply bool_decide_eq_true_1 in Hn. split; [|done]. by destruct (keeps !! position) as [[]|].
Qed.

Lemma task_keep_none exs recent named writer index e :
  task_keep exs recent named writer index e = None ->
  lead e = false /\ (index < recent)%nat /\ existsb (names_path named) (files_edited e ++ files_read_ e) = false
  /\ failing e (drop (S index) exs) = false /\ writer <> Some index.
Proof using.
  unfold task_keep. destruct (lead e); [done|]. destruct (Nat.leb_spec recent index); [done|].
  destruct (existsb (names_path named) _); [done|]. destruct (failing _ _); [done|].
  case_bool_decide; [done|]. intros _. split_and!; try done.
Qed.

Lemma task_keeps_none exs keep_recent named todos_open index e :
  exs !! index = Some e -> task_keeps exs keep_recent named todos_open !! index = Some None ->
  task_keep exs (length exs - keep_recent) named (if todos_open then rposition wrote_todos exs else None) index e = None.
Proof using.
  unfold task_keeps. rewrite list_lookup_imap. intros -> H. cbn in H. by simplify_eq.
Qed.

Lemma apply_task_view_fits ms plan i :
  leads_by fits [] ms [] -> is_user i = true -> fits [] i ->
  Forall (fun p => forall e, exchanges ms !! p = Some e -> lead e = false) (set_aside plan) ->
  leads_by fits [] (apply_task_view ms (exchanges ms) plan i) [].
Proof using.
  intros Hl Hu Hi Hp.
  assert (Hshown : forall pes, (forall p e, (p, e) ∈ pes -> exchanges ms !! p = Some e) ->
    leads_by fits [] (rest_shown ms plan pes) []).
  { induction pes as [|[p e] pes IH]; intros H; [done|]. unfold rest_shown. cbn [map concat fst snd].
    apply leads_app. exists []. split.
    - apply shown_leads; [done| |done]. apply H. left.
    - apply IH. intros. apply H. by right. }
  assert (Hall : forall p e, (p, e) ∈ imap pair (exchanges ms) -> exchanges ms !! p = Some e).
  { intros p e (n & Hn)%list_elem_of_lookup. rewrite list_lookup_imap in Hn.
    destruct (exchanges ms !! n) eqn:E; cbn in Hn; [|done]. by simplify_eq. }
  rewrite apply_task_view_shown. destruct (imap pair (exchanges ms)) as [|[p e] pes].
  - cbn. rewrite Hu. done.
  - destruct (lead e).
    + apply leads_app. exists []. split; [apply shown_leads; [done| |done]; apply Hall; left|].
      cbn [leads_by]. rewrite Hu. split; [done|]. apply Hshown. intros. apply Hall. by right.
    + cbn [leads_by]. rewrite Hu. split; [done|]. by apply Hshown.
Qed.

Lemma planned_not_lead ms keep_recent named todos_open needed pin :
  Forall (fun p => forall e, exchanges ms !! p = Some e -> lead e = false)
    (set_aside (plan_task_view (task_keeps (exchanges ms) keep_recent named todos_open) needed pin)).
Proof using.
  apply List.Forall_forall. intros p Hp e He. apply plan_task_view_aside in Hp as [Hk _].
  pose proof (task_keeps_none _ _ _ _ _ _ He Hk) as Hn. by apply task_keep_none in Hn as [? _].
Qed.

(** The task view sets aside only whole exchanges that nothing keeps.
    The exchanges cut the history into pieces that together are the history,
    each but the lead opened by a user's own message that no call straddles;
    an exchange is set aside only if the model judged it not needed and it is
    not the lead, not recent, touches no named file, and holds neither the
    last run of a failing check nor the todo list in use; and the view is the
    lead, the index, then the exchanges kept whole, and the opening messages
    of those pinned, in order. *)
Theorem task_view_keeps (messages : list Message) (index : Message) (keep_recent : nat) (named : list text)
    (todos_open : bool) (needed : nat -> option bool) (pin : nat -> bool) :
  let exs := exchanges messages in
  let plan := plan_task_view (task_keeps exs keep_recent named todos_open) needed pin in
  concat (map (fun e => slice messages (start e, stop_ e)) exs) = messages
  /\ (forall n e, exs !! n = Some e -> if lead e then n = 0%nat else opening messages (start e))
  /\ (forall n e, exs !! n = Some e -> In n (set_aside plan) ->
       needed n = Some false /\ lead e = false /\ (n < length exs - keep_recent)%nat
       /\ existsb (names_path named) (files_edited e ++ files_read_ e) = false
       /\ failing e (drop (S n) exs) = false
       /\ (todos_open = true -> rposition wrote_todos exs <> Some n))
  /\ apply_task_view messages exs plan index
     = match imap pair exs with
       | (n, e) :: rest =>
           if lead e then shown messages plan n e ++ index :: rest_shown messages plan rest
           else index :: rest_shown messages plan ((n, e) :: rest)
       | [] => [index]
       end.
Proof using.
  intros exs plan. split_and!.
  - change (map (fun e => slice messages (start e, stop_ e)) exs) with (map (fun e => slice messages (span_of e)) exs).
    rewrite <- (map_map span_of (slice messages)). unfold exs. rewrite exchanges_span_of.
    destruct (base.decide (messages = [])) as [->|Hne]; [done|].
    destruct (all_starts_first messages Hne) as (starts & E). pose proof (all_starts_ascending messages) as Ha.
    rewrite E in *. by apply spans_cover.
  - intros n e He. pose proof (exchanges_lead _ _ _ He) as Hlead.
    assert (Hs : spans (all_starts messages) (length messages) !! n = Some (span_of e)).
    { rewrite <- exchanges_span_of. change (map ?f ?l !! n) with ((f <$> l) !! n). unfold exs in He.
      by rewrite list_lookup_fmap, He. }
    apply spans_lookup in Hs as [Hs _]. destruct (lead e) eqn:El.
    + symmetry in Hlead. by apply andb_true_iff in Hlead as [_ ?%Nat.eqb_eq].
    + pose proof (list_elem_of_lookup_2 _ _ _ Hs) as Hin. apply all_starts_opening in Hin as [[E0 Hl]|?]; [|done].
      rewrite Hl in Hlead. cbn in Hlead. exfalso. symmetry in Hlead. apply Nat.eqb_neq in Hlead.
      by apply (all_starts_later messages n (start e)) in Hs; [|done].
  - intros n e He Hn. apply plan_task_view_aside in Hn as [Hk Hn].
    pose proof (task_keeps_none _ _ _ _ _ _ He Hk) as Hw. apply task_keep_none in Hw as (? & ? & ? & ? & Hw).
    split_and!; try done. by intros ->.
  - apply apply_task_view_shown.
Qed.

(** Compaction never breaks a history.  From a history with the shape
    providers accept, replacing its beginning by a summary at a planned
    split, clearing old results, and setting exchanges aside by a planned task
    view all give such a history again, once neighbours of one role are
    merged. *)
Theorem compaction_keeps_shape (messages : list Message) (index : Message) :
  provider_ok messages -> is_user index = true -> results_in (content index) = [] ->
  (forall keep_recent s stamp summary, plan_summary messages keep_recent = Some s ->
     provider_ok (merge_adjacent_roles (apply_summary messages s (summary_message stamp summary))))
  /\ (forall keep_recent min_chars replacement, marked replacement ->
     provider_ok (fst (apply_microcompact messages (plan_microcompact messages keep_recent min_chars) replacement)))
  /\ (forall keep_recent named todos_open needed pin,
     let exs := exchanges messages in
     provider_ok (merge_adjacent_roles
       (apply_task_view messages exs (plan_task_view (task_keeps exs keep_recent named todos_open) needed pin) index))).
Proof using.
  intros [Ht Hl] Hu Hi. split_and!.
  - intros keep_recent s stamp summary Hs. apply merged_provider_ok, apply_summary_fits; [done|].
    by apply (plan_summary_clean messages keep_recent).
  - intros keep_recent min_chars replacement _. eapply same_shape_provider_ok; [|by split].
    apply plan_applied_shape.
  - intros keep_recent named todos_open needed pin exs. apply merged_provider_ok.
    apply apply_task_view_fits; [done|done|by apply fits_nothing|apply planned_not_lead].
Qed.

End WithJson.
