(* ===== verification/Replay.v ===== *)
(** Folding a session log into the state a session resumes from
    ([z-engine-store/src/replay.rs]). *)

From stdpp Require Import gmap.
From S2P Require Export Records WellFormed.

Section WithJson.
Context {J : Json}.

Record ReplayState := mkReplayState {
  info : option (id * text * N);
  transcript : list Message;
  working : list Message;
  compactions : list CompactionMarker;
  turns : list TurnRecord;
  todos : gmap id (list TodoItem);
  agents : list AgentInfo;
  checks : list CheckRecord;
  checkpoints : list (CheckpointInfo * text);
  replay_mode : PermissionMode;
  model : option text;
  effort : option Effort;
  session_title : option text;
  usage : Usage;
  cost_usd : f64;
  open_turn : option (id * id);
  pending_plans : list (id * id * text);
  asked_questions : list (id * id * list Question);
  full_working : option (list Message);
  task_views : list TaskViewInfo
}.

Definition replay_default : ReplayState :=
  mkReplayState None [] [] [] [] ∅ [] [] [] MDefault None None None usage_default f64_zero None [] [] None [].

Definition with_info v (s : ReplayState) : ReplayState :=
  mkReplayState v (transcript s) (working s) (compactions s) (turns s) (todos s) (agents s)
    (checks s) (checkpoints s) (replay_mode s) (model s) (effort s) (session_title s) (usage s)
    (cost_usd s) (open_turn s) (pending_plans s) (asked_questions s) (full_working s)
    (task_views s).
Definition with_transcript v (s : ReplayState) : ReplayState :=
  mkReplayState (info s) v (working s) (compactions s) (turns s) (todos s) (agents s) (checks s)
    (checkpoints s) (replay_mode s) (model s) (effort s) (session_title s) (usage s) (cost_usd s)
    (open_turn s) (pending_plans s) (asked_questions s) (full_working s) (task_views s).
Definition with_working v (s : ReplayState) : ReplayState :=
  mkReplayState (info s) (transcript s) v (compactions s) (turns s) (todos s) (agents s)
    (checks s) (checkpoints s) (replay_mode s) (model s) (effort s) (session_title s) (usage s)
    (cost_usd s) (open_turn s) (pending_plans s) (asked_questions s) (full_working s)
    (task_views s).
Definition with_compactions v (s : ReplayState) : ReplayState :=
  mkReplayState (info s) (transcript s) (working s) v (turns s) (todos s) (agents s) (checks s)
    (checkpoints s) (replay_mode s) (model s) (effort s) (session_title s) (usage s) (cost_usd s)
    (open_turn s) (pending_plans s) (asked_questions s) (full_working s) (task_views s).
Definition with_turns v (s : ReplayState) : ReplayState :=
  mkReplayState (info s) (transcript s) (working s) (compactions s) v (todos s) (agents s)
    (checks s) (checkpoints s) (replay_mode s) (model s) (effort s) (session_title s) (usage s)
    (cost_usd s) (open_turn s) (pending_plans s) (asked_questions s) (full_working s)
    (task_views s).
Definition with_todos v (s : ReplayState) : ReplayState :=
  mkReplayState (info s) (transcript s) (working s) (compactions s) (turns s) v (agents s)
    (checks s) (checkpoints s) (replay_mode s) (model s) (effort s) (session_title s) (usage s)
    (cost_usd s) (open_turn s) (pending_plans s) (asked_questions s) (full_working s)
    (task_views s).
Definition with_agents v (s : ReplayState) : ReplayState :=
  mkReplayState (info s) (transcript s) (working s) (compactions s) (turns s) (todos s) v
    (checks s) (checkpoints s) (replay_mode s) (model s) (effort s) (session_title s) (usage s)
    (cost_usd s) (open_turn s) (pending_plans s) (asked_questions s) (full_working s)
    (task_views s).
Definition with_checks v (s : ReplayState) : ReplayState :=
  mkReplayState (info s) (transcript s) (working s) (compactions s) (turns s) (todos s)
    (agents s) v (checkpoints s) (replay_mode s) (model s) (effort s) (session_title s) (usage s)
    (cost_usd s) (open_turn s) (pending_plans s) (asked_questions s) (full_working s)
    (task_views s).
Definition with_checkpoints v (s : ReplayState) : ReplayState :=
  mkReplayState (info s) (transcript s) (working s) (compactions s) (turns s) (todos s)
    (agents s) (checks s) v (replay_mode s) (model s) (effort s) (session_title s) (usage s)
    (cost_usd s) (open_turn s) (pending_plans s) (asked_questions s) (full_working s)
    (task_views s).
Definition with_replay_mode v (s : ReplayState) : ReplayState :=
  mkReplayState (info s) (transcript s) (working s) (compactions s) (turns s) (todos s)
    (agents s) (checks s) (checkpoints s) v (model s) (effort s) (session_title s) (usage s)
    (cost_usd s) (open_turn s) (pending_plans s) (asked_questions s) (full_working s)
    (task_views s).
Definition with_model v (s : ReplayState) : ReplayState :=
  mkReplayState (info s) (transcript s) (working s) (compactions s) (turns s) (todos s)
    (agents s) (checks s) (checkpoints s) (replay_mode s) v (effort s) (session_title s)
    (usage s) (cost_usd s) (open_turn s) (pending_plans s) (asked_questions s) (full_working s)
    (task_views s).
Definition with_effort v (s : ReplayState) : ReplayState :=
  mkReplayState (info s) (transcript s) (working s) (compactions s) (turns s) (todos s)
    (agents s) (checks s) (checkpoints s) (replay_mode s) (model s) v (session_title s) (usage s)
    (cost_usd s) (open_turn s) (pending_plans s) (asked_questions s) (full_working s)
    (task_views s).
Definition with_session_title v (s : ReplayState) : ReplayState :=
  mkReplayState (info s) (transcript s) (working s) (compactions s) (turns s) (todos s)
    (agents s) (checks s) (checkpoints s) (replay_mode s) (model s) (effort s) v (usage s)
    (cost_usd s) (open_turn s) (pending_plans s) (asked_questions s) (full_working s)
    (task_views s).
Definition with_usage v (s : ReplayState) : ReplayState :=
  mkReplayState (info s) (transcript s) (working s) (compactions s) (turns s) (todos s)
    (agents s) (checks s) (checkpoints s) (replay_mode s) (model s) (effort s) (session_title s)
    v (cost_usd s) (open_turn s) (pending_plans s) (asked_questions s) (full_working s)
    (task_views s).
Definition with_cost_usd v (s : ReplayState) : ReplayState :=
  mkReplayState (info s) (transcript s) (working s) (compactions s) (turns s) (todos s)
    (agents s) (checks s) (checkpoints s) (replay_mode s) (model s) (effort s) (session_title s)
    (usage s) v (open_turn s) (pending_plans s) (asked_questions s) (full_working s)
    (task_views s).
Definition with_open_turn v (s : ReplayState) : ReplayState :=
  mkReplayState (info s) (transcript s) (working s) (compactions s) (turns s) (todos s)
    (agents s) (checks s) (checkpoints s) (replay_mode s) (model s) (effort s) (session_title s)
    (usage s) (cost_usd s) v (pending_plans s) (asked_questions s) (full_working s)
    (task_views s).
Definition with_pending_plans v (s : ReplayState) : ReplayState :=
  mkReplayState (info s) (transcript s) (working s) (compactions s) (turns s) (todos s)
    (agents s) (checks s) (checkpoints s) (replay_mode s) (model s) (effort s) (session_title s)
    (usage s) (cost_usd s) (open_turn s) v (asked_questions s) (full_working s) (task_views s).
Definition with_asked_questions v (s : ReplayState) : ReplayState :=
  mkReplayState (info s) (transcript s) (working s) (compactions s) (turns s) (todos s)
    (agents s) (checks s) (checkpoints s) (replay_mode s) (model s) (effort s) (session_title s)
    (usage s) (cost_usd s) (open_turn s) (pending_plans s) v (full_working s) (task_views s).
Definition with_full_working v (s : ReplayState) : ReplayState :=
  mkReplayState (info s) (transcript s) (working s) (compactions s) (turns s) (todos s)
    (agents s) (checks s) (checkpoints s) (replay_mode s) (model s) (effort s) (session_title s)
    (usage s) (cost_usd s) (open_turn s) (pending_plans s) (asked_questions s) v (task_views s).
Definition with_task_views v (s : ReplayState) : ReplayState :=
  mkReplayState (info s) (transcript s) (working s) (compactions s) (turns s) (todos s)
    (agents s) (checks s) (checkpoints s) (replay_mode s) (model s) (effort s) (session_title s)
    (usage s) (cost_usd s) (open_turn s) (pending_plans s) (asked_questions s) (full_working s)
    v.

(** * Rewinds *)

(** Whether a record is the message [i]. *)
Definition is_message (i : id) (r : LogRecord) : bool :=
  match r with LMessage m _ => teqb (message_id m) i | _ => false end.

Definition effective_step (effective : list LogRecord) (r : LogRecord) : list LogRecord :=
  match r with
  | LRewound i true _ =>
      match position (is_message i) effective with
      | Some cut => take cut effective
      | None => effective
      end
  | _ => effective
  end ++ [r].

(** The records conversation rewinds leave. *)
Definition effective_records (records : list LogRecord) : list LogRecord :=
  foldl effective_step [] records.

(** * One record *)

(** [retain(|(id, ..)| id != request_id)] *)
Definition without {A} (i : id) (l : list (id * id * A)) : list (id * id * A) :=
  List.filter (fun p => negb (teqb (fst (fst p)) i)) l.

Definition finish_turn (t : TurnRecord) (s : ReplayState) : ReplayState :=
  let s :=
    match open_turn s with
    | Some (i, _) => if teqb i (turn_id t) then with_open_turn None s else s
    | None => s
    end in
  with_turns (turns s ++ [t]) s.

(** The first entry of the same agent is replaced, else the info is added. *)
Fixpoint put_agent (i : AgentInfo) (l : list AgentInfo) : list AgentInfo :=
  match l with
  | [] => [i]
  | a :: l => if teqb (agent_id a) (agent_id i) then i :: l else a :: put_agent i l
  end.

Definition update_agent (i : AgentInfo) (s : ReplayState) : ReplayState :=
  with_agents (put_agent i (agents s)) s.

Definition message_is (i : id) (m : Message) : bool := teqb (message_id m) i.

Definition compact (marker : CompactionMarker) (summary : Message) (s : ReplayState) : ReplayState :=
  let kept :=
    match keep_from marker with
    | Some i =>
        match position (message_is i) (working s) with
        | Some start => drop start (working s)
        | None => []
        end
    | None => []
    end in
  with_full_working None
    (with_compactions (compactions s ++ [marker]) (with_working (summary :: kept) s)).

(** The messages by id: collecting into a map keeps the last of equal keys. *)
Definition by_id (messages : list Message) : gmap id Message :=
  list_to_map (reverse (map (fun m => (message_id m, m)) messages)).

Definition put_view (v : TaskViewInfo) (l : list TaskViewInfo) : list TaskViewInfo :=
  List.filter (fun seen => negb (teqb (boundary seen) (boundary v))) l ++ [v].

Definition task_view (v : TaskViewInfo) (kept : list id) (index : option Message) (s : ReplayState)
  : ReplayState :=
  let s := with_task_views (put_view v (task_views s)) s in
  if restored v then
    match full_working s with
    | Some full => with_working full (with_full_working None s)
    | None => s
    end
  else
    let full := default (working s) (full_working s) in
    let known := by_id (full ++ option_list index) in
    with_full_working (Some full) (with_working (omap (fun i => known !! i) kept) s).

Definition push_message (m : Message) (s : ReplayState) : ReplayState :=
  with_full_working (fmap (fun full => full ++ [m]) (full_working s))
    (with_working (working s ++ [m]) (with_transcript (transcript s ++ [m]) s)).

Definition apply_record (s : ReplayState) (r : LogRecord) : ReplayState :=
  match r with
  | LSessionStarted _ i root m mode created =>
      match info s with
      | None => with_model (Some m) (with_replay_mode mode (with_info (Some (i, root, created)) s))
      | Some _ => s
      end
  | LMessage m _ => push_message m s
  | LTurnStarted t m _ => with_open_turn (Some (t, m)) s
  | LTurnFinished t => finish_turn t s
  | LTodos a l => with_todos (<[a := l]> (todos s)) s
  | LPlanProposed i a p => with_pending_plans (without i (pending_plans s) ++ [(i, a, p)]) s
  | LPlanResolved i _ _ _ => with_pending_plans (without i (pending_plans s)) s
  | LQuestionAsked i a qs => with_asked_questions (without i (asked_questions s) ++ [(i, a, qs)]) s
  | LQuestionAnswered i _ => with_asked_questions (without i (asked_questions s)) s
  | LAgentUpdated i => update_agent i s
  | LCheck c => with_checks (checks s ++ [c]) s
  | LCheckpoint i snapshot => with_checkpoints (checkpoints s ++ [(i, snapshot)]) s
  | LCompacted marker summary => compact marker summary s
  | LModeChanged m => with_replay_mode m s
  | LModelChanged m => with_model (Some m) s
  | LEffortChanged e => with_effort e s
  | LTitle t =>
      let t := trim t in with_session_title (if is_empty t then None else Some t) s
  | LTaskView v kept index => task_view v kept index s
  | LApproval _ _ _ _ _ | LRewound _ _ _ | LNote _ | LUsage _ _ _ => s
  end.

(** * The whole log *)

Definition add_total (s : ReplayState) (r : LogRecord) : ReplayState :=
  match r with
  | LTurnFinished t =>
      with_cost_usd (f64_add (cost_usd s) (turn_cost t)) (with_usage (usage_add (usage s) (turn_usage t)) s)
  | LUsage _ u c => with_cost_usd (f64_add (cost_usd s) c) (with_usage (usage_add (usage s) u) s)
  | _ => s
  end.

Definition replay (records : list LogRecord) : ReplayState :=
  foldl add_total (foldl apply_record replay_default (effective_records records)) records.

End WithJson.
