(* ===== verification/ReplayFacts.v ===== *)
(** What a replay gives: rewinds, and identifiers of the working set. *)

From stdpp Require Import gmap sets.
From S2P Require Export Replay CompactionFacts TaskViewFacts.

Section WithJson.
Context {J : Json}.

(** * Effective records *)

(** A rewind of the conversation. *)
Definition is_rewind (r : LogRecord) : bool :=
  match r with LRewound _ true _ => true | _ => false end.

Lemma effective_snoc rs r : effective_records (rs ++ [r]) = effective_step (effective_records rs) r.
Proof using. unfold effective_records. by rewrite foldl_app. Qed.

Lemma effective_step_plain es r : is_rewind r = false -> effective_step es r = es ++ [r].
Proof using. destruct r; try done. by destruct conversation. Qed.

Lemma effective_plain rs ks :
  Forall (fun r => is_rewind r = false) ks -> effective_records (rs ++ ks) = effective_records rs ++ ks.
Proof using.
  intros H. induction ks as [|k ks IH] using rev_ind; [by rewrite !app_nil_r|].
  apply Forall_app in H as [H Hk]. rewrite Forall_singleton in Hk.
  by rewrite (app_assoc rs), effective_snoc, effective_step_plain, IH, app_assoc.
Qed.

Lemma effective_sublist rs : effective_records rs `sublist_of` rs.
Proof using.
  induction rs as [|r rs IH] using rev_ind; [done|]. rewrite effective_snoc. unfold effective_step.
  apply sublist_app; [|done].
  destruct r; try done. destruct conversation; [|done]. destruct (position _ _); [|done].
  etrans; [apply sublist_take|done].
Qed.

Lemma position_app {A} (f : A -> bool) l k :
  position f (l ++ k)
  = match position f l with Some n => Some n | None => fmap (fun n => (length l + n)%nat) (position f k) end.
Proof using.
  induction l as [|x l IH]; cbn; [by destruct (position f k)|].
  destruct (f x); [done|]. rewrite IH. destruct (position f l); [done|]. by destruct (position f k).
Qed.

(** A rewind target that is neither before the message nor the message leaves
    both. *)
Definition rewinds_later (m : Message) (es : list LogRecord) (r : LogRecord) : Prop :=
  match r with
  | LRewound i true _ => i <> message_id m /\ position (is_message i) es = None
  | _ => True
  end.

Lemma effective_after pre m t post :
  Forall (rewinds_later m (effective_records pre)) post ->
  exists later, effective_records (pre ++ LMessage m t :: post)
    = effective_records pre ++ LMessage m t :: later.
Proof using.
  intros H. induction post as [|r post IH] using rev_ind.
  - exists []. by rewrite effective_snoc.
  - apply Forall_app in H as [H Hr]. rewrite Forall_singleton in Hr. destruct (IH H) as (later & E).
    change (LMessage m t :: post ++ [r]) with ((LMessage m t :: post) ++ [r]).
    rewrite app_assoc, effective_snoc, E. destruct (is_rewind r) eqn:Ew.
    + destruct r; try done. destruct conversation; [|done]. destruct Hr as [Hi Hp]. cbn.
      rewrite position_app, Hp. cbn. assert (Em : teqb (message_id m) message = false) by by apply teqb_neq.
      rewrite Em. destruct (position (is_message message) later) as [n|]; cbn.
      * exists (take n later ++ [LRewound message true code]).
        rewrite take_app_add. cbn. by rewrite <- app_assoc.
      * exists (later ++ [LRewound message true code]). by rewrite <- app_assoc.
    + rewrite effective_step_plain by done. exists (later ++ [r]). by rewrite <- app_assoc.
Qed.

(** * Totals *)

(** The state without the totals, and the totals. *)
Definition replayed (rs : list LogRecord) : ReplayState := foldl apply_record replay_default (effective_records rs).

Definition with_totals (u : Usage) (c : f64) (s : ReplayState) : ReplayState := with_cost_usd c (with_usage u s).

Lemma with_totals_id s : with_totals (usage s) (cost_usd s) s = s.
Proof using. by destruct s. Qed.

Lemma with_totals_twice u c u' c' s : with_totals u c (with_totals u' c' s) = with_totals u c s.
Proof using. done. Qed.

Lemma add_total_shape s r : exists u c, add_total s r = with_totals u c s.
Proof using. exists (usage (add_total s r)), (cost_usd (add_total s r)). destruct r; by destruct s. Qed.

Lemma replay_replayed rs : replay rs = with_totals (usage (replay rs)) (cost_usd (replay rs)) (replayed rs).
Proof using.
  unfold replay at 1. assert (H : exists u c, foldl add_total (replayed rs) rs = with_totals u c (replayed rs)).
  { generalize (replayed rs). induction rs as [|r rs IH]; intros s; [eexists _, _; symmetry; apply with_totals_id|].
    cbn [foldl]. destruct (add_total_shape s r) as (u & c & ->). destruct (IH (with_totals u c s)) as (u' & c' & ->).
    by exists u', c'. }
  destruct H as (u & c & E). unfold replayed in *. unfold replay. by rewrite E.
Qed.

(** What a record spends. *)
Definition spent (r : LogRecord) : option Usage :=
  match r with LTurnFinished t => Some (turn_usage t) | LUsage _ u _ => Some u | _ => None end.

Lemma apply_totals s r : usage (apply_record s r) = usage s /\ cost_usd (apply_record s r) = cost_usd s.
Proof using.
  destruct s, r; cbn; try done.
  - by case_match.
  - unfold finish_turn. cbn. by repeat case_match.
  - unfold task_view. cbn. by repeat case_match.
Qed.

Lemma replayed_totals es s : usage (foldl apply_record s es) = usage s.
Proof using.
  revert s. induction es as [|e es IH]; intros s; [done|]. cbn. rewrite IH. apply apply_totals.
Qed.

Lemma add_total_usage rs s : usage (foldl add_total s rs) = foldl usage_add (usage s) (omap spent rs).
Proof using.
  revert s. induction rs as [|r rs IH]; intros s; [done|]. cbn [foldl]. rewrite IH. by destruct r.
Qed.

Lemma replay_usage rs : usage (replay rs) = foldl usage_add usage_default (omap spent rs).
Proof using. unfold replay. by rewrite add_total_usage, replayed_totals. Qed.

(** C11: a conversation rewind takes the session back to where the message was
    sent.  Whatever was logged after the message and is no rewind to it or to
    something before it, replaying the log with the rewind gives the state the
    log had before the message, in every field but the totals, and the usage
    still counts everything that was spent. *)
Theorem rewind_restores (pre post : list LogRecord) (m : Message) (t : option id) (code : bool) :
  position (is_message (message_id m)) (effective_records pre) = None ->
  Forall (rewinds_later m (effective_records pre)) post ->
  let rewound := replay (pre ++ LMessage m t :: post ++ [LRewound (message_id m) true code]) in
  rewound = with_totals (usage rewound) (cost_usd rewound) (replay pre)
  /\ usage rewound = foldl usage_add (usage (replay pre)) (omap spent post).
Proof using.
  intros Hm Hpost rewound. destruct (effective_after pre m t post Hpost) as (later & E).
  assert (Hh : replayed (pre ++ LMessage m t :: post ++ [LRewound (message_id m) true code]) = replayed pre).
  { unfold replayed. change (LMessage m t :: post ++ ?r) with ((LMessage m t :: post) ++ r).
    rewrite app_assoc, effective_snoc, E. cbn. rewrite position_app, Hm. cbn. rewrite teqb_refl. cbn.
    rewrite Nat.add_0_r, take_app_length, foldl_app. done. }
  split.
  - unfold rewound at 1. rewrite replay_replayed, Hh. fold rewound. by rewrite (replay_replayed pre).
  - unfold rewound. rewrite !replay_usage, omap_app. cbn. rewrite omap_app. cbn. by rewrite app_nil_r, foldl_app.
Qed.

End WithJson.

Section WithJson.
Context {J : Json}.

Definition ids (ms : list Message) : list id := map message_id ms.

Lemma ids_app a b : ids (a ++ b) = ids a ++ ids b.
Proof using. apply map_app. Qed.

Lemma ids_sublist (a b : list Message) : a `sublist_of` b -> ids a `sublist_of` ids b.
Proof using. apply fmap_sublist. Qed.

(** The messages a record brings, and a record that lists each message of a
    view once. *)
Definition introduced (r : LogRecord) : list id :=
  match r with
  | LMessage m _ => [message_id m]
  | LCompacted _ summary => [message_id summary]
  | LTaskView _ _ index => ids (option_list index)
  | _ => []
  end.

Definition introduced_by (rs : list LogRecord) : list id := concat (map introduced rs).

Definition tidy_record (r : LogRecord) : Prop :=
  match r with LTaskView _ kept _ => NoDup kept | _ => True end.

Definition tidy_log (rs : list LogRecord) : Prop := NoDup (introduced_by rs) /\ Forall tidy_record rs.

Lemma introduced_by_app a b : introduced_by (a ++ b) = introduced_by a ++ introduced_by b.
Proof using. unfold introduced_by. by rewrite map_app, concat_app. Qed.

Lemma introduced_by_sublist a b : a `sublist_of` b -> introduced_by a `sublist_of` introduced_by b.
Proof using.
  induction 1 as [|x a b _ IH|x a b _ IH]; [done| |].
  - by apply sublist_app.
  - unfold introduced_by in *. cbn. by apply sublist_inserts_l.
Qed.

Lemma tidy_sublist a b : a `sublist_of` b -> tidy_log b -> tidy_log a.
Proof using.
  intros H [Hn Ht]. split.
  - eapply sublist_NoDup; [exact Hn|by apply introduced_by_sublist].
  - apply Forall_forall. intros x Hx. rewrite Forall_forall in Ht. apply Ht. by eapply sublist_subseteq.
Qed.

Lemma tidy_snoc rs r :
  tidy_log (rs ++ [r]) <->
  tidy_log rs /\ NoDup (introduced r) /\ tidy_record r /\ (forall i, i ∈ introduced r -> i ∉ introduced_by rs).
Proof using.
  unfold tidy_log. rewrite introduced_by_app, NoDup_app, Forall_app, Forall_singleton.
  unfold introduced_by at 3 4. cbn. rewrite app_nil_r.
  split; [intros [(Ha & H & Hb) [Hc Hd]]|intros [[Ha Hc] (Hb & Hd & H)]]; repeat split; auto; intros i Hi Hj;
    by eapply H.
Qed.

(** * Messages by id *)

Lemma by_id_Some ms i m : by_id ms !! i = Some m -> message_id m = i /\ m ∈ ms.
Proof using.
  unfold by_id. intros H%elem_of_list_to_map_2. apply elem_of_reverse, list_elem_of_fmap in H as (x & E & Hx).
  by simplify_eq.
Qed.

Lemma by_id_lookup ms m : NoDup (ids ms) -> m ∈ ms -> by_id ms !! message_id m = Some m.
Proof using.
  intros Hn Hm. unfold by_id. apply elem_of_list_to_map.
  - rewrite reverse_Permutation. change (fst <$> map ?f ms) with (map fst (map f ms)). by rewrite map_map.
  - apply elem_of_reverse, list_elem_of_fmap. eauto.
Qed.

Lemma kept_ids ms kept :
  ids (omap (fun i => by_id ms !! i) kept) `sublist_of` kept
  /\ forall i, i ∈ ids (omap (fun i => by_id ms !! i) kept) -> i ∈ ids ms.
Proof using.
  split.
  - induction kept as [|i kept IH]; [done|]. cbn. destruct (by_id ms !! i) as [m|] eqn:E; [|by constructor].
    apply by_id_Some in E as [<- _]. by constructor.
  - intros i (m & -> & (j & _ & E)%list_elem_of_omap)%list_elem_of_fmap.
    apply by_id_Some in E as [_ ?]. by apply list_elem_of_fmap_2.
Qed.

(** * Replayed states *)

Definition drawn (from : list id) (ms : list Message) : Prop := NoDup (ids ms) /\ forall i, i ∈ ids ms -> i ∈ from.

Definition drawn_state (from : list id) (s : ReplayState) : Prop :=
  drawn from (working s) /\ (forall full, full_working s = Some full -> drawn from full).

Lemma drawn_more from more ms : drawn from ms -> drawn (from ++ more) ms.
Proof using. intros [? H]. split; [done|]. intros i ?. apply elem_of_app. eauto. Qed.

Lemma drawn_sublist from a b : a `sublist_of` b -> drawn from b -> drawn from a.
Proof using.
  intros H%ids_sublist [Hn Hi]. split; [by eapply sublist_NoDup|]. intros i ?. apply Hi. by eapply sublist_subseteq.
Qed.

Lemma drawn_add from m ms : drawn from ms -> message_id m ∉ from -> drawn (from ++ [message_id m]) (ms ++ [m]).
Proof using.
  intros [Hn Hi] Hm. split; rewrite ids_app.
  - apply NoDup_app. split_and!; [done| |apply NoDup_singleton].
    intros i Hi' ->%list_elem_of_singleton. auto.
  - intros i [?| ->%list_elem_of_singleton]%elem_of_app; apply elem_of_app; [left; auto|right; by apply list_elem_of_singleton].
Qed.

Lemma compact_kept marker (ms : list Message) :
  match keep_from marker with
  | Some i => match position (message_is i) ms with Some start => drop start ms | None => [] end
  | None => []
  end `sublist_of` ms.
Proof using. destruct (keep_from marker); [destruct (position _ ms)|]; auto using sublist_drop, sublist_nil_l. Qed.

Lemma apply_drawn from s r :
  drawn_state from s -> NoDup (introduced r) -> tidy_record r -> (forall i, i ∈ introduced r -> i ∉ from) ->
  drawn_state (from ++ introduced r) (apply_record s r).
Proof using.
  intros [Hw Hf] Hn Ht Hfresh.
  assert (Hkeep : forall s', working s' = working s -> full_working s' = full_working s ->
    drawn_state (from ++ introduced r) s').
  { intros s' Ew Ef. split; [rewrite Ew|rewrite Ef; intros full Hfull]; apply drawn_more; auto. }
  destruct r; try (by apply Hkeep).
  - apply Hkeep; cbn; by destruct (info s).
  - assert (Hi : message_id message ∉ from) by (apply Hfresh; left). split; cbn.
    + by apply drawn_add.
    + intros full Hfull. destruct (full_working s) as [f|] eqn:E; [|done]. cbn in Hfull. simplify_eq.
      apply drawn_add; auto.
  - apply Hkeep; cbn; unfold finish_turn; by repeat case_match.
  - split; [|by cbn]. cbn. pose proof (drawn_sublist _ _ _ (compact_kept marker (working s)) Hw) as [Hk Hki].
    split; cbn.
    + apply NoDup_cons. split; [|done]. intros Hin%Hki. eapply Hfresh; [|exact Hin]. left.
    + intros i [->|Hin]%elem_of_cons; apply elem_of_app; [right; left|left; auto].
  - cbn. unfold task_view. destruct (restored view).
    + cbn. destruct (full_working s) as [f|] eqn:E; [|by apply Hkeep]. split; [|by cbn]. cbn. apply drawn_more. auto.
    + set (full := default (working s) (full_working s)).
      assert (Hfull : drawn from full) by (unfold full; destruct (full_working s) eqn:E; cbn; auto).
      split; cbn.
      * match goal with |- context [omap _ ?k] => destruct (kept_ids (full ++ option_list index) k) as [Hs Hin] end.
        split; [by eapply sublist_NoDup|]. intros i Hi%Hin. rewrite ids_app in Hi.
        apply elem_of_app in Hi as [?|?]; apply elem_of_app; [left|by right]. by apply Hfull.
      * intros f [= <-]. by apply drawn_more.
Qed.

Lemma replayed_snoc rs r : is_rewind r = false -> replayed (rs ++ [r]) = apply_record (replayed rs) r.
Proof using. intros H. unfold replayed. by rewrite effective_snoc, effective_step_plain, foldl_app by done. Qed.

Lemma applied_drawn es :
  tidy_log es -> drawn_state (introduced_by es) (foldl apply_record replay_default es).
Proof using.
  induction es as [|r es IH] using rev_ind.
  - intros _. split; [|done]. split; [constructor|]. by intros i ?%not_elem_of_nil.
  - intros (Ht & Hn & Hr & Hfresh)%tidy_snoc. rewrite foldl_app, introduced_by_app. cbn [foldl].
    replace (introduced_by [r]) with (introduced r) by (unfold introduced_by; cbn; by rewrite app_nil_r).
    apply apply_drawn; auto.
Qed.

Lemma replayed_drawn rs : tidy_log rs -> drawn_state (introduced_by rs) (replayed rs).
Proof using.
  intros H. pose proof (effective_sublist rs) as Hs.
  destruct (applied_drawn (effective_records rs)) as [Hw Hf]; [by eapply tidy_sublist|].
  assert (Hi : forall i, i ∈ introduced_by (effective_records rs) -> i ∈ introduced_by rs)
    by (intros i; apply sublist_subseteq; by apply introduced_by_sublist).
  split; [|intros full Hfull; specialize (Hf full Hfull)];
    [destruct Hw as [? Hw]; split; auto|destruct Hf as [? Hf]; split; auto].
Qed.

(** * The messages of a view *)

Lemma sublist_concat {A B} (f g : B -> list A) l :
  (forall x, x ∈ l -> f x `sublist_of` g x) -> concat (map f l) `sublist_of` concat (map g l).
Proof using.
  induction l as [|x l IH]; intros H; [done|]. cbn. apply sublist_app; [apply H; left|]. apply IH. intros. apply H. by right.
Qed.

Lemma shown_sublist ms plan position e n :
  exchanges ms !! n = Some e -> shown ms plan position e `sublist_of` slice ms (span_of e).
Proof using.
  intros He. assert (Hs : spans (all_starts ms) (length ms) !! n = Some (span_of e)).
  { rewrite <- exchanges_span_of. change (map ?f ?l !! n) with ((f <$> l) !! n). by rewrite list_lookup_fmap, He. }
  pose proof (all_starts_ascending ms) as Ha. apply spans_lookup in Hs as [Hs Hb].
  unfold shown, span_of, slice. cbn. repeat case_match; auto using sublist_nil_l.
  - replace (take (Nat.min (stop_ e) (length ms)) ms) with (take (stop_ e) ms); [done|].
    symmetry. destruct (Nat.le_gt_cases (stop_ e) (length ms)); [by rewrite Nat.min_l|].
    rewrite Nat.min_r by lia. by rewrite firstn_all, take_ge by lia.
  - assert (Hb' : (start e < stop_ e /\ start e < length ms)%nat).
    { pose proof (ascending_bound _ _ _ _ _ Ha Hs). destruct Hb as [Hb|[_ ->]]; [|lia].
      pose proof (ascending_lookup _ _ _ _ _ _ Ha Hs Hb). lia. }
    rewrite (drop_S _ m); [apply sublist_skip, sublist_nil_l|]. by rewrite lookup_take_lt by lia.
Qed.

Lemma exchanges_cover ms : concat (map (fun e => slice ms (span_of e)) (exchanges ms)) = ms.
Proof using.
  rewrite <- (map_map span_of (slice ms)), exchanges_span_of.
  destruct (base.decide (ms = [])) as [->|Hne]; [done|].
  destruct (all_starts_first ms Hne) as (starts & E). pose proof (all_starts_ascending ms) as Ha.
  rewrite E in *. by apply spans_cover.
Qed.

Lemma imap_pair_snd {A} (l : list A) : map snd (imap pair l) = l.
Proof using.
  change (map snd (imap pair l)) with (snd <$> imap pair l). rewrite fmap_imap.
  transitivity (imap (fun _ x => x) l); [by apply imap_ext|].
  induction l as [|x l IH]; [done|]. rewrite imap_cons. f_equal. exact IH.
Qed.

Lemma view_messages ms plan i :
  exists a b, apply_task_view ms (exchanges ms) plan i = a ++ i :: b /\ (a ++ b) `sublist_of` ms.
Proof using.
  assert (Hall : rest_shown ms plan (imap pair (exchanges ms)) `sublist_of` ms).
  { pose proof (exchanges_cover ms) as Hc. rewrite <- (imap_pair_snd (exchanges ms)), map_map in Hc.
    transitivity (concat (map (fun pe => slice ms (span_of (snd pe))) (imap pair (exchanges ms)))); [|by rewrite Hc].
    apply sublist_concat. intros [n e] (k & Hk)%list_elem_of_lookup. rewrite list_lookup_imap in Hk.
    destruct (exchanges ms !! k) as [e'|] eqn:E; cbn in Hk; [|done]. simplify_eq. by eapply shown_sublist. }
  rewrite apply_task_view_shown. destruct (imap pair (exchanges ms)) as [|[n e] pes].
  - exists [], []. split; [done|]. apply sublist_nil_l.
  - destruct (lead e); [exists (shown ms plan n e), (rest_shown ms plan pes)|exists [], (rest_shown ms plan ((n, e) :: pes))];
      (split; [done|exact Hall]).
Qed.

End WithJson.
