(* ===== verification/Session.v ===== *)
(** The state a session keeps in memory and the operations that change it
    together with the log ([engine/src/session/*.rs], [run/*.rs],
    [ports/interaction.rs], [orchestration/tracker.rs], [verify/*.rs] and
    [decisions/uses/task_view/apply.rs]).

    A session is the broker's [World], which holds the log, the events and the
    permission mode, and the rest of the state.  An operation takes the outcome
    of its file writes, and the identifiers and times it gets from the machine,
    as arguments. *)

From stdpp Require Import gmap.
From S2P Require Export TaskView Template Replay.
From S2P Require Export Broker.

(** [verify/verdict.rs]: what the current turn changed. *)
Record Mutation := mkMutation { mutated : bool; mutated_at : option N }.

Definition seeded (m : bool) : Mutation := mkMutation m None.

Definition touch_mutation (at_ : N) (m : Mutation) : Mutation :=
  mkMutation true (Some (match mutated_at m with Some previous => N.max previous at_ | None => at_ end)).

Definition MAIN : id := str "main".

Section WithJson.
Context {G : Globset} {P : Platform} {J : Json}.

(** [SessionState] but for the mode, which is the [World]'s. *)
Record SessionState := mkSessionState {
  live_created : N;
  live_updated_at : N;
  live_legacy : bool;
  live_transcript : list Message;
  live_working : list Message;
  live_compactions : list CompactionMarker;
  live_turns : list TurnRecord;
  live_todos : gmap id (list TodoItem);
  live_agents : list AgentInfo;
  live_checks : list CheckRecord;
  live_checkpoints : list (CheckpointInfo * text);
  live_model : text;
  live_effort : option Effort;
  live_title : option text;
  live_usage : Usage;
  live_cost : f64;
  live_agent_usages : gmap id Usage;
  live_queue : list text;
  live_context_tokens : N;
  live_context_limit : N;
  live_meter : ContextMeter;
  live_interrupted : bool;
  live_external_mutation : bool;
  live_mutation : Mutation;
  live_added_dirs : list path;
  live_turn_model : option text;
  live_full_working : option (list Message);
  live_task_views : list TaskViewInfo
}.

Definition put_live_created v (s : SessionState) : SessionState :=
  mkSessionState v (live_updated_at s) (live_legacy s) (live_transcript s) (live_working s)
    (live_compactions s) (live_turns s) (live_todos s) (live_agents s) (live_checks s)
    (live_checkpoints s) (live_model s) (live_effort s) (live_title s) (live_usage s)
    (live_cost s) (live_agent_usages s) (live_queue s) (live_context_tokens s)
    (live_context_limit s) (live_meter s) (live_interrupted s) (live_external_mutation s)
    (live_mutation s) (live_added_dirs s) (live_turn_model s) (live_full_working s)
    (live_task_views s).
Definition put_live_updated_at v (s : SessionState) : SessionState :=
  mkSessionState (live_created s) v (live_legacy s) (live_transcript s) (live_working s)
    (live_compactions s) (live_turns s) (live_todos s) (live_agents s) (live_checks s)
    (live_checkpoints s) (live_model s) (live_effort s) (live_title s) (live_usage s)
    (live_cost s) (live_agent_usages s) (live_queue s) (live_context_tokens s)
    (live_context_limit s) (live_meter s) (live_interrupted s) (live_external_mutation s)
    (live_mutation s) (live_added_dirs s) (live_turn_model s) (live_full_working s)
    (live_task_views s).
Definition put_live_legacy v (s : SessionState) : SessionState :=
  mkSessionState (live_created s) (live_updated_at s) v (live_transcript s) (live_working s)
    (live_compactions s) (live_turns s) (live_todos s) (live_agents s) (live_checks s)
    (live_checkpoints s) (live_model s) (live_effort s) (live_title s) (live_usage s)
    (live_cost s) (live_agent_usages s) (live_queue s) (live_context_tokens s)
    (live_context_limit s) (live_meter s) (live_interrupted s) (live_external_mutation s)
    (live_mutation s) (live_added_dirs s) (live_turn_model s) (live_full_working s)
    (live_task_views s).
Definition put_live_transcript v (s : SessionState) : SessionState :=
  mkSessionState (live_created s) (live_updated_at s) (live_legacy s) v (live_working s)
    (live_compactions s) (live_turns s) (live_todos s) (live_agents s) (live_checks s)
    (live_checkpoints s) (live_model s) (live_effort s) (live_title s) (live_usage s)
    (live_cost s) (live_agent_usages s) (live_queue s) (live_context_tokens s)
    (live_context_limit s) (live_meter s) (live_interrupted s) (live_external_mutation s)
    (live_mutation s) (live_added_dirs s) (live_turn_model s) (live_full_working s)
    (live_task_views s).
Definition put_live_working v (s : SessionState) : SessionState :=
  mkSessionState (live_created s) (live_updated_at s) (live_legacy s) (live_transcript s) v
    (live_compactions s) (live_turns s) (live_todos s) (live_agents s) (live_checks s)
    (live_checkpoints s) (live_model s) (live_effort s) (live_title s) (live_usage s)
    (live_cost s) (live_agent_usages s) (live_queue s) (live_context_tokens s)
    (live_context_limit s) (live_meter s) (live_interrupted s) (live_external_mutation s)
    (live_mutation s) (live_added_dirs s) (live_turn_model s) (live_full_working s)
    (live_task_views s).
Definition put_live_compactions v (s : SessionState) : SessionState :=
  mkSessionState (live_created s) (live_updated_at s) (live_legacy s) (live_transcript s)
    (live_working s) v (live_turns s) (live_todos s) (live_agents s) (live_checks s)
    (live_checkpoints s) (live_model s) (live_effort s) (live_title s) (live_usage s)
    (live_cost s) (live_agent_usages s) (live_queue s) (live_context_tokens s)
    (live_context_limit s) (live_meter s) (live_interrupted s) (live_external_mutation s)
    (live_mutation s) (live_added_dirs s) (live_turn_model s) (live_full_working s)
    (live_task_views s).
Definition put_live_turns v (s : SessionState) : SessionState :=
  mkSessionState (live_created s) (live_updated_at s) (live_legacy s) (live_transcript s)
    (live_working s) (live_compactions s) v (live_todos s) (live_agents s) (live_checks s)
    (live_checkpoints s) (live_model s) (live_effort s) (live_title s) (live_usage s)
    (live_cost s) (live_agent_usages s) (live_queue s) (live_context_tokens s)
    (live_context_limit s) (live_meter s) (live_interrupted s) (live_external_mutation s)
    (live_mutation s) (live_added_dirs s) (live_turn_model s) (live_full_working s)
    (live_task_views s).
Definition put_live_todos v (s : SessionState) : SessionState :=
  mkSessionState (live_created s) (live_updated_at s) (live_legacy s) (live_transcript s)
    (live_working s) (live_compactions s) (live_turns s) v (live_agents s) (live_checks s)
    (live_checkpoints s) (live_model s) (live_effort s) (live_title s) (live_usage s)
    (live_cost s) (live_agent_usages s) (live_queue s) (live_context_tokens s)
    (live_context_limit s) (live_meter s) (live_interrupted s) (live_external_mutation s)
    (live_mutation s) (live_added_dirs s) (live_turn_model s) (live_full_working s)
    (live_task_views s).
Definition put_live_agents v (s : SessionState) : SessionState :=
  mkSessionState (live_created s) (live_updated_at s) (live_legacy s) (live_transcript s)
    (live_working s) (live_compactions s) (live_turns s) (live_todos s) v (live_checks s)
    (live_checkpoints s) (live_model s) (live_effort s) (live_title s) (live_usage s)
    (live_cost s) (live_agent_usages s) (live_queue s) (live_context_tokens s)
    (live_context_limit s) (live_meter s) (live_interrupted s) (live_external_mutation s)
    (live_mutation s) (live_added_dirs s) (live_turn_model s) (live_full_working s)
    (live_task_views s).
Definition put_live_checks v (s : SessionState) : SessionState :=
  mkSessionState (live_created s) (live_updated_at s) (live_legacy s) (live_transcript s)
    (live_working s) (live_compactions s) (live_turns s) (live_todos s) (live_agents s) v
    (live_checkpoints s) (live_model s) (live_effort s) (live_title s) (live_usage s)
    (live_cost s) (live_agent_usages s) (live_queue s) (live_context_tokens s)
    (live_context_limit s) (live_meter s) (live_interrupted s) (live_external_mutation s)
    (live_mutation s) (live_added_dirs s) (live_turn_model s) (live_full_working s)
    (live_task_views s).
Definition put_live_checkpoints v (s : SessionState) : SessionState :=
  mkSessionState (live_created s) (live_updated_at s) (live_legacy s) (live_transcript s)
    (live_working s) (live_compactions s) (live_turns s) (live_todos s) (live_agents s)
    (live_checks s) v (live_model s) (live_effort s) (live_title s) (live_usage s) (live_cost s)
    (live_agent_usages s) (live_queue s) (live_context_tokens s) (live_context_limit s)
    (live_meter s) (live_interrupted s) (live_external_mutation s) (live_mutation s)
    (live_added_dirs s) (live_turn_model s) (live_full_working s) (live_task_views s).
Definition put_live_model v (s : SessionState) : SessionState :=
  mkSessionState (live_created s) (live_updated_at s) (live_legacy s) (live_transcript s)
    (live_working s) (live_compactions s) (live_turns s) (live_todos s) (live_agents s)
    (live_checks s) (live_checkpoints s) v (live_effort s) (live_title s) (live_usage s)
    (live_cost s) (live_agent_usages s) (live_queue s) (live_context_tokens s)
    (live_context_limit s) (live_meter s) (live_interrupted s) (live_external_mutation s)
    (live_mutation s) (live_added_dirs s) (live_turn_model s) (live_full_working s)
    (live_task_views s).
Definition put_live_effort v (s : SessionState) : SessionState :=
  mkSessionState (live_created s) (live_updated_at s) (live_legacy s) (live_transcript s)
    (live_working s) (live_compactions s) (live_turns s) (live_todos s) (live_agents s)
    (live_checks s) (live_checkpoints s) (live_model s) v (live_title s) (live_usage s)
    (live_cost s) (live_agent_usages s) (live_queue s) (live_context_tokens s)
    (live_context_limit s) (live_meter s) (live_interrupted s) (live_external_mutation s)
    (live_mutation s) (live_added_dirs s) (live_turn_model s) (live_full_working s)
    (live_task_views s).
Definition put_live_title v (s : SessionState) : SessionState :=
  mkSessionState (live_created s) (live_updated_at s) (live_legacy s) (live_transcript s)
    (live_working s) (live_compactions s) (live_turns s) (live_todos s) (live_agents s)
    (live_checks s) (live_checkpoints s) (live_model s) (live_effort s) v (live_usage s)
    (live_cost s) (live_agent_usages s) (live_queue s) (live_context_tokens s)
    (live_context_limit s) (live_meter s) (live_interrupted s) (live_external_mutation s)
    (live_mutation s) (live_added_dirs s) (live_turn_model s) (live_full_working s)
    (live_task_views s).
Definition put_live_usage v (s : SessionState) : SessionState :=
  mkSessionState (live_created s) (live_updated_at s) (live_legacy s) (live_transcript s)
    (live_working s) (live_compactions s) (live_turns s) (live_todos s) (live_agents s)
    (live_checks s) (live_checkpoints s) (live_model s) (live_effort s) (live_title s) v
    (live_cost s) (live_agent_usages s) (live_queue s) (live_context_tokens s)
    (live_context_limit s) (live_meter s) (live_interrupted s) (live_external_mutation s)
    (live_mutation s) (live_added_dirs s) (live_turn_model s) (live_full_working s)
    (live_task_views s).
Definition put_live_cost v (s : SessionState) : SessionState :=
  mkSessionState (live_created s) (live_updated_at s) (live_legacy s) (live_transcript s)
    (live_working s) (live_compactions s) (live_turns s) (live_todos s) (live_agents s)
    (live_checks s) (live_checkpoints s) (live_model s) (live_effort s) (live_title s)
    (live_usage s) v (live_agent_usages s) (live_queue s) (live_context_tokens s)
    (live_context_limit s) (live_meter s) (live_interrupted s) (live_external_mutation s)
    (live_mutation s) (live_added_dirs s) (live_turn_model s) (live_full_working s)
    (live_task_views s).
Definition put_live_agent_usages v (s : SessionState) : SessionState :=
  mkSessionState (live_created s) (live_updated_at s) (live_legacy s) (live_transcript s)
    (live_working s) (live_compactions s) (live_turns s) (live_todos s) (live_agents s)
    (live_checks s) (live_checkpoints s) (live_model s) (live_effort s) (live_title s)
    (live_usage s) (live_cost s) v (live_queue s) (live_context_tokens s) (live_context_limit s)
    (live_meter s) (live_interrupted s) (live_external_mutation s) (live_mutation s)
    (live_added_dirs s) (live_turn_model s) (live_full_working s) (live_task_views s).
Definition put_live_queue v (s : SessionState) : SessionState :=
  mkSessionState (live_created s) (live_updated_at s) (live_legacy s) (live_transcript s)
    (live_working s) (live_compactions s) (live_turns s) (live_todos s) (live_agents s)
    (live_checks s) (live_checkpoints s) (live_model s) (live_effort s) (live_title s)
    (live_usage s) (live_cost s) (live_agent_usages s) v (live_context_tokens s)
    (live_context_limit s) (live_meter s) (live_interrupted s) (live_external_mutation s)
    (live_mutation s) (live_added_dirs s) (live_turn_model s) (live_full_working s)
    (live_task_views s).
Definition put_live_context_tokens v (s : SessionState) : SessionState :=
  mkSessionState (live_created s) (live_updated_at s) (live_legacy s) (live_transcript s)
    (live_working s) (live_compactions s) (live_turns s) (live_todos s) (live_agents s)
    (live_checks s) (live_checkpoints s) (live_model s) (live_effort s) (live_title s)
    (live_usage s) (live_cost s) (live_agent_usages s) (live_queue s) v (live_context_limit s)
    (live_meter s) (live_interrupted s) (live_external_mutation s) (live_mutation s)
    (live_added_dirs s) (live_turn_model s) (live_full_working s) (live_task_views s).
Definition put_live_context_limit v (s : SessionState) : SessionState :=
  mkSessionState (live_created s) (live_updated_at s) (live_legacy s) (live_transcript s)
    (live_working s) (live_compactions s) (live_turns s) (live_todos s) (live_agents s)
    (live_checks s) (live_checkpoints s) (live_model s) (live_effort s) (live_title s)
    (live_usage s) (live_cost s) (live_agent_usages s) (live_queue s) (live_context_tokens s) v
    (live_meter s) (live_interrupted s) (live_external_mutation s) (live_mutation s)
    (live_added_dirs s) (live_turn_model s) (live_full_working s) (live_task_views s).
Definition put_live_meter v (s : SessionState) : SessionState :=
  mkSessionState (live_created s) (live_updated_at s) (live_legacy s) (live_transcript s)
    (live_working s) (live_compactions s) (live_turns s) (live_todos s) (live_agents s)
    (live_checks s) (live_checkpoints s) (live_model s) (live_effort s) (live_title s)
    (live_usage s) (live_cost s) (live_agent_usages s) (live_queue s) (live_context_tokens s)
    (live_context_limit s) v (live_interrupted s) (live_external_mutation s) (live_mutation s)
    (live_added_dirs s) (live_turn_model s) (live_full_working s) (live_task_views s).
Definition put_live_interrupted v (s : SessionState) : SessionState :=
  mkSessionState (live_created s) (live_updated_at s) (live_legacy s) (live_transcript s)
    (live_working s) (live_compactions s) (live_turns s) (live_todos s) (live_agents s)
    (live_checks s) (live_checkpoints s) (live_model s) (live_effort s) (live_title s)
    (live_usage s) (live_cost s) (live_agent_usages s) (live_queue s) (live_context_tokens s)
    (live_context_limit s) (live_meter s) v (live_external_mutation s) (live_mutation s)
    (live_added_dirs s) (live_turn_model s) (live_full_working s) (live_task_views s).
Definition put_live_external_mutation v (s : SessionState) : SessionState :=
  mkSessionState (live_created s) (live_updated_at s) (live_legacy s) (live_transcript s)
    (live_working s) (live_compactions s) (live_turns s) (live_todos s) (live_agents s)
    (live_checks s) (live_checkpoints s) (live_model s) (live_effort s) (live_title s)
    (live_usage s) (live_cost s) (live_agent_usages s) (live_queue s) (live_context_tokens s)
    (live_context_limit s) (live_meter s) (live_interrupted s) v (live_mutation s)
    (live_added_dirs s) (live_turn_model s) (live_full_working s) (live_task_views s).
Definition put_live_mutation v (s : SessionState) : SessionState :=
  mkSessionState (live_created s) (live_updated_at s) (live_legacy s) (live_transcript s)
    (live_working s) (live_compactions s) (live_turns s) (live_todos s) (live_agents s)
    (live_checks s) (live_checkpoints s) (live_model s) (live_effort s) (live_title s)
    (live_usage s) (live_cost s) (live_agent_usages s) (live_queue s) (live_context_tokens s)
    (live_context_limit s) (live_meter s) (live_interrupted s) (live_external_mutation s) v
    (live_added_dirs s) (live_turn_model s) (live_full_working s) (live_task_views s).
Definition put_live_added_dirs v (s : SessionState) : SessionState :=
  mkSessionState (live_created s) (live_updated_at s) (live_legacy s) (live_transcript s)
    (live_working s) (live_compactions s) (live_turns s) (live_todos s) (live_agents s)
    (live_checks s) (live_checkpoints s) (live_model s) (live_effort s) (live_title s)
    (live_usage s) (live_cost s) (live_agent_usages s) (live_queue s) (live_context_tokens s)
    (live_context_limit s) (live_meter s) (live_interrupted s) (live_external_mutation s)
    (live_mutation s) v (live_turn_model s) (live_full_working s) (live_task_views s).
Definition put_live_turn_model v (s : SessionState) : SessionState :=
  mkSessionState (live_created s) (live_updated_at s) (live_legacy s) (live_transcript s)
    (live_working s) (live_compactions s) (live_turns s) (live_todos s) (live_agents s)
    (live_checks s) (live_checkpoints s) (live_model s) (live_effort s) (live_title s)
    (live_usage s) (live_cost s) (live_agent_usages s) (live_queue s) (live_context_tokens s)
    (live_context_limit s) (live_meter s) (live_interrupted s) (live_external_mutation s)
    (live_mutation s) (live_added_dirs s) v (live_full_working s) (live_task_views s).
Definition put_live_full_working v (s : SessionState) : SessionState :=
  mkSessionState (live_created s) (live_updated_at s) (live_legacy s) (live_transcript s)
    (live_working s) (live_compactions s) (live_turns s) (live_todos s) (live_agents s)
    (live_checks s) (live_checkpoints s) (live_model s) (live_effort s) (live_title s)
    (live_usage s) (live_cost s) (live_agent_usages s) (live_queue s) (live_context_tokens s)
    (live_context_limit s) (live_meter s) (live_interrupted s) (live_external_mutation s)
    (live_mutation s) (live_added_dirs s) (live_turn_model s) v (live_task_views s).
Definition put_live_task_views v (s : SessionState) : SessionState :=
  mkSessionState (live_created s) (live_updated_at s) (live_legacy s) (live_transcript s)
    (live_working s) (live_compactions s) (live_turns s) (live_todos s) (live_agents s)
    (live_checks s) (live_checkpoints s) (live_model s) (live_effort s) (live_title s)
    (live_usage s) (live_cost s) (live_agent_usages s) (live_queue s) (live_context_tokens s)
    (live_context_limit s) (live_meter s) (live_interrupted s) (live_external_mutation s)
    (live_mutation s) (live_added_dirs s) (live_turn_model s) (live_full_working s) v.

Record Session := mkSession { core : World; live : SessionState }.

Definition on_live (f : SessionState -> SessionState) (s : Session) : Session :=
  mkSession (core s) (f (live s)).

Definition on_core (f : World -> World) (s : Session) : Session := mkSession (f (core s)) (live s).

Definition announce (e : Event) (s : Session) : Session := mkSession (emit e (core s)) (live s).

(** [Journal::append] and [Journal::append_or_report]. *)
Definition log_record (io : Io) (r : LogRecord) (s : Session) : result text Session :=
  match append io r (core s) with
  | Ok w => Ok (mkSession w (live s))
  | Err e => Err e
  end.

Definition log_or_report (io : Io) (r : LogRecord) (s : Session) : bool * Session :=
  let '(saved, w) := append_or_report io r (core s) in (saved, mkSession w (live s)).

(** * [state.rs] *)

Definition blank_text (t : text) : bool := is_empty (trim t).

Definition from_replay (r : ReplayState) (legacy : bool) (updated_at : N) (default_model : text)
    (default_effort : option Effort) : SessionState :=
  let created := match info r with Some i => snd i | None => updated_at end in
  mkSessionState created (N.max updated_at created) legacy
    (transcript r) (working r) (compactions r) (turns r) (todos r) (agents r) (checks r) (checkpoints r)
    (match model r with Some m => if blank_text m then default_model else m | None => default_model end)
    (match effort r with Some e => Some e | None => default_effort end)
    (session_title r) (usage r) (cost_usd r) {[ MAIN := usage r ]} [] 0%N 0%N meter_default
    (match last (turns r) with
     | Some t => match outcome t with TurnCancelled | Interrupted => true | _ => false end
     | None => false
     end)
    false (mkMutation false None) [] None (full_working r) (task_views r).

(** * [run/sink.rs] *)

Definition push_live (m : Message) (now : N) (s : SessionState) : SessionState :=
  put_live_updated_at now
    (put_live_full_working (fmap (fun full => full ++ [m]) (live_full_working s))
      (put_live_working (live_working s ++ [m])
        (put_live_transcript (live_transcript s ++ [m]) s))).

(** [MainSink::append] *)
Definition sink_append (io : Io) (turn : option id) (m : Message) (steering : bool) (now : N) (s : Session)
  : result text Session :=
  let? s := log_record io (LMessage m turn) s in
  let s := on_live (push_live m now) s in
  Ok (if is_user m then announce (UserMessage m turn steering) s else s).

(** [MainSink::set_working] *)
Definition set_working (w : list Message) (s : Session) : Session := on_live (put_live_working w) s.

(** [MainSink::compacted] *)
Definition compacted (io : Io) (marker : CompactionMarker) (summary : Message) (w : list Message) (s : Session)
  : result text Session :=
  let? s := log_record io (LCompacted marker summary) s in
  let s := on_live (fun l =>
    put_live_meter (reset (live_meter l))
      (put_live_compactions (live_compactions l ++ [marker])
        (put_live_full_working None (put_live_working w l)))) s in
  Ok (announce (Compacted marker) s).

Definition save_meter (m : ContextMeter) (s : Session) : Session := on_live (put_live_meter m) s.

(** * [run/usage.rs]; the price of the usage is given. *)

Definition account (agent : id) (u : Usage) (cost : f64) (tokens : option N) (s : Session) : Session :=
  let l := live s in
  let total := usage_add (live_usage l) u in
  let cost := f64_add (live_cost l) cost in
  let mine := usage_add (default usage_default (live_agent_usages l !! agent)) u in
  let tokens := default (live_context_tokens l) tokens in
  announce (UsageUpdated agent mine total cost tokens (live_context_limit l))
    (on_live (fun l =>
      put_live_context_tokens tokens
        (put_live_agent_usages (<[agent := mine]> (live_agent_usages l))
          (put_live_cost cost (put_live_usage total l)))) s).

Definition record_side (io : Io) (agent : id) (u : Usage) (cost : f64) (s : Session) : Session :=
  if usage_is_empty u then s
  else account agent u cost None (snd (log_or_report io (LUsage agent u cost) s)).

(** * [run/compact.rs] *)

Definition KEEP_RECENT_MESSAGES : nat := 4.

(** What the summary request gives: its usage and price, then its text. *)
Record SideReply := mkSideReply { side_usage : Usage; side_cost : f64; side_text : result text text }.

Definition saturating_add (a b : N) : N := N.min (a + b) (U64 - 1).

(** The marker of a compaction of [w] at [split]. *)
Definition marker_of (w : list Message) (split : nat) (t : text) (summary : Message) (tokens now : N)
  : CompactionMarker :=
  mkCompactionMarker (fmap message_id (w !! split)) t tokens
    (saturating_add (tokens - estimate_messages (take split w)) (estimate_message summary)) now.

(** [io] and [io2] are the outcomes of writing the usage and the compaction. *)
Definition summarize (io io2 : Io) (trigger : CompactionTrigger) (agent : id) (reply : SideReply)
    (stamp : id * N) (now : N) (w : list Message) (tokens : N) (s : Session)
  : Session * result text (option (list Message)) :=
  match plan_summary w KEEP_RECENT_MESSAGES with
  | None => (s, Ok None)
  | Some split =>
      let s := announce (CompactionStarted trigger) s in
      let s := record_side io agent (side_usage reply) (side_cost reply) s in
      match side_text reply with
      | Err e => (s, Err e)
      | Ok t =>
          let t := trim t in
          if is_empty t then (s, Err (str "the summarizer returned no text"))
          else
            let summary := summary_message stamp t in
            let out := apply_summary w split summary in
            match compacted io2 (marker_of w split t summary tokens now) summary out s with
            | Ok s => (s, Ok (Some out))
            | Err e => (s, Err e)
            end
      end
  end.

(** * [session/compaction.rs] *)

Definition compact_now (io io2 : Io) (reply : SideReply) (stamp : id * N) (now : N) (s : Session) : Session :=
  let w := live_working (live s) in
  let tokens :=
    if (live_context_tokens (live s) =? 0)%N then estimate_messages w else live_context_tokens (live s) in
  match summarize io io2 CompactManual MAIN reply stamp now w tokens s with
  | (s, Ok (Some out)) => on_live (put_live_context_tokens (estimate_messages out)) s
  | (s, Ok None) => announce (Notice Info (str "The conversation is too short to compact.")) s
  | (s, Err e) => announce (Notice Warn (str "Compaction failed: " ++ e)) s
  end.

(** * [run/pressure.rs] *)

Definition MIN_CLEAR_CHARS : nat := 1000.

(** Where the full output of a cleared result was saved, if it was. *)
Definition cleared_text (saved : ClearTarget -> option text) (t : ClearTarget) (_ : text) : text :=
  CLEARED_PREFIX ++ str ": " ++ show_N (N.of_nat (target_chars t))
  ++ str " characters of older tool output were removed to free context"
  ++ match saved t with
     | Some path => str "; the full output is saved at " ++ path ++ str "]"
     | None => str "]"
     end.

Definition same_ids (a b : list Message) : bool := bool_decide (map message_id a = map message_id b).

(** [review] is the pressure seam: the targets that remain. *)
Definition microcompact (review : list ClearTarget -> list ClearTarget) (saved : ClearTarget -> option text)
    (m : ContextMeter) (w : list Message) (keep_recent : nat) (s : Session)
  : Session * ContextMeter * list Message :=
  let targets := review (plan_microcompact w keep_recent MIN_CLEAR_CHARS) in
  if is_empty targets then (s, m, w)
  else
    let now := live_working (live s) in
    if negb (same_ids now w) then (s, m, now)
    else
      let cleared := fst (apply_microcompact w targets (cleared_text saved)) in
      (set_working cleared s, rebase w cleared m, cleared).

Definition saturating_mul (a b : N) : N := N.min (a * b) (U64 - 1).

(** [limit], [keep] and [percent] come from the settings; a failed summary of
    a run that was cancelled is an error. *)
Definition relieve (io io2 : Io) (agent : id) (limit : N) (keep : nat) (percent : N)
    (review : list ClearTarget -> list ClearTarget) (saved : ClearTarget -> option text) (reply : SideReply)
    (cancelled : bool) (stamp : id * N) (now : N) (forced : bool) (m : ContextMeter) (w : list Message) (s : Session)
  : Session * ContextMeter * result text (list Message) :=
  let '(s, m, w) :=
    if forced || (limit <? saturating_mul (measure w m) 2)%N
    then microcompact review saved m w keep s else (s, m, w) in
  let threshold := (saturating_mul limit percent / 100)%N in
  let used := measure w m in
  if negb forced && (used <=? threshold)%N then (s, m, Ok w)
  else
    match summarize io io2 CompactAuto agent reply stamp now w used s with
    | (s, Ok (Some out)) => (s, reset m, Ok out)
    | (s, Ok None) => (s, m, Ok w)
    | (s, Err e) =>
        if cancelled then (s, m, Err e)
        else (announce (Notice Warn (str "could not compact the conversation: " ++ e)) s, m, Ok w)
    end.

(** * [session/turn.rs] *)

(** [start]; [io] and [io2] are the outcomes of its two writes. *)
Definition start_turn (io io2 : Io) (m : Message) (turn : id) (started now : N) (s : Session) : Session * bool :=
  let failed e s := (announce (ErrorEvent (str "could not save your message: " ++ e)) s, false) in
  match sink_append io (Some turn) m false now s with
  | Err e => failed e s
  | Ok s =>
      match log_record io2 (LTurnStarted turn (message_id m) started) s with
      | Err e => failed e s
      | Ok s => (announce (TurnStarted turn (message_id m)) s, true)
      end
  end.

(** Before the run: a [!cmd] since the last turn counts as its change. *)
Definition seed_mutation (s : Session) : Session :=
  on_live (fun l => put_live_mutation (seeded (live_external_mutation l)) (put_live_external_mutation false l)) s.

Definition close_turn (io : Io) (t : TurnRecord) (s : Session) : Session :=
  let s := announce (VerificationChanged (verification t)) s in
  let s := snd (log_or_report io (LTurnFinished t) s) in
  let s := on_live (fun l =>
    put_live_updated_at (turn_finished_at t)
      (put_live_interrupted (bool_decide (outcome t = TurnCancelled))
        (put_live_turns (live_turns l ++ [t]) l))) s in
  announce (TurnFinished t) s.

(** [prompt_text]: the queue goes first. *)
Definition prompt_text (typed : text) (s : Session) : text * Session :=
  let queued := live_queue (live s) in
  let s := on_live (put_live_queue []) s in
  (join [NEWLINE; NEWLINE] (List.filter (fun t => negb (is_empty t)) (map trim (queued ++ [typed]))),
   if is_empty queued then s else announce (QueueChanged []) s).

(** * [session/checkpoint.rs], the snapshot taken *)

Definition record_checkpoint (io : Io) (i : CheckpointInfo) (commit : text) (s : Session) : Session :=
  let '(saved, s) := log_or_report io (LCheckpoint i commit) s in
  if saved then
    announce (CheckpointCreated i)
      (on_live (fun l => put_live_checkpoints (live_checkpoints l ++ [(i, commit)]) l) s)
  else s.

(** * [session/title.rs] *)

Definition TITLE_MAX_CHARS : nat := 80.

(** The first line with text, without quotes, emphasis or final periods. *)
Definition clean_title (t : text) : text :=
  let line := default [] (List.find (fun l => negb (is_empty l)) (map trim (split_on NEWLINE t))) in
  let line := trim_by (fun c => one_of "'`*#" c || N.eqb c QUOTE) line in
  take TITLE_MAX_CHARS (trim (trim_end_by (N.eqb 46) (trim line))).

Definition set_title (io : Io) (t : text) (s : Session) : Session :=
  let '(saved, s) := log_or_report io (LTitle t) s in
  if saved then announce (TitleChanged t) (on_live (put_live_title (Some t)) s) else s.

(** [spawn_title], when the model answered. *)
Definition title_reply (io : Io) (t : text) (s : Session) : Session :=
  let t := clean_title t in if is_empty t then s else set_title io t s.

(** * [session/control.rs] *)

(** [set_mode], its sections one after the other. *)
Definition switch_mode (io : Io) (m : PermissionMode) (s : Session) : Session :=
  let run w a := fst (run_atom io a w) in
  let '(w, todo) := set_mode m (core s) in
  match todo with
  | [] => mkSession w (live s)
  | _ => let '(w, todo) := log_mode io m w in mkSession (foldl run w todo) (live s)
  end.

(** [limit] is the model's context window. *)
Definition set_model (io : Io) (m : text) (limit : N) (s : Session) : Session :=
  let m := trim m in
  if is_empty m then announce (Notice Warn (str "choose a model id to switch models")) s
  else
    let '(saved, s) := log_or_report io (LModelChanged m) s in
    if saved then
      announce (ModelChanged m)
        (on_live (fun l =>
          put_live_meter (reset (live_meter l)) (put_live_context_limit limit (put_live_model m l))) s)
    else s.

Definition set_effort (io : Io) (e : option Effort) (s : Session) : Session :=
  let '(saved, s) := log_or_report io (LEffortChanged e) s in
  if saved then announce (EffortChanged e) (on_live (put_live_effort e) s) else s.

Definition steer (t : text) (s : Session) : Session :=
  let t := trim t in
  if is_empty t then s
  else
    let queued := live_queue (live s) ++ [t] in
    announce (QueueChanged queued) (on_live (put_live_queue queued) s).

Definition edit_queue (queued : list text) (s : Session) : Session :=
  let queued := List.filter (fun t => negb (is_empty t)) (map trim queued) in
  announce (QueueChanged queued) (on_live (put_live_queue queued) s).

(** * Todos, agents and checks *)

(** [ports/interaction.rs] *)
Definition update_todos (io : Io) (agent : id) (l : list TodoItem) (s : Session) : Session :=
  let s := snd (log_or_report io (LTodos agent l) s) in
  announce (TodosUpdated agent l) (on_live (fun v => put_live_todos (<[agent := l]> (live_todos v)) v) s).

(** [orchestration/tracker.rs] *)
Definition publish (io : Io) (i : AgentInfo) (started : bool) (s : Session) : Session :=
  let s := snd (log_or_report io (LAgentUpdated i) s) in
  announce (if started then AgentStarted i else AgentUpdated i)
    (on_live (fun v => put_live_agents (put_agent i (live_agents v)) v) s).

(** [verify/record.rs], the check run *)
Definition record_check (io : Io) (c : CheckRecord) (s : Session) : Session :=
  let s := snd (log_or_report io (LCheck c) s) in
  announce (CheckRecorded c) (on_live (fun v => put_live_checks (live_checks v ++ [c]) v) s).

(** * [decisions/uses/task_view] *)

Record PendingView := mkPendingView {
  view_history : list id;
  view_exchanges : list Exchange;
  view_plan : TaskViewPlan;
  pending_tokens : N
}.

(** The number of an exchange: the lead is not counted. *)
Definition exchange_number (exs : list Exchange) (index : nat) : N :=
  N.of_nat (length (List.filter (fun e => negb (lead e)) (take (S index) exs))).

(** The index lines; [spill] is where an exchange was saved.  [None] when one
    could not be. *)
Fixpoint index_lines (exs : list Exchange) (root : text) (spill : N -> option text) (aside : list nat)
  : option (list text) :=
  match aside with
  | [] => Some []
  | index :: aside =>
      match exs !! index with
      | None => None
      | Some e =>
          let number := exchange_number exs index in
          match spill number with
          | None => None
          | Some path =>
              match index_lines exs root spill aside with
              | None => None
              | Some lines => Some (index_line number e root path :: lines)
              end
          end
      end
  end.

Definition full_history (l : SessionState) : list Message := default (live_working l) (live_full_working l).

Definition U32_MAX : N := 2 ^ 32 - 1.

(** [apply_task_view_for] *)
Definition apply_task_view_for (io : Io) (pending_view : option PendingView) (m : Message) (root : text)
    (spill : N -> option text) (stamp : id * N) (now : N) (s : Session) : Session :=
  match pending_view with
  | None => s
  | Some p =>
      let full := full_history (live s) in
      match last full with
      | None => s
      | Some final =>
          let history := take (length full - 1) full in
          if teqb (message_id final) (message_id m)
             && bool_decide (map message_id history = view_history p) then
            match index_lines (view_exchanges p) root spill (set_aside (view_plan p)) with
            | None => s
            | Some lines =>
                let index := task_view_index stamp lines in
                let view := apply_task_view history (view_exchanges p) (view_plan p) index ++ [m] in
                let v := mkTaskViewInfo (message_id m) (N.min (N.of_nat (length lines)) U32_MAX)
                           (pending_tokens p) false now in
                let '(saved, s) := log_or_report io (LTaskView v (map message_id view) (Some index)) s in
                if saved then
                  announce (TaskViewApplied v)
                    (on_live (fun l =>
                      put_live_task_views (put_view v (live_task_views l))
                        (put_live_full_working (Some full)
                          (put_live_meter (rebase (live_working l) view (live_meter l))
                            (put_live_working view l)))) s)
                else s
            end
          else s
      end
  end.

Definition restore_view (v : TaskViewInfo) : TaskViewInfo :=
  mkTaskViewInfo (boundary v) (views_aside v) (view_tokens v) true (viewed_at v).

(** [include_full_history] *)
Definition include_full_history (io : Io) (s : Session) : Session :=
  match live_full_working (live s) with
  | None => s
  | Some full =>
      let s := on_live (fun l =>
        put_live_meter (rebase (live_working l) full (live_meter l))
          (put_live_full_working None (put_live_working full l))) s in
      match last (live_task_views (live s)) with
      | None => s
      | Some v =>
          let v := restore_view v in
          let s := on_live (fun l =>
            put_live_task_views (take (length (live_task_views l) - 1) (live_task_views l) ++ [v]) l) s in
          let s := snd (log_or_report io (LTaskView v [] None) s) in
          announce (TaskViewApplied v) s
      end
  end.

(** * [session/snapshot.rs] *)

(** What a snapshot takes from the rest of the session: its identifier, its
    root and its jobs. *)
Record Place := mkPlace { place_session : id; place_root : text; place_jobs : list JobInfo }.

Definition pending_of (p : Pending) : list ApprovalRequest * list PendingQuestion * list PendingPlan :=
  (map fst (approvals p), map fst (pending_questions p), map fst (plans p)).

Definition todos_of (agent : id) (l : SessionState) : list TodoItem := default [] (live_todos l !! agent).

Definition snapshot (here : Place) (s : Session) : SessionSnapshot :=
  let l := live s in
  let '(waiting_approvals, waiting_questions, waiting_plans) := pending_of (pending (core s)) in
  mkSessionSnapshot
    (mkSessionInfo (place_session here) (live_title l) (place_root here) (live_model l) (mode (core s))
      (live_effort l) (live_created l) (live_updated_at l) (live_legacy l))
    (current (status (core s))) (live_transcript l) (live_compactions l) (live_turns l) (todos_of MAIN l)
    (live_agents l) (place_jobs here) (live_checks l) (map fst (live_checkpoints l)) waiting_approvals
    waiting_questions waiting_plans (live_queue l) (live_usage l) (live_cost l) (live_context_tokens l)
    (live_context_limit l) (live_task_views l).

Definition emit_snapshot (here : Place) (s : Session) : Session := announce (SnapshotSent (snapshot here s)) s.

(** * [session/rewind.rs] *)

Inductive RewindScope := ScopeCode | ScopeConversation | ScopeBoth.

(** [rebuild]; [loaded] is the log read back. *)
Definition rebuild (loaded : list LogRecord) (now : N) (s : Session) : Session :=
  let r := replay loaded in
  let l := live s in
  let rebuilt := from_replay r (live_legacy l) now (live_model l) (live_effort l) in
  mkSession (set_world_mode (replay_mode r) (core s))
    (put_live_context_limit (live_context_limit l) (put_live_queue (live_queue l) rebuilt)).

(** What [restore] reports. *)
Record RestoreReport := mkRestoreReport {
  restored_paths : list text;
  deleted_paths : list text;
  skipped_paths : list text
}.

Definition describe_report (report : RestoreReport) : text :=
  let show paths := if is_empty paths then str "none" else join (str ", ") paths in
  str "Code restored. Restored: " ++ show (restored_paths report)
  ++ str ". Deleted: " ++ show (deleted_paths report) ++ str "."
  ++ (if is_empty (skipped_paths report) then []
      else str " Left alone (not stored in the checkpoint): " ++ join (str ", ") (skipped_paths report) ++ str ".").

(** [rewind]: [restore] brings a commit's files back, [load] reads the log. *)
Definition rewind (here : Place) (io : Io) (i : id) (scope : RewindScope) (restore : text -> result text RestoreReport)
    (load : list LogRecord -> result text (list LogRecord)) (now : N) (s : Session) : Session * result text unit :=
  let code := match scope with ScopeConversation => false | _ => true end in
  let conversation := match scope with ScopeCode => false | _ => true end in
  let known := existsb (fun m => teqb (message_id m) i && is_user m) (live_transcript (live s)) in
  let commit :=
    fmap snd (List.find (fun c => teqb (checkpoint_message (fst c)) i) (live_checkpoints (live s))) in
  if negb known then (s, Err (not_found (str "user message") i))
  else
    let report :=
      if code then
        match commit with
        | None => Err (not_found (str "a code checkpoint before message") i)
        | Some commit => match restore commit with Ok report => Ok (Some report) | Err e => Err e end
        end
      else Ok None in
    match report with
    | Err e => (s, Err e)
    | Ok report =>
        let finish s :=
          let s := emit_snapshot here s in
          match report with Some report => announce (Notice Info (describe_report report)) s | None => s end in
        match log_record io (LRewound i conversation code) s with
        | Err e => (s, Err e)
        | Ok s =>
            if conversation then
              match load (log (core s)) with
              | Err e => (s, Err e)
              | Ok records => (finish (rebuild records now s), Ok tt)
              end
            else (finish s, Ok tt)
        end
    end.

(** [Actor::rewind]; [busy] says that a turn is running. *)
Definition rewind_command (here : Place) (busy : bool) (io : Io) (i : id) (scope : RewindScope) (restore : text -> result text RestoreReport)
    (load : list LogRecord -> result text (list LogRecord)) (now : N) (s : Session) : Session :=
  if busy then announce (Notice Warn (str "Rewind needs an idle session; stop the current turn first.")) s
  else
    let s := on_core (update_status begin_) s in
    let s :=
      match rewind here io i scope restore load now s with
      | (s, Ok _) => s
      | (s, Err e) => announce (Notice Warn (str "Rewind failed: " ++ e)) s
      end in
    on_core (update_status end_) s.

End WithJson.
