(* ===== verification/Resume.v ===== *)
(** Creating a session and resuming a stored one
    ([engine/src/session/resume.rs], [session/open.rs],
    [z-engine-store/src/store.rs]): what a crash left open is closed in the
    log, then the state is read from it. *)

From stdpp Require Import gmap.
From S2P Require Export Session BrokerFacts.

Definition INTERRUPTED_RESULT : text := str "interrupted: the app closed before this call finished".
Definition INTERRUPTED_AGENT : text := str "interrupted: the app closed before this agent finished".

Section WithJson.
Context {G : Globset} {P : Platform} {J : Json}.

(** The calls of a trailing assistant message. *)
Definition unanswered (w : list Message) : list id :=
  match last w with
  | Some m => if bool_decide (role m = Assistant) then calls_of m else []
  | None => []
  end.

Definition has_tool_use (m : Message) : bool := negb (is_empty (tool_uses m)).

(** The record of a turn the app did not finish. *)
Definition interrupted_turn (now : N) (r : ReplayState) (turn message : id) : TurnRecord :=
  let start := position (message_is message) (transcript r) in
  let later := match start with Some n => drop n (transcript r) | None => [] end in
  mkTurnRecord turn message Interrupted
    (if existsb has_tool_use later then Unverified (str "the app closed before the turn finished")
     else NotApplicable)
    usage_default f64_zero
    (match later with m :: _ => created_at m | [] => now end) now.

Definition fail_agent (now : N) (a : AgentInfo) : AgentInfo :=
  mkAgentInfo (agent_id a) (parent_id a) (agent_call a) (agent_type a) (agent_description a) (agent_model a)
    (background a) (isolation a) (Records.worktree a) AgentFailed (agent_depth a) (agent_started_at a) (Some now)
    (agent_usage a) (agent_cost a) (tool_calls a) (result_preview a) (Some INTERRUPTED_AGENT).

(** The records [repair] appends, in order; [stamp] is the identifier and time
    of the message of results. *)
Definition repair_records (stamp : id * N) (now : N) (r : ReplayState) : list LogRecord :=
  let dangling := unanswered (working r) in
  (if is_empty dangling then []
   else [LMessage (new_message stamp User (map (fun i => tool_result i INTERRUPTED_RESULT true) dangling))
           (fmap fst (open_turn r))])
  ++ match open_turn r with
     | Some (turn, message) => [LTurnFinished (interrupted_turn now r turn message)]
     | None => []
     end
  ++ map (fun q => LQuestionAnswered (fst (fst q)) None) (asked_questions r)
  ++ map (fun a => LAgentUpdated (fail_agent now a))
       (List.filter (fun a => negb (is_terminal (agent_status a))) (agents r))
  ++ map (fun p => LPlanResolved (fst (fst p)) false None None) (pending_plans r).

(** [io n] is the outcome of the [n]th write. *)
Fixpoint append_all (io : nat -> Io) (n : nat) (rs : list LogRecord) (w : World) : result text World :=
  match rs with
  | [] => Ok w
  | r :: rs => let? w := append (io n) r w in append_all io (S n) rs w
  end.

(** [repair]; [synced] is the outcome of the final sync. *)
Definition repair (io : nat -> Io) (synced : result text unit) (stamp : id * N) (now : N) (r : ReplayState)
    (w : World) : result text (bool * World) :=
  let rs := repair_records stamp now r in
  let? w := append_all io 0 rs w in
  if is_empty rs then Ok (false, w)
  else match synced with Ok _ => Ok (true, w) | Err e => Err e end.

(** [resume], from the records read; the policy is the settings'. *)
Definition resume (io : nat -> Io) (synced : result text unit) (stamp : id * N) (now : N) (p : Policy)
    (legacy : bool) (updated_at : N) (default_model : text) (default_effort : option Effort)
    (records : list LogRecord) : result text Session :=
  let loaded := replay records in
  let? (repaired, w) :=
    repair io synced stamp now loaded (set_log records (new_world p (replay_mode loaded))) in
  let r := if repaired then replay (log w) else loaded in
  Ok (mkSession (set_world_mode (replay_mode r) w) (from_replay r legacy updated_at default_model default_effort)).

(** [SessionStore::create] and [create]; [i] and [created] come from the
    machine. *)
Definition create (i : id) (created : N) (root m : text) (mode : PermissionMode) (e : option Effort) (p : Policy)
  : Session :=
  let started := LSessionStarted SESSION_SCHEMA i root m mode created in
  let r := with_model (Some m) (with_replay_mode mode (with_info (Some (i, root, created)) replay_default)) in
  mkSession (set_log [started] (new_world p mode)) (from_replay r false created m e).

End WithJson.
