(* ===== verification/SessionFacts.v ===== *)
(** A session agrees with the replay of its log: the relation and the lemmas on its parts. *)

From stdpp Require Import gmap sets relations.
From S2P Require Export ReplayFacts Resume.

#[local] Existing Instance same_shape_refl.
#[local] Existing Instance same_shape_trans.

Section WithJson.
Context {G : Globset} {P : Platform} {J : Json}.

(** A title as replay reads it. *)
Definition norm_title (t : option text) : option text :=
  match t with
  | Some t => let t := trim t in if is_empty t then None else Some t
  | None => None
  end.

(** The state in memory agrees with a replayed one: the same transcript, turns,
    compactions, todos, agents, checks, checkpoints, task views and mode; the
    same working set, and history behind a task view, but for cleared tool
    results; the same title up to blanks; and the model and effort the log
    names. *)
Record agrees (l : SessionState) (md : PermissionMode) (h : ReplayState) : Prop := {
  agree_transcript : live_transcript l = transcript h;
  agree_working : Forall2 same_shape (working h) (live_working l);
  agree_full : option_Forall2 (Forall2 same_shape) (full_working h) (live_full_working l);
  agree_compactions : live_compactions l = compactions h;
  agree_turns : live_turns l = turns h;
  agree_todos : live_todos l = todos h;
  agree_agents : live_agents l = agents h;
  agree_checks : live_checks l = checks h;
  agree_checkpoints : live_checkpoints l = checkpoints h;
  agree_views : live_task_views l = task_views h;
  agree_title : norm_title (live_title l) = session_title h;
  agree_model : forall m, model h = Some m -> blank_text m = false -> live_model l = m;
  agree_effort : forall e, effort h = Some e -> live_effort l = Some e;
  agree_mode : md = replay_mode h
}.

Lemma shape_ids (a b : list Message) : Forall2 same_shape a b -> ids a = ids b.
Proof using. induction 1 as [|x y a b (E & _) _ IH]; [done|]. unfold ids in *. cbn. by rewrite E, IH. Qed.

(** * Messages *)

Lemma push_agrees l md h m now :
  agrees l md h -> agrees (push_live m now l) md (push_message m h).
Proof using.
  intros []. constructor; cbn; try done.
  - by f_equal.
  - apply Forall2_app; [done|]. constructor; [reflexivity|constructor].
  - destruct agree_full0 as [a b H|]; cbn; constructor. apply Forall2_app; [done|].
    constructor; [reflexivity|constructor].
Qed.

Lemma working_agrees l md h w :
  Forall2 same_shape (live_working l) w -> agrees l md h -> agrees (put_live_working w l) md h.
Proof using. intros Hw []. constructor; cbn; try done. by etrans. Qed.

(** Changes to what the log does not say. *)
Definition unlogged (l l' : SessionState) : Prop :=
  live_transcript l' = live_transcript l /\ live_working l' = live_working l
  /\ live_full_working l' = live_full_working l /\ live_compactions l' = live_compactions l
  /\ live_turns l' = live_turns l /\ live_todos l' = live_todos l /\ live_agents l' = live_agents l
  /\ live_checks l' = live_checks l /\ live_checkpoints l' = live_checkpoints l
  /\ live_task_views l' = live_task_views l /\ live_title l' = live_title l
  /\ live_model l' = live_model l /\ live_effort l' = live_effort l.

Lemma unlogged_agrees l l' md h : unlogged l l' -> agrees l md h -> agrees l' md h.
Proof using.
  intros (? & ? & ? & ? & ? & ? & ? & ? & ? & ? & ? & ? & ?) []. constructor; intros;
    repeat match goal with E : _ l' = _ l |- _ => rewrite E; clear E end; auto.
Qed.

(** Records that replay ignores or that touch only what is not compared. *)
Definition silent (r : LogRecord) : bool :=
  match r with
  | LTurnStarted _ _ _ | LPlanProposed _ _ _ | LPlanResolved _ _ _ _ | LQuestionAsked _ _ _
  | LQuestionAnswered _ _ | LApproval _ _ _ _ _ | LUsage _ _ _ | LNote _ => true
  | LRewound _ conversation _ => negb conversation
  | _ => false
  end.

Lemma silent_agrees l md h r : silent r = true -> agrees l md h -> agrees l md (apply_record h r).
Proof using. by destruct r; cbn; intros; try done; destruct H0. Qed.

Lemma silent_no_rewind r : silent r = true -> is_rewind r = false.
Proof using. destruct r; try done. by destruct conversation. Qed.

(** * Compaction *)

Lemma position_id ms n m :
  NoDup (ids ms) -> ms !! n = Some m -> position (message_is (message_id m)) ms = Some n.
Proof using.
  revert n. induction ms as [|x ms IH]; intros [|n] Hn Hm; cbn in *; try done.
  - simplify_eq. unfold message_is. by rewrite teqb_refl.
  - apply NoDup_cons in Hn as [Hx Hn]. unfold message_is at 1.
    assert (E : teqb (message_id x) (message_id m) = false).
    { apply teqb_neq. intros E. apply Hx. rewrite E. apply list_elem_of_fmap. exists m. split; [done|].
      by eapply list_elem_of_lookup_2. }
    rewrite E. by erewrite IH.
Qed.

Lemma compact_agrees l md h split t summary tokens now :
  NoDup (ids (working h)) ->
  agrees l md h ->
  agrees
    (put_live_meter (reset (live_meter l))
      (put_live_compactions (live_compactions l ++ [marker_of (live_working l) split t summary tokens now])
        (put_live_full_working None (put_live_working (apply_summary (live_working l) split summary) l)))) md
    (compact (marker_of (live_working l) split t summary tokens now) summary h).
Proof using.
  intros Hn []. constructor; cbn; try done; [|by f_equal].
  unfold apply_summary. constructor; [reflexivity|].
  destruct (live_working l !! split) as [m|] eqn:E; cbn.
  - destruct (Forall2_lookup_r _ _ _ _ _ agree_working0 E) as (m' & Hm' & Hs).
    destruct Hs as (Ei & _). rewrite <- Ei, (position_id _ split) by done. pose proof (lookup_lt_Some _ _ _ E).
    rewrite Nat.min_l by lia. by apply Forall2_drop.
  - apply lookup_ge_None in E. rewrite drop_ge by lia. constructor.
Qed.

(** * Titles *)

Lemma norm_title_idem t : norm_title (norm_title t) = norm_title t.
Proof using.
  destruct t as [t|]; [|done]. cbn. destruct (is_empty (trim t)) eqn:E; [done|]. cbn. by rewrite trim_idem, E.
Qed.

(** * Task views *)

Lemma views_in h l : option_Forall2 (Forall2 same_shape) (full_working h) (live_full_working l) ->
  Forall2 same_shape (working h) (live_working l) ->
  Forall2 same_shape (default (working h) (full_working h)) (full_history l).
Proof using. unfold full_history. by intros [] ?. Qed.

Lemma known_shapes (known : gmap id Message) view :
  (forall x, x ∈ view -> exists y, known !! message_id x = Some y /\ same_shape y x) ->
  Forall2 same_shape (omap (fun i => known !! i) (ids view)) view.
Proof using.
  induction view as [|x view IH]; intros H; cbn; [constructor|].
  destruct (H x) as (y & E & Hy); [left|]. rewrite E. constructor; [done|]. apply IH. intros. apply H. by right.
Qed.

Lemma view_agrees l md h view index v now_meter full :
  full = full_history l ->
  NoDup (ids (default (working h) (full_working h) ++ [index])) ->
  (forall x, x ∈ view -> x ∈ full \/ x = index) ->
  restored v = false ->
  agrees l md h ->
  agrees
    (put_live_task_views (put_view v (live_task_views l))
      (put_live_full_working (Some full) (put_live_meter now_meter (put_live_working view l)))) md
    (task_view v (ids view) (Some index) h).
Proof using.
  intros -> Hn Hin Hr []. unfold task_view. rewrite Hr. pose proof (views_in _ _ agree_full0 agree_working0) as Hf.
  constructor; cbn; try done; [|by constructor|by f_equal].
  apply known_shapes. intros x [Hx| ->]%Hin.
  - apply list_elem_of_lookup in Hx as (n & Hx). destruct (Forall2_lookup_r _ _ _ _ _ Hf Hx) as (y & Hy & Hs).
    exists y. split; [|done]. destruct Hs as (<- & _). apply by_id_lookup; [done|].
    apply elem_of_app. left. by eapply list_elem_of_lookup_2.
  - exists index. split; [|reflexivity]. apply by_id_lookup; [done|]. apply elem_of_app. right. left.
Qed.

(** Task views have distinct boundaries, and one is listed while one
    applies. *)
Definition views_kept (h : ReplayState) : Prop :=
  NoDup (map boundary (task_views h)) /\ (full_working h <> None -> task_views h <> []).

Lemma put_view_distinct v l : NoDup (map boundary l) -> NoDup (map boundary (put_view v l)).
Proof using.
  intros H. unfold put_view. rewrite map_app. apply NoDup_app. split_and!.
  - eapply sublist_NoDup; [exact H|]. apply fmap_sublist.
    clear H. induction l as [|x l IH]; cbn; [done|]. destruct (negb _); by constructor.
  - intros i (x & Ei & [_ Hx]%list_elem_of_In%filter_In)%list_elem_of_fmap Hi%list_elem_of_singleton.
    cbn in Hi. subst. rewrite Hi, teqb_refl in Hx. done.
  - apply NoDup_singleton.
Qed.

Lemma apply_views_kept s r : views_kept s -> views_kept (apply_record s r).
Proof using.
  intros [Hd Hf]. assert (Hkeep : forall s', task_views s' = task_views s -> (full_working s' <> None -> full_working s <> None) ->
    views_kept s') by (intros s' E H; split; rewrite E; auto).
  destruct r; try (by apply Hkeep).
  - apply Hkeep; cbn; by destruct (info s).
  - apply Hkeep; [done|]. cbn. by destruct (full_working s).
  - apply Hkeep; cbn; unfold finish_turn; by repeat case_match.
  - assert (Hp : put_view view (task_views s) <> []) by (unfold put_view; by destruct (List.filter _ _)).
    cbn. unfold task_view. cbn. destruct (restored view); [destruct (full_working s) eqn:E|]; (split; [|by intros _]);
      by apply put_view_distinct.
Qed.

Lemma replayed_views_kept rs : views_kept (replayed rs).
Proof using.
  unfold replayed. generalize (effective_records rs). intros es.
  induction es as [|r es IH] using rev_ind; [split; [constructor|done]|].
  rewrite foldl_app. by apply apply_views_kept.
Qed.

Lemma restore_last l v :
  NoDup (map boundary l) -> last l = Some v ->
  take (length l - 1) l ++ [restore_view v] = put_view (restore_view v) l.
Proof using.
  intros Hn (k & ->)%last_Some. rewrite length_app, Nat.add_sub, take_app_length. unfold put_view. f_equal.
  rewrite map_app in Hn. apply NoDup_app in Hn as (_ & Hd & _).
  rewrite List.filter_app. cbn. rewrite teqb_refl. cbn. rewrite app_nil_r.
  symmetry. induction k as [|x k IH]; [done|]. cbn.
  assert (E : teqb (boundary x) (boundary v) = false).
  { apply teqb_neq. intros E. apply (Hd (boundary x)); [left|]. rewrite E. left. }
  rewrite E. cbn. f_equal. apply IH. intros i Hi. apply Hd. by right.
Qed.

(** * From a log *)

Lemma apply_title_normal s r : norm_title (session_title s) = session_title s ->
  norm_title (session_title (apply_record s r)) = session_title (apply_record s r).
Proof using.
  intros H. destruct r; cbn; try done.
  - by destruct (info s).
  - unfold finish_turn. cbn. by repeat case_match.
  - destruct (is_empty (trim title_)) eqn:E; [done|]. cbn. by rewrite trim_idem, E.
  - unfold task_view. cbn. by repeat case_match.
Qed.

Lemma replayed_title_normal rs : norm_title (session_title (replayed rs)) = session_title (replayed rs).
Proof using.
  unfold replayed. generalize (effective_records rs). intros es.
  induction es as [|r es IH] using rev_ind; [done|]. rewrite foldl_app. by apply apply_title_normal.
Qed.

Lemma with_totals_fields u c h :
  (forall l md, agrees l md h <-> agrees l md (with_totals u c h)).
Proof using. intros l md. split; intros []; by constructor. Qed.

Lemma from_replay_agrees rs legacy updated m e :
  agrees (from_replay (replay rs) legacy updated m e) (replay_mode (replay rs)) (replayed rs).
Proof using.
  apply (with_totals_fields (usage (replay rs)) (cost_usd (replay rs))). rewrite <- replay_replayed.
  constructor; cbn; try done.
  - rewrite replay_replayed. cbn. apply replayed_title_normal.
  - intros m' -> ->. done.
  - by intros e' ->.
Qed.

End WithJson.

Section WithJson.
Context {G : Globset} {P : Platform} {J : Json}.

(** * Reports *)

(** The events that tell the user the log and the state part ways. *)
Definition is_report (e : Event) : bool :=
  match e with
  | ErrorEvent t => starts_with (str "could not save the session log: ") t
  | Notice Warn t => starts_with (str "Rewind failed: ") t
  | _ => false
  end.

Definition told (w : World) : Prop := exists e, e ∈ events w /\ is_report e = true.

Definition mirrors (s : Session) : Prop := agrees (live s) (mode (core s)) (replayed (log (core s))).

(** The messages in memory are distinct and from the log. *)
Definition live_drawn (from : list id) (l : SessionState) : Prop :=
  drawn from (live_working l) /\ (forall full, live_full_working l = Some full -> drawn from full).

Definition good (s : Session) : Prop :=
  tidy_log (log (core s)) /\ live_drawn (introduced_by (log (core s))) (live s) /\ (mirrors s \/ told (core s)).

(** The same messages in memory. *)
Definition kept (l l' : SessionState) : Prop :=
  live_working l' = live_working l /\ live_full_working l' = live_full_working l.

Lemma kept_drawn from more l l' : kept l l' -> live_drawn from l -> live_drawn (from ++ more) l'.
Proof using.
  intros [Ew Ef] [Hw Hf]. split; [rewrite Ew; by apply drawn_more|]. rewrite Ef. intros full H. apply drawn_more. auto.
Qed.

Lemma told_prefix w w' : events w `prefix_of` events w' -> told w -> told w'.
Proof using. intros [k E] (e & Hin & He). exists e. split; [|done]. rewrite E. apply elem_of_app. by left. Qed.

Lemma told_emit e w : is_report e = true -> told (emit e w).
Proof using. intros H. exists e. split; [|done]. cbn. apply elem_of_app. right. left. Qed.

Lemma starts_with_app p t : starts_with p (p ++ t) = true.
Proof using. apply starts_with_spec. eauto. Qed.

Lemma told_unsaved t w : told (emit (ErrorEvent (str "could not save the session log: " ++ t)) w).
Proof using. apply told_emit. unfold is_report. apply starts_with_app. Qed.

Lemma told_rewind t w : told (emit (Notice Warn (str "Rewind failed: " ++ t)) w).
Proof using. apply told_emit. unfold is_report. apply starts_with_app. Qed.

(** * Appending *)

(** A record that brings no message and is no rewind of the conversation. *)
Definition plain (r : LogRecord) : Prop := is_rewind r = false /\ introduced r = [] /\ tidy_record r.

Lemma tidy_plain rs r : plain r -> tidy_log rs -> tidy_log (rs ++ [r]).
Proof using.
  intros (_ & Hi & Ht) H. apply tidy_snoc. rewrite Hi. split_and!; [done|constructor|done|].
  by intros i ?%not_elem_of_nil.
Qed.

Lemma tidy_message rs r i :
  introduced r = [i] -> tidy_record r -> i ∉ introduced_by rs -> tidy_log rs -> tidy_log (rs ++ [r]).
Proof using.
  intros Hi Ht Hf H. apply tidy_snoc. rewrite Hi. split_and!; [done|apply NoDup_singleton|done|].
  by intros j ->%list_elem_of_singleton.
Qed.

Lemma append_ok io r w w' :
  append io r w = Ok w' -> log w' = log w ++ [r] /\ events w' = events w /\ mode w' = mode w.
Proof using. unfold append. intros H. repeat case_match; simplify_eq; done. Qed.

Lemma log_record_ok io r s s' :
  log_record io r s = Ok s' ->
  log (core s') = log (core s) ++ [r] /\ events (core s') = events (core s) /\ mode (core s') = mode (core s)
  /\ live s' = live s.
Proof using.
  unfold log_record. destruct (append io r (core s)) as [w|e] eqn:E; [|done]. intros [= <-].
  apply append_ok in E as (? & ? & ?). done.
Qed.

Lemma log_or_report_cases io r s b s' :
  log_or_report io r s = (b, s') ->
  live s' = live s /\ mode (core s') = mode (core s) /\ events (core s) `prefix_of` events (core s')
  /\ if b then log (core s') = log (core s) ++ [r] else log (core s') = log (core s) /\ told (core s').
Proof using.
  unfold log_or_report, append_or_report. destruct (append io r (core s)) as [w|e] eqn:E; intros [= <- <-]; cbn [core live].
  - apply append_ok in E as (-> & -> & ->). done.
  - split_and!; [done|done|by eexists|done|]. apply told_unsaved.
Qed.

(** * Steps that keep a session good *)

Lemma good_same s s' :
  log (core s') = log (core s) -> events (core s) `prefix_of` events (core s') ->
  (live_drawn (introduced_by (log (core s))) (live s) -> live_drawn (introduced_by (log (core s))) (live s')) ->
  (mirrors s -> mirrors s') -> good s -> good s'.
Proof using.
  intros El Ee Hd H (Ht & Hl & Hg). unfold good. rewrite El. split_and!; [done|auto|].
  destruct Hg as [Hg|Hg]; [auto|right; by eapply told_prefix].
Qed.

Lemma good_logged s s' r :
  is_rewind r = false -> tidy_log (log (core s) ++ [r]) ->
  log (core s') = log (core s) ++ [r] -> events (core s) `prefix_of` events (core s') ->
  (live_drawn (introduced_by (log (core s))) (live s) ->
   live_drawn (introduced_by (log (core s)) ++ introduced r) (live s')) ->
  (mirrors s -> agrees (live s') (mode (core s')) (apply_record (replayed (log (core s))) r)) -> good s -> good s'.
Proof using.
  intros Hr Ht El Ee Hd H (_ & Hl & Hg). unfold good. rewrite El. split_and!; [done| |].
  - rewrite introduced_by_app. unfold introduced_by at 2. cbn. rewrite app_nil_r. auto.
  - destruct Hg as [Hg|Hg].
    + left. unfold mirrors. rewrite El, replayed_snoc by done. auto.
    + right. by eapply told_prefix.
Qed.

Lemma good_told s s' :
  log (core s') = log (core s) -> told (core s') -> kept (live s) (live s') -> good s -> good s'.
Proof using.
  intros El Ht Hk (Hl & Hd & _). unfold good. rewrite El. split_and!; [done| |by right].
  rewrite <- (app_nil_r (introduced_by _)). by eapply kept_drawn.
Qed.

Lemma good_announce e s : good s -> good (announce e s).
Proof using. apply good_same; [done|by eexists|done|done]. Qed.

Lemma good_unlogged f s : unlogged (live s) (f (live s)) -> good s -> good (on_live f s).
Proof using.
  intros H. apply good_same; [done|done| |].
  - rewrite <- (app_nil_r (introduced_by _)) at 2. apply kept_drawn. by destruct H as (_ & ? & ? & _).
  - by apply unlogged_agrees.
Qed.

(** What the record does to a replayed state, the change does to the state in
    memory. *)
Definition matches (s : Session) (r : LogRecord) (f : SessionState -> SessionState) : Prop :=
  kept (live s) (f (live s))
  /\ forall h, agrees (live s) (mode (core s)) h -> agrees (f (live s)) (mode (core s)) (apply_record h r).

Lemma good_reported io r f s :
  plain r -> matches s r f -> good s -> good (on_live f (snd (log_or_report io r s))).
Proof using.
  intros Hp [Hk Hm] Hg. destruct (log_or_report io r s) as [b s1] eqn:E. cbn [snd].
  apply log_or_report_cases in E as (El & Em & Ee & Hb). destruct b.
  - eapply (good_logged s _ r); [apply Hp|apply tidy_plain; [done|apply Hg]|done|done| | |done].
    + cbn. rewrite El. by apply kept_drawn.
    + intros Hs. cbn. rewrite El, Em. by apply Hm.
  - destruct Hb as [Hl Ht]. apply (good_told s); [done|done| |done]. cbn. by rewrite El.
Qed.

Lemma good_saved io r f e s :
  plain r -> matches s r f -> good s ->
  good (let '(saved, s) := log_or_report io r s in if saved then announce e (on_live f s) else s).
Proof using.
  intros Hp Hm Hg. destruct (log_or_report io r s) as [b s1] eqn:E. pose proof E as (El & Em & Ee & Hb)%log_or_report_cases.
  destruct b.
  - apply good_announce. pose proof (good_reported io r f s Hp Hm Hg) as H. by rewrite E in H.
  - destruct Hb as [Hl Ht]. apply (good_told s); [done|done| |done]. by rewrite El.
Qed.

Lemma good_silent io r s : silent r = true -> good s -> good (snd (log_or_report io r s)).
Proof using.
  intros Hs. pose proof (good_reported io r (fun l => l) s) as H. unfold on_live in H.
  destruct (snd (log_or_report io r s)). apply H; [|split; [done|]; by intros h; apply silent_agrees].
  split_and!; [by apply silent_no_rewind| |]; by destruct r.
Qed.

End WithJson.
