(* ===== verification/SessionSteps.v ===== *)
(** One lemma for each operation of a session: it keeps the agreement with the log, and the identifiers of the working set. *)

From stdpp Require Import gmap sets relations.
From S2P Require Export SessionFacts.

#[local] Existing Instance same_shape_refl.
#[local] Existing Instance same_shape_trans.

Section WithJson.
Context {G : Globset} {P : Platform} {J : Json}.

(** An identifier no message of the log has. *)
Definition fresh (i : id) (s : Session) : Prop := i ∉ introduced_by (log (core s)).

Definition settle (s : Session) (r : result text Session) : Session := match r with Ok s' => s' | Err _ => s end.

(** * Messages and compaction *)

Lemma good_append io turn m steering now s :
  fresh (message_id m) s -> good s -> good (settle s (sink_append io turn m steering now s)).
Proof using.
  intros Hf Hg. unfold sink_append. destruct (log_record io (LMessage m turn) s) as [s1|e] eqn:E; [|done].
  pose proof E as (El & Ee & Em & Ev)%log_record_ok. cbn.
  assert (H : good (on_live (push_live m now) s1)).
  { eapply (good_logged s _ (LMessage m turn)); [done| |done|by cbn; rewrite Ee| | |done].
    - eapply tidy_message; [done|done|exact Hf|apply Hg].
    - intros [Hw Hl]. cbn. rewrite Ev. split; cbn; [by apply drawn_add|].
      intros full Hfull. destruct (live_full_working (live s)) as [old|]; [|done]. cbn in Hfull. simplify_eq.
      apply drawn_add; auto.
    - intros Hm. cbn. rewrite Ev, Em. by apply push_agrees. }
  destruct (is_user m); [by apply good_announce|done].
Qed.

Lemma good_working w s : Forall2 same_shape (live_working (live s)) w -> good s -> good (set_working w s).
Proof using.
  intros Hw. apply good_same; [done|done| |].
  - intros [[Hn Hi] Hf]. split; [|done]. cbn. unfold drawn. by rewrite <- (shape_ids _ _ Hw).
  - by apply working_agrees.
Qed.

Lemma good_compacted io split t summary tokens now s s' :
  fresh (message_id summary) s -> good s ->
  let w := live_working (live s) in
  compacted io (marker_of w split t summary tokens now) summary (apply_summary w split summary) s = Ok s' -> good s'.
Proof using.
  intros Hf Hg w. unfold compacted. set (marker := marker_of w split t summary tokens now).
  destruct (log_record io (LCompacted marker summary) s) as [s1|e] eqn:E; [|done]. cbn. intros [= <-].
  apply good_announce. apply log_record_ok in E as (El & Ee & Em & Ev).
  eapply (good_logged s _ (LCompacted marker summary)); [done| |done|by cbn; rewrite Ee| | |done].
  - eapply tidy_message; [done|done|exact Hf|apply Hg].
  - intros [[Hn Hw] _]. cbn. split; cbn; [|done]. unfold apply_summary. split; cbn.
    + apply NoDup_cons. split; [|eapply sublist_NoDup; [exact Hn|apply ids_sublist, sublist_drop]].
      intros Hin. apply Hf, Hw. by apply (sublist_subseteq _ _ (ids_sublist _ _ (sublist_drop _ _))) in Hin.
    + intros i [->|Hin]%elem_of_cons; apply elem_of_app; [right; left|left].
      apply Hw. by apply (sublist_subseteq _ _ (ids_sublist _ _ (sublist_drop _ _))) in Hin.
  - intros Hm. cbn. rewrite Ev, Em. apply compact_agrees; [|done].
    by destruct (replayed_drawn _ (proj1 Hg)) as [[? _] _].
Qed.

Lemma good_account agent u c tokens s : good s -> good (account agent u c tokens s).
Proof using. intros H. unfold account. apply good_announce, good_unlogged; [|done]. by repeat split. Qed.

Lemma good_side io agent u c s : good s -> good (record_side io agent u c s).
Proof using. intros H. unfold record_side. case_match; [done|]. by apply good_account, good_silent. Qed.

(** Recording a side request leaves the messages alone. *)
Lemma side_messages io agent u c s :
  let s' := record_side io agent u c s in
  live_working (live s') = live_working (live s)
  /\ introduced_by (log (core s')) = introduced_by (log (core s)).
Proof using.
  cbn zeta. unfold record_side. case_match; [done|]. unfold account, announce, on_live. cbn [live core log emit].
  destruct (log_or_report io (LUsage agent u c) s) as [b s1] eqn:E. apply log_or_report_cases in E as (El & _ & _ & Hb).
  cbn [snd] in *. split; [by rewrite <- El|]. destruct b; [|by destruct Hb as [-> _]].
  rewrite Hb, introduced_by_app. apply app_nil_r.
Qed.

Lemma summarize_good io io2 trigger agent reply stamp now tokens s :
  fresh (fst stamp) s -> good s ->
  good (fst (summarize io io2 trigger agent reply stamp now (live_working (live s)) tokens s)).
Proof using.
  intros Hf Hg. unfold summarize. destruct (plan_summary _ _) as [split|]; [|done].
  set (s1 := record_side _ _ _ _ _).
  assert (Hg1 : good s1) by by apply good_side, good_announce.
  destruct (side_messages io agent (side_usage reply) (side_cost reply) (announce (CompactionStarted trigger) s))
    as [Ew Ei]. fold s1 in Ew, Ei. cbn in Ew, Ei.
  destruct (side_text reply) as [t|e]; [|done]. destruct (is_empty (trim t)); [done|].
  destruct (compacted _ _ _ _ _) as [s2|e] eqn:E; [|done]. cbn [fst].
  rewrite <- Ew in E. eapply good_compacted; [|exact Hg1|exact E]. unfold fresh. by rewrite Ei.
Qed.

Lemma good_compact_now io io2 reply stamp now s :
  fresh (fst stamp) s -> good s -> good (compact_now io io2 reply stamp now s).
Proof using.
  intros Hf Hg. unfold compact_now. set (tokens := if (_ =? _)%N then _ else _).
  pose proof (summarize_good io io2 CompactManual MAIN reply stamp now tokens s Hf Hg) as H.
  destruct (summarize _ _ _ _ _ _ _ _ _ _) as [s1 [[out|]|e]]; cbn [fst] in H.
  - apply good_unlogged; [by repeat split|done].
  - by apply good_announce.
  - by apply good_announce.
Qed.

(** * Clearing and relief *)

Lemma apply_target_shape replacement ms n t : Forall2 same_shape ms (fst (apply_target replacement (ms, n) t)).
Proof using.
  unfold apply_target. destruct (ms !! target_message t) as [m|] eqn:Em; [|done].
  destruct (content m !! target_block t) as [b|] eqn:Eb; [|done].
  destruct b as [| | | | | |j parts err]; try done.
  destruct (negb _) eqn:Ec; [done|]. cbn [fst].
  rewrite <- (list_insert_id ms (target_message t) m) at 1 by done. apply Forall2_insert; [done|].
  repeat split; try done. cbn.
  rewrite <- (list_insert_id (content m) (target_block t) _ Eb) at 1.
  apply Forall2_insert; [apply Forall_Forall2_diag, Forall_true; by intros []|]. cbn. split_and!; try done.
  by rewrite filter_is_image_idem.
Qed.

Lemma microcompact_shape replacement ms ts : Forall2 same_shape ms (fst (apply_microcompact ms ts replacement)).
Proof using.
  unfold apply_microcompact. generalize 0%nat. revert ms. induction ts as [|t ts IH]; intros ms n; [done|].
  cbn [foldl]. pose proof (apply_target_shape replacement ms n t) as H.
  destruct (apply_target replacement (ms, n) t) as [ms' n']. etrans; [exact H|apply IH].
Qed.

Lemma microcompact_good review saved m keep s :
  good s ->
  let '(s', _, w) := microcompact review saved m (live_working (live s)) keep s in
  good s' /\ live_working (live s') = w /\ log (core s') = log (core s).
Proof using.
  intros Hg. unfold microcompact. destruct (is_empty _); [done|].
  destruct (negb _); [done|]. lazy zeta beta iota. split_and!; [|done|done]. apply good_working; [|done]. apply microcompact_shape.
Qed.

Lemma good_relieve io io2 agent limit keep percent review saved reply cancelled stamp now forced m s :
  fresh (fst stamp) s -> good s ->
  good (fst (fst (relieve io io2 agent limit keep percent review saved reply cancelled stamp now forced m
                    (live_working (live s)) s))).
Proof using.
  intros Hf Hg. unfold relieve.
  assert (H : let '(s', _, w) := (if forced || (limit <? saturating_mul (measure (live_working (live s)) m) 2)%N
      then microcompact review saved m (live_working (live s)) keep s else (s, m, live_working (live s))) in
    good s' /\ live_working (live s') = w /\ log (core s') = log (core s)).
  { destruct (forced || _); [by apply microcompact_good|done]. }
  destruct (if forced || _ then _ else _) as [[s1 m1] w1]. destruct H as (Hg1 & <- & El).
  case_match; [done|].
  assert (Hf1 : fresh (fst stamp) s1) by (unfold fresh; by rewrite El).
  pose proof (summarize_good io io2 CompactAuto agent reply stamp now (measure (live_working (live s1)) m1) s1 Hf1 Hg1) as H1.
  destruct (summarize _ _ _ _ _ _ _ _ _ _) as [s2 [[out|]|e]]; cbn [fst] in *; try done.
  case_match; [done|]. by apply good_announce.
Qed.

(** * Turns *)

Lemma good_start io io2 m turn started now s :
  fresh (message_id m) s -> good s -> good (fst (start_turn io io2 m turn started now s)).
Proof using.
  intros Hf Hg. unfold start_turn. pose proof (good_append io (Some turn) m false now s Hf Hg) as H.
  destruct (sink_append _ _ _ _ _ _) as [s1|e]; cbn [settle] in H; [|by apply good_announce].
  destruct (log_record io2 _ s1) as [s2|e] eqn:E; cbn [fst]; [|by apply good_announce].
  apply good_announce. apply log_record_ok in E as (El & Ee & Em & Ev).
  apply (good_logged s1 s2 (LTurnStarted turn (message_id m) started));
    [done|by apply tidy_plain; [|apply H]|exact El|by rewrite Ee| | |done].
  - rewrite Ev. by apply kept_drawn.
  - intros Hm. rewrite Ev, Em. by apply silent_agrees.
Qed.

Lemma good_close io t s : good s -> good (close_turn io t s).
Proof using.
  intros Hg. unfold close_turn. apply good_announce, good_reported; [done| |by apply good_announce].
  split; [done|]. intros h []. constructor; cbn; try done; unfold finish_turn; cbn; repeat case_match; cbn; try done; by f_equal.
Qed.

Lemma good_prompt t s : good s -> good (snd (prompt_text t s)).
Proof using.
  intros Hg. unfold prompt_text. cbn [snd]. assert (H : good (on_live (put_live_queue []) s))
    by (apply good_unlogged; [by repeat split|done]).
  case_match; [done|by apply good_announce].
Qed.

(** * Settings of the session *)

Lemma good_checkpoint io i commit s : good s -> good (record_checkpoint io i commit s).
Proof using. intros H. apply good_saved; [done| |done]. split; [done|]. intros h []. constructor; cbn; try done. by f_equal. Qed.

Lemma good_title io t s : good s -> good (set_title io t s).
Proof using. intros H. apply good_saved; [done| |done]. split; [done|]. intros h []. by constructor. Qed.

Lemma good_effort io e s : good s -> good (set_effort io e s).
Proof using. intros H. apply good_saved; [done| |done]. split; [done|]. intros h []. constructor; cbn; try done; by intros e' ->. Qed.

Lemma good_model io m limit s : good s -> good (set_model io m limit s).
Proof using.
  intros H. unfold set_model. case_match; [by apply good_announce|]. apply good_saved; [done| |done].
  split; [done|]. intros h []. constructor; cbn; try done. by intros m' [= <-].
Qed.

Lemma good_mode io m s : good s -> good (switch_mode io m s).
Proof using.
  intros Hg. unfold switch_mode, set_mode. case_bool_decide; [by destruct s|].
  unfold log_mode. destruct (append_or_report io (LModeChanged m) (core s)) as [b w] eqn:E.
  assert (E' : log_or_report io (LModeChanged m) s = (b, mkSession w (live s))) by (unfold log_or_report; by rewrite E).
  apply log_or_report_cases in E' as (_ & Em & Ee & Hb). cbn in Em, Ee, Hb. destruct b; cbn.
  - eapply (good_logged s _ (LModeChanged m)); [done|by apply tidy_plain; [|apply Hg]|done| | | |done].
    + cbn. destruct Ee as [k ->]. by eexists (k ++ [ModeChanged m]); rewrite app_assoc.
    + by apply kept_drawn.
    + intros []. by constructor.
  - destruct Hb as [Hl Ht]. by apply (good_told s).
Qed.

Lemma good_steer t s : good s -> good (steer t s).
Proof using. intros H. unfold steer. case_match; [done|]. apply good_announce, good_unlogged; [by repeat split|done]. Qed.

Lemma good_queue q s : good s -> good (edit_queue q s).
Proof using. intros H. apply good_announce, good_unlogged; [by repeat split|done]. Qed.

(** * Todos, agents and checks *)

Lemma good_todos io agent l s : good s -> good (update_todos io agent l s).
Proof using.
  intros H. apply good_announce, good_reported; [done| |done]. split; [done|]. intros h []. constructor; cbn; try done. by f_equal.
Qed.

Lemma good_publish io i started s : good s -> good (publish io i started s).
Proof using.
  intros H. unfold publish. destruct started; apply good_announce, good_reported; try done;
    (split; [done|]; intros h []; constructor; cbn; try done; by f_equal).
Qed.

Lemma good_check io c s : good s -> good (record_check io c s).
Proof using.
  intros H. apply good_announce, good_reported; [done| |done]. split; [done|]. intros h []. constructor; cbn; try done. by f_equal.
Qed.

End WithJson.

#[local] Existing Instance same_shape_refl.

Section WithJson.
Context {G : Globset} {P : Platform} {J : Json}.

(** * Task views *)

(** The message is the one saved under its identifier, and a view is planned
    on the exchanges of the history it names. *)
Definition applies_to (p : option PendingView) (m : Message) (l : SessionState) : Prop :=
  (forall final, last (full_history l) = Some final -> message_id final = message_id m -> final = m)
  /\ (forall q, p = Some q -> let history := take (length (full_history l) - 1) (full_history l) in
        map message_id history = view_history q -> view_exchanges q = exchanges history).

Lemma full_drawn from l : live_drawn from l -> drawn from (full_history l).
Proof using. intros [Hw Hf]. unfold full_history. destruct (live_full_working l) eqn:E; [by apply Hf|done]. Qed.

(** A view of a history with one message more than the history. *)
Lemma view_drawn from history m plan index :
  drawn from (history ++ [m]) -> message_id index ∉ from ->
  let view := apply_task_view history (exchanges history) plan index ++ [m] in
  drawn (from ++ [message_id index]) view /\ (forall x, x ∈ view -> x ∈ history ++ [m] \/ x = index).
Proof using.
  intros [Hn Hi] Hf view. destruct (view_messages history plan index) as (a & b & E & Hs).
  assert (Hs' : (a ++ b) ++ [m] `sublist_of` history ++ [m]) by by apply sublist_app.
  assert (Hp : view ≡ₚ index :: (a ++ b) ++ [m]).
  { unfold view. rewrite E. rewrite <- !app_assoc. symmetry. apply Permutation_middle. }
  split; [split|].
  - unfold ids. rewrite Hp. cbn. apply NoDup_cons. split.
    + intros Hin. apply Hf, Hi. eapply sublist_subseteq; [|exact Hin]. by apply ids_sublist.
    + eapply sublist_NoDup; [exact Hn|by apply ids_sublist].
  - intros i. unfold ids. rewrite Hp. cbn. intros [->|Hin]%elem_of_cons; apply elem_of_app; [right; left|left].
    apply Hi. eapply sublist_subseteq; [|exact Hin]. by apply ids_sublist.
  - intros x. rewrite Hp. intros [->|Hin]%elem_of_cons; [by right|left]. by eapply sublist_subseteq.
Qed.

Lemma known_distinct h index from :
  drawn_state from h -> message_id index ∉ from ->
  NoDup (ids (default (working h) (full_working h) ++ [index])).
Proof using.
  intros [Hw Hf] Hi. assert (Hd : drawn from (default (working h) (full_working h)))
    by (destruct (full_working h); cbn; auto).
  by destruct (drawn_add _ _ _ Hd Hi).
Qed.

Lemma good_view io p m root spill stamp now s :
  fresh (fst stamp) s -> applies_to p m (live s) -> good s ->
  good (apply_task_view_for io p m root spill stamp now s).
Proof using.
  intros Hf [Hm Hp] Hg. unfold apply_task_view_for. destruct p as [q|]; [|done]. specialize (Hp q eq_refl).
  set (full := full_history (live s)) in *. destruct (last full) as [final|] eqn:El; [|done].
  destruct (teqb (message_id final) (message_id m)) eqn:Ei; [|done]. apply teqb_eq in Ei.
  specialize (Hm final eq_refl Ei) as ->. cbn [andb]. case_bool_decide as Eh; [|done]. rewrite (Hp Eh).
  set (history := take (length full - 1) full) in *.
  assert (Efull : full = history ++ [m]).
  { unfold history. apply last_Some in El as (k & ->). by rewrite length_app, Nat.add_sub, take_app_length. }
  destruct (index_lines _ _ _ _) as [lines|]; [|done].
  set (index := task_view_index stamp lines). set (view := apply_task_view history _ _ index ++ [m]).
  set (v := mkTaskViewInfo _ _ _ _ _).
  pose proof Hg as (Ht & Hd & _). pose proof (full_drawn _ _ Hd) as Hdf. fold full in Hdf. rewrite Efull in Hdf.
  destruct (view_drawn _ history m (view_plan q) index Hdf Hf) as [Hv Hin]. fold view in Hv, Hin.
  assert (Htidy : tidy_log (log (core s) ++ [LTaskView v (map message_id view) (Some index)])).
  { eapply tidy_message; [done|apply Hv|exact Hf|done]. }
  destruct (log_or_report io _ s) as [b s1] eqn:E. apply log_or_report_cases in E as (Ev & Em & Ee & Hb).
  destruct b; [|destruct Hb as [Hl Hto]; apply (good_told s); [done|done|by rewrite Ev|done]].
  apply good_announce.
  eapply (good_logged s _ (LTaskView v (map message_id view) (Some index)));
    [done|exact Htidy|exact Hb|exact Ee| | |done].
  - intros _. split; cbn; [exact Hv|]. intros f [= <-]. rewrite Efull. by apply drawn_more.
  - intros Hmir. unfold on_live. cbn [live core apply_record]. rewrite Ev, Em. eapply view_agrees; [done| | |done|done].
    + eapply known_distinct; [by apply replayed_drawn|exact Hf].
    + intros x Hx. fold full. rewrite Efull. auto.
Qed.

Lemma good_full io s : good s -> good (include_full_history io s).
Proof using.
  intros Hg. unfold include_full_history. destruct (live_full_working (live s)) as [full|] eqn:Ef; [|done].
  pose proof Hg as (Ht & [Hd1 Hd2] & Hm).
  assert (Hdrawn : live_drawn (introduced_by (log (core s)))
    (put_live_full_working None (put_live_working full (live s)))) by (split; [by apply Hd2|done]).
  cbn [live on_live]. destruct (last _) as [v|] eqn:El; cycle 1.
  - cbn in El. apply (good_same s); [done|done|by intros|intros Hmir; exfalso|done].
    destruct (replayed_views_kept (log (core s))) as [_ Hv]. apply Hv.
    + pose proof (agree_full _ _ _ Hmir) as Ha. rewrite Ef in Ha. by inversion Ha.
    + rewrite <- (agree_views _ _ _ Hmir). by apply last_None.
  - cbn in El. set (s0 := on_live _ (on_live _ s)).
    destruct (log_or_report io _ s0) as [b s1] eqn:E. cbn [snd]. apply log_or_report_cases in E as (Ev & Em & Ee & Hb).
    apply good_announce. destruct b.
    + eapply (good_logged s s1 (LTaskView (restore_view v) [] None)); [done| |exact Hb|exact Ee| | |done].
      * apply tidy_plain; [split_and!; [done|done|constructor]|done].
      * intros _. rewrite Ev. cbn. split; cbn; [by apply drawn_more, Hd2|done].
      * intros Hmir. rewrite Ev, Em. cbn. destruct (replayed_views_kept (log (core s))) as [Hnd _].
        destruct Hmir as [? ? agree_full0 ? ? ? ? ? ? agree_views0 ? ? ? ?]. rewrite Ef in agree_full0. inversion agree_full0.
        unfold task_view. cbn. constructor; cbn; try done.
        rewrite agree_views0 in El |- *. by apply restore_last.
    + destruct Hb as [Hl Hto]. split_and!; [by rewrite Hl| |by right]. rewrite Hl, Ev. done.
Qed.

(** * Rewinds *)

(** Reading the log back gives its records. *)
Definition reads_back (load : list LogRecord -> result text (list LogRecord)) : Prop :=
  forall l records, load l = Ok records -> records = l.

Lemma rebuilt_good rs now s :
  log (core s) = rs -> tidy_log rs -> good (rebuild rs now s).
Proof using.
  intros <- Ht. unfold rebuild. split_and!; [done| |left].
  - cbn [core live log set_world_mode]. rewrite replay_replayed. by apply replayed_drawn.
  - unfold mirrors. cbn [core live log mode set_world_mode].
    eapply unlogged_agrees; [|apply from_replay_agrees]. by repeat split.
Qed.

Lemma good_status change s : good s -> good (on_core (update_status change) s).
Proof using.
  unfold on_core, update_status. case_bool_decide; [by apply good_same|].
  apply good_same; [done|by eexists|done|done].
Qed.

Lemma good_finish here report s :
  good s ->
  good (let s := emit_snapshot here s in
        match report with Some report => announce (Notice Info (describe_report report)) s | None => s end).
Proof using. intros Hg. destruct report; repeat apply good_announce; exact Hg. Qed.

Lemma good_rewind here busy io i scope restore load now s :
  reads_back load -> good s -> good (rewind_command here busy io i scope restore load now s).
Proof using.
  intros Hload. unfold rewind_command. destruct busy; [by apply good_announce|].
  intros Hg%(good_status begin_). apply good_status. revert Hg. generalize (on_core (update_status begin_) s).
  clear s. intros s Hg. unfold rewind. destruct (negb _); [by apply good_announce|].
  destruct (if (match scope with ScopeConversation => false | _ => true end) then _ else Ok None) as [report|e];
    [|by apply good_announce].
  set (conversation := match scope with ScopeCode => false | _ => true end).
  set (code := match scope with ScopeConversation => false | _ => true end).
  destruct (log_record io _ s) as [s1|e] eqn:E; [|by apply good_announce].
  apply log_record_ok in E as (El & Ee & Em & Ev).
  assert (Ht : tidy_log (log (core s) ++ [LRewound i conversation code])).
  { pose proof Hg as (Ht & _). apply tidy_snoc. split_and!; [done|constructor|done|]. by intros j ?%not_elem_of_nil. }
  destruct conversation eqn:Ec.
  - destruct (load _) as [records|e] eqn:Er.
    + apply Hload in Er as ->. apply good_finish, rebuilt_good; [done|by rewrite El].
    + split_and!; cbn [announce core live].
      * cbn [emit log]. by rewrite El.
      * cbn [emit log]. rewrite El, Ev, introduced_by_app. pose proof Hg as (_ & Hd & _). by apply (kept_drawn _ _ (live s)).
      * right. apply told_rewind.
  - apply good_finish, (good_logged s s1 (LRewound i false code)); [done|done|done|by rewrite Ee| | |done].
    + rewrite Ev. by apply kept_drawn.
    + intros Hm. rewrite Ev, Em. by apply silent_agrees.
Qed.

(** * The broker's sections *)

(** Sections other than those of a mode change; what they log replay reads as
    requests only. *)
Definition broker_section (a : Atom) : Prop :=
  match a with
  | ALog r => silent r = true
  | ASetMode _ | ALogMode _ | AStoreMode _ => False
  | _ => True
  end.

Definition appends_silently (w w' : World) : Prop :=
  mode w' = mode w /\ events w `prefix_of` events w'
  /\ (log w' = log w \/ exists r, silent r = true /\ log w' = log w ++ [r]).

Lemma silently_same w w' :
  mode w' = mode w -> log w' = log w -> events w' = events w -> appends_silently w w'.
Proof using. intros ? ? E. split_and!; [done|by rewrite E|by left]. Qed.

Lemma silently_emit w e : appends_silently w (emit e w).
Proof using. split_and!; [done|by eexists|by left]. Qed.

Lemma status_silently change w : appends_silently w (update_status change w).
Proof using. unfold update_status. case_bool_decide; [by apply silently_same|]. split_and!; [done|by eexists|by left]. Qed.

Lemma append_silently io r w w' : silent r = true -> append io r w = Ok w' -> appends_silently w w'.
Proof using. intros Hs (El & Ee & Em)%append_ok. split_and!; [done|by rewrite Ee|right; eauto]. Qed.

Lemma push_approvals_silently rs w : appends_silently w (foldl push_approval w rs).
Proof using.
  assert (H : forall w, log (foldl push_approval w rs) = log w /\ mode (foldl push_approval w rs) = mode w
    /\ events w `prefix_of` events (foldl push_approval w rs)).
  { induction rs as [|r rs IH]; intros v; [done|]. cbn [foldl]. destruct (IH (push_approval v r)) as (-> & -> & H).
    split_and!; [done|done|]. etrans; [|exact H]. by eexists. }
  destruct (H w) as (? & ? & ?). split_and!; auto.
Qed.

Lemma section_silently io a w : broker_section a -> appends_silently w (fst (run_atom io a w)).
Proof using.
  destruct a; cbn [run_atom broker_section]; intros Ha; try done;
    try (by apply silently_same); try (by apply silently_emit); try (by apply status_silently).
  - apply push_approvals_silently.
  - unfold resolve_approval. by destruct (take_approval _ _) as [[[? ?] ?]|]; apply silently_same.
  - unfold withdraw_approval. by destruct (take_approval _ _) as [[[? ?] ?]|]; apply silently_same.
  - unfold ask. destruct (append _ _ _) eqn:E; [by eapply append_silently; [|exact E]|by apply silently_same].
  - split_and!; [done|by eexists|by left].
  - unfold answer. by destruct (take_question _ _) as [[[? ?] ?]|]; apply silently_same.
  - unfold withdraw_question. by destruct (take_question _ _) as [[[? ?] ?]|]; apply silently_same.
  - unfold propose_plan. destruct (append _ _ _) eqn:E; [by eapply append_silently; [|exact E]|by apply silently_same].
  - split_and!; [done|by eexists|by left].
  - unfold resolve_plan. by destruct (take_plan _ _) as [[[? ?] ?]|]; apply silently_same.
  - unfold withdraw_plan. by destruct (take_plan _ _) as [[[? ?] ?]|]; apply silently_same.
  - unfold grant. by destruct (add_session_rule _ _); apply silently_same.
  - unfold grant_persist. by destruct (settings_ok io); apply silently_same.
  - unfold append_or_report. destruct (append io r w) eqn:E; cbn [snd fst]; [by eapply append_silently; [|exact E]|apply silently_emit].
  - unfold send_reply. by case_match; apply silently_same.
Qed.

Lemma good_section io a s :
  broker_section a -> good s -> good (mkSession (fst (run_atom io a (core s))) (live s)).
Proof using.
  intros Ha Hg. destruct (section_silently io a (core s) Ha) as (Em & Ee & [El|(r & Hr & El)]).
  - apply (good_same s); [done|done|done| |done]. unfold mirrors. cbn [core live]. by rewrite El, Em.
  - apply (good_logged s _ r); [by apply silent_no_rewind| |done|done| | |done].
    + pose proof Hg as (Ht & _). apply tidy_plain; [|done].
      split_and!; [by apply silent_no_rewind| |]; by destruct r.
    + by apply kept_drawn.
    + intros Hm. cbn [core live]. rewrite Em. by apply silent_agrees.
Qed.

End WithJson.
