(* ===== verification/SessionReach.v ===== *)
(** The sessions that can be reached, and the theorem that each mirrors its
    log. *)

From stdpp Require Import gmap sets relations.
From S2P Require Export SessionSteps.

Section WithJson.
Context {G : Globset} {P : Platform} {J : Json}.

(** * Steps *)

(** One operation of a session.  New messages have identifiers the log does
    not have yet; a message in memory is rewritten only within its tool
    results; reading the log gives its records. *)
Inductive session_step (s : Session) : Session -> Prop :=
| StepAppend io turn m steering now :
    fresh (message_id m) s -> session_step s (settle s (sink_append io turn m steering now s))
| StepRewrite w : Forall2 same_shape (live_working (live s)) w -> session_step s (set_working w s)
| StepCompact io io2 reply stamp now :
    fresh (fst stamp) s -> session_step s (compact_now io io2 reply stamp now s)
| StepRelieve io io2 agent limit keep percent review saved reply cancelled stamp now forced m :
    fresh (fst stamp) s ->
    session_step s
      (fst (fst (relieve io io2 agent limit keep percent review saved reply cancelled stamp now forced m
                   (live_working (live s)) s)))
| StepStart io io2 m turn started now :
    fresh (message_id m) s -> session_step s (fst (start_turn io io2 m turn started now s))
| StepSeed : session_step s (seed_mutation s)
| StepClose io t : session_step s (close_turn io t s)
| StepPrompt typed : session_step s (snd (prompt_text typed s))
| StepMeter m : session_step s (save_meter m s)
| StepAccount agent u cost tokens : session_step s (account agent u cost tokens s)
| StepSide io agent u cost : session_step s (record_side io agent u cost s)
| StepCheckpoint io i commit : session_step s (record_checkpoint io i commit s)
| StepTitle io t : session_step s (title_reply io t s)
| StepMode io m : session_step s (switch_mode io m s)
| StepModel io m limit : session_step s (set_model io m limit s)
| StepEffort io e : session_step s (set_effort io e s)
| StepSteer t : session_step s (steer t s)
| StepQueue queued : session_step s (edit_queue queued s)
| StepTodos io agent l : session_step s (update_todos io agent l s)
| StepAgent io i started : session_step s (publish io i started s)
| StepCheck io c : session_step s (record_check io c s)
| StepView io p m root spill stamp now :
    fresh (fst stamp) s -> applies_to p m (live s) ->
    session_step s (apply_task_view_for io p m root spill stamp now s)
| StepFull io : session_step s (include_full_history io s)
| StepRewind here busy io i scope restore load now :
    reads_back load -> session_step s (rewind_command here busy io i scope restore load now s)
| StepTell e : session_step s (announce e s)
| StepMutation at_ :
    session_step s (on_live (fun l => put_live_mutation (touch_mutation at_ (live_mutation l)) l) s)
| StepTakeQueue : session_step s (on_live (put_live_queue []) s)
| StepBroker io a :
    broker_section a -> session_step s (mkSession (fst (run_atom io a (core s))) (live s)).

(** A session starts as a new one, or from a stored log. *)
Inductive session_start : Session -> Prop :=
| StartCreate i created root m mode e p : session_start (create i created root m mode e p)
| StartResume io synced stamp now p legacy updated m e records s :
    tidy_log records -> fst stamp ∉ introduced_by records ->
    resume io synced stamp now p legacy updated m e records = Ok s -> session_start s.

Definition session_reached (s : Session) : Prop := exists s0, session_start s0 /\ rtc session_step s0 s.

(** * Every step *)

Lemma good_step s s' : session_step s s' -> good s -> good s'.
Proof using.
  destruct 1; intros Hg; eauto using good_append, good_working, good_compact_now, good_relieve, good_start, good_close,
    good_prompt, good_account, good_side, good_checkpoint, good_mode, good_model, good_effort, good_steer, good_queue,
    good_todos, good_publish, good_check, good_view, good_full, good_rewind, good_section, good_announce.
  - by apply good_unlogged; [repeat split|].
  - by apply good_unlogged; [repeat split|].
  - unfold title_reply. case_match; [done|]. by apply good_title.
  - by apply good_unlogged; [repeat split|].
  - by apply good_unlogged; [repeat split|].
Qed.

(** * Every start *)

Lemma append_all_ok io n rs w w' :
  append_all io n rs w = Ok w' -> log w' = log w ++ rs /\ mode w' = mode w /\ events w' = events w.
Proof using.
  revert n w. induction rs as [|r rs IH]; intros n w; cbn; [intros [= <-]; by rewrite app_nil_r|].
  destruct (append (io n) r w) as [w1|e] eqn:E; [|done]. cbn. intros (El & Em & Ee)%IH.
  apply append_ok in E as (El1 & Ee1 & Em1). rewrite El, Em, Ee, El1, Em1, Ee1, <- app_assoc. done.
Qed.

Lemma resume_log io synced stamp now p legacy updated m e records s :
  resume io synced stamp now p legacy updated m e records = Ok s ->
  log (core s) = records ++ repair_records stamp now (replay records)
  /\ live s = from_replay (replay (log (core s))) legacy updated m e
  /\ mode (core s) = replay_mode (replay (log (core s))).
Proof using.
  unfold resume, repair. set (rs := repair_records _ _ _).
  destruct (append_all io 0 rs _) as [w|x] eqn:E; [|done]. cbn [result_bind]. apply append_all_ok in E as (El & _ & _).
  cbn [log set_log] in El. destruct (is_empty rs) eqn:En.
  - destruct rs; [|done]. rewrite app_nil_r in El |- *. intros [= <-]. cbn [core live log mode set_world_mode].
    by rewrite El.
  - destruct synced as [u|x]; [|done]. intros [= <-]. cbn [core live log mode set_world_mode]. done.
Qed.

Lemma repair_plain stamp now r :
  exists ms, repair_records stamp now r = ms ++ drop (length ms) (repair_records stamp now r)
    /\ Forall plain (drop (length ms) (repair_records stamp now r))
    /\ (ms = [] \/ exists m t, ms = [LMessage m t] /\ message_id m = fst stamp).
Proof using.
  unfold repair_records. set (dangling := unanswered (working r)).
  match goal with |- context [_ ++ ?rest] => set (others := rest) end.
  assert (Ho : Forall plain others).
  { unfold others. repeat apply Forall_app_2.
    - destruct (open_turn r) as [[? ?]|]; repeat constructor.
    - apply Forall_fmap, Forall_true. by intros.
    - apply Forall_fmap, Forall_true. by intros.
    - apply Forall_fmap, Forall_true. by intros. }
  destruct (is_empty dangling).
  - exists []. cbn. split_and!; auto.
  - eexists [_]. cbn. split_and!; [done|done|right; eauto].
Qed.

Lemma tidy_plains rs ks : Forall plain ks -> tidy_log rs -> tidy_log (rs ++ ks).
Proof using.
  intros H. induction ks as [|k ks IH] using rev_ind; [by rewrite app_nil_r|].
  apply Forall_app in H as [H Hk]. rewrite Forall_singleton in Hk. intros Ht. rewrite app_assoc. by apply tidy_plain; auto.
Qed.

Lemma repaired_tidy stamp now records :
  tidy_log records -> fst stamp ∉ introduced_by records ->
  tidy_log (records ++ repair_records stamp now (replay records)).
Proof using.
  intros Ht Hf. destruct (repair_plain stamp now (replay records)) as (ms & E & Hp & Hms).
  rewrite E, app_assoc. apply tidy_plains; [done|]. destruct Hms as [->|(m & t & -> & Hm)]; [by rewrite app_nil_r|].
  eapply tidy_message; [done|done|by rewrite Hm|done].
Qed.

Lemma from_log_good w rs legacy updated m e :
  log w = rs -> tidy_log rs -> mode w = replay_mode (replay rs) ->
  good (mkSession w (from_replay (replay rs) legacy updated m e)).
Proof using.
  intros <- Ht Hm. split_and!; [done| |left].
  - cbn [core live]. rewrite replay_replayed. by apply replayed_drawn.
  - unfold mirrors. cbn [core live]. rewrite Hm. apply from_replay_agrees.
Qed.

Lemma good_session_start s : session_start s -> good s.
Proof using.
  destruct 1 as [i created root m mode e p|io synced stamp now p legacy updated m e records s Ht Hf Hr].
  - apply (from_log_good (set_log [LSessionStarted SESSION_SCHEMA i root m mode created] (new_world p mode))
      [LSessionStarted SESSION_SCHEMA i root m mode created] false created m e); [done| |done].
    split; [constructor|]. by repeat constructor.
  - apply resume_log in Hr as (El & Ev & Em). destruct s as [w l]. cbn [core live] in *. subst l.
    apply from_log_good; [done| |done]. rewrite El. by apply repaired_tidy.
Qed.

Lemma reached_good s : session_reached s -> good s.
Proof using.
  intros (s0 & Hs & Hr). apply good_session_start in Hs. induction Hr; [done|]. apply IHHr. by eapply good_step.
Qed.

(** * The theorem *)

(** C5: the state in memory is the one the log gives.  However a session
    started and whatever it then did, with writes that fail or not, a replay
    of its log gives the same transcript, turns, compactions, todos, agents,
    checks, checkpoints, task views, title and mode as the state in memory, and
    the same working set and hidden history but for tool results cleared since;
    or an event told the user that the log could not be saved. *)
Theorem session_mirrors_log (s : Session) :
  session_reached s ->
  agrees (live s) (mode (core s)) (replay (log (core s))) \/ told (core s).
Proof using.
  intros (_ & _ & [H|H])%reached_good; [left|by right].
  rewrite replay_replayed. by apply with_totals_fields.
Qed.

(** The messages a model is shown are told apart by their identifiers,
    and each comes from the log, also after compactions, task views and
    rewinds. *)
Theorem working_set_distinct (s : Session) :
  session_reached s ->
  NoDup (ids (live_working (live s)))
  /\ (forall m, m ∈ live_working (live s) -> message_id m ∈ introduced_by (log (core s))).
Proof using.
  intros (_ & [[Hn Hi] _] & _)%reached_good. split; [done|]. intros m Hm. apply Hi. by apply list_elem_of_fmap_2.
Qed.

End WithJson.
