(* ===== verification/ResumeFacts.v ===== *)
(** Facts about resuming: what a crash left open is closed, once. *)

From stdpp Require Import gmap sets.
From S2P Require Export SessionReach.

Section WithJson.
Context {G : Globset} {P : Platform} {J : Json}.

(** * One kind of record after the other *)

(** What [without] leaves after a list of ids. *)
Definition without_all {A} (gone : list id) (l : list (id * id * A)) : list (id * id * A) :=
  foldl (fun l i => without i l) l gone.

Lemma without_subset {A} (i : id) (l : list (id * id * A)) x :
  x ∈ without i l -> x ∈ l /\ fst (fst x) <> i.
Proof using.
  unfold without. intros [H Hx]%list_elem_of_In%filter_In. split; [by apply list_elem_of_In|].
  apply negb_true_iff in Hx. by apply teqb_neq in Hx.
Qed.

Lemma without_all_subset {A} gone (l : list (id * id * A)) x :
  x ∈ without_all gone l -> x ∈ l /\ fst (fst x) ∉ gone.
Proof using.
  revert l. induction gone as [|i gone IH]; intros l; [intros; split; [done|apply not_elem_of_nil]|].
  cbn. intros [H Hn]%IH. apply without_subset in H as [H Hi]. split; [done|]. by apply not_elem_of_cons.
Qed.

Lemma without_every {A} (l : list (id * id * A)) : without_all (map (fun p => fst (fst p)) l) l = [].
Proof using.
  destruct (without_all _ l) as [|x k] eqn:E; [done|]. exfalso.
  assert (Hx : x ∈ without_all (map (fun p => fst (fst p)) l) l) by (rewrite E; left).
  apply without_all_subset in Hx as [Hx Hn]. apply Hn. apply list_elem_of_fmap. eauto.
Qed.

Lemma answers_applied {A} (l : list (id * id * A)) s :
  foldl apply_record s (map (fun q => LQuestionAnswered (fst (fst q)) None) l)
  = with_asked_questions (without_all (map (fun q => fst (fst q)) l) (asked_questions s)) s.
Proof using. revert s. induction l as [|q l IH]; intros s; cbn; [by destruct s|]. by rewrite IH. Qed.

Lemma resolves_applied {A} (l : list (id * id * A)) s :
  foldl apply_record s (map (fun q => LPlanResolved (fst (fst q)) false None None) l)
  = with_pending_plans (without_all (map (fun q => fst (fst q)) l) (pending_plans s)) s.
Proof using. revert s. induction l as [|q l IH]; intros s; cbn; [by destruct s|]. by rewrite IH. Qed.

Lemma failures_applied now (l : list AgentInfo) s :
  foldl apply_record s (map (fun a => LAgentUpdated (fail_agent now a)) l)
  = with_agents (foldl (fun l a => put_agent (fail_agent now a) l) (agents s) l) s.
Proof using. revert s. induction l as [|q l IH]; intros s; cbn; [by destruct s|]. by rewrite IH. Qed.

(** * Agents *)

Lemma put_agent_ids i l :
  map agent_id (put_agent i l) = map agent_id l \/ map agent_id (put_agent i l) = map agent_id l ++ [agent_id i]
    /\ agent_id i ∉ map agent_id l.
Proof using.
  induction l as [|a l IH]; [right; split; [done|apply not_elem_of_nil]|]. cbn.
  destruct (teqb (agent_id a) (agent_id i)) eqn:E; cbn.
  - apply teqb_eq in E. left. by rewrite E.
  - apply teqb_neq in E. destruct IH as [->|[-> H]]; [by left|right]. split; [done|]. apply not_elem_of_cons. split; [|done].
    congruence.
Qed.

Lemma put_agent_distinct i l : NoDup (map agent_id l) -> NoDup (map agent_id (put_agent i l)).
Proof using.
  intros H. destruct (put_agent_ids i l) as [->|[-> Hi]]; [done|]. apply NoDup_app. split_and!; [done| |apply NoDup_singleton].
  by intros x Hx ->%list_elem_of_singleton.
Qed.

Lemma replayed_agents rs : NoDup (map agent_id (agents (replayed rs))).
Proof using.
  unfold replayed. generalize (effective_records rs). intros es. induction es as [|r es IH] using rev_ind; [constructor|].
  rewrite foldl_app. cbn [foldl]. revert IH. generalize (foldl apply_record replay_default es). intros s H.
  destruct r; cbn; try done.
  - by destruct (info s).
  - unfold finish_turn. cbn. by repeat case_match.
  - by apply put_agent_distinct.
  - unfold task_view. cbn. by repeat case_match.
Qed.

(** Agents still running fail; the others stay. *)
Definition closed_agent (now : N) (a : AgentInfo) : AgentInfo :=
  if is_terminal (agent_status a) then a else fail_agent now a.

Lemma put_agent_at now pre a post :
  agent_id a ∉ map agent_id pre ->
  put_agent (fail_agent now a) (pre ++ a :: post) = pre ++ fail_agent now a :: post.
Proof using.
  intros H. induction pre as [|b pre IH]; cbn; [by rewrite teqb_refl|].
  apply not_elem_of_cons in H as [Hb H].
  assert (E : teqb (agent_id b) (agent_id a) = false) by by apply teqb_neq.
  rewrite E. by rewrite IH.
Qed.

Lemma agents_closed now done_ l :
  NoDup (map agent_id (done_ ++ l)) ->
  foldl (fun l a => put_agent (fail_agent now a) l) (map (closed_agent now) done_ ++ l)
    (List.filter (fun a => negb (is_terminal (agent_status a))) l)
  = map (closed_agent now) (done_ ++ l).
Proof using.
  revert done_. induction l as [|a l IH]; intros done_ Hn; [by rewrite !app_nil_r|]. cbn.
  assert (Hn' : NoDup (map agent_id ((done_ ++ [a]) ++ l))) by (by rewrite <- app_assoc).
  specialize (IH (done_ ++ [a]) Hn'). rewrite map_app, <- !app_assoc in IH. cbn in IH.
  unfold closed_agent at 2 in IH. destruct (is_terminal (agent_status a)) eqn:Et; cbn.
  - rewrite IH. done.
  - rewrite put_agent_at; [by rewrite IH|].
    rewrite map_app in Hn. apply NoDup_app in Hn as (_ & Hd & _). intros (b & Eb & (c & -> & Hc)%list_elem_of_fmap)%list_elem_of_fmap.
    apply (Hd (agent_id c)); [by apply list_elem_of_fmap_2|].
    assert (Ec : agent_id a = agent_id c) by (unfold closed_agent in Eb; destruct (is_terminal (agent_status c)); exact Eb).
    rewrite <- Ec. left.
Qed.

Lemma closed_terminal now a : is_terminal (agent_status (closed_agent now a)) = true.
Proof using. unfold closed_agent. by destruct (is_terminal (agent_status a)) eqn:E. Qed.

(** * The repaired state *)

(** The transcript gets a message that answers the calls the crash left. *)
Definition answer_message (stamp : id * N) (r : ReplayState) : list Message :=
  let dangling := unanswered (working r) in
  if is_empty dangling then []
  else [new_message stamp User (map (fun i => tool_result i INTERRUPTED_RESULT true) dangling)].

Definition push_all (ms : list Message) (s : ReplayState) : ReplayState := foldl (fun s m => push_message m s) s ms.

Definition close_open_turn (now : N) (r s : ReplayState) : ReplayState :=
  match open_turn r with
  | Some (turn, message) => finish_turn (interrupted_turn now r turn message) s
  | None => s
  end.

Lemma repair_applied stamp now r :
  NoDup (map agent_id (agents r)) ->
  foldl apply_record r (repair_records stamp now r)
  = with_pending_plans [] (with_agents (map (closed_agent now) (agents r)) (with_asked_questions []
      (close_open_turn now r (push_all (answer_message stamp r) r)))).
Proof using.
  intros Hn. unfold repair_records. rewrite !foldl_app.
  assert (E1 : foldl apply_record r (if is_empty (unanswered (working r)) then []
      else [LMessage (new_message stamp User (map (fun i => tool_result i INTERRUPTED_RESULT true) (unanswered (working r))))
              (fmap fst (open_turn r))]) = push_all (answer_message stamp r) r)
    by (unfold answer_message; by destruct (is_empty _)).
  rewrite E1. set (r1 := push_all _ _).
  assert (Hr1 : open_turn r1 = open_turn r /\ asked_questions r1 = asked_questions r /\ agents r1 = agents r
    /\ pending_plans r1 = pending_plans r) by (unfold r1, answer_message; by destruct (is_empty _)).
  destruct Hr1 as (Eo & Ea & Eg & Ep).
  assert (E2 : foldl apply_record r1 (match open_turn r with
      | Some (turn, message) => [LTurnFinished (interrupted_turn now r turn message)] | None => [] end)
    = close_open_turn now r r1) by (unfold close_open_turn; by destruct (open_turn r) as [[? ?]|]).
  rewrite E2. set (r2 := close_open_turn now r r1).
  assert (Hr2 : asked_questions r2 = asked_questions r /\ agents r2 = agents r /\ pending_plans r2 = pending_plans r).
  { unfold r2, close_open_turn, finish_turn. destruct (open_turn r) as [[? ?]|]; [|done]. cbn. by repeat case_match. }
  destruct Hr2 as (Ea2 & Eg2 & Ep2).
  rewrite answers_applied, failures_applied, resolves_applied. cbn.
  rewrite Ea2, Eg2, Ep2, !without_every.
  pose proof (agents_closed now [] (agents r) Hn) as E3. cbn [app map] in E3. by rewrite E3.
Qed.

(** Nothing is left open. *)
Definition closed (r : ReplayState) : Prop :=
  open_turn r = None /\ asked_questions r = [] /\ pending_plans r = []
  /\ Forall (fun a => is_terminal (agent_status a) = true) (agents r)
  /\ unanswered (working r) = [].

Lemma closed_no_repair stamp now r : closed r -> repair_records stamp now r = [].
Proof using.
  intros (Eo & Ea & Ep & Hg & Eu). unfold repair_records. rewrite Eu, Eo, Ea, Ep. cbn. rewrite app_nil_r.
  induction (agents r) as [|a l IH]; [done|]. apply Forall_cons in Hg as [Ha Hg]. cbn. rewrite Ha. by apply IH.
Qed.

Lemma repair_no_rewind stamp now r : Forall (fun x => is_rewind x = false) (repair_records stamp now r).
Proof using.
  destruct (repair_plain stamp now r) as (ms & E & Hp & Hms). rewrite E. apply Forall_app_2.
  - destruct Hms as [->|(m & t & -> & _)]; by repeat constructor.
  - eapply Forall_impl; [exact Hp|]. by intros x [? _].
Qed.

Lemma repaired_state stamp now records :
  replayed (records ++ repair_records stamp now (replay records))
  = with_pending_plans [] (with_agents (map (closed_agent now) (agents (replay records))) (with_asked_questions []
      (close_open_turn now (replay records) (push_all (answer_message stamp (replay records)) (replayed records))))).
Proof using.
  unfold replayed at 1. rewrite effective_plain by apply repair_no_rewind. rewrite foldl_app.
  change (foldl apply_record replay_default (effective_records records)) with (replayed records).
  assert (E : repair_records stamp now (replay records) = repair_records stamp now (replayed records))
    by (by rewrite replay_replayed).
  rewrite E, repair_applied by apply replayed_agents. by rewrite replay_replayed.
Qed.

Lemma last_answered stamp r s :
  working s = working r -> unanswered (working (push_all (answer_message stamp r) s)) = [].
Proof using.
  intros E. unfold answer_message. destruct (is_empty (unanswered (working r))) eqn:Ee.
  - cbn. rewrite E. by destruct (unanswered (working r)).
  - cbn. unfold unanswered at 1. rewrite last_snoc. done.
Qed.

(** C12: resuming closes what a crash left open, once.  The log gets the repair
    records and nothing else; the state then read from it has no open turn, no
    pending question or plan, no running agent and no unanswered call of the
    last message; the transcript is the one before, and one message that
    answers the calls left open if there were any; the calls answered are
    exactly those, in order; agents that had ended are as they were; and
    resuming again would append nothing. *)
Theorem resume_closes (io : nat -> Io) (synced : result text unit) (stamp : id * N) (now : N) (p : Policy)
    (legacy : bool) (updated : N) (m : text) (e : option Effort) (records : list LogRecord) (s : Session) :
  resume io synced stamp now p legacy updated m e records = Ok s ->
  let before := replay records in
  let after := replay (log (core s)) in
  log (core s) = records ++ repair_records stamp now before
  /\ closed after
  /\ transcript after = transcript before ++ answer_message stamp before
  /\ concat (map (fun x => omap result_of (content x)) (answer_message stamp before)) = unanswered (working before)
  /\ agents after = map (closed_agent now) (agents before)
  /\ (forall stamp' now', repair_records stamp' now' after = [])
  /\ agrees (live s) (mode (core s)) after.
Proof using.
  intros (El & Ev & Em)%resume_log before after.
  assert (Hafter : after = with_totals (usage after) (cost_usd after)
    (replayed (records ++ repair_records stamp now before))) by (unfold after; rewrite El; apply replay_replayed).
  rewrite repaired_state in Hafter. fold before in Hafter.
  assert (Hclosed : closed after).
  { rewrite Hafter. split_and!; cbn; try done.
    - unfold close_open_turn, finish_turn. unfold before. rewrite (replay_replayed records). cbn.
      destruct (open_turn (replayed records)) as [[turn message]|] eqn:Eo; cbn.
      + assert (E : open_turn (push_all (answer_message stamp (replay records)) (replayed records)) = Some (turn, message))
          by (unfold answer_message; by destruct (is_empty _)).
        rewrite <- (replay_replayed records). rewrite E, teqb_refl. done.
      + unfold answer_message. by destruct (is_empty _).
    - apply Forall_fmap, Forall_true. intros a. apply closed_terminal.
    - assert (E : working (close_open_turn now before (push_all (answer_message stamp before) (replayed records)))
        = working (push_all (answer_message stamp before) (replayed records))).
      { unfold close_open_turn, finish_turn. destruct (open_turn before) as [[? ?]|]; [|done]. cbn. by repeat case_match. }
      rewrite E. apply last_answered. unfold before. by rewrite (replay_replayed records). }
  split_and!; [done|done| | | |by intros; apply closed_no_repair|].
  - rewrite Hafter. cbn.
    assert (E : transcript (close_open_turn now before (push_all (answer_message stamp before) (replayed records)))
      = transcript (push_all (answer_message stamp before) (replayed records))).
    { unfold close_open_turn, finish_turn. destruct (open_turn before) as [[? ?]|]; [|done]. cbn. by repeat case_match. }
    rewrite E. replace (transcript before) with (transcript (replayed records))
      by (unfold before; by rewrite (replay_replayed records)).
    unfold answer_message. destruct (is_empty _); cbn; [by rewrite app_nil_r|done].
  - unfold answer_message. destruct (is_empty (unanswered (working before))) eqn:Ee; cbn.
    + by destruct (unanswered (working before)).
    + rewrite app_nil_r. generalize (unanswered (working before)). clear.
      induction l as [|i l IH]; [done|]. cbn. by rewrite IH.
  - by rewrite Hafter.
  - rewrite Ev, Em. unfold after. rewrite replay_replayed at 3. apply with_totals_fields. apply from_replay_agrees.
Qed.

(** Resuming fails only when a write does. *)
Lemma resume_succeeds io synced stamp now p legacy updated m e records :
  (forall n, first_ok (io n) = true) -> synced = Ok tt ->
  exists s, resume io synced stamp now p legacy updated m e records = Ok s.
Proof using.
  intros Hio ->. unfold resume, repair.
  assert (H : forall rs n w, exists w', append_all io n rs w = Ok w').
  { induction rs as [|r rs IH]; intros n w; cbn; [eauto|]. unfold append. rewrite Hio. cbn. apply IH. }
  destruct (H (repair_records stamp now (replay records)) 0%nat
    (set_log records (new_world p (replay_mode (replay records))))) as (w & ->). cbn.
  destruct (is_empty _); cbn; eauto.
Qed.

(** An effort cleared during a session is the settings' again when the session
    is resumed: the log's record of it reads like no record. *)
Lemma cleared_effort_returns rs legacy updated m e :
  live_effort (from_replay (replay (rs ++ [LEffortChanged None])) legacy updated m (Some e)) = Some e.
Proof using. rewrite replay_replayed, replayed_snoc by done. done. Qed.

End WithJson.
