(* ===== verification/Log.v ===== *)
(** The file of a session log ([z-engine-store/src], files [append.rs],
    [read.rs] and [durable.rs]) and the journal that writes it
    ([engine/src/session/journal.rs]): one JSON line per record, lines read one
    by one, a file left in the middle of a line repaired when it is opened. *)

From S2P Require Export Replay.

Abbreviation byte := N (only parsing).

(** What [serde_json::from_slice] returns: a value, an error of
    [Category::Data], or another error. *)
Inductive Decoded (A : Type) := DItem (a : A) | DData | DOther.
Arguments DItem {A} _.
Arguments DData {A}.
Arguments DOther {A}.

(** [serde_json] on records and on any JSON value. *)
Class Serde {J : Json} := {
  to_vec : LogRecord -> option (list byte);
  decode_record : list byte -> Decoded LogRecord;
  decode_value : list byte -> Decoded json
}.

(** * [read.rs] *)

Inductive Line (A : Type) := LineBlank | LineItem (a : A) | LineMalformed | LineUnrecognized.
Arguments LineBlank {A}.
Arguments LineItem {A} _.
Arguments LineMalformed {A}.
Arguments LineUnrecognized {A}.

(** [u8::is_ascii_whitespace] *)
Definition is_ascii_whitespace (b : byte) : bool :=
  N.eqb b 32 || N.eqb b 9 || N.eqb b 10 || N.eqb b 12 || N.eqb b 13.

Definition parse_line {A} (decode : list byte -> Decoded A) (bytes : list byte) : Line A :=
  if forallb is_ascii_whitespace bytes then LineBlank
  else match decode bytes with
       | DItem a => LineItem a
       | DData => LineUnrecognized
       | DOther => LineMalformed
       end.

(** The pieces [read_until] gives, each with its newline. *)
Fixpoint read_lines (bytes : list byte) : list (list byte) :=
  match bytes with
  | [] => []
  | b :: rest =>
      if N.eqb b NEWLINE then [b] :: read_lines rest
      else match read_lines rest with
           | l :: ls => (b :: l) :: ls
           | [] => [[b]]
           end
  end.

Record ReadOutcome {A} := mkReadOutcome { items : list A; torn_tail : bool; corrupt_lines : nat }.
Arguments ReadOutcome : clear implicits.
Arguments mkReadOutcome {A} _ _ _.

Definition terminated (line : list byte) : bool :=
  match last line with Some b => N.eqb b NEWLINE | None => false end.

Definition read_line {A} (decode : list byte -> Decoded A) (out : ReadOutcome A) (line : list byte) : ReadOutcome A :=
  match parse_line decode line with
  | LineBlank => out
  | LineItem a => mkReadOutcome (items out ++ [a]) (torn_tail out) (corrupt_lines out)
  | LineMalformed =>
      if negb (terminated line) then mkReadOutcome (items out) true (corrupt_lines out)
      else mkReadOutcome (items out) (torn_tail out) (S (corrupt_lines out))
  | LineUnrecognized => mkReadOutcome (items out) (torn_tail out) (S (corrupt_lines out))
  end.

Definition read_jsonl {A} (decode : list byte -> Decoded A) (bytes : list byte) : ReadOutcome A :=
  foldl (read_line decode) (mkReadOutcome [] false 0) (read_lines bytes).

(** * [append.rs] *)

Definition TAIL_CHUNK : nat := N.to_nat 65536.

(** The offset of the last newline of a chunk. *)
Definition rposition_newline (chunk : list byte) : option nat :=
  match position (N.eqb NEWLINE) (reverse chunk) with
  | Some n => Some (length chunk - 1 - n)%nat
  | None => None
  end.

(** The loop of [last_line_start]; each round moves [end_] one chunk back. *)
Fixpoint last_line_start_loop (fuel : nat) (bytes : list byte) (end_ : nat) : nat :=
  match fuel with
  | O => 0
  | S fuel =>
      match end_ with
      | O => 0
      | _ =>
          let start := (end_ - TAIL_CHUNK)%nat in
          match rposition_newline (take (end_ - start) (drop start bytes)) with
          | Some index => (start + index + 1)%nat
          | None => last_line_start_loop fuel bytes start
          end
      end
  end.

Definition last_line_start (bytes : list byte) : nat :=
  last_line_start_loop (S (length bytes)) bytes (length bytes).

(** The file, and the failure every handle to it shares. *)
Record LogFile := mkLogFile { bytes : list byte; failed : bool }.

(** The outcomes of the file operations of [open]: opening, reading the tail,
    cutting or ending the last line, and syncing. *)
Record OpenIo := mkOpenIo { open_ok : bool; tail_ok : bool; fix_ok : bool; sync_ok : bool }.

(** The outcome of one write: the file is still the one opened, and how many
    bytes went out before the write failed, if it did. *)
Record WriteIo := mkWriteIo { same_file : bool; cut_at : option nat }.

Section WithSerde.
Context {J : Json} {S : Serde}.

Definition repair_tail (io : OpenIo) (b : list byte) : bool * list byte :=
  if negb (tail_ok io) then (false, b)
  else
    let start := last_line_start b in
    if Nat.eqb start (length b) then (true, b)
    else if negb (fix_ok io) then (false, b)
    else
      (sync_ok io,
       match parse_line decode_value (drop start b) with
       | LineMalformed => take start b
       | _ => b ++ [NEWLINE]
       end).

(** [Appender::open] *)
Definition open_log (io : OpenIo) (f : LogFile) : bool * LogFile :=
  if negb (open_ok io) then (false, f)
  else
    let '(ok, b) := repair_tail io (bytes f) in
    (ok, mkLogFile b (if ok then false else failed f)).

(** [Appender::append]: encoded first, then written under the shared lock
    unless a failure is pending. *)
Definition append_line (io : WriteIo) (r : LogRecord) (f : LogFile) : bool * LogFile :=
  match to_vec r with
  | None => (false, f)
  | Some line =>
      if failed f then (false, f)
      else if negb (same_file io) then (false, mkLogFile (bytes f) true)
      else
        let line := line ++ [NEWLINE] in
        match cut_at io with
        | None => (true, mkLogFile (bytes f ++ line) false)
        | Some k => (false, mkLogFile (bytes f ++ take k line) true)
        end
  end.

(** [Appender::sync] *)
Definition sync_log (ok : bool) (f : LogFile) : bool * LogFile :=
  if failed f then (false, f) else (ok, mkLogFile (bytes f) (negb ok)).

(** * [journal.rs] *)

Record JournalIo := mkJournalIo { first_write : WriteIo; reopen : OpenIo; retry : WriteIo }.

(** [Journal::append] *)
Definition journal_append (io : JournalIo) (r : LogRecord) (f : LogFile) : bool * LogFile :=
  match append_line (first_write io) r f with
  | (true, f) => (true, f)
  | (false, f) =>
      match open_log (reopen io) f with
      | (true, f) => append_line (retry io) r f
      | (false, f) => (false, f)
      end
  end.

(** * A log in use *)

(** Appends, syncs, and crashes: [UseCrash r k io] is a process that dies when
    [k] bytes of the line of [r] are out, and the next one opening the log. *)
Inductive LogUse :=
| UseAppend (io : JournalIo) (r : LogRecord)
| UseSync (ok : bool)
| UseCrash (r : LogRecord) (k : nat) (io : OpenIo).

(** The file, the records acknowledged, and whether a handle is open. *)
Record LogState := mkLogState { file : LogFile; acknowledged : list LogRecord; opened : bool }.

(** What a process that dies leaves of the line it was writing. *)
Definition torn (r : LogRecord) (k : nat) : list byte :=
  match to_vec r with Some line => take k (line ++ [NEWLINE]) | None => [] end.

Definition use_log (s : LogState) (u : LogUse) : LogState :=
  match u with
  | UseAppend io r =>
      if opened s then
        let '(ok, f) := journal_append io r (file s) in
        mkLogState f (if ok then acknowledged s ++ [r] else acknowledged s) true
      else s
  | UseSync ok => if opened s then mkLogState (snd (sync_log ok (file s))) (acknowledged s) true else s
  | UseCrash r k io =>
      let left :=
        if opened s && negb (failed (file s)) then bytes (file s) ++ torn r k else bytes (file s) in
      let '(ok, f) := open_log io (mkLogFile left false) in
      mkLogState f (acknowledged s) ok
  end.

(** [Appender::create_new] *)
Definition new_log : LogState := mkLogState (mkLogFile [] false) [] true.

(** A write that failed with all of the JSON out. *)
Definition stored_whole (io : WriteIo) (r : LogRecord) : bool :=
  match cut_at io, to_vec r with
  | Some k, Some line => same_file io && Nat.leb (length line) k
  | _, _ => false
  end.

(** The records a use of the log may store: an append that failed with all of
    the JSON out is stored and written again. *)
Definition attempts (u : LogUse) : list LogRecord :=
  match u with
  | UseAppend io r => r :: (if stored_whole (first_write io) r then [r] else [])
  | UseCrash r _ _ => [r]
  | UseSync _ => []
  end.

(** The records of a use. *)
Definition wanted (u : LogUse) : list LogRecord :=
  match u with UseAppend _ r | UseCrash r _ _ => [r] | UseSync _ => [] end.

End WithSerde.
