(* ===== verification/LogFacts.v ===== *)
(** Facts about the file of a session log: the scan for the last line, what a
    repair leaves, and that no acknowledged record is lost. *)

From S2P Require Export Log.

(** * Lines *)

Definition no_newline (l : list N) : Prop := NEWLINE ∉ l.

(** Whole lines: nothing, or bytes that end with a newline. *)
Definition whole (l : list N) : Prop := l = [] \/ last l = Some NEWLINE.

Lemma whole_snoc l : whole l <-> l = [] \/ exists k, l = k ++ [NEWLINE].
Proof.
  unfold whole. split; (intros [H|H]; [by left|right]).
  - by apply last_Some in H.
  - destruct H as (k & ->). apply last_snoc.
Qed.

Lemma whole_app a b : whole a -> whole b -> whole (a ++ b).
Proof.
  rewrite !whole_snoc. intros Ha [->|(k & ->)]; [by rewrite app_nil_r|]. right. exists (a ++ k). by rewrite app_assoc.
Qed.

Lemma read_lines_line l rest :
  no_newline l -> read_lines (l ++ NEWLINE :: rest) = (l ++ [NEWLINE]) :: read_lines rest.
Proof.
  unfold no_newline. induction l as [|b l IH]; intros H; [done|]. apply not_elem_of_cons in H as [Hb H].
  cbn [app read_lines]. destruct (N.eqb_spec b NEWLINE); [congruence|]. by rewrite IH.
Qed.

Lemma read_lines_fragment l : no_newline l -> read_lines l = match l with [] => [] | _ => [l] end.
Proof.
  unfold no_newline. induction l as [|b l IH]; intros H; [done|]. apply not_elem_of_cons in H as [Hb H].
  cbn [read_lines]. destruct (N.eqb_spec b NEWLINE); [congruence|]. rewrite IH by done. by destruct l.
Qed.

(** * The scan for the last line *)

Lemma position_absent {A} (f : A -> bool) l : (forall x, x ∈ l -> f x = false) -> position f l = None.
Proof.
  induction l as [|x l IH]; intros H; [done|]. cbn. rewrite (H x) by left. rewrite IH; [done|]. intros. apply H. by right.
Qed.

Lemma position_found {A} (f : A -> bool) a x b :
  (forall y, y ∈ a -> f y = false) -> f x = true -> position f (a ++ x :: b) = Some (length a).
Proof.
  induction a as [|y a IH]; intros H Hx; cbn; [by rewrite Hx|]. rewrite (H y) by left.
  rewrite IH; [done| |done]. intros. apply H. by right.
Qed.

Lemma newline_eqb l x : no_newline l -> x ∈ l -> N.eqb NEWLINE x = false.
Proof. intros H Hx. apply N.eqb_neq. intros <-. by apply H. Qed.

Lemma rposition_none l : no_newline l -> rposition_newline l = None.
Proof.
  intros H. unfold rposition_newline. rewrite position_absent; [done|]. intros x Hx. rewrite elem_of_reverse in Hx. exact (newline_eqb _ x H Hx).
Qed.

Lemma rposition_last a b : no_newline b -> rposition_newline (a ++ NEWLINE :: b) = Some (length a).
Proof.
  intros H. unfold rposition_newline. rewrite reverse_app, reverse_cons, <- app_assoc. cbn [app].
  rewrite position_found; [|intros x Hx; rewrite elem_of_reverse in Hx; exact (newline_eqb _ x H Hx)|done].
  rewrite length_reverse, length_app. cbn. f_equal. lia.
Qed.

Lemma tail_chunk_pos : (0 < TAIL_CHUNK)%nat.
Proof. unfold TAIL_CHUNK. lia. Qed.

Lemma scan_finds a f : whole a -> no_newline f ->
  forall fuel end_, (length a <= end_ <= length (a ++ f))%nat -> (end_ < fuel)%nat ->
  last_line_start_loop fuel (a ++ f) end_ = length a.
Proof.
  intros Ha Hf. induction fuel as [|fuel IH]; intros end_ [Hl Hu] Hfuel; [lia|]. cbn [last_line_start_loop].
  destruct end_ as [|n]; [lia|]. set (end_ := S n) in *. pose proof tail_chunk_pos. set (start := (end_ - TAIL_CHUNK)%nat).
  assert (Hs : (start < end_)%nat) by lia.
  destruct (Nat.le_gt_cases (length a) start) as [Hle|Hgt].
  - rewrite rposition_none; [apply IH; lia|]. intros Hin%subseteq_take. rewrite drop_app_ge in Hin by done.
    by apply subseteq_drop in Hin.
  - apply whole_snoc in Ha as [->|(k & ->)]; [cbn in Hgt; lia|]. rewrite length_app in Hl, Hgt. cbn [length] in Hl, Hgt.
    assert (E : take (end_ - start) (drop start ((k ++ [NEWLINE]) ++ f))
      = drop start k ++ NEWLINE :: take (end_ - (length k + 1)) f).
    { rewrite <- app_assoc, drop_app_le by lia. rewrite take_app_ge by (rewrite length_drop; lia). f_equal.
      rewrite length_drop. replace (end_ - start - (length k - start))%nat with (S (end_ - (length k + 1))) by lia.
      reflexivity. }
    rewrite E, rposition_last; [|by intros Hin%subseteq_take]. rewrite length_drop, length_app. cbn [length]. lia.
Qed.

(** The chunked scan finds where the bytes after the last newline begin. *)
Lemma last_line_start_split a f : whole a -> no_newline f -> last_line_start (a ++ f) = length a.
Proof. intros Ha Hf. apply scan_finds; [done|done| |lia]. rewrite length_app. lia. Qed.

Section WithSerde.
Context {J : Json} {S : Serde}.

Definition line_of (r : LogRecord) : list N := default [] (to_vec r).

(** A record [serde_json] encodes as JSON text: a line without newlines that
    decodes to the record, and whose proper beginnings are no JSON. *)
Record encodes (r : LogRecord) : Prop := {
  encoded : to_vec r = Some (line_of r);
  one_line : no_newline (line_of r);
  opens : exists b rest, line_of r = b :: rest /\ is_ascii_whitespace b = false;
  decodes : decode_record (line_of r) = DItem r /\ decode_record (line_of r ++ [NEWLINE]) = DItem r;
  is_json : exists v, decode_value (line_of r) = DItem v;
  cut_short : forall k, (0 < k < length (line_of r))%nat ->
    decode_record (take k (line_of r)) = DOther /\ decode_value (take k (line_of r)) = DOther
}.

Definition stored (rs : list LogRecord) : list N := concat (map (fun r => line_of r ++ [NEWLINE]) rs).

Lemma stored_app a b : stored (a ++ b) = stored a ++ stored b.
Proof using. unfold stored. by rewrite map_app, concat_app. Qed.

Lemma stored_snoc rs r : stored (rs ++ [r]) = stored rs ++ line_of r ++ [NEWLINE].
Proof using. rewrite stored_app. unfold stored at 2. cbn. by rewrite app_nil_r. Qed.

Lemma stored_whole_lines rs : whole (stored rs).
Proof using.
  induction rs as [|r rs IH]; [by left|]. change (stored (r :: rs)) with ((line_of r ++ [NEWLINE]) ++ stored rs).
  apply whole_app; [|done]. right. apply last_snoc.
Qed.

(** What can follow the last newline: nothing, the beginning of a record, or a
    record; the second list is what a reader makes of it. *)
Inductive fragment : list N -> list LogRecord -> Prop :=
| FragmentNone : fragment [] []
| FragmentTorn r k : encodes r -> (0 < k < length (line_of r))%nat -> fragment (take k (line_of r)) []
| FragmentWhole r : encodes r -> fragment (line_of r) [r].

Lemma fragment_line f extra : fragment f extra -> no_newline f.
Proof using.
  destruct 1 as [|r k Hr _|r Hr]; unfold no_newline; [apply not_elem_of_nil| |apply Hr].
  intros Hin%subseteq_take. by apply (one_line r Hr).
Qed.

Lemma line_not_blank r k : encodes r -> (0 < k)%nat -> forallb is_ascii_whitespace (take k (line_of r)) = false.
Proof using. intros Hr Hk. destruct (opens r Hr) as (b & rest & E & Hb). rewrite E. destruct k; [lia|]. cbn. by rewrite Hb. Qed.

Lemma line_nonempty r : encodes r -> (0 < length (line_of r))%nat.
Proof using. intros Hr. destruct (opens r Hr) as (b & rest & E & _). rewrite E. cbn. lia. Qed.

(** * Reading *)

Lemma read_stored rs out rest :
  Forall encodes rs ->
  foldl (read_line decode_record) out (read_lines (stored rs ++ rest))
  = foldl (read_line decode_record) (mkReadOutcome (items out ++ rs) (torn_tail out) (corrupt_lines out)) (read_lines rest).
Proof using.
  revert out. induction rs as [|r rs IH]; intros out H; [rewrite app_nil_r; by destruct out|].
  apply Forall_cons in H as [Hr H].
  assert (E : stored (r :: rs) ++ rest = line_of r ++ NEWLINE :: (stored rs ++ rest)).
  { unfold stored. cbn. by rewrite <- !app_assoc. }
  rewrite E, read_lines_line by apply Hr. cbn [foldl]. rewrite IH by done. f_equal.
  unfold read_line, parse_line. rewrite forallb_app.
  pose proof (line_not_blank r _ Hr (line_nonempty r Hr)) as Hb. rewrite firstn_all in Hb. rewrite Hb. cbn.
  destruct (decodes r Hr) as [_ ->]. cbn. by rewrite <- app_assoc.
Qed.

Lemma unterminated l : no_newline l -> terminated l = false.
Proof using.
  intros H. unfold terminated. destruct (last l) as [b|] eqn:E; [|done]. apply last_Some in E as (k & ->).
  apply N.eqb_neq. intros ->. apply H. apply elem_of_app. right. left.
Qed.

Lemma read_fragment f extra out :
  fragment f extra ->
  items (foldl (read_line decode_record) out (read_lines f)) = items out ++ extra
  /\ corrupt_lines (foldl (read_line decode_record) out (read_lines f)) = corrupt_lines out.
Proof using.
  intros Hf. rewrite read_lines_fragment by (by eapply fragment_line).
  destruct Hf as [|r k Hr Hk|r Hr].
  - cbn. by rewrite app_nil_r.
  - assert (Hn : no_newline (take k (line_of r))) by (eapply fragment_line; by apply FragmentTorn).
    destruct (take k (line_of r)) as [|b l] eqn:E.
    { apply (f_equal length) in E. rewrite length_take in E. cbn in E. lia. }
    cbn [foldl]. unfold read_line, parse_line. rewrite <- E in *.
    rewrite line_not_blank, unterminated by (done || lia). destruct (cut_short r Hr k Hk) as [-> _]. cbn.
    by rewrite app_nil_r.
  - pose proof (line_nonempty r Hr). destruct (line_of r) as [|b l] eqn:E; [cbn in *; lia|]. cbn [foldl].
    unfold read_line, parse_line. rewrite <- E.
    pose proof (line_not_blank r _ Hr (line_nonempty r Hr)) as Hb. rewrite firstn_all in Hb. rewrite Hb.
    destruct (decodes r Hr) as [-> _]. done.
Qed.

(** A file of whole records and a fragment is read as those records. *)
Lemma read_file rs f extra :
  Forall encodes rs -> fragment f extra ->
  items (read_jsonl decode_record (stored rs ++ f)) = rs ++ extra
  /\ corrupt_lines (read_jsonl decode_record (stored rs ++ f)) = 0%nat.
Proof using.
  intros Hrs Hf. unfold read_jsonl. rewrite read_stored by done. by apply (read_fragment f extra).
Qed.

(** * Writing *)

(** The records of a file, and what a reader would add to them. *)
Record holds (b : list N) (rs extra : list LogRecord) (f : list N) : Prop := {
  hold_bytes : b = stored rs ++ f;
  hold_fragment : fragment f extra;
  hold_encodes : Forall encodes rs
}.

Lemma holds_whole b rs extra : holds b rs extra [] -> extra = [] /\ b = stored rs.
Proof using.
  intros [E Hf _]. rewrite app_nil_r in E. split; [|done]. inversion Hf as [|r k Hr Hk|r Hr]; [done| |].
  - apply (f_equal length) in H. rewrite length_take in H. cbn in H. lia.
  - pose proof (line_nonempty r Hr) as Hl. rewrite H in Hl. cbn in Hl. lia.
Qed.

(** A line cut anywhere leaves the file holding the records before it, and the
    record itself when all of its JSON is out. *)
Lemma torn_holds rs r k :
  encodes r -> Forall encodes rs ->
  exists rs' extra f,
    holds (stored rs ++ take k (line_of r ++ [NEWLINE])) rs' extra f
    /\ rs' ++ extra = (if Nat.leb (length (line_of r)) k then rs ++ [r] else rs)
    /\ rs `prefix_of` rs'.
Proof using.
  intros Hr Hrs. destruct (Nat.leb_spec (length (line_of r)) k) as [Hk|Hk].
  - destruct (base.decide (k = length (line_of r))) as [->|Hne].
    + exists rs, [r], (line_of r). rewrite take_app_length. split_and!; [|done|done]. constructor; [done|by constructor|done].
    + exists (rs ++ [r]), [], []. rewrite take_ge by (rewrite length_app; cbn [length]; lia). rewrite app_nil_r.
      split_and!; [|done|by eexists]. constructor; [by rewrite stored_snoc, app_nil_r|constructor|].
      apply Forall_app. split; [done|]. by apply Forall_singleton.
  - exists rs, []. rewrite take_app_le by lia. rewrite app_nil_r. destruct k as [|k].
    + exists []. split_and!; [constructor; [done|constructor|done]|done|done].
    + exists (take (Datatypes.S k) (line_of r)). split_and!; [|done|done]. constructor; [done|constructor; [done|lia]|done].
Qed.

Lemma append_holds io r lf rs extra f :
  encodes r -> holds (bytes lf) rs extra f -> (failed lf = false -> f = []) ->
  let '(ok, lf') := append_line io r lf in
  exists rs' extra' f',
    holds (bytes lf') rs' extra' f'
    /\ (if ok then failed lf = false /\ failed lf' = false /\ f' = [] /\ rs' = rs ++ [r]
        else failed lf' = true /\ rs `prefix_of` rs'
             /\ rs' ++ extra' = (if negb (failed lf) && stored_whole io r then rs ++ [r] else rs ++ extra)).
Proof using.
  intros Hr Hh Hf. unfold append_line, stored_whole. rewrite (encoded r Hr). destruct (failed lf) eqn:Ef.
  - exists rs, extra, f. rewrite Ef. split_and!; try done.
  - rewrite (Hf eq_refl) in Hh. destruct (holds_whole _ _ _ Hh) as [-> Eb]. destruct (same_file io); cbn [negb].
    + destruct (cut_at io) as [k|].
      * destruct (torn_holds rs r k Hr (hold_encodes _ _ _ _ Hh)) as (rs' & extra' & f' & Hh' & E & Hp).
        exists rs', extra', f'. cbn [bytes failed andb]. rewrite Eb. split_and!; try done. rewrite E.
        destruct (Nat.leb _ _); [done|by rewrite app_nil_r].
      * exists (rs ++ [r]), [], []. cbn [bytes failed]. split_and!; try done. rewrite Eb.
        constructor; [by rewrite stored_snoc, app_nil_r|constructor|].
        apply Forall_app. split; [apply Hh|]. by apply Forall_singleton.
    + exists rs, [], []. cbn [bytes failed]. split_and!; try done. by destruct (cut_at io).
Qed.

(** Opening leaves the records a reader sees, all of them whole. *)
Lemma open_holds io lf rs extra f :
  holds (bytes lf) rs extra f ->
  let '(ok, lf') := open_log io lf in
  exists rs' extra' f',
    holds (bytes lf') rs' extra' f' /\ rs' ++ extra' = rs ++ extra /\ rs `prefix_of` rs'
    /\ (if ok then failed lf' = false /\ f' = [] else failed lf' = failed lf).
Proof using.
  intros Hh. unfold open_log, repair_tail. destruct (open_ok io); cbn [negb]; [|by exists rs, extra, f].
  destruct (tail_ok io); cbn [negb bytes failed]; [|by exists rs, extra, f].
  pose proof Hh as [Eb Hf He]. rewrite Eb, last_line_start_split
    by (apply stored_whole_lines || by eapply fragment_line).
  destruct (Nat.eqb_spec (length (stored rs)) (length (stored rs ++ f))) as [El|El].
  { rewrite length_app in El. assert (f = []) as -> by (destruct f; [done|cbn in El; lia]).
    exists rs, extra, []. cbn [bytes failed]. rewrite <- Eb. done. }
  destruct (fix_ok io); cbn [negb bytes failed]; [|exists rs, extra, f; by rewrite <- Eb].
  rewrite drop_app_length, take_app_length. unfold parse_line.
  destruct Hf as [|r k Hr Hk|r Hr].
  - by rewrite app_nil_r in El.
  - rewrite line_not_blank by (done || lia). destruct (cut_short r Hr k Hk) as [_ ->]. exists rs, [], [].
    rewrite app_nil_r. cbn [bytes failed]. split_and!; [|done|done|by destruct (sync_ok io)].
    constructor; [by rewrite app_nil_r|constructor|done].
  - pose proof (line_not_blank r _ Hr (line_nonempty r Hr)) as Hb. rewrite firstn_all in Hb. rewrite Hb.
    destruct (is_json r Hr) as (v & ->). exists (rs ++ [r]), [], []. rewrite app_nil_r. cbn [bytes failed].
    split_and!; [|done|by eexists|by destruct (sync_ok io)].
    constructor; [by rewrite stored_snoc, app_nil_r, app_assoc|constructor|].
    apply Forall_app. split; [done|]. by apply Forall_singleton.
Qed.

(** * A log in use *)

(** What is acknowledged is stored, and what a reader sees was attempted. *)
Definition accounts (s : LogState) (tried : list LogRecord) : Prop :=
  exists rs extra f,
    holds (bytes (file s)) rs extra f
    /\ acknowledged s `sublist_of` rs /\ rs ++ extra `sublist_of` tried
    /\ (opened s = true -> failed (file s) = false -> f = []).

Lemma sublist_prefix_r (a b c : list LogRecord) : a `sublist_of` b -> b `prefix_of` c -> a `sublist_of` c.
Proof using. intros H [k ->]. by apply sublist_inserts_r. Qed.

Lemma append_accounts io r s tried :
  encodes r -> opened s = true -> accounts s tried ->
  accounts (use_log s (UseAppend io r)) (tried ++ attempts (UseAppend io r)).
Proof using.
  intros Hr Ho (rs & extra & f & Hh & Ha & Ht & Hf). specialize (Hf Ho). cbn [use_log attempts]. rewrite Ho.
  unfold journal_append. pose proof (append_holds (first_write io) r (file s) rs extra f Hr Hh Hf) as H1.
  destruct (append_line (first_write io) r (file s)) as [ok1 lf1].
  destruct H1 as (rs1 & extra1 & f1 & Hh1 & H1). destruct ok1.
  - destruct H1 as (E0 & E1 & -> & ->). destruct (holds_whole _ _ _ Hh1) as [-> _].
    rewrite (Hf E0) in Hh. destruct (holds_whole _ _ _ Hh) as [-> _]. rewrite app_nil_r in Ht.
    exists (rs ++ [r]), [], []. cbn [file acknowledged opened]. rewrite app_nil_r. split_and!; try done.
    + by apply sublist_app.
    + apply sublist_app; [done|]. destruct (stored_whole _ _); [|done]. apply sublist_skip, sublist_nil_l.
  - destruct H1 as (E1 & Hp1 & Er1).
    pose proof (open_holds (reopen io) lf1 rs1 extra1 f1 Hh1) as H2.
    destruct (open_log (reopen io) lf1) as [ok2 lf2]. destruct H2 as (rs2 & extra2 & f2 & Hh2 & Er2 & Hp2 & H2).
    assert (Hack : acknowledged s `sublist_of` rs2)
      by (eapply sublist_prefix_r; [|exact Hp2]; by eapply sublist_prefix_r).
    assert (Hseen : rs2 ++ extra2 `sublist_of` tried ++ (if stored_whole (first_write io) r then [r] else [])).
    { rewrite Er2, Er1. destruct (stored_whole (first_write io) r); [|rewrite andb_false_r, app_nil_r; done].
      destruct (failed (file s)) eqn:Efl; cbn.
      - by apply sublist_inserts_r.
      - apply sublist_app; [|done]. etrans; [|exact Ht]. by apply sublist_inserts_r. }
    assert (Hmore : tried ++ (if stored_whole (first_write io) r then [r] else [])
      `sublist_of` tried ++ r :: (if stored_whole (first_write io) r then [r] else [])).
    { apply sublist_app; [done|]. by apply sublist_cons. }
    destruct ok2.
    + destruct H2 as [E2 ->]. destruct (holds_whole _ _ _ Hh2) as [-> _]. rewrite app_nil_r in Hseen.
      pose proof (append_holds (retry io) r lf2 rs2 [] [] Hr Hh2 (fun _ => eq_refl)) as H3.
      destruct (append_line (retry io) r lf2) as [ok3 lf3]. destruct H3 as (rs3 & extra3 & f3 & Hh3 & H3).
      assert (Hone : rs2 ++ [r] `sublist_of` tried ++ r :: (if stored_whole (first_write io) r then [r] else [])).
      { destruct (stored_whole (first_write io) r).
        - change [r; r] with ([r] ++ [r]). rewrite app_assoc. by apply sublist_app.
        - rewrite app_nil_r in Hseen. by apply sublist_app. }
      destruct ok3.
      * destruct H3 as (_ & E3 & -> & ->). destruct (holds_whole _ _ _ Hh3) as [-> _].
        exists (rs2 ++ [r]), [], []. cbn [file acknowledged opened]. rewrite app_nil_r. split_and!; try done.
        by apply sublist_app.
      * destruct H3 as (E3 & Hp3 & Er3). exists rs3, extra3, f3. cbn [file acknowledged opened].
        split_and!; [done|by eapply sublist_prefix_r| |congruence]. rewrite Er3, app_nil_r.
        destruct (negb (failed lf2) && stored_whole (retry io) r); [exact Hone|by etrans].
    + exists rs2, extra2, f2. cbn [file acknowledged opened]. split_and!; [done|done|by etrans|]. congruence.
Qed.

Lemma sync_accounts ok s tried : accounts s tried -> accounts (use_log s (UseSync ok)) tried.
Proof using.
  intros (rs & extra & f & Hh & Ha & Ht & Hf). cbn [use_log]. destruct (opened s) eqn:Ho; [|exists rs, extra, f; by rewrite Ho].
  exists rs, extra, f. cbn [file acknowledged opened]. unfold sync_log.
  destruct (failed (file s)) eqn:Ef; cbn [snd bytes failed]; split_and!; try done; intros; try congruence. by apply Hf.
Qed.

Lemma crash_accounts io r k s tried :
  encodes r -> accounts s tried -> accounts (use_log s (UseCrash r k io)) (tried ++ [r]).
Proof using.
  intros Hr (rs & extra & f & Hh & Ha & Ht & Hf). cbn [use_log].
  assert (Hleft : exists rs' extra' f',
    holds (if opened s && negb (failed (file s)) then bytes (file s) ++ torn r k else bytes (file s)) rs' extra' f'
    /\ acknowledged s `sublist_of` rs' /\ rs' ++ extra' `sublist_of` tried ++ [r]).
  { destruct (opened s) eqn:Ho; [|by exists rs, extra, f; split_and!; [..|by apply sublist_inserts_r]].
    destruct (failed (file s)) eqn:Efl; cbn [andb negb]; [by exists rs, extra, f; split_and!; [..|by apply sublist_inserts_r]|].
    rewrite (Hf eq_refl eq_refl) in Hh. destruct (holds_whole _ _ _ Hh) as [-> Eb]. rewrite app_nil_r in Ht.
    unfold torn. rewrite (encoded r Hr), Eb.
    destruct (torn_holds rs r k Hr (hold_encodes _ _ _ _ Hh)) as (rs' & extra' & f' & Hh' & E & Hp).
    exists rs', extra', f'. split_and!; [done|by eapply sublist_prefix_r|]. rewrite E.
    destruct (Nat.leb _ _); [by apply sublist_app|by apply sublist_inserts_r]. }
  destruct Hleft as (rs' & extra' & f' & Hh' & Ha' & Ht').
  pose proof (open_holds io (mkLogFile _ false) rs' extra' f' Hh') as Ho.
  destruct (open_log io _) as [ok lf]. destruct Ho as (rs2 & extra2 & f2 & Hh2 & E2 & Hp2 & H2).
  exists rs2, extra2, f2. cbn [file acknowledged opened].
  split_and!; [done|by eapply sublist_prefix_r|by rewrite E2|]. intros ->. by destruct H2.
Qed.

Lemma uses_account uses s tried :
  Forall (fun u => Forall encodes (wanted u)) uses -> accounts s tried ->
  accounts (foldl use_log s uses) (tried ++ concat (map attempts uses)).
Proof using.
  revert s tried. induction uses as [|u uses IH]; intros s tried H Hs; [by rewrite app_nil_r|].
  apply Forall_cons in H as [Hu H]. cbn [foldl map concat]. rewrite app_assoc. apply IH; [done|].
  destruct u as [io r|ok|r k io]; cbn [wanted] in Hu.
  - rewrite Forall_singleton in Hu. destruct (opened s) eqn:Ho; [by apply append_accounts|].
    cbn [use_log]. rewrite Ho. destruct Hs as (rs & extra & f & Hh & Ha & Ht & Hf).
    exists rs, extra, f. split_and!; [done|done|by apply sublist_inserts_r|done].
  - rewrite app_nil_r. by apply sync_accounts.
  - rewrite Forall_singleton in Hu. by apply crash_accounts.
Qed.

(** C8: no acknowledged record is lost, and none is invented.  Whatever writes
    fail, wherever they are cut, and whenever the process dies and the next one
    opens the log, reading the file gives every record that was acknowledged,
    in order, and beyond those only records whose write was attempted, each as
    often as it was attempted; and no line is unreadable. *)
Theorem log_keeps_acknowledged (uses : list LogUse) :
  Forall (fun u => Forall encodes (wanted u)) uses ->
  let s := foldl use_log new_log uses in
  let out := read_jsonl decode_record (bytes (file s)) in
  acknowledged s `sublist_of` items out
  /\ items out `sublist_of` concat (map attempts uses)
  /\ corrupt_lines out = 0%nat.
Proof using.
  intros Hu s out. assert (H0 : accounts new_log []).
  { exists [], [], []. split_and!; [|done|done|done]. constructor; [done|constructor|constructor]. }
  destruct (uses_account uses new_log [] Hu H0) as (rs & extra & f & Hh & Ha & Ht & _). fold s in Hh, Ha.
  destruct Hh as [E Hf He]. destruct (read_file rs f extra He Hf) as [Hi Hc].
  unfold out. rewrite E, Hi. split_and!; [by apply sublist_inserts_r|done|done].
Qed.

(** A record whose write fails after its JSON is out is stored twice: the
    reopened log ends the line, and the retry writes it again. *)
Theorem retry_stores_twice (r : LogRecord) (k : nat) (io : OpenIo) :
  encodes r -> open_ok io = true -> tail_ok io = true -> fix_ok io = true -> sync_ok io = true ->
  (length (line_of r) <= k)%nat ->
  let cut := mkWriteIo true (Some k) in
  let s := use_log new_log (UseAppend (mkJournalIo cut io (mkWriteIo true None)) r) in
  acknowledged s = [r] /\ items (read_jsonl decode_record (bytes (file s))) = [r; r].
Proof using.
  intros Hr H1 H2 H3 H4 Hk cut s.
  assert (Hs : s = mkLogState (mkLogFile (stored [r; r]) false) [r] true).
  { unfold s, new_log. cbn [use_log opened file acknowledged]. unfold journal_append, append_line at 1.
    rewrite (encoded r Hr). cbn [failed same_file first_write cut negb cut_at bytes app].
    set (lf := mkLogFile _ true).
    assert (E : open_log io lf = (true, mkLogFile (stored [r]) false)).
    { unfold open_log, repair_tail, lf. rewrite H1, H2, H3, H4. cbn [negb bytes failed].
      destruct (Nat.eq_dec k (length (line_of r))) as [->|Hne].
      - rewrite take_app_length. pose proof (last_line_start_split [] (line_of r) (or_introl eq_refl) (one_line r Hr)) as E.
        cbn [app length] in E. rewrite E. pose proof (line_nonempty r Hr).
        destruct (Nat.eqb_spec 0 (length (line_of r))); [lia|]. unfold parse_line.
        pose proof (line_not_blank r _ Hr (line_nonempty r Hr)) as Hb. rewrite firstn_all in Hb.
        rewrite drop_0. rewrite Hb. destruct (is_json r Hr) as (v & ->). unfold stored. cbn. by rewrite app_nil_r.
      - rewrite take_ge by (rewrite length_app; cbn [length]; lia).
        pose proof (last_line_start_split (line_of r ++ [NEWLINE]) []) as E. rewrite app_nil_r in E.
        rewrite E; [|right; apply last_snoc|apply not_elem_of_nil]. rewrite Nat.eqb_refl. unfold stored. cbn.
        by rewrite app_nil_r. }
    cbn [reopen retry]. rewrite E. unfold append_line. rewrite (encoded r Hr). cbn [failed same_file negb cut_at bytes].
    unfold stored. cbn. by rewrite !app_nil_r. }
  rewrite Hs. cbn [acknowledged file bytes]. split; [done|].
  pose proof (read_file [r; r] [] [] ltac:(constructor; [done|constructor; [done|constructor]]) FragmentNone) as [Hi _].
  by rewrite !app_nil_r in Hi.
Qed.

End WithSerde.
