(* ===== verification/Runs.v ===== *)
(** Concrete sessions: the properties of the policy applied where their
    hypotheses hold, with the small [simple_globset] instance. *)

From S2P Require Import AccessFacts BrokerSerial BatchFacts TaskViewFacts.

#[local] Existing Instance simple_globset.
#[local] Existing Instance linux.

(** A project at [/work/app] with a few rules. *)
Definition demo_ctx : PolicyContext :=
  mkPolicyContext (components (str "/work/./app")) [components (str "/data")]
    (Some (components (str "/home/u"))).

Definition demo_config : PolicyConfig :=
  mkPolicyConfig [str "Bash(cargo test:*)"; str "Edit(docs/**)"] [str "Bash(git push:*)"]
    [str "Bash(rm:*)"; str "Edit(//etc/**)"] true true.

Definition demo : Policy := session_policy demo_config demo_ctx [].

Lemma demo_root : absolute_root demo_ctx.
Proof. split; [apply components_wf|reflexivity]. Defined.

(** Reads a rule text whose parse is known to succeed. *)
Definition the_rule (t : text) : Rule :=
  match rule_parse t with Ok r => r | Err _ => mkRule TWebSearch end.

Definition the_pattern (t : text) : CommandPattern :=
  match CommandPattern_parse t with Ok (Some p) => p | _ => mkCommandPattern [] None false end.

Lemma decide_allow_order_witness :
  is_allow (Pipeline.decide demo (str "Bash") (AExecute (str "cargo test -p x")) MDefault) = true
  /\ ~ matched demo (policy_deny demo) (str "Bash") (AExecute (str "cargo test -p x")).
Proof.
  assert (H : is_allow (Pipeline.decide demo (str "Bash") (AExecute (str "cargo test -p x")) MDefault) = true)
    by (vm_compute; reflexivity).
  split; [exact H|].
  exact (proj1 (decide_allow_order demo (str "Bash") (AExecute (str "cargo test -p x")) MDefault H)).
Defined.

Lemma configured_deny_holds_witness :
  is_deny (Pipeline.decide demo (str "Bash") (AExecute (str "ls; sudo rm -r x")) MBypass) = true.
Proof.
  apply (configured_deny_holds demo_config demo_ctx [] (str "Bash(rm:*)") (the_rule (str "Bash(rm:*)"))
           (str "Bash") (AExecute (str "ls; sudo rm -r x")) MBypass).
  - left. reflexivity.
  - vm_compute. reflexivity.
  - vm_compute. reflexivity.
Defined.

Lemma allowed_writes_contained_witness :
  policy_is_protected demo (resolve (project_root (policy_ctx demo)) (components (str "docs/a.md"))) = false.
Proof.
  assert (H : is_allow (Pipeline.decide demo (str "Edit") (AWrite [components (str "docs/a.md")]) MDefault) = true)
    by (vm_compute; reflexivity).
  assert (Hw : Forall wf_path [components (str "docs/a.md")]) by (constructor; [apply components_wf|constructor]).
  pose proof (allowed_writes_contained demo_config demo_ctx [] (str "Edit") [components (str "docs/a.md")]
                MDefault demo_root Hw ltac:(discriminate) H) as [_ Hall].
  inversion Hall as [|? ? [Hp _] _]. exact Hp.
Defined.

Lemma allowed_commands_justified_witness :
  (exists r, In r (allow_rules demo)
     /\ covers_line (str "Bash") (trim (str "cargo test > out.txt")) r = true)
  \/ static_command (str "cargo test > out.txt") /\ writes_confined demo (str "cargo test > out.txt")
  \/ MDefault = MAcceptEdits
     /\ is_common_fs_command (trim (str "cargo test > out.txt")) (project_root (policy_ctx demo)) = true.
Proof.
  apply (allowed_commands_justified demo_config demo_ctx [] (str "Bash") (str "cargo test > out.txt") MDefault).
  - exact demo_root.
  - discriminate.
  - vm_compute. reflexivity.
Defined.

(** The second command of the line, and the redirect target it writes. *)
Definition demo_line : text := str "make all; nice tee out/log".

Definition demo_segment : Segment := nth 1 (parsed_segments (parse demo_line)) default_segment.

Lemma sandboxed_writes_confined_witness :
  confined demo (set_text (str "out/log") default_word).
Proof.
  apply (sandboxed_writes_confined demo_config demo_ctx [] demo_line demo_segment
           (mkSegment (tl (words demo_segment)) []) (set_text (str "out/log") default_word)).
  - exact demo_root.
  - vm_compute. reflexivity.
  - vm_compute. right. left. reflexivity.
  - apply rtc_once. vm_compute. left. reflexivity.
  - vm_compute. left. reflexivity.
Defined.

Lemma bash_rules_see_through_witness :
  restricts_command demo (the_rule (str "Bash(tee:*)")) (str "Bash") (new_facts demo_line) = true.
Proof.
  apply (bash_rules_see_through demo (the_rule (str "Bash(tee:*)")) (the_pattern (str "tee:*"))
           (str "Bash") demo_line demo_segment (mkSegment (tl (words demo_segment)) [])).
  - vm_compute. reflexivity.
  - vm_compute. right. left. reflexivity.
  - apply rtc_once. vm_compute. left. reflexivity.
  - vm_compute. reflexivity.
Defined.

Lemma allow_pattern_denies_witness :
  restricts_command demo (the_rule (str "Bash(make:*)")) (str "Bash") (new_facts demo_line) = true.
Proof.
  apply (allow_pattern_denies demo (the_rule (str "Bash(make:*)")) (the_pattern (str "make:*"))
           (str "Bash") demo_line (nth 0 (parsed_segments (parse demo_line)) default_segment)).
  - vm_compute. reflexivity.
  - vm_compute. discriminate.
  - vm_compute. left. reflexivity.
  - vm_compute. discriminate.
  - vm_compute. reflexivity.
Defined.

(** * The broker *)

(** JSON values that are texts or flat objects, enough for the examples. *)
Inductive flat_json :=
| JText (t : text)
| JKeys (keys : list text)
| JObject (fields : list (text * text)).

Definition flat_get (v : flat_json) (key : text) : option flat_json :=
  match v with
  | JObject fields =>
      if teqb key (str "required") then Some (JKeys (map fst fields))
      else JText <$> (snd <$> List.find (fun f => teqb (fst f) key) fields)
  | _ => None
  end.

#[local] Instance flat : Json := {|
  json := flat_json;
  is_object := fun v => match v with JObject _ => true | _ => false end;
  json_get := flat_get;
  as_array := fun v => match v with JKeys ks => Some (map JText ks) | _ => None end;
  as_str := fun v => match v with JText t => Some t | _ => None end;
  is_null := fun _ => false;
  to_text := fun v => match v with JText t => t | _ => [] end
|}.

(** A request, its answer with a rule, and a shutdown. *)
Definition demo_moves : list Move :=
  [MStart (OpRequestApprovals [lone_request (str "r1") (JText []); lone_request (str "r2") (JText [])]);
   MRun all_ok 0; MStart (OpResolveApproval (str "r1") (AllowSession (str "Bash(ls:*)")));
   MRun all_ok 1; MRun all_ok 0; MRun all_ok 1; MRun all_ok 1; MRun all_ok 1; MRun all_ok 1;
   MStart OpWithdrawAll; MRun all_ok 2; MRun all_ok 2].

Definition demo_state : State := schedule demo_moves (mkState (new_world demo MDefault) [] []).

Lemma interactions_accounted_witness :
  requested (world demo_state) = [(KApproval, str "r1"); (KApproval, str "r2")]
  /\ requested (world demo_state)
     ≡ₚ pending_ids (pending (world demo_state)) ++ in_flight (concat (tasks demo_state))
        ++ resolved (world demo_state).
Proof.
  split; [vm_compute; reflexivity|].
  apply (interactions_accounted demo_state). apply schedule_reachable.
Defined.

Lemma replies_given_by_user_witness :
  sent (world demo_state) = [0%nat]
  /\ given_by_user (history demo_state) (channels (world demo_state)) 0
       (RApproval (AllowSession (str "Bash(ls:*)"))).
Proof.
  split; [vm_compute; reflexivity|].
  destruct (replies_given_by_user demo_state ltac:(apply schedule_reachable)) as [_ H].
  apply H. vm_compute. left. reflexivity.
Defined.

Lemma rules_granted_before_reply_witness :
  contains_rule (session (policy (world demo_state))) (the_rule (str "Bash(ls:*)")) = true.
Proof.
  apply (rules_granted_before_reply demo_state 0 (AllowSession (str "Bash(ls:*)")) (str "Bash(ls:*)")).
  - apply schedule_reachable.
  - vm_compute. left. reflexivity.
  - reflexivity.
  - vm_compute. reflexivity.
Defined.

Lemma serial_operations_settle_witness :
  pending (run_op all_ok OpWithdrawAll (run_op all_ok (OpAsk (str "q") (str "main") []) (new_world demo MDefault)))
  = mkPending [] [] [].
Proof.
  refine (proj1 (proj2 (proj2 (serial_operations_settle all_ok OpWithdrawAll
    (run_op all_ok (OpAsk (str "q") (str "main") []) (new_world demo MDefault)) [] [] _)) eq_refl)).
  split; vm_compute; reflexivity.
Defined.

(** * A batch *)

Definition demo_tool : Tool :=
  mkTool (str "Bash") (JObject [(str "command", [])]) (fun _ => false) (fun _ => false)
    (fun v => AExecute match flat_get v (str "command") with Some (JText t) => t | _ => [] end)
    (fun _ => str "Bash") (fun _ => None).

Definition demo_run : RunContext :=
  mkRunContext demo MDefault (str "main") (components (str "/work/app")) None demo_config [] None []
    (fun _ _ => mkHookOutcome None None [] None None) (fun _ => []) (fun c => call c).

Definition demo_env : Env :=
  mkEnv (fun _ => false) (fun _ => false) false false (fun _ => Some AllowOnce)
    (fun _ => mkCallEnd (Ok (mkToolOutput [PartText (str "ok")] [] false no_effects)) false [] (fun c => c))
    (fun _ => 0%N) (fun _ => None) (fun _ => None).

Definition demo_calls : list ToolCall :=
  [mkToolCall (str "c0") (str "Bash") (JObject [(str "command", str "rm x")]);
   mkToolCall (str "c1") (str "Bash") (JObject [(str "command", str "git push origin")])].

Definition no_call : ToolCall := mkToolCall [] [] (JText []).

Lemma calls_run_only_if_permitted_witness :
  flat_map act_ran (batch_acts (fst (run_batch (fun _ => demo_run) demo_env [demo_tool] demo_calls [] []))) = [1%nat]
  /\ exists t final h,
       passed_gate demo_run [demo_tool] [] (nth 1 demo_calls no_call) t final h
       /\ is_deny (scope_decide demo_run (tool_name t) (tool_action t (call_input final))) = false.
Proof.
  split; [vm_compute; reflexivity|].
  destruct (calls_run_only_if_permitted (fun _ => demo_run) demo_env [demo_tool] demo_calls [] [] 1
              (nth 1 demo_calls no_call)) as (t & final & h & Ha & Hd & _).
  - vm_compute. left. reflexivity.
  - reflexivity.
  - exists t, final, h. split; [exact Ha|exact Hd].
Defined.

(** * A history *)

Definition demo_round (i out : text) : list Message :=
  [mkMessage (str "m") Assistant [BToolUse i (str "Bash") (JObject [(str "command", str "ls")])] 0;
   mkMessage (str "m") User [BToolResult i [PartText out] false] 0].

Definition demo_history : list Message :=
  mkMessage (str "u1") User [BText (str "list the files")] 0
  :: demo_round (str "c1") (str "a long listing") ++ demo_round (str "c2") (str "another listing")
  ++ [mkMessage (str "a") Assistant [BText (str "done")] 0;
      mkMessage (str "u2") User [BText (str "now the tests")] 0].

Definition demo_mark (t : ClearTarget) (original : text) : text := str "[cleared]".

Lemma microcompact_clears_witness :
  length (plan_microcompact demo_history 1 3) = 1%nat
  /\ plan_microcompact
       (fst (apply_microcompact demo_history (plan_microcompact demo_history 1 3) demo_mark)) 1 3 = [].
Proof.
  split; [vm_compute; reflexivity|].
  exact (proj2 (proj2 (proj2 (microcompact_clears demo_history 1 3 demo_mark (fun _ _ => eq_refl))))).
Defined.

Lemma demo_history_ok : provider_ok demo_history.
Proof.
  apply accepted_provider_ok. split; [split|].
  - repeat constructor; discriminate.
  - cbn; repeat split; discriminate.
  - vm_compute; repeat split.
Qed.

Lemma compaction_keeps_shape_witness :
  plan_summary demo_history 2 = Some 5%nat
  /\ provider_ok (merge_adjacent_roles
       (apply_summary demo_history 5 (summary_message (str "s", 0%N) (str "listed files")))).
Proof.
  split; [vm_compute; reflexivity|].
  refine (proj1 (compaction_keeps_shape demo_history (task_view_index (str "i", 0%N) []) demo_history_ok _ _)
            2%nat 5%nat _ _ _); vm_compute; reflexivity.
Defined.
