(* ===== verification/Verify.v ===== *)
(** Checks and the verdict on a turn ([z-engine-verify/src], files [spec.rs],
    [select.rs], [assess.rs], [narrow.rs], [discovery/types.rs],
    [discovery/merge.rs] and [discovery/scripts.rs]): what a check is, which
    checks a change selects, which of them it may skip, and what the records of
    checks prove. *)

From Stdlib Require Import String.
From S2P Require Export Records.

(** * [spec.rs] and [discovery/types.rs] *)

Definition DEFAULT_CHECK_TIMEOUT_SECS : N := 600.

Inductive CheckSource := Discovered (manifest : text) | Configured.

Record CheckSpec := mkCheckSpec {
  spec_id : text;
  spec_label : text;
  spec_kind : CheckKind;
  spec_command : text;
  spec_cwd : path;
  spec_source : CheckSource;
  timeout_secs : N
}.

Record ConfiguredCheck := mkConfiguredCheck {
  configured_id : text;
  configured_label : text;
  configured_command : text;
  configured_kind : CheckKind;
  configured_cwd : option text;
  configured_timeout : N
}.

Record ProjectRoot := mkProjectRoot { root_path : text; ecosystem : text; root_manifest : text }.

Record ProjectProfile := mkProjectProfile {
  roots : list ProjectRoot;
  profile_checks : list CheckSpec;
  notes : list text
}.

Definition is_text (t : text) (s : string) : bool := teqb t (str s).

(** [CheckKind::parse] *)
Definition parse_kind (value : text) : option CheckKind :=
  let v := to_ascii_lowercase (trim value) in
  if is_text v "test" || is_text v "tests" then Some KTest
  else if is_text v "build" || is_text v "compile" then Some KBuild
  else if is_text v "lint" then Some KLint
  else if is_text v "typecheck" || is_text v "types" || is_text v "check" then Some KTypecheck
  else if is_text v "format" || is_text v "fmt" then Some KFormat
  else if is_text v "custom" then Some KCustom
  else None.

(** [text.rsplit_once(c)] *)
Definition rsplit_once (c : char) (t : text) : option (text * text) :=
  if contains_char c t then
    let after := after_last c t in Some (take (length t - length after - 1) t, after)
  else None.

(** * [select.rs] *)

(** The id of a check without its root. *)
Definition local_id (c : CheckSpec) : text :=
  match rsplit_once (chr "/") (spec_id c) with Some (_, local) => local | None => spec_id c end.

Definition matches_selector (c : CheckSpec) (selector : text) : bool :=
  let selector := trim selector in
  negb (is_empty selector)
  && (teqb (spec_id c) selector
      || match rsplit_once (chr "/") (spec_id c) with Some (_, local) => teqb local selector | None => false end
      || match strip_prefix (str "custom:") (spec_id c) with Some own => teqb own selector | None => false end
      || bool_decide (parse_kind selector = Some (spec_kind c))).

(** Keeps the first check of each id. *)
Fixpoint first_of_each (seen : list text) (cs : list CheckSpec) : list CheckSpec :=
  match cs with
  | [] => []
  | c :: cs => if mem (spec_id c) seen then first_of_each seen cs else c :: first_of_each (spec_id c :: seen) cs
  end.

Definition relative_step (parts : option (list text)) (c : component) : option (list text) :=
  match parts with
  | None => None
  | Some parts =>
      match c with
      | CurDir => Some parts
      | Normal part => Some (parts ++ [part])
      | ParentDir => match parts with [] => None | _ => Some (removelast parts) end
      | RootDir => None
      end
  end.

Definition relative_parts (p : path) : option (list text) := foldl relative_step (Some []) p.

(** [path.starts_with(root)] on slices. *)
Definition parts_start_with (p root : list text) : bool := bool_decide (root `prefix_of` p).

(** The longest of the roots that hold a path; [max_by_key] keeps the last of
    equal ones, and roots that hold the same path at the same length are
    equal. *)
Definition deepest_step (best : option (list text)) (root : list text) : option (list text) :=
  match best with
  | Some b => if Nat.leb (length b) (length root) then Some root else best
  | None => Some root
  end.

Definition deepest_root (rs : list (list text)) (p : list text) : option (list text) :=
  foldl deepest_step None (List.filter (parts_start_with p) rs).

Definition scope_checks (cs : list CheckSpec) (changed : list path) : list CheckSpec :=
  let dirs := map (fun c => relative_parts (spec_cwd c)) cs in
  let rs := remove_dups (omap (fun d => d) dirs) in
  if is_empty changed || Nat.ltb (length rs) 2 then cs
  else
    let preferred := omap (deepest_root rs) (omap relative_parts changed) in
    let scoped :=
      List.filter (fun c => match relative_parts (spec_cwd c) with
                            | Some d => bool_decide (d ∈ preferred)
                            | None => false
                            end) cs in
    if is_empty scoped then cs else scoped.

Definition select_checks (profile : ProjectProfile) (selectors : list text) (changed : list path) : list CheckSpec :=
  let matching :=
    first_of_each []
      (List.filter (fun c => is_empty selectors || existsb (matches_selector c) selectors) (profile_checks profile)) in
  scope_checks matching changed.

(** * [assess.rs] *)

Definition MAX_NAMED_FAILURES : nat := 3.

Definition since_change (at_ : option N) (r : CheckRecord) : bool :=
  match at_ with None => true | Some at_ => (at_ <=? check_started_at r)%N end.

Fixpoint put_latest (l : list CheckRecord) (r : CheckRecord) : list CheckRecord :=
  match l with
  | [] => [r]
  | s :: l =>
      if teqb (check_id s) (check_id r) then
        if (check_started_at s <=? check_started_at r)%N then r :: l else s :: l
      else s :: put_latest l r
  end.

Definition latest_per_check (rs : list CheckRecord) : list CheckRecord := foldl put_latest [] rs.

Definition record_name (r : CheckRecord) : text :=
  if is_empty (trim (check_label r)) then check_id r else check_label r.

(** The tests a record counted as failed, if any. *)
Definition failed_tests (r : CheckRecord) : option N :=
  match test_counts r with
  | Some t => if (0 <? tests_failed t)%N then Some (tests_failed t) else None
  | None => None
  end.

Definition record_detail (r : CheckRecord) : text :=
  (if timed_out r then str "timed out"
   else match exit_code r with Some code => str "exit " ++ show_Z code | None => str "killed" end)
  ++ match failed_tests r with
     | Some n => str ", " ++ show_N n ++ (if (n =? 1)%N then str " test failed" else str " tests failed")
     | None => []
     end.

Definition failure_reason (failing : list CheckRecord) : text :=
  let parts := map (fun r => record_name r ++ str " failed (" ++ record_detail r ++ str ")")
                 (take MAX_NAMED_FAILURES failing) in
  join (str "; ")
    (if Nat.ltb MAX_NAMED_FAILURES (length failing)
     then parts ++ [show_N (N.of_nat (length failing - MAX_NAMED_FAILURES)) ++ str " more failed"]
     else parts).

(** The kinds that count as evidence. *)
Definition proves_kind (k : CheckKind) : bool :=
  match k with KTest | KBuild | KTypecheck => true | KLint | KFormat | KCustom => false end.

Definition is_fresh (now : option text) (r : CheckRecord) : bool :=
  match now with None => true | Some now => teqb (fingerprint_after r) now end.

Definition assess (rs : list CheckRecord) (mutated : bool) (last_mutation_at : option N)
    (current_fingerprint : option text) : VerificationOutcome :=
  if negb mutated then NotApplicable
  else
    let latest := latest_per_check (List.filter (since_change last_mutation_at) rs) in
    if is_empty latest then Unverified (str "no checks have run since the last change")
    else
      let failing := List.filter (fun r => negb (passed r)) latest in
      if negb (is_empty failing) then VerificationFailed (failure_reason failing)
      else
        let fresh := List.filter (is_fresh current_fingerprint) latest in
        if is_empty fresh then Unverified (str "checks are stale: files changed after they ran")
        else if negb (existsb (fun r => proves_kind (check_kind r)) fresh)
        then Unverified (str "only lint/format checks ran; run tests or a build")
        else Verified (map record_id fresh).

(** * [narrow.rs] *)

Definition TEST_DIRS : list text := map str ["test"; "tests"; "__tests__"; "spec"; "specs"; "testdata"]%string.
Definition NODE : list text :=
  map str ["js"; "jsx"; "mjs"; "cjs"; "ts"; "tsx"; "mts"; "cts"; "svelte"; "vue"; "astro"; "json";
           "jsonc"; "css"; "scss"; "html"]%string.
Definition PYTHON : list text := map str ["py"; "pyi"; "toml"; "cfg"; "ini"]%string.
Definition JVM : list text :=
  map str ["java"; "kt"; "kts"; "groovy"; "scala"; "gradle"; "xml"; "properties"]%string.
Definition DOTNET : list text :=
  map str ["cs"; "fs"; "vb"; "csproj"; "fsproj"; "vbproj"; "sln"; "props"; "targets"]%string.
Definition NATIVE : list text := map str ["c"; "h"; "cc"; "cpp"; "cxx"; "hh"; "hpp"; "cmake"]%string.

(** [Path::file_name] *)
Definition file_name (p : path) : option text := match last p with Some (Normal n) => Some n | _ => None end.

(** What [Path::file_stem] and [Path::extension] split a name into: a leading
    dot does not count. *)
Definition stem_and_extension (n : text) : text * option text :=
  match rsplit_once (chr ".") n with
  | Some (before, after) => if is_empty before then (n, None) else (before, Some after)
  | None => (n, None)
  end.

(** [Path::parent]'s components. *)
Definition parent_components (p : path) : path := match p with [RootDir] => [] | _ => removelast p end.

Definition is_test_path (p : path) : bool :=
  let in_test_dir :=
    existsb (fun c => mem (to_ascii_lowercase (component_text c)) TEST_DIRS) (parent_components p) in
  match file_name p with
  | None => in_test_dir
  | Some n =>
      let stem := fst (stem_and_extension n) in
      let lower := to_ascii_lowercase n in
      in_test_dir
      || starts_with (str "test_") lower || contains_str (str ".test.") lower || contains_str (str ".spec.") lower
      || teqb lower (str "conftest.py")
      || ends_with (str "_test") stem || ends_with (str "_tests") stem
      || ends_with (str "Test") stem || ends_with (str "Tests") stem
  end.

Definition touches_tests (changed : list path) : bool := existsb is_test_path changed.

Definition owned_by (tool : text) (p : path) : bool :=
  let n := default [] (file_name p) in
  let ext := to_ascii_lowercase (default [] (snd (stem_and_extension n))) in
  if is_text tool "cargo" then
    teqb ext (str "rs") || starts_with (str "Cargo.") n || starts_with (str "rust-toolchain") n
  else if is_text tool "npm" || is_text tool "pnpm" || is_text tool "yarn" || is_text tool "bun" || is_text tool "deno" then
    mem ext NODE || ends_with (str ".lock") n
  else if is_text tool "go" then teqb ext (str "go") || teqb n (str "go.mod") || teqb n (str "go.sum")
  else if is_text tool "python" then mem ext PYTHON || starts_with (str "requirements") n
  else if is_text tool "gradle" || is_text tool "maven" then mem ext JVM
  else if is_text tool "dotnet" then mem ext DOTNET
  else if is_text tool "cmake" then mem ext NATIVE || teqb n (str "CMakeLists.txt")
  else false.

Definition owns_change (c : CheckSpec) (changed : list path) : bool :=
  let local := local_id c in
  let tool := match split_once (str ":") local with Some (tool, _) => tool | None => local end in
  existsb (owned_by tool) changed.

Definition proves (c : CheckSpec) : bool := proves_kind (spec_kind c).

Definition skip_checks (selected : list CheckSpec) (skip : list text) (strict : bool) : list CheckSpec :=
  if is_empty skip then selected
  else
    let kept := List.filter (fun c => negb (mem (spec_id c) skip)) selected in
    if negb strict || existsb proves kept then kept
    else List.filter (fun c => negb (mem (spec_id c) skip) || proves c) selected.

(** * [discovery/merge.rs] *)

(** [normalize] of [z-engine-host/src/fs/paths.rs]: an empty result is [.]. *)
Definition host_normalize (p : path) : path :=
  match normalize p with [] => [CurDir] | q => q end.

Definition project_relative (cwd : option text) (root : path) : path :=
  match cwd with
  | None => [CurDir]
  | Some cwd =>
      let cwd := trim cwd in
      if is_empty cwd then [CurDir]
      else
        let p := host_normalize (components cwd) in
        let relative :=
          if is_absolute p then path_strip_prefix (host_normalize root) p else Some p in
        match relative with
        | None => p
        | Some q => if forallb (component_eqb CurDir) q then [CurDir] else q
        end
  end.

(** The check of the same id is replaced in place, else the check is added. *)
Fixpoint put_check (c : CheckSpec) (cs : list CheckSpec) : list CheckSpec :=
  match cs with
  | [] => [c]
  | d :: cs => if teqb (spec_id d) (spec_id c) then c :: cs else d :: put_check c cs
  end.

Definition BACKTICK : char := 96.

(** [is_dir] says whether the directory of a check exists. *)
Definition merge_step (is_dir : path -> bool) (root : path) (profile : ProjectProfile) (check : ConfiguredCheck)
  : ProjectProfile :=
  let raw_id := trim (configured_id check) in
  let command := trim (configured_command check) in
  if is_empty raw_id || is_empty command then
    mkProjectProfile (roots profile) (profile_checks profile)
      (notes profile ++ [str "configured check " ++ [BACKTICK] ++ raw_id ++ [BACKTICK]
                         ++ str " was ignored: it needs an id and a command"])
  else
    let id_ := if contains_char (chr ":") raw_id then raw_id else str "custom:" ++ raw_id in
    let cwd := project_relative (configured_cwd check) root in
    let missing :=
      if is_dir cwd then []
      else [str "configured check " ++ [BACKTICK] ++ id_ ++ [BACKTICK] ++ str ": directory " ++ [BACKTICK]
            ++ display cwd ++ [BACKTICK] ++ str " does not exist"] in
    let label := trim (configured_label check) in
    let spec :=
      mkCheckSpec id_ (if is_empty label then command else label) (configured_kind check) command cwd Configured
        (if (configured_timeout check =? 0)%N then DEFAULT_CHECK_TIMEOUT_SECS else configured_timeout check) in
    mkProjectProfile (roots profile) (put_check spec (profile_checks profile)) (notes profile ++ missing).

Definition merge_configured (is_dir : path -> bool) (root : path) (profile : ProjectProfile)
    (configured : list ConfiguredCheck) : ProjectProfile :=
  foldl (merge_step is_dir root) profile configured.

(** * [discovery/scripts.rs] *)

Definition CANDIDATES : list (text * CheckKind) :=
  [(str "test", KTest); (str "build", KBuild); (str "typecheck", KTypecheck); (str "type-check", KTypecheck);
   (str "tsc", KTypecheck); (str "check", KTypecheck); (str "lint", KLint); (str "format:check", KFormat);
   (str "fmt:check", KFormat); (str "prettier:check", KFormat); (str "format", KFormat); (str "fmt", KFormat);
   (str "prettier", KFormat)].

Definition REPORT_FLAGS : list text :=
  map str ["--check"; "-c"; "--list-different"; "-l"; "--dry-run"; "--diff"; "check"]%string.

Definition unusable (name : text) (kind : CheckKind) (body : text) : option text :=
  let body := trim body in
  if is_empty body then Some (str "it is empty")
  else if contains_str (str "no test specified") body then Some (str "it is the npm placeholder")
  else
    let words := split_whitespace body in
    if existsb (fun w => teqb w (str "watch") || teqb w (str "-w")
                         || (starts_with (str "--watch") w && negb (ends_with (str "=false") w))) words
    then Some (str "it watches for changes and never finishes")
    else if existsb (fun w => starts_with (str "--write") w || starts_with (str "--fix") w) words
    then Some (str "it rewrites files")
    else if bool_decide (kind = KFormat)
            && negb (ends_with (str "check") name || existsb (fun w => mem w REPORT_FLAGS) words)
    then Some (str "it may rewrite files; add a " ++ [BACKTICK] ++ str "format:check" ++ [BACKTICK] ++ str " script")
    else None.
