(* ===== verification/VerifyFacts.v ===== *)
(** Facts about checks and verdicts: which records count, what a badge proves,
    which checks a change selects and which may be skipped. *)

From stdpp Require Import sets.
From S2P Require Export Verify.

(** * The latest record of each check *)

(** The record at [i] is the newest of its check; of records started at the
    same time, the later one. *)
Definition newest_at (rs : list CheckRecord) (i : nat) (r : CheckRecord) : Prop :=
  rs !! i = Some r /\
  forall j r', rs !! j = Some r' -> check_id r' = check_id r ->
    (check_started_at r' < check_started_at r)%N \/ (check_started_at r' = check_started_at r /\ (j <= i)%nat).

Definition newest (rs : list CheckRecord) (r : CheckRecord) : Prop := exists i, newest_at rs i r.

Lemma lookup_snoc_cases {A} (l : list A) x i y :
  (l ++ [x]) !! i = Some y <-> l !! i = Some y \/ (i = length l /\ y = x).
Proof.
  split.
  - intros [H|[? H]]%lookup_app_Some; [by left|right]. apply list_lookup_singleton_Some in H as [? ->]. split; [lia|done].
  - intros [H|[-> ->]]; [by apply lookup_app_l_Some|]. rewrite lookup_app_r by done. by rewrite Nat.sub_diag.
Qed.

Lemma newest_bound rs r s :
  newest rs r -> s ∈ rs -> check_id s = check_id r -> (check_started_at s <= check_started_at r)%N.
Proof. intros (i & _ & H) (j & Hj)%list_elem_of_lookup E. destruct (H j s Hj E); lia. Qed.

Lemma newest_in rs r : newest rs r -> r ∈ rs.
Proof. intros (i & H & _). by eapply list_elem_of_lookup_2. Qed.

Lemma newest_last rs x :
  (forall s, s ∈ rs -> check_id s = check_id x -> (check_started_at s <= check_started_at x)%N) -> newest (rs ++ [x]) x.
Proof.
  intros H. exists (length rs). split; [apply lookup_snoc_cases; by right|].
  intros j s [Hs|[-> ->]]%lookup_snoc_cases E; [|lia]. pose proof (lookup_lt_Some _ _ _ Hs).
  apply list_elem_of_lookup_2 in Hs. specialize (H s Hs E). lia.
Qed.

Lemma newest_snoc rs x r :
  newest (rs ++ [x]) r <->
  (newest rs r /\ (check_id x = check_id r -> (check_started_at x < check_started_at r)%N))
  \/ (r = x /\ forall s, s ∈ rs -> check_id s = check_id x -> (check_started_at s <= check_started_at x)%N).
Proof.
  split.
  - intros (i & [Hi|[-> ->]]%lookup_snoc_cases & H).
    + left. split.
      * exists i. split; [done|]. intros j s Hj. apply H. apply lookup_snoc_cases. by left.
      * intros E. pose proof (lookup_lt_Some _ _ _ Hi).
        destruct (H (length rs) x) as [?|[_ ?]]; [apply lookup_snoc_cases; by right|done|done|lia].
    + right. split; [done|]. intros s (j & Hj)%list_elem_of_lookup E.
      destruct (H j s) as [?|[? _]]; [apply lookup_snoc_cases; by left|done|lia|lia].
  - intros [[(i & Hi & H) Hx]|[-> H]]; [|by apply newest_last].
    exists i. split; [apply lookup_snoc_cases; by left|].
    intros j s [Hj|[-> ->]]%lookup_snoc_cases E; [by apply H|]. left. auto.
Qed.

(** Every record is outlived by the newest of its check. *)
Lemma newest_exists rs s :
  s ∈ rs -> exists r, newest rs r /\ check_id r = check_id s /\ (check_started_at s <= check_started_at r)%N.
Proof.
  revert s. induction rs as [|x rs IH] using rev_ind; intros s; [by intros ?%not_elem_of_nil|].
  assert (Hn : forall n, newest rs n -> check_id x = check_id n ->
    exists r, newest (rs ++ [x]) r /\ check_id r = check_id n /\ (check_started_at n <= check_started_at r)%N
              /\ (check_started_at x <= check_started_at r)%N).
  { intros n Hn E. destruct (N.lt_ge_cases (check_started_at x) (check_started_at n)) as [Hlt|Hge].
    - exists n. split_and!; [apply newest_snoc; auto|done|lia|lia].
    - exists x. split_and!; [|done|done|lia]. apply newest_snoc. right. split; [done|]. intros s' Hs E'.
      pose proof (newest_bound rs n s' Hn Hs). rewrite E', E in *. intuition lia. }
  intros [Hs| ->%list_elem_of_singleton]%elem_of_app.
  - destruct (IH s Hs) as (n & Hnew & E & Hle). destruct (base.decide (check_id x = check_id n)) as [Ex|Ex].
    + destruct (Hn n Hnew Ex) as (r & ? & ? & ? & _). exists r. split_and!; [done|congruence|lia].
    + exists n. split_and!; [apply newest_snoc; left|done|done]. by split.
  - destruct (base.decide (Exists (fun r => check_id r = check_id x) rs)) as [He|He].
    + apply Exists_exists in He as (s' & Hs' & E'). destruct (IH s' Hs') as (n & Hnew & E & _).
      destruct (Hn n Hnew) as (r & ? & ? & _ & ?); [congruence|]. exists r. split_and!; [done|congruence|done].
    + exists x. split_and!; [|done|done]. apply newest_snoc. right. split; [done|]. intros s' Hs' E'.
      exfalso. apply He, Exists_exists. eauto.
Qed.

Lemma put_latest_spec l x r :
  NoDup (map check_id l) ->
  r ∈ put_latest l x <->
  (r ∈ l /\ (check_id x = check_id r -> (check_started_at x < check_started_at r)%N))
  \/ (r = x /\ forall s, s ∈ l -> check_id s = check_id x -> (check_started_at s <= check_started_at x)%N).
Proof.
  induction l as [|y l IH]; cbn [put_latest map]; intros Hnd.
  - rewrite list_elem_of_singleton. split; [intros ->; right; split; [done|by intros ? ?%not_elem_of_nil]|].
    intros [[?%not_elem_of_nil _]|[-> _]]; done.
  - apply NoDup_cons in Hnd as [Hy Hnd]. specialize (IH Hnd).
    assert (Hother : forall s, s ∈ l -> check_id s <> check_id y).
    { intros s Hs E. apply Hy. rewrite <- E. by apply list_elem_of_fmap_2. }
    destruct (teqb (check_id y) (check_id x)) eqn:E; (apply teqb_eq in E || apply teqb_neq in E).
    + destruct (N.leb_spec (check_started_at y) (check_started_at x)) as [Hle|Hlt]; rewrite elem_of_cons; setoid_rewrite elem_of_cons.
      * split.
        -- intros [->|Hr]; [right|left].
           ++ split; [done|]. intros s [->|Hs] Es; [done|]. destruct (Hother s Hs). congruence.
           ++ split; [by right|]. intros Ex. destruct (Hother r Hr). congruence.
        -- intros [[[->|Hr] Hx]|[-> _]]; [|by right|by left]. specialize (Hx (eq_sym E)). lia.
      * split.
        -- intros [->|Hr]; left; (split; [auto|]); intros Ex; [lia|]. destruct (Hother r Hr). congruence.
        -- intros [[[->|Hr] _]|[-> Hx]]; [by left|by right|]. specialize (Hx y (or_introl eq_refl) E). lia.
    + rewrite elem_of_cons, IH. setoid_rewrite elem_of_cons. split.
      * intros [->|[[Hr Hx]|[-> Hx]]]; [left|left|right].
        -- split; [by left|]. congruence.
        -- split; [by right|done].
        -- split; [done|]. intros s [->|Hs] Es; [congruence|auto].
      * intros [[[->|Hr] Hx]|[-> Hx]]; [by left|right; left; by split|right; right].
        split; [done|]. intros s Hs. apply Hx. by right.
Qed.

Lemma put_latest_ids l x :
  NoDup (map check_id l) -> NoDup (map check_id (put_latest l x))
  /\ forall i, i ∈ map check_id (put_latest l x) <-> i ∈ map check_id l \/ i = check_id x.
Proof.
  induction l as [|y l IH]; cbn [put_latest map]; intros Hnd.
  - split; [apply NoDup_singleton|]. intros i. rewrite list_elem_of_singleton. split; [by right|]. by intros [?%not_elem_of_nil|?].
  - apply NoDup_cons in Hnd as [Hy Hnd]. destruct (IH Hnd) as [IHn IHi].
    destruct (teqb (check_id y) (check_id x)) eqn:E; (apply teqb_eq in E || apply teqb_neq in E).
    + destruct (_ <=? _)%N; cbn [map]; rewrite <- ?E; (split; [by constructor|]); intros i; rewrite !elem_of_cons; tauto.
    + cbn [map]. split; [|intros i; rewrite !elem_of_cons, IHi; tauto]. constructor; [|done]. rewrite IHi. tauto.
Qed.

(** [latest_per_check] gives the newest record of each check. *)
Lemma latest_newest rs :
  NoDup (map check_id (latest_per_check rs)) /\ forall r, r ∈ latest_per_check rs <-> newest rs r.
Proof.
  induction rs as [|x rs [IHn IH]] using rev_ind.
  - split; [constructor|]. intros r. split; [by intros ?%not_elem_of_nil|]. by intros (i & ? & _).
  - unfold latest_per_check in *. rewrite foldl_app. cbn [foldl]. split; [by apply put_latest_ids|].
    intros r. rewrite put_latest_spec by done. rewrite newest_snoc. setoid_rewrite IH.
    split; (intros [?|[-> H]]; [by left|right]); (split; [done|]); intros s Hs E.
    + destruct (newest_exists rs s Hs) as (n & Hn & En & ?). specialize (H n Hn). rewrite En in H. specialize (H E). lia.
    + apply H; [by apply newest_in|done].
Qed.

(** * Verdicts *)

Lemma empty_spec {A} (l : list A) : is_empty l = true <-> l = [].
Proof. by destruct l. Qed.

Lemma filter_in {A} (f : A -> bool) l x : x ∈ List.filter f l <-> x ∈ l /\ f x = true.
Proof. by rewrite !list_elem_of_In, filter_In. Qed.

Lemma filter_sublist {A} (f : A -> bool) l : List.filter f l `sublist_of` l.
Proof. induction l as [|x l IH]; cbn; [done|]. destruct (f x); by constructor. Qed.

Lemma filter_none {A} (f : A -> bool) l : is_empty (List.filter f l) = true -> forall x, x ∈ l -> f x = false.
Proof.
  intros H%empty_spec x Hx. destruct (f x) eqn:E; [|done]. exfalso.
  assert (Hin : x ∈ List.filter f l) by (by apply filter_in). rewrite H in Hin. by apply not_elem_of_nil in Hin.
Qed.

Lemma filter_some {A} (f : A -> bool) l : is_empty (List.filter f l) = false -> exists x, x ∈ l /\ f x = true.
Proof.
  intros H. destruct (List.filter f l) as [|x k] eqn:E; [done|]. exists x. apply filter_in. rewrite E. by left.
Qed.

(** C10: what a badge proves.  With the records started since the last change
    as evidence, and of each check its newest record: a turn is not applicable
    exactly if it changed nothing; [Failed] if some check's newest record
    failed; [Verified] if every newest record passed and a test, build or
    typecheck ran on the workspace as it is now, and then the badge names
    exactly the records that did; and unverified otherwise. *)
Theorem assess_exact (rs : list CheckRecord) (mutated : bool) (at_ : option N) (now : option text) :
  let evidence := List.filter (since_change at_) rs in
  let fresh r := newest evidence r /\ is_fresh now r = true in
  let all_passed := forall r, newest evidence r -> passed r = true in
  match assess rs mutated at_ now with
  | NotApplicable => mutated = false
  | VerificationFailed _ => mutated = true /\ exists r, newest evidence r /\ passed r = false
  | Verified cs =>
      mutated = true /\ all_passed /\ (exists r, fresh r /\ proves_kind (check_kind r) = true)
      /\ forall c, c ∈ cs <-> exists r, fresh r /\ record_id r = c
  | Unverified _ => mutated = true /\ all_passed /\ forall r, fresh r -> proves_kind (check_kind r) = false
  end.
Proof.
  intros evidence fresh all_passed. unfold assess. fold evidence. destruct mutated; [|done]. cbn [negb].
  destruct (latest_newest evidence) as [_ Hl]. set (latest := latest_per_check evidence) in *.
  destruct (is_empty latest) eqn:En.
  { apply empty_spec in En. rewrite En in Hl. split_and!; [done| |].
    - intros r Hr. by apply Hl, not_elem_of_nil in Hr.
    - intros r [Hr _]. by apply Hl, not_elem_of_nil in Hr. }
  destruct (is_empty (List.filter (fun r => negb (passed r)) latest)) eqn:Ef; cbn [negb]; cycle 1.
  { apply filter_some in Ef as (r & Hr%Hl & Hp). split; [done|]. exists r. split; [done|]. by destruct (passed r). }
  assert (Hall : all_passed).
  { intros r Hr%Hl. pose proof (filter_none _ _ Ef r Hr) as Hp. cbn in Hp. by destruct (passed r). }
  destruct (is_empty (List.filter (is_fresh now) latest)) eqn:Es.
  { split_and!; [done..|]. intros r [Hr%Hl Hf]. by rewrite (filter_none _ _ Es r Hr) in Hf. }
  destruct (existsb _ _) eqn:Ep; cbn [negb].
  - split_and!; [done..| |].
    + apply existsb_exists in Ep as (r & Hr & Hp). apply list_elem_of_In, filter_in in Hr as [Hr Hf].
      exists r. split; [|done]. split; [by apply Hl|done].
    + intros c. rewrite list_elem_of_fmap. setoid_rewrite filter_in. setoid_rewrite Hl. unfold fresh.
      split; [intros (r & -> & ? & ?)|intros (r & [? ?] & <-)]; eauto 6.
  - split_and!; [done..|]. intros r [Hr Hf]. apply (existsb_false_In _ _ _ Ep).
    apply list_elem_of_In, filter_in. by rewrite Hl.
Qed.

(** * Selecting checks *)

Definition wanted_check (selectors : list text) (c : CheckSpec) : bool :=
  is_empty selectors || existsb (matches_selector c) selectors.

(** The checks of a profile that match, each id once. *)
Definition matching (profile : ProjectProfile) (selectors : list text) : list CheckSpec :=
  first_of_each [] (List.filter (wanted_check selectors) (profile_checks profile)).

(** The root [d] of one of the checks is the deepest one that holds the path
    [p]. *)
Definition holds_path (cs : list CheckSpec) (d p : list text) : Prop :=
  d `prefix_of` p /\ forall c e, c ∈ cs -> relative_parts (spec_cwd c) = Some e -> e `prefix_of` p -> (length e <= length d)%nat.

(** A check whose root is the deepest one that holds a changed path. *)
Definition affected (cs : list CheckSpec) (changed : list path) (c : CheckSpec) : Prop :=
  exists d q p, relative_parts (spec_cwd c) = Some d /\ q ∈ changed /\ relative_parts q = Some p /\ holds_path cs d p.

Lemma first_of_each_spec seen cs :
  first_of_each seen cs `sublist_of` cs /\ NoDup (map spec_id (first_of_each seen cs))
  /\ (forall c, c ∈ first_of_each seen cs -> spec_id c ∉ seen)
  /\ (forall c, c ∈ cs -> spec_id c ∉ seen -> spec_id c ∈ map spec_id (first_of_each seen cs)).
Proof.
  revert seen. induction cs as [|c cs IH]; intros seen; cbn [first_of_each].
  { split_and!; [done|constructor|by intros ? ?%not_elem_of_nil|by intros ? ?%not_elem_of_nil]. }
  destruct (mem (spec_id c) seen) eqn:E.
  - destruct (IH seen) as (Hs & Hn & Ho & Hc). split_and!; [by constructor|done|done|].
    intros d [->|Hd]%elem_of_cons Hseen; [|auto]. rewrite mem_spec, <- list_elem_of_In in E. done.
  - destruct (IH (spec_id c :: seen)) as (Hs & Hn & Ho & Hc).
    assert (Hnew : spec_id c ∉ seen) by (rewrite list_elem_of_In, <- mem_spec; congruence).
    split_and!; [by constructor| | |].
    + constructor; [|done]. intros (d & Ed & Hd)%list_elem_of_fmap. apply (Ho d Hd). rewrite Ed. by left.
    + intros d [->|Hd]%elem_of_cons; [done|]. by apply Ho, not_elem_of_cons in Hd as [_ ?].
    + intros d [->|Hd]%elem_of_cons Hseen; [by left|]. destruct (base.decide (spec_id d = spec_id c)) as [->|Hne]; [by left|].
      right. apply Hc; [done|]. by apply not_elem_of_cons.
Qed.

Lemma deepest_loop rs b :
  match foldl deepest_step b rs with
  | None => b = None /\ rs = []
  | Some d => (b = Some d \/ d ∈ rs) /\ (forall e, e ∈ rs -> (length e <= length d)%nat)
              /\ (forall e, b = Some e -> (length e <= length d)%nat)
  end.
Proof.
  revert b. induction rs as [|r rs IH]; intros b; cbn [foldl].
  { destruct b; [|done]. split_and!; [by left|by intros ? ?%not_elem_of_nil|intros e [= ->]; lia]. }
  specialize (IH (deepest_step b r)). destruct (foldl _ _ rs) as [d|].
  - destruct IH as (Hin & Hle & Hb). unfold deepest_step in *.
    assert (Hr : (length r <= length d)%nat /\ (forall e, b = Some e -> (length e <= length d)%nat)).
    { destruct b as [e|]; [|split; [by apply Hb|done]]. destruct (Nat.leb_spec (length e) (length r)).
      - specialize (Hb r eq_refl). split; [done|]. intros ? [= <-]. lia.
      - specialize (Hb e eq_refl). split; [lia|]. by intros ? [= <-]. }
    split_and!; [|intros e [->|He]%elem_of_cons; [exact (proj1 Hr)|auto]|exact (proj2 Hr)].
    destruct Hin as [Hin|?]; [|right; by right]. destruct b as [e|]; [|injection Hin as ->; right; by left].
    destruct (Nat.leb _ _); [injection Hin as ->; right; by left|by left].
  - destruct IH as [IH _]. unfold deepest_step in IH. by destruct b; [destruct (Nat.leb _ _)|].
Qed.

Lemma prefix_same_length {A} (d e p : list A) : d `prefix_of` p -> e `prefix_of` p -> length d = length e -> d = e.
Proof. intros [k ->] [l E] H. apply app_inj_1 in E as [-> _]; done. Qed.

Lemma deepest_root_spec rs p d :
  deepest_root rs p = Some d <->
  d ∈ rs /\ d `prefix_of` p /\ forall e, e ∈ rs -> e `prefix_of` p -> (length e <= length d)%nat.
Proof.
  unfold deepest_root. pose proof (deepest_loop (List.filter (parts_start_with p) rs) None) as H.
  assert (Hin : forall e, e ∈ List.filter (parts_start_with p) rs <-> e ∈ rs /\ e `prefix_of` p).
  { intros e. rewrite filter_in. unfold parts_start_with. by rewrite bool_decide_eq_true. }
  destruct (foldl _ _ _) as [b|].
  - destruct H as ([|Hb%Hin] & Hle & _); [done|]. split.
    + intros [= ->]. split_and!; [apply Hb..|]. intros e ? ?. by apply Hle, Hin.
    + intros (Hd & Hp & Hmax). f_equal. eapply prefix_same_length; [apply Hb|apply Hp|].
      apply Nat.le_antisymm; [by apply Hmax; apply Hb|by apply Hle, Hin].
  - destruct H as [_ H]. rewrite H in Hin. split; [done|]. intros (? & ? & _).
    exfalso. by apply (not_elem_of_nil d), Hin.
Qed.

(** The roots of some checks. *)
Definition roots_of (cs : list CheckSpec) : list (list text) :=
  remove_dups (omap (fun d => d) (map (fun c => relative_parts (spec_cwd c)) cs)).

Lemma roots_of_spec cs d : d ∈ roots_of cs <-> exists c, c ∈ cs /\ relative_parts (spec_cwd c) = Some d.
Proof.
  unfold roots_of. rewrite elem_of_remove_dups, list_elem_of_omap. setoid_rewrite list_elem_of_fmap.
  split; [intros (? & (c & -> & Hc) & E)|intros (c & Hc & E)]; eauto.
Qed.

(** Two of the checks have different roots. *)
Definition several_roots (cs : list CheckSpec) : Prop :=
  exists d e, d ∈ roots_of cs /\ e ∈ roots_of cs /\ d <> e.

Lemma several_roots_spec cs : several_roots cs <-> Nat.ltb (length (roots_of cs)) 2 = false.
Proof.
  assert (Hn : NoDup (roots_of cs)) by apply NoDup_remove_dups. rewrite Nat.ltb_ge. unfold several_roots.
  destruct (roots_of cs) as [|d [|e rs]]; cbn.
  - split; [intros (? & ? & ?%not_elem_of_nil & _); done|lia].
  - split; [|lia]. intros (? & ? & ->%list_elem_of_singleton & ->%list_elem_of_singleton & ?). done.
  - split; [lia|]. intros _. exists d, e. split_and!; [by left|right; by left|].
    apply NoDup_cons in Hn as [Hd _]. intros ->. apply Hd. by left.
Qed.

(** The roots of changed paths are those of the affected checks. *)
Lemma preferred_spec cs changed c d :
  c ∈ cs -> relative_parts (spec_cwd c) = Some d ->
  d ∈ omap (deepest_root (roots_of cs)) (omap relative_parts changed) <-> affected cs changed c.
Proof.
  intros Hc Ed. rewrite list_elem_of_omap. setoid_rewrite list_elem_of_omap. setoid_rewrite deepest_root_spec.
  unfold affected, holds_path. split.
  - intros (p & (q & Hq & Ep) & Hd & Hp & Hmax). exists d, q, p. split_and!; [done..|].
    intros c' e Hc' Ee. apply Hmax, roots_of_spec. eauto.
  - intros (d' & q & p & E & Hq & Ep & Hp & Hmax). assert (d' = d) as -> by congruence.
    exists p. split; [by exists q|]. split_and!; [apply roots_of_spec; eauto|done|].
    intros e (c' & Hc' & Ee)%roots_of_spec. by eapply Hmax.
Qed.

(** The checks a change selects.  Candidates are the checks that match a
    selector, or all of them without selectors, in profile order and each id
    once.  If they lie in several roots and some root is the deepest one that
    holds a changed path, exactly the candidates of such roots are selected;
    otherwise all of them are. *)
Theorem select_checks_exact (profile : ProjectProfile) (selectors : list text) (changed : list path) :
  let candidates := matching profile selectors in
  let picked := select_checks profile selectors changed in
  candidates `sublist_of` List.filter (wanted_check selectors) (profile_checks profile)
  /\ NoDup (map spec_id candidates)
  /\ (forall c, c ∈ profile_checks profile -> wanted_check selectors c = true -> spec_id c ∈ map spec_id candidates)
  /\ picked `sublist_of` candidates
  /\ (several_roots candidates -> (exists c, c ∈ candidates /\ affected candidates changed c) ->
      forall c, c ∈ picked <-> c ∈ candidates /\ affected candidates changed c)
  /\ (~ (several_roots candidates /\ exists c, c ∈ candidates /\ affected candidates changed c) -> picked = candidates).
Proof.
  intros candidates picked. destruct (first_of_each_spec [] (List.filter (wanted_check selectors) (profile_checks profile)))
    as (Hs & Hn & _ & Hall). fold (matching profile selectors) in Hs, Hn, Hall. fold candidates in Hs, Hn, Hall.
  split_and!; [done|done|intros c Hc Hw; apply Hall; [by apply filter_in|by apply not_elem_of_nil]| | |];
    change picked with (scope_checks candidates changed); unfold scope_checks; fold (roots_of candidates);
    pose proof (several_roots_spec candidates) as Hr;
    set (test := fun c => match relative_parts (spec_cwd c) with Some d => _ | None => _ end);
    assert (Ht : forall c, c ∈ candidates -> test c = true <-> affected candidates changed c)
      by (intros c Hc; unfold test; destruct (relative_parts (spec_cwd c)) as [d|] eqn:Ed;
          [rewrite bool_decide_eq_true; by apply preferred_spec|];
          split; [done|]; intros (? & ? & ? & E & _); congruence).
  - destruct (_ || _); [done|]. destruct (is_empty (List.filter test candidates)); [done|]. apply filter_sublist.
  - intros Hseveral%Hr (c0 & Hc0 & Ha). rewrite Hseveral, orb_false_r.
    destruct (is_empty changed) eqn:Ec.
    { apply empty_spec in Ec as ->. destruct Ha as (? & ? & ? & _ & ?%not_elem_of_nil & _). done. }
    destruct (is_empty (List.filter test candidates)) eqn:Ef.
    { apply (Ht c0 Hc0) in Ha. by rewrite (filter_none _ _ Ef c0 Hc0) in Ha. }
    intros c. rewrite filter_in. split; intros [Hc H]; (split; [done|]); by apply (Ht c Hc).
  - intros Hno. destruct (_ || _) eqn:Eo; [done|]. apply orb_false_iff in Eo as [_ Eo]. apply Hr in Eo.
    destruct (is_empty (List.filter test candidates)) eqn:Ef; [done|]. exfalso. apply Hno. split; [done|].
    apply filter_some in Ef as (c & Hc & H). exists c. split; [done|]. by apply Ht.
Qed.

(** * Skipping checks *)

(** What narrowing keeps.  The kept checks are selected ones, in order;
    no check that was not to be skipped is lost; and in strict mode a check
    that proves something is kept if one was selected. *)
Theorem skip_checks_keeps (selected : list CheckSpec) (skip : list text) (strict : bool) :
  let kept := skip_checks selected skip strict in
  kept `sublist_of` selected
  /\ (forall c, c ∈ selected -> spec_id c ∉ skip -> c ∈ kept)
  /\ (forall c, c ∈ kept -> spec_id c ∈ skip -> strict = true /\ proves c = true)
  /\ (strict = true -> existsb proves selected = true -> existsb proves kept = true).
Proof.
  intros kept. unfold kept, skip_checks. assert (Hm : forall c, negb (mem (spec_id c) skip) = true <-> spec_id c ∉ skip).
  { intros c. rewrite list_elem_of_In, <- mem_spec. by destruct (mem _ _). }
  destruct (is_empty skip) eqn:Es.
  { apply empty_spec in Es as ->. split_and!; [done|done|by intros ? _ ?%not_elem_of_nil|done]. }
  destruct (negb strict || _) eqn:Ek.
  - split_and!; [apply filter_sublist| | |].
    + intros c Hc H. apply filter_in. by rewrite Hm.
    + intros c [_ H%Hm]%filter_in. done.
    + intros ->. done.
  - apply orb_false_iff in Ek as [->%negb_false_iff Ek]. split_and!; [apply filter_sublist| | |].
    + intros c Hc H%Hm. apply filter_in. by rewrite H.
    + intros c [_ H]%filter_in Hs. rewrite list_elem_of_In, <- mem_spec in Hs. by rewrite Hs in H.
    + intros _ (c & Hc & H)%existsb_exists. apply existsb_exists. exists c. split; [|done].
      apply filter_In. split; [done|]. rewrite H. apply orb_true_r.
Qed.
