(* ===== verification/FileTools.v ===== *)
(** Reading and writing files for the tools ([z-engine-host/src/fs], files
    [read.rs] and [tracker.rs], and [z-engine-tools/src], files
    [reading/text.rs], [edit/access.rs], [edit/flow.rs], [builtin/read.rs] and
    [builtin/write.rs]): bounded reads, the read-before-edit tracker, and the
    locked read-check-apply-write sequence, cut into the sections between
    which other calls and other programs run. *)

From Stdlib Require Import String SpecFloat.
From stdpp Require Import gmap list sets relations.
From S2P Require Export Edit Batch Verify.

#[export] Instance component_eq_dec : EqDecision component.
Proof. solve_decision. Defined.

#[export] Instance component_countable : Countable component.
Proof.
  refine (inj_countable' (fun c => match c with RootDir => (0%N, []) | CurDir => (1%N, []) | ParentDir => (2%N, []) | Normal n => (3%N, n) end)
    (fun '(k, n) => match k with 0%N => RootDir | 1%N => CurDir | 2%N => ParentDir | _ => Normal n end : component) _).
  by intros [].
Defined.

#[export] Instance path_eq_dec : EqDecision path := list_eq_dec.
#[export] Instance path_countable : Countable path := list_countable.

(** * [read.rs] *)

Record TextFile := mkTextFile { file_content : text; lossy : bool; truncated : bool; file_len : N }.

(** The start of a char whose other bytes are missing. *)
Definition incomplete (tail : list N) : bool :=
  match tail with
  | [b0] => in_range 194 244 b0
  | [b0; b1] => second_of_three b0 b1 || second_of_four b0 b1
  | [b0; b1; b2] => second_of_four b0 b1 && continuation b2
  | _ => false
  end.

(** [String::from_utf8] *)
Definition from_utf8 (bs : list N) : option text :=
  let t := from_utf8_lossy bs in if bool_decide (as_bytes t = bs) then Some t else None.

(** The text of bytes that end inside a char, without that char. *)
Definition cut_char (bs : list N) : option text :=
  find_map (fun k => if incomplete (drop (length bs - k) bs) then from_utf8 (take (length bs - k) bs) else None) [1; 2; 3].

Definition decode (bs : list N) (truncated : bool) : text * bool :=
  match from_utf8 bs with
  | Some t => (t, false)
  | None =>
      match (if truncated then cut_char bs else None) with
      | Some t => (t, false)
      | None => (from_utf8_lossy bs, true)
      end
  end.

(** [read_text] of a file's bytes. *)
Definition read_text (bs : list N) (max_bytes : N) : TextFile :=
  let truncated := (max_bytes <? N.of_nat (length bs))%N in
  let '(t, lossy) := decode (if truncated then take (N.to_nat max_bytes) bs else bs) truncated in
  mkTextFile t lossy truncated (N.of_nat (length bs)).

(** * [reading/text.rs] *)

Record Window := mkWindow { window_body : text; first_line : nat; last_line : nat; total_lines : nat }.

Definition summary (w : Window) : text :=
  if Nat.eqb (first_line w) 1 && Nat.eqb (last_line w) (total_lines w) then str "Read " ++ show_nat (total_lines w) ++ str " lines"
  else str "Read lines " ++ show_nat (first_line w) ++ str "-" ++ show_nat (last_line w) ++ str " of " ++ show_nat (total_lines w).

(** The numbered lines until one would exceed the budget; at least one line
    is shown. *)
Fixpoint window_loop (offset max_line_chars max_chars number : nat) (ls : list text) (body : text) (chars last : nat)
  : text * nat * bool :=
  match ls with
  | [] => (body, last, false)
  | line :: ls =>
      let entry := push_numbered number line max_line_chars in
      let chars := chars + length entry in
      if Nat.ltb max_chars chars && Nat.leb offset last then (body, last, true)
      else window_loop offset max_line_chars max_chars (number + 1) ls (body ++ entry) chars number
  end.

Definition read_window (content_ : text) (offset limit max_line_chars max_chars : nat) : result text Window :=
  let ls := lines content_ in
  let total := length ls in
  if Nat.ltb total offset then
    Err (str "offset " ++ show_nat offset ++ str " is past the end of the file, which has " ++ show_nat total ++ str " lines")
  else
    let '(body, last, budget_hit) :=
      window_loop offset max_line_chars max_chars offset (take limit (drop (offset - 1) ls)) [] 0 (offset - 1) in
    let note :=
      if budget_hit then
        [NEWLINE] ++ str "(Output limited to about " ++ show_nat max_chars ++ str " characters: showing lines "
        ++ show_nat offset ++ str "-" ++ show_nat last ++ str " of " ++ show_nat total ++ str ". Continue with offset="
        ++ show_nat (last + 1) ++ str ".)" ++ [NEWLINE]
      else if Nat.ltb last total then
        [NEWLINE] ++ str "(Showing lines " ++ show_nat offset ++ str "-" ++ show_nat last ++ str " of " ++ show_nat total
        ++ str ". Continue with offset=" ++ show_nat (last + 1) ++ str " to read more.)" ++ [NEWLINE]
      else [] in
    Ok (mkWindow (body ++ note) offset last total).

(** * [tracker.rs] *)

(** The third-party crate [sha2]. *)
Class Sha := { sha256 : list N -> list N }.

(** A file on disk; its time of change if the system gives one. *)
Record FileState := mkFileState { file_bytes : list N; file_mtime : option N }.

Record Stamp := mkStamp { stamp_len : N; stamp_mtime : option N; stamp_digest : list N }.

Inductive Freshness := NotRead | Modified.
Inductive Observed := Unchanged | Touched (now : Stamp) | Changed.

Section WithSha.
Context {H : Sha}.

Definition capture (f : FileState) : Stamp :=
  mkStamp (N.of_nat (length (file_bytes f))) (file_mtime f) (sha256 (file_bytes f)).

Definition metadata_matches (s : Stamp) (f : FileState) : bool :=
  (stamp_len s =? N.of_nat (length (file_bytes f)))%N && bool_decide (stamp_mtime s = file_mtime f).

Definition observe (s : Stamp) (f : option FileState) : Observed :=
  match f with
  | None => Changed
  | Some f =>
      if metadata_matches s f then Unchanged
      else if bool_decide (stamp_digest (capture f) = stamp_digest s) then Touched (capture f) else Changed
  end.

(** The stamps of one agent, by the identity of the paths. *)
Abbreviation FileTracker := (gmap path Stamp).

(** [None] when the file cannot be read. *)
Definition record_read (key : path) (f : option FileState) (t : FileTracker) : option FileTracker :=
  match f with Some f => Some (<[key := capture f]> t) | None => None end.

Definition check_fresh (key : path) (f : option FileState) (t : FileTracker) : FileTracker * result Freshness unit :=
  match t !! key with
  | None => (t, Err NotRead)
  | Some s =>
      match observe s f with
      | Unchanged => (t, Ok tt)
      | Touched now => (<[key := now]> t, Ok tt)
      | Changed => (t, Err Modified)
      end
  end.

Definition was_read (key : path) (t : FileTracker) : bool := bool_decide (is_Some (t !! key)).

Definition forget (key : path) (t : FileTracker) : FileTracker := delete key t.

Definition tracked (t : FileTracker) : list path := foldl insert_path [] (map fst (map_to_list t)).

Definition changed_since_read (disk : gmap path FileState) (t : FileTracker) : list path :=
  foldl insert_path []
    (map fst (List.filter (fun '(key, s) => match observe s (disk !! key) with Changed => true | _ => false end)
                (map_to_list t))).

(** * [access.rs] and [flow.rs] *)

Definition MAX_EDIT_BYTES : N := 16 * 1024 * 1024.

(** [load_text]: the text of a file that may be edited. [fails] is the error
    of the read, if it does not work. *)
Definition load_text (display : text) (fails : option text) (f : option FileState) : result ToolError (option text) :=
  match fails, f with
  | Some e, _ => Err (Failed (str "cannot read " ++ display ++ str ": " ++ e))
  | None, None => Ok None
  | None, Some f =>
      let file := read_text (file_bytes f) MAX_EDIT_BYTES in
      if truncated file then
        Err (Failed (display ++ str " is " ++ show_N (file_len file) ++ str " bytes, too large to edit here; use Bash for bulk changes"))
      else if lossy file then Err (Failed (display ++ str " is not valid UTF-8 text, so it cannot be edited as text"))
      else Ok (Some (file_content file))
  end.

(** [ensure_fresh] *)
Definition ensure_fresh (display : text) (key : path) (f : option FileState) (t : FileTracker)
  : FileTracker * result ToolError unit :=
  match check_fresh key f t with
  | (t, Ok tt) => (t, Ok tt)
  | (t, Err NotRead) => (t, Err (Failed (display ++ str " has not been read yet. Read it first, then retry.")))
  | (t, Err Modified) =>
      (t, Err (Failed (display ++ str " has been modified since it was last read, either by the user or by another process. Read it again, then retry.")))
  end.

(** What a call does to a file. *)
Inductive FileOp :=
| OpRead
| OpEdit (edits : list EditSpec) (describe : EditFailure -> text)
| OpWrite (content_ : text).

Record FileCall := mkFileCall { call_agent : id; call_path : path; call_op : FileOp }.

Inductive Phase :=
| Waiting
| Holding
| Loaded (before : option text)
| Fresh (before : option text)
| Ready (before : option text) (content_ : text)
| Written
| Shown
| Finished (outcome : result ToolError unit).

Record FileWorld := mkFileWorld {
  disk : gmap path FileState;
  trackers : id -> FileTracker;
  (** the call that holds the lock of a path *)
  held : gmap path nat;
  calls : list (FileCall * Phase)
}.

Definition set_disk (d : gmap path FileState) (w : FileWorld) : FileWorld := mkFileWorld d (trackers w) (held w) (calls w).
Definition set_tracker (agent : id) (t : FileTracker) (w : FileWorld) : FileWorld :=
  mkFileWorld (disk w) (fun a => if bool_decide (a = agent) then t else trackers w a) (held w) (calls w).
Definition set_held (h : gmap path nat) (w : FileWorld) : FileWorld := mkFileWorld (disk w) (trackers w) h (calls w).
Definition set_phase (n : nat) (c : FileCall) (p : Phase) (w : FileWorld) : FileWorld :=
  mkFileWorld (disk w) (trackers w) (held w) (<[n := (c, p)]> (calls w)).

(** What a section meets: a read or a write that fails, a cancelled call, the
    time of the write. *)
Record SectionIo := mkSectionIo { read_fails : option text; write_fails : option text; call_cancelled : bool; write_time : option N }.

Definition MAX_DIFF_BYTES : N := 8 * 1024 * 1024.

(** [previous] of [write.rs] *)
Definition previous (display : text) (fails : option text) (f : option FileState) : result ToolError (option text) :=
  match fails, f with
  | Some e, _ => Err (Failed (str "cannot write " ++ display ++ str ": " ++ e))
  | None, None => Ok None
  | None, Some f => Ok (Some (file_content (read_text (file_bytes f) MAX_DIFF_BYTES)))
  end.

Definition is_notebook (p : path) : bool :=
  match file_name p with
  | Some n => match snd (stem_and_extension n) with Some e => eq_ignore_ascii_case e (str "ipynb") | None => false end
  | None => false
  end.

Section WithIdentity.
Context {S : Strsim} (identity : path -> path) (display : path -> text) (root : text).

(** The end of a call that holds the lock. *)
Definition release (n : nat) (c : FileCall) (outcome : result ToolError unit) (w : FileWorld) : FileWorld :=
  set_phase n c (Finished outcome) (set_held (delete (identity (call_path c)) (held w)) w).

Definition reload (c : FileCall) (fails : option text) (f : option FileState) : result ToolError (option text) :=
  match call_op c with
  | OpWrite _ => previous (display (call_path c)) fails f
  | _ => load_text (display (call_path c)) fails f
  end.

Definition notebook_error (c : FileCall) : option ToolError :=
  match call_op c with
  | OpEdit _ _ =>
      if is_notebook (call_path c)
      then Some (InvalidInput (display (call_path c) ++ str " is a Jupyter notebook; edit its cells with NotebookEdit"))
      else None
  | _ => None
  end.

(** What is to be written, or why not. *)
Definition computed (c : FileCall) (before : option text) (cancelled : bool) : result ToolError text :=
  match call_op c with
  | OpEdit edits describe =>
      match apply_edits before edits with
      | Err failure => Err (Failed (describe failure))
      | Ok a => if cancelled then Err Cancelled else Ok (applied_content a)
      end
  | OpWrite content_ => Ok content_
  | OpRead => Err Cancelled
  end.

(** [missing] of [read.rs]: the error of a read, or that there is no file. *)
Definition missing (shown : text) (fails : option text) : ToolError :=
  match fails with
  | None => Failed (str "File does not exist: " ++ shown ++ str ". The project root is " ++ root ++ str ".")
  | Some e => Failed (str "cannot read " ++ shown ++ str ": " ++ e)
  end.

(** The next section of call [n]; [None] while it waits for the lock or when
    it is over. *)
Definition run_section (io : SectionIo) (n : nat) (c : FileCall) (p : Phase) (w : FileWorld) : option FileWorld :=
  let key := identity (call_path c) in
  let shown := display (call_path c) in
  let own := trackers w (call_agent c) in
  match p with
  | Waiting =>
      match call_op c with
      | OpRead =>
          match read_fails io, disk w !! key with
          | None, Some _ => Some (set_phase n c Shown w)
          | fails, _ => Some (set_phase n c (Finished (Err (missing shown fails))) w)
          end
      | _ =>
          match notebook_error c with
          | Some e => Some (set_phase n c (Finished (Err e)) w)
          | None =>
              match held w !! key with
              | Some _ => None
              | None => Some (set_phase n c Holding (set_held (<[key := n]> (held w)) w))
              end
          end
      end
  | Holding =>
      Some (match reload c (read_fails io) (disk w !! key) with
            | Err e => release n c (Err e) w
            | Ok before => set_phase n c (Loaded before) w
            end)
  | Loaded None => Some (set_phase n c (Fresh None) w)
  | Loaded (Some before) =>
      Some (match ensure_fresh shown key (disk w !! key) own with
            | (t, Err e) => release n c (Err e) (set_tracker (call_agent c) t w)
            | (t, Ok tt) => set_phase n c (Fresh (Some before)) (set_tracker (call_agent c) t w)
            end)
  | Fresh before =>
      Some (match computed c before (call_cancelled io) with
            | Err e => release n c (Err e) w
            | Ok content_ => set_phase n c (Ready before content_) w
            end)
  | Ready before content_ =>
      Some (match write_fails io with
            | Some e => release n c (Err (Failed (str "could not write " ++ shown ++ str ": " ++ e))) w
            | None => set_phase n c Written (set_disk (<[key := mkFileState (as_bytes content_) (write_time io)]> (disk w)) w)
            end)
  | Written =>
      Some (release n c (Ok tt)
              (set_tracker (call_agent c) (default own (record_read key (disk w !! key) own)) w))
  | Shown =>
      Some (set_phase n c (Finished (Ok tt))
              (set_tracker (call_agent c) (default own (record_read key (disk w !! key) own)) w))
  | Finished _ => None
  end.

(** Who makes a step: a call, or another program that changes a file. *)
Inductive Mover := ByCall (n : nat) | ByOther (key : path).

Inductive file_step : Mover -> FileWorld -> FileWorld -> Prop :=
| step_call io n c p w w' :
    calls w !! n = Some (c, p) -> run_section io n c p w = Some w' -> file_step (ByCall n) w w'
| step_other key f w : file_step (ByOther key) w (set_disk (partial_alter (fun _ => f) key (disk w)) w).

Inductive file_steps : list Mover -> FileWorld -> FileWorld -> Prop :=
| no_steps w : file_steps [] w w
| more_steps m ms w w' w'' : file_steps ms w w' -> file_step m w' w'' -> file_steps (ms ++ [m]) w w''.

(** Nothing has begun. *)
Definition idle (w : FileWorld) : Prop := held w = ∅ /\ Forall (fun cp => snd cp = Waiting) (calls w).

End WithIdentity.
End WithSha.
