(* ===== verification/FileToolsFacts.v ===== *)
(** Reads show what they say, and calls that edit a file under its lock lose
    no update; only the stamp of a read may be of a content it did not show. *)

From Stdlib Require Import String SpecFloat.
From stdpp Require Import gmap list sets relations.
From S2P Require Export EditFacts FileTools.

Section WithIdentity.
Context {H : Sha} {S : Strsim} (identity : path -> path) (display : path -> text) (root : text).

Abbreviation section := (run_section identity display root).
Abbreviation steps := (file_steps identity display root).

(** The agent's stamp of a file is not of another content. *)
Definition stamp_fits (w : FileWorld) (agent : id) (key : path) : Prop :=
  exists s, trackers w agent !! key = Some s
    /\ match observe s (disk w !! key) with Changed => False | _ => True end.

(** What holds of call [n] between its sections, if nobody else changes its
    file. *)
Definition phase_ok (w : FileWorld) (n : nat) (c : FileCall) (p : Phase) : Prop :=
  let key := identity (call_path c) in
  let read before := reload display c None (disk w !! key) = Ok before in
  let stamped before := before <> None -> stamp_fits w (call_agent c) key in
  match p with
  | Waiting | Shown | Finished _ => True
  | Holding | Written => held w !! key = Some n
  | Loaded before => held w !! key = Some n /\ read before
  | Fresh before => held w !! key = Some n /\ read before /\ stamped before
  | Ready before content_ =>
      held w !! key = Some n /\ read before /\ stamped before /\ computed c before false = Ok content_
  end.

Definition key_ok (key : path) (w : FileWorld) : Prop :=
  forall n c p, calls w !! n = Some (c, p) -> identity (call_path c) = key -> phase_ok w n c p.

Definition locked (p : Phase) : bool :=
  match p with Waiting | Shown | Finished _ => false | _ => true end.

Lemma phase_holds w n c p : phase_ok w n c p -> locked p = true -> held w !! identity (call_path c) = Some n.
Proof. destruct p; cbn; intros Hp Hl; try done; by destruct Hp || apply Hp. Qed.

(** Two worlds agree about one file. *)
Definition same_at (key : path) (w w' : FileWorld) : Prop :=
  disk w' !! key = disk w !! key /\ held w' !! key = held w !! key
  /\ forall a, trackers w' a !! key = trackers w a !! key.

Lemma phase_same w w' n c p :
  same_at (identity (call_path c)) w w' -> phase_ok w n c p -> phase_ok w' n c p.
Proof.
  intros (Hd & Hh & Ht). unfold phase_ok, stamp_fits. by rewrite Hd, Hh, Ht.
Qed.

Lemma trackers_set agent t w a :
  trackers (set_tracker agent t w) a = if bool_decide (a = agent) then t else trackers w a.
Proof. done. Qed.

(** What a section leaves as it is: other files, and other calls. *)
Lemma section_frame io n c p w w' :
  calls w !! n = Some (c, p) -> section io n c p w = Some w' ->
  (forall key, key <> identity (call_path c) -> same_at key w w')
  /\ exists p', calls w' = <[n := (c, p')]> (calls w).
Proof.
  intros Hn Hs. unfold run_section, ensure_fresh, check_fresh, record_read in Hs.
  repeat case_match; simplify_eq; (split; [intros key Hk; split_and!; [| |intros agent]|eexists; reflexivity]);
    cbn; try case_bool_decide; subst; try done; by rewrite ?lookup_insert_ne, ?lookup_delete_ne by done.
Qed.

Lemma unlocked_ok w n c p : locked p = false -> phase_ok w n c p.
Proof. by destruct p. Qed.

Lemma observe_capture f : observe (capture f) (Some f) = Unchanged.
Proof. unfold observe, metadata_matches, capture. cbn. by rewrite N.eqb_refl, bool_decide_true by done. Qed.

(** A stamp of what is on disk fits. *)
Lemma stamp_recorded w n agent key c p :
  let own := trackers w agent in
  phase_ok w n c p -> identity (call_path c) = key ->
  phase_ok (set_tracker agent (default own (record_read key (disk w !! key) own)) w) n c p.
Proof.
  intros own Hp Hk.
  assert (Hs : forall a, stamp_fits w a key ->
    stamp_fits (set_tracker agent (default own (record_read key (disk w !! key) own)) w) a key).
  { intros a Ha. unfold stamp_fits. cbn [trackers set_tracker disk]. case_bool_decide as E; [subst a|done].
    unfold stamp_fits in Ha. destruct (disk w !! key) as [f|] eqn:Ef; cbn [record_read default from_option]; [|exact Ha].
    exists (capture f). unfold Datatypes.id. by rewrite lookup_insert_eq, observe_capture. }
  unfold phase_ok in *. rewrite Hk in *. destruct p; cbn in *; try exact Hp;
    [destruct Hp as (? & ? & ?)|destruct Hp as (? & ? & ? & ?)]; split_and!; auto.
Qed.

(** The calls other than [n] after a section of call [n]. *)
Lemma section_others io n c p w w' m c' p' :
  key_ok (identity (call_path c)) w -> calls w !! n = Some (c, p) -> section io n c p w = Some w' ->
  m <> n -> calls w !! m = Some (c', p') -> identity (call_path c') = identity (call_path c) ->
  phase_ok w' m c' p'.
Proof.
  intros Hok Hn Hs Hm Hc' Hk. destruct (locked p') eqn:Hl; [|by apply unlocked_ok].
  assert (Hp := Hok m c' p' Hc' Hk). assert (Hheld := phase_holds _ _ _ _ Hp Hl). rewrite Hk in Hheld.
  assert (Hfree : locked p = false).
  { destruct (locked p) eqn:E; [|done]. assert (Hq := phase_holds _ _ _ _ (Hok n c p Hn eq_refl) E). congruence. }
  destruct p; try done; cbn in Hs.
  - destruct (call_op c).
    1: { repeat case_match; simplify_eq; exact Hp. }
    all: repeat case_match; simplify_eq; exact Hp.
  - injection Hs as <-. by apply (stamp_recorded w m (call_agent c) (identity (call_path c)) c' p').
Qed.

Lemma reload_ok c fails f before : reload display c fails f = Ok before -> reload display c None f = Ok before.
Proof. unfold reload, load_text, previous. by destruct (call_op c), fails. Qed.

Lemma computed_ok c before cancelled content_ :
  computed c before cancelled = Ok content_ -> computed c before false = Ok content_.
Proof. unfold computed. destruct (call_op c); [done| |done]. by destruct (apply_edits before edits), cancelled. Qed.

Lemma ensure_fresh_fits shown key w agent t :
  ensure_fresh shown key (disk w !! key) (trackers w agent) = (t, Ok tt) ->
  stamp_fits (set_tracker agent t w) agent key.
Proof.
  unfold ensure_fresh, check_fresh, stamp_fits. cbn [trackers set_tracker disk]. rewrite bool_decide_true by done.
  destruct (trackers w agent !! key) as [s|] eqn:E; [|done]. destruct (observe s (disk w !! key)) eqn:O; [| |done].
  - intros [= <-]. exists s. by rewrite O.
  - intros [= <-]. exists now. rewrite lookup_insert_eq. split; [done|]. unfold observe in O.
    destruct (disk w !! key) as [f|]; [|done]. destruct (metadata_matches s f); [done|]. case_bool_decide; [|done]. injection O as <-. by rewrite observe_capture.
Qed.

(** The call that made the section. *)
Lemma section_own io n c p w w' p' :
  phase_ok w n c p -> calls w !! n = Some (c, p) -> section io n c p w = Some w' ->
  calls w' !! n = Some (c, p') -> phase_ok w' n c p'.
Proof.
  intros Hp Hn Hs Hp'. assert (Hlen : n < length (calls w)) by (by apply lookup_lt_Some in Hn).
  unfold run_section, release in Hs.
  destruct p as [| |[before|]|before|before content_| | |]; cbn in Hs; repeat case_match; simplify_eq;
    cbn in Hp'; rewrite list_lookup_insert_eq in Hp' by done; simplify_eq; try done; cbn.
  1, 2: apply lookup_insert_eq.
  - split; [exact Hp|]. by eapply reload_ok.
  - destruct Hp as [Hh Hr]. split_and!; [exact Hh|exact Hr|]. intros _. by eapply (ensure_fresh_fits _ _ w).
  - destruct Hp as [Hh Hr]. by split_and!.
  - destruct Hp as (Hh & Hr & Hf). split_and!; try done. by eapply computed_ok.
  - apply Hp.
Qed.

(** What holds of a file holds after any step but another program's write to
    it. *)
Lemma step_ok key m w w' :
  key_ok key w -> file_step identity display root m w w' -> m <> ByOther key -> key_ok key w'.
Proof.
  intros Hok Hs Hm n c p Hc Hk. destruct Hs as [io n0 c0 p0 w w' Hn Hs|key' f w].
  - destruct (section_frame _ _ _ _ _ _ Hn Hs) as [Hframe [p1 Hcalls]].
    assert (Hlen : n0 < length (calls w)) by (by apply lookup_lt_Some in Hn).
    destruct (base.decide (n = n0)) as [->|Hne].
    + assert (c = c0) as -> by (rewrite Hcalls, list_lookup_insert_eq in Hc by done; congruence).
      apply (section_own io n0 c0 p0 w w' p); try done. by apply Hok.
    + rewrite Hcalls, list_lookup_insert_ne in Hc by done.
      destruct (base.decide (identity (call_path c0) = key)) as [He|He].
      * apply (section_others io n0 c0 p0 w w' n c p); [by rewrite He|done|done|done|done|congruence].
      * apply (phase_same w); [|by apply Hok]. rewrite Hk. by apply Hframe.
  - apply (phase_same w); [|by apply Hok]. rewrite Hk. split_and!; [|done|done]. cbn.
    apply lookup_partial_alter_ne. congruence.
Qed.

(** C20: no update is lost.  However any number of reads, edits and writes of
    the agents interleave, when a call is about to write a file that no other
    program touched, what it writes is computed from the text that is in the
    file at that moment, no other call holds the file, and if the file exists,
    the agent's stamp of it fits what is on disk. *)
Theorem edits_lose_no_update (movers : list Mover) (w w' : FileWorld) n c before content_ :
  idle w -> steps movers w w' ->
  ByOther (identity (call_path c)) ∉ movers ->
  calls w' !! n = Some (c, Ready before content_) ->
  reload display c None (disk w' !! identity (call_path c)) = Ok before
  /\ computed c before false = Ok content_
  /\ (before <> None -> stamp_fits w' (call_agent c) (identity (call_path c)))
  /\ forall m c' p', calls w' !! m = Some (c', p') -> identity (call_path c') = identity (call_path c) ->
       locked p' = true -> m = n.
Proof.
  intros [_ Hidle] Hs Hm Hc. assert (Hok : key_ok (identity (call_path c)) w').
  { clear Hc. induction Hs as [w|m ms w w1 w2 Hs IH Hstep].
    - intros k ck p Hk _. rewrite Forall_forall in Hidle. assert (Hp := Hidle _ (list_elem_of_lookup_2 _ _ _ Hk)). cbn in Hp. by subst p.
    - rewrite elem_of_app, list_elem_of_singleton in Hm. eapply step_ok; [|done|naive_solver].
      apply IH; [done|naive_solver]. }
  assert (Hp := Hok n c _ Hc eq_refl). assert (Hh := phase_holds _ _ _ _ Hp eq_refl).
  destruct Hp as (_ & Hr & Hf & Hcomp). split_and!; [done|done|done|].
  intros m c' p' Hc' Hk Hl. assert (Hh' := phase_holds _ _ _ _ (Hok m c' p' Hc' Hk) Hl). congruence.
Qed.

(** Runs that the calls named make, with nothing failing. *)
Definition quiet_io : SectionIo := mkSectionIo None None false None.

Definition play (ns : list nat) (w : FileWorld) : option FileWorld :=
  foldl (fun w n => w ≫= fun w => match calls w !! n with Some (c, p) => section quiet_io n c p w | None => None end)
    (Some w) ns.

Lemma play_steps ns w w' : play ns w = Some w' -> steps (map ByCall ns) w w'.
Proof.
  revert w'. induction ns as [|n ns IH] using rev_ind; intros w'; unfold play.
  - intros [= <-]. constructor.
  - rewrite foldl_app, map_app. cbn [foldl map]. intros Hw. apply bind_Some in Hw as (w1 & H1 & Hs).
    destruct (calls w1 !! n) as [[c p]|] eqn:E; [|done].
    eapply more_steps; [by apply IH|]. by eapply step_call.
Qed.

End WithIdentity.

(** * The lines a read shows *)

Lemma numbered_cons line ls number ml :
  numbered (line :: ls) number ml = push_numbered number line ml ++ numbered ls (number + 1) ml.
Proof.
  unfold numbered. rewrite imap_cons. cbn [concat]. rewrite Nat.add_0_r. f_equal. f_equal. apply imap_ext.
  intros i x _. unfold compose. by rewrite Nat.add_succ_r, Nat.add_1_r.
Qed.

Lemma window_loop_shows offset ml mc number ls body last :
  last + 1 = number -> offset <= number -> (number = offset -> body = []) ->
  (length body <= mc \/ last <= offset) ->
  let '(body', last', hit) := window_loop offset ml mc number ls body (length body) last in
  exists j, j <= length ls /\ body' = body ++ numbered (take j ls) number ml /\ last' = last + j
    /\ (number = offset -> ls <> [] -> 1 <= j) /\ (length body' <= mc \/ last' <= offset)
    /\ (hit = true -> exists line, ls !! j = Some line /\ mc < length body' + length (push_numbered (number + j) line ml))
    /\ (hit = false -> j = length ls).
Proof.
  revert number body last. induction ls as [|line ls IH]; intros number body last Hn Ho Hb Hc; cbn [window_loop].
  - exists 0. rewrite app_nil_r. split_and!; try done; lia.
  - destruct (Nat.ltb_spec mc (length body + length (push_numbered number line ml))) as [Hm|Hm];
      destruct (Nat.leb_spec offset last) as [Hl|Hl]; cbn [andb].
    1: { exists 0. rewrite app_nil_r. cbn [take]. split_and!; try done; try lia. intros _. exists line.
         split; [done|]. rewrite Nat.add_0_r. lia. }
    all: rewrite <- length_app; specialize (IH (number + 1) (body ++ push_numbered number line ml) number eq_refl ltac:(lia) ltac:(lia));
      rewrite length_app in IH |- *; specialize (IH ltac:(lia));
      destruct (window_loop _ _ _ _ _ _ _ _) as [[body' last'] hit]; destruct IH as (j & Hj & -> & -> & _ & Hlen & Hh1 & Hh2);
      exists (S j); cbn [take lookup list_lookup]; rewrite numbered_cons, app_assoc;
      split_and!; try done; try (cbn; lia); [|intros E; rewrite (Hh2 E); done];
      intros E; destruct (Hh1 E) as (l & Hl1 & Hl2); exists l; split; [done|];
      replace (number + S j) with (number + 1 + j) by lia; done.
Qed.

(** A read shows whole lines in order, from the line asked for on, each
    with its number; at least one, at most as many as asked for, and stops
    before a line that would exceed the budget; and it says so exactly when
    lines are left. *)
Theorem read_window_exact (content_ : text) (offset limit max_line max_chars : nat) :
  1 <= offset -> 1 <= limit ->
  let ls := lines content_ in
  match read_window content_ offset limit max_line max_chars with
  | Err _ => length ls < offset
  | Ok v =>
      let shown := window ls (offset - 1) (last_line v + 1 - offset) in
      let body := numbered shown offset max_line in
      first_line v = offset /\ total_lines v = length ls
      /\ offset <= last_line v /\ last_line v <= Nat.min (length ls) (offset + limit - 1)
      /\ (length body <= max_chars \/ last_line v = offset)
      /\ (last_line v < Nat.min (length ls) (offset + limit - 1) -> exists line, ls !! last_line v = Some line
           /\ max_chars < length body + length (push_numbered (last_line v + 1) line max_line))
      /\ exists note, window_body v = body ++ note /\ (note = [] <-> last_line v = length ls)
  end.
Proof.
  intros Ho Hlim ls. unfold read_window. fold ls. destruct (Nat.ltb_spec (length ls) offset) as [Hlt|Hle]; [done|].
  set (asked := take limit (drop (offset - 1) ls)).
  assert (Hasked : length asked = Nat.min limit (length ls - (offset - 1))) by (unfold asked; by rewrite length_take, length_drop).
  assert (Hloop := window_loop_shows offset max_line max_chars offset asked [] (offset - 1) ltac:(lia) ltac:(lia) ltac:(done) ltac:(cbn; lia)).
  cbn [length] in Hloop. destruct (window_loop _ _ _ _ _ _ _ _) as [[body last] hit].
  destruct Hloop as (j & Hj & Hbody & Hlast & Hone & Hlen & Hh1 & Hh2). cbn [app] in Hbody.
  assert (Hj1 : 1 <= j) by (apply Hone; [done|]; intros E; rewrite E in Hasked; cbn in Hasked; lia).
  cbn [first_line last_line total_lines window_body].
  assert (Hshown : numbered (window ls (offset - 1) (last + 1 - offset)) offset max_line = body).
  { rewrite Hbody. f_equal. unfold window, asked. rewrite take_take. f_equal. lia. }
  rewrite Hshown. split_and!; [done|done|lia|lia|destruct Hlen; [by left|right; lia]| |].
  - intros Hless. destruct hit; [|specialize (Hh2 eq_refl); lia].
    destruct (Hh1 eq_refl) as (line & Hl1 & Hl2). exists line. unfold asked in Hl1.
    rewrite lookup_take_lt, lookup_drop in Hl1 by lia. split; [rewrite <- Hl1; f_equal; lia|].
    by replace (last + 1) with (offset + j) by lia.
  - eexists. split; [done|]. destruct hit.
    + destruct (Hh1 eq_refl) as (line & Hl1 & _). apply lookup_lt_Some in Hl1. split; [done|lia].
    + destruct (Nat.ltb_spec last (length ls)); split; (done || lia).
Qed.

(** * Concrete runs *)

Definition plain_sha : Sha := {| sha256 b := b |}.

#[local] Existing Instances plain_sha equal_only.

Definition notes : path := [RootDir; Normal (str "notes")].

(** One agent reads a file, another one that has read it before writes it. *)
Definition demo_files : FileWorld :=
  mkFileWorld {[ notes := mkFileState (str "a") None ]}
    (fun a => if teqb a (str "B") then {[ notes := capture (mkFileState (str "a") None) ]} else ∅) ∅
    [(mkFileCall (str "A") notes OpRead, Waiting);
     (mkFileCall (str "B") notes (OpEdit [mkEditSpec (str "a") (str "b") false] failure_message), Waiting);
     (mkFileCall (str "A") notes (OpWrite (str "c")), Waiting)].

Definition demo_play := play (fun p => p) (fun _ => str "notes") (str "/").

(** What is in the file and how far a call is, after some sections. *)
Definition seen (ns : list nat) (n : nat) : option (option (list N) * option Phase) :=
  w ← demo_play ns demo_files; Some (fmap file_bytes (disk w !! notes), fmap snd (calls w !! n)).

(** The stamp of a read is taken after the read, of what is on disk by then:
    the agent is shown one content, another call changes it before the stamp,
    and the agent may overwrite a change it has not seen. *)
Lemma read_stamps_unseen_content :
  seen [0] 0 = Some (Some (str "a"), Some Shown)
  /\ seen [0; 1; 1; 1; 1; 1; 1] 1 = Some (Some (str "b"), Some (Finished (Ok tt)))
  /\ seen [0; 1; 1; 1; 1; 1; 1; 0; 2; 2; 2; 2; 2; 2] 2 = Some (Some (str "c"), Some (Finished (Ok tt))).
Proof. split_and!; vm_compute; reflexivity. Qed.

Lemma edits_lose_no_update_witness :
  exists w before, calls w !! 1 = Some (mkFileCall (str "B") notes (OpEdit [mkEditSpec (str "a") (str "b") false] failure_message),
                                   Ready before (str "b"))
    /\ reload (fun _ => str "notes") (mkFileCall (str "B") notes (OpEdit [mkEditSpec (str "a") (str "b") false] failure_message))
         None (disk w !! notes) = Ok before.
Proof.
  destruct (demo_play [0; 1; 1; 1; 1] demo_files) as [w|] eqn:E.
  2:{ exfalso. assert (Hs : is_Some (seen [0; 1; 1; 1; 1] 1)) by (vm_compute; eauto).
      unfold seen in Hs. rewrite E in Hs. by destruct Hs. }
  exists w, (Some (str "a")).
  assert (Hc : calls w !! 1 = Some (mkFileCall (str "B") notes (OpEdit [mkEditSpec (str "a") (str "b") false] failure_message),
                                    Ready (Some (str "a")) (str "b"))).
  { assert (Hs : (w ← demo_play [0; 1; 1; 1; 1] demo_files; calls w !! 1)
                 = Some (mkFileCall (str "B") notes (OpEdit [mkEditSpec (str "a") (str "b") false] failure_message),
                         Ready (Some (str "a")) (str "b"))) by reflexivity.
    rewrite E in Hs. exact Hs. }
  split; [exact Hc|].
  refine (proj1 (edits_lose_no_update (fun p => p) (fun _ => str "notes") (str "/") (map ByCall [0; 1; 1; 1; 1])
                   demo_files w 1 _ _ _ _ _ _ Hc)).
  - split; [reflexivity|]. repeat constructor.
  - by apply play_steps.
  - cbn. rewrite !not_elem_of_cons. split_and!; try discriminate. apply not_elem_of_nil.
Defined.

Lemma read_window_exact_witness :
  1 <= 2 /\ exists v, read_window (str "a" ++ [NEWLINE] ++ str "b" ++ [NEWLINE] ++ str "c") 2 1 100 1000 = Ok v /\ last_line v = 2.
Proof.
  split; [lia|].
  pose proof (read_window_exact (str "a" ++ [NEWLINE] ++ str "b" ++ [NEWLINE] ++ str "c") 2 1 100 1000 ltac:(lia) ltac:(lia)) as H.
  destruct (read_window _ 2 1 100 1000) as [v|e] eqn:E; [|vm_compute in E; discriminate].
  exists v. split; [reflexivity|]. vm_compute in E. by injection E as <-.
Defined.
