(* ===== verification/Sse.v ===== *)
(** The decoder of event streams on bytes ([sse.rs]): it does not depend on chunks, and reads written events back. *)

From Stdlib Require Import Zify ZifyBool ZifyN.
From stdpp Require Import list.
From S2P Require Export Rule.

Open Scope N_scope.

Record SseEvent := mkSseEvent { event_name : option text; event_data : text }.

Definition is_done (e : SseEvent) : bool := teqb (trim (event_data e)) (str "[DONE]").

Record SseDecoder := mkSseDecoder {
  line_bytes : list N;
  decoder_event : option text;
  decoder_data : text;
  has_data : bool
}.

Definition new_decoder : SseDecoder := mkSseDecoder [] None [] false.

Definition dispatch (d : SseDecoder) (out : list SseEvent) : SseDecoder * list SseEvent :=
  if has_data d then
    (mkSseDecoder (line_bytes d) None [] false, out ++ [mkSseEvent (decoder_event d) (decoder_data d)])
  else (mkSseDecoder (line_bytes d) None (decoder_data d) false, out).

Definition CARRIAGE_RETURN : N := 13.

(** [raw.strip_suffix(b"\r")], or [raw]. *)
Definition strip_return (raw : list N) : list N := default raw (strip_suffix [CARRIAGE_RETURN] raw).

Definition process_line (raw : list N) (d : SseDecoder) (out : list SseEvent) : SseDecoder * list SseEvent :=
  let raw := strip_return raw in
  if is_empty raw then dispatch d out
  else
    let line := from_utf8_lossy raw in
    if starts_with (str ":") line then (d, out)
    else
      let '(field, value) :=
        match split_once (str ":") line with
        | Some (field, value) => (field, default value (strip_prefix (str " ") value))
        | None => (line, [])
        end in
      if teqb field (str "data") then
        (mkSseDecoder (line_bytes d) (decoder_event d)
           ((if has_data d then decoder_data d ++ [NEWLINE] else decoder_data d) ++ value) true, out)
      else if teqb field (str "event") then
        (mkSseDecoder (line_bytes d) (if is_empty value then None else Some value) (decoder_data d) (has_data d), out)
      else (d, out).

Definition set_line (l : list N) (d : SseDecoder) : SseDecoder :=
  mkSseDecoder l (decoder_event d) (decoder_data d) (has_data d).

(** The loop of [feed] over the pieces of a chunk between newlines: every
    piece but the last completes a line. *)
Fixpoint feed_loop (pieces : list (list N)) (d : SseDecoder) (out : list SseEvent) : SseDecoder * list SseEvent :=
  match pieces with
  | [] => (d, out)
  | [rest] => (set_line (line_bytes d ++ rest) d, out)
  | piece :: pieces =>
      let '(d, out) := process_line (line_bytes d ++ piece) (set_line [] d) out in
      feed_loop pieces d out
  end.

Definition feed (bytes : list N) (d : SseDecoder) : SseDecoder * list SseEvent :=
  feed_loop (split_on NEWLINE bytes) d [].

Definition finish_decoder (d : SseDecoder) : SseDecoder * list SseEvent :=
  let '(d, out) :=
    if is_empty (line_bytes d) then (d, []) else process_line (line_bytes d) (set_line [] d) [] in
  dispatch d out.

(** A stream read chunk by chunk until its end. *)
Fixpoint feed_all (chunks : list (list N)) (d : SseDecoder) : SseDecoder * list SseEvent :=
  match chunks with
  | [] => (d, [])
  | chunk :: chunks =>
      let '(d, out) := feed chunk d in
      let '(d, more) := feed_all chunks d in (d, out ++ more)
  end.

Definition decode_stream (chunks : list (list N)) : list SseEvent :=
  let '(d, out) := feed_all chunks new_decoder in
  out ++ snd (finish_decoder d).

Open Scope N_scope.

(** * Chunks *)

Lemma split_on_app c (a b : list N) :
  exists xs x y ys, split_on c a = xs ++ [x] /\ split_on c b = y :: ys /\ split_on c (a ++ b) = xs ++ (x ++ y) :: ys.
Proof.
  induction a as [|z a (xs & x & y & ys & Ea & Eb & Eab)]; cbn.
  - destruct (split_on c b) as [|y ys] eqn:E; [|by exists [], [], y, ys].
    destruct b as [|w b]; cbn in E; [done|]. by destruct (w =? c), (split_on c b).
  - rewrite Ea, Eab. destruct (z =? c).
    + by exists ([] :: xs), x, y, ys.
    + destruct xs as [|w xs]; cbn; [by exists [], (z :: x), y, ys|by exists ((z :: w) :: xs), x, y, ys].
Qed.

(** The lines that are completed. *)
Fixpoint lines_loop (pieces : list (list N)) (d : SseDecoder) (out : list SseEvent) : SseDecoder * list SseEvent :=
  match pieces with
  | [] => (d, out)
  | piece :: pieces =>
      let '(d, out) := process_line (line_bytes d ++ piece) (set_line [] d) out in
      lines_loop pieces d out
  end.

Lemma feed_loop_step piece pieces d out :
  pieces <> [] ->
  feed_loop (piece :: pieces) d out =
  let '(d, out) := process_line (line_bytes d ++ piece) (set_line [] d) out in feed_loop pieces d out.
Proof. by destruct pieces. Qed.

Lemma feed_loop_last xs x d out :
  feed_loop (xs ++ [x]) d out =
  let '(d, out) := lines_loop xs d out in (set_line (line_bytes d ++ x) d, out).
Proof.
  revert d out. induction xs as [|y xs IH]; intros d out; [done|]. cbn [app lines_loop].
  rewrite feed_loop_step by (by destruct xs). destruct (process_line _ _ _). apply IH.
Qed.

Lemma lines_loop_app xs ys d out :
  lines_loop (xs ++ ys) d out = let '(d, out) := lines_loop xs d out in lines_loop ys d out.
Proof.
  revert d out. induction xs as [|x xs IH]; intros d out; cbn; [done|]. by destruct (process_line _ _ _).
Qed.

Lemma dispatch_out d a b : dispatch d (a ++ b) = let '(d', out) := dispatch d b in (d', a ++ out).
Proof. unfold dispatch. destruct (has_data d); [by rewrite app_assoc|done]. Qed.

Lemma process_line_out l d a b :
  process_line l d (a ++ b) = let '(d', out) := process_line l d b in (d', a ++ out).
Proof.
  unfold process_line. destruct (is_empty _); [apply dispatch_out|]. destruct (starts_with _ _); [done|].
  destruct (match split_once _ _ with Some _ => _ | None => _ end) as [f v].
  destruct (teqb f (str "data")); [done|]. by destruct (teqb f (str "event")).
Qed.

Lemma lines_loop_out xs d a b :
  lines_loop xs d (a ++ b) = let '(d', out) := lines_loop xs d b in (d', a ++ out).
Proof.
  revert d b. induction xs as [|x xs IH]; intros d b; cbn; [done|]. rewrite process_line_out.
  destruct (process_line _ _ b) as [d' out]. apply IH.
Qed.

Lemma feed_loop_out xs d a b : feed_loop xs d (a ++ b) = let '(d', out) := feed_loop xs d b in (d', a ++ out).
Proof.
  destruct xs as [|x xs _] using rev_ind; [done|]. rewrite !feed_loop_last, lines_loop_out.
  by destruct (lines_loop xs d b).
Qed.

(** A line is completed by its own bytes only. *)
Lemma set_line_twice l l' d : set_line l (set_line l' d) = set_line l d.
Proof. done. Qed.

Lemma process_line_own l d out : line_bytes (fst (process_line l (set_line [] d) out)) = [].
Proof.
  unfold process_line, dispatch. destruct (is_empty _); [by destruct (has_data _)|].
  destruct (starts_with _ _); [done|]. destruct (match split_once _ _ with Some _ => _ | None => _ end) as [f v].
  destruct (teqb f (str "data")); [done|]. by destruct (teqb f (str "event")).
Qed.

Lemma feed_app a b d :
  feed (a ++ b) d = let '(d, out) := feed a d in let '(d, more) := feed b d in (d, out ++ more).
Proof.
  unfold feed. destruct (split_on_app NEWLINE a b) as (xs & x & y & ys & Ea & Eb & Eab).
  rewrite Ea, Eb, Eab, feed_loop_last.
  assert (H : forall d out zs, feed_loop (xs ++ zs) d out =
    match zs with [] => feed_loop xs d out
    | _ => let '(d, out) := lines_loop xs d out in feed_loop zs d out end).
  { intros d' out zs. destruct zs as [|z zs _] using rev_ind; [by rewrite app_nil_r|].
    rewrite app_assoc, feed_loop_last, lines_loop_app. destruct (zs ++ [z]) eqn:E; [by destruct zs|]. rewrite <- E.
    destruct (lines_loop xs d' out). by rewrite feed_loop_last. }
  rewrite H. destruct (lines_loop xs d []) as [d1 out1].
  rewrite <- (app_nil_r out1), feed_loop_out, app_nil_r.
  destruct ys as [|w ys].
  - cbn. by rewrite <- app_assoc.
  - rewrite !feed_loop_step by done. cbn [set_line line_bytes]. rewrite <- app_assoc, set_line_twice.
    destruct (process_line _ _ _) as [d2 out2]. by destruct (feed_loop (w :: ys) d2 out2).
Qed.

Lemma feed_nil d : feed [] d = (d, []).
Proof. unfold feed. cbn. unfold set_line. rewrite app_nil_r. by destruct d. Qed.

Lemma feed_all_concat chunks d : feed_all chunks d = feed (concat chunks) d.
Proof.
  revert d. induction chunks as [|c chunks IH]; intros d; cbn [feed_all concat]; [by rewrite feed_nil|].
  rewrite feed_app. destruct (feed c d) as [d1 out]. rewrite IH. by destruct (feed _ d1).
Qed.

(** * UTF-8 *)

Definition is_char (c : N) : bool := in_range 0 55295 c || in_range 57344 1114111 c.

Lemma in_range_true lo hi b : lo <= b -> b <= hi -> in_range lo hi b = true.
Proof. unfold in_range. lia. Qed.

Lemma lossy_two b0 b1 rest :
  in_range 194 223 b0 = true -> continuation b1 = true ->
  from_utf8_lossy (b0 :: b1 :: rest) = ((b0 - 192) * 64 + (b1 - 128)) :: from_utf8_lossy rest.
Proof.
  intros H0 H1. cbn [from_utf8_lossy]. replace (b0 <? 128) with false by (unfold in_range in H0; lia). by rewrite H0, H1.
Qed.

Lemma lossy_three b0 b1 b2 rest :
  second_of_three b0 b1 = true -> continuation b2 = true -> 223 < b0 ->
  from_utf8_lossy (b0 :: b1 :: b2 :: rest)
  = ((b0 - 224) * 4096 + (b1 - 128) * 64 + (b2 - 128)) :: from_utf8_lossy rest.
Proof.
  intros H1 H2 H0. cbn [from_utf8_lossy]. replace (b0 <? 128) with false by lia.
  replace (in_range 194 223 b0) with false by (unfold in_range; lia). by rewrite H1, H2.
Qed.

Lemma lossy_four b0 b1 b2 b3 rest :
  second_of_four b0 b1 = true -> continuation b2 = true -> continuation b3 = true -> 239 < b0 ->
  from_utf8_lossy (b0 :: b1 :: b2 :: b3 :: rest)
  = ((b0 - 240) * 262144 + (b1 - 128) * 4096 + (b2 - 128) * 64 + (b3 - 128)) :: from_utf8_lossy rest.
Proof.
  intros H1 H2 H3 H0. cbn [from_utf8_lossy]. replace (b0 <? 128) with false by lia.
  replace (in_range 194 223 b0) with false by (unfold in_range; lia).
  replace (second_of_three b0 b1) with false; [by rewrite H1, H2, H3|].
  unfold second_of_three, in_range. destruct (N.eqb_spec b0 224), (N.eqb_spec b0 237); lia.
Qed.

Lemma split64 c : exists q r, c / 64 = q /\ c mod 64 = r /\ c = 64 * q + r /\ r < 64.
Proof.
  exists (c / 64), (c mod 64). split_and!; [done|done|by apply N.div_mod|by apply N.mod_lt].
Qed.

(** A char's encoding decodes to it, whatever follows. *)
Lemma lossy_char c rest : is_char c = true -> from_utf8_lossy (utf8_encode c ++ rest) = c :: from_utf8_lossy rest.
Proof.
  unfold is_char, in_range. intros Hc. unfold utf8_encode.
  change 4096 with (64 * 64). change 262144 with (64 * 64 * 64). rewrite <- !N.Div0.div_div.
  destruct (split64 c) as (q & r & -> & -> & Ec & Hr).
  destruct (split64 q) as (q2 & r2 & -> & -> & Eq & Hr2).
  destruct (split64 q2) as (q3 & r3 & -> & -> & Eq2 & Hr3).
  assert (Er : forall r, r < 64 -> continuation (128 + r) = true) by (intros; apply in_range_true; lia).
  destruct (N.ltb_spec c 128); [|destruct (N.ltb_spec c 2048); [|destruct (N.ltb_spec c 65536)]]; cbn [app].
  - cbn [from_utf8_lossy]. by replace (c <? 128) with true by lia.
  - rewrite lossy_two; [f_equal; lia|apply in_range_true; lia|by apply Er].
  - rewrite lossy_three; [f_equal; lia| |by apply Er|lia]. unfold second_of_three, continuation, in_range.
    destruct (N.eqb_spec (224 + q2) 224); [|destruct (N.eqb_spec (224 + q2) 237)]; lia.
  - rewrite lossy_four; [f_equal; lia| |by apply Er|by apply Er|lia]. unfold second_of_four, continuation, in_range.
    destruct (N.eqb_spec (240 + q3) 240); [|destruct (N.eqb_spec (240 + q3) 244)]; lia.
Qed.

Lemma lossy_round_trip t : forallb is_char t = true -> from_utf8_lossy (as_bytes t) = t.
Proof.
  induction t as [|c t IH]; [done|]. cbn [forallb]. intros [Hc Ht]%andb_prop. unfold as_bytes. cbn [flat_map].
  rewrite lossy_char by done. f_equal. by apply IH.
Qed.

(** * Lines *)

(** A text that fits on one line of a stream. *)
Definition fits (t : text) : Prop := forallb is_char t = true /\ (NEWLINE ∉ t) /\ last t <> Some CARRIAGE_RETURN.

Lemma encoded_byte c b : b ∈ utf8_encode c -> b < 128 -> b = c.
Proof.
  unfold utf8_encode. intros Hb Hlt.
  destruct (N.ltb_spec c 128); [by apply list_elem_of_singleton in Hb|].
  destruct (c <? 2048); [|destruct (c <? 65536)];
    repeat (apply elem_of_cons in Hb as [->|Hb]; [lia|]); by apply not_elem_of_nil in Hb.
Qed.

Lemma encoded_last c : exists b k, utf8_encode c = k ++ [b] /\ (b < 128 -> b = c).
Proof.
  assert (Hc : utf8_encode c <> []) by (unfold utf8_encode; by repeat case_match).
  destruct (exists_last Hc) as (k & b & E). exists b, k. split; [done|]. intros Hb. apply encoded_byte; [|done].
  rewrite E. apply elem_of_app. right. by left.
Qed.

Lemma fits_bytes t : fits t -> (NEWLINE ∉ as_bytes t) /\ strip_return (as_bytes t) = as_bytes t.
Proof.
  intros (_ & Hn & Hl). split.
  - unfold as_bytes. rewrite list_elem_of_In, in_flat_map. intros (c & Hc & Hb).
    apply list_elem_of_In, encoded_byte in Hb as <-; [|done]. by apply Hn, list_elem_of_In.
  - unfold strip_return, strip_suffix. assert (H : last (as_bytes t) <> Some CARRIAGE_RETURN).
    { destruct t as [|c t _] using rev_ind; [done|]. unfold as_bytes. rewrite flat_map_app. cbn [flat_map]. rewrite app_nil_r.
      destruct (encoded_last c) as (b & k & -> & Hb). rewrite app_assoc, last_snoc. rewrite last_snoc in Hl.
      intros [= ->]. apply Hl. f_equal. symmetry. by apply Hb. }
    destruct (as_bytes t) as [|b k _] using rev_ind; [done|]. rewrite last_snoc in H. rewrite !reverse_snoc. cbn [reverse strip_prefix].
    change (reverse [CARRIAGE_RETURN]) with [CARRIAGE_RETURN]. cbn [strip_prefix].
    unfold CARRIAGE_RETURN in *. by destruct (N.eqb_spec 13 b) as [<-|].
Qed.

Lemma feed_line l rest d :
  NEWLINE ∉ l -> line_bytes d = [] ->
  feed (l ++ NEWLINE :: rest) d =
  let '(d, out) := process_line l d [] in let '(d, more) := feed rest d in (d, out ++ more).
Proof.
  intros Hl Hd. assert (E : split_on NEWLINE (l ++ NEWLINE :: rest) = l :: split_on NEWLINE rest).
  { induction l as [|b l IH]; cbn; [by rewrite N.eqb_refl|]. apply not_elem_of_cons in Hl as [Hb Hl].
    rewrite IH by done. by destruct (N.eqb_spec b NEWLINE) as [->|]. }
  unfold feed. rewrite E, feed_loop_step.
  - rewrite Hd. cbn [app]. replace (set_line [] d) with d by (destruct d; cbn in *; by subst).
    destruct (process_line l d []) as [d1 out]. rewrite <- (app_nil_r out) at 1. rewrite feed_loop_out. done.
  - destruct rest as [|b rest]; cbn; [done|]. by destruct (b =? NEWLINE), (split_on NEWLINE rest).
Qed.

(** A line [field: value]. *)
Definition field_line (field value : text) : list N := as_bytes (field ++ str ": " ++ value).

Definition written (name : option text) (lines : list text) : list N :=
  match name with Some n => field_line (str "event") n ++ [NEWLINE] | None => [] end
  ++ concat (map (fun l => field_line (str "data") l ++ [NEWLINE]) lines) ++ [NEWLINE].

Lemma field_fits field value :
  fits field -> fits value -> fits (field ++ str ": " ++ value).
Proof.
  intros (Hc1 & Hn1 & _) (Hc2 & Hn2 & Hl2). split_and!.
  - rewrite !forallb_app, Hc1, Hc2. done.
  - rewrite !elem_of_app. intros [?|[H|?]]; [done| |done]. change (str ": ") with [58; 32] in H.
    by repeat (apply elem_of_cons in H as [?|H]; [done|]); apply not_elem_of_nil in H.
  - destruct value as [|c t _] using rev_ind; [by rewrite app_nil_r, last_app|].
    rewrite !app_assoc, last_snoc. by rewrite last_snoc in Hl2.
Qed.

Lemma data_fits : fits (str "data") /\ fits (str "event").
Proof. split; (split_and!; [reflexivity|rewrite list_elem_of_In; vm_compute; intuition discriminate|done]). Qed.

Lemma process_data v d out :
  fits v ->
  process_line (field_line (str "data") v) d out
  = (mkSseDecoder (line_bytes d) (decoder_event d)
       ((if has_data d then decoder_data d ++ [NEWLINE] else decoder_data d) ++ v) true, out).
Proof.
  intros Hv. pose proof (field_fits _ _ (proj1 data_fits) Hv) as Hf. unfold process_line, field_line.
  rewrite (proj2 (fits_bytes _ Hf)), lossy_round_trip by apply Hf.
  assert (He : is_empty (as_bytes (str "data" ++ str ": " ++ v)) = false) by reflexivity. rewrite He. reflexivity.
Qed.

Lemma process_event v d out :
  fits v -> v <> [] ->
  process_line (field_line (str "event") v) d out
  = (mkSseDecoder (line_bytes d) (Some v) (decoder_data d) (has_data d), out).
Proof.
  intros Hv Hn. pose proof (field_fits _ _ (proj2 data_fits) Hv) as Hf. unfold process_line, field_line.
  rewrite (proj2 (fits_bytes _ Hf)), lossy_round_trip by apply Hf.
  assert (He : is_empty (as_bytes (str "event" ++ str ": " ++ v)) = false) by reflexivity. rewrite He.
  change (starts_with _ _) with false. change (split_once _ _) with (Some (str "event", str " " ++ v)). cbn iota beta.
  change (strip_prefix _ _) with (Some v). change (teqb (str "event") (str "data")) with false.
  change (teqb (str "event") (str "event")) with true. cbn [default]. by destruct v.
Qed.

Lemma field_no_newline f v : fits f -> fits v -> NEWLINE ∉ field_line f v.
Proof. intros Hf Hv. by apply fits_bytes, field_fits. Qed.

(** The data of some data lines read after [d]'s. *)
Lemma feed_data lines rest d :
  Forall fits lines -> line_bytes d = [] ->
  feed (concat (map (fun l => field_line (str "data") l ++ [NEWLINE]) lines) ++ rest) d
  = feed rest (match lines with
               | [] => d
               | _ => mkSseDecoder [] (decoder_event d)
                        ((if has_data d then decoder_data d ++ [NEWLINE] else decoder_data d) ++ join [NEWLINE] lines) true
               end).
Proof.
  revert d. induction lines as [|l lines IH]; intros d Hall Hd; [done|]. apply Forall_cons in Hall as [Hl Hls].
  cbn [map concat]. rewrite <- !app_assoc. cbn [app]. rewrite feed_line, process_data by (done || by apply field_no_newline, Hl; apply data_fits).
  rewrite Hd. rewrite IH by done. cbn [has_data decoder_data decoder_event].
  replace (feed rest _) with (feed rest (mkSseDecoder [] (decoder_event d)
    ((if has_data d then decoder_data d ++ [NEWLINE] else decoder_data d) ++ join [NEWLINE] (l :: lines)) true)).
  { by destruct (feed rest _). }
  destruct lines; [done|]. cbn [join]. by rewrite <- !app_assoc.
Qed.

(** An event to write: its name and the lines of its data. *)
Definition writable (e : option text * list text) : Prop :=
  (forall n, fst e = Some n -> fits n /\ n <> []) /\ Forall fits (snd e) /\ snd e <> [].

Definition event_of (e : option text * list text) : SseEvent := mkSseEvent (fst e) (join [NEWLINE] (snd e)).

Lemma feed_written e rest :
  writable e ->
  feed (written (fst e) (snd e) ++ rest) new_decoder
  = let '(d, more) := feed rest new_decoder in (d, event_of e :: more).
Proof.
  destruct e as [name lines]. intros (Hn & Hl & Hne). cbn [fst snd] in *. unfold written. rewrite <- !app_assoc.
  assert (Hrest : forall n, feed (concat (map (fun l => field_line (str "data") l ++ [NEWLINE]) lines) ++ [NEWLINE] ++ rest)
      (mkSseDecoder [] n [] false)
    = let '(d, more) := feed rest new_decoder in (d, mkSseEvent n (join [NEWLINE] lines) :: more)).
  { intros n. rewrite feed_data by done. destruct lines as [|l lines]; [done|].
    change ([NEWLINE] ++ rest) with ([] ++ NEWLINE :: rest). rewrite feed_line by (done || by intros ?%not_elem_of_nil).
    reflexivity. }
  destruct name as [n|]; [|apply Hrest]. destruct (Hn n eq_refl) as [Hf Hne'].
  rewrite <- app_assoc. cbn [app]. rewrite feed_line, process_event by (done || by apply field_no_newline; [apply data_fits|]).
  cbn [new_decoder line_bytes decoder_event decoder_data has_data]. rewrite Hrest. by destruct (feed rest new_decoder).
Qed.

(** C17: decoding an event stream does not depend on how the network cuts it
    into chunks, not even inside a char, and events written line by line are
    read back: their names, their data with its lines, in order, and nothing
    else. *)
Theorem sse_round_trip (chunks : list (list N)) :
  decode_stream chunks = decode_stream [concat chunks]
  /\ forall es, Forall writable es ->
     concat chunks = concat (map (fun e => written (fst e) (snd e)) es) ->
     decode_stream chunks = map event_of es.
Proof.
  assert (H : forall chunks, decode_stream chunks
    = let '(d, out) := feed (concat chunks) new_decoder in out ++ snd (finish_decoder d)).
  { intros c. unfold decode_stream. by rewrite feed_all_concat. }
  split; [rewrite !H; cbn [concat]; by rewrite app_nil_r|]. intros es Hes E. rewrite H, E.
  assert (Hf : feed (concat (map (fun e => written (fst e) (snd e)) es)) new_decoder = (new_decoder, map event_of es)).
  { clear E. induction Hes as [|e es He Hes IH]; [apply feed_nil|]. cbn [map concat].
    rewrite feed_written by done. by rewrite IH. }
  rewrite Hf. cbn. by rewrite app_nil_r.
Qed.
