(* ===== verification/Providers.v ===== *)
(** Provider streams ([z-engine-llm/src], files [openai/stream.rs],
    [anthropic/stream.rs] and [transport.rs]): the server-sent events of a
    response become the events of [types.rs], up to a stop or an error. *)

From S2P Require Export Sse Model.

Open Scope N_scope.

Abbreviation StreamItem := (result LlmError ModelEvent) (only parsing).

(** [u64::from_str] *)
Fixpoint parse_digits (acc : N) (t : text) : option N :=
  match t with
  | [] => Some acc
  | c :: t => if is_ascii_digit c then parse_digits (acc * 10 + (c - 48)) t else None
  end.

Definition parse_u64 (t : text) : option N :=
  let digits := default t (strip_prefix (str "+") t) in
  if is_empty digits then None
  else match parse_digits 0 digits with
       | Some n => if n <? U64 then Some n else None
       | None => None
       end.

(** The trait [StreamParser]. *)
Record StreamParser (St : Type) := mkStreamParser {
  push_event : SseEvent -> St -> St * list StreamItem;
  parser_end : St -> St * list StreamItem
}.
Arguments mkStreamParser {St} _ _.
Arguments push_event {St} _ _ _.
Arguments parser_end {St} _ _.

Section WithJson.
Context {J : Json} {T : JsonText}.

(** Nested [get]s, as [pointer] and chains of [and_then] make them. *)
Fixpoint get_path (v : json) (keys : list text) : option json :=
  match keys with
  | [] => Some v
  | key :: keys => match json_get v key with Some v => get_path v keys | None => None end
  end.

Definition get_str (v : json) (key : text) : option text :=
  match json_get v key with Some v => as_str v | None => None end.

Definition get_u64 (v : json) (key : text) : option N :=
  match json_get v key with Some v => as_u64 v | None => None end.

Definition non_empty (t : text) : option text := if is_empty t then None else Some t.

Definition non_null (v : json) : option json := if is_null v then None else Some v.

Definition or_else {A} (a b : option A) : option A := match a with Some _ => a | None => b end.

(** * [openai/stream.rs] *)

Record ToolState := mkToolState {
  state_id : option id;
  state_name : text;
  pending_json : text;
  started : bool;
  ended : bool
}.

Definition new_tool_state : ToolState := mkToolState None [] [] false false.

(** [tools] is kept in the order of its keys. *)
Record ChatParser := mkChatParser {
  chat_tools : list (N * ToolState);
  chat_finish : option text;
  chat_usage : option Usage
}.

Definition new_chat : ChatParser := mkChatParser [] None None.

Fixpoint find_tool (index : N) (l : list (N * ToolState)) : option ToolState :=
  match l with
  | [] => None
  | (k, t) :: l => if k =? index then Some t else find_tool index l
  end.

Fixpoint put_tool (index : N) (t : ToolState) (l : list (N * ToolState)) : list (N * ToolState) :=
  match l with
  | [] => [(index, t)]
  | (k, u) :: l =>
      if k =? index then (index, t) :: l
      else if index <? k then (index, t) :: (k, u) :: l
      else (k, u) :: put_tool index t l
  end.

Definition set_tools (l : list (N * ToolState)) (p : ChatParser) : ChatParser :=
  mkChatParser l (chat_finish p) (chat_usage p).

Definition argument_text (v : json) : text :=
  match as_str v with
  | Some t => t
  | None => if is_null v then [] else to_text v
  end.

Definition chunk_error (error : json) : LlmError :=
  let code :=
    match json_get error (str "code") with
    | Some code => or_else (as_u64 code) (match as_str code with Some t => parse_u64 t | None => None end)
    | None => None
    end in
  let status := match code with Some c => if in_range 100 599 c then c else 500 | None => 500 end in
  Http status (match or_else (get_str error (str "message")) (as_str error) with
               | Some t => t
               | None => to_text error
               end).

Definition parse_usage (usage : json) : option Usage :=
  let count v := match v with Some v => default 0 (as_u64 v) | None => 0 end in
  let details := json_get usage (str "prompt_tokens_details") in
  let of_details key := match details with Some d => json_get d key | None => None end in
  let cached := or_else (of_details (str "cached_tokens")) (json_get usage (str "prompt_cache_hit_tokens")) in
  let cache_read := count cached in
  let cache_write := count (of_details (str "cache_write_tokens")) in
  let reasoning := get_path usage [str "completion_tokens_details"; str "reasoning_tokens"] in
  let parsed :=
    mkUsage (count (json_get usage (str "prompt_tokens")) - cache_read - cache_write)
      (count (json_get usage (str "completion_tokens"))) cache_read cache_write (count reasoning) in
  if usage_is_empty parsed then None else Some parsed.

Definition chat_stop (reason : text) (saw_tools : bool) : StopReason :=
  if teqb reason (str "stop") then (if saw_tools then ToolUse else EndTurn)
  else if teqb reason (str "tool_calls") || teqb reason (str "function_call") then ToolUse
  else if teqb reason (str "length") then MaxTokens
  else if teqb reason (str "content_filter") then Refusal
  else OtherStop reason.

(** [tool_delta]; [fresh] is the identifier of a call that has none. *)
Definition tool_delta (fresh : N -> id) (position : N) (call : json) (p : ChatParser)
  : ChatParser * list StreamItem :=
  let index := default position (get_u64 call (str "index")) in
  let tool := default new_tool_state (find_tool index (chat_tools p)) in
  let own := match get_str call (str "id") with Some i => non_empty i | None => None end in
  let tool := match state_id tool with
              | Some _ => tool
              | None => mkToolState own (state_name tool) (pending_json tool) (started tool) (ended tool)
              end in
  let function := json_get call (str "function") in
  let arguments :=
    match function with
    | Some f => match json_get f (str "arguments") with Some v => argument_text v | None => [] end
    | None => []
    end in
  let put t := set_tools (put_tool index t (chat_tools p)) p in
  if started tool then (put tool, if is_empty arguments then [] else [Ok (ToolUseDelta index arguments)])
  else
    let waiting := pending_json tool ++ arguments in
    let n := match function with
             | Some f => match get_str f (str "name") with Some n => non_empty n | None => None end
             | None => None
             end in
    match n with
    | None => (put (mkToolState (state_id tool) (state_name tool) waiting false (ended tool)), [])
    | Some n =>
        (put (mkToolState (state_id tool) n [] true (ended tool)),
         Ok (ToolUseStart index (default (fresh index) (state_id tool)) n)
         :: (if is_empty waiting then [] else [Ok (ToolUseDelta index waiting)]))
    end.

Fixpoint tool_deltas (fresh : N -> id) (position : N) (calls : list json) (p : ChatParser)
  : ChatParser * list StreamItem :=
  match calls with
  | [] => (p, [])
  | call :: calls =>
      let '(p, out) := tool_delta fresh position call p in
      let '(p, more) := tool_deltas fresh (position + 1) calls p in (p, out ++ more)
  end.

Definition chat_delta (fresh : N -> id) (delta : json) (p : ChatParser) : ChatParser * list StreamItem :=
  let reasoning := or_else (get_str delta (str "reasoning_content")) (get_str delta (str "reasoning")) in
  let thought := match reasoning with Some t => if is_empty t then [] else [Ok (ThinkingPiece t)] | None => [] end in
  let said := match get_str delta (str "content") with
              | Some t => if is_empty t then [] else [Ok (TextPiece t)]
              | None => []
              end in
  let calls := match json_get delta (str "tool_calls") with Some v => default [] (as_array v) | None => [] end in
  let '(p, out) := tool_deltas fresh 0 calls p in (p, thought ++ said ++ out).

Definition end_tool (t : N * ToolState) : list StreamItem :=
  if started (snd t) && negb (ended (snd t)) then [Ok (ToolUseEnd (fst t))] else [].

Definition mark_ended (t : N * ToolState) : N * ToolState :=
  (fst t, mkToolState (state_id (snd t)) (state_name (snd t)) (pending_json (snd t)) (started (snd t)) true).

Definition end_tools (p : ChatParser) : ChatParser * list StreamItem :=
  (set_tools (map mark_ended (chat_tools p)) p, concat (map end_tool (chat_tools p))).

Definition chat_complete (p : ChatParser) : ChatParser * list StreamItem :=
  let '(p, out) := end_tools p in
  let saw_tools := existsb (fun t => started (snd t)) (chat_tools p) in
  let stop := match chat_finish p with
              | Some reason => chat_stop reason saw_tools
              | None => if saw_tools then ToolUse else EndTurn
              end in
  (mkChatParser (chat_tools p) None None,
   out ++ (match chat_usage p with Some u => [Ok (UsageSoFar u)] | None => [] end) ++ [Ok (Stop stop)]).

(** [ChatStreamParser::push] *)
Definition chat_push (fresh : N -> id) (event : SseEvent) (p : ChatParser) : ChatParser * list StreamItem :=
  if is_done event then chat_complete p
  else match parse_json (event_data event) with
       | Err _ => (p, [])
       | Ok chunk =>
           match match json_get chunk (str "error") with Some e => non_null e | None => None end with
           | Some error => (p, [Err (chunk_error error)])
           | None =>
               let usage :=
                 or_else (match json_get chunk (str "usage") with Some u => non_null u | None => None end)
                   (get_path chunk [str "x_groq"; str "usage"]) in
               let p := match match usage with Some u => parse_usage u | None => None end with
                        | Some u => mkChatParser (chat_tools p) (chat_finish p) (Some u)
                        | None => p
                        end in
               let choice :=
                 match json_get chunk (str "choices") with
                 | Some v => match as_array v with Some (c :: _) => Some c | _ => None end
                 | None => None
                 end in
               match choice with
               | None => (p, [])
               | Some choice =>
                   let '(p, out) :=
                     match or_else (json_get choice (str "delta")) (json_get choice (str "message")) with
                     | Some delta => chat_delta fresh delta p
                     | None => (p, [])
                     end in
                   match get_str choice (str "finish_reason") with
                   | Some reason =>
                       let '(p, ends) := end_tools (mkChatParser (chat_tools p) (Some reason) (chat_usage p)) in
                       (p, out ++ ends)
                   | None => (p, out)
                   end
               end
           end
       end.

(** [ChatStreamParser::finish] *)
Definition chat_end (p : ChatParser) : ChatParser * list StreamItem :=
  match chat_finish p with
  | Some _ => chat_complete p
  | None => (p, [Err (StreamError (str "stream ended unexpectedly"))])
  end.

(** * [anthropic/stream.rs] *)

Record MessagesParser := mkMessagesParser {
  open_tools : list N;
  messages_usage : Usage;
  messages_stop : option StopReason
}.

Definition new_messages : MessagesParser := mkMessagesParser [] usage_default None.

(** A [BTreeSet] as its sorted elements. *)
Fixpoint insert_index (i : N) (l : list N) : list N :=
  match l with
  | [] => [i]
  | k :: l => if k =? i then k :: l else if i <? k then i :: k :: l else k :: insert_index i l
  end.

Definition remove_index (i : N) (l : list N) : list N := List.filter (fun k => negb (k =? i)) l.

Definition index_of (data : json) : option N := get_u64 data (str "index").

Definition anthropic_stop (reason : text) : StopReason :=
  if teqb reason (str "end_turn") then EndTurn
  else if teqb reason (str "tool_use") then ToolUse
  else if teqb reason (str "max_tokens") then MaxTokens
  else if teqb reason (str "stop_sequence") then StopSequence
  else if teqb reason (str "refusal") then Refusal
  else OtherStop reason.

Definition stream_error (error : json) : LlmError :=
  let detail := match get_str error (str "message") with Some t => t | None => to_text error end in
  let kind := default [] (get_str error (str "type")) in
  if teqb kind (str "overloaded_error") then Overloaded 1 detail
  else if teqb kind (str "rate_limit_error") then RateLimited 1 detail
  else
    Http (if teqb kind (str "invalid_request_error") then 400
          else if teqb kind (str "authentication_error") then 401
          else if teqb kind (str "permission_error") then 403
          else if teqb kind (str "not_found_error") then 404
          else if teqb kind (str "request_too_large") then 413
          else 500) detail.

Definition text_field (v : json) (key : text) : option text :=
  match get_str v key with Some t => non_empty t | None => None end.

Definition block_start (data : json) (p : MessagesParser) : MessagesParser * list StreamItem :=
  match index_of data, json_get data (str "content_block") with
  | Some index, Some block =>
      let kind := default [] (get_str block (str "type")) in
      let piece (f : text -> ModelEvent) key : list StreamItem :=
        match text_field block key with Some t => [Ok (f t)] | None => [] end in
      if teqb kind (str "text") then (p, piece TextPiece (str "text"))
      else if teqb kind (str "thinking") then
        (p, piece ThinkingPiece (str "thinking") ++ piece ThinkingSignature (str "signature"))
      else if teqb kind (str "redacted_thinking") then
        (p, [Ok (RedactedPiece (default [] (text_field block (str "data"))))])
      else if teqb kind (str "tool_use") then
        (mkMessagesParser (insert_index index (open_tools p)) (messages_usage p) (messages_stop p),
         [Ok (ToolUseStart index (default [] (text_field block (str "id"))) (default [] (text_field block (str "name"))))])
      else (p, [])
  | _, _ => (p, [])
  end.

Definition block_delta (data : json) : list StreamItem :=
  match index_of data, json_get data (str "delta") with
  | Some index, Some delta =>
      let kind := default [] (get_str delta (str "type")) in
      let piece (f : text -> ModelEvent) key : list StreamItem :=
        match text_field delta key with Some t => [Ok (f t)] | None => [] end in
      if teqb kind (str "text_delta") then piece TextPiece (str "text")
      else if teqb kind (str "thinking_delta") then piece ThinkingPiece (str "thinking")
      else if teqb kind (str "signature_delta") then piece ThinkingSignature (str "signature")
      else if teqb kind (str "input_json_delta") then piece (ToolUseDelta index) (str "partial_json")
      else []
  | _, _ => []
  end.

Definition update_usage (usage : json) (p : MessagesParser) : MessagesParser :=
  let field key old := default old (get_u64 usage key) in
  let u := messages_usage p in
  mkMessagesParser (open_tools p)
    (mkUsage (field (str "input_tokens") (input_tokens u)) (field (str "output_tokens") (output_tokens u))
       (field (str "cache_read_input_tokens") (cache_read_tokens u))
       (field (str "cache_creation_input_tokens") (cache_write_tokens u)) (reasoning_tokens u))
    (messages_stop p).

Definition messages_complete (p : MessagesParser) : MessagesParser * list StreamItem :=
  (mkMessagesParser [] (messages_usage p) None,
   map (fun index => Ok (ToolUseEnd index)) (open_tools p)
   ++ (if usage_is_empty (messages_usage p) then [] else [Ok (UsageSoFar (messages_usage p))])
   ++ [Ok (Stop (default EndTurn (messages_stop p)))]).

(** [MessagesStreamParser::push] *)
Definition messages_push (event : SseEvent) (p : MessagesParser) : MessagesParser * list StreamItem :=
  match parse_json (event_data event) with
  | Err _ => (p, [])
  | Ok data =>
      let kind := default [] (or_else (get_str data (str "type")) (event_name event)) in
      if teqb kind (str "message_start") then
        (match get_path data [str "message"; str "usage"] with Some u => update_usage u p | None => p end, [])
      else if teqb kind (str "content_block_start") then block_start data p
      else if teqb kind (str "content_block_delta") then (p, block_delta data)
      else if teqb kind (str "content_block_stop") then
        match index_of data with
        | Some index =>
            if existsb (N.eqb index) (open_tools p) then
              (mkMessagesParser (remove_index index (open_tools p)) (messages_usage p) (messages_stop p),
               [Ok (ToolUseEnd index)])
            else (p, [])
        | None => (p, [])
        end
      else if teqb kind (str "message_delta") then
        let p := match match json_get data (str "delta") with Some d => get_str d (str "stop_reason") | None => None end with
                 | Some reason => mkMessagesParser (open_tools p) (messages_usage p) (Some (anthropic_stop reason))
                 | None => p
                 end in
        (match json_get data (str "usage") with Some u => update_usage u p | None => p end, [])
      else if teqb kind (str "message_stop") then messages_complete p
      else if teqb kind (str "error") then
        (p, [Err (stream_error (default data (json_get data (str "error"))))])
      else (p, [])
  end.

(** [MessagesStreamParser::finish] *)
Definition messages_end (p : MessagesParser) : MessagesParser * list StreamItem :=
  match messages_stop p with
  | Some _ => messages_complete p
  | None => (p, [Err (StreamError (str "stream ended unexpectedly"))])
  end.

(** * [transport.rs] *)

Definition is_terminal_item (item : StreamItem) : bool :=
  match item with Ok (Stop _) | Err _ => true | Ok _ => false end.

Definition chat_parser (fresh : N -> id) : StreamParser ChatParser := mkStreamParser (chat_push fresh) chat_end.
Definition messages_parser : StreamParser MessagesParser := mkStreamParser messages_push messages_end.

(** [forward]: what is sent, and whether a terminal item was. *)
Fixpoint forward (items : list StreamItem) : list StreamItem * bool :=
  match items with
  | [] => ([], false)
  | item :: items =>
      if is_terminal_item item then ([item], true)
      else let '(sent, done) := forward items in (item :: sent, done)
  end.

Fixpoint push_all {St} (p : StreamParser St) (events : list SseEvent) (st : St) : St * list StreamItem * bool :=
  match events with
  | [] => (st, [], false)
  | e :: events =>
      let '(st, items) := push_event p e st in
      let '(sent, over) := forward items in
      if over then (st, sent, true)
      else let '(st, more, over) := push_all p events st in (st, sent ++ more, over)
  end.

(** The body of a response: its chunks, then its end or a failure. *)
Inductive Body := BodyEnd | BodyFailed (cause : text).

Fixpoint read_body {St} (p : StreamParser St) (chunks : list (list N)) (body : Body) (d : SseDecoder) (st : St)
  : list StreamItem :=
  match chunks with
  | chunk :: chunks =>
      let '(d, events) := feed chunk d in
      let '(st, sent, over) := push_all p events st in
      if over then sent else sent ++ read_body p chunks body d st
  | [] =>
      match body with
      | BodyFailed cause => fst (forward [Err (StreamError cause)])
      | BodyEnd =>
          let '(st, sent, over) := push_all p (snd (finish_decoder d)) st in
          if over then sent else sent ++ fst (forward (snd (parser_end p st)))
      end
  end.

(** A gateway that answered with one JSON value. *)
Definition read_json {St} (p : StreamParser St) (body : result text text) (st : St) : list StreamItem :=
  match body with
  | Ok data =>
      let '(st, items) := push_event p (mkSseEvent None data) st in
      fst (forward (if existsb is_terminal_item items then items else items ++ snd (parser_end p st)))
  | Err cause => fst (forward [Err (StreamError cause)])
  end.

End WithJson.
