(* ===== verification/ProvidersFacts.v ===== *)
(** Provider streams: a response ends with one stop or one error, whatever the
    chunking of its body, and the calls of a chat stream are announced once,
    filled after that and never lose a fragment of their arguments. *)

From Stdlib Require Import Sorted Zify ZifyBool ZifyN.
From S2P Require Import Sse.
From S2P Require Export Providers.

Open Scope N_scope.

(** * The driver *)

Section Driver.
Context {J : Json} {T : JsonText} {St : Type} (p : StreamParser St).

(** Every item of a stream, had it no end. *)
Fixpoint all_items (events : list SseEvent) (st : St) : list StreamItem :=
  match events with
  | [] => snd (parser_end p st)
  | e :: events => let '(st, items) := push_event p e st in items ++ all_items events st
  end.

(** What a consumer may see: no terminal item but the last. *)
Definition ends_once (items : list StreamItem) : Prop :=
  exists sent final, items = sent ++ [final] /\ is_terminal_item final = true
    /\ Forall (fun item => is_terminal_item item = false) sent.

Lemma forward_app a b :
  forward (a ++ b) = let '(sent, over) := forward a in
                     if over then (sent, true) else let '(more, over) := forward b in (sent ++ more, over).
Proof.
  induction a as [|x a IH]; cbn; [by destruct (forward b)|]. destruct (is_terminal_item x); [done|].
  rewrite IH. destruct (forward a) as [sent []]; [done|]. by destruct (forward b).
Qed.

Lemma forward_over a : snd (forward a) = existsb is_terminal_item a.
Proof. induction a as [|x a IH]; cbn; [done|]. destruct (is_terminal_item x); [done|]. by destruct (forward a). Qed.

Lemma forward_ends a : existsb is_terminal_item a = true -> ends_once (fst (forward a)).
Proof.
  induction a as [|x a IH]; cbn; [done|]. destruct (is_terminal_item x) eqn:Ex; cbn.
  - intros _. by exists [], x.
  - intros (sent & final & E & Hf & Hs)%IH. destruct (forward a) as [sent' over]. cbn in *. subst.
    exists (x :: sent), final. split_and!; [done|done|by constructor].
Qed.

Lemma push_all_items events st st' sent over :
  push_all p events st = (st', sent, over) ->
  forall rest, fst (forward (all_items (events ++ rest) st))
    = if over then sent else sent ++ fst (forward (all_items rest st')).
Proof.
  revert st st' sent over. induction events as [|e events IH]; intros st st' sent over; cbn [push_all all_items app].
  - by intros [= <- <- <-].
  - destruct (push_event p e st) as [st1 items]. destruct (forward items) as [s1 o1] eqn:Ef.
    destruct o1; [intros [= <- <- <-]; intros rest; by rewrite forward_app, Ef|].
    destruct (push_all p events st1) as [[st2 more] o2] eqn:Ep. intros [= <- <- <-] rest.
    specialize (IH _ _ _ _ Ep rest). rewrite forward_app, Ef.
    destruct (forward (all_items (events ++ rest) st1)) as [a b]. cbn in *. rewrite IH.
    destruct o2; [done|]. by rewrite app_assoc.
Qed.

(** Reading to the end of the body hands over the events of the decoder. *)
Lemma read_body_end chunks d st :
  read_body p chunks BodyEnd d st
  = fst (forward (all_items (let '(d, out) := feed_all chunks d in out ++ snd (finish_decoder d)) st)).
Proof.
  revert d st. induction chunks as [|c chunks IH]; intros d st; cbn [read_body feed_all].
  - cbn [app]. destruct (push_all p _ st) as [[st' sent] over] eqn:E.
    pose proof (push_all_items _ _ _ _ _ E []) as H. rewrite app_nil_r in H. by rewrite H.
  - destruct (feed c d) as [d1 out]. destruct (push_all p out st) as [[st' sent] over] eqn:E.
    destruct (feed_all chunks d1) as [d2 more] eqn:Ef. rewrite <- app_assoc.
    rewrite (push_all_items _ _ _ _ _ E). destruct over; [done|]. f_equal. rewrite IH. by rewrite Ef.
Qed.

Lemma all_items_end (Hend : forall st, existsb is_terminal_item (snd (parser_end p st)) = true) events st :
  existsb is_terminal_item (all_items events st) = true.
Proof.
  revert st. induction events as [|e events IH]; intros st; cbn; [apply Hend|]. destruct (push_event p e st) as [st' items].
  by rewrite existsb_app, IH, orb_true_r.
Qed.

Lemma push_all_sent events st st' sent over :
  push_all p events st = (st', sent, over) ->
  if over then ends_once sent else Forall (fun item => is_terminal_item item = false) sent.
Proof.
  revert st st' sent over. induction events as [|e events IH]; intros st st' sent over; cbn [push_all].
  - by intros [= <- <- <-].
  - destruct (push_event p e st) as [st1 items]. destruct (forward items) as [s1 o1] eqn:Ef.
    assert (H1 : if o1 then ends_once s1 else Forall (fun item => is_terminal_item item = false) s1).
    { pose proof (forward_over items) as Ho. rewrite Ef in Ho. destruct o1.
      - pose proof (forward_ends items (eq_sym Ho)) as He. by rewrite Ef in He.
      - clear IH. revert s1 Ef Ho. induction items as [|x items IHi]; cbn; intros s1; [by intros [= <-]|].
        destruct (is_terminal_item x) eqn:Ex; [done|]. destruct (forward items) as [s o] eqn:E. intros [= <- ->] Ho.
        constructor; [done|]. by apply IHi. }
    destruct o1; [by intros [= <- <- <-]|].
    destruct (push_all p events st1) as [[st2 more] o2] eqn:Ep. intros [= <- <- <-]. apply IH in Ep. destruct o2.
    + destruct Ep as (sent & final & -> & Hf & Hs). exists (s1 ++ sent), final. split_and!; [by rewrite app_assoc|done|].
      by apply Forall_app.
    + by apply Forall_app.
Qed.

Lemma ends_once_after a b :
  Forall (fun item => is_terminal_item item = false) a -> ends_once b -> ends_once (a ++ b).
Proof.
  intros Ha (sent & final & -> & Hf & Hs). exists (a ++ sent), final.
  split_and!; [by rewrite app_assoc|done|by apply Forall_app].
Qed.

Lemma read_body_once (Hend : forall st, existsb is_terminal_item (snd (parser_end p st)) = true) chunks body d st :
  ends_once (read_body p chunks body d st).
Proof.
  revert d st. induction chunks as [|c chunks IH]; intros d st; cbn [read_body].
  - destruct body; [|by apply forward_ends]. destruct (push_all p _ st) as [[st' sent] over] eqn:E.
    apply push_all_sent in E. destruct over; [done|]. by apply ends_once_after, forward_ends.
  - destruct (feed c d) as [d1 out]. destruct (push_all p out st) as [[st' sent] over] eqn:E.
    apply push_all_sent in E. destruct over; [done|]. by apply ends_once_after.
Qed.

Lemma read_json_once (Hend : forall st, existsb is_terminal_item (snd (parser_end p st)) = true) body st :
  ends_once (read_json p body st).
Proof.
  unfold read_json. destruct body as [data|cause]; [|by apply forward_ends]. destruct (push_event p _ st) as [st' items].
  apply forward_ends. destruct (existsb is_terminal_item items) eqn:E; [done|]. by rewrite existsb_app, E, Hend.
Qed.

End Driver.

Section Parsers.
Context {J : Json} {T : JsonText}.

Lemma chat_end_terminal fresh st : existsb is_terminal_item (snd (parser_end (chat_parser fresh) st)) = true.
Proof.
  cbn. unfold chat_end, chat_complete. destruct (chat_finish st); [|done]. destruct (end_tools st) as [st' out]. cbn.
  by rewrite !existsb_app, !orb_true_r.
Qed.

Lemma messages_end_terminal st : existsb is_terminal_item (snd (parser_end messages_parser st)) = true.
Proof.
  cbn. unfold messages_end, messages_complete. destruct (messages_stop st); [|done]. cbn.
  by rewrite !existsb_app, !orb_true_r.
Qed.

(** C14: a streamed response ends with one stop or one error and nothing is
    sent after it, for both providers, whatever the chunks of the body, its
    bytes and its end, and also when the gateway answers with one JSON value;
    and what a body that is read to its end sends does not depend on how it
    was cut into chunks. *)
Theorem stream_ends_once (fresh : N -> id) (chunks : list (list N)) (body : Body) (whole : result text text) :
  ends_once (read_body (chat_parser fresh) chunks body new_decoder new_chat)
  /\ ends_once (read_body messages_parser chunks body new_decoder new_messages)
  /\ ends_once (read_json (chat_parser fresh) whole new_chat)
  /\ ends_once (read_json messages_parser whole new_messages)
  /\ read_body (chat_parser fresh) chunks BodyEnd new_decoder new_chat
     = read_body (chat_parser fresh) [concat chunks] BodyEnd new_decoder new_chat
  /\ read_body messages_parser chunks BodyEnd new_decoder new_messages
     = read_body messages_parser [concat chunks] BodyEnd new_decoder new_messages.
Proof.
  split_and!.
  - apply read_body_once, chat_end_terminal.
  - apply read_body_once, messages_end_terminal.
  - apply read_json_once, chat_end_terminal.
  - apply read_json_once, messages_end_terminal.
  - rewrite !read_body_end, !feed_all_concat. cbn [concat]. by rewrite app_nil_r.
  - rewrite !read_body_end, !feed_all_concat. cbn [concat]. by rewrite app_nil_r.
Qed.

End Parsers.

(** * The calls of a chat stream *)

(** What a consumer knows of the calls of a stream: those announced and those
    ended. An event is in order when it announces a new call, fills one that
    was announced, or ends one that was announced and not ended. *)
Definition call_seen (known : list N * list N) (item : StreamItem) : option (list N * list N) :=
  let '(announced, finished) := known in
  match item with
  | Ok (ToolUseStart i _ _) => if base.decide (i ∈ announced) then None else Some (i :: announced, finished)
  | Ok (ToolUseDelta i _) => if base.decide (i ∈ announced) then Some known else None
  | Ok (ToolUseEnd i) =>
      if base.decide (i ∈ announced /\ i ∉ finished) then Some (announced, i :: finished) else None
  | _ => Some known
  end.

Fixpoint calls_seen (known : list N * list N) (items : list StreamItem) : option (list N * list N) :=
  match items with
  | [] => Some known
  | item :: items => match call_seen known item with Some known => calls_seen known items | None => None end
  end.

(** The argument text that the events give the call [i]. *)
Definition given (i : N) (item : StreamItem) : text :=
  match item with Ok (ToolUseDelta j t) => if j =? i then t else [] | _ => [] end.

Lemma calls_seen_app known a b :
  calls_seen known (a ++ b) = match calls_seen known a with Some known => calls_seen known b | None => None end.
Proof.
  revert known. induction a as [|x a IH]; intros known; cbn; [done|]. destruct (call_seen known x); [apply IH|done].
Qed.

Section Chat.
Context {J : Json} {T : JsonText}.

(** The fragments of arguments for the call [i] in a chunk. *)
Definition fragment (i position : N) (call : json) : text :=
  if default position (get_u64 call (str "index")) =? i then
    match get_path call [str "function"; str "arguments"] with Some v => argument_text v | None => [] end
  else [].

Fixpoint fragments (i position : N) (calls : list json) : text :=
  match calls with
  | [] => []
  | call :: calls => fragment i position call ++ fragments i (position + 1) calls
  end.

(** The calls that an event of the stream carries. *)
Definition calls_of (event : SseEvent) : list json :=
  if is_done event then []
  else match parse_json (event_data event) with
       | Err _ => []
       | Ok chunk =>
           match match json_get chunk (str "error") with Some e => non_null e | None => None end with
           | Some _ => []
           | None =>
               match match json_get chunk (str "choices") with
                     | Some v => match as_array v with Some (c :: _) => Some c | _ => None end
                     | None => None
                     end with
               | None => []
               | Some choice =>
                   match or_else (json_get choice (str "delta")) (json_get choice (str "message")) with
                   | Some delta =>
                       match json_get delta (str "tool_calls") with Some v => default [] (as_array v) | None => [] end
                   | None => []
                   end
               end
           end
       end.

Definition tool_at (p : ChatParser) (i : N) : ToolState := default new_tool_state (find_tool i (chat_tools p)).

(** What the parser remembers of the calls, against what a consumer knows. *)
Definition in_step (p : ChatParser) (known : list N * list N) : Prop :=
  StronglySorted N.lt (map fst (chat_tools p))
  /\ forall i, (i ∈ known.1 <-> started (tool_at p i) = true)
      /\ (i ∈ known.2 -> ended (tool_at p i) = true)
      /\ (started (tool_at p i) = true -> pending_json (tool_at p i) = []).

Lemma find_put i j t l :
  StronglySorted N.lt (map fst l) ->
  find_tool j (put_tool i t l) = if i =? j then Some t else find_tool j l.
Proof.
  induction l as [|[k u] l IH]; cbn [put_tool find_tool map fst]; [done|].
  intros [Hs Hk]%StronglySorted_inv. destruct (N.eqb_spec k i) as [->|Hki].
  - cbn. by destruct (i =? j) eqn:Eij.
  - destruct (i <? k) eqn:Eik; cbn [find_tool].
    + done.
    + rewrite IH by done. destruct (N.eqb_spec k j) as [->|]; [|done]. by replace (i =? j) with false by lia.
Qed.

Lemma put_sorted i t l : StronglySorted N.lt (map fst l) -> StronglySorted N.lt (map fst (put_tool i t l)).
Proof.
  assert (Hin : forall k l, Forall (N.lt k) (map fst l) -> k < i -> Forall (N.lt k) (map fst (put_tool i t l))).
  { intros k l'. induction l' as [|[m u] l' IH]; cbn; [by repeat constructor|]. intros [Hm Hf]%Forall_cons Hk.
    destruct (m =? i); [by constructor|]. destruct (i <? m); cbn; constructor; [done|by constructor|done|auto]. }
  induction l as [|[k u] l IH]; cbn [put_tool map fst]; [by repeat constructor|].
  intros [Hs Hk]%StronglySorted_inv. destruct (N.eqb_spec k i) as [->|Hki]; [by constructor|].
  destruct (i <? k) eqn:Eik; cbn [map fst].
  - constructor; [by constructor|]. constructor; [lia|]. eapply Forall_impl; [done|]. intros x. lia.
  - constructor; [auto|]. apply Hin; [done|lia].
Qed.

Lemma tool_at_put p i j t :
  StronglySorted N.lt (map fst (chat_tools p)) ->
  tool_at (set_tools (put_tool i t (chat_tools p)) p) j = if i =? j then t else tool_at p j.
Proof. intros Hs. unfold tool_at, set_tools. cbn. rewrite find_put by done. by destruct (i =? j). Qed.

(** Storing a call and telling the consumer what happened to it. *)
Lemma in_step_put p known i t announced finished :
  in_step p known ->
  (forall j, j <> i -> (j ∈ announced <-> j ∈ known.1) /\ (j ∈ finished -> j ∈ known.2)) ->
  (i ∈ announced <-> started t = true) -> (i ∈ finished -> ended t = true) ->
  (started t = true -> pending_json t = []) ->
  in_step (set_tools (put_tool i t (chat_tools p)) p) (announced, finished).
Proof.
  intros [Hs Hk] Ho Ha Hf Hp. split; [by apply put_sorted|]. intros j. rewrite tool_at_put by done. cbn [fst snd].
  destruct (N.eqb_spec i j) as [<-|Hij]; [done|]. destruct (Ho j) as [H1 H2]; [done|].
  destruct (Hk j) as (K1 & K2 & K3). split_and!; [by rewrite H1|auto|done].
Qed.

(** One call of a chunk. *)
Lemma tool_delta_step fresh position call p known p' out :
  in_step p known -> tool_delta fresh position call p = (p', out) ->
  exists known', calls_seen known out = Some known' /\ in_step p' known'
    /\ forall i, concat (map (given i) out) ++ pending_json (tool_at p' i)
        = pending_json (tool_at p i) ++ fragment i position call.
Proof.
  intros Hin. pose proof Hin as [Hs Hk]. destruct known as [announced finished]. unfold tool_delta.
  set (i := default position (get_u64 call (str "index"))).
  set (args := match json_get call (str "function") with
               | Some f => match json_get f (str "arguments") with Some v => argument_text v | None => [] end
               | None => [] end).
  assert (Efr : forall j, fragment j position call = if i =? j then args else []).
  { intros j. unfold fragment, args. fold i. cbn [get_path]. destruct (i =? j); [|done].
    destruct (json_get call (str "function")) as [f|]; [|done]. by destruct (json_get f (str "arguments")). }
  set (own := match get_str call (str "id") with Some i => non_empty i | None => None end).
  fold (tool_at p i). set (tool := match state_id (tool_at p i) with Some _ => tool_at p i | None => _ end).
  destruct (Hk i) as (Ka & Kf & Kp). cbn [fst snd] in *.
  assert (Es : started tool = started (tool_at p i)) by (unfold tool; by destruct (state_id _)).
  assert (Ee : ended tool = ended (tool_at p i)) by (unfold tool; by destruct (state_id _)).
  assert (Ep : pending_json tool = pending_json (tool_at p i)) by (unfold tool; by destruct (state_id _)).
  destruct (started tool) eqn:Est.
  - intros [= <- <-]. exists (announced, finished). split_and!.
    + destruct (is_empty args); cbn; [done|]. by rewrite decide_True by (by apply Ka).
    + apply in_step_put with (known := (announced, finished)); try done.
      * by rewrite Ka, Est, <- Es.
      * rewrite Ee. auto.
      * rewrite Ep. intros _. by apply Kp.
    + intros j. rewrite tool_at_put, Efr by done. destruct (N.eqb_spec i j) as [<-|Hij].
      * rewrite Ep, Kp by done. destruct args; cbn; [done|]. rewrite N.eqb_refl. cbn. by rewrite !app_nil_r.
      * rewrite app_nil_r. destruct (is_empty args); cbn; [done|]. by replace (i =? j) with false by lia.
  - assert (Hna : i ∉ announced) by (rewrite Ka, <- Es; done).
    destruct (match json_get call (str "function") with Some f => _ | None => None end) as [n|].
    + intros [= <- <-]. exists (i :: announced, finished). split_and!.
      * cbn. rewrite decide_False by done. destruct (is_empty _); cbn; [done|]. by rewrite decide_True by left.
      * apply in_step_put with (known := (announced, finished)); cbn; try done.
        -- intros j Hj. split; [|done]. rewrite elem_of_cons. split; [by intros [?|?]|by right].
        -- split; [done|]. by left.
        -- rewrite Ee. auto.
      * intros j. rewrite tool_at_put, Efr by done. cbn [map concat given app].
        destruct (N.eqb_spec i j) as [<-|Hij]; cbn.
        -- rewrite <- Ep. destruct (pending_json tool ++ args) eqn:E; cbn; [done|]. rewrite N.eqb_refl.
           by rewrite !app_nil_r.
        -- rewrite app_nil_r. destruct (is_empty _); cbn; [done|]. by replace (i =? j) with false by lia.
    + intros [= <- <-]. exists (announced, finished). split_and!; [done| |].
      * apply in_step_put with (known := (announced, finished)); cbn; try done. by rewrite Ee.
      * intros j. rewrite tool_at_put, Efr by done. cbn. destruct (N.eqb_spec i j) as [<-|Hij]; cbn; [by rewrite Ep|].
        by rewrite app_nil_r.
Qed.

(** One step of a stream keeps the consumer in step and drops no argument. *)
Definition keeps (p : ChatParser) (out : list StreamItem) (p' : ChatParser) (arrived : N -> text) : Prop :=
  forall known, in_step p known ->
    exists known', calls_seen known out = Some known' /\ in_step p' known'
      /\ forall i, concat (map (given i) out) ++ pending_json (tool_at p' i) = pending_json (tool_at p i) ++ arrived i.

Lemma keeps_then p a p1 b p2 f g :
  keeps p a p1 f -> keeps p1 b p2 g -> keeps p (a ++ b) p2 (fun i => f i ++ g i).
Proof.
  intros H1 H2 known Hk. destruct (H1 known Hk) as (k1 & E1 & Hk1 & G1). destruct (H2 k1 Hk1) as (k2 & E2 & Hk2 & G2).
  exists k2. rewrite calls_seen_app, E1. split_and!; [done|done|]. intros i.
  by rewrite map_app, concat_app, <- app_assoc, G2, !app_assoc, G1.
Qed.

Lemma keeps_ext p a p' f g : (forall i, f i = g i) -> keeps p a p' f -> keeps p a p' g.
Proof.
  intros E H known Hk. destruct (H known Hk) as (k & Ek & Hk' & G). exists k. split_and!; [done|done|].
  intros i. by rewrite G, E.
Qed.

(** Items that are not about calls. *)
Definition about_no_call (item : StreamItem) : Prop :=
  match item with Ok (ToolUseStart _ _ _) | Ok (ToolUseDelta _ _) | Ok (ToolUseEnd _) => False | _ => True end.

Lemma keeps_quiet p p' out :
  chat_tools p' = chat_tools p -> Forall about_no_call out -> keeps p out p' (fun _ => []).
Proof.
  intros Ht Hq known Hk. assert (Hat : forall i, tool_at p' i = tool_at p i) by (intros i; unfold tool_at; by rewrite Ht).
  exists known. split_and!.
  - induction Hq as [|x out Hx Hq IH]; cbn; [done|]. destruct known as [a b].
    replace (call_seen (a, b) x) with (Some (a, b)); [done|]. by destruct x as [[]|].
  - destruct Hk as [Hs Hk]. split; [by rewrite Ht|]. intros i. rewrite Hat. apply Hk.
  - intros i. rewrite Hat, app_nil_r. induction Hq as [|x out Hx Hq IH]; cbn; [done|]. by destruct x as [[]|].
Qed.

Lemma keeps_deltas fresh calls position p p' out :
  tool_deltas fresh position calls p = (p', out) -> keeps p out p' (fun i => fragments i position calls).
Proof.
  revert position p p' out. induction calls as [|call calls IH]; intros position p p' out; cbn [tool_deltas fragments].
  - intros [= <- <-]. by apply keeps_quiet.
  - destruct (tool_delta _ _ _ _) as [p1 a] eqn:E1. destruct (tool_deltas _ _ _ p1) as [p2 b] eqn:E2. intros [= <- <-].
    apply keeps_then with (p1 := p1); [|by apply IH]. intros known Hk. by eapply tool_delta_step.
Qed.

(** Ending the open calls. *)
Lemma find_mark i l :
  find_tool i (map mark_ended l)
  = option_map (fun t => mkToolState (state_id t) (state_name t) (pending_json t) (started t) true) (find_tool i l).
Proof. induction l as [|[k t] l IH]; cbn; [done|]. by destruct (k =? i). Qed.

Lemma find_in i l : i ∉ map fst l -> find_tool i l = None.
Proof.
  induction l as [|[k t] l IH]; cbn; [done|]. rewrite not_elem_of_cons. intros [Hk Hl].
  replace (k =? i) with false by lia. auto.
Qed.

Lemma ends_given i l : concat (map (given i) (concat (map end_tool l))) = [].
Proof. induction l as [|[k t] l IH]; cbn; [done|]. unfold end_tool at 1. by destruct (started _ && _). Qed.

Lemma ends_seen l announced finished :
  NoDup (map fst l) ->
  (forall i t, find_tool i l = Some t -> started t = true -> i ∈ announced) ->
  (forall i t, find_tool i l = Some t -> ended t = false -> i ∉ finished) ->
  exists more, calls_seen (announced, finished) (concat (map end_tool l)) = Some (announced, more)
    /\ forall i, i ∈ more -> i ∈ finished \/ i ∈ map fst l.
Proof.
  revert finished. induction l as [|[k t] l IH]; intros finished; cbn [map concat]; [intros _ _ _; exists finished; auto|].
  intros [Hk Hn]%NoDup_cons Ha Hf. cbn [fst] in *.
  assert (Hne : forall i u, find_tool i l = Some u -> (k =? i) = false).
  { intros i u Hu. destruct (N.eqb_spec k i) as [<-|]; [|done]. by rewrite find_in in Hu. }
  assert (Ha' : forall i u, find_tool i l = Some u -> started u = true -> i ∈ announced).
  { intros i u Hu. apply Ha. cbn. by rewrite (Hne _ _ Hu). }
  unfold end_tool at 1. cbn [fst snd]. destruct (started t && negb (ended t)) eqn:E.
  - apply andb_prop in E as [Es Ee]. destruct (IH (k :: finished)) as (more & Em & Hm); [done|done| |].
    + intros i u Hu Hend. rewrite not_elem_of_cons. split; [specialize (Hne _ _ Hu); lia|].
      apply (Hf i u); [|done]. cbn. by rewrite (Hne _ _ Hu).
    + exists more. cbn [app calls_seen call_seen]. rewrite decide_True; [split; [done|]|].
      * intros i [[->|]%elem_of_cons|]%Hm; rewrite elem_of_cons; auto.
      * split; [apply (Ha k t); [cbn; by rewrite N.eqb_refl|done]|].
        apply (Hf k t); [cbn; by rewrite N.eqb_refl|by destruct (ended t)].
  - destruct (IH finished) as (more & Em & Hm); [done|done| |].
    + intros i u Hu. apply Hf. cbn. by rewrite (Hne _ _ Hu).
    + exists more. split; [done|]. intros i [|]%Hm; rewrite elem_of_cons; auto.
Qed.

Lemma sorted_nodup l : StronglySorted N.lt l -> NoDup l.
Proof.
  induction 1 as [|k l Hs IH Hk]; constructor; [|done]. intros Hin. rewrite Forall_forall in Hk. specialize (Hk _ Hin). lia.
Qed.

Lemma keeps_ends p p' out : end_tools p = (p', out) -> keeps p out p' (fun _ => []).
Proof.
  unfold end_tools. intros [= <- <-] [announced finished] [Hs Hk].
  assert (Hmap : map fst (map mark_ended (chat_tools p)) = map fst (chat_tools p)) by (rewrite map_map; by apply map_ext).
  assert (Hat : forall i, started (tool_at (set_tools (map mark_ended (chat_tools p)) p) i) = started (tool_at p i)
      /\ pending_json (tool_at (set_tools (map mark_ended (chat_tools p)) p) i) = pending_json (tool_at p i)
      /\ (ended (tool_at p i) = true \/ i ∈ map fst (chat_tools p) ->
          ended (tool_at (set_tools (map mark_ended (chat_tools p)) p) i) = true)).
  { intros i. unfold tool_at. cbn [chat_tools set_tools]. rewrite find_mark.
    destruct (find_tool i (chat_tools p)) eqn:E; cbn; [auto|]. split_and!; [done|done|]. intros [|Hi]; [done|]. exfalso.
    clear -E Hi. induction (chat_tools p) as [|[k t] l IH]; cbn in *; [by apply not_elem_of_nil in Hi|].
    destruct (N.eqb_spec k i) as [->|Hki]; [done|]. apply elem_of_cons in Hi as [|]; [congruence|auto]. }
  destruct (ends_seen (chat_tools p) announced finished) as (more & Em & Hm).
  - by apply sorted_nodup.
  - intros i t Ht Hst. apply (Hk i). unfold tool_at. by rewrite Ht.
  - intros i t Ht Hend Hi. apply Hk in Hi. unfold tool_at in Hi. rewrite Ht in Hi. cbn in Hi. congruence.
  - exists (announced, more). split_and!; [done| |].
    + split; [cbn; by rewrite Hmap|]. intros i. destruct (Hat i) as (-> & -> & He). destruct (Hk i) as (K1 & K2 & K3).
      cbn [fst snd] in *. split_and!; [done| |done]. intros [Hi|Hi]%Hm; apply He; auto.
    + intros i. destruct (Hat i) as (_ & -> & _). by rewrite ends_given, app_nil_r.
Qed.

Lemma keeps_complete p p' out : chat_complete p = (p', out) -> keeps p out p' (fun _ => []).
Proof.
  unfold chat_complete. destruct (end_tools p) as [p1 ends] eqn:E. intros [= <- <-].
  apply (keeps_ext _ _ _ (fun _ => [] ++ [])); [done|]. apply keeps_then with (p1 := p1); [by apply keeps_ends|].
  apply keeps_quiet; [done|]. apply Forall_app. split; [by destruct (chat_usage p1); repeat constructor|by repeat constructor].
Qed.

Lemma keeps_delta fresh delta p p' out :
  chat_delta fresh delta p = (p', out) ->
  keeps p out p' (fun i => fragments i 0
    (match json_get delta (str "tool_calls") with Some v => default [] (as_array v) | None => [] end)).
Proof.
  unfold chat_delta. destruct (tool_deltas _ _ _ _) as [p1 calls] eqn:E. intros [= <- <-]. rewrite app_assoc.
  apply (keeps_ext _ _ _ (fun i => [] ++ fragments i 0 (match json_get delta (str "tool_calls") with
                                                         | Some v => default [] (as_array v) | None => [] end))); [done|].
  apply keeps_then with (p1 := p); [|by apply keeps_deltas in E].
  apply keeps_quiet; [done|]. apply Forall_app.
  split; [destruct (or_else _ _) as [t|]; [destruct (is_empty t)|]|destruct (get_str _ _) as [t|]; [destruct (is_empty t)|]];
    by repeat constructor.
Qed.

Lemma keeps_push fresh event p p' out :
  chat_push fresh event p = (p', out) -> keeps p out p' (fun i => fragments i 0 (calls_of event)).
Proof.
  unfold chat_push, calls_of. destruct (is_done event); [by apply keeps_complete|].
  destruct (parse_json _) as [chunk|]; [|by intros [= <- <-]; apply keeps_quiet].
  destruct (match json_get chunk (str "error") with Some e => _ | None => None end);
    [by intros [= <- <-]; apply keeps_quiet; repeat constructor|].
  set (q := match match or_else _ _ with Some u => _ | None => None end with Some u => _ | None => p end).
  assert (Hq : chat_tools q = chat_tools p) by (unfold q; by repeat case_match).
  destruct (match json_get chunk (str "choices") with Some v => _ | None => None end) as [choice|];
    [|by intros [= <- <-]; apply keeps_quiet].
  destruct (match or_else (json_get choice _) _ with Some d => chat_delta fresh d q | None => (q, []) end) as [p1 a] eqn:E.
  assert (H1 : keeps p a p1 (fun i => fragments i 0
    match or_else (json_get choice (str "delta")) (json_get choice (str "message")) with
    | Some delta => match json_get delta (str "tool_calls") with Some v => default [] (as_array v) | None => [] end
    | None => []
    end)).
  { apply (keeps_ext _ _ _ (fun i => [] ++ fragments i 0
      match or_else (json_get choice (str "delta")) (json_get choice (str "message")) with
      | Some delta => match json_get delta (str "tool_calls") with Some v => default [] (as_array v) | None => [] end
      | None => []
      end)); [done|].
    apply (keeps_then p [] q a p1); [by apply keeps_quiet|].
    destruct (or_else (json_get choice _) _) as [d|]; [by apply keeps_delta in E|]. injection E as <- <-. by apply keeps_quiet. }
  destruct (get_str choice _) as [reason|]; [|by intros [= <- <-]].
  destruct (end_tools _) as [p2 ends] eqn:Ee. intros [= <- <-].
  eapply keeps_ext; [|apply (keeps_then _ _ _ _ _ _ (fun _ => []) H1)]; [intros i; cbn; by rewrite app_nil_r|].
  apply (keeps_ext _ _ _ (fun _ => [] ++ [])); [done|].
  apply (keeps_then p1 [] (mkChatParser (chat_tools p1) (Some reason) (chat_usage p1))); [by apply keeps_quiet|].
  by apply keeps_ends.
Qed.

(** The events of a stream pushed one after another. *)
Fixpoint chat_run (fresh : N -> id) (events : list SseEvent) (p : ChatParser) : ChatParser * list StreamItem :=
  match events with
  | [] => (p, [])
  | e :: events => let '(p, out) := chat_push fresh e p in let '(p, more) := chat_run fresh events p in (p, out ++ more)
  end.

Lemma keeps_run fresh events p p' out :
  chat_run fresh events p = (p', out) -> keeps p out p' (fun i => concat (map (fun e => fragments i 0 (calls_of e)) events)).
Proof.
  revert p p' out. induction events as [|e events IH]; intros p p' out; cbn [chat_run map concat].
  - intros [= <- <-]. by apply keeps_quiet.
  - destruct (chat_push fresh e p) as [p1 a] eqn:E1. destruct (chat_run fresh events p1) as [p2 b] eqn:E2. intros [= <- <-].
    apply keeps_then with (p1 := p1); [by apply keeps_push in E1|by apply IH].
Qed.

(** C13: in a chat stream every call is announced once, gets arguments only
    after that and is ended at most once, after it was announced; and the
    arguments that the consumer gets for a call that was announced are the
    fragments that arrived for it, in order, with those that came before its
    name was known (a call without a name gives the consumer nothing, and what
    arrived for it waits). *)
Theorem chat_calls_whole (fresh : N -> id) (events : list SseEvent) :
  let '(p, out) := chat_run fresh events new_chat in
  exists announced finished,
    calls_seen ([], []) out = Some (announced, finished)
    /\ forall i, let arrived := concat (map (fun e => fragments i 0 (calls_of e)) events) in
        concat (map (given i) out) = (if base.decide (i ∈ announced) then arrived else [])
        /\ pending_json (tool_at p i) = (if base.decide (i ∈ announced) then [] else arrived).
Proof.
  destruct (chat_run fresh events new_chat) as [p out] eqn:E. apply keeps_run in E.
  destruct (E ([], [])) as ([announced finished] & Es & [Hs Hk] & Hg).
  { split; [constructor|]. intros i. cbn. split_and!; [split; [by intros ?%elem_of_nil|done]|by intros ?%elem_of_nil|done]. }
  exists announced, finished. split; [done|]. intros i. specialize (Hg i). destruct (Hk i) as (K1 & K2 & K3).
  cbn [fst snd] in *. change (pending_json (tool_at new_chat i)) with (@nil N) in Hg. cbn [app] in Hg.
  destruct (base.decide (i ∈ announced)) as [Hi|Hi].
  - rewrite K3 in * by (by apply K1). by rewrite app_nil_r in Hg.
  - assert (concat (map (given i) out) = []) as E0; [|by rewrite E0 in Hg].
    clear -Es Hi. assert (H : forall known, calls_seen known out = Some (announced, finished) ->
      concat (map (given i) out) = [] /\ forall j, j ∈ known.1 -> j ∈ announced).
    { clear Es. induction out as [|x out IH]; intros [a b]; cbn [calls_seen]; [by intros [= -> ->]|].
      destruct (call_seen (a, b) x) as [known|] eqn:Ex; [|done]. intros [E1 E2]%IH. cbn [map concat]. rewrite E1, app_nil_r.
      assert (Hab : forall j, j ∈ a -> j ∈ announced).
      { intros j Hj. apply E2. destruct x as [[]|]; cbn in Ex; repeat case_decide; simplify_eq; cbn; rewrite ?elem_of_cons; auto. }
      split; [|done]. destruct x as [[]|]; cbn in *; try done. destruct (base.decide (index ∈ a)); [|done].
      destruct (N.eqb_spec index i) as [->|]; [|done]. by destruct Hi; auto. }
    by apply (H ([], [])).
Qed.

End Chat.
