(* ===== verification/Retry.v ===== *)
(** Retries and fallback models ([retry.rs], [fallback.rs] of the llm crate), with what bounds them. *)

From Stdlib Require Import SpecFloat Zify ZifyBool ZifyN.
From stdpp Require Import list.
From S2P Require Export Model.

Open Scope N_scope.

(** * [RetryPolicy] *)

Record RetryPolicy := mkRetryPolicy {
  max_attempts : N;
  base_backoff : N;
  max_backoff : N;
  max_server_delay : N
}.

Definition DEFAULT : RetryPolicy := mkRetryPolicy 5 500000000 (16 * NANOS_PER_SEC) (60 * NANOS_PER_SEC).

Definition U32 : N := 2 ^ 32.

Definition saturating_pow2 (k : N) : N := N.min (2 ^ k) (U32 - 1).

Definition backoff (policy : RetryPolicy) (retry : N) : N :=
  let factor := saturating_pow2 (retry - 1) in
  N.min (N.min (base_backoff policy * factor) DURATION_MAX) (max_backoff policy).

(** A number in a header; [header] gives the values that are text. *)
Definition header_number (header : text -> option text) (name : text) : option f64 :=
  match header name with
  | Some value =>
      match parse_f64 (trim value) with
      | Some v => if is_finite v && SFleb (S754_zero false) v then Some v else None
      | None => None
      end
  | None => None
  end.

Definition server_delay (policy : RetryPolicy) (header : text -> option text) : option N :=
  let seconds :=
    match header_number header (str "retry-after-ms") with
    | Some millis => Some (SFdiv PREC EMAX millis (f64_of_N 1000))
    | None => header_number header (str "retry-after")
    end in
  match seconds with
  | Some seconds => Some (from_secs_f64 (f64_min seconds (as_secs_f64 (max_server_delay policy))))
  | None => None
  end.

Record RetryNotice := mkRetryNotice { notice_attempt : N; notice_delay : N; notice_reason : text }.

(** [From<RetryNotice> for ModelEvent] *)
Definition notice_event (n : RetryNotice) : ModelEvent :=
  Backoff (notice_attempt n) (N.min (notice_delay n / 1000000) (U64 - 1)) (notice_reason n).

Definition is_retryable_status (status : N) : bool := existsb (N.eqb status) [408; 429; 500; 502; 503; 504; 529].

Definition http_code (status : N) : text := str " (HTTP " ++ show_N status ++ str ")".

Definition retry_reason (status : N) : text :=
  (if status =? 429 then str "rate limited"
   else if (status =? 503) || (status =? 529) then str "provider overloaded"
   else if status =? 408 then str "request timed out"
   else str "server error") ++ http_code status.

Definition ERROR_BODY_LIMIT : nat := 2000.

(** [error_body] of the text of a response, or of why it has none. *)
Definition error_body (body : result text text) : text :=
  match body with
  | Ok t => firstn ERROR_BODY_LIMIT t
  | Err cause => str "(unreadable response body: " ++ cause ++ str ")"
  end.

(** * The send loop *)

Section Send.
(** The text of a status, by the HTTP library. *)
Context (show_status : N -> text).

Definition status_error (status : N) (body : text) (attempts : N) : LlmError :=
  let detail := if is_empty (trim body) then show_status status else body in
  if status =? 429 then RateLimited attempts detail
  else if (status =? 503) || (status =? 529) then Overloaded attempts detail
  else Http status detail.

Record Response := mkResponse {
  response_status : N;
  response_header : text -> option text;
  response_text : result text text
}.

Definition is_success (status : N) : bool := in_range 200 299 status.

(** What comes of one attempt: the caller cancels, a response (and whether
    the caller cancels while its body is read as an error), a request that
    cannot be built, or a failure to send it. *)
Inductive Sent :=
| SendCancelled
| Answered (r : Response) (body_cancelled : bool)
| BuilderFailed (error : text)
| SendFailed (is_connect is_timeout : bool) (cause : text).

(** An attempt, and whether the caller cancels during the delay after it. *)
Record Attempt := mkAttempt { attempt_sent : Sent; sleep_cancelled : bool }.

(** What the loop does after an attempt: it ends, or it retries. *)
Definition after_attempt (policy : RetryPolicy) (attempt : N) (sent : Sent) : result RetryNotice (result LlmError Response) :=
  match sent with
  | SendCancelled => Ok (Err CancelledError)
  | Answered r cancelled =>
      if is_success (response_status r) then Ok (Ok r)
      else if cancelled then Ok (Err CancelledError)
      else if negb (is_retryable_status (response_status r)) || (max_attempts policy <=? attempt) then
        Ok (Err (status_error (response_status r) (error_body (response_text r)) attempt))
      else
        Err (mkRetryNotice attempt (default (backoff policy attempt) (server_delay policy (response_header r)))
               (retry_reason (response_status r)))
  | BuilderFailed error => Ok (Err (ConfigError (str "invalid request: " ++ error)))
  | SendFailed is_connect is_timeout cause =>
      if negb (is_connect || is_timeout) || (max_attempts policy <=? attempt) then Ok (Err (Connect attempt cause))
      else Err (mkRetryNotice attempt (backoff policy attempt) (str "connection failed: " ++ cause))
  end.

(** [send_with_retry] from attempt [attempt]: the notices and the result;
    [None] when the world answers no more. *)
Fixpoint send_from (policy : RetryPolicy) (attempt : N) (world : list Attempt)
  : list RetryNotice * option (result LlmError Response) :=
  match world with
  | [] => ([], None)
  | w :: world =>
      match after_attempt policy attempt (attempt_sent w) with
      | Ok result => ([], Some result)
      | Err notice =>
          if sleep_cancelled w then ([notice], Some (Err CancelledError))
          else let '(notices, result) := send_from policy (attempt + 1) world in (notice :: notices, result)
      end
  end.

Definition send_with_retry (policy : RetryPolicy) (world : list Attempt)
  : list RetryNotice * option (result LlmError Response) := send_from policy 1 world.

End Send.

Open Scope N_scope.

Section WithJson.
Context {J : Json}.

Definition is_content (e : ModelEvent) : bool :=
  match e with
  | TextPiece _ | ThinkingPiece _ | ToolUseStart _ _ _ | RedactedPiece _ => true
  | ThinkingSignature _ | ToolUseDelta _ _ | ToolUseEnd _ | UsageSoFar _ | Stop _ | Backoff _ _ _ => false
  end.

Definition set_model (m : text) (r : ModelRequest) : ModelRequest :=
  mkModelRequest m (request_system r) (request_messages r) (cache_breakpoints r) (request_tools r) (cache_tools r)
    (tool_choice r) (max_tokens r) (temperature r) (thinking r) (stop_sequences r) (session_key r).

(** What a stream gives before its first error or its end, and the error. *)
Fixpoint until_error (items : list (result LlmError ModelEvent)) : list ModelEvent * option LlmError :=
  match items with
  | [] => ([], None)
  | Err error :: _ => ([], Some error)
  | Ok e :: items => let '(events, error) := until_error items in (e :: events, error)
  end.

Definition fallback_reason (model : text) (error : LlmError) : text :=
  str "falling back to " ++ model ++ str ": " ++ show_error error.

(** [run] from attempt [attempt]: the requests that are made and what the
    consumer gets. [inner k r] is what the [k]th stream of the inner client
    gives for the request [r], [cancelled k] whether the caller has cancelled
    when it fails. *)
Fixpoint fall_back (inner : N -> ModelRequest -> list (result LlmError ModelEvent)) (cancelled : N -> bool)
    (attempt : N) (fallbacks : list text) (request : ModelRequest)
  : list ModelRequest * list (result LlmError ModelEvent) :=
  let '(events, error) := until_error (inner attempt request) in
  let sent := map Ok events in
  match error with
  | None => ([request], sent)
  | Some error =>
      let replayable := negb (existsb is_content events) && is_retryable error && negb (cancelled attempt) in
      match fallbacks with
      | model :: fallbacks =>
          if replayable then
            let notice := Backoff (attempt + 1) 0 (fallback_reason model error) in
            let '(requests, more) := fall_back inner cancelled (attempt + 1) fallbacks (set_model model request) in
            (request :: requests, sent ++ Ok notice :: more)
          else ([request], sent ++ [Err error])
      | [] => ([request], sent ++ [Err error])
      end
  end.

(** [FallbackClient::stream] *)
Definition fallback_stream (inner : N -> ModelRequest -> list (result LlmError ModelEvent)) (cancelled : N -> bool)
    (fallbacks : list text) (request : ModelRequest) : list ModelRequest * list (result LlmError ModelEvent) :=
  if is_empty fallbacks then ([request], inner 0 request) else fall_back inner cancelled 0 fallbacks request.

(** * Facts *)

(** The events of a consumer's items. *)
Definition events_of (items : list (result LlmError ModelEvent)) : list ModelEvent :=
  flat_map (fun item => match item with Ok e => [e] | Err _ => [] end) items.

Lemma events_of_app a b : events_of (a ++ b) = events_of a ++ events_of b.
Proof. apply flat_map_app. Qed.

Lemma events_of_ok es : events_of (map Ok es) = es.
Proof. unfold events_of. induction es as [|e es IH]; cbn; [done|]. by f_equal. Qed.

Lemma filter_no_content es : existsb is_content es = false -> List.filter is_content es = [].
Proof. induction es as [|e es IH]; cbn; [done|]. by destruct (is_content e). Qed.

Lemma until_error_stream items :
  items = map Ok (fst (until_error items)) ++ match snd (until_error items) with Some e => [Err e] | None => [] end
  \/ exists e rest, snd (until_error items) = Some e
      /\ items = map Ok (fst (until_error items)) ++ Err e :: rest.
Proof.
  induction items as [|[e|e] items IH]; cbn; [by left| |right; by exists e, items].
  destruct (until_error items) as [events error]. cbn in *.
  destruct IH as [->|(x & rest & -> & ->)]; [by left|right]. by exists x, rest.
Qed.

(** The request [r] is [request] for the [k]th of the models. *)
Definition for_model (request : ModelRequest) (models : list text) (requests : list ModelRequest) : Prop :=
  exists tried, tried `prefix_of` models
    /\ requests = map (fun m => set_model m request) (request_model request :: tried).

Lemma set_model_own r : set_model (request_model r) r = r.
Proof. by destruct r. Qed.

Lemma set_model_twice m m' r : set_model m (set_model m' r) = set_model m r.
Proof. done. Qed.

Lemma fall_back_exact inner cancelled attempt fallbacks request :
  let '(requests, items) := fall_back inner cancelled attempt fallbacks request in
  for_model request fallbacks requests
  /\ exists final, last requests = Some final
     /\ let k := attempt + N.of_nat (length requests) - 1 in
        let '(events, error) := until_error (inner k final) in
        List.filter is_content (events_of items) = List.filter is_content events
        /\ (exists before, items = map Ok before ++ map Ok events ++ match error with Some e => [Err e] | None => [] end)
        /\ match error with
           | Some e =>
               length requests = S (length fallbacks) \/ existsb is_content events = true \/ is_retryable e = false
               \/ cancelled k = true
           | None => True
           end.
Proof.
  revert attempt request. induction fallbacks as [|model fallbacks IH]; intros attempt request; cbn [fall_back];
    destruct (until_error (inner attempt request)) as [events [error|]] eqn:E.
  all: try (assert (Hone : for_model request [] [request]) by (exists []; split; [done|]; cbn; by rewrite set_model_own)).
  all: assert (Hone' : forall l, for_model request l [request])
    by (intros l; exists []; split; [apply prefix_nil|]; cbn; by rewrite set_model_own).
  - split; [done|]. exists request. split; [done|]. cbn [length]. replace (attempt + N.of_nat 1 - 1) with attempt by lia.
    rewrite E. split_and!; [by rewrite events_of_app, events_of_ok, app_nil_r|by exists []|by left].
  - split; [done|]. exists request. split; [done|]. cbn [length]. replace (attempt + N.of_nat 1 - 1) with attempt by lia.
    rewrite E. split_and!; [by rewrite events_of_ok|exists []; by rewrite app_nil_r|done].
  - destruct (negb (existsb is_content events) && is_retryable error && negb (cancelled attempt)) eqn:Er.
    + specialize (IH (attempt + 1) (set_model model request)).
      destruct (fall_back inner cancelled (attempt + 1) fallbacks (set_model model request)) as [requests more] eqn:Ef.
      destruct IH as ((tried & Hp & Ht) & final & Hl & Hrest). split.
      * exists (model :: tried). split; [by apply prefix_cons|]. cbn [map]. rewrite set_model_own. f_equal.
        rewrite Ht. cbn [map]. f_equal.
      * exists final. split; [rewrite Ht in *; done|]. cbn [length].
        replace (attempt + N.of_nat (S (length requests)) - 1) with (attempt + 1 + N.of_nat (length requests) - 1) by lia.
        cbv zeta in Hrest. destruct (until_error _) as [es er]. destruct Hrest as (Hc & (before & ->) & He).
        apply andb_prop in Er as [[Er _]%andb_prop _]. split_and!.
        -- rewrite events_of_app, events_of_ok, List.filter_app, filter_no_content by (by apply negb_true_iff). apply Hc.
        -- exists (events ++ Backoff (attempt + 1) 0 (fallback_reason model error) :: before).
           by rewrite map_app, <- app_assoc.
        -- destruct er; [|done]. destruct He as [->|?]; auto.
    + split; [done|]. exists request. split; [done|]. cbn [length]. replace (attempt + N.of_nat 1 - 1) with attempt by lia.
      rewrite E. split_and!; [by rewrite events_of_app, events_of_ok, app_nil_r|by exists []|].
      destruct (existsb is_content events); [auto|]. destruct (is_retryable error); [|auto].
      destruct (cancelled attempt); [auto|]. done.
  - split; [done|]. exists request. split; [done|]. cbn [length]. replace (attempt + N.of_nat 1 - 1) with attempt by lia.
    rewrite E. split_and!; [by rewrite events_of_ok|exists []; by rewrite app_nil_r|done].
Qed.

(** With fallback models the request is sent to the requested model and
    then to a prefix of the fallbacks, the same request but for the model;
    all the text, thinking, redacted thinking and calls that the consumer
    gets are those of the last response, which ends the stream with its own
    error if it failed; and it is final only when it succeeded, the models
    are used up, content was streamed, the error will not pass or the caller
    cancelled. *)
Theorem fallback_content_of_one_response inner cancelled model others request :
  let fallbacks := model :: others in
  let '(requests, items) := fallback_stream inner cancelled fallbacks request in
  for_model request fallbacks requests
  /\ exists final, last requests = Some final
     /\ let k := N.of_nat (length requests) - 1 in
        let '(events, error) := until_error (inner k final) in
        List.filter is_content (events_of items) = List.filter is_content events
        /\ (exists before, items = map Ok before ++ map Ok events ++ match error with Some e => [Err e] | None => [] end)
        /\ match error with
           | Some e =>
               length requests = S (length fallbacks) \/ existsb is_content events = true \/ is_retryable e = false
               \/ cancelled k = true
           | None => True
           end.
Proof. intros fallbacks. apply (fall_back_exact inner cancelled 0 fallbacks request). Qed.

(** A signature is not counted as content: a response that fails after it is
    replayed, and the message that is assembled starts with a thinking block
    signed by the model that failed. *)
Theorem signature_survives_fallback {T : JsonText} fresh sig request :
  let inner k (_ : ModelRequest) :=
    if k =? 0 then [Ok (ThinkingSignature sig); Err (StreamError (str "reset"))]
    else [Ok (TextPiece (str "hi")); Ok (Stop EndTurn)] in
  let items := snd (fallback_stream inner (fun _ => false) [str "backup"] request) in
  collect_stream fresh items new_accumulator
  = Ok (mkAssistantTurn [BThinking [] (Some sig); BText (str "hi")] usage_default (Some EndTurn) []).
Proof. reflexivity. Qed.

End WithJson.

Open Scope N_scope.

Lemma backoff_bounded policy retry : backoff policy retry <= max_backoff policy.
Proof. unfold backoff. lia. Qed.

(** The delays never shrink from one retry to the next. *)
Lemma backoff_grows policy a b : a <= b -> backoff policy a <= backoff policy b.
Proof.
  intros Hab. unfold backoff, saturating_pow2.
  assert (2 ^ (a - 1) <= 2 ^ (b - 1)) by (apply N.pow_le_mono_r; lia). nia.
Qed.

(** Until a cap, each delay doubles the one before. *)
Lemma backoff_doubles policy k :
  1 <= k < 32 -> base_backoff policy * 2 ^ k <= N.min DURATION_MAX (max_backoff policy) ->
  backoff policy (k + 1) = 2 * backoff policy k.
Proof.
  intros Hk Hb. assert (Hp : 2 ^ k = 2 * 2 ^ (k - 1)) by (rewrite <- N.pow_succ_r'; f_equal; lia).
  assert (2 ^ k <= 2 ^ 31) by (apply N.pow_le_mono_r; lia). change (2 ^ 31) with 2147483648 in *.
  unfold backoff, saturating_pow2. change (U32 - 1) with 4294967295.
  replace (k + 1 - 1) with k by lia. rewrite (N.min_l (2 ^ k)), (N.min_l (2 ^ (k - 1))) by lia.
  rewrite Hp in *. nia.
Qed.

Section Send.
Context (show_status : N -> text).

(** A failure that may pass. *)
Definition transient (s : Sent) : bool :=
  match s with
  | Answered r cancelled => negb (is_success (response_status r)) && negb cancelled && is_retryable_status (response_status r)
  | SendFailed is_connect is_timeout _ => is_connect || is_timeout
  | SendCancelled | BuilderFailed _ => false
  end.

(** The delay a response asks for. *)
Definition asked_delay (policy : RetryPolicy) (s : Sent) : option N :=
  match s with Answered r _ => server_delay policy (response_header r) | _ => None end.

Lemma after_attempt_retries policy attempt s notice :
  after_attempt show_status policy attempt s = Err notice ->
  transient s = true /\ attempt < max_attempts policy /\ notice_attempt notice = attempt
  /\ notice_delay notice = default (backoff policy attempt) (asked_delay policy s).
Proof.
  destruct s as [|r c|e|a b cause]; unfold after_attempt, transient, asked_delay; try done.
  - destruct (is_success _); [done|]. destruct c; [done|]. destruct (is_retryable_status (response_status r)); cbn [negb orb andb]; [|done].
    destruct (N.leb_spec (max_attempts policy) attempt); [done|]. by intros [= <-].
  - destruct (a || b); cbn [negb orb]; [|done]. destruct (N.leb_spec (max_attempts policy) attempt); [done|]. by intros [= <-].
Qed.

Lemma after_attempt_ends policy attempt s outcome :
  after_attempt show_status policy attempt s = Ok outcome -> transient s = true -> max_attempts policy <= attempt.
Proof.
  destruct s as [|r c|e|a b cause]; unfold after_attempt, transient, asked_delay; try done.
  - destruct (is_success _); [done|]. destruct c; [done|]. cbn [negb andb]. intros H E. rewrite E in H. cbn [negb orb] in H.
    by destruct (N.leb_spec (max_attempts policy) attempt).
  - intros H E. rewrite E in H. cbn [negb orb] in H. by destruct (N.leb_spec (max_attempts policy) attempt).
Qed.

(** What the loop did, from attempt [attempt] on. *)
Lemma send_from_exact policy attempt world notices outcome :
  send_from show_status policy attempt world = (notices, outcome) ->
  (forall k n, notices !! k = Some n -> exists w, world !! k = Some w
     /\ transient (attempt_sent w) = true /\ attempt + N.of_nat k < max_attempts policy
     /\ notice_attempt n = attempt + N.of_nat k
     /\ notice_delay n = default (backoff policy (attempt + N.of_nat k)) (asked_delay policy (attempt_sent w)))
  /\ match outcome with
     | None => length notices = length world
     | Some result =>
         (exists w, world !! length notices = Some w
            /\ after_attempt show_status policy (attempt + N.of_nat (length notices)) (attempt_sent w) = Ok result)
         \/ exists k w, length notices = S k /\ world !! k = Some w /\ sleep_cancelled w = true /\ result = Err CancelledError
     end.
Proof.
  revert attempt notices outcome. induction world as [|w world IH]; intros attempt notices outcome; cbn [send_from].
  - by intros [= <- <-].
  - destruct (after_attempt _ _ _ _) as [result|notice] eqn:E.
    + intros [= <- <-]. split; [done|]. left. exists w. split; [done|]. cbn. by rewrite N.add_0_r.
    + apply after_attempt_retries in E. destruct (sleep_cancelled w) eqn:Es.
      * intros [= <- <-]. split; [|right; by exists 0%nat, w].
        intros [|k] n; [|done]. intros [= <-]. exists w. cbn. rewrite N.add_0_r. tauto.
      * destruct (send_from _ _ _ world) as [ns r] eqn:Ew. intros [= <- <-]. apply IH in Ew as [Hn Hr]. split.
        -- intros [|k] n; cbn [lookup list_lookup].
           ++ intros [= <-]. exists w. cbn. rewrite N.add_0_r. tauto.
           ++ intros Hk. destruct (Hn k n Hk) as (v & Hv & Ht). exists v.
              replace (attempt + N.of_nat (S k)) with (attempt + 1 + N.of_nat k) by lia. tauto.
        -- destruct r as [result|]; [|cbn; by rewrite Hr]. destruct Hr as [(v & Hv & Hr)|(k & v & Hk & Hv)].
           ++ left. exists v. split; [done|]. rewrite <- Hr. f_equal. cbn [length]. lia.
           ++ right. exists (S k), v. cbn [length]. rewrite Hk. tauto.
Qed.

(** C18: a request is retried only after a failure that may pass (408, 429,
    500, 502, 503, 504, 529, no connection, a timeout), at most
    [max_attempts - 1] times; the delay of the [k]th retry is the one the
    server asks for or else the bounded exponential one; what comes back is a
    successful response, a failure that no retry would help, the last failure
    once the attempts are used up, or a cancellation; and the loop needs at
    most [max_attempts] answers of the network to end. *)
Theorem send_with_retry_bounded policy (world : list Attempt) :
  let '(notices, outcome) := send_with_retry show_status policy world in
  N.of_nat (length notices) <= max_attempts policy - 1
  /\ (forall k n, notices !! k = Some n -> exists w, world !! k = Some w
       /\ transient (attempt_sent w) = true
       /\ notice_attempt n = N.of_nat k + 1
       /\ match asked_delay policy (attempt_sent w) with
          | Some d => notice_delay n = d
          | None => notice_delay n = backoff policy (N.of_nat k + 1) /\ notice_delay n <= max_backoff policy
          end)
  /\ match outcome with
     | None => N.of_nat (length world) < N.max 1 (max_attempts policy)
     | Some (Ok r) => is_success (response_status r) = true
         /\ exists w c, world !! length notices = Some w /\ attempt_sent w = Answered r c
     | Some (Err e) => e = CancelledError
         \/ exists w, world !! length notices = Some w
             /\ after_attempt show_status policy (N.of_nat (length notices) + 1) (attempt_sent w) = Ok (Err e)
             /\ (transient (attempt_sent w) = true -> N.of_nat (length notices) + 1 = N.max 1 (max_attempts policy))
     end.
Proof.
  destruct (send_with_retry show_status policy world) as [notices outcome] eqn:E. apply send_from_exact in E as [Hn Ho].
  assert (Hl : N.of_nat (length notices) <= max_attempts policy - 1).
  { destruct notices as [|n l _] using rev_ind; [cbn; lia|].
    destruct (Hn (length l) n) as (w & _ & _ & Hlt & _); [by rewrite lookup_app_r, Nat.sub_diag|].
    rewrite length_app. cbn. lia. }
  split_and!; [done| |].
  - intros k n Hk. destruct (Hn k n Hk) as (w & Hw & Ht & _ & Ha & Hd). exists w. split_and!; [done|done|lia|].
    destruct (asked_delay _ _); [done|]. cbn in Hd. replace (N.of_nat k + 1) with (1 + N.of_nat k) by lia.
    split; [done|]. rewrite Hd. apply backoff_bounded.
  - destruct outcome as [[r|e]|].
    + destruct Ho as [(w & Hw & Hr)|(k & w & _ & _ & _ & ?)]; [|done].
      destruct (attempt_sent w) as [|r' c|err|a b cause] eqn:Es; unfold after_attempt in Hr; try done.
      * destruct (is_success (response_status r')) eqn:Ok'; [injection Hr as ->; by eauto|].
        destruct c; [done|]. by destruct (negb _ || _).
      * by destruct (negb _ || _).
    + destruct Ho as [(w & Hw & Hr)|(k & w & _ & _ & _ & ?)]; [|left; congruence]. right. exists w.
      rewrite N.add_comm in Hr. split_and!; [done|done|]. intros Ht. pose proof (after_attempt_ends _ _ _ _ Hr Ht). lia.
    + lia.
Qed.

End Send.
