(* ===== verification/Rpc.v ===== *)
(** JSON-RPC over byte streams ([z-engine-integrations/src/jsonrpc] and
    [error.rs]): bounded framing, messages, and the client that correlates
    responses with requests, cut into the sections between which the tasks of
    a connection interleave. *)

From Stdlib Require Import ZArith.
From stdpp Require Import gmap list.
From S2P Require Export Providers Log.

Open Scope N_scope.

(** * [error.rs] *)

(** Sources of I/O failures and durations are their texts. *)
Inductive IntegrationError :=
| Spawn (command_ source : text)
| IoFailed (context source : text)
| ProtocolError (reason : text)
| RpcError (code : Z) (message_ : text)
| TimedOut (method_ : text) (millis : N)
| RequestCancelled
| Disconnected (reason : text)
| NotSent (reason : text)
| HttpError (status : N) (body : text)
| Unsupported (what : text)
| NotFoundError (what : text).

Definition show_error (e : IntegrationError) : text :=
  match e with
  | Spawn command_ source => str "could not start `" ++ command_ ++ str "`: " ++ source
  | IoFailed context source => context ++ str ": " ++ source
  | ProtocolError reason => str "protocol error: " ++ reason
  | RpcError code message_ => str "server error " ++ show_Z code ++ str ": " ++ message_
  | TimedOut method_ millis => str "`" ++ method_ ++ str "` timed out after " ++ show_N millis ++ str "ms"
  | RequestCancelled => str "request cancelled"
  | Disconnected reason => str "server disconnected: " ++ reason
  | NotSent reason => str "request not sent: " ++ reason
  | HttpError status body => str "HTTP " ++ show_N status ++ str ": " ++ body
  | Unsupported what => str "unsupported: " ++ what
  | NotFoundError what => str "not found: " ++ what
  end.

Definition is_retry_safe (e : IntegrationError) : bool := match e with NotSent _ => true | _ => false end.

Definition is_transport_failure (e : IntegrationError) : bool :=
  match e with NotSent _ | Disconnected _ => true | _ => false end.

(** * [framing.rs] *)

Definition MAX_FRAME_BYTES : N := 64 * 1024 * 1024.
Definition MAX_HEADER_LINE : N := 8 * 1024.

Inductive Framing := NewlineFraming | ContentLength.

Definition encode_frame (framing : Framing) (body : list N) : list N :=
  match framing with
  | NewlineFraming => body ++ [NEWLINE]
  | ContentLength =>
      as_bytes (str "Content-Length: " ++ show_N (N.of_nat (length body)) ++ [CARRIAGE_RETURN; NEWLINE; CARRIAGE_RETURN; NEWLINE])
      ++ body
  end.

(** What a read of the stream gives: some bytes, or a failure.  No bytes, or
    nothing left, is the end of the stream. *)
Inductive Arrival := Chunk (bytes_ : list N) | ReadError (source : text).

(** The stream as the buffer shows it: the first arrival is what [fill_buf]
    returns next. *)
Abbreviation Stream := (list Arrival).

(** What is left after a line was taken off the front of a chunk. *)
Definition consume (bytes_ : list N) (s : Stream) : Stream := match bytes_ with [] => s | _ => Chunk bytes_ :: s end.

(** [iter().position] *)
Fixpoint position (c : N) (bytes_ : list N) : option nat :=
  match bytes_ with
  | [] => None
  | b :: bytes_ => if N.eqb b c then Some O else option_map S (position c bytes_)
  end.

Definition too_long (limit : N) : IntegrationError :=
  ProtocolError (str "a frame exceeds the " ++ show_N limit ++ str "-byte limit").

Definition read_failed (source : text) : IntegrationError := IoFailed (str "reading from the server") source.

Fixpoint read_frame_line (limit : N) (line : list N) (s : Stream) : result IntegrationError (option (list N)) * Stream :=
  let ended := Ok (if is_empty line then None else Some line) in
  match s with
  | [] => (ended, [])
  | ReadError e :: s => (Err (read_failed e), s)
  | Chunk [] :: s => (ended, s)
  | Chunk available :: s =>
      let taken := match position NEWLINE available with Some end_ => take end_ available | None => available end in
      if limit <? N.of_nat (length line + length taken) then (Err (too_long limit), Chunk available :: s)
      else match position NEWLINE available with
           | Some end_ => (Ok (Some (line ++ taken)), consume (drop (S end_) available) s)
           | None => read_frame_line limit (line ++ taken) s
           end
  end.

(** How many bytes can still be read. *)
Definition stream_size (s : Stream) : nat := list_sum (map (fun a => match a with Chunk b => length b | _ => O end) s).

(** Blank lines are skipped; each of them takes a byte at least. *)
Fixpoint line_frame_loop (fuel : nat) (limit : N) (s : Stream) : result IntegrationError (option (list N)) * Stream :=
  match fuel with
  | O => (Ok None, s)
  | S fuel =>
      match read_frame_line limit [] s with
      | (Ok (Some line), s) =>
          let line := strip_return line in
          if forallb is_ascii_whitespace line then line_frame_loop fuel limit s else (Ok (Some line), s)
      | end_ => end_
      end
  end.

Definition read_line_frame (limit : N) (s : Stream) : result IntegrationError (option (list N)) * Stream :=
  line_frame_loop (S (stream_size s)) limit s.

(** One header line; the length it sets. *)
Definition header_line (line : list N) (length_ : option N) : result IntegrationError (option N) :=
  let t := from_utf8_lossy line in
  match split_once (str ":") t with
  | None => Err (ProtocolError (str "malformed header line `" ++ t ++ str "`"))
  | Some (name, value) =>
      if eq_ignore_ascii_case (trim name) (str "content-length") then
        match parse_u64 (trim value) with
        | Some n => Ok (Some n)
        | None => Err (ProtocolError (str "invalid Content-Length `" ++ trim value ++ str "`"))
        end
      else Ok length_
  end.

(** The lines of a header until the empty one; [Ok None] when the stream
    ended before it began. *)
Fixpoint header_loop (fuel : nat) (length_ : option N) (in_header : bool) (s : Stream)
  : result IntegrationError (option (option N)) * Stream :=
  match fuel with
  | O => (Ok None, s)
  | S fuel =>
      match read_frame_line MAX_HEADER_LINE [] s with
      | (Err e, s) => (Err e, s)
      | (Ok None, s) => (if in_header then Err (Disconnected (str "the stream ended inside a message header")) else Ok None, s)
      | (Ok (Some line), s) =>
          let line := strip_return line in
          if is_empty line then
            if in_header then (Ok (Some length_), s) else header_loop fuel length_ in_header s
          else match header_line line length_ with
               | Err e => (Err e, s)
               | Ok length_ => header_loop fuel length_ true s
               end
      end
  end.

(** [read_exact] *)
Fixpoint read_exact (n : N) (body : list N) (s : Stream) : result IntegrationError (list N) * Stream :=
  if n =? 0 then (Ok body, s)
  else match s with
       | [] | Chunk [] :: _ => (Err (Disconnected (str "the stream ended inside a message body")), s)
       | ReadError e :: s => (Err (read_failed e), s)
       | Chunk bytes_ :: s =>
           if N.of_nat (length bytes_) <=? n then read_exact (n - N.of_nat (length bytes_)) (body ++ bytes_) s
           else (Ok (body ++ take (N.to_nat n) bytes_), consume (drop (N.to_nat n) bytes_) s)
       end.

Definition read_length_frame (limit : N) (s : Stream) : result IntegrationError (option (list N)) * Stream :=
  match header_loop (S (stream_size s)) None false s with
  | (Err e, s) => (Err e, s)
  | (Ok None, s) => (Ok None, s)
  | (Ok (Some None), s) => (Err (ProtocolError (str "a message header has no Content-Length")), s)
  | (Ok (Some (Some n)), s) =>
      if limit <? n
      then (Err (ProtocolError (str "a " ++ show_N n ++ str "-byte message exceeds the " ++ show_N limit ++ str "-byte limit")), s)
      else match read_exact n [] s with
           | (Ok body, s) => (Ok (Some body), s)
           | (Err e, s) => (Err e, s)
           end
  end.

Record FrameReader := mkFrameReader { reader : Stream; reader_framing : Framing; reader_limit : N }.

Definition new_reader (s : Stream) (framing : Framing) : FrameReader := mkFrameReader s framing MAX_FRAME_BYTES.
Definition with_limit (limit : N) (r : FrameReader) : FrameReader := mkFrameReader (reader r) (reader_framing r) limit.

Definition read_frame (r : FrameReader) : result IntegrationError (option (list N)) * FrameReader :=
  let '(frame, s) :=
    match reader_framing r with
    | NewlineFraming => read_line_frame (reader_limit r) (reader r)
    | ContentLength => read_length_frame (reader_limit r) (reader r)
    end in
  (frame, mkFrameReader s (reader_framing r) (reader_limit r)).

(** The frames up to the end of the stream or a failure. *)
Fixpoint read_frames (fuel : nat) (r : FrameReader) : list (result IntegrationError (list N)) :=
  match fuel with
  | O => []
  | S fuel =>
      match read_frame r with
      | (Ok None, _) => []
      | (Err e, _) => [Err e]
      | (Ok (Some body), r) => Ok body :: read_frames fuel r
      end
  end.

(** Every frame takes a byte at least. *)
Definition all_frames (r : FrameReader) : list (result IntegrationError (list N)) :=
  read_frames (S (stream_size (reader r))) r.

(** * [message.rs] *)

Definition METHOD_NOT_FOUND : Z := -32601.

Inductive RequestId := Number (n : Z) | StringId (s : text).

#[export] Instance request_id_eq_dec : EqDecision RequestId.
Proof. solve_decision. Defined.

#[export] Instance request_id_countable : Countable RequestId.
Proof.
  refine (inj_countable' (fun i => match i with Number n => inl n | StringId s => inr s end)
            (fun x => match x with inl n => Number n | inr s => StringId s end) _).
  by intros [].
Defined.

Section WithJson.
Context {J : Json}.

Record RpcErrorObject := mkRpcErrorObject { error_code : Z; error_message : text; error_data : option json }.

(** [serde_json]: building values, reading numbers and bytes, and the derived
    decoding of an error object. *)
Class JsonWire := {
  as_i64 : json -> option Z;
  json_null : json;
  json_string : text -> json;
  json_int : Z -> json;
  json_array : list json -> json;
  (** a map by its insertions *)
  json_object : list (text * json) -> json;
  json_bytes : json -> result text (list N);
  parse_bytes : list N -> result text json;
  decode_error : json -> result text RpcErrorObject
}.

Record RpcRequest := mkRpcRequest { rpc_id : RequestId; rpc_method : text; rpc_params : option json }.
Record RpcNotification := mkRpcNotification { notice_method : text; notice_params : option json }.
Record RpcResponse := mkRpcResponse { response_id : option RequestId; response_result : result RpcErrorObject json }.

Inductive RpcMessage :=
| MRequest (r : RpcRequest)
| MNotification (n : RpcNotification)
| MResponse (r : RpcResponse)
| MInvalid (invalid_id : option RequestId) (reason : text).

Context {W : JsonWire}.

Definition parse_id (raw : json) : option RequestId :=
  match as_i64 raw with Some n => Some (Number n) | None => option_map StringId (as_str raw) end.

(** [response] *)
Definition response_of (i : option RequestId) (v : json) : RpcMessage :=
  let no_error :=
    match json_get v (str "result") with
    | Some r => MResponse (mkRpcResponse i (Ok r))
    | None => MInvalid i (str "the message has no method, result or error")
    end in
  match json_get v (str "error") with
  | Some e =>
      if is_null e then no_error
      else match decode_error e with
           | Ok e => MResponse (mkRpcResponse i (Err e))
           | Err problem => MInvalid i (str "malformed error object: " ++ problem)
           end
  | None => no_error
  end.

Definition from_value (v : json) : RpcMessage :=
  if negb (is_object v) then MInvalid None (str "a JSON-RPC message must be an object")
  else
    let with_id (i : option RequestId) :=
      match json_get v (str "method") with
      | Some m =>
          match as_str m with
          | None => MInvalid i (str "the method is not a string")
          | Some m =>
              let params := json_get v (str "params") in
              match i with
              | Some i => MRequest (mkRpcRequest i m params)
              | None => MNotification (mkRpcNotification m params)
              end
          end
      | None => response_of i v
      end in
    match json_get v (str "id") with
    | None => with_id None
    | Some raw =>
        if is_null raw then with_id None
        else match parse_id raw with
             | Some i => with_id (Some i)
             | None => MInvalid None (str "the id is neither a number nor a string")
             end
    end.

Definition parse_frame (bytes_ : list N) : list RpcMessage :=
  match parse_bytes bytes_ with
  | Err e => [MInvalid None (str "invalid JSON: " ++ e)]
  | Ok v =>
      match as_array v with
      | Some (item :: items) => map from_value (item :: items)
      | _ => [from_value v]
      end
  end.

Definition envelope : list (text * json) := [(str "jsonrpc", json_string (str "2.0"))].

Definition id_value (i : RequestId) : json := match i with Number n => json_int n | StringId s => json_string s end.

Definition optional_entry (key : text) (v : option json) : list (text * json) :=
  match v with Some v => [(key, v)] | None => [] end.

Definition error_value (e : RpcErrorObject) : json :=
  json_object ([(str "code", json_int (error_code e)); (str "message", json_string (error_message e))]
               ++ optional_entry (str "data") (error_data e)).

Definition request_value (r : RpcRequest) : json :=
  json_object (envelope ++ [(str "id", id_value (rpc_id r)); (str "method", json_string (rpc_method r))]
               ++ optional_entry (str "params") (rpc_params r)).

Definition notification_value (n : RpcNotification) : json :=
  json_object (envelope ++ [(str "method", json_string (notice_method n))]
               ++ optional_entry (str "params") (notice_params n)).

Definition response_value (r : RpcResponse) : json :=
  json_object (envelope ++ [(str "id", match response_id r with Some i => id_value i | None => json_null end);
                            match response_result r with
                            | Ok v => (str "result", v)
                            | Err e => (str "error", error_value e)
                            end]).

(** * [replies.rs] *)

Definition default_reply (method_ : text) (params : option json) : result RpcErrorObject json :=
  if teqb method_ (str "ping") then Ok (json_object [])
  else if teqb method_ (str "workspace/configuration") then
    let items := match params with
                 | Some p => match json_get p (str "items") with
                             | Some v => match as_array v with Some l => length l | None => O end
                             | None => O
                             end
                 | None => O
                 end in
    Ok (json_array (repeat json_null items))
  else if mem method_ [str "client/registerCapability"; str "client/unregisterCapability";
                       str "window/workDoneProgress/create"; str "window/showMessageRequest"] then Ok json_null
  else Err (mkRpcErrorObject METHOD_NOT_FOUND (str "method not found: " ++ method_) None).

(** * [dispatch.rs] and [client.rs] *)

Definition Outcome : Type := result IntegrationError json.

Inductive CancelStyle := Silent | McpCancel | LspCancel.

(** How far a call of [request] is. *)
Inductive CallPhase :=
| Called
| Numbered
| Sending
| Awaiting
| SendFailed (e : IntegrationError)
| Abandoning (e : IntegrationError)
| Returned (outcome : Outcome)
(** its future was dropped *)
| Gone.

(** A call, the id it was given and what its channel holds. *)
Record Call := mkCall {
  call_method : text;
  call_request : option RequestId;
  call_phase : CallPhase;
  call_channel : option Outcome
}.

(** The atomic sections of the tasks that serve a connection. *)
Inductive RpcAtom :=
(** the loop of [drain] *)
| ARead (items : list (result IntegrationError RpcMessage)) (invalid : option text) (request : option RequestId)
(** [read_loop] *)
| AFrames (frames : list (result IntegrationError (list N)))
| AReceive (m : RpcMessage)
| AFail (i : RequestId) (e : IntegrationError)
| ADeliver (n : nat) (o : Outcome)
| AClose (reason : text)
| ACancelToken
(** [send_notification] *)
| ATell (v : json).

Record Connection := mkConnection {
  following_id : Z;
  waiters : gmap RequestId nat;
  close_reason : option text;
  token_cancelled : bool;
  requests : list Call;
  tasks : list (list RpcAtom);
  (** the messages routed, and those handed to the transport besides requests *)
  heard : list RpcMessage;
  told : list json
}.

Definition new_connection : Connection := mkConnection 1 ∅ None false [] [] [] [].

Definition set_waiters (w : gmap RequestId nat) (c : Connection) : Connection :=
  mkConnection (following_id c) w (close_reason c) (token_cancelled c) (requests c) (tasks c) (heard c) (told c).
Definition set_requests (l : list Call) (c : Connection) : Connection :=
  mkConnection (following_id c) (waiters c) (close_reason c) (token_cancelled c) l (tasks c) (heard c) (told c).
Definition set_tasks (l : list (list RpcAtom)) (c : Connection) : Connection :=
  mkConnection (following_id c) (waiters c) (close_reason c) (token_cancelled c) (requests c) l (heard c) (told c).
Definition hear (m : RpcMessage) (c : Connection) : Connection :=
  mkConnection (following_id c) (waiters c) (close_reason c) (token_cancelled c) (requests c) (tasks c) (heard c ++ [m]) (told c).
Definition tell (v : json) (c : Connection) : Connection :=
  mkConnection (following_id c) (waiters c) (close_reason c) (token_cancelled c) (requests c) (tasks c) (heard c) (told c ++ [v]).
Definition spawn (atoms : list RpcAtom) (c : Connection) : Connection := set_tasks (tasks c ++ [atoms]) c.
Definition forget (i : RequestId) (c : Connection) : Connection := set_waiters (delete i (waiters c)) c.

(** Takes the waiter of [i] off the table, to be given [o]. *)
Definition take_waiter (i : RequestId) (o : Outcome) (c : Connection) : Connection * list RpcAtom :=
  match waiters c !! i with
  | Some n => (forget i c, [ADeliver n o])
  | None => (c, [])
  end.

(** [dispatch] *)
Definition receive (m : RpcMessage) (c : Connection) : Connection * list RpcAtom :=
  let c := hear m c in
  match m with
  | MResponse r =>
      match response_id r with
      | None => (c, [])
      | Some i =>
          take_waiter i (match response_result r with
                         | Ok v => Ok v
                         | Err e => Err (RpcError (error_code e) (error_message e))
                         end) c
      end
  | MNotification _ => (c, [])
  | MRequest r =>
      (tell (response_value (mkRpcResponse (Some (rpc_id r)) (default_reply (rpc_method r) (rpc_params r)))) c, [])
  | MInvalid (Some i) reason => take_waiter i (Err (ProtocolError reason)) c
  | MInvalid None _ => (c, [])
  end.

Definition close (reason : text) (c : Connection) : Connection * list RpcAtom :=
  match close_reason c with
  | Some _ => (c, [])
  | None =>
      (mkConnection (following_id c) ∅ (Some reason) (token_cancelled c) (requests c) (tasks c) (heard c) (told c),
       map (fun '(_, n) => ADeliver n (Err (Disconnected reason))) (map_to_list (waiters c)) ++ [ACancelToken])
  end.

(** The end of [drain]. *)
Definition drained (failure : option IntegrationError) (invalid : option text) (request : option RequestId) : list RpcAtom :=
  match request with
  | Some i =>
      [AFail i (match failure, invalid with
                | Some e, _ => e
                | None, Some reason => ProtocolError reason
                | None, None => Disconnected (str "the response stream ended before the response")
                end)]
  | None => []
  end.

(** Runs a section; the sections it puts before the rest of its task. *)
Definition run_rpc_atom (a : RpcAtom) (c : Connection) : Connection * list RpcAtom :=
  match a with
  | ARead items invalid request =>
      if token_cancelled c then (c, [])
      else match items with
           | [] => (c, drained None invalid request)
           | Err e :: _ => (c, drained (Some e) invalid request)
           | Ok (MInvalid None reason) :: items => (c, [ARead items (Some reason) request])
           | Ok m :: items => (c, [AReceive m; ARead items invalid request])
           end
  | AFrames frames =>
      if token_cancelled c then (c, [])
      else match frames with
           | [] => (c, [AClose (str "the server closed its output")])
           | Err e :: _ => (c, [AClose (show_error e)])
           | Ok bytes_ :: frames => (c, map AReceive (parse_frame bytes_) ++ [AFrames frames])
           end
  | AReceive m => receive m c
  | AFail i e => take_waiter i (Err e) c
  | ADeliver n o =>
      (set_requests (alter (fun k => mkCall (call_method k) (call_request k) (call_phase k) (Some o)) n (requests c)) c, [])
  | AClose reason => close reason c
  | ACancelToken =>
      (mkConnection (following_id c) (waiters c) (close_reason c) true (requests c) (tasks c) (heard c) (told c), [])
  | ATell v => (match close_reason c with Some _ => c | None => tell v c end, [])
  end.

(** What a section of a call meets: a cancelled token, the transport's answer
    to the message, the deadline in milliseconds, a caller that drops it. *)
Record CallIo := mkCallIo {
  caller_cancelled : bool;
  sent : option (result IntegrationError (option (list (result IntegrationError RpcMessage))));
  deadline : option N;
  caller_gone : bool
}.

(** [fetch_add] on an [i64] *)
Definition wrapping_succ (z : Z) : Z := if Z.eqb z 9223372036854775807 then -9223372036854775808 else z + 1.

Definition cancel_notice (style : CancelStyle) (i : RequestId) (method_ reason : text) : option RpcNotification :=
  match style with
  | Silent => None
  | McpCancel =>
      if teqb method_ (str "initialize") then None
      else Some (mkRpcNotification (str "notifications/cancelled")
                   (Some (json_object [(str "requestId", id_value i); (str "reason", json_string reason)])))
  | LspCancel => Some (mkRpcNotification (str "$/cancelRequest") (Some (json_object [(str "id", id_value i)])))
  end.

Definition set_call (n : nat) (k : Call) (c : Connection) : Connection := set_requests (<[n := k]> (requests c)) c.

Definition at_phase (p : CallPhase) (k : Call) : Call := mkCall (call_method k) (call_request k) p (call_channel k).

(** What [request] does with what the exchange, or its end by the caller,
    gave. *)
Definition conclude (o : Outcome) : CallPhase :=
  match o with
  | Err RequestCancelled => Abandoning RequestCancelled
  | Err (TimedOut method_ ms) => Abandoning (TimedOut method_ ms)
  | _ => Returned o
  end.

(** The next section of [request] for call [n] with id [i]; [None] while it
    waits. *)
Definition run_registered (style : CancelStyle) (io : CallIo) (n : nat) (k : Call) (i : RequestId) (c : Connection)
  : option Connection :=
  let to p := set_call n (at_phase p k) in
  let waits c :=
    match call_channel k, deadline io with
    | Some o, _ => Some (to (conclude o) c)
    | None, Some ms => Some (to (conclude (Err (TimedOut (call_method k) ms))) c)
    | None, None => None
    end in
  let stops := caller_gone io || caller_cancelled io in
  let stopped := to (if caller_gone io then Gone else conclude (Err RequestCancelled)) c in
  match call_phase k with
  | Sending =>
      if stops then Some stopped
      else match sent io with
           | Some (Ok (Some inbound)) => Some (spawn [ARead inbound None (Some i)] (to Awaiting c))
           | Some (Ok None) => Some (to Awaiting c)
           | Some (Err e) => Some (to (SendFailed e) c)
           | None => waits c
           end
  | Awaiting => if stops then Some stopped else waits c
  | SendFailed e => Some (to (conclude (Err e)) (forget i c))
  | Abandoning e =>
      let reason := match e with RequestCancelled => str "cancelled by the client" | _ => str "timed out" end in
      let c := to (Returned (Err e)) (forget i c) in
      Some (match cancel_notice style i (call_method k) reason with
            | Some notice => spawn [ATell (notification_value notice)] c
            | None => c
            end)
  | _ => None
  end.

Definition run_call_section (style : CancelStyle) (io : CallIo) (n : nat) (k : Call) (c : Connection) : option Connection :=
  match call_phase k, call_request k with
  | Called, _ =>
      if caller_cancelled io then Some (set_call n (at_phase (Returned (Err RequestCancelled)) k) c)
      else
        Some (set_call n (mkCall (call_method k) (Some (Number (following_id c))) Numbered (call_channel k))
                (mkConnection (wrapping_succ (following_id c)) (waiters c) (close_reason c) (token_cancelled c) (requests c)
                   (tasks c) (heard c) (told c)))
  | Numbered, Some i =>
      Some (match close_reason c with
            | Some reason => set_call n (at_phase (Returned (Err (NotSent reason))) k) c
            | None => set_call n (at_phase Sending k) (set_waiters (<[i := n]> (waiters c)) c)
            end)
  | _, Some i => run_registered style io n k i c
  | _, None => None
  end.

(** The tasks that anyone may start: the reader of a stream, a stream that was
    attached, a close. *)
Definition starts (atoms : list RpcAtom) : Prop :=
  match atoms with
  | [ARead _ None None] | [AFrames _] | [AClose _] | [ATell _] => True
  | _ => False
  end.

Inductive rpc_step (style : CancelStyle) : Connection -> Connection -> Prop :=
| rpc_call method_ c : rpc_step style c (set_requests (requests c ++ [mkCall method_ None Called None]) c)
| rpc_start atoms c : starts atoms -> rpc_step style c (spawn atoms c)
| rpc_call_section io n k c c' :
    requests c !! n = Some k -> run_call_section style io n k c = Some c' -> rpc_step style c c'
| rpc_task_section t a rest c c' more :
    tasks c !! t = Some (a :: rest) -> run_rpc_atom a c = (c', more) ->
    rpc_step style c (set_tasks (<[t := more ++ rest]> (tasks c')) c').

Inductive connected (style : CancelStyle) : Connection -> Prop :=
| connected_new : connected style new_connection
| connected_step c c' : connected style c -> rpc_step style c c' -> connected style c'.

End WithJson.
