(* ===== verification/RpcFacts.v ===== *)
(** JSON-RPC connections: what the framing gives does not depend on how the
    stream was cut, and frames written are read back; every request ends with
    what the server said to it, and none is left waiting. *)

From Stdlib Require Import ZArith.
From stdpp Require Import gmap list.
From S2P Require Import Rpc.

Open Scope N_scope.

(** * Decimal numbers *)

Lemma parse_digits_app a t u :
  parse_digits a (t ++ u) = match parse_digits a t with Some n => parse_digits n u | None => None end.
Proof. revert a; induction t as [|c t IH]; intros a; [done|]. cbn [app parse_digits]. by destruct (is_ascii_digit c). Qed.

Lemma digit_char n : is_ascii_digit (48 + n mod 10) = true.
Proof. unfold is_ascii_digit, in_range. pose proof (N.mod_lt n 10). lia. Qed.

(** The digits of a number before [acc]: no longer than its fuel, digits all,
    and read back as the number. *)
Lemma digits_aux_spec fuel n acc :
  n < 2 ^ N.of_nat fuel -> (0 < fuel)%nat ->
  exists ds, digits_aux fuel n acc = ds ++ acc /\ forallb is_ascii_digit ds = true /\ ds <> []
    /\ (length ds <= fuel)%nat /\ parse_digits 0 ds = Some n.
Proof.
  revert n acc; induction fuel as [|f IH]; intros n acc Hn Hf; [lia|]. cbn [digits_aux].
  assert (Hd : n = 10 * (n / 10) + n mod 10) by (by apply N.div_mod).
  destruct (N.eqb_spec (n / 10) 0) as [E|E].
  - exists [48 + n mod 10]. pose proof (digit_char n) as Hc. cbn [app forallb length parse_digits]. rewrite Hc.
    split_and!; [done|done|done|lia|]. f_equal. lia.
  - assert (Hf0 : (0 < f)%nat).
    { destruct f; [|lia]. exfalso. apply E, N.div_small. change (2 ^ N.of_nat 1) with 2 in Hn. lia. }
    destruct (IH (n / 10) ((48 + n mod 10) :: acc)) as (ds & -> & Hds & Hne & Hl & Hp); [|done|].
    { apply N.Div0.div_lt_upper_bound. rewrite Nat2N.inj_succ, N.pow_succ_r' in Hn. lia. }
    exists (ds ++ [48 + n mod 10]). rewrite <- app_assoc, forallb_app, length_app, parse_digits_app, Hp.
    cbn [app forallb length parse_digits]. rewrite Hds, digit_char. split_and!; [done|done|by destruct ds|lia|].
    f_equal. lia.
Qed.

Lemma show_N_spec n :
  forallb is_ascii_digit (show_N n) = true /\ show_N n <> [] /\ (length (show_N n) <= S (N.to_nat (N.size n)))%nat
  /\ parse_digits 0 (show_N n) = Some n.
Proof.
  unfold show_N. destruct (digits_aux_spec (S (N.to_nat (N.size n))) n []) as (ds & E & H); [|lia|].
  - rewrite Nat2N.inj_succ, N2Nat.id, N.pow_succ_r'. pose proof (N.size_gt n). lia.
  - rewrite app_nil_r in E. by rewrite E.
Qed.

Lemma digits_plain ds P : (forall c, is_ascii_digit c = true -> P c) -> forallb is_ascii_digit ds = true -> Forall P ds.
Proof. intros HP Hd. apply Forall_forall. intros c Hc. apply HP. by apply (proj1 (forallb_forall _ _) Hd), list_elem_of_In. Qed.

Lemma parse_show_N n : n < U64 -> parse_u64 (show_N n) = Some n.
Proof.
  intros Hn. destruct (show_N_spec n) as (Hd & Hne & _ & Hp). unfold parse_u64.
  destruct (show_N n) as [|d ds] eqn:E; [done|].
  replace (strip_prefix (str "+") (d :: ds)) with (@None text).
  - cbn [default]. change (is_empty (d :: ds)) with false. cbn match. rewrite Hp. by replace (n <? U64) with true by lia.
  - change (str "+") with [43]. cbn [strip_prefix]. cbn in Hd. apply andb_prop in Hd as [Hd _].
    unfold is_ascii_digit, in_range in Hd. destruct (N.eqb_spec 43 d) as [<-|]; [lia|done].
Qed.

(** * The stream *)

(** The bytes still to come. *)
Definition flat (s : Stream) : list N := concat (map (fun a => match a with Chunk b => b | ReadError _ => [] end) s).

(** A stream that works: every read gives some bytes until the end. *)
Definition clean (s : Stream) : Prop := Forall (fun a => match a with Chunk b => b <> [] | ReadError _ => False end) s.

Lemma clean_size s : clean s -> stream_size s = length (flat s).
Proof.
  induction 1 as [|[b|e] s Hb Hs IH]; [done| |done]. unfold stream_size, flat in *. cbn. rewrite length_app. by rewrite <- IH.
Qed.

Lemma consume_clean b s : clean s -> clean (consume b s) /\ flat (consume b s) = b ++ flat s.
Proof. intros Hs. destruct b; [done|]. split; [by constructor|done]. Qed.

Lemma call_position_app c a b :
  position c (a ++ b) = match position c a with Some k => Some k | None => option_map (Nat.add (length a)) (position c b) end.
Proof.
  induction a as [|x a IH]; cbn [app position length]; [by destruct (position c b)|]. destruct (N.eqb_spec x c); [done|]. rewrite IH.
  destruct (position c a); [done|]. by destruct (position c b).
Qed.

Lemma position_lt c a k : position c a = Some k -> (k < length a)%nat /\ (c ∉ take k a).
Proof.
  revert k; induction a as [|x a IH]; intros k; cbn [position length]; [done|].
  destruct (N.eqb_spec x c) as [->|Hne]; [intros [= <-]; split; [lia|apply not_elem_of_nil]|].
  destruct (position c a) as [j|]; [|done]. cbn. intros [= <-]. destruct (IH j eq_refl). split; [lia|].
  cbn. rewrite not_elem_of_cons. by split; [congruence|].
Qed.

Lemma position_fresh c a : c ∉ a -> position c a = None.
Proof.
  induction a as [|x a IH]; [done|]. rewrite not_elem_of_cons. intros [Hx Ha]. cbn. rewrite IH by done.
  by destruct (N.eqb_spec x c) as [->|].
Qed.

(** One line of the bytes. *)
Definition flat_line (limit : N) (line bs : list N) : result IntegrationError (option (list N)) * list N :=
  match position NEWLINE bs with
  | Some end_ =>
      if limit <? N.of_nat (length line + end_) then (Err (too_long limit), [])
      else (Ok (Some (line ++ take end_ bs)), drop (S end_) bs)
  | None =>
      if limit <? N.of_nat (length line + length bs) then (Err (too_long limit), [])
      else (Ok (if is_empty (line ++ bs) then None else Some (line ++ bs)), [])
  end.

(** A result and the stream after it against a result and the bytes after it. *)
Definition matches {A} (r : result IntegrationError A * Stream) (r' : result IntegrationError A * list N) : Prop :=
  fst r = fst r' /\ match fst r with Ok _ => clean (snd r) /\ flat (snd r) = snd r' | Err _ => True end.

Lemma read_frame_line_flat limit line s :
  clean s -> N.of_nat (length line) <= limit -> matches (read_frame_line limit line s) (flat_line limit line (flat s)).
Proof.
  intros Hs. revert line; induction Hs as [|[b|e] s Hb Hs IH]; intros line Hl; [| |done].
  - unfold flat_line. cbn. rewrite Nat.add_0_r, app_nil_r. replace (limit <? N.of_nat (length line)) with false by lia.
    by split; [|split; [constructor|]].
  - change (flat (Chunk b :: s)) with (b ++ flat s). unfold flat_line. rewrite call_position_app.
    destruct b as [|x b]; [done|]. cbn [read_frame_line]. set (chunk := x :: b) in *.
    destruct (position NEWLINE chunk) as [k|] eqn:E.
    + apply position_lt in E as [Hk _]. rewrite length_take, Nat.min_l by lia. destruct (limit <? _); [done|].
      destruct (consume_clean (drop (S k) chunk) s Hs) as [Hc Hf]. split; cbn [fst snd].
      * rewrite take_app_le by lia. done.
      * rewrite drop_app_le by lia. done.
    + cbn [option_map]. destruct (N.ltb_spec limit (N.of_nat (length line + length chunk))) as [Hlt|Hge].
      * destruct (position NEWLINE (flat s)) as [k|]; cbn [option_map].
        -- by replace (limit <? N.of_nat (length line + (length chunk + k))) with true by lia.
        -- rewrite length_app. by replace (limit <? N.of_nat (length line + (length chunk + length (flat s)))) with true by lia.
      * specialize (IH (line ++ chunk)). rewrite length_app in IH. specialize (IH ltac:(lia)).
        unfold flat_line in IH. rewrite length_app in IH. destruct (position NEWLINE (flat s)) as [k|]; cbn [option_map].
        -- rewrite <- Nat.add_assoc in IH. replace (S (length chunk + k)) with (length chunk + S k)%nat by lia.
           rewrite take_app_add, drop_app_add. rewrite <- app_assoc in IH. exact IH.
        -- rewrite length_app, <- Nat.add_assoc in *. rewrite <- !app_assoc in IH. exact IH.
Qed.

(** * Chunks do not matter *)

Definition same_bytes (s1 s2 : Stream) : Prop := clean s1 /\ clean s2 /\ flat s1 = flat s2.

Definition alike {A} (r1 r2 : result IntegrationError A * Stream) : Prop :=
  fst r1 = fst r2 /\ match fst r1 with Ok _ => same_bytes (snd r1) (snd r2) | Err _ => True end.

Lemma matches_alike {A} (r1 r2 : result IntegrationError A * Stream) r' : matches r1 r' -> matches r2 r' -> alike r1 r2.
Proof.
  intros [E1 H1] [E2 H2]. split; [congruence|]. rewrite E1 in *. rewrite E2 in H2. destruct (fst r'); [|done].
  destruct H1 as [C1 F1], H2 as [C2 F2]. split_and!; congruence.
Qed.

Lemma alike_bind {A B} (r1 r2 : result IntegrationError A * Stream) (k1 k2 : A -> Stream -> result IntegrationError B * Stream) :
  alike r1 r2 -> (forall a s1 s2, same_bytes s1 s2 -> alike (k1 a s1) (k2 a s2)) ->
  alike (match r1 with (Ok a, s) => k1 a s | (Err e, s) => (Err e, s) end)
        (match r2 with (Ok a, s) => k2 a s | (Err e, s) => (Err e, s) end).
Proof. destruct r1 as [[a|e] s1], r2 as [[a'|e'] s2]; intros [[= ->] H] Hk; cbn in *; [by apply Hk|by split]. Qed.

Lemma alike_end {A} (x : result IntegrationError A) s1 s2 : same_bytes s1 s2 -> alike (x, s1) (x, s2).
Proof. split; [done|]. by destruct x. Qed.

Lemma frame_line_alike limit s1 s2 : same_bytes s1 s2 -> alike (read_frame_line limit [] s1) (read_frame_line limit [] s2).
Proof.
  intros (C1 & C2 & E). assert (H : forall s, clean s -> matches (read_frame_line limit [] s) (flat_line limit [] (flat s)))
    by (intros; apply read_frame_line_flat; [done|cbn; lia]).
  refine (matches_alike _ _ _ (H s1 C1) _). rewrite E. by apply H.
Qed.

Lemma line_frame_alike fuel limit s1 s2 : same_bytes s1 s2 -> alike (line_frame_loop fuel limit s1) (line_frame_loop fuel limit s2).
Proof.
  revert s1 s2; induction fuel as [|fuel IH]; intros s1 s2 Hs; [by apply alike_end|]. cbn [line_frame_loop].
  destruct (frame_line_alike limit s1 s2 Hs) as [E H].
  destruct (read_frame_line limit [] s1) as [[[line|]|e] t1], (read_frame_line limit [] s2) as [[[line'|]|e'] t2];
    cbn in E, H; simplify_eq; [|by apply alike_end|by split].
  destruct (forallb _ _); [by apply IH|by apply alike_end].
Qed.

Lemma header_alike fuel n h s1 s2 : same_bytes s1 s2 -> alike (header_loop fuel n h s1) (header_loop fuel n h s2).
Proof.
  revert n h s1 s2; induction fuel as [|fuel IH]; intros n h s1 s2 Hs; [by apply alike_end|]. cbn [header_loop].
  destruct (frame_line_alike MAX_HEADER_LINE s1 s2 Hs) as [E H].
  destruct (read_frame_line _ [] s1) as [[[line|]|e] t1], (read_frame_line _ [] s2) as [[[line'|]|e'] t2];
    cbn in E, H; simplify_eq; [|destruct h; [by split|by apply alike_end]|by split].
  destruct (is_empty _); [destruct h; [by apply alike_end|by apply IH]|].
  destruct (header_line _ n); [by apply IH|by split].
Qed.

(** [read_exact] on the bytes. *)
Definition flat_exact (n : N) (body bs : list N) : result IntegrationError (list N) * list N :=
  if N.of_nat (length bs) <? n then (Err (Disconnected (str "the stream ended inside a message body")), [])
  else (Ok (body ++ take (N.to_nat n) bs), drop (N.to_nat n) bs).

Lemma read_exact_flat n body s : clean s -> matches (read_exact n body s) (flat_exact n body (flat s)).
Proof.
  intros Hs. revert n body; induction Hs as [|[b|e] s Hb Hs IH]; intros n body; [| |done].
  - unfold flat_exact. cbn. destruct (N.eqb_spec n 0) as [->|Hn]; [split; cbn; [by rewrite app_nil_r|by split; [constructor|]]|].
    by destruct n.
  - change (flat (Chunk b :: s)) with (b ++ flat s). unfold flat_exact. rewrite length_app.
    assert (Hlen : (0 < length b)%nat) by (destruct b; [done|cbn; lia]). cbn [read_exact].
    destruct (N.eqb_spec n 0) as [->|Hn].
    { replace (N.of_nat _ <? 0) with false by lia. cbn. rewrite app_nil_r. by split; [|split; [by constructor|]]. }
    destruct b as [|x b]; [done|]. set (chunk := x :: b) in *.
    destruct (N.leb_spec (N.of_nat (length chunk)) n) as [Hle|Hgt].
    + specialize (IH (n - N.of_nat (length chunk)) (body ++ chunk)). unfold flat_exact in IH.
      replace (N.of_nat (length (flat s)) <? n - N.of_nat (length chunk))
        with (N.of_nat (length chunk + length (flat s)) <? n) in IH by lia.
      destruct (_ <? n); [done|].
      replace (N.to_nat n) with (length chunk + N.to_nat (n - N.of_nat (length chunk)))%nat by lia.
      rewrite take_app_add, drop_app_add. rewrite <- app_assoc in IH. exact IH.
    + replace (_ <? n) with false by lia. destruct (consume_clean (drop (N.to_nat n) chunk) s Hs) as [Hc Hf].
      split; cbn [fst snd]; [by rewrite take_app_le by lia|]. by rewrite drop_app_le by lia.
Qed.

Lemma read_frame_alike s1 s2 framing limit :
  same_bytes s1 s2 ->
  let r1 := read_frame (mkFrameReader s1 framing limit) in
  let r2 := read_frame (mkFrameReader s2 framing limit) in
  alike (fst r1, reader (snd r1)) (fst r2, reader (snd r2)).
Proof.
  intros Hs r1 r2. subst r1 r2. assert (Hsize : stream_size s1 = stream_size s2).
  { destruct Hs as (C1 & C2 & E). rewrite !clean_size by done. by rewrite E. }
  unfold read_frame. cbn [reader_framing reader_limit reader]. destruct framing.
  - unfold read_line_frame. rewrite Hsize. pose proof (line_frame_alike (S (stream_size s2)) limit s1 s2 Hs) as H.
    by destruct (line_frame_loop _ _ s1), (line_frame_loop _ _ s2).
  - unfold read_length_frame. rewrite Hsize. pose proof (header_alike (S (stream_size s2)) None false s1 s2 Hs) as H.
    destruct (header_loop _ _ _ s1) as [[[[n|]|]|e] t1], (header_loop _ _ _ s2) as [[[[n'|]|]|e'] t2];
      destruct H as [E H]; cbn in E, H; try done; cbn [fst snd reader].
    + injection E as <-. destruct (limit <? n); [done|]. destruct H as (C1 & C2 & E).
      pose proof (matches_alike _ _ (flat_exact n [] (flat t1)) (read_exact_flat n [] t1 C1)
                    ltac:(rewrite E; by apply read_exact_flat)) as [E' H'].
      by destruct (read_exact n [] t1) as [[|]], (read_exact n [] t2) as [[|]]; cbn in *; simplify_eq.
    + injection E as <-. by split.
Qed.

Lemma read_frames_alike fuel s1 s2 framing limit :
  same_bytes s1 s2 ->
  read_frames fuel (mkFrameReader s1 framing limit) = read_frames fuel (mkFrameReader s2 framing limit).
Proof.
  revert s1 s2; induction fuel as [|fuel IH]; intros s1 s2 Hs; [done|]. cbn [read_frames].
  destruct (read_frame_alike s1 s2 framing limit Hs) as [E H]. unfold read_frame in *. cbn [reader_framing reader_limit reader] in *.
  destruct (match framing with NewlineFraming => read_line_frame limit s1 | _ => _ end) as [f1 t1].
  destruct (match framing with NewlineFraming => read_line_frame limit s2 | _ => _ end) as [f2 t2]. cbn in E, H. subst f2.
  destruct f1 as [[body|]|e]; [f_equal; by apply IH|done|done].
Qed.

(** * Frames written are read back *)

Lemma line_read limit line rest s :
  clean s -> flat s = line ++ [NEWLINE] ++ rest -> NEWLINE ∉ line -> N.of_nat (length line) <= limit ->
  exists s', read_frame_line limit [] s = (Ok (Some line), s') /\ clean s' /\ flat s' = rest.
Proof.
  intros Hs Hf Hn Hl. destruct (read_frame_line_flat limit [] s Hs ltac:(cbn; lia)) as [E H]. rewrite Hf in E, H.
  assert (Hp : flat_line limit [] (line ++ [NEWLINE] ++ rest) = (Ok (Some line), rest)).
  { unfold flat_line. rewrite call_position_app, position_fresh by done. cbn [app position length]. rewrite N.eqb_refl. cbn [option_map].
    rewrite Nat.add_0_r. replace (limit <? _) with false by lia. rewrite take_app_length.
    change (NEWLINE :: rest) with ([NEWLINE] ++ rest). replace (S (length line)) with (length line + 1)%nat by lia.
    by rewrite drop_app_add. }
  rewrite Hp in E, H. destruct (read_frame_line limit [] s) as [x s']. cbn in E, H. subst x. by exists s'.
Qed.

Lemma as_bytes_ascii t : Forall (fun c => c < 128) t -> as_bytes t = t.
Proof.
  induction 1 as [|c t Hc Ht IH]; [done|]. unfold as_bytes in *. cbn [flat_map]. rewrite IH.
  unfold utf8_encode. by replace (c <? 128) with true by lia.
Qed.

Definition header (n : N) : list N := str "Content-Length" ++ 58 :: 32 :: show_N n.

Lemma show_N_plain n : Forall (fun c => 48 <= c <= 57) (show_N n).
Proof.
  destruct (show_N_spec n) as (Hd & _). apply digits_plain; [|done]. intros c Hc. unfold is_ascii_digit, in_range in Hc. lia.
Qed.

Lemma header_ascii n : Forall (fun c => 32 <= c < 128) (header n).
Proof.
  unfold header. apply Forall_app. split; [by apply (bool_decide_unpack _)|]. do 2 (constructor; [lia|]).
  apply (Forall_impl _ _ _ (show_N_plain n)). lia.
Qed.

Lemma header_bytes n : as_bytes (header n) = header n /\ from_utf8_lossy (header n) = header n.
Proof.
  assert (E : as_bytes (header n) = header n).
  { apply as_bytes_ascii, (Forall_impl _ _ _ (header_ascii n)). lia. }
  split; [done|]. rewrite <- E at 1. apply lossy_round_trip. apply forallb_forall. intros c Hc%list_elem_of_In.
  apply (proj1 (Forall_forall _ _) (header_ascii n)) in Hc. cbn in Hc. unfold is_char, in_range. lia.
Qed.

Lemma header_line_reads n : n < U64 -> header_line (header n) None = Ok (Some n).
Proof.
  intros Hn. unfold header_line. rewrite (proj2 (header_bytes n)). unfold header.
  change (str ":") with [58]. rewrite split_once_char_app.
  2:{ intros H. apply list_elem_of_In in H. revert H. apply (bool_decide_unpack _). by vm_compute. }
  replace (eq_ignore_ascii_case _ _) with true by done. cbn match.
  change (trim (32 :: show_N n)) with (trim (show_N n)). rewrite trimmed_trim; [by rewrite parse_show_N|].
  assert (Hds := show_N_plain n). assert (Hw : forall c, 48 <= c <= 57 -> is_whitespace c = false).
  { intros c Hc. unfold is_whitespace, in_range. lia. }
  split.
  - destruct Hds; [done|]. by apply Hw.
  - apply (proj2 (Forall_reverse _ _)) in Hds.
    destruct Hds; [done|]. by apply Hw.
Qed.

Lemma strip_return_return l : strip_return (l ++ [CARRIAGE_RETURN]) = l.
Proof.
  unfold strip_return, strip_suffix. rewrite reverse_snoc. change (reverse [CARRIAGE_RETURN]) with [CARRIAGE_RETURN].
  cbn -[reverse]. rewrite N.eqb_refl. cbn -[reverse]. by rewrite reverse_involutive.
Qed.

Lemma strip_return_plain l : last l <> Some CARRIAGE_RETURN -> strip_return l = l.
Proof.
  destruct l as [|b l _] using rev_ind; [done|]. rewrite last_snoc. intros Hb. unfold strip_return, strip_suffix.
  rewrite reverse_snoc. change (reverse [CARRIAGE_RETURN]) with [CARRIAGE_RETURN]. cbn [strip_prefix].
  destruct (N.eqb_spec CARRIAGE_RETURN b) as [<-|]; [done|done].
Qed.

Lemma encoded_length_frame body :
  encode_frame ContentLength body
  = (header (N.of_nat (length body)) ++ [CARRIAGE_RETURN]) ++ [NEWLINE] ++ [CARRIAGE_RETURN] ++ [NEWLINE] ++ body.
Proof.
  unfold encode_frame. set (n := N.of_nat (length body)).
  change (str "Content-Length: " ++ show_N n ++ [CARRIAGE_RETURN; NEWLINE; CARRIAGE_RETURN; NEWLINE])
    with (header n ++ [CARRIAGE_RETURN; NEWLINE; CARRIAGE_RETURN; NEWLINE]).
  rewrite as_bytes_ascii; [by rewrite <- !app_assoc|]. apply Forall_app. split.
  - apply (Forall_impl _ _ _ (header_ascii n)). lia.
  - by apply (bool_decide_unpack _).
Qed.

(** Frames a framing can carry. *)
Definition sendable (framing : Framing) (limit : N) (body : list N) : Prop :=
  N.of_nat (length body) <= limit
  /\ match framing with
     | NewlineFraming => (NEWLINE ∉ body) /\ last body <> Some CARRIAGE_RETURN /\ forallb is_ascii_whitespace body = false
     | ContentLength => True
     end.

Lemma header_fits n : n < U64 -> N.of_nat (length (header n ++ [CARRIAGE_RETURN])) <= MAX_HEADER_LINE.
Proof.
  intros Hn. unfold header. rewrite !length_app. cbn [length]. destruct (show_N_spec n) as (_ & _ & Hl & _).
  assert (N.size n <= 64).
  { destruct (N.eq_dec n 0) as [->|Hz]; [done|]. rewrite N.size_log2 by done.
    assert (N.log2 n < 64) by (apply N.log2_lt_pow2; [lia|exact Hn]). lia. }
  change (length (str "Content-Length")) with 14%nat. unfold MAX_HEADER_LINE. lia.
Qed.

Lemma header_no_newline n : NEWLINE ∉ header n ++ [CARRIAGE_RETURN].
Proof.
  rewrite elem_of_app. intros [H|H]; [|apply list_elem_of_singleton in H; discriminate].
  apply (proj1 (Forall_forall _ _) (header_ascii n)) in H. cbn in H. unfold NEWLINE in H. lia.
Qed.

Lemma frame_read framing limit body rest s :
  limit < U64 -> sendable framing limit body -> clean s -> flat s = encode_frame framing body ++ rest ->
  exists s', read_frame (mkFrameReader s framing limit) = (Ok (Some body), mkFrameReader s' framing limit)
    /\ clean s' /\ flat s' = rest.
Proof.
  intros Hlim [Hl Hb] Hs Hf. unfold read_frame. cbn [reader_framing reader_limit reader]. destruct framing.
  - destruct Hb as (Hn & Hr & Hw). cbn [encode_frame] in Hf. rewrite <- app_assoc in Hf.
    destruct (line_read limit body rest s Hs Hf Hn Hl) as (s' & E & Hs'). exists s'. split; [|done].
    unfold read_line_frame. cbn [line_frame_loop]. by rewrite E, strip_return_plain, Hw.
  - rewrite encoded_length_frame, <- !app_assoc in Hf. rewrite app_assoc in Hf.
    assert (Hn64 : N.of_nat (length body) < U64) by lia.
    destruct (line_read MAX_HEADER_LINE _ _ s Hs Hf (header_no_newline _) (header_fits _ Hn64)) as (s1 & E1 & Hs1 & Hf1).
    destruct (line_read MAX_HEADER_LINE [CARRIAGE_RETURN] _ s1 Hs1 Hf1) as (s2 & E2 & Hs2 & Hf2);
      [by apply (bool_decide_unpack _)|done|].
    destruct (read_exact_flat (N.of_nat (length body)) [] s2 Hs2) as [E3 Hs3]. rewrite Hf2 in E3, Hs3.
    unfold flat_exact in E3, Hs3. rewrite length_app, Nat2N.id in E3, Hs3.
    replace (_ <? N.of_nat (length body)) with false in E3, Hs3 by lia. cbn [fst snd] in E3, Hs3.
    rewrite take_app_length in E3. rewrite drop_app_length in Hs3.
    destruct (read_exact _ [] s2) as [x s3] eqn:E4. cbn [fst snd] in E3, Hs3. subst x. exists s3. split; [|done].
    unfold read_length_frame. assert (Hsize : exists k, stream_size s = S k).
    { rewrite (clean_size s Hs), Hf. eexists. reflexivity. }
    destruct Hsize as [k ->]. cbn [header_loop]. rewrite E1, strip_return_return.
    replace (is_empty (header _)) with false by done. rewrite header_line_reads by done. rewrite E2.
    replace (strip_return [CARRIAGE_RETURN]) with (@nil N) by done. cbn [is_empty].
    replace (limit <? N.of_nat (length body)) with false by (symmetry; apply N.ltb_ge; exact Hl). by rewrite E4.
Qed.

Lemma frames_read framing limit bodies s fuel :
  limit < U64 -> Forall (sendable framing limit) bodies -> clean s -> flat s = concat (map (encode_frame framing) bodies) ->
  (length bodies < fuel)%nat ->
  read_frames fuel (mkFrameReader s framing limit) = map Ok bodies.
Proof.
  intros Hl Hb. revert s fuel; induction Hb as [|body bodies Hbody Hb IH]; intros s fuel Hs Hf Hfuel;
    (destruct fuel as [|fuel]; [cbn in Hfuel; lia|]); cbn [read_frames].
  - cbn in Hf. destruct Hs as [|[b|e] s Hx Hs]; [|destruct b; [done|discriminate]|done]. by destruct framing.
  - cbn [map concat] in Hf. destruct (frame_read framing limit body _ s Hl Hbody Hs Hf) as (s' & -> & Hs' & Hf').
    cbn [map]. f_equal. apply IH; [done|done|cbn in Hfuel; lia].
Qed.

Lemma encoded_nonempty framing body : (0 < length (encode_frame framing body))%nat.
Proof.
  destruct framing; [cbn; rewrite length_app; cbn; lia|]. rewrite encoded_length_frame, !length_app. cbn [length]. lia.
Qed.

Lemma encoded_length framing bodies : (length bodies <= length (concat (map (encode_frame framing) bodies)))%nat.
Proof.
  induction bodies as [|b bodies IH]; [done|]. cbn [map concat]. rewrite length_app. cbn [length].
  pose proof (encoded_nonempty framing b). lia.
Qed.

Lemma strip_return_length l : (length (strip_return l) <= length l)%nat.
Proof.
  destruct l as [|b l _] using rev_ind; [done|]. rewrite length_app. cbn [length].
  destruct (N.eq_dec b CARRIAGE_RETURN) as [->|Hb]; [rewrite strip_return_return; lia|].
  rewrite strip_return_plain by (rewrite last_snoc; congruence). rewrite length_app. cbn. lia.
Qed.

Lemma frame_line_bounded limit line s l s' :
  N.of_nat (length line) <= limit -> read_frame_line limit line s = (Ok (Some l), s') -> N.of_nat (length l) <= limit.
Proof.
  revert line; induction s as [|[b|e] s IH]; intros line Hl; cbn [read_frame_line];
    [by destruct line as [|x line]; intros [= <-]| |done].
  destruct b as [|x b]; [by destruct line as [|y line]; intros [= <-]|].
  destruct (N.ltb_spec limit (N.of_nat (length line + length match position NEWLINE (x :: b) with Some end_ => take end_ (x :: b) | None => x :: b end)));
    [done|]. destruct (position NEWLINE (x :: b)) as [k|].
  - intros [= <- <-]. rewrite length_app. lia.
  - apply IH. rewrite length_app. lia.
Qed.

Lemma line_frame_bounded fuel limit s l s' :
  line_frame_loop fuel limit s = (Ok (Some l), s') -> N.of_nat (length l) <= limit.
Proof.
  revert s; induction fuel as [|fuel IH]; intros s; [done|]. cbn [line_frame_loop].
  destruct (read_frame_line limit [] s) as [[[line|]|e] t] eqn:E; [|done|done].
  destruct (forallb _ _); [apply IH|]. intros [= <- <-]. apply frame_line_bounded in E; [|cbn; lia].
  pose proof (strip_return_length line). lia.
Qed.

Lemma read_exact_length n body s b s' :
  read_exact n body s = (Ok b, s') -> N.of_nat (length b) = N.of_nat (length body) + n.
Proof.
  revert n body; induction s as [|[c|e] s IH]; intros n body; cbn [read_exact];
    (destruct (N.eqb_spec n 0) as [->|Hn]; [intros [= <- <-]; lia|]); [done| |done].
  destruct c as [|x c]; [done|]. destruct (N.leb_spec (N.of_nat (length (x :: c))) n).
  - intros H1. apply IH in H1. rewrite H1, length_app. lia.
  - intros [= <- _]. rewrite length_app, length_take. lia.
Qed.

(** No frame is larger than the limit. *)
Lemma frame_bounded r body r' :
  read_frame r = (Ok (Some body), r') -> N.of_nat (length body) <= reader_limit r /\ reader_limit r' = reader_limit r.
Proof.
  unfold read_frame. destruct (reader_framing r).
  - destruct (read_line_frame _ _) as [f s] eqn:E. intros [= -> <-]. by apply line_frame_bounded in E.
  - destruct (read_length_frame _ _) as [f s] eqn:E. intros [= -> <-]. split; [|done]. revert E. unfold read_length_frame.
    destruct (header_loop _ _ _ _) as [[[[n|]|]|e] t]; try done. destruct (N.ltb_spec (reader_limit r) n); [done|].
    destruct (read_exact n [] t) as [[b|e] t'] eqn:E; [|done]. intros [= <- <-]. apply read_exact_length in E. cbn in E. lia.
Qed.

Lemma frames_bounded fuel r : Forall (fun f => match f with Ok body => N.of_nat (length body) <= reader_limit r | Err _ => True end) (read_frames fuel r).
Proof.
  revert r; induction fuel as [|fuel IH]; intros r; [constructor|]. cbn [read_frames].
  destruct (read_frame r) as [[[body|]|e] r'] eqn:E; [|constructor|by repeat constructor].
  apply frame_bounded in E as [Hb Hr]. constructor; [done|]. rewrite <- Hr. apply IH.
Qed.

(** C30: what the two framings carry arrives as it was sent.  The frames a
    stream gives, and the error it ends with, do not depend on how it was cut
    into reads; the frames of messages written one after the other are those
    messages; and whatever the stream holds, no frame exceeds the limit. *)
Theorem frames_round_trip (framing : Framing) (limit : N) (s : Stream) :
  limit < U64 -> clean s ->
  (forall s', clean s' -> flat s' = flat s ->
     all_frames (mkFrameReader s' framing limit) = all_frames (mkFrameReader s framing limit))
  /\ (forall bodies, Forall (sendable framing limit) bodies -> flat s = concat (map (encode_frame framing) bodies) ->
       all_frames (mkFrameReader s framing limit) = map Ok bodies)
  /\ Forall (fun f => match f with Ok body => N.of_nat (length body) <= limit | Err _ => True end)
       (all_frames (mkFrameReader s framing limit)).
Proof.
  intros Hl Hs. unfold all_frames. cbn [reader]. split_and!.
  - intros s' Hs' E. rewrite !clean_size, E by done. by apply read_frames_alike.
  - intros bodies Hb E. apply frames_read; try done. rewrite (clean_size s Hs), E.
    pose proof (encoded_length framing bodies). lia.
  - apply (frames_bounded _ (mkFrameReader s framing limit)).
Qed.

Lemma frames_round_trip_witness :
  all_frames (new_reader [Chunk (encode_frame ContentLength (str "{}")); Chunk (encode_frame ContentLength (str "[1]"))] ContentLength)
  = [Ok (str "{}"); Ok (str "[1]")].
Proof.
  refine (proj1 (proj2 (frames_round_trip ContentLength MAX_FRAME_BYTES _ _ _)) [str "{}"; str "[1]"] _ _).
  - reflexivity.
  - repeat constructor; discriminate.
  - repeat constructor; discriminate.
  - reflexivity.
Defined.

(** * Requests *)

Section WithJson.
Context {J : Json} {W : JsonWire}.

Definition delivery (a : RpcAtom) : option (nat * Outcome) := match a with ADeliver n o => Some (n, o) | _ => None end.

(** The outcomes taken off the table and not yet delivered. *)
Definition in_flight (ts : list (list RpcAtom)) : list (nat * Outcome) := omap delivery (concat ts).

Definition waiting (p : CallPhase) : Prop := match p with Sending | Awaiting => True | _ => False end.

(** Phases of a call whose id is or was in the table. *)
Definition registered (p : CallPhase) : Prop := match p with Called | Numbered | Returned _ => False | _ => True end.

(** A result is what the server answered to that id. *)
Definition justified (c : Connection) (k : Call) (o : Outcome) : Prop :=
  match o with
  | Ok v => exists i, call_request k = Some i /\ MResponse (mkRpcResponse (Some i) (Ok v)) ∈ heard c
  | Err _ => True
  end.

Definition call_ok (fly : list (nat * Outcome)) (c : Connection) (n : nat) (k : Call) : Prop :=
  match call_phase k with
  | Called => call_request k = None /\ call_channel k = None /\ n ∉ fly.*1
  | Numbered => call_channel k = None /\ (n ∉ fly.*1) /\ is_Some (call_request k)
  | Returned o => justified c k o
  | Sending | Awaiting => exists i, call_request k = Some i /\ (waiters c !! i = Some n \/ n ∈ fly.*1 \/ is_Some (call_channel k))
  | _ => is_Some (call_request k)
  end
  /\ (forall o, call_channel k = Some o -> (n ∉ fly.*1) /\ justified c k o)
  /\ (forall i, call_request k = Some i -> exists z, i = Number z /\ (1 <= z < following_id c)%Z).

(** How many calls have an id. *)
Definition has_id (k : Call) : nat := match call_request k with Some _ => 1 | None => 0 end.
Definition numbered_calls (l : list Call) : nat := list_sum (map has_id l).

Lemma calls_numbered_cons k l : numbered_calls (k :: l) = (has_id k + numbered_calls l)%nat.
Proof. done. Qed.

Lemma numbered_insert l n k k' :
  l !! n = Some k -> (numbered_calls (<[n := k']> l) + has_id k = numbered_calls l + has_id k')%nat.
Proof.
  revert n; induction l as [|x l IH]; intros [|n] Hk; try done.
  - injection Hk as ->. change (<[0%nat := k']> (k :: l)) with (k' :: l). rewrite !calls_numbered_cons. lia.
  - change (<[S n := k']> (x :: l)) with (x :: <[n := k']> l). rewrite !calls_numbered_cons. specialize (IH n Hk). lia.
Qed.

Lemma numbered_alter f l n : (forall k, call_request (f k) = call_request k) -> numbered_calls (alter f n l) = numbered_calls l.
Proof.
  intros Hf. revert n; induction l as [|x l IH]; intros [|n]; try done.
  - change (alter f 0%nat (x :: l)) with (f x :: l). rewrite !calls_numbered_cons. unfold has_id. by rewrite Hf.
  - change (alter f (S n) (x :: l)) with (x :: alter f n l). by rewrite !calls_numbered_cons, IH.
Qed.

Lemma numbered_bound l : (numbered_calls l <= length l)%nat.
Proof. induction l as [|x l IH]; [done|]. rewrite calls_numbered_cons. cbn [length]. unfold has_id. destruct (call_request x); lia. Qed.

Record accounted (fly : list (nat * Outcome)) (c : Connection) : Prop := mkAccounted {
  acc_next : following_id c = (1 + Z.of_nat (numbered_calls (requests c)))%Z;
  acc_distinct : forall n m k k' i, requests c !! n = Some k -> requests c !! m = Some k' ->
    call_request k = Some i -> call_request k' = Some i -> n = m;
  acc_calls : forall n k, requests c !! n = Some k -> call_ok fly c n k;
  acc_waiters : forall i n, waiters c !! i = Some n ->
    exists k, requests c !! n = Some k /\ call_request k = Some i /\ registered (call_phase k) /\ call_channel k = None /\ n ∉ fly.*1;
  acc_nodup : NoDup fly.*1;
  acc_fly : forall n o, (n, o) ∈ fly ->
    exists k, requests c !! n = Some k /\ call_channel k = None /\ justified c k o;
  acc_closed : is_Some (close_reason c) -> waiters c = ∅
}.

Lemma accounted_perm fly fly' c : fly ≡ₚ fly' -> accounted fly c -> accounted fly' c.
Proof.
  intros P [N D C Wt ND F CL]. assert (P1 : fly.*1 ≡ₚ fly'.*1) by by rewrite P.
  assert (PE : forall n, n ∈ fly.*1 <-> n ∈ fly'.*1) by (intros; by rewrite P1).
  constructor; try done.
  - intros n k Hk. destruct (C n k Hk) as (H1 & H2 & H3). split_and!; [|intros o Ho; destruct (H2 o Ho); by rewrite <- PE|done].
    destruct (call_phase k); rewrite <- ?PE; try done. destruct H1 as (i & Hi & H1). exists i. by rewrite <- PE.
    destruct H1 as (i & Hi & H1). exists i. by rewrite <- PE.
  - intros i n Hi. destruct (Wt i n Hi) as (k & ?). exists k. by rewrite <- PE.
  - by rewrite <- P1.
  - intros n o Ho. apply F. by rewrite P.
Qed.

(** Nothing changes but what was heard, told and runs. *)
Lemma accounted_frame fly c c' :
  following_id c' = following_id c -> waiters c' = waiters c -> close_reason c' = close_reason c ->
  requests c' = requests c -> (forall m, m ∈ heard c -> m ∈ heard c') ->
  accounted fly c -> accounted fly c'.
Proof.
  intros E1 E2 E3 E5 Hh [N D C Wt ND F CL].
  assert (J' : forall k o, justified c k o -> justified c' k o).
  { intros k [v|e]; [|done]. intros (i & Hi & Hv). exists i. split; [done|]. by apply Hh. }
  constructor; rewrite ?E1, ?E2, ?E3, ?E5; try done.
  - intros n k Hk. destruct (C n k Hk) as (H1 & H2 & H3). split_and!.
    + destruct (call_phase k); rewrite ?E2; try done. by apply J'.
    + intros o Ho. destruct (H2 o Ho). split; [done|by apply J'].
    + by rewrite E1.
  - intros n o Ho. destruct (F n o Ho) as (k & ? & ? & ?). exists k. split_and!; [done|done|by apply J'].
Qed.

Lemma accounted_tasks fly ts c : accounted fly c -> accounted fly (set_tasks ts c).
Proof. by apply accounted_frame. Qed.

Lemma rpc_in_flight_app ts us : in_flight (ts ++ us) = in_flight ts ++ in_flight us.
Proof. unfold in_flight. by rewrite concat_app, omap_app. Qed.

Lemma in_flight_shift ts t a rest more :
  ts !! t = Some (a :: rest) ->
  exists Y, in_flight ts ≡ₚ option_list (delivery a) ++ Y /\ in_flight (<[t := more ++ rest]> ts) ≡ₚ omap delivery more ++ Y.
Proof.
  intros Ht. assert (Hlt := lookup_lt_Some _ _ _ Ht).
  assert (E1 : in_flight ts = in_flight (take t ts) ++ in_flight ((a :: rest) :: drop (S t) ts))
    by (rewrite <- rpc_in_flight_app; f_equal; symmetry; by apply take_drop_middle).
  rewrite E1, (insert_take_drop ts t _ Hlt), rpc_in_flight_app.
  assert (E2 : forall l ls, in_flight (l :: ls) = omap delivery l ++ in_flight ls)
    by (intros; unfold in_flight; cbn [concat]; by rewrite omap_app).
  rewrite !E2, omap_app. exists (omap delivery rest ++ in_flight (take t ts) ++ in_flight (drop (S t) ts)).
  assert (E3 : omap delivery (a :: rest) = option_list (delivery a) ++ omap delivery rest) by (cbn; by destruct (delivery a)).
  rewrite E3. split; solve_Permutation.
Qed.

Lemma fly_cons n o (Y : list (nat * Outcome)) m : m <> n -> m ∈ ((n, o) :: Y).*1 <-> m ∈ Y.*1.
Proof. intros Hm. rewrite fmap_cons. cbn. rewrite elem_of_cons. naive_solver. Qed.

Lemma waiter_is_call fly c i n : accounted fly c -> waiters c !! i = Some n -> forall j, waiters c !! j = Some n -> j = i.
Proof.
  intros A Hi j Hj. destruct (acc_waiters _ _ A _ _ Hi) as (k & Hk & Ei & _). destruct (acc_waiters _ _ A _ _ Hj) as (k' & Hk' & Ej & _).
  congruence.
Qed.

(** A waiter taken off the table is about to be delivered. *)
Lemma take_waiter_accounted fly c i o :
  accounted fly c ->
  (forall n k, waiters c !! i = Some n -> requests c !! n = Some k -> justified c k o) ->
  accounted (omap delivery (snd (take_waiter i o c)) ++ fly) (fst (take_waiter i o c)).
Proof.
  intros A Hj. unfold take_waiter. destruct (waiters c !! i) as [n|] eqn:Hi; [|done]. cbn [fst snd].
  change (omap delivery [ADeliver n o] ++ fly) with ((n, o) :: fly).
  destruct (acc_waiters _ _ A _ _ Hi) as (k & Hk & Ek & Hr & Hc & Hf). pose proof A as [N D C Wt ND F CL].
  constructor; try done.
  - intros m km Hm. destruct (base.decide (m = n)) as [->|Hne].
    + assert (km = k) as -> by (cbn in Hm; congruence). destruct (C n k Hk) as (H1 & _ & H3). split_and!; [|intros o'; congruence|done].
      destruct (call_phase k); try done; exists i; (split; [done|]); right; left; rewrite fmap_cons; by left.
    + destruct (C m km Hm) as (H1 & H2 & H3). split_and!; [|intros o'; rewrite fly_cons by done; apply H2|done].
      destruct (call_phase km); rewrite ?fly_cons by done; try done;
        destruct H1 as (j & Ej & H1); exists j; (split; [done|]); rewrite fly_cons by done;
        (destruct H1 as [H1|H1]; [left|by right]); cbn; (rewrite lookup_delete_ne; [done|]); intros ->; congruence.
  - intros j m. cbn [forget set_waiters waiters requests]. rewrite lookup_delete_Some. intros [Hne Hj'].
    destruct (Wt j m Hj') as (km & Hkm & Ej & Hrm & Hcm & Hfm). exists km. split_and!; try done.
    rewrite fly_cons; [done|]. intros ->. by apply Hne, (waiter_is_call _ _ _ _ A Hj').
  - rewrite fmap_cons. by constructor.
  - intros m o'. rewrite elem_of_cons. intros [[= -> ->]|Hm]; [|by apply F]. exists k. split_and!; [done|done|by apply (Hj n)].
  - intros Hcl. cbn. by rewrite (CL Hcl), delete_empty.
Qed.

Lemma lookup_alter_call n f (l : list Call) m k :
  alter f n l !! m = Some k -> exists k0, l !! m = Some k0 /\ k = if base.decide (m = n) then f k0 else k0.
Proof.
  destruct (base.decide (m = n)) as [->|Hne].
  - rewrite list_lookup_alter_eq. intros (k0 & -> & ->)%fmap_Some. by exists k0.
  - rewrite list_lookup_alter_ne by done. by exists k.
Qed.

(** A delivery moves an outcome into the call's channel. *)
Lemma deliver_accounted n o Y c :
  accounted ((n, o) :: Y) c ->
  accounted Y (set_requests (alter (fun k => mkCall (call_method k) (call_request k) (call_phase k) (Some o)) n (requests c)) c).
Proof.
  intros [N D C Wt ND F CL]. rewrite fmap_cons in ND. apply NoDup_cons in ND as [Hn ND]. cbn in Hn.
  destruct (F n o) as (k & Hk & Hc & Hj); [by left|]. constructor; try done.
  - cbn [set_requests following_id requests]. by rewrite numbered_alter.
  - intros m1 m2 k1 k2 i H1 H2. apply lookup_alter_call in H1 as (k1' & H1 & ->). apply lookup_alter_call in H2 as (k2' & H2 & ->).
    repeat case_decide; cbn; by apply D.
  - intros m km Hm. cbn [set_requests requests] in Hm. apply lookup_alter_call in Hm as (km' & Hm & ->).
    destruct (C m km' Hm) as (H1 & H2 & H3). destruct (base.decide (m = n)) as [->|Hne].
    + assert (km' = k) as -> by congruence. assert (Hin : n ∈ ((n, o) :: Y).*1) by (rewrite fmap_cons; by left).
      split_and!; cbn [call_phase call_request call_channel]; [|intros o' [= <-]; by split|done].
      destruct (call_phase k); try done.
      * by destruct H1 as (_ & _ & []).
      * by destruct H1 as (_ & [] & _).
      * destruct H1 as (i & Ei & _). exists i. by eauto.
      * destruct H1 as (i & Ei & _). exists i. by eauto.
    + split_and!; [|intros o' Ho'; destruct (H2 o' Ho') as [H2a ?]; by rewrite fly_cons in H2a|done].
      destruct (call_phase km'); rewrite ?fly_cons in H1 by done; try done;
        destruct H1 as (j & Ej & H1); exists j; by rewrite fly_cons in H1.
  - intros i m Hm. destruct (Wt i m Hm) as (km & Hkm & Ei & Hr & Hcm & Hfm). rewrite fmap_cons, not_elem_of_cons in Hfm.
    exists km. destruct Hfm as [Hne Hfm]. split_and!; try done. cbn. by rewrite list_lookup_alter_ne by (cbn in Hne; congruence).
  - intros m o' Hm. destruct (F m o') as (km & Hkm & Hcm & Hjm); [by right|]. exists km. split_and!; [|done|done].
    cbn. rewrite list_lookup_alter_ne; [done|]. intros <-. apply Hn. apply list_elem_of_fmap. by exists (n, o').
Qed.

(** The outcomes of the waiters of a table. *)
Lemma table_outcomes (w : gmap RequestId nat) (o : Outcome) :
  (forall i j n, w !! i = Some n -> w !! j = Some n -> i = j) ->
  let outs := omap delivery (map (fun '(_, n) => ADeliver n o) (map_to_list w) ++ [ACancelToken]) in
  NoDup outs.*1 /\ (forall n, n ∈ outs.*1 <-> exists i, w !! i = Some n) /\ Forall (fun x => snd x = o) outs.
Proof.
  intros Hw outs. assert (E : outs = map (fun '(_, n) => (n, o)) (map_to_list w)).
  { subst outs. rewrite omap_app, app_nil_r. induction (map_to_list w) as [|[i n] l IH]; [done|]. cbn. f_equal. exact IH. }
  rewrite E. clear outs E. assert (E : (map (fun '(_, n) => (n, o)) (map_to_list w)).*1 = map snd (map_to_list w)).
  { induction (map_to_list w) as [|[i n] l IH]; [done|]. cbn. f_equal. exact IH. }
  rewrite E. split_and!.
  - apply NoDup_fmap_2_strong; [|apply NoDup_map_to_list]. intros [i n] [j m] Hi Hj Enm. cbn in Enm. subst m.
    apply elem_of_map_to_list in Hi, Hj. f_equal. by apply (Hw _ _ n).
  - intros n. rewrite list_elem_of_fmap. split.
    + intros ([i m] & -> & Hm). exists i. by apply elem_of_map_to_list.
    + intros (i & Hi). exists (i, n). split; [done|]. by apply elem_of_map_to_list.
  - apply Forall_forall. intros x Hx. by apply list_elem_of_fmap in Hx as ([i m] & -> & _).
Qed.

(** Closing takes every waiter off the table. *)
Lemma close_accounted reason fly c :
  accounted fly c -> accounted (omap delivery (snd (close reason c)) ++ fly) (fst (close reason c)).
Proof.
  intros A. unfold close. destruct (close_reason c) as [r|] eqn:Hr; [done|]. pose proof A as [N D C Wt ND F CL]. cbn [fst snd].
  destruct (table_outcomes (waiters c) (Err (Disconnected reason))) as (Hnd & Hout & Herr).
  { intros i j n Hi Hj. symmetry. by apply (waiter_is_call _ _ _ _ A Hi). }
  set (outs := omap delivery (_ ++ [ACancelToken])) in *.
  assert (Hfly : forall n, n ∈ (outs ++ fly).*1 <-> (exists i, waiters c !! i = Some n) \/ n ∈ fly.*1)
    by (intros; rewrite fmap_app, elem_of_app, Hout; done).
  constructor; try done.
  - intros m km Hm. cbn [requests] in Hm. destruct (C m km Hm) as (H1 & H2 & H3).
    assert (Hw : forall i, waiters c !! i = Some m -> registered (call_phase km) /\ call_channel km = None).
    { intros i Hi. destruct (Wt i m Hi) as (k' & Hk' & _ & ? & ? & _). by assert (k' = km) as -> by congruence. }
    split_and!; [|intros o Ho; split; [|by apply H2]|done].
    + destruct (call_phase km) eqn:P; try done; rewrite ?Hfly.
      * destruct H1 as (? & ? & ?). split_and!; [done|done|]. intros [(i & Hi)|?]; [by destruct (Hw i Hi)|done].
      * destruct H1 as (? & ? & ?). split_and!; [done| |done]. intros [(i & Hi)|?]; [by destruct (Hw i Hi)|done].
      * destruct H1 as (i & Ei & [Hi|[Hi|Hi]]); exists i; (split; [done|]); rewrite Hfly; eauto.
      * destruct H1 as (i & Ei & [Hi|[Hi|Hi]]); exists i; (split; [done|]); rewrite Hfly; eauto.
    + rewrite Hfly. intros [(i & Hi)|Hf]; [destruct (Hw i Hi) as [_ Hn]; by rewrite Hn in Ho|by destruct (H2 o Ho)].
  - rewrite fmap_app. apply NoDup_app. split_and!; [|intros n Hn; apply Hout in Hn as (i & Hi)|done].
    + done.
    + destruct (Wt i n Hi) as (k & _ & _ & _ & _ & Hf). done.
  - intros n o Hn. apply elem_of_app in Hn as [Hn|Hn]; [|by apply F].
    assert (o = Err (Disconnected reason)) as -> by by apply (proj1 (Forall_forall _ _) Herr) in Hn.
    assert (Hm : n ∈ outs.*1) by (apply list_elem_of_fmap; by exists (n, Err (Disconnected reason))).
    apply Hout in Hm as (i & Hm). destruct (Wt i n Hm) as (k & Hk & _ & _ & Hc & _). by exists k.
Qed.

(** One section of a task keeps the account. *)
Lemma atom_accounted a c c' more Y :
  run_rpc_atom a c = (c', more) -> accounted (option_list (delivery a) ++ Y) c -> accounted (omap delivery more ++ Y) c'.
Proof.
  assert (Hrecv : forall ms, omap delivery (map AReceive ms) = []) by (induction ms; done).
  destruct a as [items invalid request|frames|m|i e|n o|reason| |v]; cbn [run_rpc_atom delivery option_list app]; intros E A.
  - destruct (token_cancelled c); [by injection E as <- <-|].
    assert (Hd : forall f x, omap delivery (drained f x request) = []) by (intros; unfold drained; by destruct request).
    destruct items as [|[m|e] items]; [injection E as <- <-; by rewrite Hd| |injection E as <- <-; by rewrite Hd].
    by destruct m as [| | |[|] ?]; injection E as <- <-.
  - destruct (token_cancelled c); [by injection E as <- <-|].
    destruct frames as [|[bs|e] frames]; injection E as <- <-; try done. by rewrite omap_app, Hrecv.
  - assert (Ah : accounted Y (hear m c)) by (apply (accounted_frame _ c); try done; cbn; intros x Hx; apply elem_of_app; by left).
    unfold receive in E. destruct m as [r|n|[[i|] res]|[i|] reason]; try (by injection E as <- <-; try (apply (accounted_frame _ (hear (MRequest r) c)))).
    + cbn [response_id response_result] in E. rewrite (surjective_pairing (take_waiter _ _ _)) in E. injection E as <- <-.
      apply take_waiter_accounted; [done|]. intros n k Hw Hk. destruct res as [v|e]; [|done].
      destruct (acc_waiters _ _ Ah _ _ Hw) as (k' & Hk' & Ei & _). assert (k' = k) as -> by congruence. exists i. split; [done|].
      cbn. apply elem_of_app. right. by left.
    + rewrite (surjective_pairing (take_waiter _ _ _)) in E. injection E as <- <-. by apply take_waiter_accounted.
  - rewrite (surjective_pairing (take_waiter _ _ _)) in E. injection E as <- <-. by apply take_waiter_accounted.
  - injection E as <- <-. by apply deliver_accounted.
  - rewrite (surjective_pairing (close _ _)) in E. injection E as <- <-. by apply close_accounted.
  - injection E as <- <-. by apply (accounted_frame _ c).
  - injection E as <- <-. destruct (close_reason c); by try apply (accounted_frame _ c).
Qed.

(** * Sections of a call *)

(** A call goes to another phase, and what the table says of it changes. *)
Lemma move_accounted fly c n k p w :
  accounted fly c -> requests c !! n = Some k -> call_ok fly (set_waiters w c) n (at_phase p k) ->
  (forall i m, w !! i = Some m ->
     m <> n /\ waiters c !! i = Some m \/ m = n /\ call_request k = Some i /\ registered p /\ call_channel k = None /\ n ∉ fly.*1) ->
  (forall i m, waiters c !! i = Some m -> m <> n -> w !! i = Some m) ->
  (is_Some (close_reason c) -> w = ∅) ->
  accounted fly (set_call n (at_phase p k) (set_waiters w c)).
Proof.
  intros [N D C Wt ND F CL] Hk Hok Hw Hw' Hcl. assert (Hlt := lookup_lt_Some _ _ _ Hk).
  assert (L : forall m km, <[n := at_phase p k]> (requests c) !! m = Some km ->
    exists k0, requests c !! m = Some k0 /\ (m = n /\ k0 = k /\ km = at_phase p k \/ m <> n /\ km = k0)).
  { intros m km. destruct (base.decide (m = n)) as [->|Hne].
    - rewrite list_lookup_insert_eq by done. intros [= <-]. exists k. by eauto.
    - rewrite list_lookup_insert_ne by done. exists km. by eauto. }
  constructor; try done; cbn [set_call set_requests set_waiters requests waiters following_id heard close_reason].
  - pose proof (numbered_insert _ _ _ (at_phase p k) Hk) as Hn.
    change (has_id (at_phase p k)) with (has_id k) in Hn. rewrite N. lia.
  - intros m1 m2 k1 k2 i H1 H2. apply L in H1 as (k1' & H1 & H1'). apply L in H2 as (k2' & H2 & H2').
    destruct H1' as [(-> & -> & ->)|(_ & ->)], H2' as [(-> & -> & ->)|(_ & ->)]; cbn [at_phase call_request]; by apply D.
  - intros m km Hm. apply L in Hm as (k0 & Hm & [(-> & -> & ->)|(Hne & ->)]); [exact Hok|].
    destruct (C m k0 Hm) as (H1 & H2 & H3). split_and!; [|done|done].
    destruct (call_phase k0); try done; destruct H1 as (i & Ei & [H1|H1]); exists i; (split; [done|]);
      [left; by apply Hw'|by right|left; by apply Hw'|by right].
  - intros i m Hi. destruct (Hw i m Hi) as [[Hne Hi']|(-> & Ei & Hr & Hc & Hf)].
    + rewrite list_lookup_insert_ne by done. by apply Wt.
    + exists (at_phase p k). by rewrite list_lookup_insert_eq.
  - intros m o Hm. destruct (F m o Hm) as (km & Hkm & Hc & Hj). destruct (base.decide (m = n)) as [->|Hne].
    + exists (at_phase p k). rewrite list_lookup_insert_eq by done. by assert (km = k) as -> by congruence.
    + exists km. by rewrite list_lookup_insert_ne.
Qed.

(** The table stays as it is. *)
Lemma stay_accounted fly c n k p :
  accounted fly c -> requests c !! n = Some k -> call_ok fly c n (at_phase p k) ->
  (forall i, waiters c !! i = Some n -> registered p) ->
  accounted fly (set_call n (at_phase p k) c).
Proof.
  intros A Hk Hok Hp. apply (accounted_frame _ (set_call n (at_phase p k) (set_waiters (waiters c) c))); try done.
  apply move_accounted; try done; [|by apply A].
  intros i m Hi. destruct (base.decide (m = n)) as [->|]; [right|by left].
  destruct (acc_waiters _ _ A _ _ Hi) as (k' & Hk' & ? & ? & ? & ?). assert (k' = k) as -> by congruence.
  split_and!; try done. by apply (Hp i).
Qed.

(** The call leaves the table. *)
Lemma leave_accounted fly c n k p i :
  accounted fly c -> requests c !! n = Some k -> call_request k = Some i -> call_ok fly (forget i c) n (at_phase p k) ->
  accounted fly (set_call n (at_phase p k) (forget i c)).
Proof.
  intros A Hk Hi Hok. apply move_accounted; try done.
  - intros j m. rewrite lookup_delete_Some. intros [Hne Hj]. left. split; [|done]. intros ->.
    destruct (acc_waiters _ _ A _ _ Hj) as (k' & Hk' & Ej & _). congruence.
  - intros j m Hj Hm. rewrite lookup_delete_ne; [done|]. intros <-. destruct (acc_waiters _ _ A _ _ Hj) as (k' & Hk' & Ej & _).
    apply Hm. by apply (acc_distinct _ _ A _ _ _ _ i Hk' Hk).
  - intros Hcl. by rewrite (acc_closed _ _ A Hcl), delete_empty.
Qed.

(** A call gets its id. *)
Lemma number_accounted fly c n k :
  (Z.of_nat (length (requests c)) < 9223372036854775806)%Z ->
  accounted fly c -> requests c !! n = Some k -> call_phase k = Called ->
  accounted fly (set_call n (mkCall (call_method k) (Some (Number (following_id c))) Numbered (call_channel k))
    (mkConnection (wrapping_succ (following_id c)) (waiters c) (close_reason c) (token_cancelled c) (requests c) (tasks c) (heard c) (told c))).
Proof.
  intros Hsmall A Hk P. pose proof A as [N D C Wt ND F CL]. assert (Hlt := lookup_lt_Some _ _ _ Hk).
  destruct (C n k Hk) as (H1 & _). rewrite P in H1. destruct H1 as (Hr & Hc & Hf).
  assert (Hsucc : wrapping_succ (following_id c) = (following_id c + 1)%Z).
  { unfold wrapping_succ. pose proof (numbered_bound (requests c)). destruct (Z.eqb_spec (following_id c) 9223372036854775807); lia. }
  set (k' := mkCall _ _ _ _).
  assert (L : forall m km, <[n := k']> (requests c) !! m = Some km -> (m = n /\ km = k') \/ (m <> n /\ requests c !! m = Some km)).
  { intros m km. destruct (base.decide (m = n)) as [->|Hne].
    - rewrite list_lookup_insert_eq by done. intros [= <-]. by left.
    - rewrite list_lookup_insert_ne by done. by right. }
  assert (Old : forall m km i, requests c !! m = Some km -> call_request km = Some i -> i <> Number (following_id c)).
  { intros m km i Hm Ei ->. destruct (C m km Hm) as (_ & _ & H3). destruct (H3 _ Ei) as (z & [= <-] & Hz). lia. }
  constructor; try done; cbn [set_call set_requests requests waiters following_id heard close_reason].
  - rewrite Hsucc. pose proof (numbered_insert _ _ _ k' Hk) as Hn. unfold has_id in Hn. rewrite Hr in Hn. subst k'. cbn [call_request] in Hn. lia.
  - intros m1 m2 k1 k2 i H1 H2 E1 E2. apply L in H1 as [[-> ->]|[Hn1 H1]], H2 as [[-> ->]|[Hn2 H2]]; [done| | |by apply (D _ _ _ _ i H1 H2)].
    + injection E1 as <-. by destruct (Old _ _ _ H2 E2).
    + injection E2 as <-. by destruct (Old _ _ _ H1 E1).
  - intros m km Hm. rewrite Hsucc. apply L in Hm as [[-> ->]|[Hne Hm]].
    + split_and!; [by split_and!|by intros o; cbn; rewrite Hc|]. intros i [= <-]. exists (following_id c). split; [done|]. cbn [set_call set_requests following_id]. lia.
    + destruct (C m km Hm) as (H1 & H2 & H3). split_and!; [done|done|]. intros i Hi. destruct (H3 i Hi) as (z & -> & Hz). exists z. split; [done|]. cbn [set_call set_requests following_id]. lia.
  - intros i m Hi. destruct (Wt i m Hi) as (km & Hkm & Ei & Hreg & Hcm & Hfm). exists km. split_and!; try done.
    rewrite list_lookup_insert_ne; [done|]. intros <-. assert (km = k) as -> by congruence. by rewrite P in Hreg.
  - intros m o Hm. destruct (F m o Hm) as (km & Hkm & Hcm & Hj). exists km. split_and!; [|done|done].
    rewrite list_lookup_insert_ne; [done|]. intros <-. apply Hf, list_elem_of_fmap. by exists (n, o).
Qed.

(** A call enters the table. *)
Lemma register_accounted fly c n k i :
  accounted fly c -> requests c !! n = Some k -> call_phase k = Numbered -> call_request k = Some i -> close_reason c = None ->
  accounted fly (set_call n (at_phase Sending k) (set_waiters (<[i := n]> (waiters c)) c)).
Proof.
  intros A Hk P Hi Hcl. destruct (acc_calls _ _ A n k Hk) as (H1 & H2 & H3). rewrite P in H1. destruct H1 as (Hc & Hf & _).
  assert (Hother : forall j m, waiters c !! j = Some m -> j <> i /\ m <> n).
  { intros j m Hj. destruct (acc_waiters _ _ A _ _ Hj) as (km & Hm & Ei & Hr & _).
    assert (Hne : m <> n) by (intros ->; assert (km = k) as -> by congruence; by rewrite P in Hr).
    split; [|done]. intros ->. by apply Hne, (acc_distinct _ _ A _ _ _ _ i Hm Hk). }
  apply move_accounted; try done.
  - split_and!; [|done|done]. exists i. split; [done|]. left. cbn. by rewrite lookup_insert_eq.
  - intros j m. rewrite lookup_insert_Some. intros [[<- <-]|[Hne Hj]]; [by right|]. left. by destruct (Hother j m Hj).
  - intros j m Hj _. rewrite lookup_insert_ne; [done|]. by destruct (Hother j m Hj).
  - by rewrite Hcl; intros [].
Qed.

Lemma call_ok_phase fly c w n k p :
  call_ok fly c n k ->
  match p with
  | Returned o => justified c k o
  | Sending | Awaiting => exists i, call_request k = Some i /\ (w !! i = Some n \/ n ∈ fly.*1 \/ is_Some (call_channel k))
  | Called | Numbered => False
  | _ => is_Some (call_request k)
  end ->
  call_ok fly (set_waiters w c) n (at_phase p k).
Proof. intros (_ & H2 & H3) Hp. split_and!; [|done|done]. by destruct p. Qed.

Lemma conclude_phase c k o :
  is_Some (call_request k) -> justified c k o ->
  match conclude o with
  | Returned o => justified c k o
  | Sending | Awaiting | Called | Numbered => False
  | _ => is_Some (call_request k)
  end.
Proof. intros Hi Ho. by destruct o as [v|[]]. Qed.

(** A section of a call that waits or is ending keeps the account. *)
Lemma registered_accounted style io n k i c c' fly :
  run_registered style io n k i c = Some c' -> accounted fly c -> requests c !! n = Some k -> call_request k = Some i ->
  accounted fly c' /\ in_flight (tasks c') = in_flight (tasks c).
Proof.
  intros E A Hk Hi. assert (Hok := acc_calls _ _ A n k Hk). assert (Hsome : is_Some (call_request k)) by by exists i.
  assert (Hspawn : forall atoms c0, omap delivery atoms = [] -> in_flight (tasks (spawn atoms c0)) = in_flight (tasks c0)).
  { intros atoms c0 Ha. cbn [spawn set_tasks tasks]. rewrite rpc_in_flight_app. unfold in_flight at 2. cbn [concat].
    by rewrite app_nil_r, Ha, app_nil_r. }
  assert (Hstay : forall p, (match p with Gone | SendFailed _ | Abandoning _ => True | _ => False end) ->
            accounted fly (set_call n (at_phase p k) c)).
  { intros p Hp. apply stay_accounted; [done|done| |by destruct p].
    apply (call_ok_phase fly c (waiters c)); [by apply acc_calls|by destruct p]. }
  assert (Hleave : forall o, justified c k o -> accounted fly (set_call n (at_phase (conclude o) k) (forget i c))).
  { intros o Ho. apply leave_accounted; try done. apply call_ok_phase; [done|].
    pose proof (conclude_phase c k o Hsome Ho) as Hp. by destruct (conclude o). }
  assert (Hwaits : waiting (call_phase k) -> forall c1,
    match call_channel k, deadline io with
    | Some o, _ => Some (set_call n (at_phase (conclude o) k) c)
    | None, Some ms => Some (set_call n (at_phase (conclude (Err (TimedOut (call_method k) ms))) k) c)
    | None, None => None
    end = Some c1 -> accounted fly c1 /\ in_flight (tasks c1) = in_flight (tasks c)).
  { intros Hw c1. destruct (call_channel k) as [o|] eqn:Ech.
    - intros [= <-]. split; [|done]. destruct Hok as (_ & H2 & _). destruct (H2 o Ech) as [_ Hj].
      pose proof (conclude_phase c k o Hsome Hj) as Hp. apply stay_accounted; [done|done| |].
      + apply (call_ok_phase fly c (waiters c)); [by apply acc_calls|]. by destruct (conclude o).
      + intros j Hj'. destruct (acc_waiters _ _ A _ _ Hj') as (k' & Hk' & _ & _ & Hc & _). congruence.
    - destruct (deadline io); [|done]. intros [= <-]. split; [by apply Hstay|done]. }
  unfold run_registered in E. destruct (call_phase k) eqn:P; try done.
  - destruct (caller_gone io || caller_cancelled io).
    { injection E as <-. split; [|done]. destruct (caller_gone io); by apply Hstay. }
    assert (Hto : accounted fly (set_call n (at_phase Awaiting k) c)).
    { apply stay_accounted; [done|done| |done]. apply (call_ok_phase fly c (waiters c)); [done|].
      destruct Hok as (H1 & _). by rewrite P in H1. }
    destruct (sent io) as [[[inbound|]|e]|].
    + injection E as <-. split; [by apply accounted_tasks|by rewrite Hspawn].
    + by injection E as <-.
    + injection E as <-. split; [by apply Hstay|done].
    + by apply Hwaits.
  - destruct (caller_gone io || caller_cancelled io); [|by apply Hwaits].
    injection E as <-. split; [|done]. destruct (caller_gone io); by apply Hstay.
  - injection E as <-. split; [by apply (Hleave (Err e))|done].
  - assert (Hend : accounted fly (set_call n (at_phase (Returned (Err e)) k) (forget i c))).
    { apply leave_accounted; try done. by apply call_ok_phase. }
    injection E as <-. destruct (cancel_notice _ _ _ _) as [notice|]; [|by split].
    split; [by apply accounted_tasks|by rewrite Hspawn].
Qed.

(** A new call. *)
Lemma call_accounted fly c method_ :
  accounted fly c -> accounted fly (set_requests (requests c ++ [mkCall method_ None Called None]) c).
Proof.
  intros [N D C Wt ND F CL].
  assert (L : forall m km, (requests c ++ [mkCall method_ None Called None]) !! m = Some km ->
    requests c !! m = Some km \/ km = mkCall method_ None Called None /\ requests c !! m = None).
  { intros m km [Hm|[Hm Hx]]%lookup_app_Some; [by left|right]. apply list_lookup_singleton_Some in Hx as [_ <-].
    by rewrite lookup_ge_None. }
  constructor; try done; cbn [set_requests requests waiters following_id heard close_reason].
  - rewrite N. unfold numbered_calls. rewrite map_app, list_sum_app. cbn. lia.
  - intros m1 m2 k1 k2 i H1 H2. apply L in H1 as [H1|[-> _]], H2 as [H2|[-> _]]; try done. by apply D.
  - intros m km Hm. apply L in Hm as [Hm|[-> Hm]]; [by apply C|]. split_and!; try done. split_and!; [done|done|].
    intros ((m' & o) & -> & Hx)%list_elem_of_fmap. destruct (F _ _ Hx) as (k' & Hk' & _). cbn in Hm. congruence.
  - intros i m Hi. destruct (Wt i m Hi) as (km & Hkm & ?). exists km. split; [by apply lookup_app_l_Some|done].
  - intros m o Hm. destruct (F m o Hm) as (km & Hkm & ?). exists km. split; [by apply lookup_app_l_Some|done].
Qed.

Lemma atom_tasks a c c' more : run_rpc_atom a c = (c', more) -> tasks c' = tasks c /\ length (requests c') = length (requests c).
Proof.
  assert (T : forall i o c0, tasks (fst (take_waiter i o c0)) = tasks c0 /\ length (requests (fst (take_waiter i o c0))) = length (requests c0)).
  { intros. unfold take_waiter. by destruct (waiters c0 !! i). }
  destruct a as [items invalid request|frames|m|i e|n o|reason| |v]; cbn [run_rpc_atom]; intros E.
  - destruct (token_cancelled c); [by injection E as <- <-|]. destruct items as [|[[| | |[]]|] ?]; by injection E as <- <-.
  - destruct (token_cancelled c); [by injection E as <- <-|]. destruct frames as [|[] ?]; by injection E as <- <-.
  - unfold receive in E. destruct m as [r|n|[[i|] res]|[i|] reason]; try by injection E as <- <-.
    + cbn [response_id response_result] in E. rewrite (surjective_pairing (take_waiter _ _ _)) in E. injection E as <- <-. apply (T _ _ (hear _ c)).
    + rewrite (surjective_pairing (take_waiter _ _ _)) in E. injection E as <- <-. apply (T _ _ (hear _ c)).
  - rewrite (surjective_pairing (take_waiter _ _ _)) in E. injection E as <- <-. apply T.
  - injection E as <- <-. cbn [set_requests tasks requests]. by rewrite length_alter.
  - unfold close in E. destruct (close_reason c); by injection E as <- <-.
  - by injection E as <- <-.
  - by destruct (close_reason c); injection E as <- <-.
Qed.

(** Every step keeps the account, as long as identifiers do not run out. *)
Lemma step_accounted style c c' :
  rpc_step style c c' -> (Z.of_nat (length (requests c)) < 9223372036854775806)%Z ->
  accounted (in_flight (tasks c)) c -> accounted (in_flight (tasks c')) c'.
Proof.
  intros Hs Hsmall A. destruct Hs as [method_ c|atoms c Ha|io n k c c' Hk E|t a rest c c' more Ht E].
  - by apply call_accounted.
  - apply accounted_tasks. cbn [spawn set_tasks tasks]. rewrite rpc_in_flight_app.
    replace (in_flight [atoms]) with (@nil (nat * Outcome)); [by rewrite app_nil_r|].
    destruct atoms as [|a [|b l]]; [done|by destruct a|]. by destruct a as [? [] []| | | | | | |].
  - unfold run_call_section in E. destruct (call_phase k) eqn:P, (call_request k) as [i|] eqn:Hi; try done;
      try (destruct (registered_accounted _ _ _ _ _ _ _ _ E A Hk Hi) as [A' ->]; exact A').
    + destruct (acc_calls _ _ A n k Hk) as (H1 & _). rewrite P in H1. destruct H1 as (H1 & _). congruence.
    + destruct (caller_cancelled io); injection E as <-; [|by apply number_accounted].
      destruct (acc_calls _ _ A n k Hk) as (H1 & H2 & H3). rewrite P in H1. destruct H1 as (_ & Hc & Hf).
      apply stay_accounted; [done|done|by split_and!|]. intros i Hw.
      destruct (acc_waiters _ _ A _ _ Hw) as (k' & Hk' & _ & Hr & _). assert (k' = k) as -> by congruence. by rewrite P in Hr.
    + destruct (close_reason c) as [reason|] eqn:Hcl; injection E as <-; [|by apply register_accounted].
      destruct (acc_calls _ _ A n k Hk) as (H1 & H2 & H3). apply stay_accounted; [done|done|by split_and!|].
      intros j Hw. by rewrite (acc_closed _ _ A) in Hw by by rewrite Hcl.
  - destruct (in_flight_shift (tasks c) t a rest more Ht) as (Y & P1 & P2).
    assert (Et : tasks c' = tasks c) by (by apply (atom_tasks a c c' more)). apply accounted_tasks. cbn [set_tasks tasks]. rewrite Et.
    eapply accounted_perm; [symmetry; exact P2|]. eapply atom_accounted; [exact E|]. by eapply accounted_perm; [exact P1|].
Qed.

Lemma call_section_length style io n k c c' :
  run_call_section style io n k c = Some c' -> length (requests c') = length (requests c).
Proof.
  unfold run_call_section, run_registered. intros E.
  repeat case_match; simplify_eq; cbn [set_call set_requests requests spawn set_tasks]; by rewrite length_insert.
Qed.

Lemma step_grows style c c' : rpc_step style c c' -> (length (requests c) <= length (requests c'))%nat.
Proof.
  intros [method_ c0|atoms c0 _|io n k c0 c1 Hk E|t a rest c0 c1 more Ht E].
  - cbn. rewrite length_app. lia.
  - done.
  - apply call_section_length in E. lia.
  - apply atom_tasks in E as [_ E]. cbn. lia.
Qed.

Lemma connected_accounted style c :
  connected style c -> (Z.of_nat (length (requests c)) < 9223372036854775806)%Z -> accounted (in_flight (tasks c)) c.
Proof.
  induction 1 as [|c c' Hc IH Hs]; intros Hsmall.
  - constructor; cbn [new_connection requests waiters following_id]; try done; try constructor.
    intros n o Hx. by apply not_elem_of_nil in Hx.
  - pose proof (step_grows style c c' Hs). apply (step_accounted style c); [done|lia|apply IH; lia].
Qed.

(** Where the outcome of a call is: with the table of waiters, with a section
    about to deliver it, or in its channel. *)
Definition in_table (c : Connection) (n : nat) : Prop := exists i, waiters c !! i = Some n.
Definition in_delivery (c : Connection) (n : nat) : Prop := exists o, (n, o) ∈ in_flight (tasks c).
Definition in_channel (c : Connection) (n : nat) : Prop := exists k o, requests c !! n = Some k /\ call_channel k = Some o.

(** C29: requests are accounted for.  However the requests of a connection and
    the tasks that serve it interleave: the outcome of a call that waits is in
    exactly one place, so no call waits for nothing and none is answered
    twice; a call that has returned is in the table no more; and once the
    connection is closed, the table is empty, so when its tasks have run,
    every call that waits has its outcome. *)
Theorem requests_accounted style c :
  connected style c -> (Z.of_nat (length (requests c)) < 9223372036854775806)%Z ->
  (forall n k, requests c !! n = Some k -> waiting (call_phase k) -> in_table c n \/ in_delivery c n \/ in_channel c n)
  /\ (forall n, ~ (in_table c n /\ in_delivery c n) /\ ~ (in_table c n /\ in_channel c n) /\ ~ (in_delivery c n /\ in_channel c n))
  /\ NoDup (in_flight (tasks c)).*1
  /\ (forall n k o, requests c !! n = Some k -> call_phase k = Returned o -> ~ in_table c n)
  /\ (is_Some (close_reason c) -> waiters c = ∅
       /\ (Forall (fun atoms => atoms = []) (tasks c) ->
            forall n k, requests c !! n = Some k -> waiting (call_phase k) -> is_Some (call_channel k))).
Proof.
  intros Hc Hsmall. pose proof (connected_accounted style c Hc Hsmall) as A.
  assert (Hfly : forall n, in_delivery c n <-> n ∈ (in_flight (tasks c)).*1).
  { intros n. rewrite list_elem_of_fmap. split; [intros (o & Ho); by exists (n, o)|intros ([m o] & -> & Ho); by exists o]. }
  assert (Hwait : forall n k, requests c !! n = Some k -> waiting (call_phase k) ->
    in_table c n \/ n ∈ (in_flight (tasks c)).*1 \/ is_Some (call_channel k)).
  { intros n k Hk Hw. destruct (acc_calls _ _ A n k Hk) as (H1 & _).
    destruct (call_phase k); try done; (destruct H1 as (i & _ & [H1|H1]); [left; by exists i|by right]). }
  split_and!.
  - intros n k Hk Hw. destruct (Hwait n k Hk Hw) as [?|[?|[o Ho]]]; [by left|right; left; by apply Hfly|right; right; by exists k, o].
  - intros n. rewrite Hfly. split_and!; intros [H1 H2].
    + destruct H1 as (i & Hi). by destruct (acc_waiters _ _ A _ _ Hi) as (k & _ & _ & _ & _ & ?).
    + destruct H1 as (i & Hi), H2 as (k' & o & Hk' & Ho). destruct (acc_waiters _ _ A _ _ Hi) as (k & Hk & _ & _ & Hn & _). congruence.
    + destruct H2 as (k & o & Hk & Ho). destruct (acc_calls _ _ A n k Hk) as (_ & H2 & _). by destruct (H2 o Ho).
  - apply A.
  - intros n k o Hk P (i & Hi). destruct (acc_waiters _ _ A _ _ Hi) as (k' & Hk' & _ & Hr & _).
    assert (k' = k) as -> by congruence. by rewrite P in Hr.
  - intros Hcl. split; [by apply A|]. intros Ht n k Hk Hw. destruct (Hwait n k Hk Hw) as [(i & Hi)|[Hf|?]]; [| |done].
    + by rewrite (acc_closed _ _ A Hcl) in Hi.
    + exfalso. replace (in_flight (tasks c)) with (@nil (nat * Outcome)) in Hf; [by apply not_elem_of_nil in Hf|].
      unfold in_flight. clear -Ht. induction Ht as [|x l -> Hl IH]; [done|exact IH].
Qed.

(** A result is the answer to its request.  Whatever the server sends and
    however it is interleaved, what a call returns as its result the server
    sent as the response to the id of that call, and no two calls have the
    same id. *)
Theorem results_are_answers style c :
  connected style c -> (Z.of_nat (length (requests c)) < 9223372036854775806)%Z ->
  (forall n k v, requests c !! n = Some k -> call_phase k = Returned (Ok v) ->
     exists i, call_request k = Some i /\ MResponse (mkRpcResponse (Some i) (Ok v)) ∈ heard c)
  /\ (forall n m k k' i, requests c !! n = Some k -> requests c !! m = Some k' ->
       call_request k = Some i -> call_request k' = Some i -> n = m).
Proof.
  intros Hc Hsmall. pose proof (connected_accounted style c Hc Hsmall) as A. split; [|apply A].
  intros n k v Hk P. destruct (acc_calls _ _ A n k Hk) as (H1 & _). by rewrite P in H1.
Qed.

(** * Messages *)

Definition entry (k : text) (kvs : list (text * json)) : option json :=
  match List.find (fun kv => teqb (fst kv) k) kvs with Some kv => Some (snd kv) | None => None end.

Lemma entry_cons k k' v kvs : entry k ((k', v) :: kvs) = if teqb k' k then Some v else entry k kvs.
Proof. unfold entry. cbn. by destruct (teqb k' k). Qed.

Definition fits_i64 (z : Z) : Prop := (-9223372036854775808 <= z <= 9223372036854775807)%Z.

(** What the documentation of [serde_json] says of values and of derived
    decoders. *)
Record JsonLaws : Prop := mkJsonLaws {
  object_is_object : forall kvs, is_object (json_object kvs) = true;
  object_not_null : forall kvs, is_null (json_object kvs) = false;
  object_get : forall kvs k, NoDup (map fst kvs) -> json_get (json_object kvs) k = entry k kvs;
  string_as_str : forall t, as_str (json_string t) = Some t;
  string_not_int : forall t, as_i64 (json_string t) = None;
  string_not_null : forall t, is_null (json_string t) = false;
  int_as_i64 : forall z, fits_i64 z -> as_i64 (json_int z) = Some z;
  int_not_null : forall z, is_null (json_int z) = false;
  null_is_null : is_null json_null = true;
  error_decodes : forall e, fits_i64 (error_code e) -> (forall v, error_data e = Some v -> is_null v = false) ->
    decode_error (error_value e) = Ok e
}.

(** A message as it is sent, and what a peer can say in one. *)
Definition message_value (m : RpcMessage) : option json :=
  match m with
  | MRequest r => Some (request_value r)
  | MNotification n => Some (notification_value n)
  | MResponse r => Some (response_value r)
  | MInvalid _ _ => None
  end.

Definition id_fits (i : RequestId) : Prop := match i with Number z => fits_i64 z | StringId _ => True end.

Definition message_fits (m : RpcMessage) : Prop :=
  match m with
  | MRequest r => id_fits (rpc_id r)
  | MNotification _ => True
  | MResponse r =>
      match response_id r with Some i => id_fits i | None => True end
      /\ match response_result r with
         | Ok _ => True
         | Err e => fits_i64 (error_code e) /\ forall v, error_data e = Some v -> is_null v = false
         end
  | MInvalid _ _ => False
  end.

Lemma id_reads : JsonLaws -> forall i, id_fits i -> is_null (id_value i) = false /\ parse_id (id_value i) = Some i.
Proof.
  intros L [z|s] Hi; unfold parse_id; cbn.
  - by rewrite (int_not_null L), (int_as_i64 L).
  - by rewrite (string_not_null L), (string_not_int L), (string_as_str L).
Qed.

(** Reads the fields of an object that is written out. *)
Ltac read_fields L :=
  rewrite !(object_get L) by (by apply (bool_decide_unpack _));
  cbn [envelope app optional_entry];
  repeat (rewrite entry_cons;
          match goal with |- context [teqb (str ?a) (str ?b)] =>
            let r := eval vm_compute in (teqb (str a) (str b)) in change (teqb (str a) (str b)) with r end;
          cbn match);
  change (entry _ []) with (@None json); cbn match.

(** A message is read as it was written: requests, notifications and
    responses come back with their id, method, parameters, result or error. *)
Theorem messages_read_back (m : RpcMessage) (v : json) :
  JsonLaws -> message_fits m -> message_value m = Some v -> from_value v = m.
Proof.
  intros L Hm. destruct m as [[i method_ params]|[method_ params]|[i res]|]; intros E; try done; injection E as <-;
    unfold from_value, request_value, notification_value, response_value; rewrite (object_is_object L); cbn [negb].
  - cbn in Hm. destruct (id_reads L i Hm) as [Hn Hp]. cbn [rpc_id rpc_method rpc_params].
    destruct params as [p|]; read_fields L; by rewrite Hn, Hp, (string_as_str L).
  - destruct params as [p|]; cbn [notice_method notice_params]; read_fields L; by rewrite (string_as_str L).
  - destruct Hm as [Hi Hr]. unfold response_of. cbn [response_id response_result] in *.
    destruct res as [r|e], i as [i|]; read_fields L;
      (try destruct (id_reads L i Hi) as [Hn Hp]); rewrite ?Hn, ?Hp, ?(null_is_null L); try done;
      rewrite (object_not_null L _ : is_null (error_value e) = false), (error_decodes L e) by apply Hr; done.
Qed.

End WithJson.

(** * Concrete runs *)

(** JSON values as trees. *)
Inductive Tree := TNull | TInt (z : Z) | TString (t : text) | TArray (l : list Tree) | TObject (kvs : list (text * Tree)).

#[local] Instance tree_json : Json := {|
  json := Tree;
  is_object v := match v with TObject _ => true | _ => false end;
  json_get v k := match v with TObject kvs => option_map snd (List.find (fun kv => teqb (fst kv) k) kvs) | _ => None end;
  as_array v := match v with TArray l => Some l | _ => None end;
  as_str v := match v with TString t => Some t | _ => None end;
  is_null v := match v with TNull => true | _ => false end;
  to_text v := []
|}.

#[local] Instance tree_wire : @JsonWire tree_json := {|
  as_i64 (v : @json tree_json) := match v with TInt z => Some z | _ => None end;
  json_null := TNull;
  json_string := TString;
  json_int := TInt;
  json_array := TArray;
  json_object := TObject;
  json_bytes _ := Err [];
  parse_bytes _ := Err [];
  decode_error (v : @json tree_json) :=
    match v with
    | TObject ((_, TInt code) :: (_, TString message_) :: rest) => Ok (mkRpcErrorObject code message_ (option_map snd (head rest)))
    | _ => Err (str "no error object")
    end
|}.

Lemma tree_laws : JsonLaws.
Proof.
  constructor; try done. by intros [code message_ [d|]] _ _.
Qed.

Definition ping : RpcRequest := mkRpcRequest (Number 3) (str "ping") (Some (TNull : json)).

Lemma messages_read_back_witness : from_value (request_value ping) = MRequest ping.
Proof. apply messages_read_back; [apply tree_laws|split; lia|reflexivity]. Defined.

(** A run by what moves. *)
Inductive RpcMove := MoveCall (method_ : text) | MoveStart (atoms : list RpcAtom) | MoveSection (io : CallIo) (n : nat) | MoveTask (t : nat).

Definition rpc_move (m : RpcMove) (c : Connection) : option Connection :=
  match m with
  | MoveCall method_ => Some (set_requests (requests c ++ [mkCall method_ None Called None]) c)
  | MoveStart [AFrames frames] => Some (spawn [AFrames frames] c)
  | MoveStart [AClose reason] => Some (spawn [AClose reason] c)
  | MoveStart [ARead items None None] => Some (spawn [ARead items None None] c)
  | MoveStart _ => None
  | MoveSection io n => match requests c !! n with Some k => run_call_section Silent io n k c | None => None end
  | MoveTask t =>
      match tasks c !! t with
      | Some (a :: rest) =>
          let r := run_rpc_atom a c in Some (set_tasks (<[t := snd r ++ rest]> (tasks (fst r))) (fst r))
      | _ => None
      end
  end.

Definition rpc_play (ms : list RpcMove) : option Connection := foldl (fun c m => c ≫= rpc_move m) (Some new_connection) ms.

Lemma rpc_play_connected ms c : rpc_play ms = Some c -> connected Silent c.
Proof.
  unfold rpc_play. revert c; induction ms as [|m ms IH] using rev_ind; intros c; [intros [= <-]; constructor|].
  rewrite foldl_app. cbn. destruct (foldl _ _ ms) as [c0|]; [|done]. cbn. intros E.
  refine (connected_step _ c0 c (IH c0 eq_refl) _). destruct m as [method_|atoms|io n|t]; cbn in E.
  - injection E as <-. constructor.
  - assert (starts atoms /\ c = spawn atoms c0) as [Ha ->]; [|by constructor].
    destruct atoms as [|[items [] []|frames| | | |reason| |] []]; try done; by injection E as <-.
  - destruct (requests c0 !! n) as [k|] eqn:Hk; [|done]. by apply (rpc_call_section _ io n k).
  - destruct (tasks c0 !! t) as [[|a rest]|] eqn:Ht; try done. injection E as <-.
    apply (rpc_task_section _ t a rest); [done|]. apply surjective_pairing.
Qed.

Definition sent_io : CallIo := mkCallIo false (Some (Ok None)) None false.
Definition wait_io : CallIo := mkCallIo false None None false.

(** Two requests; the second one is answered first, then the server leaves. *)
Definition answered_run : list RpcMove :=
  [MoveCall (str "a"); MoveCall (str "b"); MoveSection sent_io 0; MoveSection sent_io 1; MoveSection sent_io 0; MoveSection sent_io 1;
   MoveSection sent_io 0; MoveSection sent_io 1;
   MoveStart [ARead [Ok (MResponse (mkRpcResponse (Some (Number 2)) (Ok (TInt 7 : json))))] None None];
   MoveTask 0; MoveTask 0; MoveTask 0; MoveSection wait_io 1; MoveStart [AClose (str "bye")]; MoveTask 1; MoveTask 1; MoveTask 1; MoveTask 0].

Lemma results_are_answers_witness :
  exists c k, rpc_play answered_run = Some c /\ requests c !! 1%nat = Some k /\ call_phase k = Returned (Ok (TInt 7 : json))
    /\ exists i, call_request k = Some i /\ MResponse (mkRpcResponse (Some i) (Ok (TInt 7 : json))) ∈ heard c.
Proof.
  destruct (rpc_play answered_run) as [c|] eqn:E; [|by vm_compute in E].
  assert (Hk : exists k, requests c !! 1%nat = Some k /\ call_phase k = Returned (Ok (TInt 7 : json))).
  { vm_compute in E. injection E as <-. by eexists. }
  destruct Hk as (k & Hk & P). exists c, k. split_and!; [done|done|done|].
  refine (proj1 (results_are_answers Silent c (rpc_play_connected _ _ E) _) 1%nat k (TInt 7) Hk P).
  vm_compute in E. by injection E as <-.
Defined.

Lemma requests_accounted_witness :
  exists c, rpc_play answered_run = Some c /\ is_Some (close_reason c)
    /\ forall n k, requests c !! n = Some k -> waiting (call_phase k) -> is_Some (call_channel k).
Proof.
  destruct (rpc_play answered_run) as [c|] eqn:E; [|by vm_compute in E].
  assert (Hcl : is_Some (close_reason c)) by (vm_compute in E; injection E as <-; by eexists).
  exists c. split_and!; [done|done|].
  refine (proj2 (proj2 (proj2 (proj2 (proj2 (requests_accounted Silent c (rpc_play_connected _ _ E) _)))) Hcl) _).
  - vm_compute in E. by injection E as <-.
  - vm_compute in E. injection E as <-. by repeat constructor.
Defined.
