(* ===== verification/Config.v ===== *)
(** Layered settings ([z-engine-config/src], files [merge.rs], [document.rs],
    [loader.rs], [writer.rs] and [migrate/*.rs]): raw TOML layers merged by
    path, read with a schema after every layer, edited one file at a time, and
    converted from the older format. *)

From Stdlib Require Import String ZArith.
From stdpp Require Import list.
From S2P Require Export Rule Float.

Open Scope N_scope.

(** * TOML values *)

(** Floats, booleans and dates of the crate [toml], with their [PartialEq]. *)
Class TomlScalars := { scalar : Type; scalar_eqb : scalar -> scalar -> bool }.

Section WithToml.
Context {T : TomlScalars}.

(** [toml::Value]; a table lists its entries by key, in order. *)
Inductive Value :=
| VString (t : text)
| VInteger (z : Z)
| VOther (s : scalar)
| VArray (items : list Value)
| VTable (entries : list (text * Value)).

Abbreviation Table := (list (text * Value)).

(** [Value]'s [PartialEq] *)
Fixpoint value_eqb (a b : Value) {struct a} : bool :=
  match a, b with
  | VString x, VString y => teqb x y
  | VInteger x, VInteger y => Z.eqb x y
  | VOther x, VOther y => scalar_eqb x y
  | VArray xs, VArray ys =>
      (fix arrays (xs ys : list Value) : bool :=
         match xs, ys with
         | [], [] => true
         | x :: xs, y :: ys => value_eqb x y && arrays xs ys
         | _, _ => false
         end) xs ys
  | VTable xs, VTable ys =>
      (fix tables (xs ys : list (text * Value)) : bool :=
         match xs, ys with
         | [], [] => true
         | (k, x) :: xs, (j, y) :: ys => teqb k j && value_eqb x y && tables xs ys
         | _, _ => false
         end) xs ys
  | _, _ => false
  end.

(** The operations of the ordered map. *)
Fixpoint get (key : text) (t : Table) : option Value :=
  match t with
  | [] => None
  | (k, v) :: t => if teqb k key then Some v else get key t
  end.

Fixpoint insert_entry (key : text) (v : Value) (t : Table) : Table :=
  match t with
  | [] => [(key, v)]
  | (k, w) :: t' =>
      if teqb k key then (key, v) :: t'
      else if text_lt key k then (key, v) :: (k, w) :: t'
      else (k, w) :: insert_entry key v t'
  end.

Definition remove_entry (key : text) (t : Table) : Table := List.filter (fun kv => negb (teqb (fst kv) key)) t.

Definition value_str (v : Value) : option text := match v with VString t => Some t | _ => None end.

(** [Value::get] with a key *)
Definition value_get (key : text) (v : Value) : option Value := match v with VTable t => get key t | _ => None end.

(** * [merge.rs] *)

Definition UNION_ARRAYS : list (list text) :=
  [[str "permissions"; str "allow"]; [str "permissions"; str "ask"]; [str "permissions"; str "deny"];
   [str "permissions"; str "additional_directories"]; [str "shell"; str "env_passthrough"];
   [str "shell"; str "sandbox"; str "extra_writable"]].

Inductive MergeRule := Deep | Union | Concat | ById | Replace.

Fixpoint path_is (a b : list text) : bool :=
  match a, b with
  | [], [] => true
  | x :: a, y :: b => teqb x y && path_is a b
  | _, _ => false
  end.

Definition rule_for (p : list text) : MergeRule :=
  if existsb (path_is p) UNION_ARRAYS then Union
  else match p with
       | [section; key] =>
           if teqb section (str "hooks") then Concat
           else if teqb section (str "decisions") && teqb key (str "rules") then Concat
           else if teqb section (str "verification") && teqb key (str "checks") then ById
           else Deep
       | [section; servers; _] =>
           if (teqb section (str "mcp") || teqb section (str "lsp")) && teqb servers (str "servers") then Replace else Deep
       | _ => Deep
       end.

Definition union_items (items incoming : list Value) : list Value :=
  foldl (fun items item => if existsb (fun old => value_eqb old item) items then items else items ++ [item]) items incoming.

Definition item_id (v : Value) : option text := v' ← value_get (str "id") v; value_str v'.

Definition has_item_id (i : text) (v : Value) : bool := match item_id v with Some j => teqb j i | None => false end.

(** [iter().position] and the assignment to that index *)
Fixpoint replace_first (p : Value -> bool) (v : Value) (items : list Value) : option (list Value) :=
  match items with
  | [] => None
  | x :: items => if p x then Some (v :: items) else option_map (cons x) (replace_first p v items)
  end.

Definition put_by_id (items : list Value) (item : Value) : list Value :=
  match item_id item with
  | Some i => default (items ++ [item]) (replace_first (has_item_id i) item items)
  | None => items ++ [item]
  end.

Definition merge_by_id (items incoming : list Value) : list Value := foldl put_by_id items incoming.

Definition empty_like (v : Value) : Value := match v with VArray _ => VArray [] | _ => VTable [] end.

(** [combine]: the slot after [value] was merged into it. *)
Fixpoint combine_values (p : list text) (slot value : Value) {struct value} : Value :=
  match rule_for p, slot, value with
  | Union, VArray items, VArray incoming => VArray (union_items items incoming)
  | Concat, VArray items, VArray incoming => VArray (items ++ incoming)
  | ById, VArray items, VArray incoming => VArray (merge_by_id items incoming)
  | Deep, VTable base, VTable overlay =>
      VTable ((fix merge_tables (base overlay : Table) : Table :=
                 match overlay with
                 | [] => base
                 | (key, v) :: overlay =>
                     let merged :=
                       match get key base with
                       | Some slot => combine_values (p ++ [key]) slot v
                       | None =>
                           match v with
                           | VArray _ | VTable _ => combine_values (p ++ [key]) (empty_like v) v
                           | _ => v
                           end
                       end in
                     merge_tables (insert_entry key merged base) overlay
                 end) base overlay)
  | _, _, value => value
  end.

(** The value of an entry of the overlay. *)
Definition merged_entry (p : list text) (slot : option Value) (v : Value) : Value :=
  match slot with
  | Some slot => combine_values p slot v
  | None => match v with VArray _ | VTable _ => combine_values p (empty_like v) v | _ => v end
  end.

Definition merge_tables (p : list text) (base overlay : Table) : Table :=
  foldl (fun base kv => insert_entry (fst kv) (merged_entry (p ++ [fst kv]) (get (fst kv) base) (snd kv)) base) base overlay.

Definition merge_layer (base overlay : Table) : Table := merge_tables [] base overlay.

Definition nested (p : list text) (v : Value) : Table :=
  match p with
  | [] => []
  | first :: rest => [(first, foldr (fun key inner => VTable [(key, inner)]) v rest)]
  end.

(** * [document.rs] *)

Definition SCHEMA_VERSION : Z := 2.

Inductive SchemaKind := SchemaV1 | SchemaCurrent | SchemaNewer (version : Z) | SchemaInvalid.

Definition schema_of (t : Table) : SchemaKind :=
  match get (str "schema") t with
  | None => if is_empty t then SchemaCurrent else SchemaV1
  | Some (VInteger v) =>
      if Z.ltb v SCHEMA_VERSION then SchemaV1 else if Z.eqb v SCHEMA_VERSION then SchemaCurrent else SchemaNewer v
  | Some _ => SchemaInvalid
  end.

Definition new_table : Table := [(str "schema", VInteger SCHEMA_VERSION)].

(** * [error.rs] *)

(** Paths and sources are shown as their texts. *)
Inductive ConfigError :=
| CNoDirectory (kind env_var : text)
| CIo (path_ source : text)
| CParse (path_ message_ : text)
| CTooLarge (path_ : text) (limit : N)
| CInvalid (path_ message_ : text)
| CKeyPath (key reason : text)
| CSerialize (what message_ : text).

Definition show_config_error (e : ConfigError) : text :=
  match e with
  | CNoDirectory kind env_var => str "cannot locate the " ++ kind ++ str " directory; set " ++ env_var
  | CIo p source => str "cannot access " ++ p ++ str ": " ++ source
  | CParse p m => str "cannot parse " ++ p ++ str ": " ++ m
  | CTooLarge p limit => p ++ str " is larger than " ++ show_N limit ++ str " bytes"
  | CInvalid p m => str "refusing to write " ++ p ++ str ": " ++ m
  | CKeyPath key reason => str "invalid settings key `" ++ key ++ str "`: " ++ reason
  | CSerialize what m => str "cannot serialize " ++ what ++ str ": " ++ m
  end.

Definition key_path (p : list text) (reason : text) : ConfigError := CKeyPath (join (str ".") p) reason.

Definition invalid_schema (path_ : text) : ConfigError := CParse path_ (str "`schema` must be an integer").

(** * [migrate/convert.rs] *)

Definition put (p : list text) (v : Value) (out : Table) : Table := merge_layer out (nested p v).

Definition REVIEW_NOTE : text :=
  str "`review` was removed: v2 reviews changes with a review agent instead of an automatic post-edit pass".

(** [convert_hooks]: the document and the notes after one hook. *)
Definition convert_hook (acc : Table * list text) (entry : text * Value) : Table * list text :=
  let '(out, notes) := acc in
  let '(name, v) := entry in
  let event := if teqb name (str "session_start") then Some (str "SessionStart")
               else if teqb name (str "turn_completed") then Some (str "Stop") else None in
  match event, v with
  | Some event, VString command_ =>
      (put [str "hooks"; event] (VArray [VTable [(str "command", VString command_)]]) out,
       notes ++ [str "hook `" ++ name ++ str "` now runs as hooks." ++ event])
  | None, VString _ => (out, notes ++ [str "hook `" ++ name ++ str "` was dropped: v1 never ran it"])
  | _, v => (put [str "hooks"; name] v out, notes)
  end.

(** [str::split_at] at the first parenthesis *)
Definition is_tool_rule (rule : text) : bool :=
  let name := take_while (fun c => negb (N.eqb c (chr "("))) rule in
  let rest := drop (length name) rule in
  match name with c :: _ => is_ascii_upper c | [] => false end
  && forallb (fun c => is_ascii_alphanumeric c || N.eqb c (chr "_")) name
  && (is_empty rest || ends_with (str ")") rest).

Definition bash_rule (rule : text) : option text :=
  let rule := trim rule in
  if is_empty rule then None
  else if is_tool_rule rule then Some rule
  else Some (match strip_suffix (str "*") rule with
             | Some prefix =>
                 let prefix := trim_end prefix in
                 if is_empty prefix then str "Bash" else str "Bash(" ++ prefix ++ str ":*)"
             | None => str "Bash(" ++ rule ++ str ")"
             end).

Definition convert_rule (v : Value) : option Value :=
  match v with VString rule => option_map VString (bash_rule rule) | other => Some other end.

Definition rule_changed (v : Value) : bool :=
  match v with
  | VString rule => match bash_rule rule with Some r => negb (teqb r rule) | None => true end
  | _ => false
  end.

Definition convert_permission (acc : Table * list text) (entry : text * Value) : Table * list text :=
  let '(out, notes) := acc in
  let '(key, v) := entry in
  match (if teqb key (str "allow") then v else VTable []), v with
  | VArray entries, _ =>
      let changed := length (List.filter rule_changed entries) in
      (put [str "permissions"; key] (VArray (omap convert_rule entries)) out,
       if Nat.ltb 0 changed
       then notes ++ [str "converted " ++ show_N (N.of_nat changed) ++ str " v1 shell allow rules to Bash(...) rules"] else notes)
  | _, v => (put [str "permissions"; key] v out, notes)
  end.

Definition rename_pricing (v : Value) : Value :=
  match v with
  | VTable fields =>
      VTable (foldl (fun t kv =>
                let key := if teqb (fst kv) (str "usd_per_mtok_input") then str "input"
                           else if teqb (fst kv) (str "usd_per_mtok_output") then str "output" else fst kv in
                insert_entry key (snd kv) t) [] fields)
  | v => v
  end.

Definition convert_cost_entry (acc : Table * list text) (entry : text * Value) : Table * list text :=
  let '(out, notes) := acc in
  let '(key, v) := entry in
  match (if teqb key (str "overrides") then Some v else None) with
  | Some (VTable models) =>
      (foldl (fun out model => put [str "pricing"; fst model] (rename_pricing (snd model)) out) out models, notes)
  | _ => (out, notes ++ [str "`cost." ++ key ++ str "` was dropped: v2 has no equivalent"])
  end.

(** Where v1 keys moved. *)
Definition moved_keys : list (text * list text) :=
  [(str "base_url", [str "provider"; str "base_url"]);
   (str "max_context_tokens", [str "model"; str "context_window"]);
   (str "max_output_tokens", [str "model"; str "max_output_tokens"]);
   (str "compact_at_percent", [str "context"; str "compact_at_percent"]);
   (str "max_task_continuations", [str "verification"; str "max_continuations"]);
   (str "task_report_view", [str "ui"; str "task_report_view"]);
   (str "shell_path", [str "shell"; str "path"])].

Definition convert_entry (acc : Table * list text) (entry : text * Value) : Table * list text :=
  let '(out, notes) := acc in
  let '(key, v) := entry in
  let kept := (put [key] v out, notes) in
  if teqb key (str "schema") then acc
  else match List.find (fun moved => teqb (fst moved) key) moved_keys with
       | Some (_, p) => (put p v out, notes)
       | None =>
           if teqb key (str "review") then (out, notes ++ [REVIEW_NOTE])
           else if teqb key (str "model") then
             match v with VString m => (put [str "model"; str "main"] v out, notes) | _ => kept end
           else if teqb key (str "hooks") then
             match v with VTable hooks => foldl convert_hook acc hooks | _ => kept end
           else if teqb key (str "permissions") then
             match v with VTable rules => foldl convert_permission acc rules | _ => kept end
           else if teqb key (str "cost") then
             match v with VTable cost => foldl convert_cost_entry acc cost | _ => kept end
           else kept
       end.

Definition convert_v1 (v1 : Table) : Table * list text := foldl convert_entry (new_table, []) v1.

(** * [migrate/import.rs] *)

Definition as_v2 (path_ : text) (t : Table) : result ConfigError (Table * list text) :=
  match schema_of t with
  | SchemaV1 => Ok (convert_v1 t)
  | SchemaInvalid => Err (invalid_schema path_)
  | SchemaCurrent | SchemaNewer _ => Ok (t, [])
  end.

(** What reading and parsing a file gave; [None] when it does not exist. *)
Definition FileRead : Type := result ConfigError (option Table).

Definition read_legacy (path_ : text) (read : FileRead) : result ConfigError (option (Table * list text)) :=
  match read with
  | Err e => Err e
  | Ok None => Ok None
  | Ok (Some t) => match as_v2 path_ t with Ok r => Ok (Some r) | Err e => Err e end
  end.

(** * [loader.rs] *)

Inductive LayerScope := LayerDefault | LayerUser | LayerProject | LayerProjectLocal | LayerEnv.

Record LayerInfo := mkLayerInfo {
  layer_scope : LayerScope;
  layer_path : option text;
  layer_exists : bool;
  layer_error : option text;
  layer_note : option text
}.

Record EnvOverrides := mkEnvOverrides { env_model : option text; env_base_url : option text; env_provider : option text; env_shell : option text }.

Definition env_table (e : EnvOverrides) : Table :=
  foldl (fun t pv => match snd pv with Some v => merge_layer t (nested (fst pv) (VString v)) | None => t end) []
    [([str "model"; str "main"], env_model e); ([str "provider"; str "base_url"], env_base_url e);
     ([str "provider"; str "kind"], env_provider e); ([str "shell"; str "path"], env_shell e)].

(** The schema: reading settings from a table (derived code), what it clamps
    and the keys it does not know. *)
Class SettingsSchema := {
  settings : Type;
  default_settings : settings;
  deserialize : Table -> result text settings;
  normalize_settings : settings -> settings * list text;
  unknown_keys : Table -> list text
}.

Context {S : SettingsSchema}.

Record LoadedSettings := mkLoadedSettings { loaded_settings : settings; loaded_layers : list LayerInfo; loaded_warnings : list text }.

Record Layering := mkLayering { merged_table : Table; current_settings : settings; layer_infos : list LayerInfo; warnings : list text }.

Definition new_layering : Layering := mkLayering [] default_settings [] [].

Definition warn (ws : list text) (l : Layering) : Layering :=
  mkLayering (merged_table l) (current_settings l) (layer_infos l) (warnings l ++ ws).

Definition add_layer (i : LayerInfo) (l : Layering) : Layering :=
  mkLayering (merged_table l) (current_settings l) (layer_infos l ++ [i]) (warnings l).

(** [accept]: the warnings of a layer's table. *)
Definition accept (path_ : text) (t : Table) (notes : list text) (l : Layering) : Layering :=
  warn (map (fun note => path_ ++ str ": " ++ note) notes
        ++ map (fun key => path_ ++ str ": unknown key `" ++ key ++ str "`") (unknown_keys t)) l.

Definition apply_layer (layer : Table) (l : Layering) : Layering * option text :=
  let candidate := merge_layer (merged_table l) layer in
  match deserialize candidate with
  | Ok s => (mkLayering candidate s (layer_infos l) (warnings l), None)
  | Err e => (l, Some e)
  end.

Definition read_layer (path_ : text) (read : FileRead) (l : Layering) : Layering * result ConfigError (option Table) :=
  match read with
  | Err e => (l, Err e)
  | Ok None => (l, Ok None)
  | Ok (Some t) =>
      let l := match schema_of t with
               | SchemaNewer v => warn [path_ ++ str ": written for settings schema " ++ show_Z v ++ str "; unknown keys are ignored"] l
               | _ => l
               end in
      match as_v2 path_ t with
      | Err e => (l, Err e)
      | Ok (t, notes) => (accept path_ t notes l, Ok (Some t))
      end
  end.

Definition without_path (e : ConfigError) : text :=
  match e with
  | CParse _ m => m
  | CIo _ source => source
  | CTooLarge _ limit => str "larger than " ++ show_N limit ++ str " bytes"
  | other => show_config_error other
  end.

(** [Layering::read_legacy]: the path and note of the layer as well. *)
Definition read_legacy_layer (legacy target : text) (read : FileRead) (l : Layering)
  : Layering * text * option text * result ConfigError (option Table) :=
  match read_legacy legacy read with
  | Err e => (l, legacy, None, Err e)
  | Ok None => (l, target, None, Ok None)
  | Ok (Some (t, notes)) =>
      let note := str "imported from the v1 file " ++ legacy ++ str " in memory; saved to " ++ target ++ str " on the first change" in
      (accept legacy t notes (warn [note] l), legacy, Some note, Ok (Some t))
  end.

(** [Layering::file] *)
Definition file_layer (scope : LayerScope) (path_ : text) (read : FileRead) (legacy : option (text * FileRead)) (l : Layering) : Layering :=
  let '(l, shown, note, r) :=
    match read_layer path_ read l, legacy with
    | (l, Ok None), Some (legacy, legacy_read) => read_legacy_layer legacy path_ legacy_read l
    | (l, r), _ => (l, path_, None, r)
    end in
  let '(l, exists_, error) :=
    match r with
    | Ok None => (l, false, None)
    | Ok (Some t) => let '(l, error) := apply_layer t l in (l, true, error)
    | Err e => (l, true, Some (without_path e))
    end in
  let l := match error with Some e => warn [shown ++ str " was skipped: " ++ e] l | None => l end in
  add_layer (mkLayerInfo scope (Some shown) exists_ error note) l.

Definition finish_layering (l : Layering) : LoadedSettings :=
  let '(s, ws) := normalize_settings (current_settings l) in mkLoadedSettings s (layer_infos l) (warnings l ++ ws).

(** The files of a project: its settings, the v1 file, the local settings. *)
Record ProjectFiles := mkProjectFiles {
  project_file : text * FileRead;
  project_legacy : text * FileRead;
  project_local : text * FileRead
}.

Definition load_layers (user user_legacy : text * FileRead) (project : option ProjectFiles) (env : EnvOverrides) : Layering :=
  let l := add_layer (mkLayerInfo LayerDefault None true None None) new_layering in
  let l := file_layer LayerUser (fst user) (snd user) (Some user_legacy) l in
  let l := match project with
           | Some p =>
               file_layer LayerProjectLocal (fst (project_local p)) (snd (project_local p)) None
                 (file_layer LayerProject (fst (project_file p)) (snd (project_file p)) (Some (project_legacy p)) l)
           | None => l
           end in
  let t := env_table env in
  let exists_ := negb (is_empty t) in
  let '(l, error) := if exists_ then apply_layer t l else (l, None) in
  let l := match error with Some e => warn [str "environment overrides were skipped: " ++ e] l | None => l end in
  add_layer (mkLayerInfo LayerEnv None exists_ error None) l.

Definition load_with_env (user user_legacy : text * FileRead) (project : option ProjectFiles) (env : EnvOverrides) : LoadedSettings :=
  finish_layering (load_layers user user_legacy project env).

(** * [writer.rs] *)

Definition check_key_path (p : list text) : result ConfigError unit :=
  if is_empty p || existsb (fun key => is_empty (trim key)) p then Err (key_path p (str "empty key"))
  else if path_is p [str "schema"] then Err (key_path p (str "the schema version is managed by the app"))
  else Ok tt.

(** Changes the table that holds the last key of a path; the tables on the way
    are created.  [seen] are the keys passed. *)
Fixpoint at_parent (seen p : list text) (change : text -> Table -> result ConfigError (bool * Table)) (t : Table)
  : result ConfigError (bool * Table) :=
  match p with
  | [] => Err (key_path seen (str "empty key"))
  | [leaf] => change leaf t
  | key :: rest =>
      match default (VTable []) (get key t) with
      | VTable child =>
          match at_parent (seen ++ [key]) rest change child with
          | Ok (changed, child) => Ok (changed, insert_entry key (VTable child) t)
          | Err e => Err e
          end
      | _ => Err (key_path (seen ++ [key]) (str "is not a table"))
      end
  end.

Definition set_value_in (p : list text) (v : Value) (t : Table) : result ConfigError (bool * Table) :=
  at_parent [] p (fun leaf t =>
    Ok (match get leaf t with Some w => negb (value_eqb w v) | None => true end, insert_entry leaf v t)) t.

Definition add_to_array_in (p : list text) (v : text) (t : Table) : result ConfigError (bool * Table) :=
  at_parent [] p (fun leaf t =>
    match default (VArray []) (get leaf t) with
    | VArray items =>
        if existsb (fun item => match value_str item with Some s => teqb s v | None => false end) items
        then Ok (false, insert_entry leaf (VArray items) t)
        else Ok (true, insert_entry leaf (VArray (items ++ [VString v])) t)
    | _ => Err (key_path p (str "is not an array"))
    end) t.

(** [value_mut] and what is done with it. *)
Fixpoint at_value (p : list text) (change : Value -> bool * Value) (t : Table) : bool * Table :=
  match p with
  | [] => (false, t)
  | [leaf] =>
      match get leaf t with
      | Some v => let '(changed, v) := change v in (changed, insert_entry leaf v t)
      | None => (false, t)
      end
  | key :: rest =>
      match get key t with
      | Some (VTable child) => let '(changed, child) := at_value rest change child in (changed, insert_entry key (VTable child) t)
      | _ => (false, t)
      end
  end.

Definition remove_from_array_in (p : list text) (v : text) (t : Table) : bool * Table :=
  at_value p (fun slot =>
    match slot with
    | VArray items =>
        let kept := List.filter (fun item => match value_str item with Some s => negb (teqb s v) | None => true end) items in
        (negb (Nat.eqb (length kept) (length items)), VArray kept)
    | other => (false, other)
    end) t.

Fixpoint remove_path (p : list text) (t : Table) : bool * Table :=
  match p with
  | [] => (false, t)
  | [leaf] => (match get leaf t with Some _ => true | None => false end, remove_entry leaf t)
  | head :: rest =>
      match get head t with
      | Some (VTable child) =>
          let '(removed, child) := remove_path rest child in
          if removed && is_empty child then (removed, remove_entry head t) else (removed, insert_entry head (VTable child) t)
      | _ => (false, t)
      end
  end.

(** The table an edit starts from, and whether the file exists; none when the
    file is missing, nothing seeds it and it is not to be created.  [legacy] is
    the v1 file beside a [settings.toml]. *)
Definition opened (path_ : text) (create : bool) (read : FileRead) (legacy : option (text * FileRead))
  : result ConfigError (option (Table * bool)) :=
  match read with
  | Err e => Err e
  | Ok (Some t) => match as_v2 path_ t with Ok (t, _) => Ok (Some (t, true)) | Err e => Err e end
  | Ok None =>
      match match legacy with Some (p, read) => read_legacy p read | None => Ok None end with
      | Err e => Err e
      | Ok (Some (t, _)) => Ok (Some (t, false))
      | Ok None => Ok (if create then Some (new_table, false) else None)
      end
  end.

(** [edit]: the table that is written, if any. *)
Definition edit (path_ : text) (is_legacy create : bool) (read : FileRead) (legacy : option (text * FileRead))
    (change : Table -> result ConfigError (bool * Table)) : result ConfigError (option Table) :=
  if is_legacy then Err (CInvalid path_ (str "v1 config.toml files are read-only; edit settings.toml"))
  else match opened path_ create read legacy with
       | Err e => Err e
       | Ok None => Ok None
       | Ok (Some (t, existed)) =>
           match change t with
           | Err e => Err e
           | Ok (changed, t) =>
               if negb changed && (existed || negb create) then Ok None
               else match deserialize t with
                    | Err m => Err (CInvalid path_ m)
                    | Ok _ => Ok (Some t)
                    end
           end
       end.

(** What every edit of a file needs. *)
Record EditFile := mkEditFile { edit_path : text; edit_is_legacy : bool; edit_read : FileRead; edit_legacy : option (text * FileRead) }.

Definition edit_with (f : EditFile) (create : bool) (p : list text) (change : Table -> result ConfigError (bool * Table))
  : result ConfigError (option Table) :=
  match check_key_path p with
  | Err e => Err e
  | Ok tt => edit (edit_path f) (edit_is_legacy f) create (edit_read f) (edit_legacy f) change
  end.

Definition set_value (f : EditFile) (p : list text) (v : Value) := edit_with f true p (set_value_in p v).
Definition remove_value (f : EditFile) (p : list text) := edit_with f false p (fun t => Ok (remove_path p t)).
Definition add_to_array (f : EditFile) (p : list text) (v : text) := edit_with f true p (add_to_array_in p v).
Definition remove_from_array (f : EditFile) (p : list text) (v : text) := edit_with f false p (fun t => Ok (remove_from_array_in p v t)).

Inductive RuleKind := KindAllow | KindAsk | KindDeny.

Definition rule_key (k : RuleKind) : text :=
  match k with KindAllow => str "allow" | KindAsk => str "ask" | KindDeny => str "deny" end.

Definition add_permission_rule (f : EditFile) (k : RuleKind) (rule : text) : result ConfigError (option Table) :=
  let rule := trim rule in
  if is_empty rule then Err (key_path [str "permissions"; rule_key k] (str "empty rule"))
  else add_to_array f [str "permissions"; rule_key k] rule.

Definition remove_permission_rule (f : EditFile) (k : RuleKind) (rule : text) : result ConfigError (option Table) :=
  remove_from_array f [str "permissions"; rule_key k] (trim rule).

End WithToml.
