(* ===== verification/ConfigFacts.v ===== *)
(** Layered settings: what the merged table holds at a path, what a load
    accepts, what an edit changes, and what a conversion gives. *)

From Stdlib Require Import String ZArith.
From stdpp Require Import list.
From S2P Require Import RuleFacts Config.

Section WithToml.
Context {T : TomlScalars}.

Abbreviation Table := (list (text * Value)) (only parsing).

(** * Tables *)

Lemma get_insert k v j (t : Table) : get j (insert_entry k v t) = if teqb k j then Some v else get j t.
Proof.
  induction t as [|[i w] t IH]; cbn [insert_entry get]; [by destruct (teqb k j)|].
  destruct (teqb i k) eqn:Eik.
  - apply teqb_eq in Eik as ->. cbn [get]. by destruct (teqb k j).
  - destruct (text_lt k i); cbn [get]; [done|]. rewrite IH. destruct (teqb i j) eqn:Eij; [|done].
    apply teqb_eq in Eij as ->. destruct (teqb k j) eqn:Ekj; [|done]. apply teqb_eq in Ekj as ->. by rewrite teqb_refl in Eik.
Qed.

Lemma get_remove k j (t : Table) : get j (remove_entry k t) = if teqb k j then None else get j t.
Proof.
  induction t as [|[i w] t IH]; cbn; [by destruct (teqb k j)|]. destruct (teqb i k) eqn:Eik; cbn.
  - apply teqb_eq in Eik as ->. change (List.filter _ t) with (remove_entry k t). rewrite IH. by destruct (teqb k j).
  - change (List.filter _ t) with (remove_entry k t). rewrite IH. destruct (teqb i j) eqn:Eij; [|done].
    apply teqb_eq in Eij as ->. destruct (teqb k j) eqn:Ekj; [|done]. apply teqb_eq in Ekj as ->. by rewrite teqb_refl in Eik.
Qed.

Lemma get_in k v (t : Table) : get k t = Some v -> (k, v) ∈ t.
Proof.
  induction t as [|[i w] t IH]; [done|]. cbn. destruct (teqb i k) eqn:E; [apply teqb_eq in E as ->; intros [= ->]; by left|].
  intros H. right. by apply IH.
Qed.

Lemma get_none k (t : Table) : get k t = None <-> k ∉ map fst t.
Proof.
  induction t as [|[i w] t IH]; cbn; [split; [intros _; apply not_elem_of_nil|done]|]. rewrite not_elem_of_cons.
  destruct (teqb i k) eqn:E.
  - apply teqb_eq in E as ->. split; [done|]. by intros [].
  - rewrite IH. split; [|by intros []]. intros H. split; [|done]. intros ->. by rewrite teqb_refl in E.
Qed.

(** No key occurs twice, at any depth. *)
Inductive proper : Value -> Prop :=
| proper_string t : proper (VString t)
| proper_integer z : proper (VInteger z)
| proper_other s : proper (VOther s)
| proper_array l : proper (VArray l)
| proper_table t : proper_entries t -> proper (VTable t)
with proper_entries : list (text * Value) -> Prop :=
| proper_nil : proper_entries []
| proper_cons k v t : k ∉ map fst t -> proper v -> proper_entries t -> proper_entries ((k, v) :: t).

Lemma proper_get k v t : proper_entries t -> get k t = Some v -> proper v.
Proof.
  induction 1 as [|i w t Hi Hw Ht IH]; [done|]. cbn. by destruct (teqb i k); [intros [= <-]|].
Qed.

(** * Merging at a path *)

Lemma combine_tables p base overlay :
  rule_for p = Deep -> combine_values p (VTable base) (VTable overlay) = VTable (merge_tables p base overlay).
Proof.
  intros H. cbn [combine_values]. rewrite H. f_equal. unfold merge_tables.
  revert base; induction overlay as [|[k v] overlay IH]; intros base; [done|]. cbn [foldl fst snd]. rewrite <- IH.
  unfold merged_entry. by destruct (get k base).
Qed.

Lemma proper_keys t : proper_entries t -> NoDup (map fst t).
Proof. induction 1 as [|k v t Hk Hv Ht IH]; [constructor|]. by constructor. Qed.

Lemma get_merge p base overlay k :
  NoDup (map fst overlay) ->
  get k (merge_tables p base overlay)
  = match get k overlay with Some v => Some (merged_entry (p ++ [k]) (get k base) v) | None => get k base end.
Proof.
  intros Ho. unfold merge_tables. revert base; induction overlay as [|[i v] t IH]; intros base; [done|].
  cbn [map fst] in Ho. apply NoDup_cons in Ho as [Hi Ho]. cbn [foldl fst snd]. rewrite (IH Ho), get_insert. cbn [get]. destruct (teqb i k) eqn:E.
  - apply teqb_eq in E as ->. by rewrite (proj2 (get_none k t) Hi).
  - done.
Qed.

(** The value at a path. *)
Fixpoint at_path (p : list text) (v : Value) : option Value :=
  match p with [] => Some v | k :: p => match value_get k v with Some v => at_path p v | None => None end end.

(** Every table on the way to a path is one, if it is there. *)
Fixpoint reaches (p : list text) (t : Table) : Prop :=
  match p with
  | [] | [_] => True
  | k :: p => match get k t with Some (VTable t) => reaches p t | Some _ => False | None => True end
  end.

(** The tables on the way to [q ++ p] merge entry by entry. *)
Fixpoint deep_to (q p : list text) : Prop :=
  match p with [] | [_] => True | k :: p => rule_for (q ++ [k]) = Deep /\ deep_to (q ++ [k]) p end.

Definition merge_at (p : list text) (below above : option Value) : option Value :=
  match above with Some v => Some (merged_entry p below v) | None => below end.

Lemma at_path_empty p : p <> [] -> at_path p (VTable []) = None.
Proof. by destruct p. Qed.

Lemma merge_tables_at q p base overlay :
  p <> [] -> deep_to q p -> reaches p base -> reaches p overlay -> proper_entries overlay ->
  at_path p (VTable (merge_tables q base overlay)) = merge_at (q ++ p) (at_path p (VTable base)) (at_path p (VTable overlay))
  /\ reaches p (merge_tables q base overlay).
Proof.
  revert q base overlay; induction p as [|k p IH]; intros q base overlay Hp Hd Hb Ho Hpr; [done|].
  cbn [at_path value_get]. rewrite get_merge by by apply proper_keys. destruct p as [|j p].
  - cbn [at_path]. split; [|done]. destruct (get k overlay) as [v|]; [|by destruct (get k base)]. by destruct (get k base).
  - destruct Hd as [Hr Hd]. cbn [reaches] in Hb, Ho |- *. rewrite get_merge by by apply proper_keys.
    destruct (get k overlay) as [o|] eqn:Eo; [|by destruct (get k base)].
    destruct o as [| | | |o]; try done. assert (Hpo : proper_entries o) by (apply proper_get in Eo; [by inversion Eo|done]).
    replace (q ++ k :: j :: p) with ((q ++ [k]) ++ j :: p) by by rewrite <- app_assoc.
    destruct (get k base) as [b|].
    + destruct b as [| | | |b]; try done. unfold merged_entry. rewrite combine_tables by done. by apply IH.
    + unfold merged_entry, empty_like. rewrite combine_tables by done.
      destruct (IH (q ++ [k]) [] o) as [E R]; [done|done|by destruct p|done|done|]. split; [|exact R]. exact E.
Qed.

(** Layers merged one over the other, the lowest first. *)
Definition merge_all (layers : list Table) : Table := foldl merge_layer [] layers.

Definition proper_layer (p : list text) (t : Table) : Prop := proper_entries t /\ reaches p t.

Lemma merge_all_at p layers :
  p <> [] -> deep_to [] p -> Forall (proper_layer p) layers ->
  at_path p (VTable (merge_all layers)) = foldl (merge_at p) None (map (fun t => at_path p (VTable t)) layers)
  /\ reaches p (merge_all layers).
Proof.
  intros Hp Hd Hl. unfold merge_all. assert (H0 : at_path p (VTable []) = None /\ reaches p []).
  { split; [by apply at_path_empty|]. by destruct p as [|? []]. }
  destruct H0 as [H1 H2]. rewrite <- H1. revert H2. generalize (@nil (text * Value)).
  clear H1. induction Hl as [|t layers [Ht Hr] Hl IH]; intros b Hb; [done|]. cbn [foldl map].
  destruct (merge_tables_at [] p b t Hp Hd Hb Hr Ht) as [E R]. change ([] ++ p) with p in E. rewrite <- E. by apply IH.
Qed.

(** * Lists of several layers *)

(** What the lists of the layers become, by the rule of their path. *)
Definition collect (r : MergeRule) (items : list Value) : list Value :=
  match r with
  | Union => union_items [] items
  | Concat => items
  | ById => merge_by_id [] items
  | Deep | Replace => items
  end.

Definition lists (r : MergeRule) : Prop := match r with Union | Concat | ById => True | _ => False end.

Lemma combine_lists p below items :
  lists (rule_for p) ->
  combine_values p (VArray below) (VArray items)
  = VArray (match rule_for p with Union => union_items below items | ById => merge_by_id below items | _ => below ++ items end).
Proof. intros H. cbn [combine_values]. by destruct (rule_for p). Qed.

Lemma collect_app r a b :
  lists r -> collect r (a ++ b)
  = match r with Union => union_items (collect r a) b | ById => merge_by_id (collect r a) b | _ => collect r a ++ b end.
Proof. intros H. destruct r; try done; cbn; unfold union_items, merge_by_id; by rewrite foldl_app. Qed.

Lemma merge_lists p vs acc lss :
  lists (rule_for p) -> vs = map (option_map VArray) lss ->
  foldl (merge_at p) (option_map (fun l => VArray (collect (rule_for p) l)) acc) vs
  = option_map (fun l => VArray (collect (rule_for p) l))
      (match acc, omap id lss with None, [] => None | _, ls => Some (default [] acc ++ concat ls) end).
Proof.
  intros Hr ->. revert acc; induction lss as [|[l|] lss IH]; intros acc; cbn [map foldl option_map omap list_omap].
  - destruct acc as [a|]; [|done]. cbn. by rewrite app_nil_r.
  - cbn [merge_at]. replace (Some (merged_entry p _ (VArray l))) with (option_map (fun l => VArray (collect (rule_for p) l)) (Some (default [] acc ++ l))).
    + rewrite IH. cbn. change (omap id (Some l :: lss)) with (l :: omap id lss). cbn [concat]. destruct acc; cbn; by rewrite ?app_assoc.
    + cbn [option_map]. f_equal. unfold merged_entry, empty_like. rewrite collect_app by done.
      destruct acc as [a|]; cbn [option_map default]; rewrite combine_lists by done; by destruct (rule_for p).
  - change (omap id (None :: lss)) with (omap id lss). exact (IH acc).
Qed.

(** ** Unions *)

Definition has (v : Value) (l : list Value) : bool := existsb (fun old => value_eqb old v) l.

Lemma union_keeps items l v : v ∈ items -> v ∈ union_items items l.
Proof.
  unfold union_items. revert items; induction l as [|x l IH]; intros items Hv; [done|]. cbn. apply IH.
  destruct (existsb _ items); [done|]. apply elem_of_app. by left.
Qed.

Lemma union_has items l v : v ∈ l -> v ∈ union_items items l \/ has v (union_items items l) = true.
Proof.
  unfold union_items. revert items; induction l as [|x l IH]; intros items Hv; [by apply not_elem_of_nil in Hv|].
  cbn. apply elem_of_cons in Hv as [->|Hv]; [|by apply IH]. destruct (existsb _ items) eqn:E.
  - right. unfold has. apply existsb_exists in E as (y & Hy & Ey). apply existsb_exists. exists y. split; [|done].
    apply list_elem_of_In, union_keeps, list_elem_of_In. done.
  - left. apply union_keeps, elem_of_app. right. by left.
Qed.

(** No two items are equal. *)
Fixpoint distinct_items (l : list Value) : Prop :=
  match l with [] => True | v :: l => Forall (fun w => value_eqb v w = false) l /\ distinct_items l end.

Lemma distinct_snoc l v : distinct_items l -> existsb (fun old => value_eqb old v) l = false -> distinct_items (l ++ [v]).
Proof.
  induction l as [|x l IH]; intros Hd Hv; [by split|]. cbn in Hv. apply orb_false_iff in Hv as [H1 H2].
  destruct Hd as [Hx Hd]. split; [|by apply IH]. apply Forall_app. split; [done|]. by constructor.
Qed.

Lemma union_distinct items l : distinct_items items -> distinct_items (union_items items l).
Proof.
  unfold union_items. revert items; induction l as [|x l IH]; intros items Hd; [done|]. cbn. apply IH.
  destruct (existsb _ items) eqn:E; [done|]. by apply distinct_snoc.
Qed.

(** ** Checks *)

Definition ids_of (l : list Value) : list text := omap item_id l.

Lemma replace_first_spec i v l l' :
  item_id v = Some i -> replace_first (has_item_id i) v l = Some l' -> ids_of l' = ids_of l /\ (v ∈ l').
Proof.
  intros Hv. revert l'; induction l as [|x l IH]; intros l'; [done|]. cbn [replace_first]. destruct (has_item_id i x) eqn:E.
  - intros [= <-]. split; [|by left]. unfold ids_of. cbn. rewrite Hv. unfold has_item_id in E.
    destruct (item_id x) as [j|]; [|done]. by apply teqb_eq in E as ->.
  - destruct (replace_first _ v l) as [k|]; [|done]. cbn. intros [= <-]. destruct (IH k eq_refl) as [Hk Hin].
    split; [|by right]. unfold ids_of in *. cbn. by rewrite Hk.
Qed.

Lemma replace_first_none i v l : replace_first (has_item_id i) v l = None -> i ∉ ids_of l.
Proof.
  induction l as [|x l IH]; [intros _; apply not_elem_of_nil|]. cbn [replace_first]. destruct (has_item_id i x) eqn:E; [done|].
  destruct (replace_first _ v l); [done|]. intros _. unfold ids_of. cbn. unfold has_item_id in E.
  destruct (item_id x) as [j|]; [|by apply IH]. rewrite elem_of_cons. intros [->|H]; [by rewrite teqb_refl in E|by apply IH].
Qed.

Lemma put_by_id_distinct l v : NoDup (ids_of l) -> NoDup (ids_of (put_by_id l v)) /\ v ∈ put_by_id l v.
Proof.
  intros Hl. unfold put_by_id. destruct (item_id v) as [i|] eqn:Hv.
  - destruct (replace_first (has_item_id i) v l) as [l'|] eqn:E.
    + change (default (l ++ [v]) (Some l')) with l'. by destruct (replace_first_spec i v l l' Hv E) as [-> ?].
    + change (default (l ++ [v]) None) with (l ++ [v]). apply replace_first_none in E. split; [|apply elem_of_app; right; by left].
      unfold ids_of. rewrite omap_app. cbn. rewrite Hv. apply NoDup_app. split_and!; [done| |apply NoDup_singleton].
      intros j Hj ->%list_elem_of_singleton. done.
  - split; [|apply elem_of_app; right; by left]. unfold ids_of. rewrite omap_app. cbn. rewrite Hv. by rewrite app_nil_r.
Qed.

Lemma merge_by_id_distinct l items : NoDup (ids_of l) -> NoDup (ids_of (merge_by_id l items)).
Proof.
  unfold merge_by_id. revert l; induction items as [|v items IH]; intros l Hl; [done|]. cbn. apply IH. by apply put_by_id_distinct.
Qed.

Lemma find_replaced i j v l l' :
  item_id v = Some j -> replace_first (has_item_id j) v l = Some l' ->
  List.find (has_item_id i) l' = if has_item_id i v then Some v else List.find (has_item_id i) l.
Proof.
  intros Hv. assert (Hvi : has_item_id i v = teqb j i) by (unfold has_item_id; by rewrite Hv).
  revert l'; induction l as [|x l IH]; intros l'; [done|]. cbn [replace_first]. destruct (has_item_id j x) eqn:E.
  - intros [= <-]. cbn. rewrite Hvi. destruct (teqb j i) eqn:Eji; [done|].
    assert (Hx : has_item_id i x = false); [|by rewrite Hx]. unfold has_item_id in *. destruct (item_id x) as [k|]; [|done].
    by apply teqb_eq in E as ->.
  - destruct (replace_first _ v l) as [k|]; [|done]. cbn. intros [= <-]. cbn. rewrite (IH k eq_refl), Hvi.
    destruct (has_item_id i x) eqn:Ex; [|done]. destruct (teqb j i) eqn:Eji; [|done].
    apply teqb_eq in Eji as ->. congruence.
Qed.

Lemma find_app (p : Value -> bool) a b : List.find p (a ++ b) = match List.find p a with Some v => Some v | None => List.find p b end.
Proof. induction a as [|x a IH]; [done|]. cbn. by destruct (p x). Qed.

Lemma find_put_by_id i l v : List.find (has_item_id i) (put_by_id l v) = if has_item_id i v then Some v else List.find (has_item_id i) l.
Proof.
  unfold put_by_id. destruct (item_id v) as [j|] eqn:Hv.
  - destruct (replace_first (has_item_id j) v l) as [l'|] eqn:E.
    + change (default (l ++ [v]) (Some l')) with l'. by apply (find_replaced i j v l).
    + change (default (l ++ [v]) None) with (l ++ [v]). rewrite find_app. cbn. apply replace_first_none in E.
      destruct (has_item_id i v) eqn:Ev; [|by destruct (List.find _ l)].
      destruct (List.find _ l) as [x|] eqn:Ef; [|done]. exfalso. apply E. apply List.find_some in Ef as [Hx Ex].
      unfold has_item_id in Ev, Ex. rewrite Hv in Ev. apply teqb_eq in Ev as ->. destruct (item_id x) as [k|] eqn:Hk; [|done].
      apply teqb_eq in Ex as ->. apply list_elem_of_omap. exists x. split; [by apply list_elem_of_In|done].
  - rewrite find_app. assert (Hf : has_item_id i v = false) by (unfold has_item_id; by rewrite Hv).
    cbn. rewrite Hf. by destruct (List.find _ l).
Qed.

(** The last item with an id. *)
Definition last_item (i : text) (l : list Value) : option Value := last (List.filter (has_item_id i) l).

Lemma find_merged i l items :
  List.find (has_item_id i) (merge_by_id l items)
  = match last_item i items with Some v => Some v | None => List.find (has_item_id i) l end.
Proof.
  unfold merge_by_id, last_item. revert l; induction items as [|v items IH]; intros l; [done|]. cbn [foldl List.filter]. rewrite IH, find_put_by_id.
  destruct (has_item_id i v).
  - rewrite last_cons. by destruct (last (List.filter _ items)).
  - done.
Qed.

(** ** Scalars *)

Definition scalar_value (v : Value) : Prop := match v with VArray _ | VTable _ => False | _ => True end.

Lemma merged_scalar p slot v : scalar_value v -> merged_entry p slot v = v.
Proof. intros Hv. destruct slot as [w|], v; try done; cbn; by destruct (rule_for p), w. Qed.

Lemma merged_replaced p slot v : rule_for p = Replace -> merged_entry p slot v = v.
Proof.
  intros Hr. assert (H : forall s, combine_values p s v = v) by (intros s; destruct v; cbn; by rewrite Hr).
  destruct slot as [s|]; cbn; [apply H|]. by destruct v; rewrite ?H.
Qed.

Lemma merge_at_last p vs acc v :
  (rule_for p = Replace \/ scalar_value v) -> last (omap id vs) = Some v -> foldl (merge_at p) acc vs = Some v.
Proof.
  intros Hv. induction vs as [|o vs IH] using rev_ind; [done|]. rewrite omap_app, foldl_app. cbn. destruct o as [w|]; cbn.
  - rewrite last_snoc. intros [= ->]. f_equal. destruct Hv; [by apply merged_replaced|by apply merged_scalar].
  - rewrite app_nil_r. exact IH.
Qed.

Lemma merge_at_none p vs acc : omap id vs = [] -> foldl (merge_at p) acc vs = acc.
Proof. induction vs as [|[v|] vs IH]; [done|done|]. exact IH. Qed.

(** C31: layers merge by the rule of each path.  At a path whose tables are
    tables in every layer, the merged settings hold what the layers hold
    there: nothing if none sets it; the last value if that is a scalar or a
    server; otherwise the lists of all layers, in order: joined for hooks and
    decision rules, without repeats for the rule lists, so that no layer's
    deny rule is lost, and for checks one item for each id, the last layer's. *)
Theorem layers_merge_by_rule (p : list text) (layers : list (list (text * Value))) :
  p <> [] -> deep_to [] p -> Forall (proper_layer p) layers ->
  let values := map (fun t => at_path p (VTable t)) layers in
  let merged := at_path p (VTable (merge_all layers)) in
  (omap id values = [] -> merged = None)
  /\ (forall v, last (omap id values) = Some v -> rule_for p = Replace \/ scalar_value v -> merged = Some v)
  /\ (forall lss, lists (rule_for p) -> values = map (option_map VArray) lss -> omap id lss <> [] ->
       let all := concat (omap id lss) in
       exists l, merged = Some (VArray l)
         /\ match rule_for p with
            | Union => distinct_items l /\ (forall v, v ∈ all -> v ∈ l \/ has v l = true)
            | ById => NoDup (ids_of l) /\ forall i, List.find (has_item_id i) l = last_item i all
            | _ => l = all
            end).
Proof.
  intros Hp Hd Hl values merged. destruct (merge_all_at p layers Hp Hd Hl) as [E _]. subst merged. rewrite E. fold values. split_and!.
  - apply merge_at_none.
  - intros v Hlast Hv. by apply merge_at_last.
  - intros lss Hr Hvs Hne all. pose proof (merge_lists p values None lss Hr Hvs) as H. cbn [option_map] in H. rewrite H.
    destruct (omap id lss) as [|x xs] eqn:Ex; [done|]. cbn [default option_map app]. exists (collect (rule_for p) all).
    split; [done|]. destruct (rule_for p) eqn:R; try done; cbn [collect].
    + split; [by apply union_distinct|]. intros v Hv. by apply union_has.
    + split; [by apply merge_by_id_distinct; constructor|]. intros i. rewrite find_merged. by destruct (last_item i all).
Qed.

(** * Loading *)

Lemma combine_table p slot o :
  combine_values p slot (VTable o) = VTable o \/ exists b, combine_values p slot (VTable o) = VTable (merge_tables p b o).
Proof.
  destruct (rule_for p) eqn:R; try (left; cbn; rewrite R; by destruct slot).
  destruct slot as [| | | |b]; try (left; cbn; by rewrite R). right. exists b. by apply combine_tables.
Qed.

(** The value at a path of the layer above wins if it is a scalar, whatever
    is below. *)
Lemma scalar_wins q p base overlay v :
  p <> [] -> proper_entries overlay -> at_path p (VTable overlay) = Some v -> scalar_value v ->
  at_path p (VTable (merge_tables q base overlay)) = Some v.
Proof.
  intros Hp Hpr Hat Hv. revert q base overlay Hp Hpr Hat; induction p as [|k p IH]; intros q base overlay Hp Hpr Hat; [done|].
  cbn [at_path value_get] in Hat |- *. rewrite get_merge by by apply proper_keys.
  destruct (get k overlay) as [o|] eqn:Eo; [|done]. destruct p as [|j p].
  - injection Hat as ->. by rewrite merged_scalar.
  - destruct o as [| | | |o]; try done.
    assert (Hpo : proper_entries o) by (apply proper_get in Eo; [by inversion Eo|done]).
    assert (Hc : forall slot, at_path (j :: p) (combine_values (q ++ [k]) slot (VTable o)) = Some v).
    { intros slot. destruct (combine_table (q ++ [k]) slot o) as [->|(b & ->)]; [done|]. by apply IH. }
    destruct (get k base) as [slot|]; [exact (Hc slot)|exact (Hc (VTable []))].
Qed.

Context {S : SettingsSchema}.

(** What a settings file gives, or the v1 file if it is missing: its table,
    nothing when there is no file, or why it cannot be used. *)
Definition layer_content (path_ : text) (read : FileRead) (legacy : option (text * FileRead)) : result ConfigError (option Table) :=
  match read with
  | Ok (Some t) => match as_v2 path_ t with Ok (t, _) => Ok (Some t) | Err e => Err e end
  | Ok None =>
      match legacy with
      | Some (p, r) => match read_legacy p r with Ok (Some (t, _)) => Ok (Some t) | Ok None => Ok None | Err e => Err e end
      | None => Ok None
      end
  | Err e => Err e
  end.

(** The file the layer is shown with: the v1 file when that is what was read. *)
Definition shown_path (path_ : text) (read : FileRead) (legacy : option (text * FileRead)) : text :=
  match read, legacy with
  | Ok None, Some (p, r) => match read_legacy p r with Ok None => path_ | _ => p end
  | _, _ => path_
  end.

Definition table_of (c : result ConfigError (option Table)) : option Table := match c with Ok t => t | Err _ => None end.

(** The settings are those of the layers accepted so far. *)
Definition layered (l : Layering) (accepted : list Table) : Prop :=
  merged_table l = merge_all accepted
  /\ match accepted with
     | [] => current_settings l = default_settings
     | _ => deserialize (merge_all accepted) = Ok (current_settings l)
     end.

Lemma layered_same l l' accepted :
  merged_table l' = merged_table l -> current_settings l' = current_settings l -> layered l accepted -> layered l' accepted.
Proof. unfold layered. by intros -> ->. Qed.

Lemma apply_layered t l accepted :
  layered l accepted ->
  match snd (apply_layer t l) with
  | None => layered (fst (apply_layer t l)) (accepted ++ [t])
  | Some e => fst (apply_layer t l) = l /\ deserialize (merge_all (accepted ++ [t])) = Err e
  end.
Proof.
  intros [Hm Hs]. unfold apply_layer. rewrite Hm.
  replace (merge_layer (merge_all accepted) t) with (merge_all (accepted ++ [t])) by (unfold merge_all; by rewrite foldl_app).
  destruct (deserialize (merge_all (accepted ++ [t]))) as [s|e] eqn:E; cbn; [|by split].
  split; [done|]. by destruct (accepted ++ [t]) eqn:Ea; [destruct accepted|].
Qed.

(** What is written of an error. *)
Definition reported (ws : list text) (i : LayerInfo) : Prop :=
  match layer_error i, layer_path i with
  | Some e, Some p => (p ++ str " was skipped: " ++ e) ∈ ws
  | Some e, None => (str "environment overrides were skipped: " ++ e) ∈ ws
  | None, _ => True
  end.

Lemma reported_mono ws ws' i : (forall w, w ∈ ws -> w ∈ ws') -> reported ws i -> reported ws' i.
Proof. unfold reported. destruct (layer_error i), (layer_path i); auto. Qed.

(** Steps that only report. *)
Definition only_reports (l l' : Layering) : Prop :=
  merged_table l' = merged_table l /\ current_settings l' = current_settings l /\ layer_infos l' = layer_infos l
  /\ forall w, w ∈ warnings l -> w ∈ warnings l'.

Lemma warn_reports ws l : only_reports l (warn ws l).
Proof. split_and!; try done. intros w Hw. apply elem_of_app. by left. Qed.

Lemma reports_trans a b c : only_reports a b -> only_reports b c -> only_reports a c.
Proof. intros (A1 & A2 & A3 & A4) (B1 & B2 & B3 & B4). split_and!; [congruence..|auto]. Qed.

Lemma read_layer_reports path_ read l :
  only_reports l (fst (read_layer path_ read l)) /\ snd (read_layer path_ read l) = layer_content path_ read None.
Proof.
  unfold read_layer, layer_content. destruct read as [[t|]|e]; [|by repeat split..].
  set (l1 := match schema_of t with SchemaNewer _ => _ | _ => l end).
  assert (H1 : only_reports l l1) by (subst l1; destruct (schema_of t); try (by repeat split); apply warn_reports).
  destruct (as_v2 path_ t) as [[t' notes]|e]; [|by split]. split; [|done]. by eapply reports_trans; [exact H1|apply warn_reports].
Qed.

(** What [file_layer] reads, before it is applied. *)
Definition layer_read (path_ : text) (read : FileRead) (legacy : option (text * FileRead)) (l : Layering)
  : Layering * text * option text * result ConfigError (option Table) :=
  match read_layer path_ read l, legacy with
  | (l, Ok None), Some (legacy, legacy_read) => read_legacy_layer legacy path_ legacy_read l
  | (l, r), _ => (l, path_, None, r)
  end.

Lemma layer_read_reports path_ read legacy l :
  let '(l', shown, _, r) := layer_read path_ read legacy l in
  only_reports l l' /\ r = layer_content path_ read legacy /\ shown = shown_path path_ read legacy.
Proof.
  unfold layer_read, shown_path. pose proof (read_layer_reports path_ read l) as [H1 H2].
  destruct (read_layer path_ read l) as [l1 r]. cbn [fst snd] in H1, H2. subst r. unfold layer_content.
  destruct read as [[t|]|e]; [by destruct (as_v2 path_ t) as [[? ?]|]| |done]. destruct legacy as [[p lr]|]; [|done].
  unfold read_legacy_layer. destruct (read_legacy p lr) as [[[t notes]|]|e]; [|done|done]. split; [|done].
  eapply reports_trans; [exact H1|]. eapply reports_trans; [|apply warn_reports]. apply warn_reports.
Qed.

(** The layers whose addition still reads as settings. *)
Fixpoint accept_layers (accepted offered : list (list (text * Value))) : list (list (text * Value)) :=
  match offered with
  | [] => accepted
  | t :: offered =>
      match deserialize (merge_all (accepted ++ [t])) with
      | Ok _ => accept_layers (accepted ++ [t]) offered
      | Err _ => accept_layers accepted offered
      end
  end.

(** Why a layer is skipped, if it is. *)
Definition layer_fate (accepted : list (list (text * Value))) (c : result ConfigError (option Table)) : option text :=
  match c with
  | Err e => Some (without_path e)
  | Ok None => None
  | Ok (Some t) => match deserialize (merge_all (accepted ++ [t])) with Ok _ => None | Err e => Some e end
  end.

(** A layer as it was found: its scope, the file it is shown with, and what
    that gave; and what the load has to say about it. *)
Definition SeenLayer : Type := LayerScope * option text * result ConfigError (option Table).
Definition LayerRow : Type := LayerScope * option text * bool * option text.

Definition row_of (i : LayerInfo) : LayerRow := (layer_scope i, layer_path i, layer_exists i, layer_error i).

Definition due_row (accepted : list (list (text * Value))) (s : SeenLayer) : LayerRow :=
  let '(scope, path_, c) := s in (scope, path_, match c with Ok None => false | _ => true end, layer_fate accepted c).

Fixpoint due_rows (accepted : list (list (text * Value))) (ls : list SeenLayer) : list LayerRow :=
  match ls with
  | [] => []
  | s :: ls => due_row accepted s :: due_rows (accept_layers accepted (option_list (table_of (snd s)))) ls
  end.

Lemma layered_ok l accepted t : layered l (accepted ++ [t]) -> exists s, deserialize (merge_all (accepted ++ [t])) = Ok s.
Proof. intros [_ H]. destruct (accepted ++ [t]) as [|x xs] eqn:E; [by destruct accepted|]. by eexists. Qed.

(** The state of a load: the layers [ls] were seen. *)
Record load_state (l : Layering) (accepted : list (list (text * Value))) (rows : list LayerRow) : Prop := mkLoadState {
  load_settings_ : layered l accepted;
  load_warned : Forall (reported (warnings l)) (layer_infos l);
  load_rows : map row_of (layer_infos l) = rows
}.

Lemma warned_more ws l : Forall (reported (warnings l)) (layer_infos l) -> Forall (reported (warnings l ++ ws)) (layer_infos l).
Proof.
  intros H. eapply Forall_impl; [exact H|]. intros i. apply reported_mono. intros w Hw. apply elem_of_app. by left.
Qed.

(** One more layer. *)
Lemma add_layer_state l accepted rows accepted' i :
  load_state l accepted rows -> layered l accepted' -> reported (warnings l) i -> load_state (add_layer i l) accepted' (rows ++ [row_of i]).
Proof.
  intros [_ Hw Hr] Hl Hi. split; [by apply (layered_same l)|apply Forall_app; split; [exact Hw|by constructor]|].
  cbn [add_layer layer_infos]. by rewrite map_app, Hr.
Qed.

Lemma warn_state ws l accepted rows : load_state l accepted rows -> load_state (warn ws l) accepted rows.
Proof. intros [Hl Hw Hr]. split; [by apply (layered_same l)|exact (warned_more ws l Hw)|done]. Qed.

Lemma reports_state l l' accepted rows : only_reports l l' -> load_state l accepted rows -> load_state l' accepted rows.
Proof.
  intros (Em & Es & Ei & Hw) [Hl Hr Hrows]. split; [by apply (layered_same l)|rewrite Ei|by rewrite Ei].
  eapply Forall_impl; [exact Hr|]. intros i. by apply reported_mono.
Qed.

(** Applying a table: accepted, or the layering is as before. *)
Lemma apply_state t l accepted rows :
  load_state l accepted rows ->
  snd (apply_layer t l) = layer_fate accepted (Ok (Some t))
  /\ load_state (fst (apply_layer t l)) (accept_layers accepted [t]) rows
  /\ warnings (fst (apply_layer t l)) = warnings l.
Proof.
  intros [Hl Hw Hr]. pose proof (apply_layered t l accepted Hl) as Ha. unfold apply_layer in *. cbn [layer_fate accept_layers].
  destruct (deserialize (merge_layer (merged_table l) t)) as [s|e]; cbn [fst snd] in *.
  - destruct (layered_ok _ _ _ Ha) as [s' ->]. by split_and!.
  - destruct Ha as [_ ->]. by split_and!.
Qed.

Definition file_seen (scope : LayerScope) (path_ : text) (read : FileRead) (legacy : option (text * FileRead)) : SeenLayer :=
  (scope, Some (shown_path path_ read legacy), layer_content path_ read legacy).

(** A file is accepted, or nothing of it is, and the reason is reported. *)
Lemma file_state scope path_ read legacy l accepted rows :
  load_state l accepted rows ->
  load_state (file_layer scope path_ read legacy l)
    (accept_layers accepted (option_list (table_of (layer_content path_ read legacy))))
    (rows ++ [due_row accepted (file_seen scope path_ read legacy)]).
Proof.
  intros H. unfold file_layer. fold (layer_read path_ read legacy l).
  pose proof (layer_read_reports path_ read legacy l) as H1. destruct (layer_read path_ read legacy l) as [[[l1 shown] note] r].
  destruct H1 as (H1 & -> & ->). apply (reports_state l l1) in H; [|exact H1]. clear H1. unfold file_seen, due_row.
  assert (Hskip : forall l2 a e (b : bool), load_state l2 a rows ->
    load_state (add_layer (mkLayerInfo scope (Some (shown_path path_ read legacy)) b (Some e) note)
                  (warn [shown_path path_ read legacy ++ str " was skipped: " ++ e] l2)) a
      (rows ++ [(scope, Some (shown_path path_ read legacy), b, Some e)])).
  { intros l2 a e b H2. apply (add_layer_state _ a); [by apply warn_state|apply (layered_same l2); [done|done|apply H2]|].
    apply elem_of_app. right. by left. }
  destruct (layer_content path_ read legacy) as [[t|]|e]; cbn [table_of option_list].
  - destruct (apply_state t l1 accepted rows H) as (E & H2 & _). destruct (apply_layer t l1) as [l2 error]. cbn [fst snd] in E, H2. subst error.
    destruct (layer_fate accepted (Ok (Some t))) as [e|]; [by apply Hskip|].
    apply (add_layer_state _ (accept_layers accepted [t]) _ _ (mkLayerInfo scope (Some _) true None note)); [done|apply H2|done].
  - apply (add_layer_state _ accepted _ _ (mkLayerInfo scope (Some _) false None note)); [done|apply H|done].
  - by apply Hskip.
Qed.

Lemma accept_app accepted a b : accept_layers accepted (a ++ b) = accept_layers (accept_layers accepted a) b.
Proof. revert accepted; induction a as [|t a IH]; intros accepted; [done|]. cbn. destruct (deserialize _); apply IH. Qed.

(** The layers as they were found, the lowest first. *)
Definition seen_layers (user user_legacy : text * FileRead) (project : option ProjectFiles) (env : EnvOverrides) : list SeenLayer :=
  file_seen LayerUser (fst user) (snd user) (Some user_legacy)
  :: match project with
     | Some p =>
         [file_seen LayerProject (fst (project_file p)) (snd (project_file p)) (Some (project_legacy p));
          file_seen LayerProjectLocal (fst (project_local p)) (snd (project_local p)) None]
     | None => []
     end
  ++ [(LayerEnv, None, Ok (if is_empty (env_table env) then None else Some (env_table env)))].

(** Their tables. *)
Definition offered (ls : list SeenLayer) : list (list (text * Value)) := flat_map (fun s => option_list (table_of (snd s))) ls.

Definition overrides (env : EnvOverrides) : list (list text * option text) :=
  [([str "model"; str "main"], env_model env); ([str "provider"; str "base_url"], env_base_url env);
   ([str "provider"; str "kind"], env_provider env); ([str "shell"; str "path"], env_shell env)].

Lemma env_table_holds env p v : (p, Some v) ∈ overrides env -> at_path p (VTable (env_table env)) = Some (VString v).
Proof.
  destruct env as [[m|] [u|] [k|] [s|]]; unfold overrides; cbn [env_model env_base_url env_provider env_shell];
    intros H; repeat (apply elem_of_cons in H as [H|H]; [try discriminate H; injection H as -> ->; reflexivity|]);
    by apply not_elem_of_nil in H.
Qed.

Lemma env_table_proper env : proper_entries (env_table env).
Proof.
  destruct env as [[m|] [u|] [k|] [s|]]; vm_compute;
    repeat (constructor; [by apply (bool_decide_unpack _)|repeat constructor; by apply (bool_decide_unpack _)|]); constructor.
Qed.

Lemma due_rows_app accepted a b :
  due_rows accepted (a ++ b) = due_rows accepted a ++ due_rows (accept_layers accepted (offered a)) b.
Proof. revert accepted; induction a as [|s a IH]; intros accepted; [done|]. cbn. by rewrite IH, accept_app. Qed.

Lemma offered_app a b : offered (a ++ b) = offered a ++ offered b.
Proof. apply flat_map_app. Qed.

(** The layers [ls] were added to a new layering. *)
Definition loaded (ls : list SeenLayer) (l : Layering) : Prop :=
  load_state l (accept_layers [] (offered ls)) ((LayerDefault, None, true, None) :: due_rows [] ls).

Lemma file_loaded ls scope path_ read legacy l :
  loaded ls l -> loaded (ls ++ [file_seen scope path_ read legacy]) (file_layer scope path_ read legacy l).
Proof.
  intros H. unfold loaded. rewrite offered_app, accept_app, due_rows_app. cbn [offered flat_map app due_rows].
  rewrite app_nil_r. exact (file_state scope path_ read legacy l _ _ H).
Qed.

Lemma load_loaded user user_legacy project env :
  loaded (seen_layers user user_legacy project env) (load_layers user user_legacy project env).
Proof.
  unfold load_layers, seen_layers. set (l0 := add_layer _ new_layering).
  assert (H0 : loaded [] l0) by (split; [by split|by repeat constructor|done]).
  apply (file_loaded [] LayerUser (fst user) (snd user) (Some user_legacy)) in H0. set (l1 := file_layer LayerUser _ _ _ l0) in *.
  set (l2 := match project with Some p => _ | None => l1 end). cbn [app] in H0.
  match goal with |- loaded (?s :: ?ps ++ ?es) _ => assert (H2 : loaded (s :: ps) l2); [|change (s :: ps ++ es) with ((s :: ps) ++ es); set (ls := s :: ps) in *] end.
  { subst l2. destruct project as [p|]; [|done]. apply (file_loaded [_; _]), (file_loaded [_]), H0. }
  clearbody l1 l2 ls. clear H0 l0 l1. unfold loaded in *. rewrite offered_app, accept_app, due_rows_app.
  set (a := accept_layers [] (offered ls)) in *. set (rows := due_rows [] ls) in *.
  destruct (is_empty (env_table env)); 
    cbn [negb offered flat_map table_of snd due_rows due_row layer_fate].
  - exact (add_layer_state l2 a _ a (mkLayerInfo LayerEnv None false None None) H2 (load_settings_ _ _ _ H2) I).
  - destruct (apply_state (env_table env) l2 a _ H2) as (E & H3 & _). destruct (apply_layer (env_table env) l2) as [l3 error]. cbn [fst snd] in E, H3.
    cbn [accept_layers layer_fate] in E, H3. subst error. change (option_list (Some (env_table env)) ++ []) with [env_table env]. cbn [accept_layers].
    destruct (deserialize (merge_all (a ++ [env_table env]))) as [s|e].
    + exact (add_layer_state l3 _ _ _ (mkLayerInfo LayerEnv None true None None) H3 (load_settings_ _ _ _ H3) I).
    + apply (warn_state [str "environment overrides were skipped: " ++ e]) in H3.
      refine (add_layer_state _ _ _ _ (mkLayerInfo LayerEnv None true (Some e) None) H3 (load_settings_ _ _ _ H3) _).
      apply elem_of_app. right. by left.
Qed.

(** C32: settings are what their layers say.  A load lists the layers in order,
    each with its file and, exactly when it is skipped, the reason: the file
    cannot be read or converted, or the settings with it would not read; and
    every reason is in the warnings.  Nothing of a skipped layer is used: the
    settings are read from exactly the other layers, merged; and an override of
    the environment that was accepted is what the settings hold. *)
Theorem loading_applies_layers (user user_legacy : text * FileRead) (project : option ProjectFiles) (env : EnvOverrides) :
  let l := load_layers user user_legacy project env in
  let seen := seen_layers user user_legacy project env in
  let accepted := accept_layers [] (offered seen) in
  layered l accepted
  /\ map row_of (layer_infos l) = (LayerDefault, None, true, None) :: due_rows [] seen
  /\ Forall (reported (warnings l)) (layer_infos l)
  /\ (last accepted = Some (env_table env) ->
       forall p v, (p, Some v) ∈ overrides env -> at_path p (VTable (merged_table l)) = Some (VString v)).
Proof.
  intros l seen accepted. destruct (load_loaded user user_legacy project env) as [Hl Hr Hrows]. fold l seen in Hl, Hr, Hrows. fold accepted in Hl.
  split_and!; [done|done|done|]. intros Hlast p v Hp. destruct Hl as [-> _].
  destruct accepted as [|t ts _] using rev_ind; [done|]. rewrite last_snoc in Hlast. injection Hlast as ->.
  unfold merge_all. rewrite foldl_app. cbn [foldl]. apply scalar_wins; [|apply env_table_proper|by apply env_table_holds|done].
  destruct p; [|done]. unfold overrides in Hp. repeat (apply elem_of_cons in Hp as [Hp|Hp]; [discriminate Hp|]). by apply not_elem_of_nil in Hp.
Qed.


(** * Conversion of older settings *)

Lemma put_elsewhere k p v out : head p <> Some k -> get k (put p v out) = get k out.
Proof.
  intros Hp. unfold put, merge_layer. destruct p as [|j p]; [done|]. rewrite get_merge by (cbn; apply NoDup_singleton).
  cbn [nested get]. destruct (teqb j k) eqn:E; [|done]. apply teqb_eq in E as ->. done.
Qed.

Definition keeps_schema (f : list (text * Value) * list text -> text * Value -> list (text * Value) * list text) : Prop :=
  forall acc entry, get (str "schema") (fst (f acc entry)) = get (str "schema") (fst acc).

Lemma fold_keeps_schema f l acc : keeps_schema f -> get (str "schema") (fst (foldl f acc l)) = get (str "schema") (fst acc).
Proof. intros Hf. revert acc; induction l as [|x l IH]; intros acc; [done|]. cbn. by rewrite IH, Hf. Qed.

Lemma hook_keeps : keeps_schema convert_hook.
Proof.
  intros [out notes] [name v]. unfold convert_hook. destruct (if teqb name _ then _ else _) as [e|], v; cbn [fst];
    done || by rewrite put_elsewhere.
Qed.

Lemma permission_keeps : keeps_schema convert_permission.
Proof.
  intros [out notes] [key v]. unfold convert_permission. destruct (if teqb key _ then v else _); cbn [fst]; by rewrite put_elsewhere.
Qed.

Lemma cost_keeps : keeps_schema convert_cost_entry.
Proof.
  intros [out notes] [key v]. unfold convert_cost_entry. destruct (if teqb key _ then Some v else None) as [[| | | |models]|]; try done.
  cbn [fst]. revert out; induction models as [|m models IH]; intros out; [done|]. cbn [foldl]. rewrite IH. by rewrite put_elsewhere.
Qed.

Lemma entry_keeps : keeps_schema convert_entry.
Proof.
  intros [out notes] [key v]. unfold convert_entry. destruct (teqb key (str "schema")) eqn:Ek; [done|]. apply teqb_neq in Ek.
  assert (Hkept : get (str "schema") (put [key] v out) = get (str "schema") out) by (apply put_elsewhere; cbn; congruence).
  destruct (List.find _ moved_keys) as [[k p]|] eqn:Ef.
  - cbn [fst]. apply put_elsewhere. apply List.find_some in Ef as [Ef _]. unfold moved_keys in Ef.
    repeat (destruct Ef as [Ef|Ef]; [by injection Ef as <- <-|]). done.
  - destruct (teqb key (str "review")); [done|]. destruct (teqb key (str "model")).
    { destruct v; cbn [fst]; try done. by rewrite put_elsewhere. }
    destruct (teqb key (str "hooks")); [destruct v; try done; apply fold_keeps_schema, hook_keeps|].
    destruct (teqb key (str "permissions")); [destruct v; try done; apply fold_keeps_schema, permission_keeps|].
    destruct (teqb key (str "cost")); [destruct v; try done; apply fold_keeps_schema, cost_keeps|done].
Qed.

(** A converted document is current, and is converted no further. *)
Lemma converted_is_current t path_ :
  get (str "schema") (fst (convert_v1 t)) = Some (VInteger SCHEMA_VERSION)
  /\ as_v2 path_ (fst (convert_v1 t)) = Ok (fst (convert_v1 t), []).
Proof.
  assert (H : get (str "schema") (fst (convert_v1 t)) = Some (VInteger SCHEMA_VERSION)).
  { unfold convert_v1. by rewrite (fold_keeps_schema _ _ _ entry_keeps). }
  split; [done|]. unfold as_v2, schema_of. by rewrite H.
Qed.

(** * Edits *)

(** Neither path is a prefix of the other. *)
Fixpoint apart (p q : list text) : Prop :=
  match p, q with k :: p, j :: q => k <> j \/ apart p q | _, _ => False end.

(** The two tables agree at every path apart from [p]. *)
Definition same_apart (p : list text) (t t' : Table) : Prop :=
  forall q, apart p q -> at_path q (VTable t') = at_path q (VTable t).

Lemma same_apart_insert k p v (t : Table) :
  (forall q, apart p q -> at_path q v = from_option (at_path q) (at_path q (VTable [])) (get k t)) ->
  same_apart (k :: p) t (insert_entry k v t).
Proof.
  intros H [|j q]; [done|]. cbn. rewrite get_insert. destruct (teqb k j) eqn:E; [|done]. apply teqb_eq in E as ->.
  intros [?|Hq]; [done|]. rewrite (H q Hq). destruct (get j t); [done|]. destruct p, q; done.
Qed.

Lemma same_apart_leaf k v (t : Table) : same_apart [k] t (insert_entry k v t).
Proof. apply same_apart_insert. by intros []. Qed.

Lemma at_parent_same seen p change (t t' : Table) c :
  (forall leaf t c t', change leaf t = Ok (c, t') -> same_apart [leaf] t t') ->
  at_parent seen p change t = Ok (c, t') -> same_apart p t t'.
Proof.
  intros Hc. revert seen t t' c; induction p as [|k p IH]; intros seen t t' c; [done|]. cbn [at_parent].
  destruct p as [|j p]; [apply Hc|]. destruct (default (VTable []) (get k t)) as [| | | |child] eqn:Eg; try done.
  destruct (at_parent _ (j :: p) change child) as [[c' child']|e] eqn:E; [|done]. intros [= <- <-].
  apply IH in E. apply same_apart_insert. intros q Hq. rewrite (E q Hq). destruct (get k t); cbn in Eg; by injection Eg as ->||subst.
Qed.

Lemma at_parent_holds seen p change (t t' : Table) c (R : option Value -> option Value -> Prop) :
  (forall leaf t c t', change leaf t = Ok (c, t') -> R (get leaf t) (get leaf t')) ->
  at_parent seen p change t = Ok (c, t') -> R (at_path p (VTable t)) (at_path p (VTable t')).
Proof.
  intros Hc. revert seen t t' c; induction p as [|k p IH]; intros seen t t' c; [done|]. cbn [at_parent at_path value_get].
  destruct p as [|j p].
  - intros H. apply Hc in H. cbn. by destruct (get k t), (get k t').
  - destruct (default (VTable []) (get k t)) as [| | | |child] eqn:Eg; try done.
    destruct (at_parent _ (j :: p) change child) as [[c' child']|e] eqn:E; [|done]. intros [= <- <-].
    rewrite get_insert, teqb_refl. apply IH in E. destruct (get k t); cbn in Eg; [by subst|by injection Eg as <-].
Qed.

Lemma remove_path_holds p (t : Table) : p <> [] -> at_path p (VTable (snd (remove_path p t))) = None.
Proof.
  revert t; induction p as [|k p IH]; intros t; [done|]. intros _. cbn [remove_path]. destruct p as [|j p].
  - cbn. by rewrite get_remove, teqb_refl.
  - destruct (get k t) as [[| | | |child]|] eqn:Eg; try (cbn; by rewrite Eg).
    pose proof (IH child ltac:(done)) as Hc. destruct (remove_path (j :: p) child) as [r child'].
    destruct (r && is_empty child'); cbn [snd]; cbn [at_path value_get].
    + by rewrite get_remove, teqb_refl.
    + by rewrite get_insert, teqb_refl.
Qed.

Lemma remove_path_same p (t : Table) : same_apart p t (snd (remove_path p t)).
Proof.
  revert t; induction p as [|k p IH]; intros t; [done|]. cbn [remove_path]. destruct p as [|j p].
  - intros [|i q]; [done|]. cbn. rewrite get_remove. destruct (teqb k i) eqn:E; [|done]. apply teqb_eq in E as ->. intros [|]; [done|by destruct q].
  - destruct (get k t) as [[| | | |child]|] eqn:Eg; try done.
    pose proof (IH child) as Hc. destruct (remove_path (j :: p) child) as [r child']. cbn [snd] in Hc.
    destruct (r && is_empty child') eqn:E; cbn [snd].
    + intros [|i q]; [done|]. cbn [at_path value_get]. rewrite get_remove. destruct (teqb k i) eqn:Ek; [|done]. apply teqb_eq in Ek as ->.
      intros [?|Hq]; [done|]. rewrite Eg, <- (Hc q Hq). apply andb_true_iff in E as [_ E]. destruct child'; [|done].
      by destruct q.
    + apply same_apart_insert. intros q Hq. rewrite Eg. cbn. by apply Hc.
Qed.

Lemma at_value_same p change (t : Table) : same_apart p t (snd (at_value p change t)).
Proof.
  revert t; induction p as [|k p IH]; intros t; [done|]. cbn [at_value]. destruct p as [|j p].
  - destruct (get k t) as [v|]; [|done]. destruct (change v). apply same_apart_leaf.
  - destruct (get k t) as [[| | | |child]|] eqn:Eg; try done. pose proof (IH child) as Hc.
    destruct (at_value (j :: p) change child) as [c child']. apply same_apart_insert. intros q Hq. rewrite Eg. by apply Hc.
Qed.

Lemma at_value_changed p change (t t' : Table) :
  at_value p change t = (true, t') ->
  exists v v', at_path p (VTable t) = Some v /\ change v = (true, v') /\ at_path p (VTable t') = Some v'.
Proof.
  revert t t'; induction p as [|k p IH]; intros t t'; [done|]. cbn [at_value]. destruct p as [|j p].
  - destruct (get k t) as [v|] eqn:Eg; [|done]. destruct (change v) as [c v'] eqn:Ec. intros [= -> <-]. exists v, v'.
    cbn. by rewrite Eg, get_insert, teqb_refl.
  - destruct (get k t) as [[| | | |child]|] eqn:Eg; try done. destruct (at_value (j :: p) change child) as [c child'] eqn:E.
    intros [= -> <-]. apply IH in E as (v & v' & H1 & H2 & H3). exists v, v'. split_and!; [|done|]; cbn [at_path value_get].
    + by rewrite Eg.
    + by rewrite get_insert, teqb_refl.
Qed.

(** The file [f] after an edit at [p]. *)
Definition edited (f : EditFile) (create : bool) (p : list text) (t' : Table) (holds : Table -> Prop) : Prop :=
  exists t existed, opened (edit_path f) create (edit_read f) (edit_legacy f) = Ok (Some (t, existed))
    /\ same_apart p t t' /\ holds t /\ exists s, deserialize t' = Ok s.

Lemma edit_with_edited f create p change t' (holds : Table -> Prop) :
  (forall t c, p <> [] -> change t = Ok (c, t') -> c = true \/ create = true -> same_apart p t t' /\ holds t) ->
  edit_with f create p change = Ok (Some t') -> edited f create p t' holds.
Proof.
  intros Hc. unfold edit_with, check_key_path. destruct p as [|k p]; [done|]. destruct (_ || _); [done|]. destruct (path_is _ _); [done|].
  unfold edit, edited. destruct (edit_is_legacy f); [done|]. destruct (opened _ _ _ _) as [[[t existed]|]|e]; try done.
  destruct (change t) as [[c t1]|e] eqn:E; [|done]. destruct (negb c && _) eqn:Eb; [done|].
  destruct (deserialize t1) as [s|m] eqn:Es; [|done]. intros [= <-]. exists t, existed.
  destruct (Hc t c) as [H1 H2]; [done|done|destruct c, create, existed; auto|]. split_and!; [done|done|done|by exists s].
Qed.

Lemma set_value_keeps p v (t t' : Table) c :
  p <> [] -> set_value_in p v t = Ok (c, t') -> same_apart p t t' /\ at_path p (VTable t') = Some v.
Proof.
  intros Hp H. split.
  - eapply at_parent_same; [|exact H]. intros leaf u c0 u' [= _ <-]. apply same_apart_leaf.
  - eapply (at_parent_holds _ _ _ _ _ _ (fun _ o => o = Some v)); [|exact H]. intros leaf u c0 u' [= _ <-]. by rewrite get_insert, teqb_refl.
Qed.

(** A list of strings once a string was added. *)
Definition with_string (v : text) (items : list Value) : list Value :=
  if existsb (fun item => match value_str item with Some s => teqb s v | None => false end) items then items else items ++ [VString v].

Definition without_string (v : text) (items : list Value) : list Value :=
  List.filter (fun item => match value_str item with Some s => negb (teqb s v) | None => true end) items.

Lemma add_to_array_keeps p v (t t' : Table) c :
  add_to_array_in p v t = Ok (c, t') ->
  same_apart p t t'
  /\ exists items, default (VArray []) (at_path p (VTable t)) = VArray items /\ at_path p (VTable t') = Some (VArray (with_string v items)).
Proof.
  intros H. split.
  - eapply at_parent_same; [|exact H]. intros leaf u c0 u'. cbn beta. destruct (default _ _) as [| | |items|]; try done.
    destruct (existsb _ items); intros [= _ <-]; apply same_apart_leaf.
  - eapply (at_parent_holds _ _ _ _ _ _ (fun o o' =>
      exists items, default (VArray []) o = VArray items /\ o' = Some (VArray (with_string v items)))); [|exact H].
    intros leaf u c0 u'. cbn beta. destruct (default _ _) as [| | |items|]; try done. unfold with_string.
    destruct (existsb _ items) eqn:E; intros [= _ <-]; exists items; rewrite get_insert, teqb_refl, ?E; done.
Qed.

Lemma remove_from_array_keeps p v (t t' : Table) :
  remove_from_array_in p v t = (true, t') ->
  same_apart p t t'
  /\ exists items, at_path p (VTable t) = Some (VArray items) /\ at_path p (VTable t') = Some (VArray (without_string v items)).
Proof.
  intros H. split; [change t' with (snd (true, t')); rewrite <- H; apply at_value_same|].
  apply at_value_changed in H as (w & w' & H1 & H2 & H3). destruct w as [| | |items|]; try done. injection H2 as _ <-. by exists items.
Qed.

(** An edit changes one key of one file.  Whatever an edit writes reads as
    settings again, and at every path apart from the edited one it holds what
    the file held - or the older file it is seeded from, converted, when the
    file does not exist yet.  At its path a written value is there, a removed
    one is not, a list has the string added unless it had it, or has lost every
    occurrence of the string removed. *)
Theorem edits_change_one_key (f : EditFile) (p : list text) (t' : list (text * Value)) :
  (forall v, set_value f p v = Ok (Some t') ->
     edited f true p t' (fun _ => at_path p (VTable t') = Some v))
  /\ (remove_value f p = Ok (Some t') ->
     edited f false p t' (fun _ => at_path p (VTable t') = None))
  /\ (forall v, add_to_array f p v = Ok (Some t') ->
     edited f true p t' (fun t => exists items, default (VArray []) (at_path p (VTable t)) = VArray items
                                    /\ at_path p (VTable t') = Some (VArray (with_string v items))))
  /\ (forall v, remove_from_array f p v = Ok (Some t') ->
     edited f false p t' (fun t => exists items, at_path p (VTable t) = Some (VArray items)
                                     /\ at_path p (VTable t') = Some (VArray (without_string v items)))).
Proof.
  split_and!.
  - intros v. apply edit_with_edited. intros t c Hp Ht _. by apply (set_value_keeps _ _ _ _ c).
  - apply edit_with_edited. intros t c Hp [= Ht] _. replace t' with (snd (remove_path p t)) by by rewrite Ht.
    split; [apply remove_path_same|by apply remove_path_holds].
  - intros v. apply edit_with_edited. intros t c Hp Ht _. by apply (add_to_array_keeps _ _ _ _ c).
  - intros v. apply edit_with_edited. intros t c Hp [= Ht] [->|]; [by apply remove_from_array_keeps|done].
Qed.

End WithToml.

(** * Converted rules *)

Section WithGlobs.
Context {G : Globset} {P : Platform}.

(** The command of an older rule, and whether any continuation matches. *)
Definition old_rule (rule : text) : text * bool :=
  match strip_suffix (str "*") (trim rule) with Some prefix => (trim_end prefix, true) | None => (trim rule, false) end.

Lemma bash_specifier spec :
  spec <> [] -> trimmed is_whitespace spec ->
  rule_parse (str "Bash(" ++ spec ++ str ")")
  = match CommandPattern_parse spec with
    | Ok p => Ok (mkRule (TBash p))
    | Err m => Err (InvalidRule (str "Bash(" ++ spec ++ str ")") m)
    end.
Proof.
  intros Hne Htr. assert (Ht : good_tool (str "Bash")) by (by split).
  assert (Hs : good_specifier (Some spec)) by (by split).
  change (str "Bash(" ++ spec ++ str ")") with (optional (str "Bash") (Some spec)).
  unfold rule_parse. rewrite trimmed_trim by by apply optional_trimmed. rewrite split_optional by done.
  cbn [result_bind]. replace (strip_prefix (str "mcp__") (str "Bash")) with (@None text) by done.
  unfold target_of. cbn. by destruct (CommandPattern_parse spec).
Qed.

Lemma old_rule_spec rule :
  let (body, prefix) := old_rule rule in
  body <> [] -> let spec := body ++ (if prefix then str ":*" else []) in
                spec <> [] /\ trimmed is_whitespace spec /\ command_body spec = (body, prefix).
Proof.
  unfold old_rule. destruct (strip_suffix (str "*") (trim rule)) as [body|] eqn:E; intros Hne.
  - apply strip_suffix_Some in E. pose proof (trimmed_prefix_text _ _ _ (trim_trimmed rule) E Hne) as Hc.
    split_and!; [by destruct (trim_end body)| |by apply command_body_prefix, trim_end_idem].
    split; [by apply clean_head_app|]. by rewrite reverse_app.
  - rewrite app_nil_r. split_and!; [done|apply trim_trimmed|]. unfold command_body.
    destruct (strip_suffix (str ":*") (trim rule)) as [b|] eqn:E'; [|by rewrite E].
    apply strip_suffix_Some in E'. exfalso. change (str ":*") with (str ":" ++ str "*") in E'. rewrite app_assoc in E'.
    rewrite E', strip_suffix_app in E. done.
Qed.

(** A converted shell rule means what the older one meant.  An entry of
    the older allow list that is not in the new syntax already becomes a rule
    over exactly its command: every command if the entry was only a star, the
    commands that continue its words if it ended in one, the one command
    otherwise; a continuation of something that is not one simple command is
    refused when the rule is read. *)
Theorem converted_rule_keeps_meaning (r t : text) :
  bash_rule r = Some t -> is_tool_rule (trim r) = false ->
  rule_parse t
  = let (body, prefix) := old_rule r in
    if is_empty body then Ok (mkRule (TBash None))
    else match simple_words body, prefix with
         | None, true => Err (InvalidRule t (str "a prefix rule must name one simple command"))
         | ws, _ => Ok (mkRule (TBash (Some (mkCommandPattern body ws prefix))))
         end.
Proof.
  unfold bash_rule. intros H Ht. rewrite Ht in H. destruct (is_empty (trim r)) eqn:Ee; [done|].
  pose proof (old_rule_spec r) as Hs. unfold old_rule in Hs |- *.
  destruct (strip_suffix (str "*") (trim r)) as [b|]; cbn zeta iota beta in H, Hs.
  - destruct (is_empty (trim_end b)) eqn:Eb; [injection H as <-; by vm_compute|].
    destruct Hs as (Hne & Htr & Hb); [by intros E; rewrite E in Eb|].
    assert (Et : t = str "Bash(" ++ (trim_end b ++ str ":*") ++ str ")") by (injection H as <-; by rewrite <- app_assoc).
    rewrite Et, bash_specifier by done. unfold CommandPattern_parse. rewrite trimmed_trim, Hb, Eb by done.
    by destruct (simple_words (trim_end b)).
  - rewrite app_nil_r in Hs. destruct Hs as (Hne & Htr & Hb); [by intros E; rewrite E in Ee|].
    assert (Et : t = str "Bash(" ++ trim r ++ str ")") by (by injection H). rewrite Et, bash_specifier by done. unfold CommandPattern_parse. rewrite trimmed_trim, Hb, Ee by done.
    by destruct (simple_words (trim r)).
Qed.

End WithGlobs.

(** * Examples *)

(** Booleans for the other scalars, and a schema that reads every table with
    an integer schema, or none. *)
Definition plain_scalars : TomlScalars := {| scalar := bool; scalar_eqb := Bool.eqb |}.

Definition plain_schema : @SettingsSchema plain_scalars :=
  @Build_SettingsSchema plain_scalars (list (text * @Value plain_scalars)) []
    (fun t => match get (str "schema") t with Some (VString _) => Err (str "bad schema") | _ => Ok t end) (fun s => (s, [])) (fun _ => []).

Section Examples.
#[local] Existing Instances plain_scalars plain_schema.

Definition rule_layer (rules : list text) : list (text * Value) :=
  nested [str "permissions"; str "deny"] (VArray (map VString rules)).

Lemma rule_layer_proper rules : proper_layer [str "permissions"; str "deny"] (rule_layer rules).
Proof. split; [repeat constructor; apply not_elem_of_nil|by cbn]. Qed.

(** No layer's deny rules are lost. *)
Example deny_rules_union :
  at_path [str "permissions"; str "deny"]
    (VTable (merge_all [rule_layer [str "Bash(rm:*)"; str "WebSearch"]; []; rule_layer [str "WebSearch"; str "Read(.env)"]]))
  = Some (VArray (map VString [str "Bash(rm:*)"; str "WebSearch"; str "Read(.env)"])).
Proof. vm_compute. reflexivity. Qed.

Lemma layers_merge_by_rule_witness :
  exists l, at_path [str "permissions"; str "deny"] (VTable (merge_all [rule_layer [str "WebSearch"]; rule_layer [str "Read(.env)"]]))
            = Some (VArray l) /\ distinct_items l.
Proof.
  destruct (layers_merge_by_rule [str "permissions"; str "deny"] [rule_layer [str "WebSearch"]; rule_layer [str "Read(.env)"]])
    as (_ & _ & H).
  - done.
  - by repeat split.
  - repeat constructor; apply not_elem_of_nil || by cbn.
  - destruct (H [Some [VString (str "WebSearch")]; Some [VString (str "Read(.env)")]]) as (l & E & Hl & _); [done|done|done|].
    exists l. split; [exact E|exact Hl].
Defined.

Definition no_file : text * FileRead := (str "none", Ok None).

Lemma loading_applies_layers_witness :
  at_path [str "model"; str "main"]
    (VTable (merged_table (load_layers (str "settings.toml", Ok (Some (new_table ++ nested [str "model"; str "main"] (VString (str "a")))))
                             no_file None (mkEnvOverrides (Some (str "b")) None None None)))) = Some (VString (str "b")).
Proof.
  apply (loading_applies_layers (str "settings.toml", Ok (Some (new_table ++ nested [str "model"; str "main"] (VString (str "a")))))
           no_file None (mkEnvOverrides (Some (str "b")) None None None)).
  - vm_compute. reflexivity.
  - left.
Defined.

Definition settings_file : EditFile :=
  mkEditFile (str "settings.toml") false (Ok (Some (new_table ++ rule_layer [str "WebSearch"]))) None.

Lemma edits_change_one_key_witness :
  edited settings_file true [str "model"; str "main"]
    (insert_entry (str "model") (VTable [(str "main", VString (str "m"))]) (new_table ++ rule_layer [str "WebSearch"]))
    (fun _ => Some (VString (str "m")) = Some (VString (str "m"))).
Proof.
  apply (edits_change_one_key settings_file [str "model"; str "main"]
           (insert_entry (str "model") (VTable [(str "main", VString (str "m"))]) (new_table ++ rule_layer [str "WebSearch"]))).
  vm_compute. reflexivity.
Defined.
End Examples.

Lemma converted_rule_keeps_meaning_witness :
  @rule_parse simple_globset linux (str "Bash(git status:*)")
  = Ok (mkRule (TBash (Some (mkCommandPattern (str "git status") (Some [str "git"; str "status"]) true)))).
Proof.
  rewrite (@converted_rule_keeps_meaning simple_globset linux (str " git status *")) by (vm_compute; reflexivity).
  vm_compute. reflexivity.
Defined.
