(* ===== verification/Output.v ===== *)
(** The output of commands ([z-engine-host/src/process], files [lines.rs],
    [capture.rs], [background/ring.rs] and [background/job.rs], and
    [z-engine-tools/src/text/truncate.rs]): pipes cut into lines, captures that
    keep both ends, the history of a background job and what its readers get
    of it, and results cut to the model's budget. *)

From stdpp Require Import list.
From S2P Require Export Rule Records.

Open Scope N_scope.

(** * Bytes of strings *)

Definition nbytes (bs : list N) : N := N.of_nat (length bs).

(** [&s[..i]] and [&s[i..]] at a boundary. *)
Fixpoint split_at_byte (i : N) (s : text) : text * text :=
  match s with
  | [] => ([], [])
  | c :: s' => if i =? 0 then ([], s) else let '(a, b) := split_at_byte (i - utf8_len c) s' in (c :: a, b)
  end.

(** The last boundary at or before a byte, and the first at or after it. *)
Fixpoint floor_boundary (s : text) (index : N) : N :=
  match s with
  | [] => 0
  | c :: s => if utf8_len c <=? index then utf8_len c + floor_boundary s (index - utf8_len c) else 0
  end.

Fixpoint ceil_boundary (s : text) (index : N) : N :=
  match s with
  | [] => 0
  | c :: s => if index =? 0 then 0 else utf8_len c + ceil_boundary s (index - utf8_len c)
  end.

Definition is_continuation (b : N) : bool := N.land b 192 =? 128.

(** * [lines.rs] *)

Definition MAX_LINE_BYTES : N := 64 * 1024.

(** Lines are the bytes given to [emit]; the sink gets them as text. *)
Definition emit (bytes_ : list N) : text := from_utf8_lossy bytes_.

(** [loop { cut -= 1 }] *)
Fixpoint cut_loop (bytes_ : list N) (cut : nat) : nat :=
  match cut with
  | O => O
  | S below => match bytes_ !! cut with
               | Some b => if is_continuation b then cut_loop bytes_ below else cut
               | None => cut
               end
  end.

Definition char_boundary (bytes_ : list N) (limit : nat) : nat :=
  if Nat.leb (length bytes_) limit then length bytes_
  else match cut_loop bytes_ limit with O => limit | cut => cut end.

Fixpoint newline_loop (fuel : nat) (pending : list N) : list (list N) * list N :=
  match fuel with
  | O => ([], pending)
  | S fuel =>
      match list_find (eq NEWLINE) pending with
      | None => ([], pending)
      | Some (pos, _) =>
          let '(ls, rest) := newline_loop fuel (drop (S pos) pending) in (take (S pos) pending :: ls, rest)
      end
  end.

Fixpoint overlong_loop (fuel : nat) (limit : nat) (pending : list N) : list (list N) * list N :=
  match fuel with
  | O => ([], pending)
  | S fuel =>
      if Nat.leb limit (length pending) then
        let cut := char_boundary pending limit in
        let '(ls, rest) := overlong_loop fuel limit (drop cut pending) in (take cut pending :: ls, rest)
      else ([], pending)
  end.

(** [LineSplitter::push]: the lines emitted and the bytes kept. *)
Definition push_bytes (limit : nat) (bytes_ pending : list N) : list (list N) * list N :=
  let '(ls, pending) := newline_loop (length (pending ++ bytes_)) (pending ++ bytes_) in
  let '(cut, pending) := overlong_loop (length pending) limit pending in
  (ls ++ cut, pending).

(** [LineSplitter::finish] *)
Definition finish_lines (pending : list N) : list (list N) := match pending with [] => [] | _ => [pending] end.

(** What a read of the pipe gives. *)
Inductive PipeRead := PipeData (bytes_ : list N) | PipeInterrupted | PipeFailed.

(** [pump]; the end of the list is the end of the pipe. *)
Fixpoint pump (limit : nat) (reads : list PipeRead) (pending : list N) : list (list N) :=
  match reads with
  | [] | PipeData [] :: _ | PipeFailed :: _ => finish_lines pending
  | PipeInterrupted :: reads => pump limit reads pending
  | PipeData bytes_ :: reads => let '(ls, pending) := push_bytes limit bytes_ pending in ls ++ pump limit reads pending
  end.

(** The lines a pipe delivers to its sink. *)
Definition pumped (reads : list PipeRead) : list text := map emit (pump (N.to_nat MAX_LINE_BYTES) reads []).

(** * [capture.rs] *)

Record CappedText := mkCappedText {
  capped_head : text;
  head_cap : N;
  capped_tail : list text;
  tail_len : N;
  tail_cap : N;
  dropped : N
}.

Definition new_capped (cap : N) : CappedText := mkCappedText [] (cap / 2) [] 0 (cap - cap / 2) 0.

(** [while tail_len > tail_cap]: the pieces, their length and what was
    dropped. *)
Fixpoint shed_loop (fuel : nat) (cap : N) (tail : list text) (len lost : N) : list text * N * N :=
  match fuel with
  | O => (tail, len, lost)
  | S fuel =>
      if cap <? len then
        let excess := len - cap in
        match tail with
        | [] => (tail, len, lost)
        | front :: rest =>
            let cut := if blen front <=? excess then blen front else ceil_boundary front excess in
            if cut =? blen front then shed_loop fuel cap rest (len - cut) (lost + cut)
            else shed_loop fuel cap (snd (split_at_byte cut front) :: rest) (len - cut) (lost + cut)
        end
      else (tail, len, lost)
  end.

(** The head after a text was pushed, and what does not go into it. *)
Definition fill_head (t : text) (c : CappedText) : text * text :=
  if is_empty (capped_tail c) && (blen (capped_head c) <? head_cap c) then
    let '(kept, rest) := split_at_byte (floor_boundary t (head_cap c - blen (capped_head c))) t in (capped_head c ++ kept, rest)
  else (capped_head c, t).

Definition push_text (t : text) (c : CappedText) : CappedText :=
  let '(head, rest) := fill_head t c in
  if is_empty rest then mkCappedText head (head_cap c) (capped_tail c) (tail_len c) (tail_cap c) (dropped c)
  else
    let tail := capped_tail c ++ [rest] in
    let '(tail, len, lost) := shed_loop (2 * length tail) (tail_cap c) tail (tail_len c + blen rest) (dropped c) in
    mkCappedText head (head_cap c) tail len (tail_cap c) lost.

Definition omission (n : N) : text := NEWLINE :: str "[... " ++ show_N n ++ str " bytes of output omitted ...]" ++ [NEWLINE].

Definition finish_capped (c : CappedText) : text * bool :=
  (capped_head c ++ (if 0 <? dropped c then omission (dropped c) else []) ++ concat (capped_tail c), 0 <? dropped c).

Inductive PipeName := Stdout | Stderr.

Record Capture := mkCapture { cap_stdout : CappedText; cap_stderr : CappedText; cap_combined : CappedText }.

Definition new_capture (cap : N) : Capture := mkCapture (new_capped cap) (new_capped cap) (new_capped cap).

Definition push_line (stream : PipeName) (t : text) (c : Capture) : Capture :=
  let combined := push_text t (cap_combined c) in
  match stream with
  | Stdout => mkCapture (push_text t (cap_stdout c)) (cap_stderr c) combined
  | Stderr => mkCapture (cap_stdout c) (push_text t (cap_stderr c)) combined
  end.

Record Captured := mkCaptured { got_stdout : text; got_stderr : text; got_combined : text; got_truncated : bool }.

Definition finish_capture (c : Capture) : Captured :=
  let '(stdout, a) := finish_capped (cap_stdout c) in
  let '(stderr, b) := finish_capped (cap_stderr c) in
  let '(combined, d) := finish_capped (cap_combined c) in
  mkCaptured stdout stderr combined (a || b || d).

(** * [background/ring.rs] *)

Record OutputRing := mkOutputRing { ring_buf : list N; ring_start : N; ring_cap : N }.

Definition new_ring (cap : N) : OutputRing := mkOutputRing [] 0 cap.

Definition ring_end (r : OutputRing) : N := ring_start r + nbytes (ring_buf r).

Definition ring_push (bytes_ : list N) (r : OutputRing) : OutputRing :=
  let buf := ring_buf r ++ bytes_ in
  let excess := nbytes buf - ring_cap r in
  if 0 <? excess then mkOutputRing (drop (N.to_nat excess) buf) (ring_start r + excess) (ring_cap r)
  else mkOutputRing buf (ring_start r) (ring_cap r).

(** [decode] *)
Definition decode_ring (bytes_ : list N) : text :=
  let skip := length (take_while is_continuation (take 3 bytes_)) in from_utf8_lossy (drop skip bytes_).

Definition read_from (from : N) (r : OutputRing) : text * N :=
  let begin := N.min (N.max from (ring_start r)) (ring_end r) in
  (decode_ring (drop (N.to_nat (begin - ring_start r)) (ring_buf r)), begin - from).

Definition ring_tail (max : N) (r : OutputRing) : text := fst (read_from (ring_end r - max) r).

(** * [background/job.rs] *)

Definition RING_BYTES : N := 1024 * 1024.
Definition SNAPSHOT_TAIL_BYTES : N := 4 * 1024.

Record JobState := mkJobState {
  job_ring : OutputRing;
  job_cursor : N;
  state_status : JobStatus;
  state_exit : option Z;
  job_finished_at : option N;
  kill_requested : bool
}.

Definition new_job (cap : N) : JobState := mkJobState (new_ring cap) 0 JobRunning None None false.

Record JobRead := mkJobRead { read_output : text; read_status : JobStatus; read_exit : option Z; read_dropped : N }.

(** The lines a filter keeps. *)
Definition filtered (filter_ : option (text -> bool)) (t : text) : text :=
  match filter_ with
  | Some matches => flat_map (fun line => line ++ [NEWLINE]) (List.filter matches (lines t))
  | None => t
  end.

Definition read_new (filter_ : option (text -> bool)) (s : JobState) : JobState * JobRead :=
  let '(t, lost) := read_from (job_cursor s) (job_ring s) in
  (mkJobState (job_ring s) (ring_end (job_ring s)) (state_status s) (state_exit s) (job_finished_at s) (kill_requested s),
   mkJobRead (filtered filter_ t) (state_status s) (state_exit s) lost).

Definition append_output (t : text) (s : JobState) : JobState :=
  mkJobState (ring_push (as_bytes t) (job_ring s)) (job_cursor s) (state_status s) (state_exit s) (job_finished_at s) (kill_requested s).

Definition request_kill (s : JobState) : JobState * bool :=
  if job_is_terminal (state_status s) then (s, false)
  else (mkJobState (job_ring s) (job_cursor s) (state_status s) (state_exit s) (job_finished_at s) true, true).

(** [finish]: an exit status has a code unless a signal ended the process. *)
Definition finish_job (status : option (option Z)) (now : N) (s : JobState) : JobState :=
  let code := match status with Some c => c | None => None end in
  mkJobState (job_ring s) (job_cursor s)
    (if kill_requested s then JobKilled
     else if match status with Some (Some 0%Z) => true | _ => false end then JobCompleted else JobFailed)
    code (Some now) (kill_requested s).

(** * [truncate.rs] *)

Definition MARKER_RESERVE : nat := 400.

(** [&s[..i]] and [&s[i..]]; [None] is the panic of a slice inside a char or
    past the end. *)
Definition slice (i : N) (s : text) : option (text * text) :=
  let '(a, b) := split_at_byte i s in if blen a =? i then Some (a, b) else None.

Definition byte_at (t : text) (n : nat) : N := blen (take n t).

(** [rfind] and [find] of a newline *)
Definition rfind_newline (s : text) : option N :=
  match split_on NEWLINE s with
  | [_] => None
  | pieces => Some (blen s - blen (List.last pieces []) - 1)
  end.

Definition find_newline (s : text) : option N := match split_once [NEWLINE] s with Some (before, _) => Some (blen before) | None => None end.

Definition snap_head (t : text) (end_ : N) : option N :=
  '(head, _) ← slice end_ t;
  Some (match rfind_newline head with
        | Some newline => if end_ - end_ / 4 <=? newline + 1 then newline + 1 else end_
        | None => end_
        end).

Definition snap_tail (t : text) (start : N) : option N :=
  '(_, tail) ← slice start t;
  Some (match find_newline tail with
        | Some newline => if newline <? blen tail / 4 then start + newline + 1 else start
        | None => start
        end).

Definition truncation_marker (saved : option text) (middle : text) (total : nat) : text :=
  let omitted := show_N (N.of_nat (length middle)) in
  [NEWLINE; NEWLINE] ++ str "[... " ++ omitted ++ str " characters "
  ++ match saved with
     | Some p => str "(" ++ show_N (N.of_nat (occurrences [NEWLINE] middle)) ++ str " lines) omitted. The full output ("
                 ++ show_N (N.of_nat total) ++ str " characters) is saved at " ++ p
                 ++ str "; read it with Read (offset and limit) or search it with Grep.]"
     | None => str "omitted ...]"
     end ++ [NEWLINE; NEWLINE].

(** [truncate_with]; [spill] gives the path as it is shown. *)
Definition truncate_with (t : text) (max_chars : nat) (spill : text -> option text) : option text :=
  let total := length t in
  if Nat.leb total max_chars then Some t
  else
    let saved := spill t in
    let budget := Nat.max 2 (max_chars - Nat.min MARKER_RESERVE (Nat.div max_chars 4)) in
    let head_chars := Nat.div budget 2 in
    head_end ← snap_head t (byte_at t head_chars);
    start ← snap_tail t (byte_at t (total - (budget - head_chars)));
    let tail_start := N.max start head_end in
    '(head, rest) ← slice head_end t;
    '(middle, tail) ← slice (tail_start - head_end) rest;
    Some (head ++ truncation_marker saved middle total ++ tail).

(** What a snapshot shows of the output. *)
Definition snapshot_tail (s : JobState) : text := ring_tail SNAPSHOT_TAIL_BYTES (job_ring s).
