(* ===== verification/OutputFacts.v ===== *)
(** Output of commands: no byte of a pipe is lost or doubled between its lines,
    captures and histories keep what they say, and what they leave out is
    counted. *)

From Stdlib Require Import Zify ZifyBool ZifyN.
From stdpp Require Import list.
From S2P Require Import Sse Output.

(** * Boundaries *)

Lemma utf8_len_bound c : (1 <= utf8_len c <= 4)%N.
Proof. unfold utf8_len. repeat case_if; lia. Qed.

Lemma blen_app a b : blen (a ++ b) = (blen a + blen b)%N.
Proof. induction a as [|c a IH]; [done|]. cbn [app blen]. rewrite IH. lia. Qed.

Lemma blen_zero t : blen t = 0%N -> t = [].
Proof. destruct t as [|c t]; [done|]. cbn. pose proof (utf8_len_bound c). lia. Qed.

Lemma split_at_byte_app a b : split_at_byte (blen a) (a ++ b) = (a, b).
Proof.
  induction a as [|c a IH]; cbn [app blen split_at_byte]; [by destruct b|]. pose proof (utf8_len_bound c).
  destruct (N.eqb_spec (utf8_len c + blen a) 0); [lia|]. replace (utf8_len c + blen a - utf8_len c)%N with (blen a) by lia. by rewrite IH.
Qed.

(** [i] bytes from the start of [s], rounded down or up to a boundary. *)
Lemma floor_split s i :
  exists a b, s = a ++ b /\ floor_boundary s i = blen a /\ (blen a <= i)%N /\ (b <> [] -> i < blen a + 4)%N.
Proof.
  revert i; induction s as [|c s IH]; intros i; [exists [], []; split_and!; done || cbn; lia|]. cbn [floor_boundary]. pose proof (utf8_len_bound c).
  destruct (N.leb_spec (utf8_len c) i) as [Hle|Hgt].
  - destruct (IH (i - utf8_len c)%N) as (a & b & -> & Hf & Ha & Hb). exists (c :: a), b. rewrite Hf. cbn [blen app]. split_and!; try done; [lia|].
    intros Hne. specialize (Hb Hne). lia.
  - exists [], (c :: s). split_and!; try done; cbn; lia.
Qed.

Lemma ceil_split s i :
  (i <= blen s)%N -> exists a b, s = a ++ b /\ ceil_boundary s i = blen a /\ (i <= blen a < i + 4)%N.
Proof.
  revert i; induction s as [|c s IH]; intros i Hi; [exists [], []; split_and!; done || cbn in *; lia|]. cbn [ceil_boundary]. pose proof (utf8_len_bound c).
  destruct (N.eqb_spec i 0) as [->|Hne].
  - exists [], (c :: s). split_and!; try done; cbn; lia.
  - cbn [blen] in Hi. destruct (N.leb_spec i (utf8_len c)) as [Hle|Hgt].
    { exists [c], s. replace (i - utf8_len c)%N with 0%N by lia. replace (ceil_boundary s 0) with 0%N by by destruct s.
      cbn [blen app]. split_and!; try done; lia. }
    destruct (IH (i - utf8_len c)%N) as (a & b & -> & Hf & Ha); [lia|]. exists (c :: a), b. rewrite Hf. cbn [blen app].
    split_and!; try done; lia.
Qed.

(** * Captures *)

Definition pieces (tail : list text) : Prop := Forall (fun t => t <> []) tail.

Lemma shed_done fuel cap tail len lost : (len <= cap)%N -> shed_loop fuel cap tail len lost = (tail, len, lost).
Proof. intros H. destruct fuel as [|fuel]; [done|]. cbn. by replace (cap <? len)%N with false by lia. Qed.

Lemma shed_loop_spec fuel cap tail lost :
  pieces tail -> (length tail <= fuel)%nat ->
  exists cut tail', concat tail = cut ++ concat tail' /\ pieces tail'
    /\ shed_loop fuel cap tail (blen (concat tail)) lost = (tail', blen (concat tail'), (lost + blen cut)%N)
    /\ (blen (concat tail') <= cap)%N /\ (cut <> [] -> cap < blen (concat tail') + 4)%N.
Proof.
  revert tail lost; induction fuel as [|fuel IH]; intros tail lost Ht Hf.
  { destruct tail; [|cbn in Hf; lia]. exists [], []. split_and!; try done; [by rewrite N.add_0_r|cbn; lia]. }
  destruct (N.leb_spec (blen (concat tail)) cap) as [Hle|Hgt].
  { exists [], tail. rewrite shed_done by done. by rewrite N.add_0_r. }
  cbn [shed_loop]. replace (cap <? blen (concat tail))%N with true by lia. destruct tail as [|front rest]; [cbn in Hgt; lia|].
  apply Forall_cons in Ht as [Hne Ht]. cbn [concat] in Hgt |- *. rewrite blen_app in Hgt |- *. remember (blen front + blen (concat rest) - cap)%N as excess eqn:Ex.
  assert (Hpop : exists cut tail', front ++ concat rest = cut ++ concat tail' /\ pieces tail'
    /\ shed_loop fuel cap rest (blen front + blen (concat rest) - blen front) (lost + blen front)
       = (tail', blen (concat tail'), (lost + blen cut)%N)
    /\ (blen (concat tail') <= cap)%N /\ ((cap <= blen (concat rest))%N \/ (cap < blen (concat rest) + 4)%N -> cut <> [] -> cap < blen (concat tail') + 4)%N).
  { destruct (IH rest (lost + blen front)%N) as (cut & tail' & Hc & Hp & Hs & Hb & Hd); [done|cbn in Hf; lia|]. exists (front ++ cut), tail'.
    split_and!; try done.
    - by rewrite Hc, app_assoc.
    - replace (blen front + blen (concat rest) - blen front)%N with (blen (concat rest)) by lia. rewrite Hs, blen_app. by rewrite N.add_assoc.
    - intros Hor _. destruct cut as [|c cut]; [|by apply Hd]. cbn [app] in Hc. rewrite Hc in Hor. lia. }
  destruct (N.leb_spec (blen front) excess) as [Hc|Hc].
  - rewrite N.eqb_refl. destruct Hpop as (cut & tail' & H1 & H2 & H3 & H4 & H5). exists cut, tail'. split_and!; try done. apply H5. left. lia.
  - destruct (ceil_split front excess) as (a & b & -> & Ha & Hb); [lia|]. rewrite Ha. rewrite blen_app in *. destruct b as [|c b].
    + cbn [blen]. rewrite N.add_0_r, N.eqb_refl, app_nil_r in *. destruct Hpop as (cut & tail' & H1 & H2 & H3 & H4 & H5). exists cut, tail'.
      split_and!; try done. apply H5. right. lia.
    + pose proof (utf8_len_bound c). replace (blen a =? blen a + blen (c :: b))%N with false by (cbn [blen]; lia).
      rewrite split_at_byte_app. cbn [snd]. rewrite shed_done by lia. exists a, ((c :: b) :: rest).
      split_and!.
      * cbn [concat]. by rewrite <- app_assoc.
      * by apply Forall_cons.
      * cbn [concat]. rewrite blen_app. do 2 f_equal. lia.
      * cbn [concat]. rewrite blen_app. lia.
      * cbn [concat]. rewrite blen_app. lia.
Qed.

(** What a capture holds of the text [T]: both ends, and the length of what
    was dropped between them. *)
Definition holds (cap : N) (T mid : text) (c : CappedText) : Prop :=
  T = capped_head c ++ mid ++ concat (capped_tail c)
  /\ dropped c = blen mid /\ head_cap c = (cap / 2)%N /\ tail_cap c = (cap - cap / 2)%N
  /\ pieces (capped_tail c) /\ tail_len c = blen (concat (capped_tail c))
  /\ (blen (capped_head c) <= head_cap c)%N /\ (tail_len c <= tail_cap c)%N
  /\ (capped_tail c <> [] \/ mid <> [] -> head_cap c < blen (capped_head c) + 4)%N
  /\ (mid <> [] -> tail_cap c < tail_len c + 4)%N.

Lemma push_holds cap T mid c t :
  (7 <= cap)%N -> holds cap T mid c -> exists mid', holds cap (T ++ t) mid' (push_text t c).
Proof.
  intros Hcap (HT & Hd & Hh & Htc & Hp & Hl & Hhl & Htl & Hfull & Hmid).
  assert (Htail : capped_tail c = [] -> mid = []).
  { intros E. destruct mid as [|x mid]; [done|]. specialize (Hmid ltac:(done)). rewrite Hl, E in Hmid. cbn in Hmid.
    assert (cap / 2 <= cap - cap / 2)%N by (pose proof (N.Div0.mul_div_le cap 2); lia). assert (4 <= cap - cap / 2)%N; [|lia].
    pose proof (N.Div0.mul_div_le cap 2). lia. }
  assert (Hsplit : exists kept rest,
    fill_head t c = (capped_head c ++ kept, rest)
    /\ t = kept ++ rest /\ (kept <> [] -> capped_tail c = []) /\ (blen (capped_head c ++ kept) <= head_cap c)%N
    /\ (rest <> [] -> head_cap c < blen (capped_head c ++ kept) + 4)%N).
  { unfold fill_head. destruct (is_empty (capped_tail c)) eqn:Et; cbn [andb].
    - destruct (capped_tail c) as [|p ps] eqn:Ep; [|done]. destruct (N.ltb_spec (blen (capped_head c)) (head_cap c)) as [Hlt|Hge].
      + destruct (floor_split t (head_cap c - blen (capped_head c))) as (a & b & -> & Hf & Ha & Hb). rewrite Hf, split_at_byte_app.
        exists a, b. rewrite blen_app. split_and!; try done; [lia|]. intros Hne. specialize (Hb Hne). lia.
      + exists [], t. rewrite app_nil_r. split_and!; try done. intros _. lia.
    - exists [], t. rewrite app_nil_r. split_and!; try done. intros _. apply Hfull. left. intros E. by rewrite E in Et. }
  destruct Hsplit as (kept & rest & Es & -> & Hk & Hkl & Hr). unfold push_text. rewrite Es. clear Es. cbn iota.
  assert (HT' : T ++ kept = (capped_head c ++ kept) ++ mid ++ concat (capped_tail c)).
  { destruct kept as [|x kept]; [by rewrite !app_nil_r|]. specialize (Hk ltac:(done)). rewrite HT, (Htail Hk), Hk. cbn. by rewrite !app_nil_r. }
  destruct rest as [|x rest]; cbn [is_empty].
  - exists mid. rewrite app_nil_r. split_and!; cbn [capped_head capped_tail dropped head_cap tail_cap tail_len]; try done.
    intros Hor. rewrite blen_app. specialize (Hfull Hor). lia.
  - destruct (shed_loop_spec (2 * length (capped_tail c ++ [x :: rest])) (tail_cap c) (capped_tail c ++ [x :: rest]) (dropped c))
      as (cut & tail' & Hc & Hp' & Hs & Hb & Hcut); [apply Forall_app; split; [done|by constructor]|lia|].
    replace (tail_len c + blen (x :: rest))%N with (blen (concat (capped_tail c ++ [x :: rest])))
      by (rewrite concat_app, blen_app, Hl; cbn [concat]; by rewrite app_nil_r).
    rewrite Hs. exists (mid ++ cut). rewrite concat_app in Hc. cbn [concat] in Hc. rewrite app_nil_r in Hc.
    split_and!; cbn [capped_head capped_tail dropped head_cap tail_cap tail_len]; try done.
    + rewrite app_assoc, HT', <- !app_assoc. f_equal. f_equal. f_equal. by rewrite <- Hc.
    + rewrite Hd, blen_app. lia.
    + intros _. by apply Hr.
    + intros Hne. destruct cut as [|y cut]; [|by apply Hcut]. rewrite app_nil_r in Hne. specialize (Hmid Hne).
      cbn [app] in Hc. rewrite <- Hc, blen_app. lia.
Qed.

(** A capture keeps both ends of its stream.  Whatever the lines pushed,
    the head is the start of their text and the tail its end, together at most
    the budget; what was dropped is one part between them, its exact length is
    in the text shown, and nothing is dropped from a text that is shorter than
    the budget by more than the six bytes the cuts at chars may cost. *)
Theorem capture_keeps_ends (cap : N) (ls : list text) :
  (7 <= cap)%N ->
  let c := foldl (fun c l => push_text l c) (new_capped cap) ls in
  exists mid, concat ls = capped_head c ++ mid ++ concat (capped_tail c)
    /\ finish_capped c = (capped_head c ++ (if is_empty mid then [] else omission (blen mid)) ++ concat (capped_tail c), negb (is_empty mid))
    /\ (blen (capped_head c) + blen (concat (capped_tail c)) <= cap)%N
    /\ (mid <> [] -> cap < blen (capped_head c) + blen (concat (capped_tail c)) + 7)%N.
Proof.
  intros Hcap c. assert (H : exists mid, holds cap (concat ls) mid c).
  { subst c. induction ls as [|l ls [mid IH]] using rev_ind.
    - exists []. split_and!; try done; cbn; [apply Forall_nil_2|lia|lia|by intros []].
    - rewrite foldl_app, concat_app. cbn [foldl concat]. rewrite app_nil_r. by eapply push_holds. }
  destruct H as (mid & HT & Hd & Hh & Htc & Hp & Hl & Hhl & Htl & Hfull & Hmid). exists mid. split_and!; [done| |lia|].
  - unfold finish_capped. rewrite Hd. destruct mid as [|x mid]; [done|]. cbn [is_empty blen]. pose proof (utf8_len_bound x).
    by replace (0 <? utf8_len x + blen mid)%N with true by lia.
  - intros Hne. specialize (Hfull (or_intror Hne)). specialize (Hmid Hne). lia.
Qed.

(** * Encoded text *)

Lemma continuation_byte b : (128 <= b < 192)%N -> is_continuation b = true.
Proof.
  intros H. assert (Hall : forallb is_continuation (map N.of_nat (seq 128 64)) = true) by (vm_compute; reflexivity).
  apply (forallb_In _ _ b) in Hall; [done|]. apply in_map_iff. exists (N.to_nat b). split; [lia|]. apply in_seq. lia.
Qed.

Lemma leading_byte b : (b < 128 \/ 192 <= b < 256)%N -> is_continuation b = false.
Proof.
  intros H. assert (Hall : forallb (fun b => negb (is_continuation b)) (map N.of_nat (seq 0 128 ++ seq 192 64)) = true) by (vm_compute; reflexivity).
  apply (forallb_In _ _ b) in Hall; [by apply negb_true_iff in Hall|]. apply in_map_iff. exists (N.to_nat b). split; [lia|].
  apply in_app_iff. rewrite !in_seq. lia.
Qed.

Lemma encoded_char c :
  is_char c = true ->
  exists b rest, utf8_encode c = b :: rest /\ is_continuation b = false /\ forallb is_continuation rest = true
    /\ (length rest <= 3)%nat /\ utf8_len c = nbytes (b :: rest).
Proof.
  unfold is_char, in_range. intros Hc. unfold utf8_encode, utf8_len, nbytes. assert (Hm : forall x, (x mod 64 < 64)%N) by (intros x; by apply N.mod_lt).
  pose proof (Hm c) as H0. pose proof (Hm (c / 64)%N) as H1. pose proof (Hm (c / 4096)%N) as H2.
  assert (c / 64 < 32 \/ 2048 <= c)%N by (destruct (N.le_gt_cases 2048 c); [by right|left; by apply N.Div0.div_lt_upper_bound]).
  assert (c / 4096 < 16 \/ 65536 <= c)%N by (destruct (N.le_gt_cases 65536 c); [by right|left; by apply N.Div0.div_lt_upper_bound]).
  assert (c / 262144 < 5)%N by (apply N.Div0.div_lt_upper_bound; lia).
  destruct (N.ltb_spec c 128); [|destruct (N.ltb_spec c 2048); [|destruct (N.ltb_spec c 65536)]]; eexists _, _;
    (split_and!; [reflexivity|apply leading_byte; lia| |cbn; lia|reflexivity]); cbn [forallb]; rewrite ?continuation_byte by lia; done.
Qed.

Lemma nbytes_app a b : nbytes (a ++ b) = (nbytes a + nbytes b)%N.
Proof. unfold nbytes. rewrite length_app. lia. Qed.

Lemma as_bytes_app a b : as_bytes (a ++ b) = as_bytes a ++ as_bytes b.
Proof. apply flat_map_app. Qed.

Lemma nbytes_text t : forallb is_char t = true -> nbytes (as_bytes t) = blen t.
Proof.
  induction t as [|c t IH]; [done|]. cbn [forallb]. intros [Hc Ht]%andb_prop. change (as_bytes (c :: t)) with (utf8_encode c ++ as_bytes t).
  destruct (encoded_char c Hc) as (b & rest & E & _ & _ & _ & Hl). rewrite nbytes_app, IH by done. cbn [blen]. by rewrite Hl, E.
Qed.

(** Encoded text does not start inside a char. *)
Lemma text_starts t : forallb is_char t = true -> match as_bytes t with b :: _ => is_continuation b = false | [] => True end.
Proof.
  destruct t as [|c t]; [done|]. cbn [forallb]. intros [Hc _]%andb_prop. change (as_bytes (c :: t)) with (utf8_encode c ++ as_bytes t).
  by destruct (encoded_char c Hc) as (b & rest & -> & Hb & _).
Qed.

Lemma decode_skips part t :
  forallb is_char t = true -> forallb is_continuation part = true -> (length part <= 3)%nat -> decode_ring (part ++ as_bytes t) = t.
Proof.
  intros Ht Hp Hl. unfold decode_ring. assert (E : take_while is_continuation (take 3 (part ++ as_bytes t)) = part).
  { pose proof (text_starts t Ht) as Hs.
    destruct part as [|a [|b [|c [|? ?]]]]; cbn in Hl; try lia; cbn in Hp |- *; bool_hyps; repeat match goal with H : is_continuation _ = true |- _ => rewrite H; clear H end;
      destruct (as_bytes t); cbn; rewrite ?Hs; done. }
  rewrite E, drop_app_length. by apply lossy_round_trip.
Qed.

(** Any end of an encoded text is read as the text from its first whole char. *)
Lemma decode_suffix t k :
  forallb is_char t = true -> (k <= length (as_bytes t))%nat ->
  exists lost shown, t = lost ++ shown /\ decode_ring (drop k (as_bytes t)) = shown
    /\ (N.of_nat k <= blen lost <= N.of_nat k + 3)%N /\ (k = 0%nat -> lost = []).
Proof.
  revert k; induction t as [|c t IH]; intros k Hc Hk.
  { exists [], []. cbn in Hk. replace k with 0%nat by lia. split_and!; done || cbn; lia. }
  cbn [forallb] in Hc. apply andb_prop in Hc as [Hc Ht]. pose proof Hc as Hc'.
  apply encoded_char in Hc as (b & rest & E & Hb & Hr & Hl & Hlen). change (as_bytes (c :: t)) with (utf8_encode c ++ as_bytes t) in *.
  destruct k as [|k].
  { exists [], (c :: t). split_and!; try done; [|cbn; lia..]. change (utf8_encode c ++ as_bytes t) with ([] ++ as_bytes (c :: t)). rewrite drop_0.
    apply decode_skips; [|done|cbn; lia]. cbn. by rewrite Hc'. }
  rewrite E in *. destruct (Nat.le_gt_cases (length (b :: rest)) (S k)) as [Hge|Hlt].
  - destruct (IH (S k - length (b :: rest))%nat Ht) as (lost & shown & -> & Hd & Hb' & _); [rewrite length_app in Hk; lia|].
    exists (c :: lost), shown. rewrite drop_app_ge by lia. split_and!; try done; cbn [blen]; rewrite Hlen; unfold nbytes; lia.
  - exists [c], t. rewrite drop_app_le by lia. cbn [drop]. split_and!; try done.
    + apply decode_skips; [done| |rewrite length_drop; lia]. rewrite <- (take_drop k rest), forallb_app in Hr. by apply andb_prop in Hr as [_ Hr].
    + cbn [blen length] in *. unfold nbytes in Hlen. cbn [length] in Hlen. lia.
    + cbn [blen length] in *. unfold nbytes in Hlen. cbn [length] in Hlen. lia.
Qed.

(** * Background jobs *)

(** The ring after the bytes [bs] were pushed. *)
Definition ring_of (cap : N) (bs : list N) (r : OutputRing) : Prop :=
  ring_cap r = cap /\ ring_start r = (nbytes bs - cap)%N /\ ring_buf r = drop (N.to_nat (nbytes bs - cap)) bs.

Lemma ring_push_of cap bs r x : ring_of cap bs r -> ring_of cap (bs ++ x) (ring_push x r).
Proof.
  intros (Hc & Hs & Hb). unfold ring_push, ring_of. rewrite Hc, Hs, Hb. set (k := N.to_nat (nbytes bs - cap)).
  assert (Hk : (k <= length bs)%nat) by (unfold k, nbytes; lia). assert (Hn : nbytes (drop k bs ++ x) = (nbytes bs - (nbytes bs - cap) + nbytes x)%N).
  { rewrite nbytes_app. unfold nbytes at 1. rewrite length_drop. unfold k, nbytes. lia. }
  rewrite Hn, nbytes_app. destruct (N.ltb_spec 0 (nbytes bs - (nbytes bs - cap) + nbytes x - cap)) as [H|H]; cbn [ring_cap ring_start ring_buf].
  - split_and!; [done|lia|]. rewrite <- (drop_app_le bs x k Hk), drop_drop. f_equal. unfold k. lia.
  - split_and!; [done|lia|]. rewrite <- (drop_app_le bs x k Hk). f_equal. unfold k. lia.
Qed.

Lemma ring_end_of cap bs r : ring_of cap bs r -> ring_end r = nbytes bs.
Proof. intros (_ & Hs & Hb). unfold ring_end. rewrite Hs, Hb. unfold nbytes at 2. rewrite length_drop. unfold nbytes. lia. Qed.

(** Reading from a boundary gives the end of the text after it. *)
Lemma read_from_of cap T u r :
  forallb is_char (T ++ u) = true -> ring_of cap (as_bytes (T ++ u)) r ->
  exists lost shown d, u = lost ++ shown /\ read_from (blen T) r = (shown, d)
    /\ (d <= blen lost <= d + 3)%N /\ (blen u <= cap -> lost = []).
Proof.
  intros Hc Hr. pose proof (ring_end_of _ _ _ Hr) as He. destruct Hr as (Hcap & Hs & Hb). unfold read_from.
  rewrite He, Hs, Hb, as_bytes_app, nbytes_app in *. pose proof Hc as HcT. rewrite forallb_app in HcT. apply andb_prop in HcT as [HcT Hcu].
  rewrite !nbytes_text by done. set (start := (blen T + blen u - cap)%N).
  replace (N.min (N.max (blen T) start) (blen T + blen u)) with (N.max (blen T) start) by (unfold start; lia).
  rewrite drop_drop. replace (N.to_nat start + N.to_nat (N.max (blen T) start - start))%nat with (length (as_bytes T) + N.to_nat (start - blen T))%nat.
  2:{ assert (N.of_nat (length (as_bytes T)) = blen T) by (by rewrite <- nbytes_text). lia. }
  rewrite drop_app_add. destruct (decode_suffix u (N.to_nat (start - blen T)) Hcu) as (lost & shown & E & Hd & Hl & H0).
  { assert (N.of_nat (length (as_bytes u)) = blen u) by (by rewrite <- nbytes_text). unfold start. lia. }
  exists lost, shown, (N.max (blen T) start - blen T)%N. rewrite Hd. split_and!; [done|done|lia|lia|].
  intros Hle. apply H0. unfold start. lia.
Qed.

(** The operations on a job: output, reads, a request to kill it, its end. *)
Inductive JobOp := OpAppend (t : text) | OpRead (filter_ : option (text -> bool)) | OpKill | OpFinish (status : option (option Z)) (now : N).

Definition job_op (o : JobOp) (s : JobState) : JobState * list JobRead :=
  match o with
  | OpAppend t => (append_output t s, [])
  | OpRead f => let '(s, r) := read_new f s in (s, [r])
  | OpKill => (fst (request_kill s), [])
  | OpFinish status now => (finish_job status now s, [])
  end.

Fixpoint job_run (ops : list JobOp) (s : JobState) : list JobRead :=
  match ops with
  | [] => []
  | o :: ops => let '(s, rs) := job_op o s in rs ++ job_run ops s
  end.

(** The output between two reads, with the filter of the second one. *)
Fixpoint between_reads (unread : text) (ops : list JobOp) : list (text * option (text -> bool)) :=
  match ops with
  | [] => []
  | OpAppend t :: ops => between_reads (unread ++ t) ops
  | OpRead f :: ops => (unread, f) :: between_reads [] ops
  | _ :: ops => between_reads unread ops
  end.

Definition output_of (ops : list JobOp) : text := concat (map (fun o => match o with OpAppend t => t | _ => [] end) ops).

Definition reads_end_of (cap : N) (part : text * option (text -> bool)) (r : JobRead) : Prop :=
  exists lost shown, fst part = lost ++ shown /\ read_output r = filtered (snd part) shown
    /\ (read_dropped r <= blen lost <= read_dropped r + 3)%N /\ (blen (fst part) <= cap -> lost = []).

Lemma job_run_reads cap T u ops s :
  ring_of cap (as_bytes (T ++ u)) (job_ring s) -> job_cursor s = blen T -> forallb is_char (T ++ u ++ output_of ops) = true ->
  Forall2 (reads_end_of cap) (between_reads u ops) (job_run ops s).
Proof.
  revert T u s; induction ops as [|o ops IH]; intros T u s Hr Hcur Hc; [constructor|]. cbn [job_run between_reads].
  assert (HTu : forallb is_char (T ++ u) = true) by (rewrite app_assoc, forallb_app in Hc; by apply andb_prop in Hc as [Hc _]).
  destruct o as [t|f| |status now]; cbn [job_op]; unfold output_of in Hc; cbn [map concat] in Hc.
  - apply (IH T (u ++ t)); [|done|by rewrite <- app_assoc]. cbn [append_output job_ring]. rewrite app_assoc, as_bytes_app. by apply ring_push_of.
  - destruct (read_from_of cap T u (job_ring s) HTu Hr) as (lost & shown & d & E & Hread & Hd & H0). unfold read_new. rewrite Hcur, Hread. cbn [app].
    constructor; [by exists lost, shown|]. apply (IH (T ++ u) []); cbn [job_ring job_cursor]; [by rewrite app_nil_r| |by rewrite <- app_assoc].
    rewrite (ring_end_of _ _ _ Hr). by apply nbytes_text.
  - unfold request_kill. destruct (job_is_terminal _); by apply (IH T u).
  - by apply (IH T u).
Qed.

(** C27: the readers of a background job get all its output, once.  Whatever
    else happens to the job, each read gives exactly the end of what was
    written since the read before it - the lines its filter matches - and the
    count of what the history had already overwritten, to within the one char
    cut in two; nothing is missing unless more was written than the history
    holds. *)
Theorem job_reads_account (cap : N) (ops : list JobOp) :
  forallb is_char (output_of ops) = true ->
  Forall2 (reads_end_of cap) (between_reads [] ops) (job_run ops (new_job cap)).
Proof. intros Hc. by apply (job_run_reads cap [] []). Qed.

(** * Lines *)

Definition no_newline (bs : list N) : Prop := NEWLINE ∉ bs.

Lemma newline_found bs :
  match list_find (eq NEWLINE) bs with
  | Some (pos, _) => exists a b, bs = a ++ NEWLINE :: b /\ no_newline a /\ pos = length a
  | None => no_newline bs
  end.
Proof.
  destruct (list_find _ bs) as [[pos x]|] eqn:E.
  - apply list_find_Some in E as (Hx & <- & Hall). exists (take pos bs), (drop (S pos) bs). split_and!.
    + symmetry. by apply take_drop_middle.
    + intros Hin. apply list_elem_of_lookup in Hin as [i Hi]. apply lookup_take_Some in Hi as [Hi Hlt]. by apply (Hall i NEWLINE).
    + rewrite length_take_le; [done|]. apply lookup_lt_Some in Hx. lia.
  - intros Hin. apply list_find_None in E. rewrite Forall_forall in E. by apply (E NEWLINE).
Qed.

Lemma pieces_line a b : no_newline a -> split_inclusive (a ++ NEWLINE :: b) = (a ++ [NEWLINE]) :: split_inclusive b.
Proof.
  intros Ha. induction a as [|c a IH]; [done|]. apply not_elem_of_cons in Ha as [Hc Ha]. cbn [app split_inclusive].
  rewrite IH by done. by destruct (N.eqb_spec c NEWLINE) as [->|].
Qed.

Lemma pieces_rest a : no_newline a -> split_inclusive a = finish_lines a.
Proof.
  intros Ha. induction a as [|c a IH]; [done|]. apply not_elem_of_cons in Ha as [Hc Ha]. cbn [split_inclusive]. rewrite IH by done.
  destruct (N.eqb_spec c NEWLINE) as [->|]; [done|]. by destruct a.
Qed.

Lemma newline_loop_spec fuel bs :
  (length bs <= fuel)%nat ->
  exists ls rest, newline_loop fuel bs = (ls, rest) /\ bs = concat ls ++ rest /\ no_newline rest
    /\ forall x, split_inclusive (bs ++ x) = ls ++ split_inclusive (rest ++ x).
Proof.
  revert bs; induction fuel as [|fuel IH]; intros bs Hf.
  { destruct bs; [|cbn in Hf; lia]. exists [], []. split_and!; try done. apply not_elem_of_nil. }
  cbn [newline_loop]. pose proof (newline_found bs) as H. destruct (list_find _ bs) as [[pos c]|].
  - destruct H as (a & b & -> & Ha & ->). rewrite !cons_middle, app_assoc.
    assert (Hl : S (length a) = length (a ++ [NEWLINE])) by (rewrite length_app; cbn; lia). rewrite Hl, drop_app_length, take_app_length.
    destruct (IH b) as (ls & rest & -> & -> & Hr & Hx); [rewrite length_app in Hf; cbn in Hf; lia|]. exists ((a ++ [NEWLINE]) :: ls), rest.
    split_and!; [done|cbn [concat]; by rewrite <- !app_assoc|done|]. intros x. cbn [app]. rewrite <- Hx, <- !app_assoc. cbn [app]. by apply pieces_line.
  - exists [], bs. by split_and!.
Qed.

Lemma char_boundary_positive bs limit : (0 < limit)%nat -> (0 < length bs)%nat -> (0 < char_boundary bs limit)%nat.
Proof.
  intros H Hb. unfold char_boundary. destruct (Nat.leb _ _); [done|]. by destruct (cut_loop bs limit); lia.
Qed.

Lemma cut_loop_le bs cut : (cut_loop bs cut <= cut)%nat.
Proof.
  induction cut as [|cut IH]; [done|]. cbn [cut_loop]. destruct (bs !! S cut) as [b|]; [|done]. destruct (is_continuation b); lia.
Qed.

Lemma char_boundary_le bs limit : (char_boundary bs limit <= Nat.max limit (length bs))%nat.
Proof.
  unfold char_boundary. pose proof (cut_loop_le bs limit). destruct (Nat.leb _ _); [lia|]. destruct (cut_loop bs limit); lia.
Qed.

Lemma overlong_loop_spec fuel limit bs :
  (0 < limit)%nat -> (length bs <= fuel)%nat ->
  exists ls rest, overlong_loop fuel limit bs = (ls, rest) /\ bs = concat ls ++ rest /\ (length rest < limit)%nat
    /\ ((length bs < limit)%nat -> ls = []).
Proof.
  intros Hl. revert bs; induction fuel as [|fuel IH]; intros bs Hf.
  { destruct bs; [|cbn in Hf; lia]. exists [], []. by split_and!. }
  cbn [overlong_loop]. destruct (Nat.leb_spec limit (length bs)) as [Hle|Hgt]; [|exists [], bs; by split_and!].
  pose proof (char_boundary_positive bs limit Hl ltac:(lia)) as Hp.
  destruct (IH (drop (char_boundary bs limit) bs)) as (ls & rest & -> & E & Hr & _); [rewrite length_drop; lia|].
  exists (take (char_boundary bs limit) bs :: ls), rest. split_and!; [done| |done|lia]. cbn [concat]. by rewrite <- app_assoc, <- E, take_drop.
Qed.

(** The bytes a pipe gives before its end. *)
Fixpoint data_of (reads : list PipeRead) : list N :=
  match reads with
  | [] | PipeData [] :: _ | PipeFailed :: _ => []
  | PipeInterrupted :: reads => data_of reads
  | PipeData bytes_ :: reads => bytes_ ++ data_of reads
  end.

Definition short (limit : nat) (ls : list (list N)) : Prop := Forall (fun l => (length l < limit)%nat) ls.

Lemma pump_lines limit reads pending :
  (0 < limit)%nat -> no_newline pending ->
  concat (pump limit reads pending) = pending ++ data_of reads
  /\ (short limit (split_inclusive (pending ++ data_of reads)) ->
      pump limit reads pending = split_inclusive (pending ++ data_of reads)).
Proof.
  intros Hl. assert (Hend : forall pending, no_newline pending -> concat (finish_lines pending) = pending ++ []
    /\ (short limit (split_inclusive (pending ++ [])) -> finish_lines pending = split_inclusive (pending ++ []))).
  { intros p Hp. rewrite app_nil_r, pieces_rest by done. split; [|done]. destruct p; [done|]. cbn. by rewrite app_nil_r. }
  revert pending; induction reads as [|r reads IH]; intros pending Hp; [by apply Hend|]. destruct r as [[|b bytes_]| |]; cbn [pump data_of]; try (by apply Hend); [|by apply IH].
  set (bs := b :: bytes_). unfold push_bytes. destruct (newline_loop_spec (length (pending ++ bs)) (pending ++ bs)) as (ls & rest & -> & E & Hr & Hx); [done|].
  destruct (overlong_loop_spec (length rest) limit rest Hl) as (cut & rest' & -> & E' & Hr' & Hc); [done|].
  assert (Hp' : no_newline rest') by (intros Hin; apply Hr; rewrite E'; apply elem_of_app; by right). destruct (IH rest' Hp') as [H1 H2]. split.
  - rewrite concat_app, H1, concat_app, !app_assoc. f_equal. by rewrite <- app_assoc, <- E', E.
  - rewrite app_assoc, Hx. intros [Hls Hrest]%Forall_app. destruct cut as [|c cut].
    + cbn [concat app] in E'. subst rest'. rewrite app_nil_r. f_equal. by apply H2.
    + exfalso. assert (Hsmall : (length rest < limit)%nat); [|by specialize (Hc Hsmall)].
      assert (Hin : exists p, p ∈ split_inclusive (rest ++ data_of reads) /\ (length rest <= length p)%nat).
      { pose proof (newline_found (data_of reads)) as Hd. destruct (list_find _ (data_of reads)) as [[pos x]|].
        - destruct Hd as (a & d & -> & Ha & _). rewrite app_assoc, pieces_line; [|by intros [|]%elem_of_app]. eexists. split; [by left|]. rewrite !length_app. lia.
        - rewrite pieces_rest; [|by intros [|]%elem_of_app]. destruct (rest ++ data_of reads) as [|y l] eqn:Ey.
          + destruct rest; [|done]. by specialize (Hc Hl).
          + eexists. split; [by left|]. rewrite <- Ey, length_app. lia. }
      destruct Hin as (p & Hin & Hle). rewrite Forall_forall in Hrest. specialize (Hrest p Hin). cbn in Hrest. lia.
Qed.

(** A text is cut at its newlines as its bytes are. *)
Lemma pieces_bytes t : split_inclusive (as_bytes t) = map as_bytes (split_inclusive t).
Proof.
  induction t as [|c t IH]; [done|]. change (as_bytes (c :: t)) with (utf8_encode c ++ as_bytes t). cbn [split_inclusive].
  destruct (N.eqb_spec c NEWLINE) as [->|Hc].
  { change (utf8_encode NEWLINE ++ as_bytes t) with (NEWLINE :: as_bytes t). cbn [split_inclusive]. rewrite N.eqb_refl, IH. done. }
  assert (Hn : no_newline (utf8_encode c)) by (intros Hin; by apply encoded_byte in Hin).
  assert (Happ : forall a l, no_newline a -> a <> [] ->
    split_inclusive (a ++ l) = match split_inclusive l with p :: ps => (a ++ p) :: ps | [] => [a] end).
  { clear. intros a l Ha Hne. induction a as [|x a IHa]; [done|]. apply not_elem_of_cons in Ha as [Hx Ha]. cbn [app split_inclusive].
    destruct (N.eqb_spec x NEWLINE) as [->|_]; [done|]. destruct a as [|y a]; [cbn [app]; by destruct (split_inclusive l)|].
    rewrite IHa by done. by destruct (split_inclusive l). }
  rewrite Happ, IH; [destruct (split_inclusive t); cbn; by rewrite ?app_nil_r|done|unfold utf8_encode; by repeat case_match].
Qed.

(** A pipe's lines are its output.  However the pipe is cut into reads, the
    bytes of the lines are the bytes it gave before its end, in order; and
    unless a line reaches the limit, the sink gets exactly the lines of the
    text, chars whole. *)
Theorem pumped_lines_exact (reads : list PipeRead) :
  concat (pump (N.to_nat MAX_LINE_BYTES) reads []) = data_of reads
  /\ forall t, data_of reads = as_bytes t -> forallb is_char t = true ->
       Forall (fun l => (blen l < MAX_LINE_BYTES)%N) (split_inclusive t) -> pumped reads = split_inclusive t.
Proof.
  assert (Hl : (0 < N.to_nat MAX_LINE_BYTES)%nat) by (apply Nat.ltb_lt; by vm_compute).
  destruct (pump_lines (N.to_nat MAX_LINE_BYTES) reads [] Hl) as [H1 H2]; [apply not_elem_of_nil|]. split; [done|].
  intros t Ed Hc Ht. cbn [app] in H2. unfold pumped. rewrite Ed, pieces_bytes in H2.
  assert (Hall : Forall (fun l => forallb is_char l = true) (split_inclusive t)).
  { clear -Hc. induction t as [|c t IH]; [constructor|]. cbn [forallb] in Hc. apply andb_prop in Hc as [Hc Ht]. specialize (IH Ht). cbn [split_inclusive].
    destruct (c =? NEWLINE)%N; [constructor; [cbn; by rewrite Hc|done]|]. destruct (split_inclusive t); [repeat constructor; cbn; by rewrite Hc|].
    apply Forall_cons in IH as [H1 H2]. constructor; [cbn; by rewrite Hc|done]. }
  rewrite H2.
  - rewrite map_map. clear -Hall. induction Hall as [|l ls Hl _ IH]; [done|]. cbn [map]. rewrite IH. f_equal. by apply lossy_round_trip.
  - unfold short. rewrite Forall_map. eapply Forall_impl; [apply Forall_and; exact (conj Ht Hall)|]. cbn. intros l [Hb Hch]. rewrite <- (nbytes_text l Hch) in Hb.
    unfold nbytes in Hb. lia.
Qed.

Lemma newline_loop_none fuel bs : no_newline bs -> newline_loop fuel bs = ([], bs).
Proof.
  intros Hn. destruct fuel as [|fuel]; [done|]. cbn [newline_loop]. pose proof (newline_found bs) as H. destruct (list_find _ bs) as [[pos c]|]; [|done].
  destruct H as (a & b & -> & _). exfalso. apply Hn, elem_of_app. right. by left.
Qed.

Lemma push_short limit x pending :
  no_newline (pending ++ x) -> (length (pending ++ x) < limit)%nat -> push_bytes limit x pending = ([], pending ++ x).
Proof.
  intros Hn Hl. unfold push_bytes. rewrite newline_loop_none by done.
  destruct (overlong_loop_spec (length (pending ++ x)) limit (pending ++ x)) as (cut & rest' & -> & E' & _ & Hc); [lia|done|].
  rewrite (Hc Hl) in *. cbn in E'. by subst.
Qed.

Lemma push_full limit x pending :
  no_newline (pending ++ x) -> length (pending ++ x) = limit -> (0 < limit)%nat -> push_bytes limit x pending = ([pending ++ x], []).
Proof.
  intros Hn Hl H0. unfold push_bytes. rewrite newline_loop_none by done. rewrite <- Hl in H0 |- *. destruct (length (pending ++ x)) as [|n] eqn:El; [lia|].
  cbn [overlong_loop]. rewrite El, Nat.leb_refl. unfold char_boundary. rewrite El, Nat.leb_refl. rewrite <- El, firstn_all, skipn_all, El.
  by destruct n.
Qed.

Lemma pump_fills limit chunks pending after :
  Forall (fun c => c <> []) chunks -> chunks <> [] -> no_newline (pending ++ concat chunks) ->
  length (pending ++ concat chunks) = limit ->
  pump limit (map PipeData chunks ++ after) pending = (pending ++ concat chunks) :: pump limit after [].
Proof.
  intros Hne. revert pending; induction Hne as [|c chunks Hc Hne IH]; intros pending; [done|]. intros _ Hn Hl. cbn [map app pump].
  destruct c as [|b c]; [done|]. cbn [concat] in *. rewrite app_assoc in *. destruct chunks as [|c2 chunks].
  - cbn [concat map app] in *. rewrite app_nil_r in *. rewrite push_full; [done..|]. rewrite <- Hl, !length_app. cbn. lia.
  - rewrite push_short.
    + cbn [app]. apply IH; done.
    + intros Hin. apply Hn, elem_of_app. by left.
    + rewrite <- Hl, (length_app _ (concat _)). inversion Hne as [|? ? Hc2 _]. subst. cbn [concat]. rewrite !length_app. destruct c2; [done|]. cbn [length]. lia.
Qed.

Lemma lossy_app t bs : forallb is_char t = true -> from_utf8_lossy (as_bytes t ++ bs) = t ++ from_utf8_lossy bs.
Proof.
  induction t as [|c t IH]; [done|]. cbn [forallb]. intros [Hc Ht]%andb_prop. change (as_bytes (c :: t)) with (utf8_encode c ++ as_bytes t).
  rewrite <- app_assoc, lossy_char, IH by done. done.
Qed.

(** A char at the limit can be lost.  When the reads of a stream without
    newlines fill a line up to the limit exactly and the last of them ends
    inside a char (here the first byte of a three-byte one), the line is cut
    there: [char_boundary] takes all that is pending without looking for a
    boundary, and the two parts of the char are decoded apart. *)
Lemma char_split_at_limit (t : text) (chunks : list (list N)) :
  forallb is_char t = true -> NEWLINE ∉ t -> (blen t + 1 = MAX_LINE_BYTES)%N ->
  Forall (fun c => c <> []) chunks -> concat chunks = as_bytes t ++ [226%N] ->
  let reads := map PipeData chunks ++ [PipeData [130%N; 172%N]] in
  data_of reads = as_bytes (t ++ [8364%N]) /\ pumped reads = [t ++ [REPLACEMENT]; [REPLACEMENT; REPLACEMENT]].
Proof.
  intros Hc Hn Hl Hne Ec reads. assert (Hdata : forall cs after, Forall (fun c => c <> []) cs -> data_of (map PipeData cs ++ after) = concat cs ++ data_of after).
  { clear. induction 1 as [|c cs Hc _ IH]; [done|]. cbn [map app data_of concat]. destruct c; [done|]. by rewrite IH, <- app_assoc. }
  split; [unfold reads; rewrite Hdata, Ec, as_bytes_app, <- app_assoc by done; done|].
  unfold pumped, reads. rewrite pump_fills; [|done|by intros ->; destruct (as_bytes t)| |]; cbn [app]; rewrite Ec.
  - cbn [map]. unfold emit at 1. rewrite lossy_app by done. reflexivity.
  - intros [Hin|Hin]%elem_of_app; [|by apply list_elem_of_singleton in Hin]. unfold as_bytes in Hin. rewrite list_elem_of_In, in_flat_map in Hin.
    destruct Hin as (c & Hin & Hb). apply list_elem_of_In, encoded_byte in Hb as <-; [|done]. by apply Hn, list_elem_of_In.
  - pose proof (nbytes_text t Hc) as Hb. rewrite length_app. cbn [length]. unfold nbytes in Hb. lia.
Qed.

(** * Results within the budget *)

Lemma slice_of_app a b : slice (blen a) (a ++ b) = Some (a, b).
Proof. unfold slice. by rewrite split_at_byte_app, N.eqb_refl. Qed.

Lemma slice_take n t : slice (byte_at t n) t = Some (take n t, drop n t).
Proof. unfold byte_at. rewrite <- (take_drop n t) at 2. apply slice_of_app. Qed.

Lemma split_on_pieces c t : split_on c t <> [].
Proof. destruct t as [|x t]; cbn; [done|]. destruct (x =? c)%N; [done|]. by destruct (split_on c t). Qed.

Lemma split_on_last c t :
  match split_on c t with
  | [_] => True
  | pieces => exists before, t = before ++ c :: List.last pieces []
  end.
Proof.
  induction t as [|x t IH]; [done|]. cbn [split_on]. destruct (N.eqb_spec x c) as [->|Hx].
  - destruct (split_on c t) as [|p [|q ps]] eqn:E; [by apply split_on_pieces in E| |].
    + assert (p = t) as ->; [|by exists []]. clear -E. revert p E; induction t as [|y t IH]; intros p; cbn; [by intros [= <-]|].
      destruct (y =? c)%N; [intros [= <- E]; by apply split_on_pieces in E|]. destruct (split_on c t) as [|q qs] eqn:E; [by apply split_on_pieces in E|]. intros [= <- ->]. f_equal. by apply IH.
    + destruct IH as [before ->]. by exists (c :: before).
  - destruct (split_on c t) as [|p [|q ps]] eqn:E; [by apply split_on_pieces in E|done|]. destruct IH as [before ->]. by exists (x :: before).
Qed.

Lemma snap_head_prefix t n : exists a b, take n t = a ++ b /\ snap_head t (byte_at t n) = Some (blen a).
Proof.
  unfold snap_head. rewrite slice_take. cbn [mbind option_bind]. unfold rfind_newline. pose proof (split_on_last NEWLINE (take n t)) as H.
  assert (Hkeep : exists a b, take n t = a ++ b /\ Some (byte_at t n) = Some (blen a)) by (exists (take n t), []; by rewrite app_nil_r).
  destruct (split_on NEWLINE (take n t)) as [|p [|q ps]] eqn:E; [by apply split_on_pieces in E|done|].
  destruct (_ <=? _)%N; [|done]. destruct H as [before H]. set (after := List.last _ _) in *. exists (before ++ [NEWLINE]), after. split; [by rewrite <- app_assoc|].
  rewrite H, !blen_app. cbn [blen]. change (utf8_len NEWLINE) with 1%N. f_equal. lia.
Qed.

Lemma snap_tail_suffix t n : exists a b, drop n t = a ++ b /\ snap_tail t (byte_at t n) = Some (blen (take n t ++ a)).
Proof.
  unfold snap_tail. rewrite slice_take. cbn [mbind option_bind]. unfold find_newline.
  assert (Hkeep : exists a b, drop n t = a ++ b /\ Some (byte_at t n) = Some (blen (take n t ++ a))) by (exists [], (drop n t); by rewrite app_nil_r).
  destruct (split_once [NEWLINE] (drop n t)) as [[before after]|] eqn:E; [|done]. destruct (_ <? _)%N; [|done]. apply split_once_app in E.
  exists (before ++ [NEWLINE]), after. split; [by rewrite E, <- app_assoc|]. unfold byte_at. rewrite !blen_app. cbn [blen]. change (utf8_len NEWLINE) with 1%N. f_equal. lia.
Qed.

Lemma common_prefix {A} (a b c d : list A) : a ++ b = c ++ d -> (length a <= length c)%nat -> exists m, c = a ++ m.
Proof.
  intros E Hl. exists (drop (length a) c). rewrite <- (take_drop (length a) c) at 1. f_equal.
  by rewrite <- (take_app_le c d), <- E, take_app_length.
Qed.

(** A result that is cut keeps both ends and says what is missing.  A text
    within the budget is unchanged; of a longer one the start and the end are
    kept, together at most the budget, with the exact number of chars between
    them, the whole text being spilled first; no slice is ever cut inside a
    char. *)
Theorem truncation_exact (t : text) (max_chars : nat) (spill : text -> option text) :
  ((length t <= max_chars)%nat -> truncate_with t max_chars spill = Some t)
  /\ ((max_chars < length t)%nat ->
      exists head middle tail, t = head ++ middle ++ tail
        /\ truncate_with t max_chars spill = Some (head ++ truncation_marker (spill t) middle (length t) ++ tail)
        /\ (length head + length tail <= Nat.max 2 max_chars)%nat /\ ((2 <= max_chars)%nat -> middle <> [])).
Proof.
  unfold truncate_with. split; intros H; [by rewrite (proj2 (Nat.leb_le _ _) H)|]. rewrite (proj2 (Nat.leb_gt _ _) H).
  set (budget := Nat.max 2 _). set (hc := Nat.div budget 2). assert (Hb : (2 <= budget <= Nat.max 2 max_chars)%nat) by lia.
  assert (Hh : (0 < hc < budget)%nat) by (unfold hc; split; [apply Nat.div_str_pos; lia|apply Nat.div_lt; lia]).
  destruct (snap_head_prefix t hc) as (a & b & Ea & ->). destruct (snap_tail_suffix t (length t - (budget - hc))) as (c & d & Ec & ->).
  cbn [mbind option_bind]. set (k := (length t - (budget - hc))%nat) in *.
  assert (Et : t = a ++ b ++ drop hc t) by by rewrite app_assoc, <- Ea, take_drop.
  assert (Ha : (length a <= hc)%nat) by (apply (f_equal length) in Ea; rewrite length_take, length_app in Ea; lia).
  assert (Hrest : exists middle tail, b ++ drop hc t = middle ++ tail /\ blen (a ++ middle) = N.max (blen (take k t ++ c)) (blen a)
                    /\ (length tail <= budget - hc)%nat).
  { destruct (Nat.le_gt_cases (length a) (length (take k t ++ c))) as [Hle|Hgt].
    - assert (Es : t = (take k t ++ c) ++ d) by by rewrite <- app_assoc, <- Ec, take_drop.
      assert (Hp : exists m, take k t ++ c = a ++ m) by (apply (common_prefix a (b ++ drop hc t) _ d); [congruence|done]).
      destruct Hp as [m Em]. exists m, d. split_and!.
      + apply (app_inv_head a). rewrite <- Et, app_assoc, <- Em. exact Es.
      + rewrite Em, blen_app. lia.
      + apply (f_equal length) in Es. apply (f_equal length) in Ec. rewrite length_drop, length_app in Ec. unfold k in Ec. lia.
    - exists [], (b ++ drop hc t). rewrite app_nil_r. split_and!; [done| |].
      + assert (Es : t = (take k t ++ c) ++ d) by by rewrite <- app_assoc, <- Ec, take_drop.
        assert (Hp : exists m, a = (take k t ++ c) ++ m) by (apply (common_prefix _ d a (b ++ drop hc t)); [congruence|lia]).
        destruct Hp as [m ->]. rewrite !blen_app. lia.
      + rewrite length_app in Hgt. rewrite length_take in Hgt. apply (f_equal length) in Et. rewrite length_app in Et. unfold k in Hgt. lia. }
  destruct Hrest as (middle & tail & Em & Hm & Hl). rewrite <- Hm. exists a, middle, tail. rewrite <- Em. split_and!; [done| |lia|].
  - rewrite Et at 1. rewrite slice_of_app. cbn [mbind option_bind]. rewrite Em, blen_app. replace (blen a + blen middle - blen a)%N with (blen middle) by lia.
    by rewrite slice_of_app.
  - intros H2 ->. apply (f_equal length) in Et. rewrite Em in Et. cbn [app] in Et. rewrite length_app in Et. lia.
Qed.

(** * Examples *)

Definition one_line : text := str "line" ++ [NEWLINE].

Lemma capture_keeps_ends_witness :
  exists mid, concat (repeat one_line 8) = (one_line ++ one_line) ++ mid ++ one_line ++ one_line /\ mid <> [].
Proof.
  destruct (capture_keeps_ends 20 (repeat one_line 8)) as (mid & H & Hf & _); [by vm_compute|]. exists mid. split; [exact H|].
  intros ->. vm_compute in Hf. discriminate Hf.
Defined.

(** A history of eight bytes: ten are written before the first read. *)
Definition job_ops : list JobOp := [OpAppend (str "0123456789"); OpRead None; OpAppend (str "ab"); OpFinish (Some (Some 0%Z)) 5; OpRead None].

Example job_reads : job_run job_ops (new_job 8) = [mkJobRead (str "23456789") JobRunning None 2; mkJobRead (str "ab") JobCompleted (Some 0%Z) 0].
Proof. vm_compute. reflexivity. Qed.

Lemma job_reads_account_witness : Forall2 (reads_end_of 8) [(str "0123456789", None); (str "ab", None)] (job_run job_ops (new_job 8)).
Proof. apply (job_reads_account 8 job_ops). vm_compute. reflexivity. Defined.

Lemma pumped_lines_exact_witness :
  pumped [PipeData [97; 226]; PipeInterrupted; PipeData [130]; PipeData [172; 10; 98]] = [[97; 8364; NEWLINE]; [98]].
Proof.
  apply (proj2 (pumped_lines_exact [PipeData [97; 226]; PipeInterrupted; PipeData [130]; PipeData [172; 10; 98]]) [97; 8364; NEWLINE; 98]);
    [vm_compute; reflexivity..|]. repeat constructor.
Defined.

Lemma truncation_exact_witness :
  exists head middle tail, repeat 97 20 = head ++ middle ++ tail /\ (length head + length tail <= 10)%nat /\ middle <> [].
Proof.
  destruct (proj2 (truncation_exact (repeat 97 20) 10 (fun _ => None))) as (head & middle & tail & E & _ & Hl & Hm).
  - apply Nat.ltb_lt. vm_compute. reflexivity.
  - exists head, middle, tail. split; [exact E|]. split; [exact Hl|]. apply Hm. apply Nat.leb_le. vm_compute. reflexivity.
Defined.

(** The limit met by 65,535 letters and the first byte of a three-byte char. *)
Lemma char_split_occurs : exists reads t, data_of reads = as_bytes t /\ forallb is_char t = true /\ concat (pumped reads) <> t.
Proof.
  assert (Hr : forall n, blen (repeat 97 n) = N.of_nat n /\ forallb is_char (repeat 97 n) = true /\ NEWLINE ∉ repeat 97 n).
  { induction n as [|n (H1 & H2 & H3)]; [split_and!; [done|done|apply not_elem_of_nil]|]. cbn [repeat blen forallb]. rewrite H1, H2.
    split_and!; [change (utf8_len 97) with 1; lia|done|]. by apply not_elem_of_cons. }
  destruct (Hr (N.to_nat 65535)) as (H1 & H2 & H3). generalize dependent (repeat 97 (N.to_nat 65535)). intros t H1 H2 H3.
  destruct (char_split_at_limit t [as_bytes t ++ [226]]) as [Hd Hp]; [exact H2|exact H3| | | |].
  - rewrite H1. unfold MAX_LINE_BYTES. lia.
  - repeat constructor. by destruct (as_bytes t).
  - cbn [concat]. by rewrite app_nil_r.
  - eexists _, (t ++ [8364]). split; [exact Hd|]. split; [by rewrite forallb_app, H2|]. rewrite Hp. cbn [concat]. rewrite app_nil_r, <- app_assoc.
    intros E. by apply (inj (app t)) in E.
Qed.
