(* ===== verification/Host.v ===== *)
(** What commands and fetches may reach ([z-engine-host/src], files
    [error.rs], [web/guard.rs], [web/fetch.rs], [web/cache.rs],
    [sandbox/profile.rs], [sandbox/bubblewrap.rs], [sandbox/seatbelt.rs] and
    [sandbox/wrap.rs]): public addresses only, same-site redirects, a page
    cache, and the sandbox a shell is started in. *)

From Stdlib Require Import String.
From stdpp Require Import list.
From S2P Require Export Rule Paths Float.

Open Scope N_scope.

(** * [error.rs] *)

Inductive HostError :=
| HIo (path_ source : text)
| HProcess (m : text)
| HTimeout
| HCancelled
| HGit (args : list text) (stderr : text)
| HGitUnavailable
| HHttp (m : text)
| HBlocked (m : text)
| HInvalid (m : text)
| HNotFound (m : text)
| HSandboxUnavailable (m : text).

Definition show_host_error (e : HostError) : text :=
  match e with
  | HIo p source => p ++ str ": " ++ source
  | HProcess m => str "process failed: " ++ m
  | HTimeout => str "operation timed out"
  | HCancelled => str "operation cancelled"
  | HGit args stderr => str "git " ++ join (str " ") args ++ str " failed: " ++ stderr
  | HGitUnavailable => str "git is not installed or not on PATH"
  | HHttp m => str "http request failed: " ++ m
  | HBlocked m => str "blocked: " ++ m
  | HInvalid m => str "invalid input: " ++ m
  | HNotFound m => str "not found: " ++ m
  | HSandboxUnavailable m => str "sandbox unavailable: " ++ m
  end.

(** * Addresses of the standard library *)

(** Octets, and eight 16-bit segments. *)
Inductive IpAddr := V4 (a b c d : N) | V6 (segments : list N).

(** [Parser::read_number] of [std::net]: the number and what follows. *)
Definition read_number (radix : N) (max_digits : nat) (limit : N) (allow_zero_prefix : bool) (t : text) : option (N * text) :=
  let digits := take_while (fun c => match to_digit radix c with Some _ => true | None => false end) t in
  let value := fold_left (fun n c => n * radix + default 0 (to_digit radix c)) digits 0 in
  if is_empty digits || Nat.ltb max_digits (length digits) || (limit <=? value)
     || (negb allow_zero_prefix && starts_with [chr "0"] t && Nat.ltb 1 (length digits))
  then None else Some (value, drop (length digits) t).

(** [read_separator]: the separator comes before every group but the first. *)
Definition read_separator {A} (sep : char) (index : nat) (inner : text -> option (A * text)) (t : text) : option (A * text) :=
  match index with
  | O => inner t
  | S _ => match t with c :: t => if c =? sep then inner t else None | [] => None end
  end.

Definition read_octet (index : nat) (t : text) : option (N * text) := read_separator (chr ".") index (read_number 10 3 256 false) t.

Definition read_ipv4 (t : text) : option ((N * N * N * N) * text) :=
  '(a, t) ← read_octet 0 t; '(b, t) ← read_octet 1 t; '(c, t) ← read_octet 2 t; '(d, t) ← read_octet 3 t; Some ((a, b, c, d), t).

(** [read_groups]: the groups read, whether they end in an IPv4 address, and
    what follows.  [room] is the number of groups that may still be read. *)
Fixpoint read_groups (room index : nat) (t : text) : list N * bool * text :=
  match room with
  | O => ([], false, t)
  | S room =>
      let group :=
        match read_separator (chr ":") index (read_number 16 4 65536 true) t with
        | Some (g, t) => let '(gs, v4, t) := read_groups room (S index) t in (g :: gs, v4, t)
        | None => ([], false, t)
        end in
      match room with
      | O => group
      | S _ =>
          match read_separator (chr ":") index read_ipv4 t with
          | Some ((a, b, c, d), t) => ([a * 256 + b; c * 256 + d], true, t)
          | None => group
          end
      end
  end.

Definition read_ipv6 (t : text) : option (list N * text) :=
  let '(head, head_v4, t) := read_groups 8 0 t in
  if Nat.eqb (length head) 8 then Some (head, t)
  else if head_v4 then None
  else match t with
       | c1 :: c2 :: t =>
           if (c1 =? chr ":") && (c2 =? chr ":") then
             let '(tail, _, t) := read_groups (8 - S (length head)) 0 t in
             Some (head ++ repeat 0 (8 - length head - length tail) ++ tail, t)
           else None
       | _ => None
       end.

(** [str::parse::<IpAddr>] *)
Definition parse_ip (t : text) : option IpAddr :=
  match read_ipv4 t with
  | Some ((a, b, c, d), rest) => if is_empty rest then Some (V4 a b c d) else None
  | None => match read_ipv6 t with
            | Some (segments, rest) => if is_empty rest then Some (V6 segments) else None
            | None => None
            end
  end.

(** The predicates of [Ipv4Addr] and [Ipv6Addr]. *)
Definition v4_private (a b : N) : bool := (a =? 10) || ((a =? 172) && in_range 16 31 b) || ((a =? 192) && (b =? 168)).
Definition v4_loopback (a : N) : bool := a =? 127.
Definition v4_link_local (a b : N) : bool := (a =? 169) && (b =? 254).
Definition v4_unspecified (a b c d : N) : bool := (a =? 0) && (b =? 0) && (c =? 0) && (d =? 0).
Definition v4_broadcast (a b c d : N) : bool := (a =? 255) && (b =? 255) && (c =? 255) && (d =? 255).
Definition v4_multicast (a : N) : bool := in_range 224 239 a.
Definition v4_documentation (a b c : N) : bool :=
  ((a =? 192) && (b =? 0) && (c =? 2)) || ((a =? 198) && (b =? 51) && (c =? 100)) || ((a =? 203) && (b =? 0) && (c =? 113)).

Definition same_segments (a b : list N) : bool := bool_decide (a = b).
Definition v6_loopback (s : list N) : bool := same_segments s [0; 0; 0; 0; 0; 0; 0; 1].
Definition v6_unspecified (s : list N) : bool := same_segments s [0; 0; 0; 0; 0; 0; 0; 0].
Definition segment (i : nat) (s : list N) : N := default 0 (s !! i).
Definition v6_multicast (s : list N) : bool := N.land (segment 0 s) 65280 =? 65280.

Definition octets_of (hi lo : N) : IpAddr :=
  V4 (N.land (N.shiftr hi 8) 255) (N.land hi 255) (N.land (N.shiftr lo 8) 255) (N.land lo 255).

Definition to_ipv4_mapped (s : list N) : option IpAddr :=
  if same_segments (take 6 s) [0; 0; 0; 0; 0; 65535] then Some (octets_of (segment 6 s) (segment 7 s)) else None.

Definition is_loopback_ip (ip : IpAddr) : bool := match ip with V4 a _ _ _ => v4_loopback a | V6 s => v6_loopback s end.

(** [Display] of an address; a run of zeros is left out where it is longest. *)
Definition hex_digit (n : N) : char := if n <? 10 then 48 + n else 87 + n.
Definition show_hex (n : N) : text :=
  let digits := [n / 4096; n / 256 mod 16; n / 16 mod 16; n mod 16] in
  map hex_digit (match drop_while (N.eqb 0) digits with [] => [0] | ds => ds end).
Definition show_v4 (a b c d : N) : text := join (str ".") (map show_N [a; b; c; d]).

Fixpoint longest_zeros (s : list N) (index : nat) (current best : nat * nat) : nat * nat :=
  match s with
  | [] => best
  | x :: s =>
      if x =? 0 then
        let current := match snd current with O => (index, 1%nat) | S n => (fst current, S (S n)) end in
        longest_zeros s (S index) current (if Nat.ltb (snd best) (snd current) then current else best)
      else longest_zeros s (S index) (O, O) best
  end.

Definition show_ip (ip : IpAddr) : text :=
  match ip with
  | V4 a b c d => show_v4 a b c d
  | V6 s =>
      match to_ipv4_mapped s with
      | Some (V4 a b c d) => str "::ffff:" ++ show_v4 a b c d
      | _ =>
          let '(start, len) := longest_zeros s 0 (O, O) (O, O) in
          let groups l := join (str ":") (map show_hex l) in
          if Nat.ltb 1 len then groups (take start s) ++ str "::" ++ groups (drop (start + len) s) else groups s
      end
  end.

(** * [web/guard.rs] *)

Definition is_public_v4 (a b c d : N) : bool :=
  negb (v4_private a b || v4_loopback a || v4_link_local a b || v4_unspecified a b c d || v4_broadcast a b c d
        || v4_multicast a || v4_documentation a b c
        || (a =? 0) || ((a =? 100) && in_range 64 127 b) || ((a =? 198) && in_range 18 19 b) || (240 <=? a)).

Definition is_public_v6 (s : list N) : bool :=
  if same_segments (take 6 s) [100; 65435; 0; 0; 0; 0] then
    match octets_of (segment 6 s) (segment 7 s) with V4 a b c d => is_public_v4 a b c d | V6 _ => false end
  else
    negb (v6_loopback s || v6_unspecified s || v6_multicast s
          || (N.land (segment 0 s) 65024 =? 64512) || (N.land (segment 0 s) 65472 =? 65152)
          || ((segment 0 s =? 8193) && (segment 1 s =? 3512))).

Definition is_public (ip : IpAddr) : bool :=
  match ip with
  | V4 a b c d => is_public_v4 a b c d
  | V6 s => match to_ipv4_mapped s with Some (V4 a b c d) => is_public_v4 a b c d | _ => is_public_v6 s end
  end.

Definition ensure_public (ip : IpAddr) (host : text) : result HostError unit :=
  if is_public ip then Ok tt else Err (HBlocked (host ++ str " resolves to the private or local address " ++ show_ip ip)).

(** * [web/fetch.rs] *)

(** [reqwest::Url], and the texts of converted pages. *)
Class WebUrl := {
  url : Type;
  url_parse : text -> result text url;
  url_join : url -> text -> result text url;
  scheme : url -> text;
  set_scheme : text -> url -> option url;
  host_str : url -> option text;
  port_or_default : url -> option N;
  show_url : url -> text;
  to_content : text -> list N -> text
}.

Section WithUrls.
Context {W : WebUrl}.

Definition host_ip (u : url) : option IpAddr :=
  host ← host_str u; parse_ip (trim_end_by (N.eqb (chr "]")) (trim_start_by (N.eqb (chr "[")) host)).

Definition is_loopback_host (u : url) : bool :=
  match host_ip u, host_str u with
  | Some ip, _ => is_loopback_ip ip
  | None, Some host => teqb host (str "localhost") || ends_with (str ".localhost") host
  | None, None => false
  end.

(** [check_public]; [resolved] is what the resolution of a name gives. *)
Definition check_public (u : url) (resolved : result text (list IpAddr)) : result HostError unit :=
  match host_str u with
  | None => Err (HInvalid (show_url u ++ str " has no host"))
  | Some host =>
      match host_ip u with
      | Some ip => ensure_public ip host
      | None =>
          match resolved with
          | Err e => Err (HHttp (str "could not resolve " ++ host ++ str ": " ++ e))
          | Ok [] => Err (HHttp (host ++ str " did not resolve to any address"))
          | Ok ips => foldl (fun r ip => match r with Ok tt => ensure_public ip host | Err e => Err e end) (Ok tt) ips
          end
      end
  end.

(** [PublicOnlyResolver::resolve] *)
Definition resolve_public (host : text) (resolved : result text (list IpAddr)) : result text (list IpAddr) :=
  match resolved with
  | Err e => Err e
  | Ok ips =>
      match List.filter is_public ips with
      | [] => Err (host ++ str " resolves only to private or local addresses")
      | ips => Ok ips
      end
  end.

Definition upgrade (u : url) : url :=
  if teqb (scheme u) (str "http") && negb (is_loopback_host u) then default u (set_scheme (str "https") u) else u.

Definition is_web (s : text) : bool := teqb s (str "http") || teqb s (str "https").

Definition prepare (t : text) : result HostError url :=
  match url_parse (trim t) with
  | Err e => Err (HInvalid (str "bad URL `" ++ t ++ str "`: " ++ e))
  | Ok u => if is_web (scheme u) then Ok (upgrade u) else Err (HInvalid (str "unsupported URL scheme `" ++ scheme u ++ str "`"))
  end.

(** A response; the location header may not be text. *)
Record Response := mkResponse {
  status : N;
  location : option (option text);
  content_type_header : text;
  body_chunks : list (result HostError (list N))
}.

Definition redirect_target (current : url) (r : Response) : result HostError (option url) :=
  if negb (in_range 300 399 (status r)) then Ok None
  else match location r with
       | None => Ok None
       | Some None => Err (HHttp (str "redirect location is not valid text"))
       | Some (Some l) =>
           match url_join current l with
           | Ok u => Ok (Some u)
           | Err e => Err (HHttp (str "bad redirect location `" ++ l ++ str "`: " ++ e))
           end
       end.

Definition bare_host (u : url) : option text :=
  option_map (fun host => to_ascii_lowercase (default host (strip_prefix (str "www.") host))) (host_str u).

Definition same_site (from to : url) : bool :=
  is_web (scheme to)
  && match bare_host from, bare_host to with Some a, Some b => teqb a b | _, _ => false end.

Record FetchOptions := mkFetchOptions { max_bytes : N; allow_private_network : bool }.

Record FetchedPage := mkFetchedPage {
  page_url : text;
  final_url : text;
  page_status : N;
  content_type : text;
  page_content : text;
  redirect : option text;
  from_cache : bool;
  page_truncated : bool
}.

(** The body read, and whether it was cut. *)
Fixpoint read_body (limit : N) (chunks : list (result HostError (list N))) (body : list N) : result HostError (list N * bool) :=
  match chunks with
  | [] => Ok (body, false)
  | Err e :: _ => Err e
  | Ok chunk :: chunks =>
      let room := limit - N.of_nat (length body) in
      if room <? N.of_nat (length chunk) then Ok (body ++ take (N.to_nat room) chunk, true)
      else read_body limit chunks (body ++ chunk)
  end.

Definition read_page (requested current : url) (r : Response) (limit : N) : result HostError FetchedPage :=
  match read_body limit (body_chunks r) [] with
  | Err e => Err e
  | Ok (body, cut) =>
      Ok (mkFetchedPage (show_url requested) (show_url current) (status r) (content_type_header r)
            (to_content (content_type_header r) body) None false cut)
  end.

Inductive WebClientKind := Guarded | Open.

(** What the network answers: the [n]-th resolution and the [n]-th request. *)
Record Network := mkNetwork {
  lookup_host : nat -> text -> result text (list IpAddr);
  send : WebClientKind -> nat -> url -> result HostError Response
}.

Definition MAX_REDIRECTS : nat := 5.

(** The loop of [fetch_live]: the page, and the requests sent. *)
Fixpoint fetch_loop (net : Network) (rounds n : nat) (requested current : url) (opts : FetchOptions) : result HostError FetchedPage * list (nat * url) :=
  match rounds with
  | O => (Err (HHttp (str "gave up after " ++ show_N (N.of_nat MAX_REDIRECTS) ++ str " redirects")), [])
  | S rounds =>
      match (if allow_private_network opts then Ok tt else check_public current (lookup_host net n (default [] (host_str current)))) with
      | Err e => (Err e, [])
      | Ok tt =>
          let client := if allow_private_network opts then Open else Guarded in
          match send net client n current with
          | Err e => (Err e, [(n, current)])
          | Ok r =>
              match redirect_target current r with
              | Err e => (Err e, [(n, current)])
              | Ok (Some next) =>
                  if same_site current next then
                    let '(page, sent) := fetch_loop net rounds (S n) requested (upgrade next) opts in (page, (n, current) :: sent)
                  else
                    (Ok (mkFetchedPage (show_url requested) (show_url current) (status r) [] [] (Some (show_url next)) false false), [(n, current)])
              | Ok None => (read_page requested current r (max_bytes opts), [(n, current)])
              end
          end
      end
  end.

Definition fetch_live (net : Network) (requested : url) (opts : FetchOptions) : result HostError FetchedPage * list (nat * url) :=
  fetch_loop net (S MAX_REDIRECTS) 0 requested requested opts.

(** * [web/cache.rs] *)

(** Milliseconds. *)
Definition TTL : N := 15 * 60 * 1000.
Definition CAPACITY : nat := 100.

Record Entry := mkEntry { entry_page : FetchedPage; stored : N; private : bool; entry_max_bytes : N }.

(** The map by URL; its order is that of the iterator. *)
Definition PageCache : Type := list (text * Entry).

Definition entry_of (key : text) (c : PageCache) : option Entry := option_map snd (List.find (fun ke => teqb (fst ke) key) c).

Definition cache_get (now : N) (key : text) (opts : FetchOptions) (c : PageCache) : PageCache * option FetchedPage :=
  let c := List.filter (fun ke => now - stored (snd ke) <? TTL) c in
  (c, e ← entry_of key c;
      let access := negb (private e) || allow_private_network opts in
      let complete := negb (page_truncated (entry_page e)) || (max_bytes opts <=? entry_max_bytes e) in
      if access && complete then
        let p := entry_page e in
        Some (mkFetchedPage (page_url p) (final_url p) (page_status p) (content_type p) (page_content p) (redirect p) true (page_truncated p))
      else None).

(** [min_by_key]: the first of the oldest entries. *)
Definition oldest_entry (c : PageCache) : option (text * Entry) :=
  foldl (fun best ke => match best with
                        | None => Some ke
                        | Some b => if stored (snd ke) <? stored (snd b) then Some ke else best
                        end) None c.

Definition without_key (key : text) (c : PageCache) : PageCache := List.filter (fun ke => negb (teqb (fst ke) key)) c.

Definition cache_put (now : N) (key : text) (page : FetchedPage) (opts : FetchOptions) (c : PageCache) : PageCache :=
  let c :=
    if Nat.leb CAPACITY (length c) && match entry_of key c with None => true | Some _ => false end then
      match oldest_entry c with Some (k, _) => without_key k c | None => c end
    else c in
  without_key key c ++ [(key, mkEntry page now (allow_private_network opts) (max_bytes opts))].

(** One fetch: its times, and whether it is cancelled before its end. *)
Record FetchCall := mkFetchCall { asked_url : text; fetch_opts : FetchOptions; get_at : N; put_at : N; network : Network; cancelled : bool }.

(** [WebClient::fetch]: the page, and the requests sent. *)
Definition fetch (f : FetchCall) (c : PageCache) : PageCache * result HostError FetchedPage * list (nat * url) :=
  match prepare (asked_url f) with
  | Err e => (c, Err e, [])
  | Ok requested =>
      let key := show_url requested in
      let '(c, cached) := cache_get (get_at f) key (fetch_opts f) c in
      match cached with
      | Some page => (c, Ok page, [])
      | None =>
          let '(r, sent) := fetch_live (network f) requested (fetch_opts f) in
          if cancelled f then (c, Err HCancelled, sent)
          else match r with
               | Err e => (c, Err e, sent)
               | Ok page =>
                   let c := if in_range 200 299 (page_status page) || match redirect page with Some _ => true | None => false end
                            then cache_put (put_at f) key page (fetch_opts f) c else c in
                   (c, Ok page, sent)
               end
      end
  end.

End WithUrls.

(** * Files, as the operating system shows them *)

Class FileSystem := {
  canonicalize : path -> option path;
  exists_at : path -> bool;
  is_dir : path -> bool;
  is_file : path -> bool;
  dangling_link : path -> bool;
  read_to_string : path -> option text;
  home_dir : option path;
  temp_dir : path;
  env_tmpdir : option path
}.

Section WithFiles.
Context {F : FileSystem}.

(** [fs/paths.rs] *)
Definition host_normalize (p : path) : path := match normalize p with [] => [CurDir] | q => q end.

Definition host_resolve (root input : path) : path :=
  if is_absolute input then host_normalize input else host_normalize (path_join root input).

(** Both [home] and the current user's home directory are [home_dir] where the
    sandbox calls it. *)
Definition expand_tilde (input : text) : path :=
  match (if teqb input (str "~") then Some [] else strip_prefix (str "~/") input) with
  | None => components input
  | Some rest =>
      match home_dir with
      | None => components input
      | Some home => if is_empty rest then home else path_join home (components rest)
      end
  end.

(** [physical]: the longest existing prefix, canonical, and the rest. *)
Fixpoint physical_loop (rev_prefix rest : path) : option path :=
  match rev_prefix with
  | [] => None
  | last :: up =>
      match canonicalize (reverse rev_prefix) with
      | Some canonical => Some (host_normalize (foldl (fun out c => path_join out [c]) canonical rest))
      | None => if dangling_link (reverse rev_prefix) then None else physical_loop up (last :: rest)
      end
  end.

Definition physical (p : path) : option path := physical_loop (reverse p) [].

Definition is_within (root p : path) : bool :=
  let target := if is_absolute p then p else path_join root p in
  match physical root, physical target with
  | Some root, Some target => path_starts_with target root
  | _, _ => false
  end.

(** * [sandbox/profile.rs] *)

Definition TOOL_CACHES : list text :=
  [str ".cargo/registry"; str ".cargo/git"; str ".cargo/.package-cache"; str ".cargo/.package-cache-mutate"; str ".cargo/.global-cache";
   str ".npm"; str ".cache"; str ".gradle"; str ".m2"].

(** Off macOS there are no others. *)
Definition PLATFORM_CACHES : list text := [].

Definition PROTECTED : list text :=
  [str ".git/hooks"; str ".git/config"; str ".z-engine/settings.toml"; str ".z-engine/settings.local.toml";
   str ".claude/settings.json"; str ".claude/settings.local.json"; str ".mcp.json"].

Record SandboxProfile := mkSandboxProfile { writable : list path; read_only : list path; allow_network : bool }.

Definition git_common_dir (root : path) : option path :=
  let dot_git := path_join root (components (str ".git")) in
  if negb (is_file dot_git) then None
  else
    t ← read_to_string dot_git;
    dir ← strip_prefix (str "gitdir:") (trim t);
    let gitdir := host_resolve root (components (trim dir)) in
    let common := match read_to_string (path_join gitdir (components (str "commondir"))) with
                  | Some relative => host_resolve gitdir (components (trim relative))
                  | None => gitdir
                  end in
    if is_dir common then Some common else None.

Definition tool_caches (home : path) : list path :=
  List.filter exists_at (map (fun relative => path_join home (components relative)) (TOOL_CACHES ++ PLATFORM_CACHES)).

Definition workspace_roots (root : path) (additional_dirs : list path) : list path := root :: map (host_resolve root) additional_dirs.

Definition for_workspace (root : path) (additional_dirs : list path) (extra_writable : list text) (network : bool) : SandboxProfile :=
  let roots := workspace_roots root additional_dirs in
  let protected := flat_map (fun dir => map (fun p => path_join dir (components p)) PROTECTED) roots in
  let '(git_writable, git_read_only) :=
    match git_common_dir root with
    | Some common => ([common], [path_join common (components (str "hooks")); path_join common (components (str "config"))])
    | None => ([], [])
    end in
  let extra := map (fun entry => host_resolve root (expand_tilde entry)) (List.filter (fun e => negb (is_empty e)) (map trim extra_writable)) in
  mkSandboxProfile
    (roots ++ git_writable ++ extra ++ [temp_dir] ++ match home_dir with Some home => tool_caches home | None => [] end)
    (protected ++ git_read_only) network.

(** [sort] and [dedup]. *)
Definition sorted_paths (ps : list path) : list path := foldl insert_path [] ps.

Definition resolved_writable (p : SandboxProfile) : list path :=
  foldl (fun kept q => if existsb (path_starts_with q) kept then kept else kept ++ [q]) [] (sorted_paths (omap canonicalize (writable p))).

(** [lenient]: the longest existing ancestor, canonical, and the names below. *)
Fixpoint lenient_loop (rev_ancestor : path) (rest : list text) : option path :=
  match canonicalize (reverse rev_ancestor) with
  | Some base => Some (foldl (fun dir name => path_join dir [Normal name]) base rest)
  | None => match rev_ancestor with Normal name :: up => lenient_loop up (name :: rest) | _ => None end
  end.

Definition lenient (p : path) : option path := lenient_loop (reverse p) [].

Definition resolved_read_only (p : SandboxProfile) : list path := sorted_paths (omap lenient (read_only p)).

(** * [sandbox/bubblewrap.rs] *)

Definition SHARED_TEMP : list text := [str "/tmp"; str "/var/tmp"].

Definition bind (flag : text) (p : path) : list text := [flag; display p; display p].

Definition shared_temp (writable_ : list path) : list path :=
  List.filter (fun dir => is_dir dir && negb (existsb (path_starts_with dir) writable_)) (map components SHARED_TEMP).

Definition bubblewrap_args (writable_ read_only_ : list path) (network : bool) : list text :=
  [str "--ro-bind"; str "/"; str "/"; str "--dev"; str "/dev"; str "--proc"; str "/proc"]
  ++ flat_map (bind (str "--bind")) (shared_temp writable_ ++ writable_)
  ++ flat_map (bind (str "--ro-bind")) (List.filter exists_at read_only_)
  ++ (if network then [] else [str "--unshare-net"])
  ++ [str "--die-with-parent"; str "--"].

(** * [sandbox/seatbelt.rs] *)

Definition FIXED_SUBPATHS : list text := [str "/private/tmp"; str "/private/var/folders"; str "/dev/fd"].
Definition FIXED_LITERALS : list text := [str "/dev/null"; str "/dev/zero"; str "/dev/stdout"; str "/dev/stderr"; str "/dev/dtracehelper"].
Definition DOUBLE_QUOTE : char := 34.
Definition BACKSLASH : char := 92.

(** An SBPL string literal. *)
Definition quote (raw : text) : text :=
  DOUBLE_QUOTE :: flat_map (fun c => if (c =? DOUBLE_QUOTE) || (c =? BACKSLASH) then [BACKSLASH; c] else [c]) raw ++ [DOUBLE_QUOTE].

Definition rule_line (kind raw : text) : text := str "  (" ++ kind ++ str " " ++ quote raw ++ str ")" ++ [NEWLINE].

Definition in_quotes (t : text) : text := DOUBLE_QUOTE :: t ++ [DOUBLE_QUOTE].

Definition seatbelt_profile (writable_ read_only_ : list path) (network : bool) : text :=
  let tmpdir := match env_tmpdir with Some dir => option_list (canonicalize dir) | None => [] end in
  str "(version 1)" ++ [NEWLINE] ++ str "(allow default)" ++ [NEWLINE] ++ str "(deny file-write*)" ++ [NEWLINE]
  ++ str "(allow file-write*" ++ [NEWLINE]
  ++ flat_map (fun p => rule_line (str "subpath") (display p)) (map components FIXED_SUBPATHS ++ tmpdir ++ writable_)
  ++ flat_map (rule_line (str "literal")) FIXED_LITERALS
  ++ str "  (regex #" ++ in_quotes (str "^/dev/tty") ++ str "))" ++ [NEWLINE]
  ++ (if is_empty read_only_ then []
      else str "(deny file-write*" ++ [NEWLINE] ++ flat_map (fun p => rule_line (str "subpath") (display p)) read_only_ ++ str ")" ++ [NEWLINE])
  ++ (if network then []
      else str "(deny network*)" ++ [NEWLINE]
           ++ flat_map (fun rule => str "(allow " ++ rule ++ str " ip " ++ in_quotes (str "localhost:*") ++ str "))" ++ [NEWLINE])
                [str "network-bind (local"; str "network-inbound (local"; str "network-outbound (remote"]).

(** * [sandbox/wrap.rs] *)

Inductive ShellKind := Bash | Zsh | Sh | PowerShell | Cmd.

Definition is_posix (k : ShellKind) : bool := match k with Bash | Zsh | Sh => true | _ => false end.

Record ShellSpec := mkShellSpec { program : path; shell_args : list text; shell_kind : ShellKind }.

Inductive SandboxBackend := MacSeatbelt | LinuxBubblewrap | Unavailable (reason : text).

Definition SANDBOX_EXEC : text := str "/usr/bin/sandbox-exec".

(** [bwrap] is where the program is found, if it is. *)
Definition wrap (bwrap : option path) (shell : ShellSpec) (profile : SandboxProfile) (backend : SandboxBackend) : result HostError ShellSpec :=
  if negb (is_posix (shell_kind shell)) then Err (HSandboxUnavailable (display (program shell) ++ str " is not a POSIX shell"))
  else
    let w := resolved_writable profile in
    let r := resolved_read_only profile in
    let network := allow_network profile in
    let around :=
      match backend with
      | MacSeatbelt => Ok (components SANDBOX_EXEC, [str "-p"; seatbelt_profile w r network])
      | LinuxBubblewrap =>
          match bwrap with
          | None => Err (HSandboxUnavailable (str "bubblewrap (bwrap) is not installed"))
          | Some program => Ok (program, bubblewrap_args w r network)
          end
      | Unavailable reason => Err (HSandboxUnavailable reason)
      end in
    match around with
    | Err e => Err e
    | Ok (prog, args) => Ok (mkShellSpec prog (args ++ display (program shell) :: shell_args shell) (shell_kind shell))
    end.

Definition is_sandbox_denial (output : text) : bool :=
  existsb (fun marker => contains_str marker output) [str "Operation not permitted"; str "Read-only file system"].

End WithFiles.
