(* ===== verification/HostFacts.v ===== *)
(** What fetches and sandboxed commands reach: the refused addresses are
    exactly the listed networks, a fetch connects to public addresses of one
    site, cached pages keep their privacy, and a sandbox leaves protected files
    read-only. *)

From Stdlib Require Import String Zify ZifyBool ZifyN.
From stdpp Require Import list.
From S2P Require Import Host.

Open Scope N_scope.

(** * Addresses *)

(** The addresses of the unit tests. *)
Example classified :
  map (fun t => option_map is_public (parse_ip (str t)))
    ["127.0.0.1"; "10.1.2.3"; "192.168.0.1"; "169.254.1.1"; "100.64.0.1"; "0.0.0.0"; "::1"; "fd00::1"; "fe80::1"; "::ffff:127.0.0.1";
     "64:ff9b::10.0.0.1"]%string
  = repeat (Some false) 11
  /\ map (fun t => option_map is_public (parse_ip (str t))) ["1.1.1.1"; "93.184.216.34"; "2606:4700:4700::1111"; "64:ff9b::1.1.1.1"]%string
     = repeat (Some true) 4
  /\ map (fun t => parse_ip (str t)) ["01.2.3.4"; "1.2.3"; "1.2.3.256"; "::1::2"; "1:2:3:4:5:6:7"; "12345::"; "example.com"]%string = repeat None 7.
Proof. vm_compute. by split_and!. Qed.

(** [show_ip] prints the way addresses are written. *)
Example shown : map (fun t => option_map show_ip (parse_ip (str t))) ["2606:4700:4700:0:0:0:0:1111"; "0:0:1::"; "::FFFF:1.2.3.4"]%string
  = [Some (str "2606:4700:4700::1111"); Some (str "0:0:1::"); Some (str "::ffff:1.2.3.4")].
Proof. vm_compute. reflexivity. Qed.

(** A network: its first address and the length of its prefix. *)
Definition in_net (width : N) (n : N) (net : N * N) : bool := n / 2 ^ (width - snd net) =? fst net / 2 ^ (width - snd net).

Definition v4_number (a b c d : N) : N := ((a * 256 + b) * 256 + c) * 256 + d.

(** The networks that are not the public internet. *)
Definition LOCAL_V4 : list (N * N) :=
  [(v4_number 0 0 0 0, 8); (v4_number 10 0 0 0, 8); (v4_number 100 64 0 0, 10); (v4_number 127 0 0 0, 8); (v4_number 169 254 0 0, 16);
   (v4_number 172 16 0 0, 12); (v4_number 192 0 2 0, 24); (v4_number 192 168 0 0, 16); (v4_number 198 18 0 0, 15);
   (v4_number 198 51 100 0, 24); (v4_number 203 0 113 0, 24); (v4_number 224 0 0 0, 4); (v4_number 240 0 0 0, 4)].

Definition v4_local (n : N) : bool := existsb (in_net 32 n) LOCAL_V4.

Lemma drop_byte x d : d < 256 -> (x * 256 + d) / 256 = x.
Proof. intros H. symmetry. apply (N.div_unique _ _ _ d); [done|lia]. Qed.

(** The first bits of two bytes. *)
Lemma drop_bits k j a b : k * j = 256 -> k <> 0 -> (a * 256 + b) / k = a * j + b / k.
Proof. intros H Hk. replace (a * 256 + b) with ((a * j) * k + b) by (rewrite <- H; lia). by apply N.div_add_l. Qed.

Lemma v4_prefixes a b c d :
  b < 256 -> c < 256 -> d < 256 ->
  let n := v4_number a b c d in
  n / 2 ^ 8 = (a * 256 + b) * 256 + c /\ n / 2 ^ 16 = a * 256 + b /\ n / 2 ^ 17 = a * 128 + b / 2 /\ n / 2 ^ 20 = a * 16 + b / 16
  /\ n / 2 ^ 22 = a * 4 + b / 64 /\ n / 2 ^ 24 = a /\ n / 2 ^ 28 = a / 16.
Proof.
  intros Hb Hc Hd n. assert (E8 : n / 2 ^ 8 = (a * 256 + b) * 256 + c) by (by apply drop_byte).
  assert (E16 : n / 2 ^ 16 = a * 256 + b) by (change (2 ^ 16) with (2 ^ 8 * 2 ^ 8); rewrite <- N.Div0.div_div, E8; by apply drop_byte).
  assert (Ek : forall k, n / (2 ^ 16 * k) = (a * 256 + b) / k) by (intros k; by rewrite <- N.Div0.div_div, E16).
  split_and!; [done|done|..].
  - change (2 ^ 17) with (2 ^ 16 * 2). rewrite Ek. by apply drop_bits.
  - change (2 ^ 20) with (2 ^ 16 * 16). rewrite Ek. by apply drop_bits.
  - change (2 ^ 22) with (2 ^ 16 * 64). rewrite Ek. by apply drop_bits.
  - change (2 ^ 24) with (2 ^ 16 * 256). rewrite Ek. by apply drop_byte.
  - change (2 ^ 28) with (2 ^ 16 * (256 * 16)). rewrite Ek, <- N.Div0.div_div. by rewrite drop_byte.
Qed.

(** Ranges of a byte as quotients. *)
Lemma byte_ranges b :
  b < 256 ->
  in_range 64 127 b = (b / 64 =? 1) /\ in_range 16 31 b = (b / 16 =? 1) /\ in_range 18 19 b = (b / 2 =? 9)
  /\ in_range 224 239 b = (b / 16 =? 14) /\ (240 <=? b) = (b / 16 =? 15).
Proof.
  intros H. assert (Hall : forallb (fun b =>
    Bool.eqb (in_range 64 127 b) (b / 64 =? 1) && Bool.eqb (in_range 16 31 b) (b / 16 =? 1) && Bool.eqb (in_range 18 19 b) (b / 2 =? 9)
    && Bool.eqb (in_range 224 239 b) (b / 16 =? 14) && Bool.eqb (240 <=? b) (b / 16 =? 15)) (map N.of_nat (seq 0 256)) = true) by (vm_compute; reflexivity).
  apply (forallb_In _ _ b) in Hall; [rewrite !andb_true_iff, !eqb_true_iff in Hall; destruct Hall as [[[[? ?] ?] ?] ?]; by split_and!|]. apply in_map_iff. exists (N.to_nat b). split; [lia|]. apply in_seq. lia.
Qed.

Lemma eqb_digits k x y r q : r < k -> q < k -> (x * k + r =? y * k + q) = (x =? y) && (r =? q).
Proof.
  intros Hr Hq. destruct (N.eqb_spec x y) as [->|Hne]; cbn [andb]; [destruct (N.eqb_spec r q) as [->|]; [apply N.eqb_refl|apply N.eqb_neq; lia]|].
  apply N.eqb_neq. intros E. apply Hne. rewrite (N.div_unique (x * k + r) k x r), (N.div_unique (y * k + q) k y q) by lia. by rewrite E.
Qed.

Lemma v4_local_exact a b c d :
  a < 256 -> b < 256 -> c < 256 -> d < 256 -> is_public_v4 a b c d = negb (v4_local (v4_number a b c d)).
Proof.
  intros Ha Hb Hc Hd. destruct (v4_prefixes a b c d Hb Hc Hd) as (E8 & E16 & E17 & E20 & E22 & E24 & E28).
  unfold v4_local, LOCAL_V4. cbn [existsb]. unfold in_net. cbn [fst snd].
  change (32 - 8) with 24. change (32 - 10) with 22. change (32 - 16) with 16. change (32 - 12) with 20. change (32 - 24) with 8. change (32 - 15) with 17.
  change (32 - 4) with 28. rewrite E24, E22, E20, E17, E16, E8, E28.
  unfold is_public_v4, v4_private, v4_loopback, v4_link_local, v4_unspecified, v4_broadcast, v4_multicast, v4_documentation.
  destruct (byte_ranges a Ha) as (_ & _ & _ & -> & ->). destruct (byte_ranges b Hb) as (-> & -> & -> & _).
  assert (b / 64 < 4 /\ b / 16 < 16 /\ b / 2 < 128) as (H1 & H2 & H3) by (split_and!; by apply N.Div0.div_lt_upper_bound).
  assert (H4 : 240 <= a -> a / 16 = 15) by (intros H; destruct (byte_ranges a Ha) as (_ & _ & _ & _ & E); lia).
  repeat match goal with |- context [v4_number ?x ?y ?z ?w / ?m] => let v := eval vm_compute in (v4_number x y z w / m) in change (v4_number x y z w / m) with v end.
  replace 401 with (100 * 4 + 1) by done. replace 43518 with (169 * 256 + 254) by done. replace 2753 with (172 * 16 + 1) by done. replace 12582914 with ((192 * 256 + 0) * 256 + 2) by done.
  replace 49320 with (192 * 256 + 168) by done. replace 25353 with (198 * 128 + 9) by done. replace 12989284 with ((198 * 256 + 51) * 256 + 100) by done.
  replace 13303921 with ((203 * 256 + 0) * 256 + 113) by done.
  rewrite !eqb_digits by first [assumption|by vm_compute|lia]. f_equal. clear -Ha H4. generalize (b / 64 =? 1), (b / 16 =? 1), (b / 2 =? 9). intros x y z.
  destruct (N.eqb_spec (a / 16) 14) as [E14|E14]; [by rewrite !orb_true_r|].
  destruct (N.eqb_spec (a / 16) 15) as [E15|E15]; [by rewrite !orb_true_r|].
  assert (Hlt : a < 240) by lia. clear H4.
  rewrite (proj2 (N.eqb_neq a 255)) by lia. destruct (N.eqb_spec a 0) as [_|_]; [by rewrite !orb_true_r|].
  repeat match goal with
         | |- context [a =? ?k] =>
             destruct (N.eqb_spec a k) as [E|_];
             [repeat match goal with |- context [a =? ?m] => rewrite (proj2 (N.eqb_neq a m)) by (subst a; discriminate) end; cbn [andb orb];
              repeat match goal with |- context [?v =? ?n] => destruct (v =? n); cbn [andb orb] end; by destruct x, y, z|]
         end.
  reflexivity.
Qed.

(** An IPv6 address as a number. *)
Definition v6_number (s : list N) : N := foldl (fun n g => n * 65536 + g) 0 s.

Definition LOCAL_V6 : list (N * N) :=
  [(v6_number [0; 0; 0; 0; 0; 0; 0; 0], 128); (v6_number [0; 0; 0; 0; 0; 0; 0; 1], 128); (v6_number [65280; 0; 0; 0; 0; 0; 0; 0], 8);
   (v6_number [64512; 0; 0; 0; 0; 0; 0; 0], 7); (v6_number [65152; 0; 0; 0; 0; 0; 0; 0], 10); (v6_number [8193; 3512; 0; 0; 0; 0; 0; 0], 32)].

(** The prefixes whose last 32 bits are an IPv4 address: mapped addresses and
    NAT64. *)
Definition EMBEDDING_V6 : list (N * N) :=
  [(v6_number [0; 0; 0; 0; 0; 65535; 0; 0], 96); (v6_number [100; 65435; 0; 0; 0; 0; 0; 0], 96)].

Definition v6_local (n : N) : bool := existsb (in_net 128 n) LOCAL_V6.

(** An address of the public internet, as networks define it. *)
Definition public_address (ip : IpAddr) : bool :=
  match ip with
  | V4 a b c d => negb (v4_local (v4_number a b c d))
  | V6 s => let n := v6_number s in
            if existsb (in_net 128 n) EMBEDDING_V6 then negb (v4_local (n mod 2 ^ 32)) else negb (v6_local n)
  end.

(** An address as the parser gives it. *)
Definition proper_ip (ip : IpAddr) : Prop :=
  match ip with
  | V4 a b c d => a < 256 /\ b < 256 /\ c < 256 /\ d < 256
  | V6 s => length s = 8%nat /\ Forall (fun g => g < 65536) s
  end.

Lemma drop_word x g : g < 65536 -> (x * 65536 + g) / 65536 = x.
Proof. intros H. symmetry. apply (N.div_unique _ _ _ g); [done|lia]. Qed.

Lemma drop_word_bits k j a b : k * j = 65536 -> k <> 0 -> (a * 65536 + b) / k = a * j + b / k.
Proof. intros H Hk. replace (a * 65536 + b) with ((a * j) * k + b) by (rewrite <- H; lia). by apply N.div_add_l. Qed.

(** The bits of a 16-bit word that the masks keep. *)
Lemma word_masks g :
  g < 65536 ->
  (N.land g 65280 =? 65280) = (g / 256 =? 255) /\ (N.land g 65024 =? 64512) = (g / 512 =? 126) /\ (N.land g 65472 =? 65152) = (g / 64 =? 1018)
  /\ N.land (N.shiftr g 8) 255 = g / 256 /\ N.land g 255 = g mod 256.
Proof.
  intros H. assert (Hb : forall x, N.land x 255 = x mod 256) by (intros x; exact (N.land_ones x 8)).
  assert (Hq : g / 256 < 256) by (apply N.Div0.div_lt_upper_bound; lia). assert (Hr : g mod 256 < 256) by (apply N.mod_lt; lia).
  assert (Hin : forall x, x < 256 -> In x (map N.of_nat (seq 0 256))).
  { intros x Hx. apply in_map_iff. exists (N.to_nat x). split; [lia|]. apply in_seq. lia. }
  assert (Eg : g / 256 * 256 + g mod 256 = g) by (rewrite N.mul_comm; symmetry; apply N.div_mod; lia).
  assert (Hall : forallb (fun hi => forallb (fun lo => let g := hi * 256 + lo in
    Bool.eqb (N.land g 65280 =? 65280) (g / 256 =? 255) && Bool.eqb (N.land g 65024 =? 64512) (g / 512 =? 126)
    && Bool.eqb (N.land g 65472 =? 65152) (g / 64 =? 1018)) (map N.of_nat (seq 0 256))) (map N.of_nat (seq 0 256)) = true) by (vm_compute; reflexivity).
  apply (forallb_In _ _ _) with (2 := Hin _ Hq) in Hall. apply (forallb_In _ _ _) with (2 := Hin _ Hr) in Hall.
  cbn beta zeta in Hall. rewrite Eg in Hall.
  rewrite !andb_true_iff, !eqb_true_iff in Hall. destruct Hall as [[? ?] ?]. split_and!; [done|done|done| |apply Hb].
  rewrite Hb, N.shiftr_div_pow2. change (2 ^ 8) with 256. by apply N.mod_small.
Qed.

Lemma v6_prefixes s0 s1 s2 s3 s4 s5 s6 s7 :
  Forall (fun g => g < 65536) [s0; s1; s2; s3; s4; s5; s6; s7] ->
  let n := v6_number [s0; s1; s2; s3; s4; s5; s6; s7] in
  n / 2 ^ 32 = v6_number [s0; s1; s2; s3; s4; s5] /\ n / 2 ^ 96 = v6_number [s0; s1] /\ n / 2 ^ 112 = s0 /\ n mod 2 ^ 32 = s6 * 65536 + s7.
Proof.
  intros H n. rewrite !Forall_cons in H. destruct H as (H0 & H1 & H2 & H3 & H4 & H5 & H6 & H7 & _). unfold n, v6_number. cbn [foldl].
  set (x5 := ((((_ + s1) * 65536 + s2) * 65536 + s3) * 65536 + s4) * 65536 + s5).
  assert (E : (x5 * 65536 + s6) * 65536 + s7 = x5 * 2 ^ 32 + (s6 * 65536 + s7)) by (change (2 ^ 32) with (65536 * 65536); lia).
  assert (Hs : s6 * 65536 + s7 < 2 ^ 32) by (change (2 ^ 32) with (65536 * 65536); lia).
  assert (E32 : ((x5 * 65536 + s6) * 65536 + s7) / 2 ^ 32 = x5) by (rewrite E, N.div_add_l, (N.div_small _ _ Hs), N.add_0_r; done).
  split_and!.
  - exact E32.
  - change (2 ^ 96) with (2 ^ 32 * (65536 * (65536 * (65536 * 65536)))). rewrite <- N.Div0.div_div, E32, <- !N.Div0.div_div. unfold x5. by rewrite !drop_word.
  - change (2 ^ 112) with (2 ^ 32 * (65536 * (65536 * (65536 * (65536 * 65536))))). rewrite <- N.Div0.div_div, E32, <- !N.Div0.div_div. unfold x5. by rewrite !drop_word.
  - rewrite E. rewrite N.add_comm, N.Div0.mod_add. by apply N.mod_small.
Qed.

Lemma v6_number_snoc s g : v6_number (s ++ [g]) = v6_number s * 65536 + g.
Proof. unfold v6_number. by rewrite foldl_app. Qed.

Lemma v6_number_inj s t :
  length s = length t -> Forall (fun g => g < 65536) s -> Forall (fun g => g < 65536) t -> v6_number s = v6_number t -> s = t.
Proof.
  revert t; induction s as [|g s IH] using rev_ind; intros t Hl Hs Ht E.
  { by destruct t. }
  destruct t as [|h t _] using rev_ind; [rewrite length_app in Hl; cbn in Hl; lia|]. rewrite !v6_number_snoc in E.
  apply Forall_app in Hs as [Hs [Hg _]%Forall_cons]. apply Forall_app in Ht as [Ht [Hh _]%Forall_cons]. rewrite !length_app in Hl. cbn in Hl.
  assert (Eq : v6_number s = v6_number t) by (rewrite <- (drop_word (v6_number s) g), <- (drop_word (v6_number t) h) by done; by rewrite E).
  f_equal; [apply IH; (done || lia)|]. f_equal. lia.
Qed.

Lemma same_number s t :
  length s = length t -> Forall (fun g => g < 65536) s -> Forall (fun g => g < 65536) t -> same_segments s t = (v6_number s =? v6_number t).
Proof.
  intros Hl Hs Ht. unfold same_segments. apply eq_bool_prop_intro. rewrite !Is_true_true, bool_decide_eq_true, N.eqb_eq.
  split; [by intros ->|by apply v6_number_inj].
Qed.

(** The IPv4 address in the last two segments. *)
Lemma octets_number hi lo :
  hi < 65536 -> lo < 65536 ->
  exists a b c d, octets_of hi lo = V4 a b c d /\ a < 256 /\ b < 256 /\ c < 256 /\ d < 256 /\ v4_number a b c d = hi * 65536 + lo.
Proof.
  intros Hh Hl. destruct (word_masks hi Hh) as (_ & _ & _ & H1 & H2). destruct (word_masks lo Hl) as (_ & _ & _ & H3 & H4).
  exists (hi / 256), (hi mod 256), (lo / 256), (lo mod 256). unfold octets_of. rewrite H1, H2, H3, H4. split; [done|].
  assert (forall x, x < 65536 -> x / 256 < 256) by (intros; apply N.Div0.div_lt_upper_bound; lia).
  assert (forall x, x mod 256 < 256) by (intros; apply N.mod_lt; lia). split_and!; auto. unfold v4_number.
  pose proof (N.div_mod hi 256 ltac:(done)). pose proof (N.div_mod lo 256 ltac:(done)). lia.
Qed.

Lemma embedded_exact s0 s1 s2 s3 s4 s5 s6 s7 hi lo :
  Forall (fun g => g < 65536) [s0; s1; s2; s3; s4; s5; s6; s7] -> hi = s6 -> lo = s7 ->
  match octets_of hi lo with V4 a b c d => is_public_v4 a b c d | V6 _ => false end
  = negb (v4_local (v6_number [s0; s1; s2; s3; s4; s5; s6; s7] mod 2 ^ 32)).
Proof.
  intros H -> ->. destruct (v6_prefixes _ _ _ _ _ _ _ _ H) as (_ & _ & _ & ->). rewrite !Forall_cons in H. destruct H as (_ & _ & _ & _ & _ & _ & H6 & H7 & _).
  destruct (octets_number s6 s7 H6 H7) as (a & b & c & d & -> & Ha & Hb & Hc & Hd & <-). by apply v4_local_exact.
Qed.

Lemma v6_local_exact s0 s1 s2 s3 s4 s5 s6 s7 :
  Forall (fun g => g < 65536) [s0; s1; s2; s3; s4; s5; s6; s7] ->
  let s := [s0; s1; s2; s3; s4; s5; s6; s7] in
  v6_loopback s || v6_unspecified s || v6_multicast s || (N.land s0 65024 =? 64512) || (N.land s0 65472 =? 65152) || ((s0 =? 8193) && (s1 =? 3512))
  = v6_local (v6_number s).
Proof.
  intros H s. destruct (v6_prefixes _ _ _ _ _ _ _ _ H) as (E32 & E96 & E112 & _). fold s in E32, E96, E112. pose proof H as Hall.
  rewrite !Forall_cons in H. destruct H as (H0 & H1 & _). destruct (word_masks s0 H0) as (M1 & M2 & M3 & _).
  unfold v6_loopback, v6_unspecified. rewrite !same_number by (done || by repeat constructor).
  unfold v6_multicast, segment. cbn [lookup list_lookup default]. change (default 0 (s !! 0%nat)) with s0. rewrite M1, M2, M3.
  unfold v6_local, LOCAL_V6. cbn [existsb]. unfold in_net. cbn [fst snd].
  assert (Ek : forall k, v6_number s / (2 ^ 112 * k) = s0 / k) by (intros k; by rewrite <- N.Div0.div_div, E112).
  replace (v6_number s / 2 ^ (128 - 8)) with (s0 / 256) by (symmetry; exact (Ek 256)).
  replace (v6_number s / 2 ^ (128 - 7)) with (s0 / 512) by (symmetry; exact (Ek 512)).
  replace (v6_number s / 2 ^ (128 - 10)) with (s0 / 64) by (symmetry; exact (Ek 64)).
  change (2 ^ (128 - 32)) with (2 ^ 96). rewrite E96. change (2 ^ (128 - 128)) with 1. rewrite !N.div_1_r.
  replace (v6_number [s0; s1] =? v6_number [8193; 3512; 0; 0; 0; 0; 0; 0] / 2 ^ 96) with ((s0 =? 8193) && (s1 =? 3512)).
  2:{ replace (v6_number [8193; 3512; 0; 0; 0; 0; 0; 0] / 2 ^ 96) with (8193 * 65536 + 3512) by (vm_compute; reflexivity).
      unfold v6_number. cbn [foldl]. rewrite N.mul_0_l, N.add_0_l. symmetry. by apply eqb_digits. }
  replace (v6_number [65280; 0; 0; 0; 0; 0; 0; 0] / 2 ^ (128 - 8)) with 255 by (vm_compute; reflexivity).
  replace (v6_number [64512; 0; 0; 0; 0; 0; 0; 0] / 2 ^ (128 - 7)) with 126 by (vm_compute; reflexivity).
  replace (v6_number [65152; 0; 0; 0; 0; 0; 0; 0] / 2 ^ (128 - 10)) with 1018 by (vm_compute; reflexivity).
  rewrite orb_false_r. by rewrite !orb_assoc, (orb_comm (v6_number s =? v6_number [0; 0; 0; 0; 0; 0; 0; 1])).
Qed.

(** Fetches are refused exactly for the networks that are not the public
    internet.  An IPv4 address is public when it is in none of thirteen
    networks; an IPv6 address that embeds one (mapped, or for NAT64) is judged
    by it, any other one by six networks. *)
Theorem public_addresses_exact (ip : IpAddr) : proper_ip ip -> is_public ip = public_address ip.
Proof.
  destruct ip as [a b c d|s]; [intros (Ha & Hb & Hc & Hd); by apply v4_local_exact|].
  intros [Hl H]. destruct s as [|s0 [|s1 [|s2 [|s3 [|s4 [|s5 [|s6 [|s7 [|? ?]]]]]]]]]; try discriminate Hl.
  pose proof (embedded_exact _ _ _ _ _ _ _ _ s6 s7 H eq_refl eq_refl) as He. destruct (v6_prefixes _ _ _ _ _ _ _ _ H) as (E32 & _).
  assert (H6 : Forall (fun g => g < 65536) [s0; s1; s2; s3; s4; s5]) by exact (proj1 (proj1 (Forall_app _ [s0; s1; s2; s3; s4; s5] [s6; s7]) H)).
  assert (Hp : forall t, length t = 6%nat -> Forall (fun g => g < 65536) t ->
    same_segments [s0; s1; s2; s3; s4; s5] t = (v6_number [s0; s1; s2; s3; s4; s5; s6; s7] / 2 ^ (128 - 96) =? v6_number t)).
  { intros t Ht Hb. change (2 ^ (128 - 96)) with (2 ^ 32). rewrite E32. by apply same_number. }
  unfold is_public, is_public_v6, to_ipv4_mapped, public_address, EMBEDDING_V6. cbn [take existsb]. rewrite !Hp by (done || by repeat constructor).
  unfold in_net at 1 2. cbn [fst snd].
  replace (v6_number [0; 0; 0; 0; 0; 65535; 0; 0] / 2 ^ (128 - 96)) with (v6_number [0; 0; 0; 0; 0; 65535]) by (vm_compute; reflexivity).
  replace (v6_number [100; 65435; 0; 0; 0; 0; 0; 0] / 2 ^ (128 - 96)) with (v6_number [100; 65435; 0; 0; 0; 0]) by (vm_compute; reflexivity).
  unfold segment. cbn [lookup list_lookup].
  change (default 0 ([s0; s1; s2; s3; s4; s5; s6; s7] !! 6%nat)) with s6. change (default 0 ([s0; s1; s2; s3; s4; s5; s6; s7] !! 7%nat)) with s7.
  change (default 0 ([s0; s1; s2; s3; s4; s5; s6; s7] !! 0%nat)) with s0. change (default 0 ([s0; s1; s2; s3; s4; s5; s6; s7] !! 1%nat)) with s1.
  destruct (_ =? v6_number [0; 0; 0; 0; 0; 65535]); cbn [orb]; [exact He|].
  destruct (_ =? v6_number [100; 65435; 0; 0; 0; 0]); cbn [orb]; [exact He|]. f_equal. by apply v6_local_exact.
Qed.

Lemma public_addresses_exact_witness : is_public (V6 [100; 65435; 0; 0; 0; 0; 2560; 1]) = false.
Proof.
  rewrite (public_addresses_exact (V6 [100; 65435; 0; 0; 0; 0; 2560; 1])); [vm_compute; reflexivity|].
  split; [reflexivity|]. repeat constructor.
Defined.

(** * Fetches *)

Section WithUrls.
Context {W : WebUrl}.

(** What the crate [url] documents of [set_scheme]. *)
Definition scheme_laws : Prop :=
  (forall s u v, set_scheme s u = Some v -> scheme v = s /\ host_str v = host_str u)
  /\ forall u, scheme u = str "http" -> exists v, set_scheme (str "https") u = Some v.

(** Where the guarded client connects, as [reqwest] documents it: to the host
    if it is an address, otherwise to what the resolver it was given answers. *)
Definition connects_as_documented (connected : nat -> url -> list IpAddr) : Prop :=
  forall n u ip, ip ∈ connected n u ->
    match host_ip u with
    | Some literal => ip = literal
    | None => exists host answer ips, host_str u = Some host /\ resolve_public host answer = Ok ips /\ ip ∈ ips
    end.

(** A request of a fetch for [requested]. *)
Definition on_site (requested u : url) : Prop :=
  (scheme u = str "https" \/ (scheme u = str "http" /\ is_loopback_host u = true)) /\ bare_host u = bare_host requested.

Lemma upgrade_host u : scheme_laws -> host_str (upgrade u) = host_str u.
Proof.
  intros [H _]. unfold upgrade. destruct (_ && _); [|done]. destruct (set_scheme _ u) as [v|] eqn:E; [|done]. by apply H in E as [_ ?].
Qed.

Lemma upgrade_site requested u :
  scheme_laws -> is_web (scheme u) = true -> bare_host u = bare_host requested -> on_site requested (upgrade u).
Proof.
  intros Hl Hw Hb. assert (Hh := upgrade_host u Hl). split; [|unfold bare_host in *; by rewrite Hh].
  assert (Hlb : is_loopback_host (upgrade u) = is_loopback_host u) by (unfold is_loopback_host, host_ip; by rewrite Hh). rewrite Hlb. clear Hlb Hh.
  unfold upgrade. unfold is_web in Hw. apply orb_true_iff in Hw as [Hw|Hw]; apply teqb_eq in Hw.
  - rewrite Hw, teqb_refl. cbn [andb]. destruct (is_loopback_host u); [by right|]. cbn [negb]. destruct Hl as [H1 H2].
    destruct (H2 u Hw) as [v E]. rewrite E. left. by apply H1 in E as [? _].
  - rewrite Hw. left. done.
Qed.

Lemma public_all host ips r :
  foldl (fun r ip => match r with Ok tt => ensure_public ip host | Err e => Err e end) r ips = Ok tt -> r = Ok tt.
Proof. revert r; induction ips as [|ip ips IH]; intros r H; [done|]. cbn in H. apply IH in H. by destruct r as [[]|]. Qed.

Lemma guarded_connections connected n u answer :
  connects_as_documented connected -> check_public u answer = Ok tt -> Forall (fun ip => is_public ip = true) (connected n u).
Proof.
  intros Hc Hp. apply Forall_forall. intros ip Hip. specialize (Hc n u ip Hip). unfold check_public in Hp. destruct (host_str u) as [host|]; [|done].
  destruct (host_ip u) as [literal|].
  - subst. unfold ensure_public in Hp. by destruct (is_public literal).
  - destruct Hc as (h & a & ips & _ & Hr & Hin). unfold resolve_public in Hr. destruct a as [l|]; [|done].
    destruct (List.filter is_public l) as [|x l'] eqn:E; [done|]. injection Hr as <-. rewrite <- E in Hin. by apply list_elem_of_In, filter_In in Hin as [_ ?].
Qed.

Definition request_ok (connected : nat -> url -> list IpAddr) (opts : FetchOptions) (requested : url) (request : nat * url) : Prop :=
  on_site requested (snd request)
  /\ (allow_private_network opts = false -> Forall (fun ip => is_public ip = true) (connected (fst request) (snd request))).

Lemma fetch_loop_requests net connected rounds n requested current opts :
  scheme_laws -> connects_as_documented connected -> on_site requested current ->
  let sent := snd (fetch_loop net rounds n requested current opts) in
  (length sent <= rounds)%nat /\ Forall (request_ok connected opts requested) sent.
Proof.
  intros Hl Hc. revert n current; induction rounds as [|rounds IH]; intros n current Hs; [by split|]. cbn [fetch_loop].
  assert (Hcheck : forall r, (if allow_private_network opts then Ok tt else check_public current (lookup_host net n (default [] (host_str current)))) = r ->
    r = Ok tt -> request_ok connected opts requested (n, current)).
  { intros r E ->. split; [done|]. intros Hn. rewrite Hn in E. by apply (guarded_connections _ _ _ _ Hc E). }
  destruct (if allow_private_network opts then _ else _) as [[]|e]; [|split; [cbn; lia|constructor]]. specialize (Hcheck _ eq_refl eq_refl).
  assert (Hone : (length [(n, current)] <= S rounds)%nat /\ Forall (request_ok connected opts requested) [(n, current)]) by (split; [cbn; lia|by constructor]).
  destruct (send net _ n current) as [r|e]; [|exact Hone]. destruct (redirect_target current r) as [[next|]|e]; [|exact Hone|exact Hone].
  destruct (same_site current next) eqn:E; [|exact Hone]. unfold same_site in E. apply andb_prop in E as [Hw Hb].
  destruct (IH (S n) (upgrade next)) as [H1 H2].
  - apply upgrade_site; [done|done|]. destruct Hs as [_ <-]. destruct (bare_host current), (bare_host next); try done. by apply teqb_eq in Hb as ->.
  - destruct (fetch_loop net rounds (S n) requested (upgrade next) opts) as [page sent]. cbn [snd] in *. split; [cbn; lia|by constructor].
Qed.

(** C24: fetches stay on the public internet and on their site.  Whatever the
    servers and the name servers answer, and however the answers change between
    the check and the connection, a fetch without private access connects to
    public addresses only; every fetch sends at most six requests, all to the
    host it was asked for, over https unless that host is this machine. *)
Theorem fetch_stays_public (f : FetchCall) (c : PageCache) (connected : nat -> url -> list IpAddr) :
  scheme_laws -> connects_as_documented connected ->
  let sent := snd (fetch f c) in
  (length sent <= 6)%nat
  /\ (sent <> [] -> exists requested, prepare (asked_url f) = Ok requested /\ Forall (request_ok connected (fetch_opts f) requested) sent).
Proof.
  intros Hl Hc. unfold fetch. destruct (prepare (asked_url f)) as [requested|e] eqn:Ep; [|split; [cbn; lia|done]].
  destruct (cache_get _ _ _ _) as [c' [page|]]; [split; [cbn; lia|done]|].
  assert (Hs : on_site requested requested).
  { unfold prepare in Ep. destruct (url_parse _) as [u|]; [|done]. destruct (is_web (scheme u)) eqn:Ew; [|done]. injection Ep as <-.
    destruct (upgrade_site u u Hl Ew eq_refl) as [H _]. by split. }
  pose proof (fetch_loop_requests (network f) connected (S MAX_REDIRECTS) 0 requested requested (fetch_opts f) Hl Hc Hs) as [H1 H2].
  unfold fetch_live. destruct (fetch_loop _ _ _ _ _ _) as [r sent]. cbn [snd] in H1, H2.
  assert (Hsent : (length sent <= 6)%nat /\ (sent <> [] -> exists requested0, Ok (E := HostError) requested = Ok requested0
    /\ Forall (request_ok connected (fetch_opts f) requested0) sent)) by (split; [exact H1|intros _; by exists requested]).
  destruct (cancelled f); [exact Hsent|]. by destruct r.
Qed.

(** * Cached pages *)

(** An entry was put by an earlier fetch, whose page it is. *)
Definition put_by (past : list FetchCall) (key : text) (e : Entry) : Prop :=
  exists f requested, f ∈ past /\ prepare (asked_url f) = Ok requested /\ show_url requested = key
    /\ fst (fetch_live (network f) requested (fetch_opts f)) = Ok (entry_page e)
    /\ stored e = put_at f /\ private e = allow_private_network (fetch_opts f) /\ entry_max_bytes e = max_bytes (fetch_opts f).

Definition cache_ok (past : list FetchCall) (c : PageCache) : Prop :=
  (length c <= CAPACITY)%nat /\ Forall (fun ke => put_by past (fst ke) (snd ke)) c.

Lemma put_by_more past past' key e : past ⊆ past' -> put_by past key e -> put_by past' key e.
Proof. intros H (f & r & Hin & Hf). exists f, r. split; [by apply H|done]. Qed.

Lemma entry_of_in key c e : entry_of key c = Some e -> (key, e) ∈ c.
Proof.
  unfold entry_of. destruct (List.find _ c) as [[k x]|] eqn:E; [|done]. cbn. intros [= <-]. apply List.find_some in E as [Hin Hk].
  cbn [fst] in Hk. apply teqb_eq in Hk. subst k. by apply list_elem_of_In.
Qed.

Lemma filter_shorter {A} (p : A -> bool) l : (length (List.filter p l) <= length l)%nat.
Proof. induction l as [|x l IH]; [done|]. cbn. destruct (p x); cbn; lia. Qed.

Lemma without_shorter key e c : (key, e) ∈ c -> (length (without_key key c) < length c)%nat.
Proof.
  induction c as [|[k x] c IH]; [by intros ?%not_elem_of_nil|]. intros [[= <- <-]|H]%elem_of_cons; unfold without_key; cbn [List.filter fst length].
  - rewrite teqb_refl. cbn [negb]. pose proof (filter_shorter (fun ke : text * Entry => negb (teqb (fst ke) key)) c). lia.
  - destruct (negb (teqb k key)); cbn [length]; [apply (proj1 (Nat.succ_lt_mono _ _)); by apply IH|].
    pose proof (filter_shorter (fun ke : text * Entry => negb (teqb (fst ke) key)) c). lia.
Qed.

Lemma oldest_in c : c <> [] -> exists ke, oldest_entry c = Some ke /\ ke ∈ c.
Proof.
  intros Hne. unfold oldest_entry. assert (H : forall l best,
    match best with Some b => b ∈ c | None => l <> [] end -> l ⊆ c ->
    exists ke, foldl (fun best ke => match best with None => Some ke | Some b => if stored (snd ke) <? stored (snd b) then Some ke else best end) best l
               = Some ke /\ ke ∈ c).
  { induction l as [|x l IH]; intros best Hb Hl.
    - destruct best as [b|]; [by exists b|done].
    - assert (Hx : x ∈ c) by (apply Hl; by left). cbn [foldl]. apply IH; [|intros y Hy; apply Hl; by right].
      destruct best as [b|]; [|done]. by destruct (_ <? _). }
  apply H; [done|]. by intros x.
Qed.

Lemma cache_put_ok past f requested page c :
  prepare (asked_url f) = Ok requested -> fst (fetch_live (network f) requested (fetch_opts f)) = Ok page ->
  cache_ok past c -> cache_ok (f :: past) (cache_put (put_at f) (show_url requested) page (fetch_opts f) c).
Proof.
  intros Hp Hl [Hlen Hc]. set (key := show_url requested). assert (Hsub : forall k c', Forall (fun ke => put_by (f :: past) (fst ke) (snd ke)) c' ->
    Forall (fun ke => put_by (f :: past) (fst ke) (snd ke)) (without_key k c')).
  { intros k c' H. apply Forall_forall. intros ke Hin. apply list_elem_of_In, filter_In in Hin as [Hin _].
    rewrite Forall_forall in H. apply H. by apply list_elem_of_In. }
  assert (Hc' : Forall (fun ke => put_by (f :: past) (fst ke) (snd ke)) c).
  { eapply Forall_impl; [exact Hc|]. intros ke. apply put_by_more. intros x Hx. by right. }
  assert (Hnew : put_by (f :: past) key (mkEntry page (put_at f) (allow_private_network (fetch_opts f)) (max_bytes (fetch_opts f)))).
  { exists f, requested. split; [by left|]. by split_and!. }
  unfold cache_put, cache_ok. fold key. destruct (Nat.leb_spec CAPACITY (length c)) as [Hge|Hlt]; cbn [andb].
  - destruct (entry_of key c) as [e|] eqn:Ee.
    + apply entry_of_in in Ee. pose proof (without_shorter key e c Ee). split; [rewrite length_app; cbn [length]; lia|].
      apply Forall_app. split; [by apply Hsub|by constructor].
    + destruct (oldest_in c) as ([k x] & -> & Hin); [intros ->; vm_compute in Hge; lia|]. pose proof (without_shorter k x c Hin).
      pose proof (filter_shorter (fun ke : text * Entry => negb (teqb (fst ke) key)) (without_key k c)).
      split; [rewrite length_app; unfold without_key at 1; cbn [length]; lia|]. apply Forall_app. split; [by apply Hsub, Hsub|by constructor].
  - pose proof (filter_shorter (fun ke : text * Entry => negb (teqb (fst ke) key)) c).
    split; [rewrite length_app; unfold without_key; cbn [length]; lia|]. apply Forall_app. split; [by apply Hsub|by constructor].
Qed.

Lemma cache_get_ok past now key opts c : cache_ok past c -> cache_ok past (fst (cache_get now key opts c)).
Proof.
  intros [Hl Hc]. cbn. set (p := fun ke : text * Entry => _ <? TTL). pose proof (filter_shorter p c). split; [lia|].
  apply Forall_forall. intros ke Hin. apply list_elem_of_In, filter_In in Hin as [Hin _]. rewrite Forall_forall in Hc. apply Hc. by apply list_elem_of_In.
Qed.

Lemma fetch_ok past f c : cache_ok past c -> cache_ok (f :: past) (fst (fst (fetch f c))).
Proof.
  intros H. assert (Hmore : forall c', cache_ok past c' -> cache_ok (f :: past) c').
  { intros c' [Hl Hc]. split; [done|]. eapply Forall_impl; [exact Hc|]. intros ke. apply put_by_more. intros x Hx. by right. }
  unfold fetch. destruct (prepare (asked_url f)) as [requested|e] eqn:Ep; [|by apply Hmore].
  pose proof (cache_get_ok past (get_at f) (show_url requested) (fetch_opts f) c H) as Hg.
  destruct (cache_get _ _ _ _) as [c' [page|]]; [by apply Hmore|]. cbn [fst] in Hg.
  destruct (fetch_live (network f) requested (fetch_opts f)) as [r sent] eqn:El. destruct (cancelled f); [by apply Hmore|].
  destruct r as [page|e]; [|by apply Hmore]. cbn [fst]. destruct (_ || _); [|by apply Hmore].
  apply cache_put_ok; [done|by rewrite El|done].
Qed.

(** The cache after some fetches, the latest first. *)
Definition cache_after (past : list FetchCall) : PageCache := foldr (fun f c => fst (fst (fetch f c))) [] past.

Lemma cache_after_ok past : cache_ok past (cache_after past).
Proof. induction past as [|f past IH]; [split; [cbn; lia|constructor]|]. by apply fetch_ok. Qed.

(** A page served from the cache was fetched for the same URL, within the
    last quarter of an hour, by a caller with no more access: what was read
    with private access is served only to callers that have it, a page cut
    short only to callers that asked for no more.  The cache never grows past
    its capacity. *)
Theorem cached_pages_belong (past : list FetchCall) (f : FetchCall) (requested : url) (page : FetchedPage) :
  prepare (asked_url f) = Ok requested ->
  snd (cache_get (get_at f) (show_url requested) (fetch_opts f) (cache_after past)) = Some page ->
  (length (cache_after past) <= CAPACITY)%nat
  /\ exists g requested' live, g ∈ past /\ prepare (asked_url g) = Ok requested' /\ show_url requested' = show_url requested
    /\ fst (fetch_live (network g) requested' (fetch_opts g)) = Ok live
    /\ (page_content page, page_status page, final_url page, redirect page) = (page_content live, page_status live, final_url live, redirect live)
    /\ get_at f - put_at g < TTL
    /\ (allow_private_network (fetch_opts g) = true -> allow_private_network (fetch_opts f) = true)
    /\ (page_truncated live = true -> max_bytes (fetch_opts f) <= max_bytes (fetch_opts g)).
Proof.
  intros Hp Hg. destruct (cache_after_ok past) as [Hl Hc]. split; [done|]. cbn in Hg.
  destruct (entry_of _ _) as [e|] eqn:E; [|done]. cbn in Hg. apply entry_of_in, list_elem_of_In, filter_In in E as [Hin Ht]. cbn in Ht.
  rewrite Forall_forall in Hc. apply list_elem_of_In, Hc in Hin as (g & r & Hpast & Hr & Hk & Hlive & Hs & Hpr & Hm). cbn [fst snd] in *.
  destruct ((negb (private e) || _) && _) eqn:Ea; [|done]. injection Hg as <-. apply andb_prop in Ea as [Ea Eb]. rewrite Hs in Ht. rewrite Hpr in Ea. rewrite Hm in Eb.
  exists g, r, (entry_page e). split_and!; try done; [lia| |].
  - intros Hpriv. rewrite Hpriv in Ea. by destruct (allow_private_network (fetch_opts f)).
  - intros Hcut. rewrite Hcut in Eb. cbn in Eb. lia.
Qed.

End WithUrls.

(** * The sandbox *)

Section WithFiles.
Context {F : FileSystem}.

(** The mounts the arguments ask for, in order: whether each is writable, and
    where it is. *)
Fixpoint read_mounts (args : list text) : option (list (bool * path)) :=
  match args with
  | [] => None
  | flag :: args =>
      if teqb flag (str "--") then Some []
      else if teqb flag (str "--unshare-net") || teqb flag (str "--die-with-parent") then read_mounts args
      else match args with
           | [] => None
           | dest :: args =>
               if teqb flag (str "--dev") || teqb flag (str "--proc") then cons (true, components dest) <$> read_mounts args
               else match args with
                    | [] => None
                    | dest' :: args =>
                        if negb (teqb dest dest') then None
                        else if teqb flag (str "--bind") then cons (true, components dest) <$> read_mounts args
                        else if teqb flag (str "--ro-bind") then cons (false, components dest) <$> read_mounts args
                        else None
                    end
           end
  end.

(** The last mount that covers a path decides. *)
Definition may_write (mounts : list (bool * path)) (t : path) : bool :=
  foldl (fun b m => if path_starts_with t (snd m) then fst m else b) false mounts.

(** What [std::fs::canonicalize] documents of its answers. *)
Definition canonical_answers : Prop := forall p q, canonicalize p = Some q -> wf_path q /\ is_absolute q = true.

Lemma read_mounts_bind (b : bool) ps args ms :
  Forall wf_path ps -> read_mounts args = Some ms ->
  read_mounts (flat_map (bind (if b then str "--bind" else str "--ro-bind")) ps ++ args) = Some (map (pair b) ps ++ ms).
Proof.
  intros H Hm. induction H as [|p ps Hp _ IH]; [done|]. cbn [flat_map bind app map read_mounts].
  destruct b; cbn [fst]; rewrite teqb_refl; cbn [negb]; rewrite components_display_wf by done; cbn; cbn in IH; by rewrite IH.
Qed.

Lemma read_mounts_args w r network tail :
  Forall wf_path w -> Forall wf_path r ->
  read_mounts (bubblewrap_args w r network ++ tail)
  = Some ([(false, [RootDir]); (true, components (str "/dev")); (true, components (str "/proc"))]
          ++ map (pair true) (shared_temp w ++ w) ++ map (pair false) (List.filter exists_at r)).
Proof.
  intros Hw Hr. unfold bubblewrap_args. rewrite <- !app_assoc. cbn.
  assert (Hs : Forall wf_path (shared_temp w ++ w)).
  { apply Forall_app. split; [|done]. apply Forall_forall. intros p Hp. apply list_elem_of_In, filter_In in Hp as [Hp _].
    apply in_map_iff in Hp as (t & <- & _). apply components_wf. }
  assert (Hf : Forall wf_path (List.filter exists_at r)).
  { apply Forall_forall. intros p Hp. apply list_elem_of_In, filter_In in Hp as [Hp _]. rewrite Forall_forall in Hr. by apply Hr, list_elem_of_In. }
  pose proof (read_mounts_bind true (shared_temp w ++ w)) as Hb. cbn [bind] in Hb. erewrite Hb; [|done|]; clear Hb.
  2:{ pose proof (read_mounts_bind false (List.filter exists_at r)) as Hb. cbn [bind] in Hb. apply Hb; [done|]. by destruct network. }
  cbn. by rewrite app_nil_r.
Qed.

Lemma may_write_pairs (b : bool) (t : path) (ps : list path) (d : bool) :
  foldl (fun (b : bool) (m : bool * path) => if path_starts_with t (snd m) then fst m else b) d (map (pair b) ps) = if existsb (path_starts_with t) ps then b else d.
Proof.
  revert d; induction ps as [|p ps IH]; intros d; [done|]. cbn [map foldl existsb fst snd]. rewrite IH.
  by destruct (path_starts_with t p), (existsb _ ps).
Qed.

Lemma in_insert_path x l p : In x (insert_path l p) <-> x = p \/ In x l.
Proof.
  induction l as [|q l IH]; cbn [insert_path]; [cbn; intuition congruence|].
  destruct (path_lt p q); [cbn; intuition congruence|]. destruct (path_eqb p q) eqn:E.
  - apply path_eqb_eq in E. subst. cbn. intuition congruence.
  - cbn. rewrite IH. intuition congruence.
Qed.

Lemma in_sorted_paths x ps : In x (sorted_paths ps) <-> In x ps.
Proof.
  unfold sorted_paths. assert (H : forall l, In x (foldl insert_path l ps) <-> In x l \/ In x ps).
  { induction ps as [|p ps IH]; intros l; cbn [foldl]; [cbn; tauto|]. rewrite IH, in_insert_path. cbn. intuition congruence. }
  rewrite H. cbn. tauto.
Qed.

Lemma starts_with_trans t q w : path_starts_with t q = true -> path_starts_with q w = true -> path_starts_with t w = true.
Proof. rewrite !path_starts_with_spec. intros (r & ->) (s & ->). exists (s ++ r). by rewrite app_assoc. Qed.

(** Dropping nested entries loses nothing. *)
Lemma kept_covers t ps kept :
  existsb (path_starts_with t) (foldl (fun kept q => if existsb (path_starts_with q) kept then kept else kept ++ [q]) kept ps)
  = existsb (path_starts_with t) kept || existsb (path_starts_with t) ps.
Proof.
  revert kept; induction ps as [|q ps IH]; intros kept; cbn [foldl existsb]; [by rewrite orb_false_r|]. rewrite IH.
  destruct (existsb (path_starts_with q) kept) eqn:E.
  - destruct (path_starts_with t q) eqn:Eq; [|done]. apply existsb_exists in E as (w & Hw & Hq).
    replace (existsb (path_starts_with t) kept) with true; [done|]. symmetry. apply existsb_exists. exists w.
    split; [done|]. by apply (starts_with_trans t q w).
  - rewrite existsb_app. cbn. by rewrite orb_false_r, orb_assoc.
Qed.

Lemma writable_covers t p : existsb (path_starts_with t) (resolved_writable p) = existsb (path_starts_with t) (omap canonicalize (writable p)).
Proof.
  unfold resolved_writable. rewrite kept_covers. cbn [existsb orb]. apply eq_true_iff_eq. rewrite !existsb_exists.
  split; intros (x & Hx & Ht); exists x; (split; [by apply in_sorted_paths|done]).
Qed.

Lemma resolved_writable_wf p : canonical_answers -> Forall wf_path (resolved_writable p).
Proof.
  intros Hc. unfold resolved_writable. assert (H : forall ps kept, Forall wf_path kept -> Forall wf_path ps ->
    Forall wf_path (foldl (fun kept q => if existsb (path_starts_with q) kept then kept else kept ++ [q]) kept ps)).
  { induction ps as [|q ps IH]; intros kept Hk Hps; [done|]. inversion Hps; subst. cbn [foldl]. apply IH; [|done].
    destruct (existsb _ kept); [done|]. apply Forall_app. split; [done|by constructor]. }
  apply H; [constructor|]. apply Forall_forall. intros x Hx. apply list_elem_of_In, in_sorted_paths, list_elem_of_In, list_elem_of_omap in Hx as (y & _ & Hy).
  by apply Hc in Hy as [? _].
Qed.

Lemma wf_app_names p rest : wf_path p -> is_absolute p = true -> Forall good_name rest -> wf_path (p ++ names rest).
Proof.
  intros Hp Ha Hr. destruct (wf_absolute p Hp Ha) as (q & -> & Hq). cbn. apply Forall_app. split; [done|].
  apply Forall_forall. intros c Hin. apply list_elem_of_In, in_map_iff in Hin as (n & <- & Hn). rewrite Forall_forall in Hr. by apply Hr, list_elem_of_In.
Qed.

Lemma join_names p rest : foldl (fun dir name => path_join dir [Normal name]) p rest = p ++ names rest.
Proof.
  revert p; induction rest as [|n rest IH]; intros p; cbn [foldl]; [by rewrite app_nil_r|]. rewrite path_join_push by done.
  rewrite IH, <- app_assoc. done.
Qed.

Lemma lenient_wf p q : canonical_answers -> wf_path p -> lenient p = Some q -> wf_path q.
Proof.
  intros Hc Hp. unfold lenient.
  assert (H : forall rev rest, Forall (fun c => match c with Normal n => good_name n | _ => True end) rev -> Forall good_name rest ->
    lenient_loop rev rest = Some q -> wf_path q).
  { induction rev as [|c rev IH]; intros rest Hrev Hrest; cbn [lenient_loop];
      (destruct (canonicalize _) as [base|] eqn:E; [intros [= <-]; rewrite join_names; apply Hc in E as [? ?]; by apply wf_app_names|]); [done|].
    inversion Hrev; subst. destruct c as [| | |n]; try done. apply IH; [done|by constructor]. }
  apply H; [|constructor]. apply Forall_reverse. destruct p as [|[| | |n] p]; cbn in Hp; try constructor; try done;
    try (inversion Hp; subst; done); (eapply Forall_impl; [first [exact Hp|by inversion Hp]|]); by intros [].
Qed.

Lemma read_only_wf p : canonical_answers -> Forall wf_path (read_only p) -> Forall wf_path (resolved_read_only p).
Proof.
  intros Hc Hr. apply Forall_forall. intros x Hx. apply list_elem_of_In, in_sorted_paths, list_elem_of_In, list_elem_of_omap in Hx as (y & Hin & Hy).
  apply (lenient_wf y x Hc); [|done]. rewrite Forall_forall in Hr. by apply Hr.
Qed.

Lemma wf_app_tail p rest : p <> [] -> wf_path p -> Forall tail_component rest -> wf_path (p ++ rest).
Proof.
  intros Hne Hp Hr. destruct p as [|c p]; [done|]. destruct c as [| | |n]; cbn in *; try (by apply Forall_app);
    inversion Hp; subst; constructor; try done; by apply Forall_app.
Qed.

Lemma path_join_wf base p : wf_path base -> wf_path p -> wf_path (path_join base p).
Proof.
  intros Hb Hp. unfold path_join. destruct (is_absolute p) eqn:Ea; [done|]. pose proof (relative_tail_wf p Hp Ea) as Ht.
  destruct base as [|c base]; [by destruct p as [|[] ?]|]. destruct p as [|[| | |n] p]; cbn [relative_tail] in Ht;
    first [by rewrite app_nil_r|by apply wf_app_tail].
Qed.

Lemma host_resolve_wf root input : wf_path root -> wf_path input -> wf_path (host_resolve root input).
Proof.
  intros Hr Hi. assert (H : forall p, wf_path p -> wf_path (host_normalize p)).
  { intros p Hp. unfold host_normalize. pose proof (canonical_wf _ (normalize_canonical p Hp)). by destruct (normalize p); [constructor|]. }
  unfold host_resolve. destruct (is_absolute input); apply H; [done|]. by apply path_join_wf.
Qed.

Lemma git_common_dir_wf root common : wf_path root -> git_common_dir root = Some common -> wf_path common.
Proof.
  intros Hr E. unfold git_common_dir in E. destruct (negb _); [done|]. destruct (read_to_string _) as [t|]; [|done]. cbn in E.
  destruct (strip_prefix _ _) as [dir|]; [|done]. cbn in E.
  assert (Hg : wf_path (host_resolve root (components (trim dir)))) by (apply host_resolve_wf; [done|apply components_wf]).
  destruct (is_dir _); [|done]. injection E as <-. destruct (read_to_string _); [|done]. apply host_resolve_wf; [done|apply components_wf].
Qed.

Lemma workspace_read_only_wf root dirs extra network :
  wf_path root -> Forall wf_path dirs -> Forall wf_path (read_only (for_workspace root dirs extra network)).
Proof.
  intros Hr Hd. unfold for_workspace. assert (Hroots : Forall wf_path (workspace_roots root dirs)).
  { constructor; [done|]. apply Forall_forall. intros x Hx. apply list_elem_of_In, in_map_iff in Hx as (d & <- & Hin).
    apply host_resolve_wf; [done|]. rewrite Forall_forall in Hd. by apply Hd, list_elem_of_In. }
  assert (Hp : Forall wf_path (flat_map (fun dir => map (fun p => path_join dir (components p)) PROTECTED) (workspace_roots root dirs))).
  { apply Forall_forall. intros x Hx. apply list_elem_of_In, in_flat_map in Hx as (d & Hin & Hx). apply in_map_iff in Hx as (p & <- & _).
    apply path_join_wf; [|apply components_wf]. rewrite Forall_forall in Hroots. by apply Hroots, list_elem_of_In. }
  destruct (git_common_dir root) as [common|] eqn:E; cbn [read_only]; [|by rewrite app_nil_r].
  pose proof (git_common_dir_wf root common Hr E).
  apply Forall_app. split; [done|]. apply Forall_cons. split; [|apply Forall_singleton]; (apply path_join_wf; [done|apply components_wf]).
Qed.

(** What bubblewrap mounts afresh for the command ([--dev] and [--proc]). *)
Definition PRIVATE_MOUNTS : list text := [str "/dev"; str "/proc"].

(** What the mounts of a wrapped shell allow, once read. *)
Lemma wrapped_mounts bwrap shell profile wrapped :
  canonical_answers -> Forall wf_path (read_only profile) -> wrap bwrap shell profile LinuxBubblewrap = Ok wrapped ->
  let w := resolved_writable profile in
  exists ms, read_mounts (shell_args wrapped) = Some ms
    /\ forall t, may_write ms t
         = (existsb (path_starts_with t) (map components PRIVATE_MOUNTS) || existsb (path_starts_with t) (shared_temp w ++ w))
           && negb (existsb (path_starts_with t) (List.filter exists_at (resolved_read_only profile))).
Proof.
  intros Hc Hr Hw w. unfold wrap in Hw. destruct (negb _); [done|]. destruct bwrap as [prog|]; [|done]. injection Hw as <-.
  change (shell_args _) with (bubblewrap_args w (resolved_read_only profile) (allow_network profile) ++ display (program shell) :: shell_args shell).
  rewrite read_mounts_args by first [by apply resolved_writable_wf|by apply read_only_wf]. eexists; split; [done|]. intros t.
  unfold may_write. rewrite !foldl_app, !may_write_pairs. cbn [foldl fst snd map existsb PRIVATE_MOUNTS].
  by destruct (existsb _ (List.filter _ _)), (existsb (path_starts_with t) (shared_temp w ++ w)), (path_starts_with t [RootDir]),
    (path_starts_with t (components (str "/dev"))), (path_starts_with t (components (str "/proc"))).
Qed.

(** C23: what a command may write under bubblewrap.  The shell is wrapped in
    arguments whose last mount covering a path makes it writable exactly when
    the path lies in [/dev] or [/proc], which are the command's own, in a shared
    directory for temporary files or under an existing directory the profile
    lists as writable, and not under an existing path the profile lists as
    read-only; dropping nested entries and following links changes nothing. *)
Theorem sandbox_writes_exact (bwrap : option path) (shell wrapped : ShellSpec) (profile : SandboxProfile) :
  canonical_answers -> Forall wf_path (read_only profile) -> wrap bwrap shell profile LinuxBubblewrap = Ok wrapped ->
  exists ms, read_mounts (shell_args wrapped) = Some ms
    /\ forall t,
         (may_write ms t = true <->
            ((exists name, In name PRIVATE_MOUNTS /\ path_starts_with t (components name) = true)
             \/ (exists name, In name SHARED_TEMP /\ is_dir (components name) = true /\ path_starts_with t (components name) = true)
             \/ exists p q, In p (writable profile) /\ canonicalize p = Some q /\ path_starts_with t q = true)
            /\ ~ exists p q, In p (read_only profile) /\ lenient p = Some q /\ exists_at q = true /\ path_starts_with t q = true).
Proof.
  intros Hc Hr Hw. destruct (wrapped_mounts _ _ _ _ Hc Hr Hw) as (ms & Hms & Hd). exists ms. split; [done|]. intros t.
  rewrite (Hd t), andb_true_iff, orb_true_iff. f_equiv; [f_equiv|].
  - rewrite existsb_exists. split.
    + intros (x & Hx & Ht). apply in_map_iff in Hx as (n & <- & Hn). by exists n.
    + intros (n & Hn & Ht). exists (components n). split; [by apply in_map|done].
  - rewrite existsb_app, orb_true_iff, writable_covers. unfold shared_temp. rewrite !existsb_exists. split.
    + intros [(x & [Hx Hf]%filter_In & Ht)|(x & Hx & Ht)].
      * left. apply in_map_iff in Hx as (n & <- & Hn). apply andb_prop in Hf as [Hf _]. by exists n.
      * right. apply list_elem_of_In, list_elem_of_omap in Hx as (p & Hp & Hq). exists p, x. by rewrite <- list_elem_of_In.
    + intros [(n & Hn & Hdir & Ht)|(p & q & Hp & Hq & Ht)].
      * destruct (existsb (path_starts_with (components n)) (resolved_writable profile)) eqn:E.
        -- right. rewrite writable_covers in E. apply existsb_exists in E as (x & Hx & Hn'). exists x. split; [done|]. by apply (starts_with_trans t (components n) x).
        -- left. exists (components n). split; [|done]. apply filter_In. split; [by apply in_map|]. by rewrite Hdir, E.
      * right. exists q. split; [|done]. apply list_elem_of_In, list_elem_of_omap. exists p. by rewrite list_elem_of_In.
  - rewrite negb_true_iff, <- not_true_iff_false, existsb_exists. f_equiv. split.
    + intros (x & [Hx He]%filter_In & Ht). apply in_sorted_paths, list_elem_of_In, list_elem_of_omap in Hx as (p & Hp & Hq).
      exists p, x. by rewrite <- list_elem_of_In.
    + intros (p & q & Hp & Hq & He & Ht). exists q. split; [|done]. apply filter_In. split; [|done].
      apply in_sorted_paths, list_elem_of_In, list_elem_of_omap. exists p. by rewrite list_elem_of_In.
Qed.

(** C22: a command run in the sandbox of a workspace cannot plant code that runs
    outside it: hooks and settings that exist in the project or in an additional
    directory stay read-only, whatever other directories are writable and
    wherever they lead. *)
Theorem protected_files_stay_read_only (bwrap : option path) (shell wrapped : ShellSpec) (root : path) (dirs : list path) (extra : list text) (network : bool) :
  canonical_answers -> wf_path root -> Forall wf_path dirs -> wrap bwrap shell (for_workspace root dirs extra network) LinuxBubblewrap = Ok wrapped ->
  exists ms, read_mounts (shell_args wrapped) = Some ms
    /\ forall dir name q t, In dir (workspace_roots root dirs) -> In name PROTECTED ->
         lenient (path_join dir (components name)) = Some q -> exists_at q = true ->
         path_starts_with t q = true -> may_write ms t = false.
Proof.
  intros Hc Hroot Hdirs Hw. destruct (wrapped_mounts _ _ _ _ Hc (workspace_read_only_wf root dirs extra network Hroot Hdirs) Hw) as (ms & Hms & Hd).
  exists ms. split; [done|]. intros dir name q t Hdir Hname Hq He Ht. rewrite (Hd t). apply andb_false_iff. right.
  apply negb_false_iff, existsb_exists. exists q. split; [|done]. apply filter_In. split; [|done]. apply in_sorted_paths, list_elem_of_In, list_elem_of_omap.
  exists (path_join dir (components name)). split; [|done]. apply list_elem_of_In. unfold for_workspace.
  assert (Hin : In (path_join dir (components name)) (flat_map (fun dir => map (fun p => path_join dir (components p)) PROTECTED) (workspace_roots root dirs))).
  { apply in_flat_map. exists dir. split; [done|]. apply in_map_iff. by exists name. }
  destruct (git_common_dir root); cbn [read_only]; apply in_app_iff; by left.
Qed.
End WithFiles.

(** * Concrete inputs *)

(** URLs of a scheme and a host, as the examples need them. *)
Definition simple_urls : WebUrl := {|
  url := text * text;
  url_parse t := match strip_prefix (str "https://") t with
                 | Some rest => Ok (str "https", rest)
                 | None => match strip_prefix (str "http://") t with Some rest => Ok (str "http", rest) | None => Err (str "no scheme") end
                 end;
  url_join u t := match strip_prefix (str "https://") t with
                  | Some rest => Ok (str "https", rest)
                  | None => Ok (fst u, take_while (fun c => negb (c =? chr "/")) (snd u) ++ t)
                  end;
  scheme := fst;
  set_scheme s u := Some (s, snd u);
  host_str u := Some (take_while (fun c => negb (c =? chr "/")) (snd u));
  port_or_default u := Some 443;
  show_url u := fst u ++ str "://" ++ snd u;
  to_content ct body := body
|}.

Lemma simple_scheme_laws : @scheme_laws simple_urls.
Proof. split; [by intros s u v [= <-]|]. intros u _. by eexists. Qed.

(** A site whose name leads to this machine the second time it is asked for,
    and which redirects to its own [www.]. *)
Definition rebinding : @Network simple_urls := {|
  lookup_host n host := Ok (if Nat.eqb n 0 then [V4 93 184 216 34] else [V4 127 0 0 1; V4 93 184 216 34]);
  send client n u := if Nat.eqb n 0 then Ok (mkResponse 301 (Some (Some (str "https://www.example.com/home"))) [] [])
                     else Ok (mkResponse 200 None (str "text/html") [Ok (str "hello")])
|}.

(** The same site when its name does not move. *)
Definition steady : @Network simple_urls := {|
  lookup_host n host := Ok [V4 93 184 216 34];
  send := @send simple_urls rebinding
|}.

Definition guarded_connections_of (n : nat) (u : @url simple_urls) : list IpAddr :=
  match @host_ip simple_urls u with
  | Some ip => [ip]
  | None => match @host_str simple_urls u with
            | Some host => match resolve_public host (Ok [V4 127 0 0 1; V4 93 184 216 34]) with Ok ips => ips | Err _ => [] end
            | None => []
            end
  end.

Lemma guarded_connections_documented : @connects_as_documented simple_urls guarded_connections_of.
Proof.
  intros n u ip. unfold guarded_connections_of. destruct (@host_ip simple_urls u); [by intros ->%list_elem_of_singleton|].
  destruct (@host_str simple_urls u) as [host|]; [|by intros ?%not_elem_of_nil]. destruct (resolve_public host _) as [ips|] eqn:E; [|by intros ?%not_elem_of_nil].
  intros Hin. by exists host, (Ok [V4 127 0 0 1; V4 93 184 216 34]), ips.
Qed.

Definition example_fetch (at_ : N) (n : Network) : @FetchCall simple_urls :=
  @mkFetchCall simple_urls (str "http://example.com/") (mkFetchOptions 4 false) at_ at_ n false.

Lemma fetch_stays_public_witness :
  (* the second name resolution, which answers an address of this machine, is refused *)
  fst (@fetch simple_urls (example_fetch 0 rebinding) [])
    = ([], Err (HBlocked (str "www.example.com resolves to the private or local address 127.0.0.1")))
  /\ (length (snd (@fetch simple_urls (example_fetch 0 rebinding) [])) <= 6)%nat.
Proof.
  split; [vm_compute; reflexivity|].
  exact (proj1 (@fetch_stays_public simple_urls (example_fetch 0 rebinding) [] guarded_connections_of simple_scheme_laws guarded_connections_documented)).
Defined.

Lemma cached_pages_belong_witness :
  (* the page, cut at four bytes, is served again a minute later *)
  (exists page, snd (cache_get 60000 (str "https://example.com/") (mkFetchOptions 4 false) (@cache_after simple_urls [example_fetch 0 steady])) = Some page
    /\ page_content page = str "hell" /\ page_truncated page = true)
  /\ (length (@cache_after simple_urls [example_fetch 0 steady]) <= CAPACITY)%nat.
Proof.
  split; [eexists; vm_compute; by split_and!|].
  exact (proj1 (@cached_pages_belong simple_urls [example_fetch 0 steady] (example_fetch 60000 steady) (str "https", str "example.com/")
    _ ltac:(vm_compute; reflexivity) ltac:(vm_compute; reflexivity))).
Defined.

(** A project in [/home/me/project] of a machine whose [/home] is a link. *)
Definition example_files : FileSystem := {|
  canonicalize p := if existsb (path_eqb p) (map components [str "/"; str "/tmp"; str "/home/me/project"; str "/home/me/project/.git/hooks"; str "/home/me/project/.mcp.json"])
                    then Some (match p with RootDir :: Normal n :: rest => if teqb n (str "home") then components (str "/data") ++ rest else p | _ => p end) else None;
  exists_at p := existsb (path_eqb p) (map components [str "/data/me/project/.git/hooks"; str "/data/me/project/.mcp.json"]);
  is_dir p := path_eqb p (components (str "/tmp"));
  is_file p := false;
  dangling_link p := false;
  read_to_string p := None;
  home_dir := None;
  temp_dir := components (str "/tmp");
  env_tmpdir := None
|}.

Lemma example_answers : @canonical_answers example_files.
Proof.
  intros p q. cbn [canonicalize example_files]. destruct (existsb _ _) eqn:E; [|done]. apply existsb_exists in E as (x & Hx & ->%path_eqb_eq).
  intros [= <-]. cbn [map In] in Hx. destruct Hx as [<-|[<-|[<-|[<-|[<-|[]]]]]]; vm_compute; (split; [|done]); repeat constructor; try done; intuition discriminate.
Qed.

Definition bash_shell : ShellSpec := mkShellSpec (components (str "/bin/bash")) [str "-c"; str "make"] Bash.

Definition example_profile : SandboxProfile := @for_workspace example_files (components (str "/home/me/project")) [] [] false.

Lemma example_profile_wf : Forall wf_path (read_only example_profile).
Proof. apply workspace_read_only_wf; [apply components_wf|constructor]. Qed.

Definition wrapped_example : result HostError ShellSpec :=
  @wrap example_files (Some (components (str "/usr/bin/bwrap"))) bash_shell example_profile LinuxBubblewrap.

Definition wrapped_shell : ShellSpec := match wrapped_example with Ok s => s | Err _ => bash_shell end.

Lemma sandbox_writes_exact_witness :
  exists ms, read_mounts (shell_args wrapped_shell) = Some ms
    /\ may_write ms (components (str "/data/me/project/src/main.rs")) = true.
Proof.
  destruct (@sandbox_writes_exact example_files (Some (components (str "/usr/bin/bwrap"))) bash_shell wrapped_shell example_profile
    example_answers example_profile_wf ltac:(vm_compute; reflexivity)) as (ms & Hms & Hd).
  exists ms. split; [exact Hms|]. apply Hd. split.
  - right. right. exists (components (str "/home/me/project")), (components (str "/data/me/project")).
    split; [vm_compute; left; reflexivity|]. split; vm_compute; reflexivity.
  - intros (p & q & Hp & Hq & He & Ht). cbn in Hp.
    repeat (destruct Hp as [<-|Hp]; [vm_compute in Hq; injection Hq as <-; vm_compute in Ht; discriminate Ht|]). destruct Hp.
Defined.

Lemma protected_files_stay_read_only_witness :
  exists ms, read_mounts (shell_args wrapped_shell) = Some ms
    /\ may_write ms (components (str "/data/me/project/.git/hooks/pre-commit")) = false.
Proof.
  destruct (@protected_files_stay_read_only example_files (Some (components (str "/usr/bin/bwrap"))) bash_shell wrapped_shell
    (components (str "/home/me/project")) [] [] false example_answers (components_wf _) ltac:(constructor) ltac:(vm_compute; reflexivity)) as (ms & Hms & Hd).
  exists ms. split; [exact Hms|].
  apply (Hd (components (str "/home/me/project")) (str ".git/hooks") (components (str "/data/me/project/.git/hooks")));
    first [vm_compute; reflexivity|vm_compute; left; reflexivity].
Defined.
