(* ===== verification/Checkpoint.v ===== *)
(** Code checkpoints ([z-engine-host/src/checkpoint], files [exclude.rs],
    [shadow.rs], [restore.rs], [compare.rs]): snapshots of a working tree in a
    shadow git repository, and what a restore touches. *)

From Stdlib Require Import String.
From stdpp Require Import gmap.
From S2P Require Import Session.
From S2P Require Export Host.

Local Open Scope N_scope.

(** * [exclude.rs] *)

Definition MAX_CANDIDATES : N := 50000.
Definition MAX_FILE_BYTES : N := 8 * 1024 * 1024.
Definition WORKTREES : text := str ".z-engine/worktrees".

(** Paths are relative to the root and separated by slashes. *)
Record Exclusions := mkExclusions { large : list text; user_ignored : list text }.

Definition covers (e : Exclusions) (p : text) : bool :=
  mem p (large e)
  || existsb (fun ignored => match strip_suffix (str "/") ignored with
                             | Some dir => starts_with ignored p || teqb p dir
                             | None => teqb p ignored
                             end) (user_ignored e).

(** [sort] of texts; their order is that of their bytes. *)
Fixpoint insert_sorted (t : text) (l : list text) : list text :=
  match l with [] => [t] | u :: l' => if text_lt t u then t :: l else u :: insert_sorted t l' end.
Definition sort_texts (l : list text) : list text := foldr insert_sorted [] l.

(** An entry of the walk: its path below the root, whether it is a file, and
    its size if it can be read. *)
Record WalkEntry := mkWalkEntry { walk_path : option text; walk_is_file : bool; walk_len : option N }.

Fixpoint large_loop (root : path) (max_files candidates : N) (entries : list WalkEntry) (found : list text) : result HostError (list text) :=
  match entries with
  | [] => Ok found
  | e :: entries =>
      if negb (walk_is_file e) then large_loop root max_files candidates entries found
      else
        let candidates := candidates + 1 in
        if max_files <? candidates then
          Err (HBlocked (display root ++ str " has more than " ++ show_N max_files ++ str " files; checkpoints are disabled for it"))
        else
          let too_large := match walk_len e with Some n => MAX_FILE_BYTES <? n | None => false end in
          large_loop root max_files candidates entries
            (if too_large then match walk_path e with Some rel => found ++ [rel] | None => found end else found)
  end.

(** [large_files]; the crate [ignore] gives the entries. *)
Definition large_files (root : path) (max_files : N) (entries : list WalkEntry) : result HostError (list text) :=
  match large_loop root max_files 0 entries [] with Ok found => Ok (sort_texts found) | Err e => Err e end.

(** A literal path as a gitignore pattern. *)
Definition escape (p : text) : text :=
  let '(body, dir) := match strip_suffix (str "/") p with Some body => (body, str "/") | None => (p, []) end in
  let out := flat_map (fun c => if existsb (N.eqb c) (str "\*?[]") then [chr "\"; c] else [c]) body in
  let out := if starts_with (str "#") out || starts_with (str "!") out then chr "\" :: out else out in
  let out := if ends_with (str " ") out then removelast out ++ str "\ " else out in
  out ++ dir.

(** [render]: [inside] is the shadow repository's path below the root. *)
Definition render (inside : option text) (e : Exclusions) : text :=
  join [NEWLINE]
    ([str "# Managed by Z Engine checkpoints; rewritten on every snapshot."; str ".git"; str "/" ++ WORKTREES ++ str "/"]
     ++ match inside with Some rel => [str "/" ++ escape rel ++ str "/"] | None => [] end
     ++ map (fun p => str "/" ++ escape p) (user_ignored e ++ large e))
  ++ [NEWLINE].

(** * [restore.rs] and [shadow.rs] *)

Inductive ChangeKind := Added | Modified | Deleted.

#[export] Instance ChangeKind_eq_dec : EqDecision ChangeKind.
Proof. solve_decision. Defined.

Record PathChange := mkPathChange { change_path : text; change_kind : ChangeKind }.


(** The working tree: its files (symbolic links among them) and directories. *)
Record Disk (blob : Type) := mkDisk { files : gmap text blob; dirs : gset text }.
Arguments mkDisk {blob}.
Arguments files {blob}.
Arguments dirs {blob}.

(** What the command [git] does to the shadow repository. *)
Class Git := {
  blob : Type;
  repo : Type;
  (** [rev-parse --verify rev^{commit}] *)
  rev_parse : repo -> text -> option text;
  (** [cat-file commit] *)
  cat_commit : repo -> text -> result HostError text;
  (** [diff --name-status -z --no-renames] *)
  diff_name_status : repo -> text -> text -> result HostError text;
  (** [checkout commit -- paths] *)
  checkout : repo -> text -> list text -> Disk blob -> result HostError (Disk blob);
  (** [add -A] with the exclusions, and [write-tree]; the tree's id *)
  add_all : repo -> Disk blob -> text -> result HostError (repo * text);
  (** [commit^{tree}] *)
  tree_of : repo -> text -> result HostError text;
  (** [commit-tree] and [update-ref] *)
  commit_tree : repo -> text -> option text -> text -> result HostError (repo * text);
  latest : repo -> option text;
  (** [ls-files --others --ignored] of the user's own repository *)
  user_listing : Disk blob -> list text;
  walk : Disk blob -> list WalkEntry;
  (** why a file cannot be removed, if so *)
  remove_error : Disk blob -> text -> option text
}.

Definition REF : text := str "refs/zengine/checkpoints".
Definition EXCLUDED_TRAILER : text := str "Zengine-Excluded: ".
Definition MAX_USER_IGNORED : nat := N.to_nat 20000.
Definition CHECKOUT_BATCH : nat := 100.
Definition NUL : char := 0.

(** The fields of [-z] output. *)
Definition nul_fields (raw : text) : list text := List.filter (fun f => negb (is_empty f)) (split_on NUL raw).

Definition change_of (status_ : text) : ChangeKind :=
  match status_ with
  | c :: _ => if c =? chr "A" then Added else if c =? chr "D" then Deleted else Modified
  | [] => Modified
  end.

Fixpoint changes_loop (fields : list text) : list PathChange :=
  match fields with
  | status_ :: p :: fields => mkPathChange p (change_of status_) :: changes_loop fields
  | _ => []
  end.

Fixpoint insert_change (c : PathChange) (l : list PathChange) : list PathChange :=
  match l with
  | [] => [c]
  | d :: l' => if text_lt (change_path c) (change_path d) then c :: l else d :: insert_change c l'
  end.
Definition sort_changes (l : list PathChange) : list PathChange := foldr insert_change [] l.

(** The message of a snapshot's commit. *)
Definition snapshot_message (message : text) (e : Exclusions) : text :=
  (if is_empty (trim message) then str "checkpoint" else message)
  ++ (if is_empty (large e) then []
      else [NEWLINE; NEWLINE]
           ++ flat_map (fun p => EXCLUDED_TRAILER ++ p ++ [NEWLINE]) (List.filter (fun p => negb (existsb (N.eqb NEWLINE) p)) (large e))).

(** The trailers of a commit's text. *)
Definition trailers (raw : text) : list text :=
  let message := match split_once [NEWLINE; NEWLINE] raw with Some (_, message) => message | None => [] end in
  sort_texts (omap (strip_prefix EXCLUDED_TRAILER) (lines message)).

(** How the paths that differ are treated. *)
Definition unknown (excluded_then : list text) (excluded_now : Exclusions) (c : PathChange) : bool :=
  match change_kind c with
  | Added => mem (change_path c) excluded_then
  | Deleted => covers excluded_now (change_path c)
  | Modified => false
  end.

Definition sort_out (excluded_then : list text) (excluded_now : Exclusions) (cs : list PathChange) : RestoreReport :=
  let known c := negb (unknown excluded_then excluded_now c) in
  mkRestoreReport
    (map change_path (List.filter (fun c => known c && negb (bool_decide (change_kind c = Added))) cs))
    (map change_path (List.filter (fun c => known c && bool_decide (change_kind c = Added)) cs))
    (map change_path (List.filter (unknown excluded_then excluded_now) cs)).

(** The directory of a relative path. *)
Definition parent_of (p : text) : option text :=
  match split_once [chr "/"] (reverse p) with Some (_, up) => Some (reverse up) | None => None end.

Section WithGit.
Context {V : Git}.

(** Whether a directory holds anything. *)
Definition holds_anything (d : Disk blob) (dir : text) : bool :=
  existsb (starts_with (dir ++ str "/")) (map fst (map_to_list (files d)) ++ elements (dirs d)).

(** The directories the removal left empty, from the file up. *)
Fixpoint remove_dirs (fuel : nat) (dir : option text) (d : Disk blob) : Disk blob :=
  match fuel, dir with
  | S fuel, Some current =>
      if holds_anything d current then d
      else remove_dirs fuel (parent_of current) (mkDisk (files d) (dirs d ∖ {[current]}))
  | _, _ => d
  end.

Definition remove_created (rel : text) (d : Disk blob) : result HostError (Disk blob) :=
  if bool_decide (rel ∈ dirs d) then Ok d
  else match files d !! rel with
       | None => Ok d
       | Some _ =>
           match remove_error d rel with
           | Some e => Err (HIo rel e)
           | None => Ok (remove_dirs (length rel) (parent_of rel) (mkDisk (delete rel (files d)) (dirs d)))
           end
       end.

Definition resolve_commit (g : repo) (rev : text) : result HostError text :=
  match rev_parse g rev with Some commit => Ok commit | None => Err (HNotFound (str "checkpoint " ++ rev)) end.

Definition excluded_at (g : repo) (commit : text) : result HostError (list text) :=
  match cat_commit g commit with Ok raw => Ok (trailers raw) | Err e => Err e end.

Definition changed_paths (g : repo) (from to : text) : result HostError (list PathChange) :=
  match diff_name_status g from to with Ok raw => Ok (sort_changes (changes_loop (nul_fields raw))) | Err e => Err e end.

Definition refresh_excludes (root : path) (max_files : N) (d : Disk blob) : result HostError Exclusions :=
  match large_files root max_files (walk d) with
  | Ok found => Ok (mkExclusions found (take MAX_USER_IGNORED (List.filter (fun p => negb (is_empty p)) (user_listing d))))
  | Err e => Err e
  end.

Definition same_snapshot (g : repo) (parent tree : text) (e : Exclusions) : result HostError bool :=
  match tree_of g parent with
  | Err err => Err err
  | Ok parent_tree =>
      if teqb (trim parent_tree) tree then
        match excluded_at g parent with Ok then_ => Ok (bool_decide (then_ = large e)) | Err err => Err err end
      else Ok false
  end.

(** [snapshot_locked]: the repository, the commit and what was left out. *)
Definition snapshot_locked (root : path) (inside : option text) (max_files : N) (message : text) (g : repo) (d : Disk blob)
    : result HostError (repo * text * Exclusions) :=
  match refresh_excludes root max_files d with
  | Err e => Err e
  | Ok exclusions =>
      match add_all g d (render inside exclusions) with
      | Err e => Err e
      | Ok (g, tree) =>
          let parent := latest g in
          let unchanged := match parent with
                           | Some parent => match same_snapshot g parent tree exclusions with Ok true => Ok (Some parent) | Ok false => Ok None | Err e => Err e end
                           | None => Ok None
                           end in
          match unchanged with
          | Err e => Err e
          | Ok (Some parent) => Ok (g, parent, exclusions)
          | Ok None =>
              match commit_tree g tree parent (snapshot_message message exclusions) with
              | Err e => Err e
              | Ok (g, commit) => Ok (g, commit, exclusions)
              end
          end
      end
  end.

(** [for rel in &report.deleted] *)
Definition remove_all (rels : list text) (d : Disk blob) : result HostError (Disk blob) :=
  foldl (fun r rel => match r with Ok d => remove_created rel d | Err e => Err e end) (Ok d) rels.

Fixpoint batches (fuel : nat) (l : list text) : list (list text) :=
  match fuel, l with
  | S fuel, _ :: _ => take CHECKOUT_BATCH l :: batches fuel (drop CHECKOUT_BATCH l)
  | _, _ => []
  end.

Definition checkout_all (g : repo) (commit : text) (rels : list text) (d : Disk blob) : result HostError (Disk blob) :=
  foldl (fun r batch => match r with Ok d => checkout g commit batch d | Err e => Err e end) (Ok d) (batches (length rels) rels).

(** [restore]: the repository, the snapshot of the present, the tree afterwards
    and the report. *)
Definition restore (root : path) (inside : option text) (max_files : N) (target : text) (g : repo) (d : Disk blob)
    : result HostError (repo * text * Disk blob * RestoreReport) :=
  match resolve_commit g target with
  | Err e => Err e
  | Ok target =>
      match excluded_at g target with
      | Err e => Err e
      | Ok excluded_then =>
          match snapshot_locked root inside max_files (str "before restore") g d with
          | Err e => Err e
          | Ok (g, current, excluded_now) =>
              match changed_paths g target current with
              | Err e => Err e
              | Ok changes =>
                  let report := sort_out excluded_then excluded_now changes in
                  match remove_all (deleted_paths report) d with
                  | Err e => Err e
                  | Ok d =>
                      match checkout_all g target (restored_paths report) d with
                      | Err e => Err e
                      | Ok d => Ok (g, current, d, report)
                      end
                  end
              end
          end
      end
  end.

(** * [compare.rs] *)

(** [BTreeMap::insert] *)
Fixpoint put_change (c : PathChange) (l : list PathChange) : list PathChange :=
  match l with
  | [] => [c]
  | d :: l' =>
      if teqb (change_path c) (change_path d) then c :: l'
      else if text_lt (change_path c) (change_path d) then c :: l
      else d :: put_change c l'
  end.

Definition kind_at (p : text) (l : list PathChange) : option ChangeKind :=
  option_map change_kind (List.find (fun c => teqb (change_path c) p) l).

(** [diff_worktree]; [raw] is the diff from the snapshot to the working tree,
    [untracked] the files it does not know, [in_commit] asks for a path of the
    snapshot. *)
Definition diff_worktree (raw : text) (untracked : list text) (in_commit : text -> bool) : list PathChange :=
  let changes := foldl (fun m c => put_change c m) [] (changes_loop (nul_fields raw)) in
  foldl (fun m p =>
           let kind := match kind_at p m with
                       | Some Deleted => Modified
                       | _ => if in_commit p then Modified else Added
                       end in
           put_change (mkPathChange p kind) m) changes untracked.

Definition check_relative (p : text) : result HostError unit :=
  let plain := negb (is_empty p) && forallb (fun c => match c with Normal _ => true | _ => false end) (components p) in
  if plain then Ok tt else Err (HBlocked (p ++ str " is not a path inside the project")).

(** * Facts: what git prints *)

(** The letter git prints for a change of kind [k]. *)
Definition status_means (status_ : text) (k : ChangeKind) : Prop :=
  exists c rest, status_ = c :: rest
  /\ match k with Added => c = chr "A" | Deleted => c = chr "D" | Modified => c <> chr "A" /\ c <> chr "D" end.

Lemma status_means_change status_ k : status_means status_ k -> change_of status_ = k.
Proof.
  intros (c & rest & -> & H). cbn [change_of]. destruct k; [by rewrite H| |by rewrite H].
  destruct H as [H1 H2]. by rewrite (proj2 (N.eqb_neq _ _) H1), (proj2 (N.eqb_neq _ _) H2).
Qed.

(** The output with [-z]: status and path, each ended by a NUL. *)
Definition nul_output (entries : list (text * text)) : text := flat_map (fun e => fst e ++ [NUL] ++ snd e ++ [NUL]) entries.

Definition plain_entry (e : text * text) : Prop := fst e <> [] /\ ~ In NUL (fst e) /\ snd e <> [] /\ ~ In NUL (snd e).

Lemma split_on_piece c a b : ~ In c a -> split_on c (a ++ c :: b) = a :: split_on c b.
Proof.
  induction a as [|x a IH]; intros H; cbn; [by rewrite N.eqb_refl|].
  destruct (N.eqb_spec x c) as [->|_]; [exfalso; apply H; by left|]. rewrite IH; [done|]. intros Hin. apply H. by right.
Qed.

Lemma nul_fields_output entries : Forall plain_entry entries -> nul_fields (nul_output entries) = flat_map (fun e => [fst e; snd e]) entries.
Proof.
  unfold nul_fields, nul_output. induction 1 as [|[a b] entries (Ha & Ha' & Hb & Hb') _ IH]; [done|]. cbn [flat_map fst snd] in *.
  rewrite <- !app_assoc. cbn [app]. rewrite split_on_piece by done. rewrite split_on_piece by done. cbn [List.filter].
  destruct a as [|a1 a]; [done|]. destruct b as [|b1 b]; [done|]. cbn [is_empty negb app]. do 2 f_equal. exact IH.
Qed.

Lemma changes_of_output entries :
  Forall plain_entry entries -> changes_loop (nul_fields (nul_output entries)) = map (fun e => mkPathChange (snd e) (change_of (fst e))) entries.
Proof. intros H. rewrite nul_fields_output by done. clear H. induction entries as [|[a b] entries IH]; [done|]. cbn. by rewrite IH. Qed.

Lemma in_insert_change c d l : In c (insert_change d l) <-> c = d \/ In c l.
Proof. induction l as [|e l IH]; cbn [insert_change]; [cbn; intuition congruence|]. destruct (text_lt _ _); cbn; [intuition congruence|]. rewrite IH. intuition congruence. Qed.

Lemma in_sort_changes c l : In c (sort_changes l) <-> In c l.
Proof. induction l as [|d l IH]; [done|]. cbn. rewrite in_insert_change, IH. intuition congruence. Qed.

(** Trees, and how git documents that it compares them and writes from them. *)
Abbreviation Tree := (gmap text blob).

Definition differs (A B : Tree) (p : text) (k : ChangeKind) : Prop :=
  match A !! p, B !! p with
  | None, Some _ => k = Added
  | Some _, None => k = Deleted
  | Some x, Some y => x <> y /\ k = Modified
  | None, None => False
  end.

Definition below (p q : text) : Prop := starts_with (p ++ str "/") q = true.

Record git_laws (files_at : repo -> text -> Tree) : Prop := {
  diff_law : forall g a b raw, diff_name_status g a b = Ok raw ->
    exists entries, raw = nul_output entries /\ Forall plain_entry entries
      /\ (forall status_ p, In (status_, p) entries -> exists k, status_means status_ k)
      /\ forall p k, (exists status_, In (status_, p) entries /\ status_means status_ k) <-> differs (files_at g a) (files_at g b) p k;
  (* a path that is checked out may need a directory where a file was *)
  checkout_law : forall g c batch d d', checkout g c batch d = Ok d' ->
    (forall p x, In p batch -> files_at g c !! p = Some x -> files d' !! p = Some x)
    /\ forall p, ~ In p batch -> files d' !! p = files d !! p \/ (files d' !! p = None /\ exists q, In q batch /\ below p q);
  (* no file of a tree is a directory of it *)
  tree_law : forall g c p q x y, files_at g c !! p = Some x -> files_at g c !! q = Some y -> ~ below p q
}.

(** No file of the working tree is a directory. *)
Definition disk_ok (d : Disk blob) : Prop := forall p, p ∈ dirs d -> files d !! p = None.

Section WithLaws.
Context (files_at : repo -> text -> Tree) (laws : git_laws files_at).

Lemma changed_paths_exact g a b cs :
  changed_paths g a b = Ok cs -> forall p k, In (mkPathChange p k) cs <-> differs (files_at g a) (files_at g b) p k.
Proof.
  unfold changed_paths. intros H p k. destruct (diff_name_status g a b) as [raw|] eqn:E; [|done]. injection H as <-.
  destruct (diff_law _ laws g a b raw E) as (entries & -> & Hp & Hm & Hd). rewrite in_sort_changes, changes_of_output by done. rewrite <- Hd, in_map_iff. split.
  - intros ([status_ q] & [= -> Hk] & Hin). exists status_. split; [done|]. destruct (Hm _ _ Hin) as [k' Hk']. by rewrite (status_means_change _ _ Hk') in Hk; subst.
  - intros (status_ & Hin & Hk). exists (status_, p). cbn. by rewrite (status_means_change _ _ Hk).
Qed.

Lemma remove_dirs_files fuel dir d : files (remove_dirs fuel dir d) = files d /\ dirs (remove_dirs fuel dir d) ⊆ dirs d.
Proof.
  revert dir d; induction fuel as [|fuel IH]; intros dir d; [done|]. destruct dir as [current|]; cbn [remove_dirs]; [|done].
  destruct (holds_anything d current); [done|]. destruct (IH (parent_of current) (mkDisk (files d) (dirs d ∖ {[current]}))) as [H1 H2]. cbn [files dirs] in *.
  split; [done|]. set_solver.
Qed.

Lemma remove_created_files rel d d' : disk_ok d -> remove_created rel d = Ok d' -> files d' = delete rel (files d) /\ disk_ok d'.
Proof.
  intros Hok H. unfold remove_created in H. destruct (bool_decide_reflect (rel ∈ dirs d)) as [Hd|_].
  - injection H as <-. split; [|done]. symmetry. apply delete_id. by apply Hok.
  - destruct (files d !! rel) as [x|] eqn:E; [|injection H as <-; split; [symmetry; by apply delete_id|done]].
    destruct (remove_error d rel); [done|]. injection H as <-.
    destruct (remove_dirs_files (length rel) (parent_of rel) (mkDisk (delete rel (files d)) (dirs d))) as [H1 H2]. split; [done|].
    intros p Hp. rewrite H1. cbn [files dirs] in *. apply H2, Hok in Hp. by rewrite lookup_delete_None; right.
Qed.

Lemma remove_all_err rels e : foldl (fun r rel => match r with Ok d => remove_created rel d | Err e => Err e end) (Err e) rels = Err e.
Proof. induction rels; [done|]. done. Qed.

Lemma remove_all_files rels d d' : disk_ok d -> remove_all rels d = Ok d' -> forall p, files d' !! p = if mem p rels then None else files d !! p.
Proof.
  unfold remove_all. revert d; induction rels as [|rel rels IH]; intros d Hok H p; [by injection H as <-|]. cbn [foldl] in H.
  destruct (remove_created rel d) as [d1|e] eqn:E; [|by rewrite remove_all_err in H]. destruct (remove_created_files _ _ _ Hok E) as [H1 H2].
  rewrite (IH d1 H2 H p), H1. unfold mem. cbn [existsb]. destruct (teqb_spec p rel) as [->|Hne]; cbn [orb].
  - rewrite lookup_delete_eq. by destruct (existsb _ rels).
  - by rewrite lookup_delete_ne by done.
Qed.

Lemma checkout_all_err g c l e : foldl (fun r batch => match r with Ok d => checkout g c batch d | Err e => Err e end) (Err (E := HostError) (A := Disk blob) e) l = Err e.
Proof. induction l; [done|]. done. Qed.

Lemma batches_concat fuel l : (length l <= fuel)%nat -> concat (batches fuel l) = l.
Proof.
  revert l; induction fuel as [|fuel IH]; intros [|x l] H; cbn [batches concat length] in *; [done|lia|done|].
  rewrite IH; [apply take_drop|]. rewrite length_drop. unfold CHECKOUT_BATCH. cbn [length]. lia.
Qed.

(** What checking out paths of one commit leaves. *)
Lemma checkout_batches g c l d d' :
  (forall p, In p (concat l) -> is_Some (files_at g c !! p)) ->
  foldl (fun r batch => match r with Ok d => checkout g c batch d | Err e => Err e end) (Ok d) l = Ok d' ->
  (forall p, In p (concat l) -> files d' !! p = files_at g c !! p)
  /\ forall p, ~ In p (concat l) -> files d' !! p = files d !! p \/ (files d' !! p = None /\ exists q, In q (concat l) /\ below p q).
Proof.
  revert d; induction l as [|batch l IH]; intros d Hin H; cbn [foldl concat] in *; [injection H as <-; split; [done|by left]|].
  destruct (checkout g c batch d) as [d1|e] eqn:E; [|by rewrite checkout_all_err in H].
  destruct (checkout_law _ laws g c batch d d1 E) as [H1 H2].
  assert (Hin' : forall p, In p (concat l) -> is_Some (files_at g c !! p)) by (intros p Hp; apply Hin, in_app_iff; by right).
  destruct (IH d1 Hin' H) as [H3 H4]. assert (Hdec : forall p, In p (concat l) \/ ~ In p (concat l)).
  { intros p. destruct (mem p (concat l)) eqn:Em; [left; by apply mem_spec|right; intros Hp%mem_spec; congruence]. }
  split.
  - intros p Hp. destruct (Hdec p) as [Hl|Hl]; [by apply H3|]. apply in_app_iff in Hp as [Hp|Hp]; [|done].
    destruct (Hin p ltac:(apply in_app_iff; by left)) as [x Hx]. rewrite Hx. destruct (H4 p Hl) as [E1|[_ (q & Hq & Hb)]]; [rewrite E1; by apply H1|].
    exfalso. destruct (Hin' q Hq) as [y Hy]. exact (tree_law _ laws g c p q x y Hx Hy Hb).
  - intros p Hp. assert (Hpb : ~ In p batch /\ ~ In p (concat l)) by (split; intros ?; apply Hp, in_app_iff; [by left|by right]).
    destruct Hpb as [Hpb Hpl]. destruct (H4 p Hpl) as [E1|[E1 (q & Hq & Hb)]].
    + rewrite E1. destruct (H2 p Hpb) as [E2|[E2 (q & Hq & Hb)]]; [by left|]. right. split; [done|]. exists q. split; [apply in_app_iff; by left|done].
    + right. split; [done|]. exists q. split; [apply in_app_iff; by right|done].
Qed.

Lemma sort_out_deleted then_ now cs p : In p (deleted_paths (sort_out then_ now cs)) <-> In (mkPathChange p Added) cs /\ mem p then_ = false.
Proof.
  unfold sort_out. cbn [deleted_paths]. rewrite in_map_iff. split.
  - intros ([q k] & <- & [Hin Hf]%filter_In). apply andb_prop in Hf as [Hu Hk]. apply bool_decide_eq_true in Hk. cbn [change_kind change_path] in *. subst k.
    unfold unknown in Hu. cbn in Hu. split; [done|]. by destruct (mem q then_).
  - intros [Hin Hm]. exists (mkPathChange p Added). split; [done|]. apply filter_In. split; [done|]. unfold unknown. cbn. by rewrite Hm.
Qed.

Lemma sort_out_restored then_ now cs p :
  In p (restored_paths (sort_out then_ now cs)) <-> In (mkPathChange p Modified) cs \/ (In (mkPathChange p Deleted) cs /\ covers now p = false).
Proof.
  unfold sort_out. cbn [restored_paths]. rewrite in_map_iff. split.
  - intros ([q k] & <- & [Hin Hf]%filter_In). apply andb_prop in Hf as [Hu Hk]. cbn [change_path].
    destruct k; cbn in Hu, Hk; [done|by left|]. right. split; [done|]. by destruct (covers now q).
  - intros [Hin|[Hin Hm]]; [exists (mkPathChange p Modified)|exists (mkPathChange p Deleted)]; (split; [done|]); apply filter_In; (split; [done|]); unfold unknown; cbn; [done|by rewrite Hm].
Qed.

Lemma sort_out_skipped then_ now cs p :
  In p (skipped_paths (sort_out then_ now cs))
  <-> (In (mkPathChange p Added) cs /\ mem p then_ = true) \/ (In (mkPathChange p Deleted) cs /\ covers now p = true).
Proof.
  unfold sort_out. cbn [skipped_paths]. rewrite in_map_iff. split.
  - intros ([q k] & <- & [Hin Hf]%filter_In). cbn [change_path]. destruct k; unfold unknown in Hf; cbn in Hf; [by left|done|by right].
  - intros [[Hin Hm]|[Hin Hm]]; [exists (mkPathChange p Added)|exists (mkPathChange p Deleted)]; (split; [done|]); apply filter_In; (split; [done|]); unfold unknown; cbn; exact Hm.
Qed.

(** C21: a restore touches what changed and nothing else.  When it succeeds,
    then by the two snapshots, that of the target and the one taken of the
    present just before: a path both hold alike or neither holds is as it was; a
    path they differ in is in one list of the report, and as that list says -
    restored as in the target, deleted where only the present holds it, or
    skipped and left as it was where one snapshot had to leave it out.  (A file
    that no snapshot of the target holds gives way to a directory that a
    restored file needs.) *)
Theorem restore_exact (root : path) (inside : option text) (max_files : N) (rev : text) (g g' : repo) (d d' : Disk blob) (current : text) (report : RestoreReport) :
  disk_ok d -> restore root inside max_files rev g d = Ok (g', current, d', report) ->
  exists target excluded_then excluded_now,
    rev_parse g rev = Some target /\ excluded_at g target = Ok excluded_then
    /\ snapshot_locked root inside max_files (str "before restore") g d = Ok (g', current, excluded_now)
    /\ let T := files_at g' target in let P := files_at g' current in
       let kept p := files d' !! p = files d !! p \/ (T !! p = None /\ files d' !! p = None /\ exists q, In q (restored_paths report) /\ below p q) in
       forall p,
         (T !! p = P !! p -> kept p)
         /\ (T !! p <> P !! p -> In p (restored_paths report) \/ In p (deleted_paths report) \/ In p (skipped_paths report))
         /\ (In p (restored_paths report) -> is_Some (T !! p) /\ T !! p <> P !! p /\ files d' !! p = T !! p)
         /\ (In p (deleted_paths report) -> T !! p = None /\ is_Some (P !! p) /\ mem p excluded_then = false /\ files d' !! p = None)
         /\ (In p (skipped_paths report) -> kept p /\ ((T !! p = None /\ is_Some (P !! p) /\ mem p excluded_then = true)
                                                \/ (is_Some (T !! p) /\ P !! p = None /\ covers excluded_now p = true))).
Proof.
  intros Hok H. unfold restore, resolve_commit in H. destruct (rev_parse g rev) as [target|] eqn:Et; [|done].
  destruct (excluded_at g target) as [excluded_then|] eqn:Ex; [|done].
  destruct (snapshot_locked _ _ _ _ g d) as [[[g1 current1] excluded_now]|] eqn:Es; [|done].
  destruct (changed_paths g1 target current1) as [cs|] eqn:Ec; [|done]. set (r := sort_out excluded_then excluded_now cs) in *.
  destruct (remove_all (deleted_paths r) d) as [d1|] eqn:Er; [|done]. destruct (checkout_all g1 target (restored_paths r) d1) as [d2|] eqn:Eo; [|done].
  injection H as <- <- <- <-. exists target, excluded_then, excluded_now. split_and!; [done|done|done|]. intros T P kept.
  pose proof (changed_paths_exact _ _ _ _ Ec) as Hcs. unfold differs in Hcs. fold T P in Hcs.
  assert (Hin : forall p, In p (concat (batches (length (restored_paths r)) (restored_paths r))) <-> In p (restored_paths r)) by (intros p; by rewrite batches_concat).
  assert (Hres : forall p, In p (restored_paths r) -> is_Some (T !! p) /\ T !! p <> P !! p).
  { intros p [Hp|[Hp _]]%sort_out_restored; apply Hcs in Hp; destruct (T !! p) as [x|], (P !! p) as [y|]; try done; try (by destruct Hp).
    split; [by exists x|]. intros [= ->]. by destruct Hp. }
  destruct (checkout_batches g1 target _ d1 d2 (fun p Hp => proj1 (Hres p (proj1 (Hin p) Hp))) Eo) as [Ho1 Ho2].
  pose proof (remove_all_files _ _ _ Hok Er) as Hrm.
  assert (Hkept : forall p, ~ In p (restored_paths r) -> ~ In p (deleted_paths r) -> kept p).
  { intros p H1 H2. destruct (Ho2 p) as [E|[E (q & Hq & Hb)]]; [by rewrite Hin| |].
    - left. rewrite E, Hrm. destruct (mem p (deleted_paths r)) eqn:Em; [by apply mem_spec in Em|done].
    - apply Hin in Hq. destruct (T !! p) as [x|] eqn:Ex'.
      + exfalso. destruct (Hres q Hq) as [[y Hy] _]. exact (tree_law _ laws g1 target p q x y Ex' Hy Hb).
      + right. split_and!; [done|done|]. by exists q. }
  assert (Hdel : forall p, In p (deleted_paths r) -> T !! p = None /\ is_Some (P !! p) /\ mem p excluded_then = false).
  { intros p [Hp Hm]%sort_out_deleted. apply Hcs in Hp. destruct (T !! p), (P !! p); try done; try (by destruct Hp). }
  intros p. split_and!.
  - intros E. apply Hkept; [intros Hp; by destruct (Hres p Hp)|]. intros Hp. destruct (Hdel p Hp) as (E1 & [x E2] & _). congruence.
  - intros Hne. destruct (T !! p) as [x|] eqn:E1, (P !! p) as [y|] eqn:E2; [| | |done].
    + left. apply sort_out_restored. left. apply Hcs. rewrite E1, E2. split; [congruence|done].
    + destruct (covers excluded_now p) eqn:Em; [right; right; apply sort_out_skipped; right|left; apply sort_out_restored; right];
        (split; [apply Hcs; by rewrite E1, E2|done]).
    + right. destruct (mem p excluded_then) eqn:Em; [right; apply sort_out_skipped; left|left; apply sort_out_deleted];
        (split; [apply Hcs; by rewrite E1, E2|done]).
  - intros Hp. destruct (Hres p Hp) as [H1 H2]. split_and!; [done|done|]. apply Ho1. by apply Hin.
  - intros Hp. destruct (Hdel p Hp) as (H1 & H2 & H3). split_and!; [done|done|done|].
    assert (Hnr : ~ In p (restored_paths r)) by (intros Hr; destruct (Hres p Hr) as [[x Hx] _]; congruence).
    destruct (Ho2 p) as [E|[E _]]; [by rewrite Hin| |done]. rewrite E, Hrm. by rewrite (proj2 (mem_spec p (deleted_paths r)) Hp).
  - intros Hp. apply sort_out_skipped in Hp.
    assert (Hcase : (T !! p = None /\ is_Some (P !! p) /\ mem p excluded_then = true) \/ (is_Some (T !! p) /\ P !! p = None /\ covers excluded_now p = true)).
    { destruct Hp as [[Hp Hm]|[Hp Hm]]; apply Hcs in Hp; destruct (T !! p), (P !! p); try done; try (by destruct Hp); [left|right]; split_and!; try done; by eexists. }
    split; [|done]. apply Hkept.
    + intros Hr. destruct (Hres p Hr) as [[x Hx] _]. apply sort_out_restored in Hr. destruct Hcase as [(H1 & _)|(_ & H1 & H2)]; [congruence|].
      destruct Hr as [Hr|[_ Hr]]; [|congruence]. apply Hcs in Hr. by rewrite Hx, H1 in Hr.
    + intros Hd. destruct (Hdel p Hd) as (H1 & H2 & H3). destruct Hcase as [(_ & _ & H4)|([x H4] & _)]; congruence.
Qed.

End WithLaws.
End WithGit.

(** * Facts: the trailers *)

Definition strip_return (l : text) : text := default l (strip_suffix [13] l).

Lemma ended_lines_before xs y ys : ended_lines (xs ++ y :: ys) = map strip_return xs ++ ended_lines (y :: ys).
Proof. induction xs as [|x xs IH]; [done|]. cbn [app map]. rewrite <- IH. by destruct xs. Qed.

(** The lines of a text that goes on after a newline. *)
Lemma lines_then a b : lines (a ++ NEWLINE :: b) = map strip_return (split_on NEWLINE a) ++ lines b.
Proof.
  unfold lines. assert (E : split_on NEWLINE (a ++ NEWLINE :: b) = split_on NEWLINE a ++ split_on NEWLINE b).
  { induction a as [|x a IH]; [cbn; by destruct (split_on NEWLINE b)|]. cbn [app split_on]. rewrite IH. destruct (x =? NEWLINE); [done|].
    by destruct (split_on_cons NEWLINE a) as (p & r & ->). }
  rewrite E. destruct (split_on_cons NEWLINE b) as (p & r & ->). apply ended_lines_before.
Qed.

Lemma split_on_whole c a : ~ In c a -> split_on c a = [a].
Proof.
  induction a as [|x a IH]; intros H; [done|]. cbn. destruct (N.eqb_spec x c) as [->|_]; [exfalso; apply H; by left|].
  rewrite IH; [done|]. intros Hin. apply H. by right.
Qed.

(** Text before the first blank line. *)
Lemma split_once_blank header rest :
  split_once [NEWLINE; NEWLINE] (header ++ [NEWLINE]) = None ->
  split_once [NEWLINE; NEWLINE] (header ++ [NEWLINE; NEWLINE] ++ rest) = Some (header, rest).
Proof.
  induction header as [|c header IH]; intros H; [done|]. cbn [app split_once] in *.
  destruct (strip_prefix [NEWLINE; NEWLINE] (c :: header ++ [NEWLINE])) eqn:E1; [done|].
  destruct (split_once _ (header ++ [NEWLINE])) as [[? ?]|] eqn:E2; [done|]. rewrite (IH eq_refl).
  assert (E3 : strip_prefix [NEWLINE; NEWLINE] (c :: header ++ NEWLINE :: NEWLINE :: rest) = None); [|by rewrite E3].
  clear -E1. cbn in *. destruct (_ =? c); [|done]. destruct header as [|d header]; cbn in *; [done|]. by destruct (_ =? d).
Qed.

(** A line a path can be written in: it holds no newline and does not end in a
    carriage return, which reading the lines would drop. *)
Definition one_line (p : text) : Prop := ~ In NEWLINE p /\ strip_suffix [13] p = None.

Lemma trailer_lines ps :
  Forall one_line ps -> lines (flat_map (fun p => EXCLUDED_TRAILER ++ p ++ [NEWLINE]) ps) = map (app EXCLUDED_TRAILER) ps.
Proof.
  induction 1 as [|p ps [Hn Hr] _ IH]; [done|]. cbn [flat_map map]. rewrite <- app_assoc. rewrite <- (app_assoc p). cbn [app].
  rewrite (app_assoc EXCLUDED_TRAILER p (NEWLINE :: _)). rewrite lines_then, IH. rewrite split_on_whole.
  - cbn [map app]. f_equal. unfold strip_return. destruct (strip_suffix [13] (EXCLUDED_TRAILER ++ p)) as [q|] eqn:E; [|done]. exfalso.
    apply strip_suffix_Some in E. destruct p as [|x p] using rev_ind.
    + rewrite app_nil_r in E. by assert (Hl : last EXCLUDED_TRAILER = last (q ++ [13])) by (by rewrite E); rewrite last_snoc in Hl; vm_compute in Hl.
    + rewrite app_assoc in E. apply app_inj_tail in E as [_ ->].
      assert (Hs : strip_suffix [13] (p ++ [13]) = Some p) by (by apply strip_suffix_Some). congruence.
  - intros [Hin|Hin]%in_app_iff; [|done]. vm_compute in Hin. repeat (destruct Hin as [Hin|Hin]; [discriminate Hin|]). done.
Qed.

(** What a snapshot had to leave out is read back from its commit.  Whatever
    header git writes, the trailers of a commit whose message holds none itself
    are the paths of the files that were too large, those with a newline aside. *)
Theorem exclusions_recorded (header message : text) (e : Exclusions) :
  split_once [NEWLINE; NEWLINE] (header ++ [NEWLINE]) = None ->
  Forall (fun l => strip_prefix EXCLUDED_TRAILER (strip_return l) = None) (split_on NEWLINE message) ->
  Forall (fun p => In NEWLINE p \/ strip_suffix [13] p = None) (large e) ->
  large e <> [] ->
  trailers (header ++ [NEWLINE; NEWLINE] ++ snapshot_message message e)
  = sort_texts (List.filter (fun p => negb (existsb (N.eqb NEWLINE) p)) (large e)).
Proof.
  intros Hh Hm Hl Hne. unfold trailers. rewrite split_once_blank by done. f_equal. unfold snapshot_message.
  replace (is_empty (large e)) with false by (by destruct (large e)). set (ps := List.filter _ (large e)).
  assert (Hps : Forall one_line ps).
  { apply Forall_forall. intros p Hp. apply list_elem_of_In, filter_In in Hp as [Hin Hf]. rewrite Forall_forall in Hl.
    assert (Hn : ~ In NEWLINE p).
    { intros Hn. apply negb_true_iff in Hf. rewrite (proj2 (existsb_exists _ _)) in Hf; [done|]. exists NEWLINE. by rewrite N.eqb_refl. }
    split; [done|]. destruct (Hl p (proj2 (list_elem_of_In _ _) Hin)); done. }
  set (base := if is_empty (trim message) then str "checkpoint" else message). cbn [app].
  change (NEWLINE :: NEWLINE :: ?x) with (NEWLINE :: [] ++ NEWLINE :: x). rewrite lines_then, lines_then, trailer_lines by done.
  rewrite !omap_app. assert (Hbase : omap (strip_prefix EXCLUDED_TRAILER) (map strip_return (split_on NEWLINE base)) = []).
  { assert (Hb : Forall (fun l => strip_prefix EXCLUDED_TRAILER (strip_return l) = None) (split_on NEWLINE base)).
    { unfold base. destruct (is_empty (trim message)); [|done]. vm_compute. repeat constructor. }
    induction Hb as [|l ls Hl' _ IH]; [done|]. cbn [map omap list_omap]. by rewrite Hl'. }
  rewrite Hbase. cbn [app]. replace (omap (strip_prefix EXCLUDED_TRAILER) (map strip_return (split_on NEWLINE []))) with ([] : list text) by (vm_compute; reflexivity).
  cbn [app]. clear. induction ps as [|p ps IH]; [done|]. cbn [map omap list_omap]. by rewrite strip_prefix_app, IH.
Qed.

(** * A small repository *)

(** Trees and commits, each named by its place. *)
Record PlainRepo := mkPlainRepo { plain_trees : list (gmap text text); plain_commits : list (nat * text) }.

Definition name_of (n : nat) : text := [65 + N.of_nat n].
Definition place_of (t : text) : option nat := match t with [c] => Some (N.to_nat (c - 65)) | _ => None end.

Definition paths_of (t : gmap text text) : list text := map fst (map_to_list t).

(** Paths that can be printed, no file being a directory. *)
Definition sound_tree (t : gmap text text) : bool :=
  forallb (fun p => negb (is_empty p) && negb (existsb (N.eqb NUL) p) && forallb (fun q => negb (starts_with (p ++ str "/") q)) (paths_of t)) (paths_of t).

Definition plain_files (g : PlainRepo) (c : text) : gmap text text :=
  let t := default ∅ (n ← place_of c; m ← plain_commits g !! n; plain_trees g !! (fst m)) in if sound_tree t then t else ∅.

Definition plain_status (A B : gmap text text) (p : text) : option (text * text) :=
  match A !! p, B !! p with
  | None, Some _ => Some (str "A", p)
  | Some _, None => Some (str "D", p)
  | Some x, Some y => if teqb x y then None else Some (str "M", p)
  | None, None => None
  end.

(** What [checkout] writes. *)
Definition put_all (t m : gmap text text) (batch : list text) : gmap text text :=
  foldr (fun p m => match t !! p with Some x => <[p := x]> m | None => m end) m batch.

Lemma put_all_spec t m batch :
  (forall p x, In p batch -> t !! p = Some x -> put_all t m batch !! p = Some x) /\ forall p, ~ In p batch -> put_all t m batch !! p = m !! p.
Proof.
  split.
  - intros p x Hp Hx. induction batch as [|q batch IH]; [done|]. cbn [put_all foldr]. destruct (base.decide (q = p)) as [->|Hne]; [rewrite Hx; apply lookup_insert_eq|].
    destruct Hp as [Hp|Hp]; [done|]. destruct (t !! q); [rewrite lookup_insert_ne by done|]; by apply IH.
  - intros p Hp. induction batch as [|q batch IH]; [done|]. cbn [put_all foldr]. assert (q <> p) by (intros ->; apply Hp; by left).
    assert (~ In p batch) by (intros ?; apply Hp; by right). destruct (t !! q); [rewrite lookup_insert_ne by done|]; by apply IH.
Qed.

Definition plain_git : Git := {|
  blob := text;
  repo := PlainRepo;
  rev_parse g rev := n ← place_of rev; _ ← plain_commits g !! n; Some rev;
  cat_commit g c := match (n ← place_of c; plain_commits g !! n) with
                    | Some (_, message) => Ok (str "tree" ++ [NEWLINE; NEWLINE] ++ message)
                    | None => Err (HNotFound c)
                    end;
  diff_name_status g a b :=
    let A := plain_files g a in let B := plain_files g b in Ok (nul_output (omap (plain_status A B) (paths_of A ++ paths_of (B ∖ A))));
  checkout g c batch d := Ok (mkDisk (put_all (plain_files g c) (files d) batch) (dirs d));
  add_all g d exclude :=
    Ok (mkPlainRepo (plain_trees g ++ [filter (fun px : text * text => mem (str "/" ++ escape (fst px)) (lines exclude) = false) (files d)]) (plain_commits g),
        name_of (length (plain_trees g)));
  tree_of g c := match (n ← place_of c; plain_commits g !! n) with Some (t, _) => Ok (name_of t) | None => Err (HNotFound c) end;
  commit_tree g tree parent message :=
    Ok (mkPlainRepo (plain_trees g) (plain_commits g ++ [(default O (place_of tree), message)]), name_of (length (plain_commits g)));
  latest g := match plain_commits g with [] => None | cs => Some (name_of (length cs - 1)) end;
  user_listing d := List.filter (fun p => match files d !! p with Some _ => true | None => false end) (lines (default [] (files d !! str ".gitignore")));
  walk d := map (fun px => mkWalkEntry (Some (fst px)) true (Some (blen (snd px)))) (map_to_list (files d));
  remove_error d p := None
|}.

Lemma in_paths_of (t : gmap text text) p : In p (paths_of t) <-> is_Some (t !! p).
Proof.
  unfold paths_of. rewrite in_map_iff. split.
  - intros ([q x] & <- & Hin). apply list_elem_of_In, elem_of_map_to_list in Hin. by exists x.
  - intros [x Hx]. exists (p, x). split; [done|]. by apply list_elem_of_In, elem_of_map_to_list.
Qed.

Lemma plain_files_sound g c : sound_tree (plain_files g c) = true.
Proof. unfold plain_files. destruct (sound_tree (default _ _)) eqn:E; [exact E|]. vm_compute. reflexivity. Qed.

Lemma sound_paths t p : sound_tree t = true -> In p (paths_of t) -> p <> [] /\ ~ In NUL p /\ forall q, In q (paths_of t) -> ~ below p q.
Proof.
  unfold sound_tree. rewrite forallb_forall. intros H Hp. specialize (H p Hp). apply andb_prop in H as [H H3]. apply andb_prop in H as [H1 H2].
  split_and!.
  - intros ->. done.
  - intros Hn. apply negb_true_iff in H2. rewrite (proj2 (existsb_exists _ _)) in H2; [done|]. exists NUL. by rewrite N.eqb_refl.
  - rewrite forallb_forall in H3. intros q Hq Hb. specialize (H3 q Hq). unfold below in Hb. by rewrite Hb in H3.
Qed.

Lemma plain_laws : @git_laws plain_git plain_files.
Proof.
  constructor.
  - intros g a b raw [= <-]. set (A := plain_files g a). set (B := plain_files g b). exists (omap (plain_status A B) (paths_of A ++ paths_of (B ∖ A))).
    assert (Hin : forall p, In p (paths_of A ++ paths_of (B ∖ A)) <-> is_Some (A !! p) \/ is_Some (B !! p)).
    { intros p. rewrite in_app_iff, !in_paths_of, lookup_difference. destruct (A !! p) as [x|] eqn:E; split; intros [H|H]; try (by left); try (by right). }
    assert (Hst : forall s p, In (s, p) (omap (plain_status A B) (paths_of A ++ paths_of (B ∖ A))) <-> plain_status A B p = Some (s, p)).
    { intros s p. rewrite <- list_elem_of_In, list_elem_of_omap. split.
      - intros (q & _ & Hq). unfold plain_status in Hq. destruct (A !! q) eqn:E1, (B !! q) eqn:E2; try done; try (injection Hq as <- <-; unfold plain_status; by rewrite E1, E2).
        destruct (teqb _ _) eqn:Et; [done|]. injection Hq as <- <-. unfold plain_status. by rewrite E1, E2, Et.
      - intros Hp. exists p. split; [|done]. apply list_elem_of_In, Hin. unfold plain_status in Hp. destruct (A !! p); [left; by eexists|]. destruct (B !! p); [right; by eexists|done]. }
    split_and!; [done| | |].
    + apply Forall_forall. intros [s p] Hp. apply list_elem_of_In, Hst in Hp. unfold plain_status in Hp.
      assert (Hgood : p <> [] /\ ~ In NUL p).
      { destruct (A !! p) as [x|] eqn:E1; [destruct (sound_paths A p (plain_files_sound g a)) as (H1 & H2 & _); [apply in_paths_of; by eexists|done]|].
        destruct (B !! p) as [y|] eqn:E2; [|done]. destruct (sound_paths B p (plain_files_sound g b)) as (H1 & H2 & _); [apply in_paths_of; by eexists|done]. }
      destruct Hgood. assert (Hs : s = str "A" \/ s = str "D" \/ s = str "M").
      { destruct (A !! p), (B !! p); try done; [destruct (teqb _ _); [done|]|..]; injection Hp as <-; auto. }
      unfold plain_entry. cbn [fst snd]. destruct Hs as [->|[->| ->]]; split_and!; try done; by intros [|[]].
    + intros s p Hp%Hst. unfold plain_status in Hp. destruct (A !! p), (B !! p); try done; [destruct (teqb _ _); [done|]|..]; injection Hp as <-.
      * exists Modified. by exists (chr "M"), [].
      * exists Deleted. by exists (chr "D"), [].
      * exists Added. by exists (chr "A"), [].
    + intros p k. change ((exists s, In (s, p) (omap (plain_status A B) (paths_of A ++ paths_of (B ∖ A))) /\ status_means s k) <->
        match A !! p, B !! p with None, Some _ => k = Added | Some _, None => k = Deleted | Some x, Some y => x <> y /\ k = Modified | None, None => False end).
      split.
      * intros (s & Hp%Hst & (c & rest & -> & Hk)). unfold plain_status in Hp. destruct (A !! p) as [x|], (B !! p) as [y|]; try done.
        -- destruct (teqb_spec x y) as [|Hne]; [done|]. split; [done|]. apply (f_equal (fun o : option (text * text) => match o with Some (c0 :: _, _) => c0 | _ => 0 end)) in Hp; cbn in Hp; subst c; by destruct k.
        -- apply (f_equal (fun o : option (text * text) => match o with Some (c0 :: _, _) => c0 | _ => 0 end)) in Hp; cbn in Hp; subst c; destruct k; [done|by destruct Hk as [_ Hk]|done].
        -- apply (f_equal (fun o : option (text * text) => match o with Some (c0 :: _, _) => c0 | _ => 0 end)) in Hp; cbn in Hp; subst c; destruct k; [done|by destruct Hk as [Hk _]|done].
      * intros Hk. destruct (A !! p) as [x|] eqn:E1, (B !! p) as [y|] eqn:E2; [| | |done].
        -- destruct Hk as [Hne ->]. exists (str "M"). split; [apply Hst; unfold plain_status; rewrite E1, E2; by rewrite (proj2 (teqb_neq x y) Hne)|]. by exists (chr "M"), [].
        -- subst k. exists (str "D"). split; [apply Hst; unfold plain_status; by rewrite E1, E2|]. by exists (chr "D"), [].
        -- subst k. exists (str "A"). split; [apply Hst; unfold plain_status; by rewrite E1, E2|]. by exists (chr "A"), [].
  - intros g c batch d d' [= <-]. destruct (put_all_spec (plain_files g c) (files d) batch) as [H1 H2]. split; [exact H1|]. intros p Hp. left. by apply H2.
  - intros g c p q x y Hp Hq. destruct (sound_paths _ p (plain_files_sound g c)) as (_ & _ & H); [apply in_paths_of; by eexists|]. apply H, in_paths_of. by eexists.
Qed.

Definition project : path := components (str "/project").

Definition disk_of (l : list (text * text)) : Disk text := mkDisk (list_to_map l) ∅.

(** A snapshot of a project that ignores [.env]; then [.gitignore] is emptied
    and a file is changed. *)
Definition ignoring : Disk text := disk_of [(str ".gitignore", str ".env" ++ [NEWLINE]); (str ".env", str "KEY=1"); (str "main.rs", str "fn main() {}")].
Definition unignored : Disk text := disk_of [(str ".gitignore", []); (str ".env", str "KEY=1"); (str "main.rs", str "fn broken("); (str "new.rs", str "")].

Definition first_snapshot : result HostError (PlainRepo * text * Exclusions) :=
  @snapshot_locked plain_git project None MAX_CANDIDATES (str "turn 1") (mkPlainRepo [] []) ignoring.

Definition first_repo : PlainRepo := match first_snapshot with Ok (g, _, _) => g | Err _ => mkPlainRepo [] [] end.

Definition rewound : result HostError (PlainRepo * text * Disk text * RestoreReport) :=
  @restore plain_git project None MAX_CANDIDATES (str "A") first_repo unignored.

(** Where a restore does more than it means to.  A file the user's repository
    ignored when the target was taken is in no list of what that snapshot left
    out - the commit records only the files that were too large.  Once the file
    is ignored no more, a restore takes it for one created since, and deletes
    it. *)
Lemma ignored_file_deleted :
  match rewound with
  | Ok (_, _, d, report) =>
      deleted_paths report = [str ".env"; str "new.rs"] /\ skipped_paths report = [] /\ files d !! str ".env" = None /\ files d !! str "main.rs" = Some (str "fn main() {}")
  | Err _ => False
  end.
Proof. vm_compute. by split_and!. Qed.

Definition rewound_disk : Disk text := match rewound with Ok (_, _, d, _) => d | Err _ => unignored end.
Definition rewound_report : RestoreReport := match rewound with Ok (_, _, _, r) => r | Err _ => mkRestoreReport [] [] [] end.
Definition rewound_repo : PlainRepo := match rewound with Ok (g, _, _, _) => g | Err _ => first_repo end.

Lemma restore_exact_witness : files rewound_disk !! str "main.rs" = Some (str "fn main() {}").
Proof.
  destruct (@restore_exact plain_git plain_files plain_laws project None MAX_CANDIDATES (str "A") first_repo rewound_repo unignored rewound_disk (str "B") rewound_report)
    as (target & then_ & now & Ht & _ & _ & H).
  - intros p Hp. destruct (not_elem_of_empty (C := gset text) p Hp).
  - vm_compute. reflexivity.
  - specialize (H (str "main.rs")). destruct H as (_ & _ & H & _). destruct (H ltac:(vm_compute; tauto)) as (_ & _ & E).
    vm_compute in Ht. injection Ht as <-. refine (eq_trans E _). vm_compute. reflexivity.
Defined.

Lemma exclusions_recorded_witness :
  trailers (str "tree 1" ++ [NEWLINE; NEWLINE] ++ snapshot_message (str "turn 2") (mkExclusions [str "b.bin"; str "a.bin"] [str "target/"]))
  = [str "a.bin"; str "b.bin"].
Proof.
  rewrite (exclusions_recorded (str "tree 1") (str "turn 2") (mkExclusions [str "b.bin"; str "a.bin"] [str "target/"]));
    [vm_compute; reflexivity|vm_compute; reflexivity|vm_compute; by repeat constructor| |done].
  repeat constructor; right; vm_compute; reflexivity.
Defined.
