(* ===== verification/Lsp.v ===== *)
(** Language servers ([z-engine-integrations/src/lsp], files [position.rs],
    [uri.rs], [spec.rs], [routing.rs], [documents.rs], [diagnostics.rs],
    [progress.rs], [capabilities.rs], [convert.rs], [types.rs], [resolve.rs],
    [client.rs] and [manager.rs]) and the names of MCP tools
    ([mcp/naming.rs]): which server answers for a file, what it is told of the
    file, and how its answers become positions the model reads. *)

From Stdlib Require Import String.
From stdpp Require Import gmap list.
From S2P Require Import Output.
From S2P Require Export Rpc FileTools Host.

Open Scope N_scope.

(** * [position.rs] *)

Definition U32_MAX : N := 4294967295.

(** [u32::try_from(n).unwrap_or(u32::MAX)] and [saturating_add(1)]. *)
Definition to_u32 (n : N) : N := N.min n U32_MAX.
Definition saturating_succ (n : N) : N := N.min (n + 1) U32_MAX.

Record LspPosition := mkLspPosition { lsp_line : N; lsp_character : N }.

Definition strip_cr (line : text) : text := default line (strip_suffix [CARRIAGE_RETURN] line).

Definition line_text (t : text) (index : N) : option text :=
  option_map strip_cr (split_on NEWLINE t !! N.to_nat index).

Definition len_utf16 (c : char) : N := if c <? 65536 then 1 else 2.

Definition utf16_len (cs : text) : N := foldr (fun c n => len_utf16 c + n) 0 cs.

Definition utf16_offset (line : text) (chars : N) : N := to_u32 (utf16_len (take (N.to_nat chars) line)).

Fixpoint char_index_loop (line : text) (units consumed index : N) : N :=
  match line with
  | [] => index
  | c :: rest =>
      if units <=? consumed then index
      else
        let consumed := consumed + len_utf16 c in
        if units <? consumed then index else char_index_loop rest units consumed (index + 1)
  end.

Definition char_index (line : text) (units : N) : N := char_index_loop line units 0 0.

Definition to_lsp (t : text) (line column : N) : option LspPosition :=
  if line =? 0 then None
  else option_map (fun line_str => mkLspPosition (line - 1) (utf16_offset line_str (column - 1))) (line_text t (line - 1)).

Definition from_lsp (t : text) (position : LspPosition) : N * N :=
  let column :=
    match line_text t (lsp_line position) with
    | Some line => to_u32 (char_index line (lsp_character position))
    | None => lsp_character position
    end in
  (saturating_succ (lsp_line position), saturating_succ column).

(** * [uri.rs] *)

Definition upper_hex (n : N) : char := if n <? 10 then 48 + n else 55 + n.

Definition unreserved (b : N) : bool := is_ascii_alphanumeric b || one_of "-_.~/:" b.

Definition encode_byte (b : N) : text := if unreserved b then [b] else [chr "%"; upper_hex (b / 16); upper_hex (b mod 16)].

Definition path_to_uri (p : path) : text :=
  let t := display p in
  str "file://" ++ (if starts_with (str "/") t then [] else str "/") ++ flat_map encode_byte (as_bytes t).

(** [u8::from_str_radix] of two chars: a sign may come first. *)
Definition byte_of_hex (h l : char) : option N :=
  match to_digit 16 h, to_digit 16 l with
  | Some hi, Some lo => Some (hi * 16 + lo)
  | None, Some lo => if h =? chr "+" then Some lo else None
  | _, None => None
  end.

(** The bytes of a URI; [None] for an escape that is none. *)
Fixpoint percent_decoded (t : text) : option (list N) :=
  match t with
  | [] => Some []
  | c :: rest =>
      if c =? chr "%" then
        match rest with
        | h :: l :: rest' =>
            match byte_of_hex h l with
            | Some b => option_map (cons b) (percent_decoded rest')
            | None => None
            end
        | _ => None
        end
      else option_map (app (utf8_encode c)) (percent_decoded rest)
  end.

Definition uri_to_path (uri : text) : option path :=
  match strip_prefix (str "file://") uri with
  | None => None
  | Some rest =>
      let rest := default rest (strip_prefix (str "localhost") rest) in
      if starts_with (str "/") rest then
        match percent_decoded rest with
        | Some bytes_ => option_map components (from_utf8 bytes_)
        | None => None
        end
      else None
  end.

(** * [spec.rs] *)

Record LspServerSpec := mkLspServerSpec {
  spec_name : text;
  spec_command : text;
  spec_args : list text;
  extensions : list text;
  root_markers : list text;
  language_ids : gmap text text
}.

(** [LspServerSpec::new] *)
Definition new_spec (name command : text) (args exts markers : list text) : LspServerSpec :=
  mkLspServerSpec name command args exts markers ∅.

Definition handles (spec : LspServerSpec) (extension : text) : bool :=
  existsb (fun ext => eq_ignore_ascii_case ext extension) (extensions spec).

Definition default_language_id (extension : text) : text :=
  if teqb extension (str "rs") then str "rust"
  else if mem extension [str "ts"; str "mts"; str "cts"] then str "typescript"
  else if teqb extension (str "tsx") then str "typescriptreact"
  else if mem extension [str "js"; str "mjs"; str "cjs"] then str "javascript"
  else if teqb extension (str "jsx") then str "javascriptreact"
  else if teqb extension (str "py") then str "python"
  else if teqb extension (str "go") then str "go"
  else if mem extension [str "c"; str "h"] then str "c"
  else if mem extension [str "cc"; str "cpp"; str "cxx"; str "hpp"] then str "cpp"
  else extension.

Definition language_id (spec : LspServerSpec) (extension : text) : text :=
  let extension := to_ascii_lowercase extension in
  default (default_language_id extension) (language_ids spec !! extension).

Definition presets : list LspServerSpec := [
  new_spec (str "rust-analyzer") (str "rust-analyzer") [] [str "rs"] [str "Cargo.toml"; str "rust-project.json"];
  new_spec (str "typescript-language-server") (str "typescript-language-server") [str "--stdio"]
    [str "ts"; str "tsx"; str "js"; str "jsx"; str "mjs"; str "cjs"; str "mts"; str "cts"] [];
  new_spec (str "pyright") (str "pyright-langserver") [str "--stdio"] [str "py"] [];
  new_spec (str "basedpyright") (str "basedpyright-langserver") [str "--stdio"] [str "py"] [];
  new_spec (str "gopls") (str "gopls") [] [str "go"] [str "go.mod"; str "go.work"];
  new_spec (str "clangd") (str "clangd") [] [str "c"; str "h"; str "cc"; str "cpp"; str "cxx"; str "hpp"] []
].

Definition named (name : text) (spec : LspServerSpec) : bool := teqb (spec_name spec) name.

Definition merge_specs (presets overrides : list LspServerSpec) : list LspServerSpec :=
  let replaces spec := existsb (named (spec_name spec)) presets in
  let replacing := List.filter replaces overrides in
  let added := List.filter (fun spec => negb (replaces spec)) overrides in
  added ++ map (fun preset => default preset (List.find (named (spec_name preset)) replacing)) presets.

(** * [routing.rs] *)

Record Route := mkRoute { route_spec : LspServerSpec; route_program : path; route_root : path }.

Record Router := mkRouter {
  project_root : path;
  specs : list LspServerSpec;
  (** PATH lookups so far, misses too *)
  programs : gmap text (option path)
}.

Definition extension (p : path) : option text := match file_name p with Some n => snd (stem_and_extension n) | None => None end.

(** [Path::ancestors] *)
Definition ancestors (p : path) : list path :=
  let least := if is_absolute p then 1%nat else 0%nat in
  map (fun k => take k p) (reverse (seq least (S (length p) - least))).

Section Routing.
Context {F : FileSystem}.
(** The crate [which]: a program on PATH. *)
Variable which : text -> option path.

(** [find_program] of [process/spawn.rs], with a working directory *)
Definition find_program (program : text) (dir : path) : option path :=
  let p := components program in
  if is_absolute p || (1 <? length p)%nat then
    let full := if is_absolute p then p else path_join dir p in
    if is_file full then Some full else None
  else which program.

Definition marked (spec : LspServerSpec) (dir : path) : bool :=
  existsb (fun marker => exists_at (path_join dir (components marker))) (root_markers spec).

Fixpoint workspace_root_loop (root : path) (spec : LspServerSpec) (dirs : list path) (outermost : option path) : option path :=
  match dirs with
  | [] => outermost
  | dir :: dirs =>
      if negb (path_starts_with dir root) then outermost
      else workspace_root_loop root spec dirs (if marked spec dir then Some dir else outermost)
  end.

Definition workspace_root (root : path) (spec : LspServerSpec) (file : path) : option path :=
  if is_empty (root_markers spec) then Some root
  else workspace_root_loop root spec (drop 1 (ancestors file)) None.

(** [Router::program] *)
Definition program_of (r : Router) (spec : LspServerSpec) : Router * option path :=
  match programs r !! spec_name spec with
  | Some known => (r, known)
  | None =>
      let found := find_program (spec_command spec) (project_root r) in
      (mkRouter (project_root r) (specs r) (<[spec_name spec := found]> (programs r)), found)
  end.

Fixpoint route_loop (r : Router) (file : path) (candidates : list LspServerSpec) (reasons : list text)
  : Router * (list text + Route) :=
  match candidates with
  | [] => (r, inl reasons)
  | spec :: candidates =>
      let '(r, program) := program_of r spec in
      match program with
      | None =>
          route_loop r file candidates (reasons ++ [str "`" ++ spec_command spec ++ str "` is not installed (not on PATH)"])
      | Some program =>
          match workspace_root (project_root r) spec file with
          | Some root => (r, inr (mkRoute spec program root))
          | None =>
              route_loop r file candidates
                (reasons ++ [spec_name spec ++ str " needs " ++ join (str " or ") (root_markers spec) ++ str " in a directory above the file"])
          end
      end
  end.

Definition route (r : Router) (file : path) : Router * result IntegrationError Route :=
  match option_map to_ascii_lowercase (extension file) with
  | None => (r, Err (Unsupported (display file ++ str " has no extension, so no language server applies")))
  | Some ext =>
      let candidates := List.filter (fun spec => handles spec ext) (specs r) in
      if is_empty candidates then
        (r, Err (Unsupported (str "no language server is configured for `." ++ ext ++ str "` files")))
      else
        match route_loop r file candidates [] with
        | (r, inr found) => (r, Ok found)
        | (r, inl reasons) =>
            (r, Err (Unsupported (str "no language server available for `." ++ ext ++ str "` files: " ++ join (str "; ") reasons)))
        end
  end.

Fixpoint project_routes_loop (r : Router) (todo : list LspServerSpec) (routes : list Route) : Router * list Route :=
  match todo with
  | [] => (r, routes)
  | spec :: todo =>
      let claimed := existsb (fun found => existsb (handles (route_spec found)) (extensions spec)) routes in
      if is_empty (root_markers spec) || claimed || negb (marked spec (project_root r)) then project_routes_loop r todo routes
      else
        let '(r, program) := program_of r spec in
        project_routes_loop r todo
          (routes ++ match program with Some program => [mkRoute spec program (project_root r)] | None => [] end)
  end.

Definition project_routes (r : Router) : Router * list Route := project_routes_loop r (specs r) [].

End Routing.

(** * [types.rs] *)

Record Location := mkLocation {
  loc_path : path;
  loc_line : N;
  loc_column : N;
  loc_end_line : N;
  loc_end_column : N;
  snippet : option text
}.

Definition LABELS : list text := map str
  ["file"; "module"; "namespace"; "package"; "class"; "method"; "property"; "field"; "constructor"; "enum"; "interface"; "function";
   "variable"; "constant"; "string"; "number"; "boolean"; "array"; "object"; "key"; "null"; "enum member"; "struct"; "event";
   "operator"; "type parameter"]%string.

(** [SymbolKind::label] *)
Definition kind_label (kind : N) : text :=
  if kind =? 0 then str "symbol" else default (str "symbol") (LABELS !! N.to_nat (kind - 1)).

Inductive SymbolNode := mkSymbolNode (name : text) (detail : option text) (kind : N)
  (line column start_line end_line : N) (children : list SymbolNode).

Record WorkspaceSymbol := mkWorkspaceSymbol {
  symbol_name : text; symbol_kind : N; container : option text; symbol_location : Location
}.

Inductive CallDirection := Incoming | Outgoing.

Record CallItem := mkCallItem { item_name : text; item_kind : N; item_detail : option text; item_location : Location }.

Record CallEdge := mkCallEdge { edge_item : CallItem; sites : list Location }.

Inductive Severity := SevError | SevWarning | SevInformation | SevHint.

Definition severity_from_lsp (value : option N) : Severity :=
  match value with Some 2 => SevWarning | Some 3 => SevInformation | Some 4 => SevHint | _ => SevError end.

Definition severity_label (s : Severity) : text :=
  match s with SevError => str "error" | SevWarning => str "warning" | SevInformation => str "info" | SevHint => str "hint" end.

Definition severity_rank (s : Severity) : N := match s with SevError => 0 | SevWarning => 1 | SevInformation => 2 | SevHint => 3 end.

Record Diagnostic := mkDiagnostic {
  diag_path : path;
  diag_line : N;
  diag_column : N;
  diag_end_line : N;
  diag_end_column : N;
  severity : Severity;
  diag_message : text;
  diag_code : option text;
  diag_source : option text
}.

Record FileDiagnostics := mkFileDiagnostics { report_path : path; reported : list Diagnostic; fresh : bool }.

Record TextEditPlan := mkTextEditPlan { start_line : N; start_col : N; end_line : N; end_col : N; new_text : text }.

Record FileEdits := mkFileEdits { edits_path : path; edits : list TextEditPlan }.

(** [WorkspaceEditPlan::edit_count] *)
Definition edit_count (files : list FileEdits) : nat := list_sum (map (fun f => length (edits f)) files).

(** * [documents.rs] *)

Inductive SyncOutcome := Opened | Changed | Unchanged.

(** A version is an [i32]. *)
Record OpenDocument := mkOpenDocument { version : Z; doc_text : text }.

Abbreviation Documents := (gmap path OpenDocument).

Definition next_version (v : Z) : Z := if Z.eqb v 2147483647 then -2147483648 else v + 1.

(** [Documents::update] *)
Definition update (p : path) (t : text) (open : Documents) : Documents * (SyncOutcome * Z) :=
  match open !! p with
  | Some document =>
      if teqb (doc_text document) t then (open, (Unchanged, version document))
      else
        let v := next_version (version document) in
        (<[p := mkOpenDocument v t]> open, (Changed, v))
  | None => (<[p := mkOpenDocument 1 t]> open, (Opened, 1%Z))
  end.

(** [Documents::text] *)
Definition document_text (open : Documents) (p : path) : option text := option_map doc_text (open !! p).

(** * [LineIndex] and [Texts] of [resolve.rs] *)

Record LineIndex := mkLineIndex { index_text : text; starts : list N }.

(** The bytes after the newlines of a text that begins at byte [at_]. *)
Fixpoint newline_ends (at_ : N) (t : text) : list N :=
  match t with
  | [] => []
  | c :: rest => if c =? NEWLINE then (at_ + 1) :: newline_ends (at_ + 1) rest else newline_ends (at_ + utf8_len c) rest
  end.

Definition new_index (t : text) : LineIndex := mkLineIndex t (0 :: newline_ends 0 t).

Definition index_line (li : LineIndex) (index : nat) : option text :=
  match starts li !! index with
  | None => None
  | Some start =>
      let end_ := match starts li !! S index with Some next => next - 1 | None => blen (index_text li) end in
      Some (strip_cr (snd (split_at_byte start (fst (split_at_byte end_ (index_text li))))))
  end.

Abbreviation Texts := (gmap path (option LineIndex)).

(** [Texts::load]; [read] is the file on disk, as text. *)
Definition load (open : Documents) (read : path -> option text) (p : path) (files : Texts) : Texts :=
  match files !! p with
  | Some _ => files
  | None =>
      let t := match document_text open p with Some t => Some t | None => read p end in
      <[p := option_map new_index t]> files
  end.

Definition load_all (open : Documents) (read : path -> option text) (ps : list path) (files : Texts) : Texts :=
  foldl (fun files p => load open read p files) files ps.

(** [Texts::line] *)
Definition text_line (files : Texts) (p : path) (index : N) : option text :=
  match files !! p with Some (Some li) => index_line li (N.to_nat index) | _ => None end.

Definition point (files : Texts) (p : path) (position : LspPosition) : N * N :=
  let column :=
    match text_line files p (lsp_line position) with
    | Some line => to_u32 (char_index line (lsp_character position))
    | None => lsp_character position
    end in
  (saturating_succ (lsp_line position), saturating_succ column).

Record LspRange := mkLspRange { range_start : LspPosition; range_end : LspPosition }.

Definition SNIPPET_CHARS : nat := 200.
Definition ELLIPSIS : char := 8230.

Definition location_at (files : Texts) (p : path) (range : LspRange) : Location :=
  let '(line, column) := point files p (range_start range) in
  let '(end_line, end_column) := point files p (range_end range) in
  let snippet :=
    option_map (fun t =>
      let trimmed := trim t in
      take SNIPPET_CHARS trimmed ++ (if Nat.ltb SNIPPET_CHARS (length trimmed) then [ELLIPSIS] else []))
      (text_line files p (lsp_line (range_start range))) in
  mkLocation p line column end_line end_column snippet.

(** [sort_by_key], which is stable; keys are compared lexicographically. *)
Fixpoint key_leb (a b : list N) : bool :=
  match a, b with
  | [], _ => true
  | _ :: _, [] => false
  | x :: a, y :: b => (x <? y) || ((x =? y) && key_leb a b)
  end.

Fixpoint insert_by {A} (key : A -> list N) (x : A) (l : list A) : list A :=
  match l with
  | [] => [x]
  | y :: l' => if key_leb (key x) (key y) then x :: l else y :: insert_by key x l'
  end.

Definition sort_by_key {A} (key : A -> list N) (l : list A) : list A := foldr (insert_by key) [] l.

(** * [convert.rs] *)

Record RawLocation := mkRawLocation { raw_path : path; raw_range : LspRange }.

Inductive RawSymbol := mkRawSymbol (name : text) (detail : option text) (kind : N) (range selection_range : LspRange)
  (children : list RawSymbol).

Record RawWorkspaceSymbol := mkRawWorkspaceSymbol {
  raw_name : text; raw_kind : N; raw_container : option text; raw_location : RawLocation
}.

Record RawDiagnostic := mkRawDiagnostic {
  raw_diag_range : LspRange; raw_severity : option N; raw_code : option text; raw_source : option text; raw_message : text
}.

Inductive WireLocation := Link (target_uri : text) (target_selection_range : LspRange) | Plain (uri : text) (range : LspRange).

Record WireMaybeRange := mkWireMaybeRange { maybe_uri : text; maybe_range : option LspRange }.

Record WireSymbolInformation := mkWireSymbolInformation {
  info_name : text; info_kind : N; info_location : WireMaybeRange; container_name : option text
}.

Record WireCallItem := mkWireCallItem {
  wire_name : text; wire_kind : N; wire_detail : option text; wire_uri : text; selection_range : LspRange
}.

Record WireTextEdit := mkWireTextEdit { edit_range : LspRange; wire_new_text : text }.

Definition malformed (what problem : text) : IntegrationError := ProtocolError (str "malformed " ++ what ++ str " result: " ++ problem).

Definition ZERO_RANGE : LspRange := mkLspRange (mkLspPosition 0 0) (mkLspPosition 0 0).

Definition located (uri : text) (range : LspRange) : option RawLocation :=
  option_map (fun p => mkRawLocation p range) (uri_to_path uri).

(** Edits by file, in the order of a [BTreeMap]. *)
Abbreviation EditsByPath := (list (path * list (LspRange * text))).

Fixpoint add_edits (p : path) (es : list (LspRange * text)) (files : EditsByPath) : EditsByPath :=
  match files with
  | [] => [(p, es)]
  | (q, old) :: rest =>
      if path_eqb p q then (q, old ++ es) :: rest
      else if path_lt p q then (p, es) :: files
      else (q, old) :: add_edits p es rest
  end.

Section WithLspJson.
Context {J : Json} {W : JsonWire}.

(** [serde_json]: more accessors of a value, and the derived decodings of the
    wire structs. *)
Class LspJson := {
  (** the entries of an object, in its order *)
  as_entries : json -> option (list (text * json));
  as_u64 : json -> option N;
  (** the text of a number *)
  number_text : json -> option text;
  is_false : json -> bool;
  json_bool : bool -> json;
  decode_location : json -> result text WireLocation;
  decode_symbol : json -> result text RawSymbol;
  decode_information : json -> result text WireSymbolInformation;
  decode_call_item : json -> result text WireCallItem;
  decode_range : json -> result text LspRange;
  decode_ranges : json -> result text (list LspRange);
  decode_edits : json -> result text (list WireTextEdit)
}.
Context {L : LspJson}.

Record RawCallItem := mkRawCallItem {
  call_name : text; call_kind : N; call_detail : option text; call_location : RawLocation; call_wire : json
}.

Record RawCall := mkRawCall { raw_item : RawCallItem; call_ranges : list LspRange }.

(** [get] and [as_str] after [and_then]. *)
Definition field (o : option json) (key : text) : option json := match o with Some v => json_get v key | None => None end.
Definition string_of (o : option json) : option text := match o with Some v => as_str v | None => None end.
Definition array_of (o : option json) : option (list json) := match o with Some v => as_array v | None => None end.

(** A string or the text of a number. *)
Definition string_or_number (o : option json) : option text :=
  match o with
  | Some v => match as_str v with Some s => Some s | None => number_text v end
  | None => None
  end.

Definition decode_as {A} (what : text) (r : result text A) : result IntegrationError A :=
  match r with Ok a => Ok a | Err e => Err (malformed what e) end.

(** [list]: null, one object, or an array *)
Definition json_list (v : json) (what : text) : result IntegrationError (list json) :=
  if is_null v then Ok []
  else match as_array v with
       | Some items => Ok items
       | None => if is_object v then Ok [v] else Err (malformed what (str "unexpected " ++ to_text v))
       end.

Fixpoint collect {A B} (f : A -> result IntegrationError B) (l : list A) : result IntegrationError (list B) :=
  match l with
  | [] => Ok []
  | a :: l => result_bind (f a) (fun b => result_bind (collect f l) (fun bs => Ok (b :: bs)))
  end.

Definition locations (v : json) : result IntegrationError (list RawLocation) :=
  result_bind (json_list v (str "location")) (fun items =>
  result_bind (collect (fun item =>
           result_bind (decode_as (str "location") (decode_location item)) (fun wire =>
           Ok (match wire with Link uri range | Plain uri range => located uri range end))) items) (fun found =>
  Ok (omap (fun o => o) found))).

Definition document_symbols_of (v : json) : result IntegrationError (list RawSymbol) :=
  result_bind (json_list v (str "documentSymbol")) (fun items =>
  collect (fun item =>
    match json_get item (str "location") with
    | None => decode_as (str "documentSymbol") (decode_symbol item)
    | Some _ =>
        result_bind (decode_as (str "documentSymbol") (decode_information item)) (fun info =>
        let range := default ZERO_RANGE (maybe_range (info_location info)) in
        Ok (mkRawSymbol (info_name info) (container_name info) (info_kind info) range range []))
    end) items).

Definition workspace_symbols_of (v : json) : result IntegrationError (list RawWorkspaceSymbol) :=
  result_bind (json_list v (str "workspace/symbol")) (fun items =>
  result_bind (collect (fun item =>
           result_bind (decode_as (str "workspace/symbol") (decode_information item)) (fun info =>
           let range := default ZERO_RANGE (maybe_range (info_location info)) in
           Ok (option_map (mkRawWorkspaceSymbol (info_name info) (info_kind info) (container_name info))
                 (located (maybe_uri (info_location info)) range)))) items) (fun found =>
  Ok (omap (fun o => o) found))).

Definition call_item_of (v : json) : result IntegrationError (option RawCallItem) :=
  result_bind (decode_as (str "call hierarchy item") (decode_call_item v)) (fun item =>
  Ok (option_map (fun l => mkRawCallItem (wire_name item) (wire_kind item) (wire_detail item) l v)
        (located (wire_uri item) (selection_range item)))).

Definition call_items (v : json) : result IntegrationError (list RawCallItem) :=
  result_bind (json_list v (str "prepareCallHierarchy")) (fun items =>
  result_bind (collect call_item_of items) (fun found => Ok (omap (fun o => o) found))).

Definition calls_of (v : json) (key : text) : result IntegrationError (list RawCall) :=
  result_bind (json_list v (str "call hierarchy")) (fun entries =>
  result_bind (collect (fun entry =>
           match json_get entry key with
           | None => Err (malformed (str "call hierarchy") (str "a call without `" ++ key ++ str "`"))
           | Some item =>
               result_bind (match json_get entry (str "fromRanges") with
                      | Some ranges => decode_as (str "call hierarchy") (decode_ranges ranges)
                      | None => Ok []
                      end) (fun ranges =>
               result_bind (call_item_of item) (fun item => Ok (option_map (fun i => mkRawCall i ranges) item)))
           end) entries) (fun found =>
  Ok (omap (fun o => o) found))).

(** The closure [add] of [workspace_edit]. *)
Definition add_change (uri : text) (es : json) (files : EditsByPath) : result IntegrationError EditsByPath :=
  match uri_to_path uri with
  | None => Err (Unsupported (str "the edit touches a non-file URI `" ++ uri ++ str "`"))
  | Some p =>
      result_bind (decode_as (str "workspace edit") (decode_edits es)) (fun es =>
      Ok (add_edits p (map (fun e => (edit_range e, wire_new_text e)) es) files))
  end.

Definition document_change (files : EditsByPath) (change : json) : result IntegrationError EditsByPath :=
  match string_of (json_get change (str "kind")) with
  | Some kind => Err (Unsupported (str "the edit would " ++ kind ++ str " a file, which a text preview cannot express"))
  | None =>
      match string_of (field (json_get change (str "textDocument")) (str "uri")) with
      | None => Err (malformed (str "workspace edit") (str "a document change without a URI"))
      | Some uri => add_change uri (default json_null (json_get change (str "edits"))) files
      end
  end.

Definition fold_changes {A} (f : EditsByPath -> A -> result IntegrationError EditsByPath) (l : list A) (files : EditsByPath)
  : result IntegrationError EditsByPath :=
  foldl (fun r a => result_bind r (fun files => f files a)) (Ok files) l.

Definition workspace_edit (v : json) : result IntegrationError EditsByPath :=
  match array_of (json_get v (str "documentChanges")) with
  | Some changes => fold_changes document_change changes []
  | None =>
      match match json_get v (str "changes") with Some c => as_entries c | None => None end with
      | Some changes => fold_changes (fun files '(uri, es) => add_change uri es files) changes []
      | None =>
          if is_null v then Ok []
          else Err (malformed (str "workspace edit") (str "neither `changes` nor `documentChanges`"))
      end
  end.

Definition diagnostic_of (item : json) : option RawDiagnostic :=
  match json_get item (str "range") with
  | None => None
  | Some range =>
      match decode_range range, string_of (json_get item (str "message")) with
      | Ok range, Some message =>
          let severity := match json_get item (str "severity") with Some v => as_u64 v | None => None end in
          Some (mkRawDiagnostic range severity (string_or_number (json_get item (str "code")))
                  (string_of (json_get item (str "source"))) message)
      | _, _ => None
      end
  end.

(** [convert::diagnostics] *)
Definition diagnostics_of (items : list json) : list RawDiagnostic := omap diagnostic_of items.

(** * The rest of [resolve.rs] *)

Definition non_empty (o : option text) : option text := match o with Some [] => None | _ => o end.

Definition location (files : Texts) (raw : RawLocation) : Location := location_at files (raw_path raw) (raw_range raw).

Fixpoint symbol_node (files : Texts) (p : path) (raw : RawSymbol) : SymbolNode :=
  match raw with
  | mkRawSymbol name detail kind range selection children =>
      let '(line, column) := point files p (range_start selection) in
      mkSymbolNode name (non_empty detail) kind line column (saturating_succ (lsp_line (range_start range)))
        (saturating_succ (lsp_line (range_end range))) (map (symbol_node files p) children)
  end.

Definition symbols (files : Texts) (p : path) (raw : list RawSymbol) : list SymbolNode := map (symbol_node files p) raw.

Definition workspace_symbol (files : Texts) (raw : RawWorkspaceSymbol) : WorkspaceSymbol :=
  mkWorkspaceSymbol (raw_name raw) (raw_kind raw) (non_empty (raw_container raw)) (location files (raw_location raw)).

Definition call_item (files : Texts) (raw : RawCallItem) : CallItem :=
  mkCallItem (call_name raw) (call_kind raw) (non_empty (call_detail raw)) (location files (call_location raw)).

Definition call_edge (files : Texts) (raw : RawCall) (sites_in : path) : CallEdge :=
  mkCallEdge (call_item files (raw_item raw)) (map (location_at files sites_in) (call_ranges raw)).

Definition diagnostic (files : Texts) (p : path) (raw : RawDiagnostic) : Diagnostic :=
  let '(line, column) := point files p (range_start (raw_diag_range raw)) in
  let '(end_line, end_column) := point files p (range_end (raw_diag_range raw)) in
  mkDiagnostic p line column end_line end_column (severity_from_lsp (raw_severity raw)) (raw_message raw) (raw_code raw) (raw_source raw).

Definition edit_of (files : Texts) (p : path) (e : LspRange * text) : TextEditPlan :=
  let '(line, column) := point files p (range_start (fst e)) in
  let '(end_line, end_column) := point files p (range_end (fst e)) in
  mkTextEditPlan line column end_line end_column (snd e).

Definition edit_plan (files : Texts) (raw : EditsByPath) : list FileEdits :=
  map (fun '(p, es) => mkFileEdits p (sort_by_key (fun e => [start_line e; start_col e]) (map (edit_of files p) es))) raw.

(** * [capabilities.rs] *)

Definition server_capabilities (v : json) (server : text) : result IntegrationError json :=
  match json_get v (str "capabilities") with
  | Some capabilities =>
      if is_object capabilities then
        match string_of (json_get capabilities (str "positionEncoding")) with
        | None => Ok capabilities
        | Some other =>
            if teqb other (str "utf-16") then Ok capabilities
            else Err (ProtocolError (str "`" ++ server ++ str "` chose position encoding `" ++ other ++ str "`, but only utf-16 was offered"))
        end
      else Err (ProtocolError (str "`" ++ server ++ str "` returned no capabilities"))
  | None => Err (ProtocolError (str "`" ++ server ++ str "` returned no capabilities"))
  end.

Definition provides (capabilities : json) (provider : text) : bool :=
  match json_get capabilities provider with None => false | Some v => negb (is_null v || is_false v) end.

Definition wants_save (capabilities : json) : bool :=
  match json_get capabilities (str "textDocumentSync") with
  | Some sync => is_object sync && match json_get sync (str "save") with Some save => negb (is_false save) | None => false end
  | None => false
  end.

(** * [diagnostics.rs] *)

(** Generations are [u64] counters. *)
Record Published := mkPublished { generation_of : N; items : list json }.
Record DiagnosticsStore := mkDiagnosticsStore { by_path : gmap path Published; counter : N }.

Definition new_store : DiagnosticsStore := mkDiagnosticsStore ∅ 0.

Definition publish (params : option json) (s : DiagnosticsStore) : DiagnosticsStore :=
  match match string_of (field params (str "uri")) with Some uri => uri_to_path uri | None => None end with
  | None => s
  | Some p =>
      let items := default [] (array_of (field params (str "diagnostics"))) in
      let generation := counter s + 1 in
      mkDiagnosticsStore (<[p := mkPublished generation items]> (by_path s)) generation
  end.

Definition generation (s : DiagnosticsStore) (p : path) : N := match by_path s !! p with Some d => generation_of d | None => 0 end.

Definition published_items (s : DiagnosticsStore) (p : path) : list json := match by_path s !! p with Some d => items d | None => [] end.

(** [wait_newer]: the notifications that arrive before the deadline; the
    store afterwards. *)
Fixpoint wait_newer (p : path) (after : N) (s : DiagnosticsStore) (arrivals : list (option json)) : bool * DiagnosticsStore :=
  if after <? generation s p then (true, s)
  else match arrivals with
       | [] => (false, s)
       | params :: arrivals => wait_newer p after (publish params s) arrivals
       end.

(** * [progress.rs] *)

Definition progress_update (params : option json) (open : gset text) : gset text :=
  match params with
  | None => open
  | Some params =>
      match string_or_number (json_get params (str "token")) with
      | None => open
      | Some token =>
          match string_of (field (json_get params (str "value")) (str "kind")) with
          | Some kind =>
              if teqb kind (str "begin") then {[token]} ∪ open
              else if teqb kind (str "end") then open ∖ {[token]}
              else open
          | None => open
          end
      end
  end.

Definition busy (open : gset text) : bool := negb (bool_decide (open = ∅)).

(** * [client.rs] *)

Definition MAX_SYNC_BYTES : N := 8 * 1024 * 1024.

Inductive Metadata := NoFile | MetadataFailed (source : text) | FileMetadata (a_file : bool) (len : N).

Definition read_source (p : path) (metadata : Metadata) (contents : result text (list N)) : result IntegrationError text :=
  match metadata with
  | NoFile => Err (NotFoundError (display p))
  | MetadataFailed source => Err (IoFailed (str "reading " ++ display p) source)
  | FileMetadata a_file len =>
      if negb a_file then Err (NotFoundError (display p ++ str " is not a file"))
      else if MAX_SYNC_BYTES <? len then
        Err (Unsupported (display p ++ str " is larger than " ++ show_N MAX_SYNC_BYTES ++ str " bytes"))
      else match contents with
           | Err source => Err (IoFailed (str "reading " ++ display p) source)
           | Ok bytes_ =>
               match from_utf8 bytes_ with
               | Some t => Ok t
               | None => Err (Unsupported (display p ++ str " is not UTF-8 text"))
               end
           end
  end.

(** What becomes of a notification: it is written; it fails and the connection
    is at its end; or the caller gives up while it waits. *)
Inductive Delivery := Delivered | NotDelivered (e : IntegrationError) | Abandoned (written : bool).

(** The notifications of [sync], and their messages. *)
Inductive Notice :=
| DidOpen (uri language : text) (version : Z) (text_ : text)
| DidChange (uri : text) (version : Z) (text_ : text)
| DidSave (uri : text).

Definition notice_message (n : Notice) : RpcNotification :=
  match n with
  | DidOpen uri language version t =>
      mkRpcNotification (str "textDocument/didOpen") (Some (json_object [(str "textDocument", json_object
        [(str "uri", json_string uri); (str "languageId", json_string language); (str "version", json_int version); (str "text", json_string t)])]))
  | DidChange uri version t =>
      mkRpcNotification (str "textDocument/didChange") (Some (json_object
        [(str "textDocument", json_object [(str "uri", json_string uri); (str "version", json_int version)]);
         (str "contentChanges", json_array [json_object [(str "text", json_string t)]])]))
  | DidSave uri =>
      mkRpcNotification (str "textDocument/didSave") (Some (json_object [(str "textDocument", json_object [(str "uri", json_string uri)])]))
  end.

(** The notifications written, and how the call ends ([None] when its caller
    gave up) unless it goes on to [next]. *)
Definition send_notice {A} (d : Delivery) (n : Notice) (next : list Notice * option (result IntegrationError A))
  : list Notice * option (result IntegrationError A) :=
  match d with
  | Delivered => let '(more, answer) := next in (n :: more, answer)
  | NotDelivered e => ([], Some (Err e))
  | Abandoned written => (if written then [n] else [], None)
  end.

(** [LspClient::sync] after the file is read: all of it runs under
    [sync_lock].  [told] is what becomes of the notification of the text,
    [saved] of the one after it. *)
Definition sync_locked (spec : LspServerSpec) (capabilities : json) (p : path) (t : text) (told saved : Delivery) (open : Documents)
  : Documents * (list Notice * option (result IntegrationError SyncOutcome)) :=
  let '(open, (outcome, version)) := update p t open in
  let uri := path_to_uri p in
  let after :=
    if wants_save capabilities then send_notice saved (DidSave uri) ([], Some (Ok outcome)) else ([], Some (Ok outcome)) in
  (open,
   match outcome with
   | Unchanged => ([], Some (Ok outcome))
   | Opened => send_notice told (DidOpen uri (language_id spec (default [] (extension p))) version t) after
   | Changed => send_notice told (DidChange uri version t) after
   end).

(** [collect_diagnostics].  [before] is the generation before the sync,
    [outcome] what the sync gave; [s] is the store after it and [arrivals] what
    the server publishes during the wait; [open] and [read] give the texts. *)
Definition collect_diagnostics (p : path) (only_if_quick : bool) (before : N) (outcome : result IntegrationError SyncOutcome)
    (is_busy : bool) (s : DiagnosticsStore) (arrivals : list (option json)) (open : Documents) (read : path -> option text)
  : result IntegrationError FileDiagnostics * DiagnosticsStore :=
  match outcome with
  | Err e => (Err e, s)
  | Ok outcome =>
      let '(is_fresh, s) :=
        if match outcome with Unchanged => 0 <? before | _ => false end then (true, s)
        else if only_if_quick && ((before =? 0) || is_busy) then (false, s)
        else wait_newer p before s arrivals in
      let files := load open read p ∅ in
      let found := map (diagnostic files p) (diagnostics_of (published_items s p)) in
      (Ok (mkFileDiagnostics p (sort_by_key (fun d => [diag_line d; diag_column d; severity_rank (severity d)]) found) is_fresh), s)
  end.

(** [handshake]; [answer] is that to [initialize], [notified] to the
    notification after it. *)
Definition handshake (server : text) (answer : result IntegrationError json) (notified : result IntegrationError unit)
  : result IntegrationError json :=
  let? v := answer in
  let? capabilities := server_capabilities v server in
  let? _ := notified in
  Ok capabilities.

(** * [ops.rs] *)

Record Target := mkTarget { target_server : text; target_capabilities : json; target_path : path; target_text : text }.

(** The answer to the n-th request of an operation. *)
Definition Answers : Type := nat -> text -> json -> result IntegrationError json.

Definition document (g : Target) : json := json_object [(str "uri", json_string (path_to_uri (target_path g)))].

Definition position_value (at_ : LspPosition) : json :=
  json_object [(str "line", json_int (Z.of_N (lsp_line at_))); (str "character", json_int (Z.of_N (lsp_character at_)))].

(** The entries of [Target::position]. *)
Definition target_position (g : Target) (line column : N) : result IntegrationError (list (text * json)) :=
  match to_lsp (target_text g) line column with
  | Some at_ => Ok [(str "textDocument", document g); (str "position", position_value at_)]
  | None =>
      Err (NotFoundError (str "line " ++ show_N line ++ str " of " ++ display (target_path g) ++ str " (the file has "
                          ++ show_N (N.of_nat (length (split_on NEWLINE (target_text g)))) ++ str " lines)"))
  end.

Definition require (g : Target) (provider what : text) : result IntegrationError unit :=
  if provides (target_capabilities g) provider then Ok tt
  else Err (Unsupported (target_server g ++ str " does not support " ++ what)).

Definition locate (g : Target) (line column : N) (method_ provider what : text) (ask : Answers) (open : Documents) (read : path -> option text)
  : result IntegrationError (list Location) :=
  let? _ := require g provider what in
  let? entries := target_position g line column in
  let context :=
    if teqb method_ (str "textDocument/references") then [(str "context", json_object [(str "includeDeclaration", json_bool true)])] else [] in
  let? answer := ask 0%nat method_ (json_object (entries ++ context)) in
  let? raw := locations answer in
  let files := load_all open read (map raw_path raw) ∅ in
  Ok (map (location files) raw).

Definition definition (g : Target) (line column : N) :=
  locate g line column (str "textDocument/definition") (str "definitionProvider") (str "go to definition").
Definition references (g : Target) (line column : N) :=
  locate g line column (str "textDocument/references") (str "referencesProvider") (str "find references").
Definition implementations (g : Target) (line column : N) :=
  locate g line column (str "textDocument/implementation") (str "implementationProvider") (str "go to implementation").

Definition document_symbols (g : Target) (ask : Answers) (open : Documents) (read : path -> option text)
  : result IntegrationError (list SymbolNode) :=
  let? _ := require g (str "documentSymbolProvider") (str "document symbols") in
  let? answer := ask 0%nat (str "textDocument/documentSymbol") (json_object [(str "textDocument", document g)]) in
  let? raw := document_symbols_of answer in
  Ok (symbols (load open read (target_path g) ∅) (target_path g) raw).

(** The clients that offer the symbols, with their capabilities, documents and
    answers. *)
Definition workspace_symbols (query : text) (clients : list (json * Documents * Answers)) (read : path -> option text)
  : result IntegrationError (list WorkspaceSymbol) :=
  let clients := List.filter (fun '(capabilities, _, _) => provides capabilities (str "workspaceSymbolProvider")) clients in
  if is_empty clients then
    Err (Unsupported (str "no running language server offers workspace symbols; ask about a source file first so its server starts"))
  else
    let '(found, failure, answered) :=
      foldl (fun '(found, failure, answered) '(_, open, ask) =>
        match (let? answer := ask 0%nat (str "workspace/symbol") (json_object [(str "query", json_string query)]) in workspace_symbols_of answer) with
        | Ok raw =>
            let files := load_all open read (map (fun s => raw_path (raw_location s)) raw) ∅ in
            (found ++ map (workspace_symbol files) raw, failure, true)
        | Err e => (found, Some e, answered)
        end) ([], None, false) clients in
    match answered, failure with
    | false, Some e => Err e
    | _, _ => Ok found
    end.

(** The calls of the items, each with the file its sites are in; [n] requests
    came before. *)
Fixpoint ask_calls (direction : CallDirection) (ask : Answers) (n : nat) (items : list RawCallItem)
  : result IntegrationError (list (RawCall * path)) :=
  match items with
  | [] => Ok []
  | item :: items =>
      let '(method_, key) :=
        match direction with
        | Incoming => (str "callHierarchy/incomingCalls", str "from")
        | Outgoing => (str "callHierarchy/outgoingCalls", str "to")
        end in
      let? answer := ask n method_ (json_object [(str "item", call_wire item)]) in
      let? found := calls_of answer key in
      let? more := ask_calls direction ask (S n) items in
      Ok (map (fun c => (c, match direction with
                            | Incoming => raw_path (call_location (raw_item c))
                            | Outgoing => raw_path (call_location item)
                            end)) found ++ more)
  end.

Definition calls (g : Target) (line column : N) (direction : CallDirection) (ask : Answers) (open : Documents) (read : path -> option text)
  : result IntegrationError (list CallEdge) :=
  let? _ := require g (str "callHierarchyProvider") (str "call hierarchy") in
  let? entries := target_position g line column in
  let? answer := ask 0%nat (str "textDocument/prepareCallHierarchy") (json_object entries) in
  let? items := call_items answer in
  if is_empty items then
    Err (NotFoundError (str "no function at " ++ display (target_path g) ++ str ":" ++ show_N line ++ str ":" ++ show_N column))
  else
    let? raw := ask_calls direction ask 1 items in
    let files := foldl (fun files '(c, sites_in) => load open read sites_in (load open read (raw_path (call_location (raw_item c))) files)) ∅ raw in
    Ok (map (fun '(c, sites_in) => call_edge files c sites_in) raw).

Definition rename_preview (g : Target) (line column : N) (new_name : text) (ask : Answers) (open : Documents) (read : path -> option text)
  : result IntegrationError (list FileEdits) :=
  let? _ := require g (str "renameProvider") (str "rename") in
  let? entries := target_position g line column in
  let? answer := ask 0%nat (str "textDocument/rename") (json_object (entries ++ [(str "newName", json_string new_name)])) in
  if is_null answer then
    Err (NotFoundError (str "no renameable symbol at " ++ display (target_path g) ++ str ":" ++ show_N line ++ str ":" ++ show_N column))
  else
    let? raw := workspace_edit answer in
    Ok (edit_plan (load_all open read (map fst raw) ∅) raw).

End WithLspJson.

(** * [manager.rs] *)

Definition MAX_RESTARTS : N := 3.

Inductive LspServerState := Starting | ServerRunning | ServerFailed (reason : text).

Record LspServerStatus := mkLspServerStatus {
  status_name : text; status_root : path; status_command : path; status_state : LspServerState; open_documents : nat; stderr_tail : list text
}.

(** A client is what the process behind it makes of it: [closed] is its
    [close_reason], [documents_of] the number of documents it has open. *)
Section Slots.
Context {C : Type} (closed : C -> option text) (documents_of : C -> nat).

Inductive SlotState := Idle | Running (c : C) | SlotFailed (reason : text).

Record Slot := mkSlot { slot_route : Route; slot_state : SlotState; restarts : N; slot_stderr : list text }.

Definition set_slot_state (state : SlotState) (n : N) (s : Slot) : Slot := mkSlot (slot_route s) state n (slot_stderr s).

(** What happens to a call that needs a client: whether its caller gives up
    while a dead client is shut down, and what the start of a new one gives
    ([None] when the caller gives up during it). *)
Record StartIo := mkStartIo { gone_at_shutdown : bool; started : option (result IntegrationError C) }.

Definition start_client (io : StartIo) (n : N) (s : Slot) : Slot * option (result IntegrationError C) :=
  match started io with
  | None => (set_slot_state Idle n s, None)
  | Some (Ok c) => (set_slot_state (Running c) n s, Some (Ok c))
  | Some (Err e) => (set_slot_state (SlotFailed (Rpc.show_error e)) n s, Some (Err e))
  end.

(** [Slot::client], with whether a server was started. *)
Definition slot_client (io : StartIo) (s : Slot) : Slot * option (result IntegrationError C) * bool :=
  let name := spec_name (route_spec (slot_route s)) in
  match slot_state s with
  | Running c =>
      match closed c with
      | None => (s, Some (Ok c), false)
      | Some reason =>
          if gone_at_shutdown io then (set_slot_state Idle (restarts s) s, None, false)
          else if MAX_RESTARTS <=? restarts s then
            let message := name ++ str " exited (" ++ reason ++ str ") after " ++ show_N MAX_RESTARTS ++ str " restarts" in
            (set_slot_state (SlotFailed message) (restarts s + 1) s, Some (Err (Unsupported message)), false)
          else (start_client io (restarts s + 1) s, true)
      end
  | SlotFailed reason => (s, Some (Err (Unsupported (name ++ str " is unavailable: " ++ reason))), false)
  | Idle => (start_client io (restarts s) s, true)
  end.

(** [Slot::running]; [locked]: a call holds the state. *)
Definition slot_running (locked : bool) (s : Slot) : option C :=
  if locked then None
  else match slot_state s with
       | Running c => match closed c with None => Some c | Some _ => None end
       | _ => None
       end.

Definition slot_status (locked : bool) (s : Slot) : LspServerStatus :=
  let '(state, n) :=
    if locked then (Starting, 0%nat)
    else match slot_state s with
         | Idle => (Starting, 0%nat)
         | Running c =>
             match closed c with
             | Some reason => (ServerFailed (str "exited: " ++ reason), 0%nat)
             | None => (ServerRunning, documents_of c)
             end
         | SlotFailed reason => (ServerFailed reason, 0%nat)
         end in
  mkLspServerStatus (spec_name (route_spec (slot_route s))) (route_root (slot_route s)) (route_program (slot_route s)) state n (slot_stderr s).

(** [Slot::shutdown] *)
Definition slot_shutdown (s : Slot) : Slot := set_slot_state Idle (restarts s) s.

Definition serves (r : Route) (s : Slot) : bool :=
  teqb (spec_name (route_spec (slot_route s))) (spec_name (route_spec r)) && path_eqb (route_root (slot_route s)) (route_root r).

(** [LspManager::slot]: the slots, and the index of the slot for the route. *)
Definition slot_for (r : Route) (slots : list Slot) : list Slot * nat :=
  match list_find (fun s => Is_true (serves r s)) slots with
  | Some (i, _) => (slots, i)
  | None => (slots ++ [mkSlot r Idle 0 []], length slots)
  end.

End Slots.
Arguments SlotState C : clear implicits.
Arguments Slot C : clear implicits.
Arguments StartIo C : clear implicits.

Inductive Canonical := CanonicalPath (p : path) | CanonicalMissing | CanonicalFailed (source : text).

(** [LspManager::resolve_file]; [canonical] is what the file system answers. *)
Definition resolve_file (root p : path) (canonical : path -> Canonical) : result IntegrationError path :=
  let joined := if is_absolute p then p else path_join root p in
  match canonical joined with
  | CanonicalMissing => Err (NotFoundError (display joined))
  | CanonicalFailed source => Err (IoFailed (str "resolving " ++ display joined) source)
  | CanonicalPath real =>
      if path_starts_with real root then Ok real else Err (Unsupported (display joined ++ str " is outside the project"))
  end.

(** * [mcp/naming.rs] *)

Definition MAX_TOOL_NAME_LEN : nat := 64.
Definition MCP_PREFIX : text := str "mcp__".
Definition MCP_SEPARATOR : text := str "__".
Definition HASH_LEN : nat := 8.

Definition name_char (c : char) : bool := is_ascii_alphanumeric c || (c =? chr "_") || (c =? chr "-").

Definition sanitize (t : text) : text := map (fun c => if name_char c then c else chr "_") t.

Definition fnv1a (bytes_ : list N) : N :=
  foldl (fun hash byte => (N.lxor hash byte * 16777619) mod 4294967296) 2166136261 bytes_.

(** [{:08x}] *)
Definition hex8 (n : N) : text := map (fun k => hex_digit (n / 16 ^ k mod 16)) [7; 6; 5; 4; 3; 2; 1; 0].

Definition tool_name (server tool : text) : text :=
  let full := sanitize (MCP_PREFIX ++ server ++ MCP_SEPARATOR ++ tool) in
  if Nat.leb (length full) MAX_TOOL_NAME_LEN then full
  else take (MAX_TOOL_NAME_LEN - HASH_LEN - 1) full ++ str "_" ++ hex8 (fnv1a (as_bytes full)).

Definition split_tool_name (name : text) : option (text * text) :=
  match strip_prefix MCP_PREFIX name with
  | None => None
  | Some rest =>
      match split_once MCP_SEPARATOR rest with
      | Some (server, tool) => if negb (is_empty server) && negb (is_empty tool) then Some (server, tool) else None
      | None => None
      end
  end.
