(* ===== verification/LspFacts.v ===== *)
(** Language servers: positions and URIs convert back, the server's copies of
    files follow what the client keeps, a file is routed to the first server
    that can take it, and servers are restarted a bounded number of times. *)

From Stdlib Require Import String Sorted Permutation Zify ZifyBool ZifyN.
From stdpp Require Import gmap list.
From S2P Require Import Checkpoint EditFacts Output OutputFacts RpcFacts Sse Lsp.

Open Scope N_scope.

(** * Lines *)

Lemma utf16_len_cons c l : utf16_len (c :: l) = len_utf16 c + utf16_len l.
Proof. done. Qed.

Lemma utf16_len_app a b : utf16_len (a ++ b) = utf16_len a + utf16_len b.
Proof. induction a as [|c a IH]; [done|]. cbn [app utf16_len foldr]. fold (utf16_len (a ++ b)) (utf16_len a). lia. Qed.

Lemma len_utf16_bound c : 1 <= len_utf16 c <= 2.
Proof. unfold len_utf16. case_if; lia. Qed.

Lemma utf16_len_length l : N.of_nat (length l) <= utf16_len l.
Proof.
  induction l as [|c l IH]; [done|]. cbn [length utf16_len foldr]. fold (utf16_len l). pose proof (len_utf16_bound c). lia.
Qed.

Lemma char_index_loop_spec line units consumed index :
  consumed <= units ->
  exists k, (k <= length line)%nat /\ char_index_loop line units consumed index = index + N.of_nat k
    /\ consumed + utf16_len (take k line) <= units
    /\ ((k < length line)%nat -> units < consumed + utf16_len (take (S k) line)).
Proof.
  revert consumed index; induction line as [|c line IH]; intros consumed index Hc; cbn [char_index_loop].
  { exists 0%nat. cbn. split_and!; lia. }
  pose proof (len_utf16_bound c) as Hb. destruct (N.leb_spec units consumed).
  { exists 0%nat. cbn [take length]. rewrite utf16_len_cons. change (utf16_len []) with 0. split_and!; lia. }
  destruct (N.ltb_spec units (consumed + len_utf16 c)).
  { exists 0%nat. cbn [take length]. rewrite utf16_len_cons. change (utf16_len []) with 0. split_and!; lia. }
  destruct (IH (consumed + len_utf16 c) (index + 1) ltac:(lia)) as (k & Hk & E & H1 & H2).
  exists (S k). cbn [length]. rewrite !firstn_cons, !utf16_len_cons, E. split_and!; [lia|lia|lia|].
  intros Hl. specialize (H2 ltac:(lia)). lia.
Qed.

Lemma utf16_take_le line j k : (j <= k)%nat -> utf16_len (take j line) <= utf16_len (take k line).
Proof.
  intros H. replace (take k line) with (take j line ++ drop j (take k line)); [rewrite utf16_len_app; lia|].
  by rewrite <- (take_drop j (take k line)) at 2; rewrite take_take, Nat.min_l.
Qed.

Lemma utf16_take_lt line j k : (j < k)%nat -> (j < length line)%nat -> utf16_len (take j line) < utf16_len (take k line).
Proof.
  intros H Hl. destruct (lookup_lt_is_Some_2 line j Hl) as [c Hc].
  pose proof (utf16_take_le line (S j) k ltac:(lia)). rewrite (take_S_r _ _ _ Hc), utf16_len_app in H0.
  cbn [utf16_len foldr] in H0. pose proof (len_utf16_bound c). lia.
Qed.

(** The offset of a char leads back to it. *)
Lemma char_index_offset line k : char_index line (utf16_len (take k line)) = N.of_nat (Nat.min k (length line)).
Proof.
  unfold char_index. destruct (char_index_loop_spec line (utf16_len (take k line)) 0 0 ltac:(lia)) as (j & Hj & -> & H1 & H2).
  rewrite N.add_0_l in *. f_equal. destruct (Nat.lt_trichotomy j (Nat.min k (length line))) as [Hlt|[->|Hgt]]; [|done|].
  - assert (Hl : (j < length line)%nat) by lia. specialize (H2 Hl).
    pose proof (utf16_take_le line (S j) k ltac:(lia)). lia.
  - pose proof (utf16_take_lt line k j ltac:(lia) ltac:(lia)). lia.
Qed.

Lemma take_clamp {A} (l : list A) k : take (Nat.min k (length l)) l = take k l.
Proof. destruct (Nat.le_ge_cases k (length l)); [by rewrite Nat.min_l|]. by rewrite Nat.min_r, !take_ge by lia. Qed.

(** Texts whose lines and offsets fit in 32 bits. *)
Definition fits_u32 (t : text) : Prop :=
  N.of_nat (length (split_on NEWLINE t)) <= U32_MAX /\ Forall (fun line => utf16_len line < U32_MAX) (split_on NEWLINE t).

Lemma strip_cr_fits t index line : fits_u32 t -> line_text t index = Some line -> utf16_len line < U32_MAX.
Proof.
  intros [_ Hf] Hl. unfold line_text in Hl. destruct (split_on NEWLINE t !! _) as [raw|] eqn:E; [|done]. injection Hl as <-.
  apply (Forall_lookup_1 _ _ _ _ Hf) in E. unfold strip_cr. destruct (strip_suffix _ raw) as [r|] eqn:Es; [|done].
  apply strip_suffix_Some in Es as ->. cbn beta in E. rewrite utf16_len_app in E. change (utf16_len r < U32_MAX). lia.
Qed.

Lemma line_text_Some t index : is_Some (line_text t index) <-> index < N.of_nat (length (split_on NEWLINE t)).
Proof.
  unfold line_text. rewrite fmap_is_Some, lookup_lt_is_Some. lia.
Qed.

(** A position between two chars of a line. *)
Definition at_char (t : text) (at_ : LspPosition) : Prop :=
  exists line k, line_text t (lsp_line at_) = Some line /\ (k <= length line)%nat /\ lsp_character at_ = utf16_len (take k line).

Lemma from_lsp_at t line at_ k :
  fits_u32 t -> line_text t (lsp_line at_) = Some line -> (k <= length line)%nat -> lsp_character at_ = utf16_len (take k line) ->
  from_lsp t at_ = (lsp_line at_ + 1, N.of_nat k + 1).
Proof.
  intros Hf Hl Hk Hc. unfold from_lsp. rewrite Hl, Hc, char_index_offset. pose proof (strip_cr_fits _ _ _ Hf Hl) as Hb.
  assert (Hi : lsp_line at_ < N.of_nat (length (split_on NEWLINE t))) by (apply line_text_Some; by eexists).
  pose proof (utf16_len_length line). destruct Hf as [Hf _]. unfold saturating_succ, to_u32. f_equal; lia.
Qed.

(** What the model is shown for a position leads back to it. *)
Lemma to_lsp_back t at_ : fits_u32 t -> at_char t at_ -> to_lsp t (fst (from_lsp t at_)) (snd (from_lsp t at_)) = Some at_.
Proof.
  intros Hfits (l & k & Hl & Hk & Hc). rewrite (from_lsp_at _ l _ k Hfits Hl Hk Hc). cbn [fst snd]. unfold to_lsp.
  destruct (N.eqb_spec (lsp_line at_ + 1) 0); [lia|]. rewrite N.add_sub, Hl. cbn [option_map]. f_equal. destruct at_ as [ln ch]. cbn in *. f_equal.
  unfold utf16_offset, to_u32. rewrite Hc, N.add_sub, Nat2N.id. pose proof (strip_cr_fits _ _ _ Hfits Hl). pose proof (utf16_take_le l k (length l) ltac:(lia)).
  rewrite (take_ge l (length l)) in H0 by lia. lia.
Qed.

(** C33: positions of language servers and of the model are the same places.
    The model's line and column, whose column is clamped to the line, come back
    from the server's position; a line that the text does not have has none; and
    a position of the server, unless it is inside a surrogate pair, comes back
    from what the model is shown.  Texts beyond 32 bits aside, no conversion
    leaves the range of its type. *)
Theorem positions_round_trip (t : text) (line column : N) (at_ : LspPosition) (Hfits : fits_u32 t) :
  (to_lsp t line column = None <-> line = 0 \/ N.of_nat (length (split_on NEWLINE t)) < line)
  /\ (to_lsp t line column = Some at_ ->
      exists line_str, line_text t (line - 1) = Some line_str
        /\ from_lsp t at_ = (line, N.min (N.max 1 column) (N.of_nat (length line_str) + 1))
        /\ at_char t at_)
  /\ (at_char t at_ -> to_lsp t (fst (from_lsp t at_)) (snd (from_lsp t at_)) = Some at_).
Proof.
  split_and!.
  - unfold to_lsp. destruct (N.eqb_spec line 0) as [->|Hz]; [split; [by left|done]|].
    pose proof (line_text_Some t (line - 1)) as Hs. destruct (line_text t (line - 1)) as [l|]; cbn [option_map].
    + split; [done|]. intros [?|Hl]; [done|]. assert (Hx : is_Some (Some l)) by by eexists. apply Hs in Hx. lia.
    + split; [|done]. intros _. right. destruct (N.lt_ge_cases (line - 1) (N.of_nat (length (split_on NEWLINE t)))) as [Hx|Hx]; [|lia].
      by apply Hs in Hx as [? [=]].
  - unfold to_lsp. destruct (N.eqb_spec line 0) as [->|Hz]; [done|]. destruct (line_text t (line - 1)) as [l|] eqn:El; [|done].
    cbn [option_map]. intros [= <-]. exists l. split; [done|]. pose proof (strip_cr_fits _ _ _ Hfits El) as Hb.
    set (k := Nat.min (N.to_nat (column - 1)) (length l)).
    assert (Hk : utf16_offset l (column - 1) = utf16_len (take k l)).
    { unfold utf16_offset, to_u32. rewrite <- (take_clamp l (N.to_nat _)). fold k.
      pose proof (utf16_take_le l k (length l) ltac:(lia)). rewrite (take_ge l (length l)) in H by lia. lia. }
    rewrite Hk. assert (Hat : line_text t (lsp_line (mkLspPosition (line - 1) (utf16_len (take k l)))) = Some l) by done. split.
    + rewrite (from_lsp_at _ l _ k Hfits Hat) by (cbn; lia). cbn [lsp_line]. f_equal; lia.
    + exists l, k. cbn. split_and!; [done|lia|done].
  - by apply to_lsp_back.
Qed.

(** * The lines of an index *)

Lemma newline_ends_app at_ a b : ~ In NEWLINE a -> newline_ends at_ (a ++ b) = newline_ends (at_ + blen a) b.
Proof.
  revert at_; induction a as [|c a IH]; intros at_ Ha; cbn [app newline_ends blen]; [by rewrite N.add_0_r|].
  destruct (N.eqb_spec c NEWLINE) as [->|_]; [destruct Ha; by left|]. rewrite IH by (intros Hin; apply Ha; by right). f_equal. lia.
Qed.

Lemma first_line t : ~ In NEWLINE t \/ exists a b, t = a ++ NEWLINE :: b /\ ~ In NEWLINE a.
Proof.
  induction t as [|c t IH]; [by left; intros []|]. destruct (N.eq_dec c NEWLINE) as [->|Hc].
  - right. exists [], t. split; [done|]. by intros [].
  - destruct IH as [IH|(a & b & -> & Ha)]; [left|right; exists (c :: a), b; split; [done|]]; intros [|]; congruence || contradiction.
Qed.

Lemma index_line_from before t i :
  index_line (mkLineIndex (before ++ t) (blen before :: newline_ends (blen before) t)) i = option_map strip_cr (split_on NEWLINE t !! i).
Proof.
  revert before t; induction i as [|i IH]; intros before t.
  - unfold index_line. cbn [starts index_text lookup list_lookup]. destruct (first_line t) as [Ha|(a & b & -> & Ha)].
    + rewrite split_on_whole by done. cbn [lookup list_lookup option_map]. rewrite <- (app_nil_r t) at 1. rewrite newline_ends_app by done.
      cbn [newline_ends lookup list_lookup]. rewrite <- (app_nil_r (before ++ t)) at 2. rewrite split_at_byte_app. cbn [fst].
      by rewrite split_at_byte_app.
    + rewrite split_on_piece by done. cbn [lookup list_lookup option_map]. rewrite newline_ends_app by done. cbn [newline_ends].
      change (NEWLINE =? NEWLINE) with true. cbn iota. cbn [lookup list_lookup]. rewrite N.add_sub, <- blen_app, app_assoc, split_at_byte_app.
      cbn [fst]. by rewrite split_at_byte_app.
  - destruct (first_line t) as [Ha|(a & b & -> & Ha)].
    + rewrite split_on_whole by done. unfold index_line. cbn [starts index_text lookup list_lookup option_map].
      rewrite <- (app_nil_r t) at 1. rewrite newline_ends_app by done. by destruct i.
    + rewrite split_on_piece by done. change ((a :: split_on NEWLINE b) !! S i) with (split_on NEWLINE b !! i). rewrite <- (IH (before ++ a ++ [NEWLINE]) b).
      rewrite newline_ends_app by done. cbn [newline_ends]. change (NEWLINE =? NEWLINE) with true. cbn iota.
      assert (E : blen (before ++ a ++ [NEWLINE]) = blen before + blen a + 1) by (rewrite !blen_app; cbn [blen]; change (utf8_len NEWLINE) with 1; lia).
      by rewrite E, <- !app_assoc.
Qed.

(** The index gives the lines that splitting gives, found by binary offsets. *)
Lemma index_line_spec t index : index_line (new_index t) (N.to_nat index) = line_text t index.
Proof. apply (index_line_from [] t). Qed.

Lemma point_from_lsp files p t at_ : files !! p = Some (Some (new_index t)) -> point files p at_ = from_lsp t at_.
Proof. intros H. unfold point, from_lsp, text_line. by rewrite H, index_line_spec. Qed.

(** * URIs *)

Definition byte_decodes (b : N) : bool :=
  match encode_byte b with
  | [c] => (c =? b) && (b <? 128) && negb (c =? chr "%")
  | [c; h; l] => (c =? chr "%") && match byte_of_hex h l with Some x => x =? b | None => false end
  | _ => false
  end.

Lemma all_bytes_decode : forallb byte_decodes (map N.of_nat (seq 0 256)) = true.
Proof. vm_compute. reflexivity. Qed.

Lemma decode_encoded b rest : b < 256 -> percent_decoded (encode_byte b ++ rest) = option_map (cons b) (percent_decoded rest).
Proof.
  intros Hb. assert (H : byte_decodes b = true).
  { apply (proj1 (forallb_forall _ _) all_bytes_decode). apply in_map_iff. exists (N.to_nat b). split; [lia|]. apply in_seq. lia. }
  unfold byte_decodes in H. destruct (encode_byte b) as [|c [|h [|l [|? ?]]]]; try done.
  - apply andb_prop in H as [[Hc Hlt]%andb_prop Hp]. apply N.eqb_eq in Hc as ->. apply negb_true_iff in Hp. cbn [app percent_decoded]. rewrite Hp.
    unfold utf8_encode. by rewrite Hlt.
  - apply andb_prop in H as [Hc Hx]. cbn [app percent_decoded]. rewrite Hc. destruct (byte_of_hex h l) as [x|]; [|done]. by apply N.eqb_eq in Hx as ->.
Qed.

Lemma decode_all_encoded bs : Forall (fun b => b < 256) bs -> percent_decoded (flat_map encode_byte bs) = Some bs.
Proof. induction 1 as [|b bs Hb _ IH]; [done|]. cbn [flat_map]. by rewrite decode_encoded, IH. Qed.

Lemma utf8_bytes c : is_char c = true -> Forall (fun b => b < 256) (utf8_encode c).
Proof.
  unfold is_char, in_range, utf8_encode. intros Hc. assert (Hmax : c < 1310720) by lia.
  assert (Hm : forall x, x mod 64 < 64) by (intros x; by apply N.mod_lt).
  pose proof (Hm c); pose proof (Hm (c / 64)); pose proof (Hm (c / 4096)).
  assert (H64 : c < 2048 -> c / 64 < 32) by (intros Hlt; apply N.Div0.div_lt_upper_bound; exact Hlt).
  assert (H4096 : c < 65536 -> c / 4096 < 16) by (intros Hlt; apply N.Div0.div_lt_upper_bound; exact Hlt).
  assert (H262144 : c / 262144 < 5) by (apply N.Div0.div_lt_upper_bound; exact Hmax).
  generalize dependent (c / 64). generalize dependent (c / 4096). generalize dependent (c / 262144). intros.
  repeat case_if; repeat (apply Forall_cons_2; [lia|]); apply Forall_nil_2.
Qed.

Lemma text_bytes t : forallb is_char t = true -> Forall (fun b => b < 256) (as_bytes t).
Proof.
  induction t as [|c t IH]; [by constructor|]. cbn [forallb]. intros [Hc Ht]%andb_prop. change (as_bytes (c :: t)) with (utf8_encode c ++ as_bytes t).
  apply Forall_app. split; [by apply utf8_bytes|by apply IH].
Qed.

Lemma from_utf8_text t : forallb is_char t = true -> from_utf8 (as_bytes t) = Some t.
Proof. intros H. unfold from_utf8. rewrite lossy_round_trip by done. by rewrite bool_decide_true. Qed.

Lemma slash_first p : wf_path p -> is_absolute p = true -> exists rest, as_bytes (display p) = chr "/" :: rest /\ starts_with (str "/") (display p) = true.
Proof. destruct p as [|[] p]; try done. intros _ _. cbn [display]. eexists. by split. Qed.

Lemma encoded_chars b : b < 256 -> Forall (fun c => unreserved c = true \/ c = chr "%") (encode_byte b).
Proof.
  intros Hb. unfold encode_byte. destruct (unreserved b) eqn:Hu; [constructor; [by left|constructor]|].
  assert (Hd : forall d, d < 16 -> unreserved (upper_hex d) = true).
  { intros d Hd. apply (proj1 (forallb_forall (fun d => unreserved (upper_hex d)) (map N.of_nat (seq 0 16))) ltac:(vm_compute; reflexivity)).
    apply in_map_iff. exists (N.to_nat d). split; [lia|]. apply in_seq. lia. }
  constructor; [by right|]. constructor; [left; apply Hd, N.Div0.div_lt_upper_bound; lia|]. constructor; [left; apply Hd; by apply N.mod_lt|constructor].
Qed.

(** Absolute paths of Unicode text, as [resolve_file] gives them. *)
Definition good_path (p : path) : Prop := wf_path p /\ is_absolute p = true /\ forallb is_char (display p) = true.

Lemma uri_back p : good_path p -> uri_to_path (path_to_uri p) = Some p.
Proof.
  intros (Hwf & Habs & Hchars). destruct (slash_first p Hwf Habs) as (rest & Hb & Hs). unfold path_to_uri. rewrite Hs. cbn [app].
  unfold uri_to_path. rewrite strip_prefix_app, Hb. cbn [flat_map]. change (encode_byte (chr "/")) with [chr "/"]. cbn [app].
  change (strip_prefix (str "localhost") (chr "/" :: flat_map encode_byte rest)) with (@None text). cbn [default].
  change (starts_with (str "/") (chr "/" :: flat_map encode_byte rest)) with true. cbn iota.
  change (chr "/" :: flat_map encode_byte rest) with (flat_map encode_byte (chr "/" :: rest)). rewrite <- Hb, decode_all_encoded by by apply text_bytes.
  rewrite from_utf8_text by done. cbn [option_map]. by rewrite components_display_wf.
Qed.

Lemma uri_inj p q : good_path p -> good_path q -> path_to_uri p = path_to_uri q -> p = q.
Proof. intros Hp Hq E. apply uri_back in Hp, Hq. congruence. Qed.

(** A path survives its URI, whose chars are those that need no escape and the
    escapes of the others. *)
Theorem uri_round_trip (p : path) (Hp : good_path p) :
  uri_to_path (path_to_uri p) = Some p
  /\ Forall (fun c => unreserved c = true \/ c = chr "%") (path_to_uri p).
Proof.
  split; [by apply uri_back|]. destruct Hp as (Hwf & Habs & Hchars).
  destruct (slash_first p Hwf Habs) as (rest & _ & Hs). unfold path_to_uri. rewrite Hs. cbn [app].
  apply Forall_app. split; [repeat (constructor; [by left|]); by constructor|]. apply Forall_flat_map.
  apply (Forall_impl _ _ _ (text_bytes _ Hchars)). apply encoded_chars.
Qed.

(** Where the decoder does not do what it says: an escape with a sign is taken
    for a byte, where every other malformed escape is refused. *)
Lemma signed_escape_accepted :
  uri_to_path (str "file:///a%+5") = Some [RootDir; Normal [97; 5]] /\ uri_to_path (str "file:///a%-5") = None
  /\ uri_to_path (str "file:///a%5") = None.
Proof. vm_compute. by split_and!. Qed.

(** * Synchronization *)

(** What the server makes of the notifications it reads: its copies by URI. *)
Definition server_reads (copies : gmap text (Z * text)) (n : Notice) : gmap text (Z * text) :=
  match n with
  | DidOpen uri _ v t => <[uri := (v, t)]> copies
  | DidChange uri v t => match copies !! uri with Some _ => <[uri := (v, t)]> copies | None => copies end
  | DidSave _ => copies
  end.

Definition server_copies (ns : list Notice) : gmap text (Z * text) := foldl server_reads ∅ ns.

Definition notice_uri (n : Notice) : text := match n with DidOpen uri _ _ _ | DidChange uri _ _ | DidSave uri => uri end.

(** The notifications about one file. *)
Definition about (uri : text) (ns : list Notice) : list Notice := List.filter (fun n => teqb (notice_uri n) uri) ns.

Lemma about_app uri ns ms : about uri (ns ++ ms) = about uri ns ++ about uri ms.
Proof. apply List.filter_app. Qed.

(** The copy of a file depends on what was said about it only. *)
Lemma copies_about uri ns copies copies' :
  copies !! uri = copies' !! uri -> foldl server_reads copies ns !! uri = foldl server_reads copies' (about uri ns) !! uri.
Proof.
  revert copies copies'; induction ns as [|n ns IH]; intros copies copies' E; [done|]. cbn [about List.filter foldl].
  destruct (teqb (notice_uri n) uri) eqn:En; cbn [foldl]; apply IH.
  - apply teqb_eq in En as <-. destruct n as [u l v t|u v t|u]; cbn [server_reads notice_uri] in *; [by rewrite !lookup_insert_eq| |done].
    rewrite E. destruct (copies' !! u) eqn:E'; [by rewrite !lookup_insert_eq|congruence].
  - apply teqb_neq in En. rewrite <- E. destruct n as [u l v t|u v t|u]; cbn [server_reads notice_uri] in *; [by rewrite lookup_insert_ne| |done].
    destruct (copies !! u); [by rewrite lookup_insert_ne|done].
Qed.

Lemma server_copies_about uri ns : server_copies ns !! uri = server_copies (about uri ns) !! uri.
Proof. by apply copies_about. Qed.

(** What the protocol asks of a client: it opens what is closed, and changes
    what is open to a newer version (here also: to another text). *)
Definition accepts (copies : gmap text (Z * text)) (n : Notice) : Prop :=
  match n with
  | DidOpen uri _ _ _ => copies !! uri = None
  | DidChange uri v t => exists v0 t0, copies !! uri = Some (v0, t0) /\ (v0 < v)%Z /\ t0 <> t
  | DidSave uri => is_Some (copies !! uri)
  end.

Fixpoint accepts_all (copies : gmap text (Z * text)) (ns : list Notice) : Prop :=
  match ns with [] => True | n :: ns => accepts copies n /\ accepts_all (server_reads copies n) ns end.

Lemma accepts_all_app copies ns ms : accepts_all copies (ns ++ ms) <-> accepts_all copies ns /\ accepts_all (foldl server_reads copies ns) ms.
Proof. revert copies; induction ns as [|n ns IH]; intros copies; cbn [app accepts_all foldl]; [tauto|]. rewrite IH. tauto. Qed.

(** Any number of syncs on one client: files change, a sync reads its file, and
    later takes the lock and tells the server. *)
Inductive SyncEvent :=
| FileChanges (p : path) (t : text)
| SyncReads (p : path)
| SyncRuns (i : nat) (told saved : Delivery).

Record SyncWorld := mkSyncWorld {
  on_disk : gmap path text; waiting : list (path * text); documents : Documents; server_heard : list Notice;
  (** the files of which a text was recorded, but its notification not written *)
  lost : list path
}.

Definition is_written (d : Delivery) : bool := match d with Delivered => true | NotDelivered _ => false | Abandoned written => written end.

Section Sync.
Context {J : Json} {W : JsonWire} {L : LspJson} (spec : LspServerSpec) (capabilities : json).

(** The document has the text already: there is nothing to tell. *)
Definition known (open : Documents) (p : path) (t : text) : bool :=
  match open !! p with Some d => teqb (doc_text d) t | None => false end.

Definition run_sync_event (w : SyncWorld) (e : SyncEvent) : SyncWorld :=
  match e with
  | FileChanges p t => mkSyncWorld (<[p := t]> (on_disk w)) (waiting w) (documents w) (server_heard w) (lost w)
  | SyncReads p =>
      match on_disk w !! p with
      | Some t => mkSyncWorld (on_disk w) (waiting w ++ [(p, t)]) (documents w) (server_heard w) (lost w)
      | None => w
      end
  | SyncRuns i told saved =>
      match waiting w !! i with
      | Some (p, t) =>
          let '(open, (written, _)) := sync_locked spec capabilities p t told saved (documents w) in
          mkSyncWorld (on_disk w) (delete i (waiting w)) open (server_heard w ++ written)
            (if known (documents w) p t || is_written told then lost w else p :: lost w)
      | None => w
      end
  end.

Definition no_files : SyncWorld := mkSyncWorld ∅ [] ∅ [] [].

Definition run_sync (es : list SyncEvent) : SyncWorld := foldl run_sync_event no_files es.

Definition good_event (e : SyncEvent) : Prop := match e with FileChanges p _ | SyncReads p => good_path p | SyncRuns _ _ _ => True end.

Definition copy_of (d : OpenDocument) : Z * text := (version d, doc_text d).

(** The server was told of a file by the protocol, and has the client's text. *)
Record told_right (p : path) (ns : list Notice) (open : Documents) : Prop := mkToldRight {
  told_accepted : accepts_all ∅ (about (path_to_uri p) ns);
  told_copy : server_copies ns !! path_to_uri p = copy_of <$> open !! p
}.

Record in_step (k : nat) (w : SyncWorld) : Prop := mkInStep {
  step_told : forall p, good_path p -> p ∉ lost w -> told_right p (server_heard w) (documents w);
  step_waiting : Forall (fun pt => good_path pt.1) (waiting w);
  step_documents : map_Forall (fun p d => (version d <= Z.of_nat k)%Z) (documents w)
}.

(** What is said about the file whose text is told. *)
Definition said_text (p : path) (t : text) (open : Documents) : Notice :=
  match open !! p with
  | Some d => DidChange (path_to_uri p) (next_version (version d)) t
  | None => DidOpen (path_to_uri p) (language_id spec (default [] (extension p))) 1 t
  end.

(** A section under the lock: what it records, and what it writes. *)
Lemma sync_locked_cases p t told saved open :
  let '(open', (written, answer)) := sync_locked spec capabilities p t told saved open in
  if known open p t then open' = open /\ written = [] /\ answer = Some (Ok Unchanged)
  else
    open' = <[p := mkOpenDocument (match open !! p with Some d => next_version (version d) | None => 1%Z end) t]> open
    /\ if is_written told then written = [said_text p t open] \/ written = [said_text p t open; DidSave (path_to_uri p)] else written = [].
Proof.
  unfold sync_locked, update, known, said_text. destruct (open !! p) as [d|] eqn:E; [destruct (teqb (doc_text d) t); [done|]|];
    (destruct told as [|e|[]]; cbn; [|by split|by split; [|left]|by split]);
    (destruct (wants_save capabilities); [|by split; [|left]]); destruct saved as [|e'|[]]; cbn; (split; [done|]); auto.
Qed.

(** Telling the server of a text that the document has not yet. *)
Lemma tell_text k p t ns (open : Documents) more :
  told_right p ns open -> map_Forall (fun q d => (version d <= Z.of_nat k)%Z) open -> (Z.of_nat k < 2147483647)%Z ->
  known open p t = false -> more = [said_text p t open] \/ more = [said_text p t open; DidSave (path_to_uri p)] ->
  told_right p (ns ++ more) (<[p := mkOpenDocument (match open !! p with Some d => next_version (version d) | None => 1%Z end) t]> open).
Proof.
  intros [Ha Hc] Hv Hk Hn Hmore. set (d' := mkOpenDocument _ t). set (uri := path_to_uri p) in *.
  assert (Hcopy : server_copies (about uri ns) !! uri = copy_of <$> open !! p) by (by rewrite <- server_copies_about).
  assert (H1 : accepts (server_copies (about uri ns)) (said_text p t open)
    /\ server_reads (server_copies (about uri ns)) (said_text p t open) !! uri = Some (copy_of d')).
  { unfold said_text. subst d'. unfold known in Hn. destruct (open !! p) as [d|] eqn:E; cbn [fmap option_fmap option_map] in Hcopy; cbn [accepts server_reads]; fold uri; rewrite Hcopy.
    - split; [|by rewrite lookup_insert_eq]. pose proof (Hv p d E) as Hd. cbn in Hd. exists (version d), (doc_text d). split_and!; [done| |by apply teqb_neq].
      unfold next_version. destruct (Z.eqb_spec (version d) 2147483647); lia.
    - split; [done|by rewrite lookup_insert_eq]. }
  assert (Hu : notice_uri (said_text p t open) = uri) by (unfold said_text; by destruct (open !! p)).
  destruct H1 as [H1 H2]. split.
  - rewrite about_app. apply accepts_all_app. split; [done|]. fold (server_copies (about uri ns)).
    destruct Hmore as [->| ->]; cbn [about List.filter notice_uri]; rewrite Hu, ?teqb_refl; cbn [accepts_all accepts]; split_and!; try done.
  - rewrite server_copies_about, about_app. unfold server_copies. rewrite foldl_app, lookup_insert_eq. fold (server_copies (about uri ns)).
    destruct Hmore as [->| ->]; cbn [about List.filter notice_uri]; rewrite Hu, ?teqb_refl; cbn [foldl server_reads]; done.
Qed.

Lemma told_elsewhere p q ns more open d :
  p <> q -> good_path p -> good_path q -> Forall (fun n => notice_uri n = path_to_uri q) more ->
  told_right p ns open -> told_right p (ns ++ more) (<[q := d]> open).
Proof.
  intros Hne Hp Hq Hmore [Ha Hc].
  assert (E : about (path_to_uri p) more = []).
  { unfold about. induction Hmore as [|n more Hn _ IH]; [done|]. cbn [List.filter]. rewrite Hn.
    destruct (teqb (path_to_uri q) (path_to_uri p)) eqn:Et; [|done]. apply teqb_eq in Et. by apply uri_inj in Et; congruence. }
  split; [by rewrite about_app, E, app_nil_r|].
  rewrite server_copies_about, about_app, E, app_nil_r, <- server_copies_about, lookup_insert_ne by done. done.
Qed.

Lemma version_bounds k p t (open : Documents) :
  map_Forall (fun q d => (version d <= Z.of_nat k)%Z) open -> (Z.of_nat k < 2147483647)%Z ->
  map_Forall (fun q d => (version d <= Z.of_nat (S k))%Z)
    (<[p := mkOpenDocument (match open !! p with Some d => next_version (version d) | None => 1%Z end) t]> open).
Proof.
  intros Hv Hk. apply map_Forall_insert_2; [|eapply map_Forall_impl; [exact Hv|]; cbn; lia]. cbn.
  destruct (open !! p) as [d|] eqn:E; [|lia]. pose proof (Hv p d E) as Hd. cbn in Hd. unfold next_version.
  destruct (Z.eqb_spec (version d) 2147483647); lia.
Qed.

Lemma sync_event_ok k w e : in_step k w -> good_event e -> (Z.of_nat k < 2147483647)%Z -> in_step (S k) (run_sync_event w e).
Proof.
  intros [Ht Hw Hv] He Hk. assert (Hle : map_Forall (fun q d => (version d <= Z.of_nat (S k))%Z) (documents w)) by (eapply map_Forall_impl; [exact Hv|]; cbn; lia).
  destruct e as [p t|p|i told saved]; cbn [run_sync_event good_event] in *.
  - by constructor.
  - destruct (on_disk w !! p) as [t|]; [|by constructor]. constructor; try done. cbn. apply Forall_app. split; [done|]. by constructor.
  - destruct (waiting w !! i) as [[p t]|] eqn:Ei; [|by constructor].
    pose proof (Forall_lookup_1 _ _ _ _ Hw Ei) as Hp. cbn in Hp.
    pose proof (sync_locked_cases p t told saved (documents w)) as H. destruct (sync_locked _ _ _ _ _ _ _) as [open [written answer]].
    destruct (known (documents w) p t) eqn:Ek.
    { destruct H as (-> & -> & _). constructor; cbn; [by rewrite app_nil_r|by apply Forall_delete|done]. }
    destruct H as [-> H]. constructor; cbn [server_heard documents waiting lost]; [|by apply Forall_delete|by apply version_bounds].
    intros q Hq. cbn [orb]. revert H. destruct (is_written told); intros H Hl;
      (assert (Hnotlost : q ∉ lost w) by (intros ?; apply Hl; first [done|by apply list_elem_of_further]));
      specialize (Ht q Hq Hnotlost);
      (assert (Hu : notice_uri (said_text p t (documents w)) = path_to_uri p) by (unfold said_text; by destruct (documents w !! p)));
      (destruct (base.decide (q = p)) as [->|Hne]; [|apply told_elsewhere; try done; by repeat destruct H as [->|H] || subst written; repeat constructor]).
    + by apply (tell_text k).
    + exfalso. apply Hl. by left.
Qed.

Lemma run_sync_snoc es e : run_sync (es ++ [e]) = run_sync_event (run_sync es) e.
Proof. unfold run_sync. by rewrite foldl_app. Qed.

Lemma run_sync_ok es : Forall good_event es -> (Z.of_nat (length es) <= 2147483647)%Z -> in_step (length es) (run_sync es).
Proof.
  induction es as [|e es IH] using rev_ind; intros He Hl; [by split|].
  apply Forall_app in He as [He H1]. inversion H1; subst. rewrite length_app, run_sync_snoc in *. cbn in Hl.
  rewrite Nat.add_comm. apply sync_event_ok; [apply IH; [done|lia]|done|lia].
Qed.

(** A sync that takes its turn leaves the document with the text it read. *)
Lemma runs_document es i told saved p t :
  waiting (run_sync es) !! i = Some (p, t) -> doc_text <$> documents (run_sync (es ++ [SyncRuns i told saved])) !! p = Some t.
Proof.
  intros Hi. rewrite run_sync_snoc. cbn [run_sync_event]. rewrite Hi. pose proof (sync_locked_cases p t told saved (documents (run_sync es))) as H.
  destruct (sync_locked _ _ _ _ _ _ _) as [open [written answer]]. cbn [documents]. destruct (known _ p t) eqn:Ek.
  - destruct H as (-> & _). unfold known in Ek. destruct (documents _ !! p) as [d|]; [|done]. cbn. by apply teqb_eq in Ek as ->.
  - destruct H as [-> _]. by rewrite lookup_insert_eq.
Qed.

(** C25: the server's copy of a file is the client's.  However the syncs of any
    number of tasks interleave with one another, with changes of the files and
    with notifications that fail or are given up: of every file of which no
    notification of a text was lost, the server is told by the protocol - it is
    opened once, each change has a newer version and another text, it is saved
    while it is open -, the server's copy is exactly the document the client
    remembers, and a sync that takes its turn, and whose own notification is
    written, leaves the server with the text the sync read: the file as it is,
    unless it changed since.  ([lost_sync_unnoticed] is about the other files.) *)
Theorem server_copy_in_step (es : list SyncEvent) (p : path) :
  Forall good_event es -> (Z.of_nat (length es) < 2147483647)%Z -> good_path p -> p ∉ lost (run_sync es) ->
  accepts_all ∅ (about (path_to_uri p) (server_heard (run_sync es)))
  /\ server_copies (server_heard (run_sync es)) !! path_to_uri p = copy_of <$> documents (run_sync es) !! p
  /\ forall i t told saved, waiting (run_sync es) !! i = Some (p, t) ->
      let w := run_sync (es ++ [SyncRuns i told saved]) in
      p ∉ lost w -> snd <$> server_copies (server_heard w) !! path_to_uri p = Some t.
Proof.
  intros He Hl Hp Hnot. pose proof (run_sync_ok es He ltac:(lia)) as [Ht Hw Hv]. destruct (Ht p Hp Hnot) as [Ha Hc]. split_and!; [done|done|].
  intros i t told saved Hi w Hn. assert (Hin : in_step (S (length es)) w).
  { unfold w. rewrite run_sync_snoc. apply sync_event_ok; [by apply run_sync_ok; [|lia]|done|lia]. }
  destruct (step_told _ _ Hin p Hp Hn) as [_ ->]. pose proof (runs_document es i told saved p t Hi) as H. fold w in H.
  destruct (documents w !! p) as [d|]; [|done]. exact H.
Qed.

(** Where a sync does not do what it means to: the text is recorded before the
    server is told.  When the notification is not written - the call is given
    up while it waits, or the write fails -, the next sync of the unchanged
    file says that the server has this text, and tells it nothing. *)
Lemma lost_sync_unnoticed (p : path) (t : text) (told : Delivery) :
  is_written told = false ->
  let w := run_sync [FileChanges p t; SyncReads p; SyncRuns 0 told Delivered] in
  sync_locked spec capabilities p t Delivered Delivered (documents w) = (documents w, ([], Some (Ok Unchanged)))
  /\ server_heard w = [] /\ lost w = [p].
Proof.
  intros Hd w. assert (E : documents w = {[p := mkOpenDocument 1 t]} /\ server_heard w = [] /\ lost w = [p]).
  { unfold w. change [FileChanges p t; SyncReads p; SyncRuns 0 told Delivered] with ([FileChanges p t; SyncReads p] ++ [SyncRuns 0 told Delivered]).
    rewrite run_sync_snoc. assert (Hw : run_sync [FileChanges p t; SyncReads p] = mkSyncWorld {[p := t]} [(p, t)] ∅ [] []).
    { unfold run_sync. cbn. by rewrite lookup_insert_eq. }
    rewrite Hw. cbn [run_sync_event waiting lookup list_lookup]. pose proof (sync_locked_cases p t told Delivered ∅) as H.
    destruct (sync_locked _ _ _ _ _ _ _) as [open [written answer]]. unfold known in *. cbn [documents] in *. rewrite lookup_empty in *. rewrite Hd in *. cbn [documents server_heard lost orb app] in *.
    by destruct H as [-> ->]. }
  destruct E as (E & -> & ->). split; [|done]. unfold sync_locked, update. rewrite E, lookup_singleton_eq. cbn. by rewrite teqb_refl.
Qed.

(** Where a sync does not do what it means to: it reads the file before it
    takes the lock.  Of two syncs of one file, the one that read first may run
    last, and the server is left with a text the file no longer has, though
    both syncs succeeded after the change. *)
Lemma stale_sync (p : path) (old new : text) :
  good_path p -> old <> new ->
  let w := run_sync [FileChanges p old; SyncReads p; FileChanges p new; SyncReads p; SyncRuns 1 Delivered Delivered; SyncRuns 0 Delivered Delivered] in
  waiting w = [] /\ on_disk w !! p = Some new /\ lost w = [] /\ snd <$> server_copies (server_heard w) !! path_to_uri p = Some old.
Proof.
  intros Hp Hne. set (all := [FileChanges p old; SyncReads p; FileChanges p new; SyncReads p; SyncRuns 1 Delivered Delivered; SyncRuns 0 Delivered Delivered]).
  set (es := [FileChanges p old; SyncReads p; FileChanges p new; SyncReads p; SyncRuns 1 Delivered Delivered]). intros w.
  assert (Hw : run_sync es = mkSyncWorld {[p := new]} [(p, old)] {[p := mkOpenDocument 1 new]} (server_heard (run_sync es)) []).
  { unfold run_sync, es, no_files, run_sync_event. cbn [foldl on_disk waiting documents]. rewrite !lookup_insert_eq. cbn [app lookup list_lookup on_disk waiting documents].
    unfold sync_locked, update. rewrite lookup_empty. cbn [documents on_disk waiting server_heard lost].
    destruct (send_notice _ _ _) as [written answer]. cbn [is_written]. rewrite orb_true_r. cbn. by rewrite insert_insert_eq. }
  assert (Ew : w = run_sync (es ++ [SyncRuns 0 Delivered Delivered])) by done.
  assert (Hd : on_disk w = {[p := new]} /\ waiting w = [] /\ lost w = []).
  { rewrite Ew, run_sync_snoc, Hw. cbn [run_sync_event waiting lookup list_lookup].
    destruct (sync_locked _ _ _ _ _ _ _) as [open [written answer]]. cbn [on_disk waiting lost documents is_written]. by rewrite orb_true_r. }
  destruct Hd as (-> & -> & El). rewrite El. split_and!; [done|apply lookup_singleton_eq|done|].
  assert (Hi : in_step (length all) w) by (apply run_sync_ok; [|done]; unfold all; repeat (apply Forall_cons_2; [done|]); apply Forall_nil_2).
  assert (Hn : p ∉ lost w) by (rewrite El; apply not_elem_of_nil). destruct (step_told _ _ Hi p Hp Hn) as [_ ->].
  pose proof (runs_document es 0 Delivered Delivered p old) as H. rewrite Hw, <- Ew in H. specialize (H eq_refl). destruct (documents w !! p); [exact H|done].
Qed.

End Sync.

(** * Diagnostics *)

Section Reports.
Context {J : Json} {W : JsonWire} {L : LspJson}.

(** The store counts its publishes: no file is ahead of the counter. *)
Definition store_ok (s : DiagnosticsStore) : Prop := map_Forall (fun _ d => generation_of d <= counter s) (by_path s).

Lemma publish_store params s : store_ok s -> store_ok (publish params s) /\ forall p, generation s p <= generation (publish params s) p.
Proof.
  intros Hs. unfold publish. destruct (match string_of _ with Some _ => _ | None => _ end) as [q|]; [|split; [done|lia]]. split.
  - apply map_Forall_insert_2; [cbn; lia|]. eapply map_Forall_impl; [exact Hs|]. cbn. lia.
  - intros p. unfold generation. cbn [by_path]. destruct (base.decide (q = p)) as [->|Hn]; [rewrite lookup_insert_eq|by rewrite lookup_insert_ne].
    cbn. destruct (by_path s !! p) as [d|] eqn:E; [|lia]. specialize (Hs p d E). cbn in Hs. lia.
Qed.

(** A wait ends at a newer publish, or with the arrivals. *)
Lemma wait_newer_spec p after s arrivals :
  let '(found, s') := wait_newer p after s arrivals in
  found = (after <? generation s' p) /\ exists n, s' = foldl (fun s params => publish params s) s (take n arrivals) /\ (found = false -> take n arrivals = arrivals).
Proof.
  revert s; induction arrivals as [|params arrivals IH]; intros s; cbn [wait_newer].
  - destruct (after <? generation s p) eqn:E; cbn; rewrite E; (split; [done|]); by exists 0%nat.
  - destruct (after <? generation s p) eqn:E; [rewrite E; split; [done|]; by exists 0%nat|]. specialize (IH (publish params s)).
    destruct (wait_newer p after (publish params s) arrivals) as [found s']. destruct IH as (-> & n & -> & Hn). split; [done|].
    exists (S n). cbn [take foldl]. split; [done|]. intros H. by rewrite Hn.
Qed.

(** Where a report says more than it knows.  After a change for which the
    server published nothing in time, the report is not fresh, as it should be.
    Asked again, with nothing new from the server, the same old diagnostics are
    fresh: the file did not change since the last sync, and some diagnostics
    had come once. *)
Lemma old_report_turns_fresh (p : path) (s : DiagnosticsStore) (is_busy : bool) (open : Documents) (read : path -> option text) :
  0 < generation s p ->
  exists first second,
    collect_diagnostics p false (generation s p) (Ok Changed) is_busy s [] open read = (Ok first, s)
    /\ collect_diagnostics p false (generation s p) (Ok Unchanged) is_busy s [] open read = (Ok second, s)
    /\ fresh first = false /\ fresh second = true /\ reported first = reported second.
Proof.
  intros H. unfold collect_diagnostics. cbn [wait_newer]. rewrite N.ltb_irrefl. destruct (N.ltb_spec 0 (generation s p)); [|lia].
  by eexists _, _.
Qed.

End Reports.

(** * Answers in the model's coordinates *)

Section Answers.
Context {J : Json} {W : JsonWire} {L : LspJson}.
Variables (open : Documents) (read : path -> option text).

(** The text of a file as an operation sees it: the server's, or the disk's. *)
Definition seen (p : path) : option text := match document_text open p with Some t => Some t | None => read p end.

Definition texts_seen (files : Texts) : Prop := map_Forall (fun p o => o = option_map new_index (seen p)) files.

Lemma load_seen p files :
  texts_seen files -> texts_seen (load open read p files) /\ is_Some (load open read p files !! p) /\ files ⊆ load open read p files.
Proof.
  intros Hf. unfold load. destruct (files !! p) as [o|] eqn:E; [split_and!; [done|by eexists|done]|]. split_and!.
  - by apply map_Forall_insert_2.
  - rewrite lookup_insert_eq. by eexists.
  - by apply insert_subseteq.
Qed.

Lemma load_all_seen ps files :
  texts_seen files -> texts_seen (load_all open read ps files) /\ files ⊆ load_all open read ps files
  /\ forall p, In p ps -> is_Some (load_all open read ps files !! p).
Proof.
  unfold load_all. revert files; induction ps as [|q ps IH]; intros files Hf; cbn [foldl]; [done|].
  destruct (load_seen q files Hf) as (H1 & [o Ho] & H3). destruct (IH _ H1) as (I1 & I2 & I3). split_and!; [done|by transitivity (load open read q files)|].
  intros p [->|Hp]; [|by apply I3]. exists o. by apply (lookup_weaken (load open read p files)).
Qed.

Lemma loaded ps p : In p ps -> load_all open read ps ∅ !! p = Some (option_map new_index (seen p)).
Proof.
  intros Hp. destruct (load_all_seen ps ∅ (map_Forall_empty _)) as (H1 & _ & H3). destruct (H3 p Hp) as [o Ho]. rewrite Ho. f_equal. by apply (H1 p).
Qed.

Definition position_shown (p : path) (at_ : LspPosition) (line column : N) : Prop :=
  forall t, seen p = Some t -> fits_u32 t -> at_char t at_ -> to_lsp t line column = Some at_.

Lemma point_shown ps p at_ : In p ps -> position_shown p at_ (fst (point (load_all open read ps ∅) p at_)) (snd (point (load_all open read ps ∅) p at_)).
Proof.
  intros Hp t Ht Hf Ha. rewrite (point_from_lsp _ p t).
  - by apply to_lsp_back.
  - rewrite (loaded ps p Hp). by rewrite Ht.
Qed.

Definition location_shown (raw : RawLocation) (l : Location) : Prop :=
  loc_path l = raw_path raw
  /\ position_shown (raw_path raw) (range_start (raw_range raw)) (loc_line l) (loc_column l)
  /\ position_shown (raw_path raw) (range_end (raw_range raw)) (loc_end_line l) (loc_end_column l).

Lemma location_at_shown ps raw : In (raw_path raw) ps -> location_shown raw (location (load_all open read ps ∅) raw).
Proof.
  intros Hp. unfold location, location_at.
  pose proof (point_shown ps _ (range_start (raw_range raw)) Hp) as H1. pose proof (point_shown ps _ (range_end (raw_range raw)) Hp) as H2.
  destruct (point _ _ (range_start _)), (point _ _ (range_end _)). by split_and!.
Qed.

(** Where the model asks and where it is answered.  An answer to a definition,
    a reference or an implementation is asked for at the place the model named,
    and lists the server's locations in their order, each at the place the
    server meant in the text it has. *)
Theorem locations_shown_exactly (g : Target) (line column : N) (method_ provider what : text) (ask : Answers) (found : list Location) :
  locate g line column method_ provider what ask open read = Ok found ->
  exists at_ params answer raw,
    provides (target_capabilities g) provider = true
    /\ to_lsp (target_text g) line column = Some at_ /\ ask 0%nat method_ params = Ok answer
    /\ params = json_object ([(str "textDocument", document g); (str "position", position_value at_)]
         ++ (if teqb method_ (str "textDocument/references") then [(str "context", json_object [(str "includeDeclaration", json_bool true)])] else []))
    /\ locations answer = Ok raw /\ Forall2 location_shown raw found.
Proof.
  unfold locate, require. destruct (provides _ _); [|done]. cbn [result_bind]. unfold target_position.
  destruct (to_lsp (target_text g) line column) as [at_|]; [|done]. cbn [result_bind].
  intros H. apply result_bind_Ok in H as (answer & Ha & H). apply result_bind_Ok in H as (raw & Hr & [= <-]).
  exists at_. eexists. exists answer, raw. split_and!; try done. clear Hr. set (ps := map raw_path raw).
  assert (Hin : forall r, In r raw -> In (raw_path r) ps) by (intros r; apply in_map). clearbody ps.
  induction raw as [|r raw IH]; [constructor|]. cbn [map]. constructor; [apply location_at_shown, Hin; by left|apply IH; intros; apply Hin; by right].
Qed.

(** * Rename previews *)

Lemma insert_by_perm {A} (key : A -> list N) x l : insert_by key x l ≡ₚ x :: l.
Proof. induction l as [|y l IH]; [done|]. cbn. destruct (key_leb _ _); [done|]. rewrite IH. apply Permutation_swap. Qed.

Lemma sort_by_key_perm {A} (key : A -> list N) l : sort_by_key key l ≡ₚ l.
Proof. induction l as [|x l IH]; [done|]. cbn. fold (sort_by_key key l). by rewrite insert_by_perm, IH. Qed.

Lemma key_leb_total a b : key_leb a b = false -> key_leb b a = true.
Proof.
  revert b; induction a as [|x a IH]; intros [|y b]; cbn; try done. intros [H1 H2]%orb_false_iff. apply orb_true_iff.
  destruct (N.eqb_spec x y) as [->|]; [right; rewrite N.eqb_refl; by apply IH|left; apply N.ltb_lt; apply N.ltb_ge in H1; lia].
Qed.

Definition key_sorted {A} (key : A -> list N) : list A -> Prop := Sorted (fun a b => key_leb (key a) (key b) = true).

Lemma sort_by_key_sorted {A} (key : A -> list N) l : key_sorted key (sort_by_key key l).
Proof.
  induction l as [|x l IH]; [constructor|]. cbn. fold (sort_by_key key l). revert IH. generalize (sort_by_key key l). clear l. intros l.
  induction l as [|y l IH]; intros Hs; cbn; [by repeat constructor|]. destruct (key_leb (key x) (key y)) eqn:E; [by constructor; [|constructor]|].
  inversion Hs as [|? ? Hs' Hy]; subst. constructor; [by apply IH|]. apply key_leb_total in E. destruct l as [|z l]; [by constructor|]. cbn.
  inversion Hy; subst. destruct (key_leb (key x) (key z)); by constructor.
Qed.

(** The edits of a file among changes. *)
Definition edits_at (p : path) (files : EditsByPath) : list (LspRange * text) :=
  concat (map snd (List.filter (fun f => path_eqb p (fst f)) files)).

Lemma edits_at_cons p r old files : edits_at p ((r, old) :: files) = (if path_eqb p r then old else []) ++ edits_at p files.
Proof. unfold edits_at. cbn. by destruct (path_eqb p r). Qed.

Lemma add_edits_at p q es files : edits_at p (add_edits q es files) ≡ₚ edits_at p files ++ (if path_eqb p q then es else []).
Proof.
  induction files as [|[r old] files IH]; cbn [add_edits]; [rewrite edits_at_cons; unfold edits_at; cbn; by rewrite app_nil_r|].
  destruct (path_eqb q r) eqn:Eq; [|destruct (path_lt q r)].
  - apply path_eqb_eq in Eq as ->. rewrite !edits_at_cons. destruct (path_eqb p r); [|by rewrite app_nil_r]. rewrite <- !app_assoc. apply Permutation_app_head, Permutation_app_comm.
  - rewrite edits_at_cons. apply Permutation_app_comm.
  - rewrite !edits_at_cons, IH. by rewrite app_assoc.
Qed.

(** What one change asks for: a file and its edits. *)
Definition change_asks (uri : text) (es : json) (part : path * list (LspRange * text)) : Prop :=
  uri_to_path uri = Some (fst part) /\ exists wire, decode_edits es = Ok wire /\ snd part = map (fun e => (edit_range e, wire_new_text e)) wire.

Definition document_change_asks (change : json) (part : path * list (LspRange * text)) : Prop :=
  string_of (json_get change (str "kind")) = None
  /\ exists uri, string_of (field (json_get change (str "textDocument")) (str "uri")) = Some uri
      /\ change_asks uri (default json_null (json_get change (str "edits"))) part.

Lemma add_change_ok uri es files files' :
  add_change uri es files = Ok files' ->
  exists part, change_asks uri es part /\ forall p, edits_at p files' ≡ₚ edits_at p files ++ (if path_eqb p (fst part) then snd part else []).
Proof.
  unfold add_change. destruct (uri_to_path uri) as [q|] eqn:Eu; [|done]. intros H. apply result_bind_Ok in H as (wire & Hw & [= <-]).
  unfold decode_as in Hw. destruct (decode_edits es) as [wire'|] eqn:Ed; [|done]. injection Hw as ->.
  exists (q, map (fun e => (edit_range e, wire_new_text e)) wire). split; [|intros p; apply add_edits_at]. split; [done|]. by exists wire.
Qed.

Lemma fold_changes_ok {A} (f : EditsByPath -> A -> result IntegrationError EditsByPath) (asks : A -> path * list (LspRange * text) -> Prop) l files files' :
  (forall a fs fs', f fs a = Ok fs' ->
    exists part, asks a part /\ forall p, edits_at p fs' ≡ₚ edits_at p fs ++ (if path_eqb p (fst part) then snd part else [])) ->
  fold_changes f l files = Ok files' ->
  exists parts, Forall2 asks l parts /\ forall p, edits_at p files' ≡ₚ edits_at p files ++ edits_at p parts.
Proof.
  intros Hf. unfold fold_changes. revert files; induction l as [|a l IH]; intros files H; cbn [foldl] in H.
  { injection H as <-. exists []. split; [constructor|]. intros p. by rewrite app_nil_r. }
  cbn [result_bind] in H. destruct (f files a) as [fs|e] eqn:E.
  - destruct (Hf _ _ _ E) as (part & Ha & H1). destruct (IH fs H) as (parts & Hall & H2). exists (part :: parts). split; [by constructor|].
    intros p. destruct part as [q es]. rewrite H2, H1, edits_at_cons. by rewrite app_assoc.
  - exfalso. clear -H. assert (Hn : forall l, foldl (fun r a => result_bind r (fun files => f files a)) (Err e) l = Err e) by (clear; intros l; induction l; done).
    by rewrite Hn in H.
Qed.

(** Every edit the server asked for, and no other; creating, renaming and
    deleting files is refused. *)
Lemma workspace_edit_ok answer raw :
  workspace_edit answer = Ok raw ->
  (exists changes parts, array_of (json_get answer (str "documentChanges")) = Some changes /\ Forall2 document_change_asks changes parts
     /\ forall p, edits_at p raw ≡ₚ edits_at p parts)
  \/ (exists changes parts, match json_get answer (str "changes") with Some c => as_entries c | None => None end = Some changes
     /\ Forall2 (fun '(uri, es) => change_asks uri es) changes parts /\ forall p, edits_at p raw ≡ₚ edits_at p parts)
  \/ is_null answer = true /\ raw = [].
Proof.
  unfold workspace_edit. destruct (array_of _) as [changes|].
  - intros H. left. exists changes. destruct (fold_changes_ok document_change document_change_asks changes [] raw) as (parts & H1 & H2); [|done|by exists parts].
    clear. intros change fs fs' H. unfold document_change in H. unfold document_change_asks.
    destruct (string_of (json_get change (str "kind"))) as [kind|]; [done|].
    destruct (string_of (field _ _)) as [uri|]; [|done]. destruct (add_change_ok _ _ _ _ H) as (part & Hp & He). exists part. split; [|done]. split; [done|]. by exists uri.
  - destruct (match json_get answer (str "changes") with Some _ => _ | None => _ end) as [changes|].
    + intros H. right. left. exists changes.
      destruct (fold_changes_ok (fun files '(uri, es) => add_change uri es files) (fun '(uri, es) => change_asks uri es) changes [] raw) as (parts & H1 & H2); [|done|by exists parts].
      intros [uri es] fs fs' H'. by apply add_change_ok.
    + destruct (is_null answer); [|done]. intros [= <-]. by right; right.
Qed.

Definition edit_shown (p : path) (e : LspRange * text) (plan : TextEditPlan) : Prop :=
  new_text plan = snd e /\ position_shown p (range_start (fst e)) (start_line plan) (start_col plan)
  /\ position_shown p (range_end (fst e)) (end_line plan) (end_col plan).

Lemma edit_of_shown ps p e : In p ps -> edit_shown p e (edit_of (load_all open read ps ∅) p e).
Proof.
  intros Hp. unfold edit_of. pose proof (point_shown ps p (range_start (fst e)) Hp) as H1. pose proof (point_shown ps p (range_end (fst e)) Hp) as H2.
  destruct (point _ _ (range_start _)), (point _ _ (range_end _)). by split_and!.
Qed.

(** C28: a rename preview is what the server would change.  It is asked for at
    the place the model named; every edit the server lists, and no other,
    is in the preview of its file, at the place the server meant in the text it
    has, with its new text, the edits of a file in the order of their places;
    an answer that creates, renames or deletes files is refused. *)
Theorem rename_preview_exact (g : Target) (line column : N) (name : text) (ask : Answers) (plan : list FileEdits) :
  rename_preview g line column name ask open read = Ok plan ->
  exists at_ params answer raw,
    to_lsp (target_text g) line column = Some at_ /\ ask 0%nat (str "textDocument/rename") params = Ok answer /\ is_null answer = false
    /\ workspace_edit answer = Ok raw
    /\ Forall2 (fun '(p, es) f => edits_path f = p /\ key_sorted (fun e => [start_line e; start_col e]) (edits f)
          /\ exists es', es' ≡ₚ es /\ Forall2 (edit_shown p) es' (edits f)) raw plan
    /\ ((exists changes parts, array_of (json_get answer (str "documentChanges")) = Some changes /\ Forall2 document_change_asks changes parts
           /\ forall p, edits_at p raw ≡ₚ edits_at p parts)
        \/ (exists changes parts, match json_get answer (str "changes") with Some c => as_entries c | None => None end = Some changes
           /\ Forall2 (fun '(uri, es) => change_asks uri es) changes parts /\ forall p, edits_at p raw ≡ₚ edits_at p parts)).
Proof.
  unfold rename_preview, require. destruct (provides _ _); [|done]. cbn [result_bind]. unfold target_position.
  destruct (to_lsp (target_text g) line column) as [at_|]; [|done]. cbn [result_bind].
  intros H. apply result_bind_Ok in H as (answer & Ha & H). destruct (is_null answer) eqn:En; [done|]. apply result_bind_Ok in H as (raw & Hr & [= <-]).
  exists at_. eexists. exists answer, raw. split_and!; try done.
  - clear Hr. set (ps := map fst raw). assert (Hin : forall f, In f raw -> In (fst f) ps) by (intros f; apply in_map). clearbody ps.
    unfold edit_plan. induction raw as [|[p es] raw IH]; [constructor|]. cbn [map]. constructor; [|apply IH; intros; apply Hin; by right].
    cbn [edits_path edits]. split_and!; [done|apply sort_by_key_sorted|].
    destruct (Permutation_map_inv _ _ (sort_by_key_perm (fun e => [start_line e; start_col e]) (map (edit_of (load_all open read ps ∅) p) es))) as (es' & E & Hes).
    exists es'. split; [by symmetry|]. rewrite E. clear E Hes. induction es' as [|e es' IHes]; constructor; [|done]. apply edit_of_shown, (Hin (p, es)). by left.
  - apply workspace_edit_ok in Hr as [Hr|[Hr|[Hr _]]]; [by left|by right|congruence].
Qed.

End Answers.

(** * Servers *)

Section Restarts.
Context {C : Type} (closed : nat -> C -> option text).

(** Calls that need the client of a slot, the n-th at a time when [closed n]
    says which clients have exited; the starts, and the calls abandoned. *)
Fixpoint run_calls (n : nat) (ios : list (StartIo C)) (s : Slot C) : Slot C * (nat * nat) :=
  match ios with
  | [] => (s, (0, 0)%nat)
  | io :: ios =>
      let '(s, answer, start) := slot_client (closed n) io s in
      let '(s, (starts, abandoned)) := run_calls (S n) ios s in
      (s, ((if start : bool then S starts else starts), match answer with None => S abandoned | Some _ => abandoned end))
  end.

(** The starts a slot may still make. *)
Definition starts_left (s : Slot C) : nat :=
  match slot_state s with
  | Idle => S (N.to_nat (MAX_RESTARTS - restarts s))
  | Running _ => N.to_nat (MAX_RESTARTS - restarts s)
  | SlotFailed _ => 0
  end.

Lemma slot_client_left n io s :
  let '(s', answer, start) := slot_client (closed n) io s in
  ((if start : bool then 1 else 0) + starts_left s' <= starts_left s + match answer with None => 1 | Some _ => 0 end)%nat
  /\ route_spec (slot_route s') = route_spec (slot_route s)
  /\ (forall reason, slot_state s = SlotFailed reason -> s' = s).
Proof.
  unfold slot_client, start_client, starts_left. destruct (slot_state s) as [|c|reason] eqn:Es; [| |cbn; rewrite Es; split_and!; try done; lia].
  - destruct (started io) as [[c|e]|]; cbn; split_and!; try done; lia.
  - destruct (closed n c) as [reason|]; [|cbn; rewrite Es; split_and!; try done; lia].
    destruct (gone_at_shutdown io); [cbn; split_and!; try done; lia|].
    destruct (N.leb_spec MAX_RESTARTS (restarts s)); [cbn; split_and!; try done; lia|].
    destruct (started io) as [[c'|e]|]; cbn; split_and!; try done; lia.
Qed.

Lemma run_calls_left n ios s :
  let '(s', (starts, abandoned)) := run_calls n ios s in (starts + starts_left s' <= starts_left s + abandoned)%nat.
Proof.
  revert n s; induction ios as [|io ios IH]; intros n s; cbn [run_calls]; [lia|].
  pose proof (slot_client_left n io s) as H1. destruct (slot_client (closed n) io s) as [[s1 answer] start]. destruct H1 as [H1 _].
  specialize (IH (S n) s1). destruct (run_calls (S n) ios s1) as [s2 [starts abandoned]]. destruct start, answer; lia.
Qed.

Lemma failed_stays n ios s reason : slot_state s = SlotFailed reason -> fst (run_calls n ios s) = s /\ fst (snd (run_calls n ios s)) = 0%nat.
Proof.
  revert n; induction ios as [|io ios IH]; intros n Hf; cbn [run_calls]; [done|]. unfold slot_client. rewrite Hf. specialize (IH (S n) Hf).
  by destruct (run_calls (S n) ios s) as [s2 [starts abandoned]].
Qed.

(** A server that keeps exiting is started four times at most, however many
    calls need it and whenever its processes exit; only a call whose caller
    gives up in the middle may cost one start more.  A failure is final. *)
Theorem restarts_bounded (route : Route) (ios : list (StartIo C)) :
  let '(s, (starts, abandoned)) := run_calls 0 ios (mkSlot route Idle 0 []) in
  (starts <= 4 + abandoned)%nat
  /\ forall n more reason, slot_state s = SlotFailed reason -> run_calls n more s = (s, (0%nat, snd (snd (run_calls n more s)))).
Proof.
  pose proof (run_calls_left 0 ios (mkSlot route Idle 0 [])) as H.
  destruct (run_calls 0 ios (mkSlot route Idle 0 [])) as [s [starts abandoned]]. split; [change (starts_left (mkSlot route Idle 0 [])) with 4%nat in H; lia|].
  intros n more reason Hf. pose proof (failed_stays n more s reason Hf) as [H1 H2]. destruct (run_calls n more s) as [s' [st ab]]. cbn in *. by subst.
Qed.

(** One slot for each server and root. *)
Definition distinct_slots (slots : list (Slot C)) : Prop :=
  NoDup (map (fun s => (spec_name (route_spec (slot_route s)), route_root (slot_route s))) slots).

Lemma serves_spec r (s : Slot C) :
  serves r s = true <-> spec_name (route_spec (slot_route s)) = spec_name (route_spec r) /\ route_root (slot_route s) = route_root r.
Proof. unfold serves. by rewrite andb_true_iff, teqb_eq, path_eqb_eq. Qed.

Lemma slot_for_ok r (slots : list (Slot C)) :
  distinct_slots slots ->
  let '(slots', i) := slot_for r slots in
  distinct_slots slots' /\ slots `prefix_of` slots' /\ exists s, slots' !! i = Some s /\ serves r s = true.
Proof.
  intros Hd. unfold slot_for. destruct (list_find _ slots) as [[i s]|] eqn:E.
  - apply list_find_Some in E as (Hi & Hs & _). split_and!; [done|done|]. exists s. split; [done|]. by apply Is_true_true.
  - apply list_find_None in E. split_and!.
    + unfold distinct_slots in *. rewrite map_app. apply NoDup_app. split_and!; [done| |by apply NoDup_singleton].
      intros k Hk ->%list_elem_of_singleton. apply list_elem_of_fmap in Hk as (s & Hk & Hs).
      rewrite Forall_forall in E. apply (E s Hs), Is_true_true, serves_spec. by injection Hk as -> ->.
    + by apply prefix_app_r.
    + exists (mkSlot r Idle 0 []). rewrite lookup_app_r, Nat.sub_diag by lia. split; [done|]. by apply serves_spec.
Qed.

End Restarts.

(** * Routing *)

Lemma starts_with_take p root j k : (j <= k)%nat -> path_starts_with (take j p) root = true -> path_starts_with (take k p) root = true.
Proof.
  intros Hjk [rest E]%path_starts_with_spec. apply path_starts_with_spec.
  exists (rest ++ drop j (take k p)). rewrite app_assoc, <- E. rewrite <- (take_drop j (take k p)) at 1. by rewrite take_take, Nat.min_l.
Qed.

Section Routes.
Context {F : FileSystem} (which : text -> option path).

(** A directory a workspace may have its root in. *)
Definition workspace_at (root : path) (spec : LspServerSpec) (dir : path) : bool := path_starts_with dir root && marked spec dir.

Lemma workspace_loop root spec p m outermost found :
  workspace_root_loop root spec (map (fun k => take k p) (reverse (seq 1 m))) outermost = found ->
  (exists k, (1 <= k <= m)%nat /\ found = Some (take k p) /\ workspace_at root spec (take k p) = true
     /\ forall j, (1 <= j < k)%nat -> workspace_at root spec (take j p) = false)
  \/ (found = outermost /\ forall j, (1 <= j <= m)%nat -> workspace_at root spec (take j p) = false).
Proof.
  revert outermost. induction m as [|m IH]; intros outermost; [intros <-; right; split; [done|lia]|].
  rewrite seq_S, reverse_snoc. change (1 + m)%nat with (S m). cbn [map workspace_root_loop]. destruct (path_starts_with (take (S m) p) root) eqn:Hin; cbn [negb].
  - intros E. destruct (IH _ E) as [(k & Hk & Hf & H1 & H2)|[Hf H]].
    + left. exists k. split_and!; [lia|lia|done|done|done].
    + destruct (marked spec (take (S m) p)) eqn:Hm.
      * left. exists (S m). split_and!; [lia|lia|done|unfold workspace_at; by rewrite Hin, Hm|]. intros j Hj. apply H. lia.
      * right. split; [done|]. intros j Hj. destruct (base.decide (j = S m)) as [->|]; [unfold workspace_at; by rewrite Hin, Hm|]. apply H. lia.
  - intros <-. right. split; [done|]. intros j Hj. unfold workspace_at. destruct (path_starts_with (take j p) root) eqn:Hj'; [|done].
    apply (starts_with_take p root j (S m)) in Hj'; [congruence|lia].
Qed.

(** The root of a marked workspace is the outermost marked directory between
    the project and the file. *)
Lemma workspace_root_spec root spec file :
  is_absolute file = true -> is_empty (root_markers spec) = false ->
  match workspace_root root spec file with
  | Some dir => exists k, (1 <= k < length file)%nat /\ dir = take k file /\ workspace_at root spec dir = true
                  /\ forall j, (1 <= j < k)%nat -> workspace_at root spec (take j file) = false
  | None => forall j, (1 <= j < length file)%nat -> workspace_at root spec (take j file) = false
  end.
Proof.
  intros Ha Hm. unfold workspace_root. rewrite Hm. unfold ancestors. rewrite Ha. destruct file as [|c file]; [done|].
  set (p := c :: file). change (S (length p) - 1)%nat with (S (length file)). rewrite seq_S, reverse_snoc. cbn [map skipn]. rewrite drop_0.
  destruct (workspace_loop root spec p (length file) None _ eq_refl) as [(k & Hk & -> & H1 & H2)|[-> H]].
  - exists k. split_and!; [lia|cbn; lia|done|done|done].
  - intros j Hj. apply H. cbn in Hj. lia.
Qed.

(** What a router remembers of PATH is what it would find. *)
Definition remembers (r : Router) : Prop :=
  forall spec known, In spec (specs r) -> programs r !! spec_name spec = Some known -> known = find_program which (spec_command spec) (project_root r).

Definition names_agree (r : Router) : Prop :=
  forall a b, In a (specs r) -> In b (specs r) -> spec_name a = spec_name b -> spec_command a = spec_command b.

(** The route a server would give, if it can serve the file. *)
Definition offer (root : path) (file : path) (spec : LspServerSpec) : option Route :=
  match find_program which (spec_command spec) root, workspace_root root spec file with
  | Some program, Some dir => Some (mkRoute spec program dir)
  | _, _ => None
  end.

Lemma program_of_spec r spec :
  remembers r -> names_agree r -> In spec (specs r) ->
  let '(r', program) := program_of which r spec in
  program = find_program which (spec_command spec) (project_root r) /\ remembers r' /\ specs r' = specs r /\ project_root r' = project_root r.
Proof.
  intros Hr Hn Hin. unfold program_of. destruct (programs r !! spec_name spec) as [known|] eqn:E.
  - split_and!; try done. by apply (Hr spec known).
  - split_and!; try done. intros other known Ho. cbn [programs specs project_root]. cbn in Ho.
    destruct (base.decide (spec_name spec = spec_name other)) as [En|En].
    + rewrite <- En, lookup_insert_eq. intros [= <-]. by rewrite (Hn spec other Hin Ho En).
    + rewrite lookup_insert_ne by done. by apply Hr.
Qed.

Lemma route_loop_spec r file candidates reasons :
  remembers r -> names_agree r -> (forall s, In s candidates -> In s (specs r)) ->
  let '(r', answer) := route_loop which r file candidates reasons in
  remembers r' /\ specs r' = specs r /\ project_root r' = project_root r
  /\ match find_map (offer (project_root r) file) candidates with
     | Some found => answer = inr found
     | None => exists more, answer = inl (reasons ++ more) /\ length more = length candidates
     end.
Proof.
  revert r reasons; induction candidates as [|spec candidates IH]; intros r reasons Hr Hn Hin; cbn [route_loop find_map].
  { split_and!; try done. exists []. by rewrite app_nil_r. }
  pose proof (program_of_spec r spec Hr Hn (Hin _ (or_introl eq_refl))) as H.
  destruct (program_of which r spec) as [r1 program]. destruct H as (Hp & H1 & Es & Er).
  assert (Hrest : forall reason, let '(r', answer) := route_loop which r1 file candidates (reasons ++ [reason]) in
    remembers r' /\ specs r' = specs r /\ project_root r' = project_root r
    /\ match find_map (offer (project_root r) file) candidates with
       | Some found => answer = inr found
       | None => exists more, answer = inl (reasons ++ more) /\ length more = S (length candidates)
       end).
  { intros reason. assert (Hn1 : names_agree r1) by (unfold names_agree; by rewrite Es).
    specialize (IH r1 (reasons ++ [reason]) H1 Hn1). rewrite Es in IH. specialize (IH (fun s Hs => Hin s (or_intror Hs))).
    destruct (route_loop which r1 file candidates (reasons ++ [reason])) as [r' answer]. rewrite Er in IH.
    destruct IH as (? & ? & ? & IH). split_and!; try done. destruct (find_map _ candidates); [done|].
    destruct IH as (more & -> & Hl). exists (reason :: more). rewrite <- app_assoc. by rewrite <- Hl. }
  unfold offer at 1. rewrite <- Hp, Er. destruct program as [program|]; [|apply Hrest].
  destruct (workspace_root (project_root r) spec file) as [dir|]; [|apply Hrest]. done.
Qed.

Lemma find_map_filter {A B} (f : A -> bool) (g : A -> option B) l :
  find_map g (List.filter f l) = find_map (fun x => if f x then g x else None) l.
Proof. induction l as [|x l IH]; [done|]. cbn. destruct (f x); cbn; by rewrite IH. Qed.

(** A file goes to the first server that can take it: the first in the order
    of the settings that claims its extension, is installed, and - where it
    asks for markers - finds one between the project and the file.  Otherwise
    the router refuses, and what it remembers of PATH changes no answer. *)
Theorem route_exact (r : Router) (file : path) (Hr : remembers r) (Hn : names_agree r) :
  let '(r', answer) := route which r file in
  remembers r' /\ specs r' = specs r /\ project_root r' = project_root r
  /\ match extension file with
     | None => exists why, answer = Err (Unsupported why)
     | Some ext =>
         match find_map (fun spec => if handles spec (to_ascii_lowercase ext) then offer (project_root r) file spec else None) (specs r) with
         | Some found => answer = Ok found
         | None => exists why, answer = Err (Unsupported why)
         end
     end.
Proof.
  unfold route. destruct (extension file) as [ext|]; cbn [option_map]; [|split_and!; try done; by eexists].
  rewrite <- find_map_filter. set (cs := List.filter (fun spec => handles spec (to_ascii_lowercase ext)) (specs r)).
  assert (Hin : forall x, In x cs -> In x (specs r)) by by intros x [Hx _]%filter_In.
  pose proof (route_loop_spec r file cs [] Hr Hn Hin) as H. clearbody cs.
  destruct (is_empty cs) eqn:He; [destruct cs; [|done]; split_and!; try done; by eexists|].
  destruct (route_loop which r file cs []) as [r' [reasons|found]]; destruct H as (? & ? & ? & H); split_and!; try done.
  - destruct (find_map _ _); [done|]. by eexists.
  - destruct (find_map _ _); [by injection H as ->|]. by destruct H as (? & ? & _).
Qed.

End Routes.

(** * Names of MCP tools *)

Lemma sanitize_chars t : Forall (fun c => name_char c = true) (sanitize t).
Proof. apply Forall_map, Forall_forall. intros c _. cbn. by destruct (name_char c) eqn:E. Qed.

Lemma sanitize_app a b : sanitize (a ++ b) = sanitize a ++ sanitize b.
Proof. apply map_app. Qed.

Lemma hex8_chars n : Forall (fun c => name_char c = true) (hex8 n) /\ length (hex8 n) = 8%nat.
Proof.
  split; [|done]. apply Forall_map, Forall_forall. intros k _. cbn.
  assert (Hd : n / 16 ^ k mod 16 < 16) by by apply N.mod_lt. revert Hd. generalize (n / 16 ^ k mod 16). intros d Hd.
  apply (proj1 (forallb_forall (fun d => name_char (hex_digit d)) (map N.of_nat (seq 0 16))) ltac:(vm_compute; reflexivity)).
  apply in_map_iff. exists (N.to_nat d). split; [lia|]. apply in_seq. lia.
Qed.

Lemma split_at_separator a b :
  contains_str MCP_SEPARATOR (a ++ str "_") = false -> split_once MCP_SEPARATOR (a ++ MCP_SEPARATOR ++ b) = Some (a, b).
Proof.
  intros Hc. unfold contains_str in Hc. destruct (split_once MCP_SEPARATOR (a ++ str "_")) as [[? ?]|] eqn:En; [done|].
  rewrite split_once_None in En. destruct (split_once MCP_SEPARATOR (a ++ MCP_SEPARATOR ++ b)) as [[x y]|] eqn:E.
  - pose proof (split_once_first _ _ _ _ E) as Hf. apply split_once_app in E. specialize (Hf a b (eq_sym E)).
    destruct (common_prefix _ _ _ _ (eq_sym E) Hf) as [z ->]. rewrite <- app_assoc in E. apply app_inv_head in E.
    destruct z as [|c [|d z]].
    + cbn [app] in E. apply (app_inv_head MCP_SEPARATOR) in E as ->. by rewrite app_nil_r.
    + injection E as -> E. destruct (En x []). by rewrite <- app_assoc.
    + injection E as -> -> E. destruct (En x (z ++ str "_")). by rewrite <- !app_assoc.
  - rewrite split_once_None in E. by destruct (E a b).
Qed.

(** Every name is one the providers accept, and has the prefix of MCP tools; a
    name that was not cut splits back into its server and tool, unless the
    server's own name runs into the separator. *)
Theorem tool_names_valid (server tool : text) :
  starts_with MCP_PREFIX (tool_name server tool) = true
  /\ (length (tool_name server tool) <= MAX_TOOL_NAME_LEN)%nat
  /\ Forall (fun c => name_char c = true) (tool_name server tool)
  /\ ((length (MCP_PREFIX ++ server ++ MCP_SEPARATOR ++ tool) <= MAX_TOOL_NAME_LEN)%nat ->
      server <> [] -> tool <> [] -> contains_str MCP_SEPARATOR (sanitize server ++ str "_") = false ->
      split_tool_name (tool_name server tool) = Some (sanitize server, sanitize tool)).
Proof.
  set (full := sanitize (MCP_PREFIX ++ server ++ MCP_SEPARATOR ++ tool)).
  assert (Hfull : full = MCP_PREFIX ++ sanitize server ++ MCP_SEPARATOR ++ sanitize tool) by (unfold full; by rewrite !sanitize_app).
  assert (Hl : length full = length (MCP_PREFIX ++ server ++ MCP_SEPARATOR ++ tool)) by apply length_map.
  assert (Hchars : Forall (fun c => name_char c = true) full) by apply sanitize_chars.
  unfold tool_name. fold full. clearbody full. rewrite <- Hl. destruct (Nat.leb_spec (length full) MAX_TOOL_NAME_LEN) as [Hs|Hs].
  - split_and!; [rewrite Hfull; apply starts_with_spec; by eexists|done|done|]. intros _ Hse Hto Hsep.
    unfold split_tool_name. rewrite Hfull, strip_prefix_app, split_at_separator by done. by destruct server, tool.
  - split_and!; [| | |lia].
    + rewrite Hfull, take_app_ge by (apply Nat.leb_le; reflexivity). apply starts_with_spec. rewrite <- app_assoc. by eexists.
    + pose proof (proj2 (hex8_chars (fnv1a (as_bytes full)))) as Hh. rewrite !length_app, length_take, Hh.
      change (length (str "_")) with 1%nat. unfold MAX_TOOL_NAME_LEN, HASH_LEN in *. lia.
    + apply Forall_app. split; [by apply Forall_take|]. apply Forall_app. split; [by repeat constructor|]. apply hex8_chars.
Qed.

(** * Concrete runs *)

#[local] Existing Instance tree_json.
#[local] Existing Instance tree_wire.

Definition tree_position (v : Tree) : option LspPosition :=
  match v with TObject [(_, TInt line); (_, TInt character)] => Some (mkLspPosition (Z.to_N line) (Z.to_N character)) | _ => None end.

Definition tree_range (v : Tree) : result text LspRange :=
  match v with
  | TObject [(_, a); (_, b)] =>
      match tree_position a, tree_position b with Some a, Some b => Ok (mkLspRange a b) | _, _ => Err (str "no position") end
  | _ => Err (str "no range")
  end.

Definition tree_edit (v : Tree) : result text WireTextEdit :=
  match v with
  | TObject [(_, range); (_, TString t)] => let? r := tree_range range in Ok (mkWireTextEdit r t)
  | _ => Err (str "no edit")
  end.

Definition tree_edits (v : Tree) : result text (list WireTextEdit) :=
  match v with
  | TArray l => foldr (fun e es => let? e := tree_edit e in let? es := es in Ok (e :: es)) (Ok []) l
  | _ => Err (str "no edits")
  end.

#[local] Instance tree_lsp : LspJson := {|
  as_entries v := match v with TObject kvs => Some kvs | _ => None end;
  as_u64 v := match v with TInt z => Some (Z.to_N z) | _ => None end;
  number_text _ := None;
  is_false _ := false;
  json_bool b := TInt (if b then 1 else 0);
  decode_location _ := Err [];
  decode_symbol _ := Err [];
  decode_information _ := Err [];
  decode_call_item _ := Err [];
  decode_range := tree_range;
  decode_ranges _ := Err [];
  decode_edits := tree_edits
|}.

(** A file with a char outside the basic plane, on a server that renames. *)
Definition a_file : path := [RootDir; Normal (str "p"); Normal (str "a.rs")].
Definition a_text : text := str "let x;" ++ [NEWLINE; 128512; 32; 120].

Lemma a_file_good : good_path a_file.
Proof.
  split_and!; [|done|done]. cbn [a_file wf_path]. repeat (apply Forall_cons_2; [|]); try done; cbn; unfold good_name; (split_and!; [done..|]);
    intros Hin; vm_compute in Hin; repeat (destruct Hin as [Hin|Hin]; [discriminate Hin|]); done.
Qed.

Lemma a_text_fits : fits_u32 a_text.
Proof. split; [by vm_compute|]. repeat (apply Forall_cons_2; [by vm_compute|]). apply Forall_nil_2. Qed.

Definition tree_at (line character : Z) : Tree := TObject [(str "line", TInt line); (str "character", TInt character)].

Definition renamed : Tree :=
  TObject [(str "changes", TObject [(path_to_uri a_file, TArray [
    TObject [(str "range", TObject [(str "start", tree_at 1 3); (str "end", tree_at 1 4)]); (str "newText", TString (str "y"))];
    TObject [(str "range", TObject [(str "start", tree_at 0 4); (str "end", tree_at 0 5)]); (str "newText", TString (str "y"))]])])].

Definition a_server : Target := mkTarget (str "rust-analyzer") (TObject [(str "renameProvider", TInt 1)]) a_file a_text.
Definition a_document : Documents := {[a_file := mkOpenDocument 1 a_text]}.

(** The server's offset 3 of the second line is the model's column 3: the char
    before it counts twice. *)
Definition renamed_preview : list FileEdits :=
  [mkFileEdits a_file [mkTextEditPlan 1 5 1 6 (str "y"); mkTextEditPlan 2 3 2 4 (str "y")]].

Lemma positions_round_trip_witness :
  to_lsp a_text 2 3 = Some (mkLspPosition 1 3) /\ from_lsp a_text (mkLspPosition 1 3) = (2, 3) /\ to_lsp a_text 3 1 = None.
Proof.
  pose proof (positions_round_trip a_text 2 3 (mkLspPosition 1 3) a_text_fits) as (_ & H2 & H3).
  assert (E : to_lsp a_text 2 3 = Some (mkLspPosition 1 3)) by (vm_compute; reflexivity). split_and!; [exact E| |].
  - destruct (H2 E) as (line & Hl & Hf & _). rewrite Hf. vm_compute in Hl. injection Hl as <-. vm_compute. reflexivity.
  - apply (proj1 (positions_round_trip a_text 3 1 (mkLspPosition 1 3) a_text_fits)). right. vm_compute. reflexivity.
Defined.

Lemma server_copy_in_step_witness :
  let es := [FileChanges a_file a_text; SyncReads a_file] in
  snd <$> server_copies (server_heard (@run_sync tree_json tree_lsp (new_spec [] [] [] [] []) TNull (es ++ [SyncRuns 0 Delivered Delivered]))) !! path_to_uri a_file = Some a_text.
Proof.
  intros es. apply (@server_copy_in_step tree_json tree_lsp (new_spec [] [] [] [] []) TNull es a_file).
  - repeat (apply Forall_cons_2; [exact a_file_good|]). apply Forall_nil_2.
  - vm_compute. reflexivity.
  - exact a_file_good.
  - vm_compute. apply not_elem_of_nil.
  - vm_compute. reflexivity.
  - vm_compute. apply not_elem_of_nil.
Defined.

Lemma rename_preview_exact_witness :
  rename_preview a_server 2 3 (str "y") (fun _ _ _ => Ok renamed) a_document (fun _ => None) = Ok renamed_preview
  /\ exists at_, to_lsp a_text 2 3 = Some at_.
Proof.
  assert (E : rename_preview a_server 2 3 (str "y") (fun _ _ _ => Ok renamed) a_document (fun _ => None) = Ok renamed_preview) by (vm_compute; reflexivity).
  split; [exact E|]. destruct (rename_preview_exact _ _ _ _ _ _ _ _ E) as (at_ & _ & _ & _ & H & _). exists at_. exact H.
Defined.
