(* ===== verification/Encode.v ===== *)
(** Requests on the wire ([z-engine-llm/src], files [openai/messages.rs],
    [openai/request.rs], [anthropic/messages.rs], [anthropic/request.rs] and
    [wire.rs]): how a request of the engine is told to the two kinds of
    providers, and that a repaired history stays one that they accept. *)

From Stdlib Require Import String.
From stdpp Require Import list.
From S2P Require Export Rpc WellFormed.

Local Open Scope nat_scope.

(** * [openai/messages.rs] *)

Definition EMPTY_TOOL_OUTPUT : text := str "(no text output)".
Definition BLANK_LINE : text := [NEWLINE; NEWLINE].

(** The content parts; [cached] puts a [cache_control] on a text. *)
Inductive ChatPart :=
| TextPart (t : text) (cached : bool)
| ImagePart (url : text)
| FilePart (filename file_data : text).

Inductive ChatContent := NullContent | StringContent (t : text) | PartsContent (ps : list ChatPart).

Record ChatCall := mkChatCall { chat_call_id : id; chat_call_name : text; chat_arguments : text }.

Inductive ChatMessage :=
| SystemEntry (c : ChatContent)
| UserEntry (c : ChatContent)
| AssistantEntry (c : ChatContent) (calls : list ChatCall)
| ToolEntry (i : id) (c : ChatContent).

Definition media_url (source : MediaSource) : text :=
  match source with
  | Base64 media_type data => str "data:" ++ media_type ++ str ";base64," ++ data
  | Url url => url
  end.

Definition image_part (source : MediaSource) : ChatPart := ImagePart (media_url source).

Definition document_part (source : MediaSource) (title_ : option text) : ChatPart :=
  let filename :=
    match title_, source with
    | Some title_, _ => title_
    | None, Base64 media_type _ => if teqb media_type (str "text/plain") then str "document.txt" else str "document.pdf"
    | None, _ => str "document.pdf"
    end in
  FilePart filename (media_url source).

Definition image_note (i : id) : ChatPart := TextPart (str "Images returned by tool call " ++ i ++ str ":") false.

Fixpoint split_loop (content : list ToolResultPart) (texts : list text) (images : list ChatPart) : list text * list ChatPart :=
  match content with
  | [] => (texts, images)
  | PartText t :: content => split_loop content (if is_empty t then texts else texts ++ [t]) images
  | PartImage source :: content => split_loop content texts (images ++ [image_part source])
  end.

Definition split_tool_result (content : list ToolResultPart) : text * list ChatPart :=
  let '(texts, images) := split_loop content [] [] in (join [NEWLINE] texts, images).

Definition text_of_part (p : ChatPart) : option text := match p with TextPart t _ => Some t | _ => None end.
Definition is_text_part (p : ChatPart) : bool := match p with TextPart _ _ => true | _ => false end.

Definition user_content (parts : list ChatPart) : ChatContent :=
  if forallb is_text_part parts then StringContent (join BLANK_LINE (omap text_of_part parts)) else PartsContent parts.

(** The last text part gets the mark. *)
Fixpoint mark_first_text (ps : list ChatPart) : list ChatPart :=
  match ps with
  | [] => []
  | TextPart t _ :: ps => TextPart t true :: ps
  | p :: ps => p :: mark_first_text ps
  end.

Definition mark_content (c : ChatContent) : ChatContent :=
  match c with
  | NullContent => NullContent
  | StringContent t => PartsContent [TextPart t true]
  | PartsContent ps => PartsContent (reverse (mark_first_text (reverse ps)))
  end.

Definition mark_breakpoint (m : ChatMessage) : ChatMessage :=
  match m with
  | SystemEntry c => SystemEntry (mark_content c)
  | UserEntry c => UserEntry (mark_content c)
  | AssistantEntry c calls => AssistantEntry (mark_content c) calls
  | ToolEntry i c => ToolEntry i (mark_content c)
  end.

Fixpoint mark_last (ms : list ChatMessage) : list ChatMessage :=
  match ms with
  | [] => []
  | [m] => [mark_breakpoint m]
  | m :: ms => m :: mark_last ms
  end.

Section WithChatJson.
Context {J : Json}.

Fixpoint user_loop (blocks : list ContentBlock) (tool_images : list (id * list ChatPart)) (parts : list ChatPart) : list ChatMessage :=
  match blocks with
  | [] =>
      let content := flat_map (fun '(i, images) => image_note i :: images) tool_images ++ parts in
      if is_empty content then [] else [UserEntry (user_content content)]
  | block :: blocks =>
      match block with
      | BToolResult i content _ =>
          let '(t, images) := split_tool_result content in
          ToolEntry i (StringContent (if is_empty t then EMPTY_TOOL_OUTPUT else t))
            :: user_loop blocks (if is_empty images then tool_images else tool_images ++ [(i, images)]) parts
      | BText t => user_loop blocks tool_images (if is_empty t then parts else parts ++ [TextPart t false])
      | BImage source => user_loop blocks tool_images (parts ++ [image_part source])
      | BDocument source title_ => user_loop blocks tool_images (parts ++ [document_part source title_])
      | _ => user_loop blocks tool_images parts
      end
  end.

Definition push_user (blocks : list ContentBlock) : list ChatMessage := user_loop blocks [] [].

Definition chat_text (b : ContentBlock) : option text := match b with BText t => if is_empty t then None else Some t | _ => None end.
Definition chat_call (b : ContentBlock) : option ChatCall :=
  match b with BToolUse i n v => Some (mkChatCall i n (to_text v)) | _ => None end.

Definition push_assistant (blocks : list ContentBlock) : list ChatMessage :=
  let texts := omap chat_text blocks in
  let calls := omap chat_call blocks in
  if is_empty texts && is_empty calls then []
  else [AssistantEntry (if is_empty texts then NullContent else StringContent (join BLANK_LINE texts)) calls].

Fixpoint conversation_loop (cache_control : bool) (breakpoints : list nat) (index : nat) (messages : list Message) : list ChatMessage :=
  match messages with
  | [] => []
  | m :: messages =>
      let entries := match role m with User => push_user (content m) | Assistant => push_assistant (content m) end in
      (if cache_control && existsb (Nat.eqb index) breakpoints then mark_last entries else entries)
        ++ conversation_loop cache_control breakpoints (S index) messages
  end.

Definition conversation (r : ModelRequest) (cache_control : bool) : list ChatMessage :=
  conversation_loop cache_control (cache_breakpoints r) 0 (request_messages r).

(** * [openai/request.rs] *)

Inductive ReasoningStyle := StyleOpenRouter | StyleOpenAi | StyleNone.

Record ChatDialect := mkChatDialect { dialect_cache : bool; reasoning : ReasoningStyle }.

Definition system_message (system : list SystemBlock) (cache_control : bool) : option ChatMessage :=
  let blocks := List.filter (fun b => negb (is_empty (block_text b))) system in
  if is_empty blocks then None
  else if cache_control && existsb block_cache blocks then
    Some (SystemEntry (PartsContent (map (fun b => TextPart (block_text b) (block_cache b)) blocks)))
  else Some (SystemEntry (StringContent (join BLANK_LINE (map block_text blocks)))).

Definition effort_label (e : Effort) : text :=
  match e with Low => str "low" | Medium => str "medium" | High | Max => str "high" end.

(** The messages of the body. *)
Definition chat_messages (r : ModelRequest) (dialect : ChatDialect) : list ChatMessage :=
  match system_message (request_system r) (dialect_cache dialect) with Some m => [m] | None => [] end ++ conversation r (dialect_cache dialect).

(** * [anthropic/messages.rs] *)

Inductive ResultBlock := ResultText (t : text) | ResultImage (source : MediaSource).

Inductive WireBlock :=
| WText (t : text)
| WImage (source : MediaSource)
| WDocument (source : MediaSource) (title_ : option text)
| WThinking (t signature_ : text)
| WRedacted (data : text)
| WToolUse (i : id) (n : text) (input_ : option json)
| WToolResult (i : id) (parts : list ResultBlock) (is_error : bool).

(** A block with its [cache_control]. *)
Definition Marked : Type := WireBlock * bool.

Definition blank (t : text) : bool := is_empty (trim t).

Definition result_block (p : ToolResultPart) : option ResultBlock :=
  match p with PartText t => if blank t then None else Some (ResultText t) | PartImage source => Some (ResultImage source) end.

(** An input that is no object is replaced by an empty one. *)
Definition wire_block (thinking_ : bool) (b : ContentBlock) : option WireBlock :=
  match b with
  | BText t => if blank t then None else Some (WText t)
  | BImage source => Some (WImage source)
  | BDocument source title_ => Some (WDocument source title_)
  | BThinking t (Some signature_) => if thinking_ then Some (WThinking t signature_) else None
  | BThinking _ None => None
  | BRedactedThinking data => if thinking_ then Some (WRedacted data) else None
  | BToolUse i n v => Some (WToolUse i n (if is_object v then Some v else None))
  | BToolResult i content is_error => Some (WToolResult i (omap result_block content) is_error)
  end.

(** [blocks] *)
Definition wire_blocks (thinking_ : bool) (content : list ContentBlock) : list WireBlock := omap (wire_block thinking_) content.

Definition is_cacheable (b : WireBlock) : bool := match b with WThinking _ _ | WRedacted _ => false | _ => true end.

(** [sort_unstable] and [dedup] *)
Fixpoint insert_index (n : nat) (l : list nat) : list nat :=
  match l with
  | [] => [n]
  | m :: l' => if n <? m then n :: l else if n =? m then l else m :: insert_index n l'
  end.

Definition select_breakpoints (requested : list nat) (mapped : list (list WireBlock)) (budget : nat) : list nat :=
  let eligible := List.filter (fun index => match mapped !! index with Some bs => existsb is_cacheable bs | None => false end) requested in
  let eligible := foldr insert_index [] eligible in
  drop (length eligible - budget) eligible.

Definition unmarked (b : WireBlock) : Marked := (b, false).

Fixpoint mark_first_cacheable (bs : list WireBlock) : list Marked :=
  match bs with
  | [] => []
  | b :: bs => if is_cacheable b then (b, true) :: map unmarked bs else unmarked b :: mark_first_cacheable bs
  end.

Definition mark_last_cacheable (bs : list WireBlock) : list Marked := reverse (mark_first_cacheable (reverse bs)).

Definition put_blocks (merged : list (Role * list Marked)) (r : Role) (bs : list Marked) : list (Role * list Marked) :=
  match last merged with
  | Some (role_, existing) =>
      if bool_decide (role_ = r) then removelast merged ++ [(role_, existing ++ bs)] else merged ++ [(r, bs)]
  | None => merged ++ [(r, bs)]
  end.

Fixpoint merge_loop (marks : list nat) (index : nat) (mapped : list (Role * list WireBlock)) (merged : list (Role * list Marked))
  : list (Role * list Marked) :=
  match mapped with
  | [] => merged
  | (r, bs) :: mapped =>
      if is_empty bs then merge_loop marks (S index) mapped merged
      else
        let bs := if existsb (Nat.eqb index) marks then mark_last_cacheable bs else map unmarked bs in
        merge_loop marks (S index) mapped (put_blocks merged r bs)
  end.

Definition is_tool_result (b : Marked) : bool := match fst b with WToolResult _ _ _ => true | _ => false end.

(** A stable sort by one bit. *)
Definition tool_results_first (bs : list Marked) : list Marked :=
  List.filter is_tool_result bs ++ List.filter (fun b => negb (is_tool_result b)) bs.

Definition ordered (m : Role * list Marked) : Role * list Marked :=
  match m with (User, bs) => (User, tool_results_first bs) | m => m end.

(** [build] *)
Definition wire_messages (r : ModelRequest) (breakpoint_budget : nat) (thinking_ : bool) : list (Role * list Marked) :=
  let mapped := map (fun m => wire_blocks thinking_ (content m)) (request_messages r) in
  let marks := select_breakpoints (cache_breakpoints r) mapped breakpoint_budget in
  map ordered (merge_loop marks 0 (combine (map role (request_messages r)) mapped) []).

(** * [anthropic/request.rs] *)

Definition MAX_CACHE_BREAKPOINTS : nat := 4.
Definition MIN_THINKING_BUDGET : N := 1024.
Definition ANSWER_HEADROOM : N := 1024.
Definition RAISED_ANSWER_ROOM : N := 4096.

Definition saturating_add (a b : N) : N := N.min (a + b) 4294967295.

Definition forces_tool (c : ToolChoice) : bool := match c with ChoiceAny | ChoiceTool _ => true | _ => false end.

Definition thinking_enabled (r : ModelRequest) : bool :=
  match thinking r with Some _ => negb (negb (is_empty (request_tools r)) && forces_tool (tool_choice r)) | None => false end.

Definition effort_budget (e : Effort) : N := match e with Low => 2048 | Medium => 8192 | High => 16384 | Max => 32000 end.

Definition thinking_budget (config : ThinkingConfig) (max_tokens : N) : N * N :=
  let desired := default (effort_budget (thinking_effort config)) (budget_tokens config) in
  let budget := N.max (N.min desired (max_tokens - ANSWER_HEADROOM)) MIN_THINKING_BUDGET in
  if (max_tokens <? saturating_add budget ANSWER_HEADROOM)%N then (budget, saturating_add budget RAISED_ANSWER_ROOM)
  else (budget, max_tokens).

Definition count_marks (marks : list bool) : nat := length (List.filter (fun m => m) marks).

Fixpoint fit_loop (used : nat) (system : list bool) : list bool * nat :=
  match system with
  | [] => ([], used)
  | mark :: system =>
      if used <=? MAX_CACHE_BREAKPOINTS then (mark :: system, used)
      else let '(system, used) := fit_loop (if mark then used - 1 else used) system in (false :: system, used)
  end.

(** [fit_fixed_breakpoints]: the marks kept and how many are left. *)
Definition fit_fixed_breakpoints (system : list bool) (tools : bool) : list bool * nat :=
  let '(system, used) := fit_loop (count_marks system + if tools then 1 else 0) system in
  (system, MAX_CACHE_BREAKPOINTS - used).

(** The body, as far as it depends on the request's parts. *)
Record WireBody := mkWireBody {
  body_model : text;
  body_messages : list (Role * list Marked);
  body_system : list (text * bool);
  body_tools : list (ToolSpec * bool);
  body_tool_choice : option ToolChoice;
  body_thinking : option N;
  body_temperature : option f64;
  body_max_tokens : N;
  body_stop : list text
}.

Definition build_body (r : ModelRequest) (cache_control : bool) : WireBody :=
  let config := if thinking_enabled r then thinking r else None in
  let system := List.filter (fun b => negb (blank (block_text b))) (request_system r) in
  let system_marks := map (fun b => cache_control && block_cache b) system in
  let tools_mark := cache_control && cache_tools r && negb (is_empty (request_tools r)) in
  let '(system_marks, message_budget) := fit_fixed_breakpoints system_marks tools_mark in
  let '(budget, max_tokens_) :=
    match config with
    | Some config => let '(budget, adjusted) := thinking_budget config (max_tokens r) in (Some budget, adjusted)
    | None => (None, max_tokens r)
    end in
  mkWireBody (request_model r)
    (wire_messages r message_budget (match config with Some _ => true | None => false end))
    (combine (map block_text system) system_marks)
    (imap (fun index t => (t, tools_mark && (S index =? length (request_tools r)))) (request_tools r))
    (if is_empty (request_tools r) then None else Some (tool_choice r))
    budget
    (match config with Some _ => None | None => temperature r end)
    max_tokens_
    (stop_sequences r).

End WithChatJson.

(** * The bodies as JSON *)

Section WithWire.
Context {J : Json} {W : JsonWire}.

(** [serde_json]: flags, and numbers that are no integers ([wire::float]). *)
Class JsonScalars := { json_flag : bool -> json; json_float : f64 -> json }.
Context {S : JsonScalars}.

Definition ephemeral : json := json_object [(str "type", json_string (str "ephemeral"))].

Definition cache_entry (mark : bool) : list (text * json) := if mark then [(str "cache_control", ephemeral)] else [].

Definition typed (t : string) (entries : list (text * json)) : json := json_object ((str "type", json_string (str t)) :: entries).

Definition part_value (p : ChatPart) : json :=
  match p with
  | TextPart t cached => typed "text" ((str "text", json_string t) :: cache_entry cached)
  | ImagePart url => typed "image_url" [(str "image_url", json_object [(str "url", json_string url)])]
  | FilePart filename data => typed "file" [(str "file", json_object [(str "filename", json_string filename); (str "file_data", json_string data)])]
  end.

Definition content_value (c : ChatContent) : json :=
  match c with
  | NullContent => json_null
  | StringContent t => json_string t
  | PartsContent ps => json_array (map part_value ps)
  end.

Definition chat_call_value (c : ChatCall) : json :=
  json_object [(str "id", json_string (chat_call_id c)); (str "type", json_string (str "function"));
               (str "function", json_object [(str "name", json_string (chat_call_name c)); (str "arguments", json_string (chat_arguments c))])].

Definition chat_message_value (m : ChatMessage) : json :=
  let entry role_ c more := json_object ((str "role", json_string (str role_)) :: (str "content", content_value c) :: more) in
  match m with
  | SystemEntry c => entry "system"%string c []
  | UserEntry c => entry "user"%string c []
  | AssistantEntry c calls =>
      entry "assistant"%string c (if is_empty calls then [] else [(str "tool_calls", json_array (map chat_call_value calls))])
  | ToolEntry i c => entry "tool"%string c [(str "tool_call_id", json_string i)]
  end.

(** [tool_definition] *)
Definition chat_tool (t : ToolSpec) : json :=
  typed "function" [(str "function", json_object
    [(str "name", json_string (spec_tool t)); (str "description", json_string (spec_description t)); (str "parameters", input_schema t)])].

Definition chat_tool_choice (c : ToolChoice) : json :=
  match c with
  | ChoiceAuto => json_string (str "auto")
  | ChoiceNone => json_string (str "none")
  | ChoiceAny => json_string (str "required")
  | ChoiceTool t => typed "function" [(str "function", json_object [(str "name", json_string t)])]
  end.

(** [openai::request::build_body] *)
Definition chat_body (r : ModelRequest) (dialect : ChatDialect) : json :=
  let openai := match reasoning dialect with StyleOpenAi => true | _ => false end in
  let reasoning_sent := match thinking r with Some _ => openai | None => false end in
  json_object
    ([(str "model", json_string (request_model r)); (str "messages", json_array (map chat_message_value (chat_messages r dialect)));
      (str "stream", json_flag true); (str "stream_options", json_object [(str "include_usage", json_flag true)]);
      (if openai then str "max_completion_tokens" else str "max_tokens", json_int (Z.of_N (max_tokens r)))]
     ++ (if is_empty (request_tools r) then []
         else [(str "tools", json_array (map chat_tool (request_tools r))); (str "tool_choice", chat_tool_choice (tool_choice r))])
     ++ match thinking r, reasoning dialect with
        | Some config, StyleOpenRouter =>
            [(str "reasoning", json_object [(str "effort", json_string (effort_label (thinking_effort config)))])]
        | Some config, StyleOpenAi => [(str "reasoning_effort", json_string (effort_label (thinking_effort config)))]
        | _, _ => []
        end
     ++ match temperature r with Some f => if reasoning_sent then [] else [(str "temperature", json_float f)] | None => [] end
     ++ (if is_empty (stop_sequences r) then [] else [(str "stop", json_array (map json_string (stop_sequences r)))])).

Definition source_json (source : MediaSource) : json :=
  match source with
  | Base64 media_type data => typed "base64" [(str "media_type", json_string media_type); (str "data", json_string data)]
  | Url url => typed "url" [(str "url", json_string url)]
  end.

Definition result_block_value (b : ResultBlock) : json :=
  match b with
  | ResultText t => typed "text" [(str "text", json_string t)]
  | ResultImage source => typed "image" [(str "source", source_json source)]
  end.

Definition wire_block_value (b : Marked) : json :=
  let more := cache_entry (snd b) in
  match fst b with
  | WText t => typed "text" ((str "text", json_string t) :: more)
  | WImage source => typed "image" ((str "source", source_json source) :: more)
  | WDocument source title_ =>
      typed "document" ((str "source", source_json source) :: match title_ with Some t => [(str "title", json_string t)] | None => [] end ++ more)
  | WThinking t signature_ => typed "thinking" ((str "thinking", json_string t) :: (str "signature", json_string signature_) :: more)
  | WRedacted data => typed "redacted_thinking" ((str "data", json_string data) :: more)
  | WToolUse i n input_ =>
      typed "tool_use" ((str "id", json_string i) :: (str "name", json_string n) :: (str "input", default (json_object []) input_) :: more)
  | WToolResult i parts is_error =>
      typed "tool_result" ((str "tool_use_id", json_string i)
        :: (if is_empty parts then [] else [(str "content", json_array (map result_block_value parts))])
        ++ (if is_error then [(str "is_error", json_flag true)] else []) ++ more)
  end.

Definition wire_message_value (m : Role * list Marked) : json :=
  json_object [(str "role", json_string (match fst m with User => str "user" | Assistant => str "assistant" end));
               (str "content", json_array (map wire_block_value (snd m)))].

Definition wire_tool_choice (c : ToolChoice) : json :=
  match c with
  | ChoiceAuto => typed "auto" []
  | ChoiceNone => typed "none" []
  | ChoiceAny => typed "any" []
  | ChoiceTool t => typed "tool" [(str "name", json_string t)]
  end.

(** [anthropic::request::build_body] *)
Definition wire_body_value (b : WireBody) : json :=
  json_object
    ([(str "model", json_string (body_model b)); (str "stream", json_flag true); (str "messages", json_array (map wire_message_value (body_messages b)))]
     ++ (if is_empty (body_system b) then []
         else [(str "system", json_array (map (fun '(t, mark) => typed "text" ((str "text", json_string t) :: cache_entry mark)) (body_system b)))])
     ++ (if is_empty (body_tools b) then []
         else [(str "tools", json_array (map (fun '(t, mark) => json_object ((str "name", json_string (spec_tool t))
                  :: (str "description", json_string (spec_description t)) :: (str "input_schema", input_schema t) :: cache_entry mark)) (body_tools b)))])
     ++ match body_tool_choice b with Some c => [(str "tool_choice", wire_tool_choice c)] | None => [] end
     ++ match body_thinking b with
        | Some budget => [(str "thinking", typed "enabled" [(str "budget_tokens", json_int (Z.of_N budget))])]
        | None => []
        end
     ++ match body_temperature b with Some f => [(str "temperature", json_float f)] | None => [] end
     ++ [(str "max_tokens", json_int (Z.of_N (body_max_tokens b)))]
     ++ (if is_empty (body_stop b) then [] else [(str "stop_sequences", json_array (map json_string (body_stop b)))])).

End WithWire.

(** * What OpenAI-compatible providers accept *)

(** What pairing depends on. *)
Inductive Kind := KOther | KAssistant (calls : list id) | KTool (i : id).

Definition kind (m : ChatMessage) : Kind :=
  match m with
  | SystemEntry _ | UserEntry _ => KOther
  | AssistantEntry _ calls => KAssistant (map chat_call_id calls)
  | ToolEntry i _ => KTool i
  end.

(** The tool messages of an assistant message's calls follow it directly, one
    for each call, and there are no others; [open] are the calls not answered
    yet, and [q] those at the end. *)
Fixpoint paired (open : list id) (ks : list Kind) (q : list id) : Prop :=
  match ks with
  | [] => open = q
  | KTool i :: ks => exists rest, open ≡ₚ i :: rest /\ paired rest ks q
  | KAssistant calls :: ks => open = [] /\ paired calls ks q
  | KOther :: ks => open = [] /\ paired [] ks q
  end.

Lemma kinds_paired_app open ks ls q : (exists r, paired open ks r /\ paired r ls q) -> paired open (ks ++ ls) q.
Proof.
  revert open; induction ks as [|k ks IH]; intros open (r & H1 & H2); cbn [app paired] in *; [by subst|].
  destruct k; [destruct H1 as [-> H1]; split; [done|]; apply IH; by exists r..|]. destruct H1 as (rest & Hp & H1).
  exists rest. split; [done|]. apply IH. by exists r.
Qed.

Lemma mark_last_kinds ms : map kind (mark_last ms) = map kind ms.
Proof.
  induction ms as [|m [|n ms] IH]; [done|by destruct m|]. change (mark_last (m :: n :: ms)) with (m :: mark_last (n :: ms)). cbn [map] in *. by rewrite IH.
Qed.

Section Accepted.
Context {J : Json}.

Lemma user_loop_paired blocks images parts open :
  results_in blocks ≡ₚ open -> paired open (map kind (user_loop blocks images parts)) [].
Proof.
  revert images parts open; induction blocks as [|b blocks IH]; intros images parts open H; cbn [user_loop].
  - cbn in H. apply Permutation_nil_l in H as <-. by destruct (is_empty _).
  - destruct b; cbn [results_in omap list_omap result_of] in H; try by apply IH.
    destruct (split_tool_result content) as [t imgs]. cbn [map kind paired]. exists (results_in blocks). split; [by symmetry|]. by apply IH.
Qed.

Lemma assistant_paired blocks :
  paired [] (map kind (push_assistant blocks)) (map (fun u => fst (fst u)) (omap tool_use blocks)).
Proof.
  assert (E : map chat_call_id (omap chat_call blocks) = map (fun u => fst (fst u)) (omap tool_use blocks)).
  { induction blocks as [|b blocks IH]; [done|]. destruct b; cbn; try done. by f_equal. }
  unfold push_assistant. rewrite <- E. destruct (is_empty (omap chat_text blocks) && is_empty (omap chat_call blocks)) eqn:Ee.
  - apply andb_prop in Ee as [_ Ee]. by destruct (omap chat_call blocks).
  - by cbn.
Qed.

Lemma conversation_paired cc bps index ms open q :
  leads_by fits open ms q -> paired open (map kind (conversation_loop cc bps index ms)) q.
Proof.
  revert index open; induction ms as [|m ms IH]; intros index open H; cbn [conversation_loop leads_by] in *; [done|].
  rewrite map_app. apply kinds_paired_app.
  assert (E : forall entries, map kind (if cc && existsb (Nat.eqb index) bps then mark_last entries else entries) = map kind entries).
  { intros entries. destruct (_ && _); [apply mark_last_kinds|done]. }
  rewrite E. unfold is_user in H. destruct (role m); cbn in H.
  - destruct H as [[Hp _] H]. exists []. split; [by apply user_loop_paired|by apply IH].
  - destruct H as [-> H]. exists (calls_of m). split; [apply assistant_paired|by apply IH].
Qed.

(** C16: a request to an OpenAI-compatible provider pairs every call with its
    result.  From a history that the engine has repaired, the tool messages
    come directly after the assistant message that made their calls, one for
    each call and no other, whatever blocks the messages hold, whichever are
    left out and wherever cache breakpoints are put. *)
Theorem chat_requests_pair_calls (r : ModelRequest) (dialect : ChatDialect) :
  provider_ok (request_messages r) -> paired [] (map kind (chat_messages r dialect)) [].
Proof.
  intros [_ H]. unfold chat_messages. rewrite map_app. apply kinds_paired_app. exists []. split; [|by apply conversation_paired].
  unfold system_message. destruct (is_empty _); [done|]. by destruct (_ && _).
Qed.

End Accepted.

(** * What Anthropic accepts *)

Section WireAccepted.
Context {J : Json}.

Definition wire_result (b : WireBlock) : option id := match b with WToolResult i _ _ => Some i | _ => None end.
Definition wire_use (b : WireBlock) : option id := match b with WToolUse i _ _ => Some i | _ => None end.
Definition wire_results (bs : list Marked) : list id := omap (fun b => wire_result (fst b)) bs.
Definition wire_uses (bs : list Marked) : list id := omap (fun b => wire_use (fst b)) bs.

(** As [leads_by], for messages on the wire. *)
Fixpoint wire_leads (open : list id) (ms : list (Role * list Marked)) (q : list id) : Prop :=
  match ms with
  | [] => open = q
  | (User, bs) :: ms => wire_results bs ≡ₚ open /\ wire_leads [] ms q
  | (Assistant, bs) :: ms => open = [] /\ wire_leads (wire_uses bs) ms q
  end.

Definition unlike_last (ms : list (Role * list Marked)) (r : Role) : Prop := forall bs, last ms <> Some (r, bs).

Fixpoint roles_alternate (ms : list (Role * list Marked)) : Prop :=
  match ms with
  | [] => True
  | (r, _) :: ms' => match ms' with (r', _) :: _ => r <> r' | [] => True end /\ roles_alternate ms'
  end.

Definition marks_of (bs : list Marked) : nat := length (List.filter snd bs).
Definition all_marks (ms : list (Role * list Marked)) : nat := list_sum (map (fun m => marks_of (snd m)) ms).

Lemma wire_leads_app open a b q : wire_leads open (a ++ b) q <-> exists r, wire_leads open a r /\ wire_leads r b q.
Proof.
  revert open; induction a as [|[r bs] a IH]; intros open; cbn [app wire_leads].
  - split; [eauto|]. by intros (r & -> & H).
  - destruct r; rewrite IH; (split; [intros (H & r & H1 & H2); eauto|intros (r & [H H1] & H2); eauto]).
Qed.

Lemma wire_blocks_cons thinking_ b bs :
  wire_blocks thinking_ (b :: bs) = match wire_block thinking_ b with Some w => [w] | None => [] end ++ wire_blocks thinking_ bs.
Proof. unfold wire_blocks. cbn. by destruct (wire_block thinking_ b). Qed.

(** Blocks keep their calls and results. *)
Lemma wire_blocks_results thinking_ bs : omap wire_result (wire_blocks thinking_ bs) = results_in bs.
Proof.
  induction bs as [|b bs IH]; [done|]. rewrite wire_blocks_cons, omap_app, IH. change (results_in (b :: bs)) with (omap result_of ([b] ++ bs)).
  rewrite omap_app. f_equal. destruct b as [t|s|s o|t [g|]|d|i n v|i c e]; cbn; repeat case_match; simplify_eq; done.
Qed.

Lemma wire_blocks_uses thinking_ bs : omap wire_use (wire_blocks thinking_ bs) = map (fun u => fst (fst u)) (omap tool_use bs).
Proof.
  induction bs as [|b bs IH]; [done|]. rewrite wire_blocks_cons, omap_app, IH. change (omap tool_use (b :: bs)) with (omap tool_use ([b] ++ bs)).
  rewrite omap_app, map_app. f_equal. destruct b as [t|s|s o|t [g|]|d|i n v|i c e]; cbn; repeat case_match; simplify_eq; done.
Qed.

Lemma mark_first_fst bs : map fst (mark_first_cacheable bs) = bs.
Proof. induction bs as [|b bs IH]; [done|]. cbn. destruct (is_cacheable b); cbn; f_equal; [by rewrite map_map, map_id|done]. Qed.

Lemma mark_last_fst bs : map fst (mark_last_cacheable bs) = bs.
Proof.
  unfold mark_last_cacheable. change (map fst (reverse ?l)) with (fst <$> reverse l). rewrite fmap_reverse.
  change (fst <$> mark_first_cacheable (reverse bs)) with (map fst (mark_first_cacheable (reverse bs))). by rewrite mark_first_fst, reverse_involutive.
Qed.

Lemma marks_of_app a b : marks_of (a ++ b) = marks_of a + marks_of b.
Proof. unfold marks_of. by rewrite List.filter_app, length_app. Qed.

Lemma marks_of_reverse a : marks_of (reverse a) = marks_of a.
Proof. induction a as [|x a IH]; [done|]. rewrite reverse_cons, marks_of_app, IH. change (x :: a) with ([x] ++ a). rewrite marks_of_app. lia. Qed.

Lemma unmarked_marks bs : marks_of (map unmarked bs) = 0.
Proof. unfold marks_of. induction bs as [|b bs IH]; [done|]. cbn. apply IH. Qed.

Lemma mark_first_marks bs : marks_of (mark_first_cacheable bs) <= 1.
Proof.
  induction bs as [|b bs IH]; [cbn; lia|]. cbn [mark_first_cacheable]. destruct (is_cacheable b).
  - change ((b, true) :: map unmarked bs) with ([(b, true)] ++ map unmarked bs). rewrite marks_of_app, unmarked_marks. cbn. lia.
  - change (unmarked b :: mark_first_cacheable bs) with ([unmarked b] ++ mark_first_cacheable bs). by rewrite marks_of_app.
Qed.

Lemma mark_last_marks bs : marks_of (mark_last_cacheable bs) <= 1.
Proof. unfold mark_last_cacheable. rewrite marks_of_reverse. apply mark_first_marks. Qed.

Lemma tool_results_first_marks bs : marks_of (tool_results_first bs) = marks_of bs.
Proof.
  unfold tool_results_first. rewrite marks_of_app. induction bs as [|b bs IH]; [done|]. change (b :: bs) with ([b] ++ bs).
  rewrite !List.filter_app, !marks_of_app. cbn. destruct (is_tool_result b); cbn in *; lia.
Qed.

(** Merging one message. *)
Lemma put_blocks_cases merged r bs :
  (unlike_last merged r /\ put_blocks merged r bs = merged ++ [(r, bs)])
  \/ (exists front existing, merged = front ++ [(r, existing)] /\ put_blocks merged r bs = front ++ [(r, existing ++ bs)]).
Proof.
  unfold put_blocks, unlike_last. destruct merged as [|[r' existing] front _] using rev_ind; [by left|].
  rewrite last_snoc. destruct (bool_decide (r' = r)) eqn:E.
  - apply bool_decide_eq_true in E as ->. right. exists front, existing. by rewrite removelast_app_one.
  - apply bool_decide_eq_false in E. left. split; [|done]. intros bs' [= -> _]. done.
Qed.

Lemma roles_alternate_snoc ms r bs : roles_alternate ms -> unlike_last ms r -> roles_alternate (ms ++ [(r, bs)]).
Proof.
  induction ms as [|[r' bs'] ms IH]; intros Ha Hu; [done|]. cbn [app roles_alternate] in *. destruct Ha as [Hh Ha]. split.
  - destruct ms as [|[r'' bs''] ms]; cbn; [|done]. intros ->. by apply (Hu bs').
  - apply IH; [done|]. intros bs0 E. apply (Hu bs0). destruct ms; [done|]. exact E.
Qed.

Lemma roles_alternate_replace ms r bs bs' : roles_alternate (ms ++ [(r, bs)]) -> roles_alternate (ms ++ [(r, bs')]).
Proof.
  induction ms as [|[r0 bs0] ms IH]; intros Ha; [done|]. cbn [app roles_alternate] in *. destruct Ha as [Hh Ha]. split; [|by apply IH].
  by destruct ms as [|[r1 bs1] ms].
Qed.

Lemma put_blocks_leads merged r bs q q' :
  wire_leads [] merged q -> wire_leads q [(r, bs)] q' -> wire_leads [] (put_blocks merged r bs) q'.
Proof.
  intros Hm Hb. destruct (put_blocks_cases merged r bs) as [[_ ->]|(front & existing & -> & ->)]; [apply wire_leads_app; eauto|].
  apply wire_leads_app in Hm as (o & Hf & He). apply wire_leads_app. exists o. split; [done|]. cbn [wire_leads] in *.
  unfold wire_results, wire_uses in *. rewrite !omap_app. destruct r.
  - destruct He as [He <-], Hb as [Hb <-]. apply Permutation_nil_r in Hb. by rewrite Hb, app_nil_r.
  - destruct He as [-> He], Hb as [-> <-]. split; [done|]. by rewrite He.
Qed.

Record merged_ok (merged : list (Role * list Marked)) (q : list id) : Prop := mkMergedOk {
  merged_filled : Forall (fun m => snd m <> []) merged;
  merged_alternate : roles_alternate merged;
  merged_leads : wire_leads [] merged q
}.

Lemma put_blocks_ok merged r bs q q' : bs <> [] -> merged_ok merged q -> wire_leads q [(r, bs)] q' -> merged_ok (put_blocks merged r bs) q'.
Proof.
  intros Hne [Hf Ha Hl] Hb. split; [| |by eapply put_blocks_leads].
  - destruct (put_blocks_cases merged r bs) as [[_ ->]|(front & existing & -> & ->)].
    + apply Forall_app. split; [done|]. by constructor.
    + apply Forall_app in Hf as [Hf _]. apply Forall_app. split; [done|]. constructor; [|constructor]. cbn. by destruct existing.
  - destruct (put_blocks_cases merged r bs) as [[Hu ->]|(front & existing & -> & ->)]; [by apply roles_alternate_snoc|by eapply roles_alternate_replace].
Qed.

Lemma all_marks_app a b : all_marks (a ++ b) = all_marks a + all_marks b.
Proof. unfold all_marks. by rewrite map_app, list_sum_app. Qed.

Lemma all_marks_one r bs : all_marks [(r, bs)] = marks_of bs.
Proof. unfold all_marks. cbn [map list_sum snd]. apply Nat.add_0_r. Qed.

Lemma put_blocks_marks merged r bs : all_marks (put_blocks merged r bs) = all_marks merged + marks_of bs.
Proof.
  destruct (put_blocks_cases merged r bs) as [[_ ->]|(front & existing & -> & ->)]; rewrite !all_marks_app, !all_marks_one, ?marks_of_app; lia.
Qed.

Lemma marked_same (f : WireBlock -> option id) (bs : list Marked) : omap (fun b => f (fst b)) bs = omap f (map fst bs).
Proof. induction bs as [|b bs IH]; [done|]. cbn. destruct (f (fst b)); by rewrite IH. Qed.

Lemma merge_loop_ok thinking_ marks index ms merged q :
  merged_ok merged q -> leads_by fits q ms [] ->
  merged_ok (merge_loop marks index (combine (map role ms) (map (fun m => wire_blocks thinking_ (content m)) ms)) merged) [].
Proof.
  revert index merged q; induction ms as [|m ms IH]; intros index merged q Hm Hl; cbn [map combine merge_loop].
  { cbn in Hl. by subst. }
  assert (Hstep : forall bs : list Marked, map fst bs = wire_blocks thinking_ (content m) ->
    exists q', wire_leads q [(role m, bs)] q' /\ leads_by fits q' ms []).
  { intros bs Hbs. cbn [leads_by] in Hl. unfold is_user in Hl. cbn [wire_leads]. unfold wire_results, wire_uses.
    rewrite !marked_same, !Hbs, wire_blocks_results, wire_blocks_uses. destruct (role m); cbn in Hl.
    - destruct Hl as [[Hp _] Hl]. by exists [].
    - destruct Hl as [-> Hl]. by exists (calls_of m). }
  destruct (is_empty (wire_blocks thinking_ (content m))) eqn:Ee.
  - destruct (wire_blocks thinking_ (content m)) as [|b bs] eqn:Eb; [|done]. destruct (Hstep [] eq_refl) as (q' & Hq & Hl').
    apply (IH _ _ q'); [|done]. destruct Hm as [Hf Ha Hl0]. split; [done|done|]. cbn [wire_leads] in Hq. destruct (role m).
    + destruct Hq as [Hp <-]. cbn in Hp. by apply Permutation_nil_l in Hp as <-.
    + by destruct Hq as [-> <-].
  - set (bs := if existsb (Nat.eqb index) marks then mark_last_cacheable (wire_blocks thinking_ (content m)) else map unmarked (wire_blocks thinking_ (content m))).
    assert (Hbs : map fst bs = wire_blocks thinking_ (content m)).
    { unfold bs. destruct (existsb _ _); [apply mark_last_fst|]. rewrite map_map. cbn. apply map_id. }
    destruct (Hstep bs Hbs) as (q' & Hq & Hl'). apply (IH _ _ q'); [|done]. eapply put_blocks_ok; [|done|done].
    intros E. rewrite E in Hbs. by rewrite <- Hbs in Ee.
Qed.

(** Cache marks. *)
Lemma marks_present marks l : NoDup l -> length (List.filter (fun i => existsb (Nat.eqb i) marks) l) <= length marks.
Proof.
  intros Hl%NoDup_ListNoDup. apply List.NoDup_incl_length; [by apply List.NoDup_filter|].
  intros i [_ Hi]%filter_In. apply existsb_exists in Hi as (j & Hj & ->%Nat.eqb_eq). done.
Qed.

Lemma merge_loop_marks marks index mapped merged :
  all_marks (merge_loop marks index mapped merged)
  <= all_marks merged + length (List.filter (fun i => existsb (Nat.eqb i) marks) (seq index (length mapped))).
Proof.
  revert index merged; induction mapped as [|[r bs] mapped IH]; intros index merged; cbn [merge_loop length seq List.filter]; [cbn; lia|].
  destruct (is_empty bs).
  - etransitivity; [apply IH|]. destruct (existsb _ _); cbn [length]; lia.
  - etransitivity; [apply IH|]. rewrite put_blocks_marks. destruct (existsb _ _); [pose proof (mark_last_marks bs); cbn [length]|rewrite unmarked_marks]; lia.
Qed.

Lemma ordered_marks ms : all_marks (map ordered ms) = all_marks ms.
Proof.
  induction ms as [|[r bs] ms IH]; [done|]. change (map ordered ((r, bs) :: ms)) with (map ordered [(r, bs)] ++ map ordered ms).
  change ((r, bs) :: ms) with ([(r, bs)] ++ ms). rewrite !all_marks_app, IH. destruct r; cbn [map ordered]; by rewrite !all_marks_one, ?tool_results_first_marks.
Qed.

Lemma wire_messages_marks r budget thinking_ : all_marks (wire_messages r budget thinking_) <= budget.
Proof.
  unfold wire_messages. rewrite ordered_marks. etransitivity; [apply merge_loop_marks|]. cbn [all_marks map list_sum]. 
  etransitivity; [apply marks_present, NoDup_seq|]. unfold select_breakpoints. rewrite length_drop. lia.
Qed.

Lemma count_cons m marks : count_marks (m :: marks) = (if m then 1 else 0) + count_marks marks.
Proof. unfold count_marks. by destruct m. Qed.

(** Marks of the system are dropped from the front, until the rest fits. *)
Lemma fit_loop_spec used marks :
  let '(kept_, used') := fit_loop used marks in
  (exists k, kept_ = repeat false k ++ drop k marks) /\ length kept_ = length marks
  /\ (count_marks marks <= used -> used' + count_marks marks = used + count_marks kept_)
  /\ (used' <= MAX_CACHE_BREAKPOINTS \/ count_marks kept_ = 0).
Proof.
  revert used; induction marks as [|m marks IH]; intros used; cbn [fit_loop].
  { split_and!; [by exists 0|done|cbn; lia|by right]. }
  destruct (Nat.leb_spec used MAX_CACHE_BREAKPOINTS); [split_and!; [by exists 0|done|lia|by left]|].
  specialize (IH (if m then used - 1 else used)). destruct (fit_loop _ marks) as [kept_ used']. destruct IH as ((k & E) & Hl & Hc & Hu).
  split_and!; [exists (S k); cbn; by rewrite E|cbn; lia| |destruct Hu; [by left|right; by rewrite count_cons]].
  rewrite !count_cons. intros Hle. destruct m; cbn in *; lia.
Qed.

Lemma fit_fixed_fits marks (tools : bool) :
  let '(kept_, budget) := fit_fixed_breakpoints marks tools in
  length kept_ = length marks /\ count_marks kept_ + (if tools then 1 else 0) + budget <= MAX_CACHE_BREAKPOINTS.
Proof.
  unfold fit_fixed_breakpoints. pose proof (fit_loop_spec (count_marks marks + if tools then 1 else 0) marks) as H.
  destruct (fit_loop _ _) as [kept_ used]. destruct H as (_ & Hl & Hc & Hu). split; [done|]. specialize (Hc ltac:(lia)).
  unfold MAX_CACHE_BREAKPOINTS in *. destruct tools; lia.
Qed.

Lemma combine_snd {A B} (l : list A) (k : list B) : length k = length l -> map snd (combine l k) = k.
Proof. revert k; induction l as [|a l IH]; intros [|b k] H; try done. cbn. f_equal. apply IH. by injection H. Qed.

Lemma last_tool_mark {A} (l : list A) (m : bool) n k :
  count_marks (map snd (imap (fun i t => (t, m && (S (k + i) =? n))) l)) <= (if m && (k <? n) then 1 else 0).
Proof.
  revert k; induction l as [|t l IH]; intros k; cbn [imap map]; [cbn; lia|]. rewrite count_cons. cbn [snd].
  assert (E : imap ((fun i t => (t, m && (S (k + i) =? n))) ∘ S) l = imap (fun i t => (t, m && (S (S k + i) =? n))) l).
  { apply imap_ext. intros i x _. cbn. by rewrite Nat.add_succ_r. }
  rewrite E. specialize (IH (S k)). rewrite Nat.add_0_r. destruct m; cbn [andb] in *; [|lia].
  destruct (Nat.eqb_spec (S k) n); destruct (Nat.ltb_spec (S k) n), (Nat.ltb_spec k n); try lia.
Qed.

Definition body_marks (b : WireBody) : nat :=
  count_marks (map snd (body_system b)) + count_marks (map snd (body_tools b)) + all_marks (body_messages b).

Lemma build_body_marks r cc : body_marks (build_body r cc) <= MAX_CACHE_BREAKPOINTS.
Proof.
  unfold build_body. set (config := if thinking_enabled r then thinking r else None).
  set (system := List.filter _ (request_system r)). set (tools := cc && cache_tools r && _). set (marks := map _ system).
  pose proof (fit_fixed_fits marks tools) as H. destruct (fit_fixed_breakpoints marks tools) as [kept_ budget]. destruct H as [Hl Hm].
  destruct (match config with Some _ => _ | None => _ end) as [b t]. unfold body_marks. cbn [body_system body_tools body_messages].
  rewrite combine_snd by (rewrite Hl; unfold marks; by rewrite !length_map).
  pose proof (last_tool_mark (request_tools r) tools (length (request_tools r)) 0) as Ht.
  pose proof (wire_messages_marks r budget (match config with Some _ => true | None => false end)) as Hw. cbn [Nat.add] in Ht.
  destruct tools; cbn [andb] in *; [destruct (0 <? _)|]; lia.
Qed.

Lemma thinking_budget_fits config max_tokens_ :
  let '(budget, adjusted) := thinking_budget config max_tokens_ in (MIN_THINKING_BUDGET <= budget /\ budget + ANSWER_HEADROOM <= adjusted)%N.
Proof.
  unfold thinking_budget, saturating_add, MIN_THINKING_BUDGET, ANSWER_HEADROOM, RAISED_ANSWER_ROOM.
  generalize (default (effort_budget (thinking_effort config)) (budget_tokens config)). intros desired.
  destruct (N.ltb_spec max_tokens_ (N.min (N.max (N.min desired (max_tokens_ - 1024)) 1024 + 1024) 4294967295)); lia.
Qed.

Definition results_come_first (bs : list Marked) : Prop :=
  exists results rest, bs = results ++ rest /\ Forall (fun b => is_tool_result b = true) results /\ Forall (fun b => is_tool_result b = false) rest.

Lemma tool_results_lead bs : results_come_first (tool_results_first bs).
Proof.
  eexists _, _. split; [done|]. split; apply Forall_forall; intros b Hb; apply list_elem_of_In, filter_In in Hb as [_ Hb]; [done|by apply negb_true_iff].
Qed.

Lemma tool_results_same bs : wire_results (tool_results_first bs) = wire_results bs.
Proof.
  unfold wire_results, tool_results_first. rewrite omap_app.
  assert (Hn : omap (fun b => wire_result (fst b)) (List.filter (fun b => negb (is_tool_result b)) bs) = []).
  { induction bs as [|[b m] bs IH]; [done|]. destruct b; cbn in *; done. }
  rewrite Hn, app_nil_r. clear Hn. induction bs as [|[b m] bs IH]; [done|]. destruct b; cbn in *; by rewrite ?IH.
Qed.

Lemma ordered_ok ms q : merged_ok ms q -> merged_ok (map ordered ms) q.
Proof.
  intros [Hf Ha Hl]. split.
  - apply Forall_map. eapply Forall_impl; [exact Hf|]. intros [[] bs] Hb; cbn in *; [|done]. intros E. apply Hb.
    assert (Hp : tool_results_first bs ≡ₚ bs) by (unfold tool_results_first; clear; induction bs as [|b bs IH]; [done|]; cbn; destruct (is_tool_result b); cbn; [by rewrite IH|by rewrite <- Permutation_middle, IH]).
    rewrite E in Hp. by apply Permutation_nil_l in Hp.
  - clear Hf Hl. induction ms as [|[r bs] ms IH]; [done|]. cbn [map roles_alternate] in *. destruct Ha as [Hh Ha].
    destruct r; cbn [ordered]; (split; [|by apply IH]); destruct ms as [|[[] ?] ?]; done.
  - clear Hf Ha. generalize dependent (@nil id). induction ms as [|[r bs] ms IH]; intros o Hl; [done|]. cbn [map wire_leads] in *.
    destruct r; cbn [ordered]; destruct Hl as [Ho Hl]; (split; [by rewrite ?tool_results_same|by apply IH]).
Qed.

Lemma build_body_thinking r cc budget :
  body_thinking (build_body r cc) = Some budget ->
  (MIN_THINKING_BUDGET <= budget /\ budget + ANSWER_HEADROOM <= body_max_tokens (build_body r cc))%N
  /\ body_temperature (build_body r cc) = None /\ (forall c, body_tool_choice (build_body r cc) = Some c -> forces_tool c = false).
Proof.
  assert (E : exists config, (thinking_enabled r = true -> config = thinking r) /\ (thinking_enabled r = false -> config = None)
    /\ body_thinking (build_body r cc) = option_map (fun c => fst (thinking_budget c (max_tokens r))) config
    /\ body_max_tokens (build_body r cc) = match config with Some c => snd (thinking_budget c (max_tokens r)) | None => max_tokens r end
    /\ body_temperature (build_body r cc) = match config with Some _ => None | None => temperature r end
    /\ body_tool_choice (build_body r cc) = if is_empty (request_tools r) then None else Some (tool_choice r)).
  { exists (if thinking_enabled r then thinking r else None). unfold build_body. destruct (fit_fixed_breakpoints _ _) as [k budget'].
    split; [by intros ->|]. split; [by intros ->|]. destruct (if thinking_enabled r then _ else _) as [c|]; [|by split_and!].
    cbn [option_map]. destruct (thinking_budget c (max_tokens r)); by split_and!. }
  destruct E as (config & Hon & Hoff & -> & -> & -> & ->). destruct config as [c|]; [|done]. cbn [option_map]. intros [= <-].
  pose proof (thinking_budget_fits c (max_tokens r)) as Hb. destruct (thinking_budget c (max_tokens r)) as [x adjusted]. split_and!; [apply Hb..|done|].
  destruct (thinking_enabled r) eqn:Ee; [|by specialize (Hoff eq_refl)]. unfold thinking_enabled in Ee. destruct (thinking r); [|done].
  destruct (is_empty (request_tools r)); [done|]. intros c' [= <-]. by destruct (forces_tool (tool_choice r)).
Qed.

(** C15: a request to Anthropic is one that its API accepts.  From a history
    that the engine has repaired: no message is empty and the roles alternate,
    although reasoning and blank texts may be left out; each user message
    answers exactly the calls before it, its results first; system, tools and
    messages together have at most four cache breakpoints; and when thinking is
    on, its budget has the minimum the API asks for and leaves room for the
    answer, no tool is forced and no temperature set. *)
Theorem anthropic_requests_accepted (r : ModelRequest) (cache_control : bool) :
  provider_ok (request_messages r) ->
  let b := build_body r cache_control in
  Forall (fun m => snd m <> []) (body_messages b) /\ roles_alternate (body_messages b) /\ wire_leads [] (body_messages b) []
  /\ Forall (fun m => fst m = User -> results_come_first (snd m)) (body_messages b)
  /\ body_marks b <= MAX_CACHE_BREAKPOINTS
  /\ (forall budget, body_thinking b = Some budget ->
      (MIN_THINKING_BUDGET <= budget /\ budget + ANSWER_HEADROOM <= body_max_tokens b)%N
      /\ body_temperature b = None /\ (forall c, body_tool_choice b = Some c -> forces_tool c = false)).
Proof.
  intros [_ Hl] b. pose proof (build_body_marks r cache_control) as Hmarks. fold b in Hmarks.
  assert (Hm : exists budget thinking_, body_messages b = wire_messages r budget thinking_).
  { unfold b, build_body. destruct (fit_fixed_breakpoints _ _) as [k budget]. destruct (match _ with Some _ => _ | None => _ end). by eexists _, _. }
  destruct Hm as (budget & thinking_ & Hm). rewrite Hm in *.
  assert (Hok : merged_ok (wire_messages r budget thinking_) []).
  { apply ordered_ok, (merge_loop_ok _ _ _ _ _ []); [by split|done]. }
  destruct Hok as [H1 H2 H3]. split_and!; try done.
  - apply Forall_map, Forall_forall. intros [[] bs] _; cbn; [|done]. intros _. apply tool_results_lead.
  - intros budget'. apply build_body_thinking.
Qed.

End WireAccepted.

(** * Concrete requests *)

#[local] Instance unit_json : Json := {|
  json := unit;
  is_object _ := true;
  json_get _ _ := None;
  as_array _ := None;
  as_str _ := None;
  is_null _ := false;
  to_text _ := str "{}"
|}.

(** A turn that called two tools: the results come in the other order, one of them an image. *)
Definition two_calls : list Message :=
  [mkMessage (str "m1") User [BText (str "go")] 0;
   mkMessage (str "m2") Assistant [BThinking (str "hm") None; BText (str " "); BToolUse (str "a") (str "Read") tt; BToolUse (str "b") (str "Read") tt] 0;
   mkMessage (str "m3") User [BToolResult (str "b") [] false; BToolResult (str "a") [PartImage (Url (str "u"))] true; BText (str "and")] 0].

Definition two_calls_request : ModelRequest :=
  mkModelRequest (str "m") [mkSystemBlock (str "s1") true; mkSystemBlock (str "s2") true; mkSystemBlock (str "s3") true; mkSystemBlock (str "s4") true]
    two_calls [0; 1; 2] [mkToolSpec (str "Read") [] tt] true ChoiceAuto 1500 None (Some (mkThinkingConfig Max None)) [] None.

Lemma two_calls_ok : provider_ok two_calls.
Proof.
  split; [split; [by repeat constructor|by cbn; split_and!]|].
  do 3 (cbn; rewrite ?(eq_refl : is_user _ = true), ?(eq_refl : is_user _ = false); split; [try done|]); try done. split; [|done].
  apply Permutation_swap.
Qed.

Lemma chat_requests_pair_calls_witness :
  let entries := map kind (chat_messages two_calls_request (mkChatDialect true StyleNone)) in
  paired [] entries [] /\ entries = [KOther; KOther; KAssistant [str "a"; str "b"]; KTool (str "b"); KTool (str "a"); KOther].
Proof.
  split; [|vm_compute; reflexivity].
  apply (chat_requests_pair_calls two_calls_request (mkChatDialect true StyleNone)), two_calls_ok.
Defined.

Lemma anthropic_requests_accepted_witness :
  let b := build_body two_calls_request true in body_marks b <= 4 /\ body_marks b = 4 /\ body_thinking b = Some 1024%N.
Proof.
  split; [|by vm_compute].
  apply (anthropic_requests_accepted two_calls_request true), two_calls_ok.
Defined.
