(* ===== verification/LoopGuard.v ===== *)
(** The loop guard ([engine/src/decisions/uses/loop_guard], files [steps.rs],
    [detect.rs], [watch.rs], [guard.rs], and [uses/digest.rs]): an agent that
    repeats itself is reminded, and after the reminders of a turn its next
    call asks the user. *)

From stdpp Require Import gmap.
From S2P Require Export Gate Template.

(** * [digest.rs] and [steps.rs] *)

Definition HORIZONTAL_ELLIPSIS : char := 8230%N.

(** The first chars of a text, with an ellipsis when cut. *)
Definition head (t : text) (chars : nat) : text :=
  if Nat.ltb chars (length t) then take chars t ++ [HORIZONTAL_ELLIPSIS] else t.

(** What the standard library leaves unspecified or takes from tables: the
    hash of a tuple of texts, and [str::to_lowercase]. *)
Class StdText := {
  hash : list text -> N;
  to_lowercase : text -> text
}.

Definition EDITS : list text := [str "Write"; str "Edit"; str "MultiEdit"; str "NotebookEdit"; str "ApplyAgentChanges"].
Definition POLLED : list text := [str "JobOutput"; str "TodoWrite"; str "AskUserQuestion"; str "ExitPlanMode"].
Definition ERROR_MARKERS : list text := [str "error"; str "fail"; str "panic"; str "assert"; str "exception"; str "denied"].
Definition ERROR_LINES : nat := 8.
Definition TAIL_LINES : nat := 12.
Definition LABEL_CHARS : nat := 120.
Definition EXCERPT_CHARS : nat := 300.

Definition ENVIRONMENT : list text :=
  [str "command not found"; str "is not recognized as"; str "no such file or directory"; str "permission denied"; str "cannot find module";
   str "no module named"; str "connection refused"; str "could not resolve host"; str "address already in use"; str "is not installed"].
Definition RETRY : list text :=
  [str "timed out"; str "rate limit"; str "too many requests"; str "temporarily unavailable"; str "service unavailable"; str "connection reset";
   str "resource busy"; str "try again"].
Definition CODE : list text :=
  [str "error[e"; str "assert"; str "panicked"; str "typeerror"; str "syntaxerror"; str "referenceerror"; str "mismatched types";
   str "test result: failed"; str "tests failed"; str "expected"].

Inductive FailureClass := FRetry | FCode | FEnvironment.

#[export] Instance FailureClass_eq_dec : EqDecision FailureClass.
Proof. solve_decision. Defined.

Definition class_parse (key : text) : option FailureClass :=
  if teqb key (str "retry") then Some FRetry
  else if teqb key (str "code") then Some FCode
  else if teqb key (str "environment") then Some FEnvironment
  else None.

Record Failure := mkFailure { failure_hash : N; failure_class : option FailureClass; excerpt : text }.

Record Step := mkStep {
  step_tool : text;
  step_call : N;
  step_result : N;
  step_failure : option Failure;
  step_edit : bool;
  step_polled : bool;
  step_label : text;
  step_target : text
}.

(** The output's text parts, joined. *)
Definition text_of (output : list ToolResultPart) : text :=
  join [NEWLINE] (omap (fun p => match p with PartText t => Some t | PartImage _ => None end) output).

(** Digits masked and whitespace collapsed. *)
Definition mask (t : text) : text :=
  join [chr " "] (split_whitespace (map (fun c => if is_ascii_digit c then chr "#" else c) t)).

Section WithJson.
Context {G : Globset} {P : Platform} {J : Json} {T : StdText}.

Definition classify (t : text) : option FailureClass :=
  let t := to_lowercase t in
  let has markers := existsb (fun marker => contains_str marker t) markers in
  if has ENVIRONMENT then Some FEnvironment else if has RETRY then Some FRetry else if has CODE then Some FCode else None.

Definition failure (tool t : text) : Failure :=
  let ls := List.filter (fun l => negb (is_empty l)) (map trim (lines t)) in
  let marked := take ERROR_LINES (List.filter (fun l => existsb (fun marker => contains_str marker (to_lowercase l)) ERROR_MARKERS) ls) in
  let tail := join [NEWLINE] (drop (length ls - TAIL_LINES) ls) in
  let joined := if is_empty marked then tail else join [NEWLINE] marked in
  mkFailure (hash [tool; mask joined]) (classify (joined ++ [NEWLINE] ++ tail)) (head joined EXCERPT_CHARS).

(** The part of an input a person would read first. *)
Definition input_digest (tool : text) (input : json) : text :=
  let field key := v ← json_get input key; as_str v in
  let main :=
    if teqb tool (str "Bash") then field (str "command")
    else if teqb tool (str "WebFetch") then field (str "url")
    else if teqb tool (str "WebSearch") then field (str "query")
    else match field (str "file_path") with Some p => Some p | None => field (str "path") end in
  head (match main with Some t => t | None => to_text input end) 300.

Definition step (c : ToolCall) (status_ : ToolStatus) (output : list ToolResultPart) : option Step :=
  if bool_decide (status_ = SCancelled) then None
  else
    let t := text_of output in
    let failed := negb (bool_decide (status_ = SOk)) in
    let failure_ := if failed then Some (failure (name c) t) else None in
    let target := head (input_digest (name c) (call_input c)) LABEL_CHARS in
    let ended := match failure_ with Some f => str "failed: " ++ head (excerpt f) LABEL_CHARS | None => str "ok" end in
    Some (mkStep (name c) (hash [name c; to_text (call_input c)]) (hash [mask t]) failure_
            (negb failed && mem (name c) EDITS) (mem (name c) POLLED)
            (name c ++ str " " ++ target ++ str " -> " ++ ended) target).

(** * [detect.rs] *)

Definition REPEAT_LIMIT : nat := 3.
Definition STUCK_FAILURES : nat := 3.
Definition RECENT : nat := 6.
Definition RECENT_FAILURES : nat := 4.

Inductive Finding :=
| Repeat (tool : text) (count : nat) (call_ : N)
| FailedAfterEdit (tool : text) (count : nat) (failure_ : N) (class : option FailureClass)
| Suspect (tool : text) (count : nat) (same_failure : bool) (class : option FailureClass).

Definition is_clear (f : Finding) : bool := match f with Suspect _ _ _ _ => false | _ => true end.

(** [rposition]: the last index that satisfies [p]. *)
Fixpoint rposition {A} (p : A -> bool) (l : list A) : option nat :=
  match l with
  | [] => None
  | x :: l => match rposition p l with Some i => Some (S i) | None => if p x then Some O else None end
  end.

Definition count_by {A} (p : A -> bool) (l : list A) : nat := length (List.filter p l).

Definition same_failure_as (f : Failure) (s : Step) : bool :=
  match step_failure s with Some g => N.eqb (failure_hash g) (failure_hash f) | None => false end.

Definition same_outcome (a b : Step) : bool := N.eqb (step_call a) (step_call b) && N.eqb (step_result a) (step_result b).

Definition is_failed (s : Step) : bool := match step_failure s with Some _ => true | None => false end.

(** The steps since the last edit. *)
Definition since_edit (steps : list Step) : list Step :=
  drop (match rposition step_edit steps with Some i => S i | None => O end) steps.

Definition failed_after_edit (steps : list Step) (last_ : Step) : option Finding :=
  failure_ ← step_failure last_;
  let before := take (length steps - 1) steps in
  i ← rposition (same_failure_as failure_) before;
  if existsb step_edit (drop (S i) steps)
  then Some (FailedAfterEdit (step_tool last_) (count_by (same_failure_as failure_) steps) (failure_hash failure_) (failure_class failure_))
  else None.

Definition suspect (steps : list Step) (last_ : Step) : option Finding :=
  failure_ ← step_failure last_;
  let stuck := count_by (same_failure_as failure_) (since_edit steps) in
  let recent := count_by is_failed (take RECENT (reverse steps)) in
  if Nat.leb STUCK_FAILURES stuck then Some (Suspect (step_tool last_) stuck true (failure_class failure_))
  else if Nat.leb RECENT_FAILURES recent then Some (Suspect (step_tool last_) recent false (failure_class failure_))
  else None.

Definition detect (steps : list Step) : option Finding :=
  last_ ← last steps;
  if step_polled last_ then None
  else match failed_after_edit steps last_ with
       | Some f => Some f
       | None =>
           let repeats := count_by (fun s => same_outcome s last_) (since_edit steps) in
           if Nat.leb REPEAT_LIMIT repeats && Nat.eqb (repeats mod REPEAT_LIMIT) 0 then Some (Repeat (step_tool last_) repeats (step_call last_))
           else suspect steps last_
       end.

(** * [watch.rs] *)

Definition WINDOW : nat := 16.
Definition AGENTS : nat := 64.

Record History := mkHistory {
  hist_turn : nat;
  hist_steps : list Step;
  seen : nat;
  checked : option nat;
  reminders : nat;
  hist_ask : bool
}.

Definition fresh (turn : nat) : History := mkHistory turn [] 0 None 0 false.

Definition push (s : Step) (h : History) : History :=
  let steps := hist_steps h ++ [s] in
  mkHistory (hist_turn h) (if Nat.ltb WINDOW (length steps) then drop 1 steps else steps) (seen h + 1) (checked h) (reminders h) (hist_ask h).

Definition due (every : nat) (h : History) : bool :=
  match checked h with None => true | Some c => Nat.leb every (seen h - c) end.

Abbreviation LoopWatch := (gmap text History).

(** [LoopWatch::with] *)
Definition with_history {R} (agent : id) (turn : nat) (change : History -> History * R) (w : LoopWatch) : LoopWatch * R :=
  let w := if Nat.leb AGENTS (size w) && bool_decide (w !! agent = None) then ∅ else w in
  let h := default (fresh 0) (w !! agent) in
  let h := if Nat.eqb (hist_turn h) turn then h else fresh turn in
  let '(h, r) := change h in
  (<[agent := h]> w, r).

(** * [guard.rs] *)

Definition DIGEST_STEPS : nat := 8.
Definition CHECK_EVERY : nat := 4.

Definition PROGRESS : text := str "loop_guard_progress".
Definition FAILURE : text := str "loop_guard_failure".
Definition REPEAT : text := str "loop_guard_repeat".
Definition AFTER_EDIT : text := str "loop_guard_failed_after_edit".

Record Look := mkLook { look_steps : list text; look_tool : text; look_target : text; look_error : text }.

Definition look (steps : list Step) : Look :=
  let last_ := last steps in
  mkLook (map step_label (drop (length steps - DIGEST_STEPS) steps))
    (match last_ with Some s => step_tool s | None => [] end)
    (match last_ with Some s => step_target s | None => [] end)
    (match (s ← last_; step_failure s) with Some f => excerpt f | None => [] end).

(** The first section of [after_call]: the step is remembered, and what is
    found is taken on, a suspect finding only when a look is due. *)
Definition note_step (s : Step) (h : History) : History * option (Finding * Look) :=
  let h := push s h in
  match detect (hist_steps h) with
  | None => (h, None)
  | Some f =>
      if is_clear f then (h, Some (f, look (hist_steps h)))
      else if due CHECK_EVERY h then
        (mkHistory (hist_turn h) (hist_steps h) (seen h) (Some (seen h)) (reminders h) (hist_ask h), Some (f, look (hist_steps h)))
      else (h, None)
  end.

Definition observe (agent : id) (turn : nat) (s : Step) (w : LoopWatch) : LoopWatch * option (Finding * Look) :=
  with_history agent turn (note_step s) w.

(** An answer of the decision model; [None] where it abstained. *)
Record Answer := mkAnswer { question : text; answer_yes : option bool; answer_choice : option text }.

Record Confirmed := mkConfirmed { confirmed_class : option FailureClass; confirmed_answers : list Answer }.

(** The questions a finding needs, and the class that is known already. *)
Definition questions (f : Finding) : option (bool * option FailureClass * bool) :=
  match f with
  | Repeat _ _ _ => None
  | FailedAfterEdit _ _ _ class => Some (false, class, bool_decide (class = None))
  | Suspect _ _ same class =>
      let class := if same then class else None in
      Some (true, class, same && bool_decide (class = None))
  end.

(** [confirm]; [ask] answers the questions asked about what was seen. *)
Definition confirm (ask : Look -> list text -> list Answer) (f : Finding) (l : Look) : option Confirmed :=
  match questions f with
  | None => Some (mkConfirmed None [])
  | Some (suspect_, known, classify_) =>
      if negb suspect_ && negb classify_ then Some (mkConfirmed known [])
      else
        let answers := ask l ((if suspect_ then [PROGRESS] else []) ++ (if classify_ then [FAILURE] else [])) in
        let find_ name := List.find (fun a => teqb (question a) name) answers in
        let stuck := negb suspect_ || bool_decide ((a ← find_ PROGRESS; answer_yes a) = Some false) in
        if stuck then
          Some (mkConfirmed (match known with
                             | Some c => Some c
                             | None => a ← find_ FAILURE; key ← answer_choice a; class_parse key
                             end) answers)
        else None
  end.

Definition summary (f : Finding) : text :=
  match f with
  | Repeat tool count _ => tool ++ str " ran " ++ show_N (N.of_nat count) ++ str " times with the same input and result"
  | FailedAfterEdit tool count _ _ => tool ++ str " failed the same way after an edit (" ++ show_N (N.of_nat count) ++ str " times)"
  | Suspect _ count _ _ => str "the last " ++ show_N (N.of_nat count) ++ str " steps made no progress"
  end.

(** The texts of [z-engine-prompts]. *)
Definition LOOP_REPEAT : text := str "You have called {{tool}} with the same input {{count}} times, with the same result each time and nothing changed in between. Calling it again will give the same result. Use what you already have, or try a different approach; if you are stuck, say what is blocking you." ++ [NEWLINE].
Definition LOOP_NO_PROGRESS : text := str "Your last {{count}} steps do not seem to get closer to the goal. Before the next call, state in one or two sentences what you have learned, what you will try now and why it should work. If it would only repeat earlier steps, choose a different approach or ask the user." ++ [NEWLINE].
Definition LOOP_FAILURE_CODE : text := str "{{tool}} failed the same way again after your edit ({{count}} times now): the change did not fix it. Read the error again closely, check that your edit reached the code that fails, and form a new hypothesis before you edit again. Do not repeat the same fix." ++ [NEWLINE].
Definition LOOP_FAILURE_ENVIRONMENT : text := str "{{tool}} keeps failing the same way ({{count}} times now), and the error points at the environment (a missing tool or dependency, a permission, a path or a service), not at the code. Editing code will not fix it. Check the setup instead: is the tool installed, is the path right, is the service running? If you cannot fix it, tell the user what is missing." ++ [NEWLINE].
Definition LOOP_FAILURE_RETRY : text := str "{{tool}} keeps failing the same way ({{count}} times now), and the error looks transient (a timeout, a rate limit, a lock held by another process or a flaky network). Retry at most once more, after a short wait or in the background if it is slow. If it fails again, stop retrying and tell the user." ++ [NEWLINE].

Definition fill (template tool : text) (count : nat) : text :=
  render_template template [(str "tool", tool); (str "count", show_N (N.of_nat count))].

Definition reminder (f : Finding) (class : option FailureClass) : text :=
  let of_class tool count after_edit :=
    fill (match class with
          | Some FEnvironment => LOOP_FAILURE_ENVIRONMENT
          | Some FRetry => LOOP_FAILURE_RETRY
          | _ => if after_edit : bool then LOOP_FAILURE_CODE else LOOP_NO_PROGRESS
          end) tool count in
  match f with
  | Repeat tool count _ => fill LOOP_REPEAT tool count
  | FailedAfterEdit tool count _ _ => of_class tool count true
  | Suspect tool count _ _ => of_class tool count false
  end.

(** The second section: a reminder while the turn has some left, then the ask
    is armed. *)
Definition give (max : nat) (shadow bypass : bool) (h : History) : History * option nat :=
  if Nat.ltb (reminders h) max then
    (mkHistory (hist_turn h) (hist_steps h) (seen h) (checked h) (reminders h + 1) (hist_ask h), Some (reminders h + 1)%nat)
  else
    (mkHistory (hist_turn h) (hist_steps h) (seen h) (checked h) 0 (negb shadow && negb bypass), None).

(** What is traced: a rule or an answer, with what the guard did. *)
Inductive TraceRecord :=
| RuleRecord (question_ : text) (hash_ : N) (outcome : text)
| AnswerRecord (answer : Answer) (outcome : text).

Definition record_ (f : Finding) (c : Confirmed) (outcome : text) : list TraceRecord :=
  match f with
  | Repeat _ _ call_ => [RuleRecord REPEAT call_ outcome]
  | FailedAfterEdit _ _ failure_ _ => [RuleRecord AFTER_EDIT failure_ outcome]
  | Suspect _ _ _ _ => []
  end ++ map (fun a => AnswerRecord a outcome) (confirmed_answers c).

Record Response := mkResponse { notes : list text; guard_notice : option text; traced : list TraceRecord }.

Definition response (max : nat) (shadow bypass : bool) (f : Finding) (c : Confirmed) (given : option nat) : Response :=
  let of_max n := show_N (N.of_nat n) ++ str " of " ++ show_N (N.of_nat max) in
  let '(outcome, notice) :=
    match given, bypass with
    | Some n, _ => (str "reminded (" ++ of_max n ++ str ")", str "Loop guard: " ++ summary f ++ str ". Reminded the agent (" ++ of_max n ++ str ").")
    | None, false => (str "asked the user", str "Loop guard: " ++ summary f ++ str ", still after " ++ show_N (N.of_nat max) ++ str " reminders. Its next call asks you first.")
    | None, true => (str "noticed", str "Loop guard: " ++ summary f ++ str ", still after " ++ show_N (N.of_nat max) ++ str " reminders. Bypass mode does not ask; stop the turn if it keeps going.")
    end in
  mkResponse (match given with Some _ => [reminder f (confirmed_class c)] | None => [] end)
    (if shadow then None else Some notice) (record_ f c outcome).

Definition respond (agent : id) (turn max : nat) (shadow bypass : bool) (f : Finding) (c : Confirmed) (w : LoopWatch) : LoopWatch * Response :=
  let '(w, given) := with_history agent turn (give max shadow bypass) w in (w, response max shadow bypass f c given).

(** [gate]: the reason to ask before the agent's next allowed call. *)
Definition ask_reason (c : ToolCall) : text :=
  str "Loop guard: the agent kept repeating itself after its reminders. Allow lets this " ++ name c
  ++ str " call run; deny it with a note to tell the agent what to do instead.".

Definition take_ask (h : History) : History * bool :=
  (mkHistory (hist_turn h) (hist_steps h) (seen h) (checked h) (reminders h) false, hist_ask h).

Definition guard_gate (agent : id) (turn : nat) (c : ToolCall) (w : LoopWatch) : LoopWatch * option text :=
  let '(w, armed) := with_history agent turn take_ask w in (w, if armed then Some (ask_reason c) else None).

(** [max_reminders], held to its range where it is used. *)
Definition reminders_in_range (max_reminders : nat) : nat := Nat.max 1 (Nat.min 10 max_reminders).

(** [after_call], nothing else happening in between. *)
Definition after_call (agent : id) (turn max : nat) (shadow bypass : bool) (ask : Look -> list text -> list Answer)
    (c : ToolCall) (status_ : ToolStatus) (output : list ToolResultPart) (w : LoopWatch) : LoopWatch * list text :=
  match step c status_ output with
  | None => (w, [])
  | Some s =>
      let '(w, found) := observe agent turn s w in
      match found with
      | None => (w, [])
      | Some (f, l) =>
          match confirm ask f l with
          | None => (w, [])
          | Some confirmed => let '(w, r) := respond agent turn max shadow bypass f confirmed w in (w, notes r)
          end
      end
  end.

(** * Facts: findings *)

Lemma rposition_last_split {A} (p : A -> bool) l i :
  rposition p l = Some i -> exists x, l = take i l ++ x :: drop (S i) l /\ p x = true /\ Forall (fun y => p y = false) (drop (S i) l).
Proof.
  revert i; induction l as [|x l IH]; intros i H; [done|]. cbn [rposition] in H. destruct (rposition p l) as [j|] eqn:E.
  - injection H as <-. destruct (IH j eq_refl) as (y & Hy & Hp & Hf). exists y. cbn. by rewrite <- Hy.
  - destruct (p x) eqn:Ex; [|done]. injection H as <-. exists x. split_and!; [done|done|]. cbn. clear -E.
    induction l as [|y l IH]; [constructor|]. cbn in E. destruct (rposition p l); [done|]. destruct (p y) eqn:Ey; [done|]. constructor; [done|by apply IH].
Qed.

Lemma rposition_absent {A} (p : A -> bool) l : rposition p l = None -> Forall (fun y => p y = false) l.
Proof.
  induction l as [|y l IH]; intros E; [constructor|]. cbn in E. destruct (rposition p l); [done|]. destruct (p y) eqn:Ey; [done|].
  constructor; [done|by apply IH].
Qed.

Lemma since_edit_suffix steps : exists earlier, steps = earlier ++ since_edit steps /\ Forall (fun s => step_edit s = false) (since_edit steps).
Proof.
  unfold since_edit. destruct (rposition step_edit steps) as [i|] eqn:E.
  - destruct (rposition_last_split _ _ _ E) as (x & _ & _ & Hf). exists (take (S i) steps). by rewrite take_drop.
  - exists []. split; [done|]. by apply rposition_absent.
Qed.

(** What a finding says of the steps of a turn, the newest last. *)
Definition true_of (steps : list Step) (f : Finding) : Prop :=
  exists earlier newest, steps = earlier ++ [newest] /\ step_polled newest = false
  /\ match f with
     | Repeat tool count_ call_ =>
         (* run [count_] times with this result, and no edit in between *)
         tool = step_tool newest /\ call_ = step_call newest /\ (3 <= count_)%nat
         /\ exists before since, steps = before ++ since /\ Forall (fun s => step_edit s = false) since
            /\ count_by (fun s => same_outcome s newest) since = count_
     | FailedAfterEdit tool count_ failure_ class =>
         (* failed this way before, and an edit since *)
         tool = step_tool newest
         /\ exists f, step_failure newest = Some f /\ failure_hash f = failure_ /\ failure_class f = class
            /\ (2 <= count_)%nat /\ (count_ <= count_by (same_failure_as f) steps)%nat
            /\ exists before old between, steps = before ++ old :: between ++ [newest] /\ same_failure_as f old = true
               /\ existsb step_edit between = true
     | Suspect tool count_ same class =>
         (* failed this way three times with no edit in between, or failed in four of the last six steps *)
         tool = step_tool newest
         /\ exists f before since, step_failure newest = Some f /\ failure_class f = class /\ steps = before ++ since
            /\ if same then (3 <= count_)%nat /\ Forall (fun s => step_edit s = false) since /\ count_by (same_failure_as f) since = count_
               else (4 <= count_)%nat /\ (length since <= 6)%nat /\ count_by is_failed since = count_
     end.

Lemma count_by_app {A} (p : A -> bool) a b : count_by p (a ++ b) = (count_by p a + count_by p b)%nat.
Proof. unfold count_by. by rewrite List.filter_app, length_app. Qed.

Lemma count_by_cons {A} (p : A -> bool) x l : count_by p (x :: l) = ((if p x then 1 else 0) + count_by p l)%nat.
Proof. unfold count_by. cbn [List.filter]. by destruct (p x). Qed.

Lemma count_by_reverse {A} (p : A -> bool) l : count_by p (reverse l) = count_by p l.
Proof.
  induction l as [|x l IH]; [done|]. rewrite reverse_cons, count_by_app, IH, !count_by_cons. unfold count_by at 2. cbn. lia.
Qed.

(** A finding on the window is true of the turn the window ends. *)
Lemma true_of_suffix steps gone f : true_of steps f -> true_of (gone ++ steps) f.
Proof.
  intros (earlier & newest & -> & Hp & H). exists (gone ++ earlier), newest. rewrite app_assoc. split; [done|]. split; [done|]. rewrite <- app_assoc. destruct f.
  - destruct H as (Ht & Hc & Hn & before & since & E & Hs & Hcount). split_and!; [done|done|done|]. exists (gone ++ before), since. by rewrite E, app_assoc.
  - destruct H as (Ht & f & Hf & Hh & Hcl & H2 & Hle & before & old & between & E & Ho & He). split; [done|]. exists f. split_and!; try done.
    + rewrite count_by_app. lia.
    + exists (gone ++ before), old, between. by rewrite E, <- app_assoc.
  - destruct H as (Ht & f & before & since & Hf & Hc & E & H). split; [done|]. exists f, (gone ++ before), since. split_and!; [done|done| |done]. by rewrite E, app_assoc.
Qed.

Lemma same_failure_refl f s : step_failure s = Some f -> same_failure_as f s = true.
Proof. intros H. unfold same_failure_as. rewrite H. apply N.eqb_refl. Qed.

(** A call that failed edited nothing. *)
Definition step_ok (s : Step) : Prop := is_failed s = true -> step_edit s = false.

Lemma step_ok_step c status_ output s : step c status_ output = Some s -> step_ok s.
Proof.
  unfold step. destruct (bool_decide _); [done|]. intros [= <-]. unfold step_ok, is_failed. cbn [step_failure step_edit].
  by destruct (negb (bool_decide (status_ = SOk))).
Qed.

Lemma failed_after_edit_true earlier newest f :
  step_ok newest -> step_polled newest = false -> failed_after_edit (earlier ++ [newest]) newest = Some f -> true_of (earlier ++ [newest]) f.
Proof.
  intros Hok Hp Ea. exists earlier, newest. split; [done|]. split; [done|].
  unfold failed_after_edit in Ea. destruct (step_failure newest) as [fl|] eqn:Ef; [|done]. cbn [mbind option_bind] in Ea.
  rewrite length_app in Ea. cbn [length] in Ea. replace (length earlier + 1 - 1)%nat with (length earlier) in Ea by lia. rewrite take_app_length in Ea.
  destruct (rposition _ earlier) as [i|] eqn:Ei; [|done]. cbn [mbind option_bind] in Ea. destruct (existsb step_edit _) eqn:Ee; [|done]. injection Ea as <-.
  destruct (rposition_last_split _ _ _ Ei) as (old & Hs & Hold & _). split; [done|]. exists fl. split_and!; try done.
  - rewrite Hs, !count_by_app, !count_by_cons, Hold, (same_failure_refl fl newest Ef). lia.
  - exists (take i earlier), old, (drop (S i) earlier). split; [rewrite Hs at 1; by rewrite <- app_assoc|]. split; [done|].
    assert (Hi : (S i <= length earlier)%nat).
    { apply (f_equal length) in Hs. rewrite length_app, length_take in Hs. cbn [length] in Hs. rewrite length_drop in Hs. lia. }
    rewrite drop_app_le in Ee by done. rewrite existsb_app in Ee. cbn [existsb] in Ee. rewrite orb_false_r in Ee. apply orb_prop in Ee as [Ee|Ee]; [done|].
    unfold step_ok, is_failed in Hok. rewrite Ef in Hok. by rewrite Hok in Ee.
Qed.

Lemma suspect_true earlier newest f :
  step_polled newest = false -> suspect (earlier ++ [newest]) newest = Some f -> true_of (earlier ++ [newest]) f.
Proof.
  intros Hp Ha. exists earlier, newest. split; [done|]. split; [done|]. unfold suspect in Ha.
  destruct (step_failure newest) as [fl|] eqn:Ef; [|done]. cbn [mbind option_bind] in Ha.
  destruct (Nat.leb_spec STUCK_FAILURES (count_by (same_failure_as fl) (since_edit (earlier ++ [newest])))) as [H3|_].
  - injection Ha as <-. split; [done|]. destruct (since_edit_suffix (earlier ++ [newest])) as (before & E & Hs).
    exists fl, before, (since_edit (earlier ++ [newest])). by split_and!.
  - destruct (Nat.leb_spec RECENT_FAILURES (count_by is_failed (take RECENT (reverse (earlier ++ [newest]))))) as [H4|_]; [|done].
    injection Ha as <-. split; [done|]. exists fl. set (steps := earlier ++ [newest]) in *.
    exists (reverse (drop RECENT (reverse steps))), (reverse (take RECENT (reverse steps))). split_and!; try done.
    + by rewrite <- reverse_app, take_drop, reverse_involutive.
    + rewrite length_reverse, length_take. unfold RECENT. lia.
    + apply count_by_reverse.
Qed.

Lemma detect_true steps f : Forall step_ok steps -> detect steps = Some f -> true_of steps f.
Proof.
  intros Hok. unfold detect. destruct (last steps) as [newest|] eqn:El; [|done]. cbn [mbind option_bind]. apply last_Some in El as [earlier ->].
  destruct (step_polled newest) eqn:Ep; [done|]. rewrite Forall_app, Forall_singleton in Hok. destruct Hok as [_ Hok].
  destruct (failed_after_edit _ _) as [g|] eqn:Ea; [intros [= <-]; by apply failed_after_edit_true|].
  destruct (_ && _) eqn:Er; [|by apply suspect_true]. intros [= <-]. apply andb_prop in Er as [Er _]. apply Nat.leb_le in Er.
  exists earlier, newest. split; [done|]. split; [done|]. split_and!; [done|done|done|].
  destruct (since_edit_suffix (earlier ++ [newest])) as (before & E & Hs). by exists before, (since_edit (earlier ++ [newest])).
Qed.

(** * Facts: sections in any order *)

(** What the tasks of the agents do to the watch: the two sections of
    [after_call], between which anything may happen, and the gate. *)
Inductive GuardSection :=
| NoteCall (agent : id) (turn : nat) (c : ToolCall) (status_ : ToolStatus) (output : list ToolResultPart)
| Respond (agent : id) (turn : nat) (shadow bypass : bool) (f : Finding) (c : Confirmed)
| AskGate (agent : id) (turn : nat) (c : ToolCall).

Inductive GuardOutput := Found (found : option (Finding * Look)) | Responded (r : Response) | Asked (reason : option text).

Definition run_section (max : nat) (x : GuardSection) (w : LoopWatch) : LoopWatch * GuardOutput :=
  match x with
  | NoteCall agent turn c status_ output =>
      match step c status_ output with
      | None => (w, Found None)
      | Some s => let '(w, found) := observe agent turn s w in (w, Found found)
      end
  | Respond agent turn shadow bypass f c => let '(w, r) := respond agent turn max shadow bypass f c w in (w, Responded r)
  | AskGate agent turn c => let '(w, reason) := guard_gate agent turn c w in (w, Asked reason)
  end.

Fixpoint run_guard (max : nat) (xs : list GuardSection) (w : LoopWatch) : LoopWatch * list GuardOutput :=
  match xs with
  | [] => (w, [])
  | x :: xs => let '(w, o) := run_section max x w in let '(w, os) := run_guard max xs w in (w, o :: os)
  end.

(** The steps an agent took in a turn. *)
Definition turn_steps (agent : id) (turn : nat) (xs : list GuardSection) : list Step :=
  omap (fun x => match x with
                 | NoteCall a t c status_ output => if teqb a agent && Nat.eqb t turn then step c status_ output else None
                 | _ => None
                 end) xs.

Lemma turn_steps_snoc agent turn xs x : turn_steps agent turn (xs ++ [x]) = turn_steps agent turn xs ++ turn_steps agent turn [x].
Proof. apply omap_app. Qed.

Lemma with_history_spec {R} agent turn (change : History -> History * R) w :
  exists h, hist_turn h = turn /\ (w !! agent = Some h \/ h = fresh turn)
    /\ fst (with_history agent turn change w) !! agent = Some (fst (change h)) /\ snd (with_history agent turn change w) = snd (change h)
    /\ forall b, b <> agent -> fst (with_history agent turn change w) !! b = w !! b \/ fst (with_history agent turn change w) !! b = None.
Proof.
  unfold with_history. set (w0 := if _ && _ then ∅ else w).
  assert (Hw : forall b, w0 !! b = w !! b \/ w0 !! b = None) by (intros b; unfold w0; destruct (_ && _); [right; apply lookup_empty|by left]).
  set (h0 := default (fresh 0) (w0 !! agent)). exists (if Nat.eqb (hist_turn h0) turn then h0 else fresh turn).
  assert (Hh : w !! agent = Some h0 \/ h0 = fresh 0).
  { unfold h0. destruct (w0 !! agent) as [h|] eqn:E; [|by right]. left. destruct (Hw agent) as [Ha|Ha]; (cbn; congruence). }
  split_and!.
  - destruct (Nat.eqb_spec (hist_turn h0) turn) as [E|E]; done.
  - destruct (Nat.eqb_spec (hist_turn h0) turn) as [E|E]; [|by right]. destruct Hh as [Hh|Hh]; [by left|]. right. rewrite Hh in E |- *. by cbn in E; subst turn.
  - destruct (change _) as [h r]. apply lookup_insert_eq.
  - by destruct (change _) as [h r].
  - intros b Hb. destruct (change _) as [h r]. cbn [fst]. pose proof (lookup_insert_ne w0 agent b h (not_eq_sym Hb)) as Hi.
    destruct (Hw b) as [E|E]; [left|right]; (etrans; [exact Hi|exact E]).
Qed.

Lemma with_history_size {R} agent turn (change : History -> History * R) w :
  (size w <= AGENTS)%nat -> (size (fst (with_history agent turn change w)) <= AGENTS)%nat.
Proof.
  intros Hw. unfold with_history. set (w0 := if _ && _ then ∅ else w).
  assert (H : (size w0 < AGENTS)%nat \/ ((size w0 <= AGENTS)%nat /\ is_Some (w0 !! agent))).
  { unfold w0. destruct (Nat.leb_spec AGENTS (size w)) as [H|H]; cbn [andb]; [|left; lia].
    destruct (bool_decide_reflect (w !! agent = None)) as [E|E].
    - left. rewrite map_size_empty. unfold AGENTS. lia.
    - right. split; [done|]. destruct (w !! agent); [by eexists|done]. }
  destruct (change _) as [h r]. cbn [fst]. destruct (w0 !! agent) as [h1|] eqn:E.
  - rewrite map_size_insert_Some by eauto. destruct H as [H|[H _]]; lia.
  - rewrite map_size_insert_None by done. destruct H as [H|[_ [? ?]]]; [lia|done].
Qed.

(** The invariant of a history: the window ends the steps of its turn, and
    the counters stay within their bounds. *)
Definition history_ok (max : nat) (past : list GuardSection) (agent : id) (h : History) : Prop :=
  Forall step_ok (hist_steps h)
  /\ (exists gone, turn_steps agent (hist_turn h) past = gone ++ hist_steps h)
  /\ (length (hist_steps h) <= WINDOW)%nat /\ (length (hist_steps h) <= seen h)%nat
  /\ (default 0 (checked h) <= seen h)%nat /\ (reminders h <= max)%nat.

Definition watch_ok (max : nat) (past : list GuardSection) (w : LoopWatch) : Prop :=
  (size w <= AGENTS)%nat /\ forall agent h, w !! agent = Some h -> history_ok max past agent h.

Lemma fresh_ok max past agent turn : history_ok max past agent (fresh turn).
Proof. split_and!; cbn; try lia; [constructor|]. eexists. by rewrite app_nil_r. Qed.

Lemma drop_one_suffix {A} (l : list A) : exists gone, l = gone ++ drop 1 l.
Proof. exists (take 1 l). by rewrite take_drop. Qed.

Lemma note_step_ok max past agent h c status_ output s :
  step c status_ output = Some s -> history_ok max past agent h ->
  history_ok max (past ++ [NoteCall agent (hist_turn h) c status_ output]) agent (fst (note_step s h))
  /\ forall f l, snd (note_step s h) = Some (f, l) -> true_of (turn_steps agent (hist_turn h) (past ++ [NoteCall agent (hist_turn h) c status_ output])) f.
Proof.
  intros Hs (Hok & (gone & Hg) & Hw & Hl & Hc & Hr).
  assert (Hts : turn_steps agent (hist_turn h) (past ++ [NoteCall agent (hist_turn h) c status_ output]) = gone ++ (hist_steps h ++ [s])).
  { rewrite turn_steps_snoc, Hg. cbn. rewrite teqb_refl, Nat.eqb_refl, Hs. cbn. by rewrite app_assoc. }
  assert (Hp : history_ok max (past ++ [NoteCall agent (hist_turn h) c status_ output]) agent (push s h)).
  { assert (Hall : Forall step_ok (hist_steps h ++ [s])) by (apply Forall_app; split; [done|]; constructor; [by eapply step_ok_step|done]).
    unfold push, history_ok. cbn [hist_turn hist_steps seen checked reminders]. rewrite Hts.
    destruct (Nat.ltb_spec WINDOW (length (hist_steps h ++ [s]))) as [Hlt|Hge]; rewrite length_app in *; cbn [length] in *.
    - destruct (drop_one_suffix (hist_steps h ++ [s])) as [x Hx]. split_and!; try lia.
      + by apply Forall_drop.
      + exists (gone ++ x). rewrite <- app_assoc. by rewrite Hx at 1.
      + rewrite length_drop, length_app. cbn [length]. lia.
      + rewrite length_drop, length_app. cbn [length]. lia.
    - split_and!; try done; try lia. by exists gone. }
  unfold note_step. destruct (detect (hist_steps (push s h))) as [f|] eqn:Ed; [|by split].
  assert (Ht : true_of (turn_steps agent (hist_turn h) (past ++ [NoteCall agent (hist_turn h) c status_ output])) f).
  { destruct Hp as (Hall & [gone' Hg'] & _). change (hist_turn (push s h)) with (hist_turn h) in Hg'. rewrite Hg'.
    apply true_of_suffix. by apply detect_true. }
  destruct (is_clear f); [split; [exact Hp|]; by intros ? ? [= <- <-]|].
  destruct (due _ _); [|by split]. split; [|by intros ? ? [= <- <-]].
  destruct Hp as (Hp1 & Hp2 & Hp3 & Hp4 & Hp5 & Hp6). split_and!; done.
Qed.

Lemma history_ok_more max past x agent h :
  turn_steps agent (hist_turn h) [x] = [] -> history_ok max past agent h -> history_ok max (past ++ [x]) agent h.
Proof. intros Hx (H1 & [gone H2] & H3). split; [done|]. split; [|done]. exists gone. by rewrite turn_steps_snoc, Hx, app_nil_r. Qed.

Lemma run_section_ok max past x w :
  watch_ok max past w ->
  watch_ok max (past ++ [x]) (fst (run_section max x w))
  /\ match x, snd (run_section max x w) with
     | NoteCall agent turn _ _ _, Found (Some (f, _)) => true_of (turn_steps agent turn (past ++ [x])) f
     | _, _ => True
     end.
Proof.
  intros [Hsize Hw].
  assert (Hchange : forall {R} agent turn (change : History -> History * R),
    (forall h, hist_turn h = turn -> history_ok max past agent h -> history_ok max (past ++ [x]) agent (fst (change h))) ->
    (forall b t, b <> agent -> turn_steps b t [x] = []) ->
    watch_ok max (past ++ [x]) (fst (with_history agent turn change w))).
  { intros R agent turn change Hch Hx. split; [by apply with_history_size|]. intros b h Hb.
    destruct (with_history_spec agent turn change w) as (h0 & Ht & Hh & Ha & _ & Hother).
    destruct (base.decide (b = agent)) as [->|Hne].
    - rewrite Ha in Hb. injection Hb as <-. apply Hch; [done|]. destruct Hh as [Hh| ->]; [by apply Hw|apply fresh_ok].
    - apply history_ok_more; [by apply Hx|]. apply Hw. destruct (Hother b Hne); congruence. }
  destruct x as [agent turn c status_ output|agent turn shadow bypass f c|agent turn c]; cbn [run_section].
  - destruct (step c status_ output) as [s|] eqn:Es.
    + assert (Hx : forall b t, b <> agent -> turn_steps b t [NoteCall agent turn c status_ output] = []).
      { intros b t Hne. cbn. destruct (teqb agent b) eqn:E; [apply teqb_eq in E; congruence|done]. }
      specialize (Hchange _ agent turn (note_step s)). unfold observe.
      assert (Hok : watch_ok max (past ++ [NoteCall agent turn c status_ output]) (fst (with_history agent turn (note_step s) w))).
      { apply Hchange; [|done]. intros h <- Hh. by apply (note_step_ok max past agent h c status_ output s Es Hh). }
      destruct (with_history_spec agent turn (note_step s) w) as (h & Ht & Hh & _ & Hr & _).
      destruct (with_history agent turn (note_step s) w) as [w' found]. cbn [fst snd] in *. split; [done|]. destruct found as [[f l]|]; [|done].
      assert (Hhok : history_ok max past agent h) by (destruct Hh as [Hh| ->]; [by apply Hw|apply fresh_ok]). subst turn.
      by apply (proj2 (note_step_ok max past agent h c status_ output s Es Hhok) f l).
    + split; [|done]. split; [done|]. intros b h Hb. apply history_ok_more; [|by apply Hw]. cbn. rewrite Es. by destruct (_ && _).
  - unfold respond. pose proof (Hchange _ agent turn (give max shadow bypass)) as H. destruct (with_history _ _ _ w) as [w' given] eqn:E. cbn [fst snd] in *.
    split; [|done]. apply H; [|done]. intros h _ Hh. apply (history_ok_more _ _ (Respond agent turn shadow bypass f c)) in Hh; [|done].
    destruct Hh as (H1 & H2 & H3 & H4 & H5 & H6). unfold give. destruct (Nat.ltb_spec (reminders h) max); split_and!; cbn; try done; lia.
  - unfold guard_gate. pose proof (Hchange _ agent turn take_ask) as H. destruct (with_history _ _ _ w) as [w' armed] eqn:E. cbn [fst snd] in *.
    split; [|done]. apply H; [|done]. intros h _ Hh. apply (history_ok_more _ _ (AskGate agent turn c)) in Hh; [|done]. exact Hh.
Qed.

Lemma run_guard_ok max past xs w : watch_ok max past w -> watch_ok max (past ++ xs) (fst (run_guard max xs w)).
Proof.
  revert past w; induction xs as [|x xs IH]; intros past w H; [by rewrite app_nil_r|]. cbn [run_guard].
  pose proof (proj1 (run_section_ok max past x w H)) as H1. destruct (run_section max x w) as [w1 o]. cbn [fst] in H1.
  specialize (IH _ _ H1). rewrite <- app_assoc in IH. cbn [app] in IH. by destruct (run_guard max xs w1).
Qed.

Lemma watch_ok_empty max : watch_ok max [] ∅.
Proof. split; [apply Nat.le_0_l|]. intros a h. by rewrite lookup_empty. Qed.

(** What the loop guard tells an agent is true, and its memory is bounded.
    In every interleaving of the agents' calls, gates and responses, a finding
    about a call is true of all the steps the agent took in the turn: it
    repeated the call that often with the same result and no edit in between,
    or it failed the same way before and after an edit, or its newest steps
    failed; and at most 64 agents with 16 steps each are kept, no counter being
    taken below zero. *)
Theorem findings_true (max : nat) (past : list GuardSection) (agent : id) (turn : nat) (c : ToolCall) (status_ : ToolStatus) (output : list ToolResultPart) :
  let w := fst (run_guard max past ∅) in
  watch_ok max past w
  /\ match snd (run_section max (NoteCall agent turn c status_ output) w) with
     | Found (Some (f, _)) => true_of (turn_steps agent turn (past ++ [NoteCall agent turn c status_ output])) f
     | _ => True
     end.
Proof.
  intros w. assert (H : watch_ok max past w) by apply (run_guard_ok max [] past ∅ (watch_ok_empty max)). split; [exact H|].
  exact (proj2 (run_section_ok max past (NoteCall agent turn c status_ output) w H)).
Qed.

(** ** The rhythm of reminders and asks *)

Definition section_agent (x : GuardSection) : id :=
  match x with NoteCall a _ _ _ _ => a | Respond a _ _ _ _ _ => a | AskGate a _ _ => a end.
Definition section_turn (x : GuardSection) : nat :=
  match x with NoteCall _ t _ _ _ => t | Respond _ t _ _ _ _ => t | AskGate _ t _ => t end.

(** What an agent should get in a turn: after each [max] reminders one
    response that asks instead, once, by the next gate.  [n] responses were
    given before, [armed] says whether the next gate asks. *)
Fixpoint expected (max n : nat) (armed : bool) (xs : list GuardSection) : list (option (Response + option text)) :=
  match xs with
  | [] => []
  | NoteCall _ _ _ _ _ :: xs => None :: expected max n armed xs
  | Respond _ _ shadow bypass f c :: xs =>
      let k := (n mod S max)%nat in
      if Nat.ltb k max then Some (inl (response max shadow bypass f c (Some (k + 1)%nat))) :: expected max (S n) armed xs
      else Some (inl (response max shadow bypass f c None)) :: expected max (S n) (negb shadow && negb bypass) xs
  | AskGate _ _ c :: xs => Some (inr (if armed then Some (ask_reason c) else None)) :: expected max n false xs
  end.

Definition answered (o : GuardOutput) : option (Response + option text) :=
  match o with Found _ => None | Responded r => Some (inl r) | Asked reason => Some (inr reason) end.

(** The outputs of an agent's own sections. *)
Definition outputs_of (agent : id) (xs : list GuardSection) (os : list GuardOutput) : list (option (Response + option text)) :=
  omap (fun xo : GuardSection * GuardOutput => if teqb (section_agent (fst xo)) agent then Some (answered (snd xo)) else None) (combine xs os).

Definition sections_of (agent : id) (xs : list GuardSection) : list GuardSection := List.filter (fun x => teqb (section_agent x) agent) xs.

(** The history an agent has when its next section of [turn] starts. *)
Definition history_in (turn : nat) (o : option History) : History :=
  let h := default (fresh 0) o in if Nat.eqb (hist_turn h) turn then h else fresh turn.

Lemma with_history_exact {R} (agent : id) (turn : nat) (change : History -> History * R) (w : LoopWatch) (X : gset text) :
  dom w ⊆ X -> agent ∈ X -> (size X <= AGENTS)%nat ->
  with_history agent turn change w
  = (<[agent := fst (change (history_in turn (w !! agent)))]> w, snd (change (history_in turn (w !! agent)))).
Proof.
  intros Hw Ha HX. unfold with_history. replace (Nat.leb AGENTS (size w) && bool_decide (w !! agent = None)) with false.
  { fold (history_in turn (w !! agent)). by destruct (change (history_in turn (w !! agent))). }
  symmetry. apply not_true_is_false. intros [Hs Hn]%andb_prop. apply Nat.leb_le in Hs. apply bool_decide_eq_true in Hn.
  assert (dom w ⊂ X) as Hlt%subset_size.
  { split; [done|]. intros Hsub. apply Hsub, elem_of_dom in Ha. rewrite Hn in Ha. by destruct Ha. }
  rewrite size_dom in Hlt. lia.
Qed.

(** The part of a history the rhythm depends on. *)
Definition in_rhythm (max n : nat) (armed : bool) (h : History) : Prop := reminders h = (n mod S max)%nat /\ hist_ask h = armed.

Lemma history_in_turn turn o : hist_turn (history_in turn o) = turn.
Proof. unfold history_in. destruct (Nat.eqb_spec (hist_turn (default (fresh 0) o)) turn); done. Qed.

Lemma history_in_same turn h : hist_turn h = turn -> history_in turn (Some h) = h.
Proof. intros <-. unfold history_in. cbn. by rewrite Nat.eqb_refl. Qed.

Lemma note_step_rhythm max n armed s h : in_rhythm max n armed h -> in_rhythm max n armed (fst (note_step s h)).
Proof. intros [H1 H2]. unfold note_step. destruct (detect _) as [f|]; [|done]. destruct (is_clear f); [done|]. by destruct (due _ _). Qed.

Lemma note_step_turn s h : hist_turn (fst (note_step s h)) = hist_turn h.
Proof. unfold note_step. destruct (detect _) as [f|]; [|done]. destruct (is_clear f); [done|]. by destruct (due _ _). Qed.

Lemma mod_step n max : (n mod S max < max)%nat -> (S n mod S max = n mod S max + 1)%nat.
Proof.
  intros H. pose proof (Nat.div_mod_eq n (S max)). symmetry. apply (Nat.mod_unique _ _ (n / S max)); lia.
Qed.

Lemma mod_wrap n max : ~ (n mod S max < max)%nat -> (S n mod S max = 0)%nat.
Proof.
  intros H. pose proof (Nat.mod_upper_bound n (S max) ltac:(lia)). pose proof (Nat.div_mod_eq n (S max)).
  symmetry. apply (Nat.mod_unique _ _ (S (n / S max))); lia.
Qed.

Lemma run_section_rhythm (max n : nat) (armed : bool) (x : GuardSection) (w : LoopWatch) (X : gset text) (agent : id) (turn : nat) :
  dom w ⊆ X -> section_agent x ∈ X -> (size X <= AGENTS)%nat ->
  (section_agent x = agent -> section_turn x = turn) -> in_rhythm max n armed (history_in turn (w !! agent)) ->
  let '(w', o) := run_section max x w in
  dom w' ⊆ X
  /\ if teqb (section_agent x) agent then
       exists n' armed', in_rhythm max n' armed' (history_in turn (w' !! agent))
         /\ forall xs, expected max n armed (x :: xs) = answered o :: expected max n' armed' xs
     else w' !! agent = w !! agent.
Proof.
  intros Hw Ha HX Ht Hr. assert (Hdom : forall h, dom (<[section_agent x := h]> w : LoopWatch) ⊆ X).
  { intros h. rewrite dom_insert_L. set_solver. }
  assert (Hne : teqb (section_agent x) agent = false -> forall h, (<[section_agent x := h]> w : LoopWatch) !! agent = w !! agent).
  { intros E h. apply lookup_insert_ne. intros E'. subst agent. by rewrite teqb_refl in E. }
  destruct x as [a t c status_ output|a t shadow bypass f c|a t c]; cbn [section_agent section_turn run_section] in *.
  - destruct (step c status_ output) as [s|].
    + unfold observe. rewrite (with_history_exact a t (note_step s) w X Hw Ha HX). split; [apply Hdom|].
      destruct (teqb a agent) eqn:E; [|by apply Hne]. apply teqb_eq in E. subst agent. rewrite (Ht eq_refl) in *. exists n, armed. split; [|done].
      rewrite lookup_insert_eq, history_in_same by (rewrite note_step_turn; apply history_in_turn). by apply note_step_rhythm.
    + split; [done|]. destruct (teqb a agent) eqn:E; [|done]. exists n, armed. by split.
  - unfold respond. rewrite (with_history_exact a t (give max shadow bypass) w X Hw Ha HX). split; [apply Hdom|].
    destruct (teqb a agent) eqn:E; [|by apply Hne]. apply teqb_eq in E. subst agent. rewrite (Ht eq_refl) in *.
    set (h := history_in turn (w !! a)) in *. destruct Hr as [Hr1 Hr2]. assert (Hturn : hist_turn h = turn) by apply history_in_turn.
    cbn [expected]. rewrite lookup_insert_eq. unfold give. rewrite Hr1. destruct (Nat.ltb_spec (n mod S max) max) as [Hlt|Hge]; cbn [fst snd].
    + exists (S n), armed. split; [|done]. rewrite history_in_same by done. split; [|done]. cbn [reminders]. by rewrite mod_step.
    + exists (S n), (negb shadow && negb bypass). split; [|done]. rewrite history_in_same by done. split; [|done]. cbn [reminders]. rewrite mod_wrap by lia. done.
  - unfold guard_gate. rewrite (with_history_exact a t take_ask w X Hw Ha HX). split; [apply Hdom|].
    destruct (teqb a agent) eqn:E; [|by apply Hne]. apply teqb_eq in E. subst agent. rewrite (Ht eq_refl) in *.
    destruct Hr as [Hr1 Hr2]. exists n, false. rewrite lookup_insert_eq, history_in_same by apply history_in_turn. split; [by split|].
    intros xs. cbn [expected answered take_ask snd]. by rewrite Hr2.
Qed.

Lemma run_guard_rhythm (max : nat) (xs : list GuardSection) (n : nat) (armed : bool) (w : LoopWatch) (X : gset text) (agent : id) (turn : nat) :
  dom w ⊆ X -> Forall (fun x => section_agent x ∈ X) xs -> (size X <= AGENTS)%nat ->
  Forall (fun x => section_agent x = agent -> section_turn x = turn) xs -> in_rhythm max n armed (history_in turn (w !! agent)) ->
  outputs_of agent xs (snd (run_guard max xs w)) = expected max n armed (sections_of agent xs).
Proof.
  intros Hw Hx HX Ht Hr. revert n armed w Hw Hr. induction Hx as [|x xs Ha Hx IH]; intros n armed w Hw Hr; [done|]. inversion Ht as [|? ? Ht1 Ht2]; subst.
  pose proof (run_section_rhythm max n armed x w X agent turn Hw Ha HX Ht1 Hr) as H1. cbn [run_guard]. destruct (run_section max x w) as [w1 o].
  destruct H1 as [Hw1 H1]. specialize (IH Ht2). unfold sections_of. cbn [List.filter]. destruct (teqb (section_agent x) agent) eqn:E.
  - destruct H1 as (n' & armed' & Hr1 & He). rewrite He. specialize (IH n' armed' w1 Hw1 Hr1). unfold sections_of in IH. rewrite <- IH.
    destruct (run_guard max xs w1) as [w2 os]. unfold outputs_of. cbn [snd combine omap list_omap fst]. by rewrite E.
  - rewrite <- H1 in Hr. specialize (IH n armed w1 Hw1 Hr). unfold sections_of in IH. rewrite <- IH.
    destruct (run_guard max xs w1) as [w2 os]. unfold outputs_of. cbn [snd combine omap list_omap fst]. by rewrite E.
Qed.

(** C26: the loop guard keeps its rhythm for each agent.  However the calls,
    responses and gates of up to 64 agents interleave, in a new turn of an
    agent its responses are [max] reminders, numbered from one, then one that
    arms the ask (never in shadow or bypass mode), and again from the start;
    the agent's next gate asks exactly when the ask is armed, once. *)
Theorem guard_keeps_rhythm (max : nat) (xs : list GuardSection) (w : LoopWatch) (X : gset text) (agent : id) (turn : nat) :
  dom w ⊆ X -> Forall (fun x => section_agent x ∈ X) xs -> (size X <= AGENTS)%nat ->
  (forall h, w !! agent = Some h -> hist_turn h <> turn) ->
  Forall (fun x => section_agent x = agent -> section_turn x = turn) xs ->
  outputs_of agent xs (snd (run_guard max xs w)) = expected max 0 false (sections_of agent xs).
Proof.
  intros Hw Hx HX Hnew Ht. apply (run_guard_rhythm max xs 0 false w X agent turn); try done.
  assert (E : history_in turn (w !! agent) = fresh turn).
  { unfold history_in. destruct (w !! agent) as [h|] eqn:E; cbn; [by rewrite (proj2 (Nat.eqb_neq _ _) (Hnew h eq_refl))|].
    destruct turn as [|turn]; done. }
  rewrite E. split; [symmetry; apply Nat.Div0.mod_0_l|done].
Qed.

(** ** A call repeated for good *)

(** The window after [n] times the same step. *)
Lemma push_repeat s n h :
  hist_steps h = repeat s (Nat.min n WINDOW) -> hist_steps (push s h) = repeat s (Nat.min (S n) WINDOW).
Proof.
  intros H. unfold push. cbn [hist_steps]. rewrite H, length_app, repeat_length. cbn [length]. change [s] with (repeat s 1). rewrite <- repeat_app.
  destruct (Nat.ltb_spec WINDOW (Nat.min n WINDOW + 1)).
  - rewrite Nat.add_1_r. change (repeat s (Nat.min n WINDOW) = repeat s (Nat.min (S n) WINDOW)). f_equal. lia.
  - f_equal. lia.
Qed.

Definition plain_step (s : Step) : Prop := step_failure s = None /\ step_edit s = false /\ step_polled s = false.

Lemma count_repeat {A} (p : A -> bool) x n : p x = true -> count_by p (repeat x n) = n.
Proof. intros H. induction n as [|n IH]; [done|]. cbn [repeat]. by rewrite count_by_cons, H, IH. Qed.

Lemma since_edit_repeat s n : step_edit s = false -> since_edit (repeat s n) = repeat s n.
Proof.
  intros H. unfold since_edit. replace (rposition step_edit (repeat s n)) with (None (A := nat)); [by rewrite drop_0|].
  induction n as [|n IH]; [done|]. cbn. by rewrite <- IH, H.
Qed.

Lemma last_repeat {A} (x : A) n : last (repeat x (S n)) = Some x.
Proof. induction n as [|n IH]; [done|]. cbn [repeat] in *. by rewrite last_cons_cons. Qed.

Lemma detect_repeat s n : plain_step s ->
  detect (repeat s n) = if Nat.leb 3 n && Nat.eqb (n mod 3) 0 then Some (Repeat (step_tool s) n (step_call s)) else None.
Proof.
  intros (Hf & He & Hp). destruct n as [|n]; [done|]. unfold detect. rewrite last_repeat. cbn [mbind option_bind]. rewrite Hp.
  unfold failed_after_edit, suspect. rewrite Hf. cbn [mbind option_bind]. rewrite since_edit_repeat by done.
  rewrite count_repeat by (unfold same_outcome; by rewrite !N.eqb_refl). done.
Qed.

(** Where the guard does not do what it means to: a call with the same result
    is reported at its third repetition and at each multiple of three, but only
    up to the fifteenth.  The window keeps sixteen steps, and from then on the
    count stays sixteen: however often an agent repeats the call after that in
    the turn, nothing is found, nobody is reminded and the user is not asked. *)
Lemma repeats_fall_silent s h n :
  plain_step s -> hist_steps h = [] ->
  let after k := Nat.iter k (fun h => fst (note_step s h)) h in
  option_map fst (snd (note_step s (after n)))
  = if Nat.ltb n 15 && Nat.eqb (S n mod 3) 0 then Some (Repeat (step_tool s) (S n) (step_call s)) else None.
Proof.
  intros Hs Hh after. assert (Hn : forall k, hist_steps (after k) = repeat s (Nat.min k WINDOW)).
  { induction k as [|k IH]; [exact Hh|]. change (after (S k)) with (fst (note_step s (after k))). rewrite <- (push_repeat s k (after k) IH).
    unfold note_step. destruct (detect _) as [f|]; [|done]. destruct (is_clear f); [done|]. by destruct (due _ _). }
  specialize (Hn n). apply push_repeat in Hn. unfold note_step. rewrite Hn, detect_repeat by done.
  destruct (Nat.ltb_spec n 15) as [Hlt|Hge]; cbn [andb].
  - replace (Nat.min (S n) WINDOW) with (S n) by (unfold WINDOW; lia). destruct (Nat.leb_spec 3 (S n)) as [H3|H3]; cbn [andb].
    + by destruct (Nat.eqb (S n mod 3) 0).
    + destruct n as [|[|n]]; [done|done|lia].
  - by replace (Nat.min (S n) WINDOW) with 16%nat by (unfold WINDOW; lia).
Qed.

(** A suspect finding leads to a response only when the decision model said
    that the steps made no progress. *)
Lemma suspects_need_an_answer ask tool count_ same class l c :
  confirm ask (Suspect tool count_ same class) l = Some c ->
  exists a, In a (confirmed_answers c) /\ question a = PROGRESS /\ answer_yes a = Some false.
Proof.
  unfold confirm. cbn [questions negb andb]. rewrite orb_false_l. destruct (bool_decide _) eqn:E; [|done]. apply bool_decide_eq_true in E.
  intros [= <-]. cbn [confirmed_answers]. destruct (List.find _ _) as [a|] eqn:Ef; [|done]. apply List.find_some in Ef as [Hin Hq].
  exists a. split; [exact Hin|]. split; [by apply teqb_eq|exact E].
Qed.

End WithJson.

(** ** Concrete agents *)

(** Inputs that are their own text, and a hash that is the text's length. *)
Definition text_json : Json := {|
  json := text; is_object _ := true; json_get _ _ := None; as_array _ := None; as_str t := Some t; is_null _ := false; to_text t := t
|}.

Definition plain_text : StdText := {|
  hash ts := N.of_nat (length (concat ts));
  to_lowercase := map (fun c => if in_range (chr "A") (chr "Z") c then (c + 32)%N else c)
|}.

Definition grep_call : @ToolCall text_json := @mkToolCall text_json (str "c1") (str "Grep") (str "TODO").

Definition repeated : Finding := Repeat (str "Grep") 3 8.

Lemma guard_keeps_rhythm_witness :
  (* two reminders, then the ask: of two agents, each keeps its own count *)
  let respond_to a := @Respond text_json a 1 false false repeated (mkConfirmed None []) in
  let gate_of a := @AskGate text_json a 1 grep_call in
  let main := str "main" in let helper := str "helper" in
  let xs := [respond_to main; gate_of main; respond_to helper; respond_to main; gate_of main; respond_to main; gate_of helper; gate_of main; gate_of main] in
  outputs_of (str "main") xs (snd (@run_guard text_json plain_text 2 xs ∅)) = expected 2 0 false (sections_of (str "main") xs)
  /\ map (fun o => match o with Some (inr reason) => Some (bool_decide (reason = Some (ask_reason grep_call))) | _ => None end)
       (expected 2 0 false (sections_of (str "main") xs)) = [None; Some false; None; Some false; None; Some true; Some false].
Proof.
  intros respond_to gate_of main helper xs. split; [|vm_compute; reflexivity].
  apply (@guard_keeps_rhythm text_json plain_text 2 xs ∅ {[str "main"; str "helper"]} (str "main") 1).
  - by rewrite dom_empty.
  - repeat constructor; cbn [section_agent]; set_solver.
  - vm_compute. lia.
  - intros h. by rewrite lookup_empty.
  - repeat constructor; by intros.
Defined.

(** The third call with the same result reminds, whatever the model says. *)
Example third_call_reminds :
  let call_once w := @after_call text_json plain_text (str "main") 1 3 false false (fun _ _ => []) grep_call SOk [PartText (str "a.rs:1: TODO")] w in
  let '(w1, r1) := call_once ∅ in let '(w2, r2) := call_once w1 in let '(_, r3) := call_once w2 in
  (r1, r2, length r3) = ([], [], 1%nat).
Proof. vm_compute. reflexivity. Qed.

(** The same failure before and after an edit. *)
Example failure_after_edit :
  let bash := @mkToolCall text_json (str "c2") (str "Bash") (str "cargo test") in
  let edit := @mkToolCall text_json (str "c3") (str "Edit") (str "src/lib.rs") in
  let test w := @after_call text_json plain_text (str "main") 1 3 false false (fun _ _ => []) bash SError [PartText (str "error: expected 12")] w in
  let '(w1, r1) := test ∅ in
  let '(w2, r2) := @after_call text_json plain_text (str "main") 1 3 false false (fun _ _ => []) edit SOk [PartText (str "edited")] w1 in
  let '(_, r3) := test w2 in
  (r1, r2, r3) = ([], [], [fill LOOP_FAILURE_CODE (str "Bash") 2]).
Proof. vm_compute. reflexivity. Qed.
