(* ===== verification/Reminders.v ===== *)
(** The texts the harness adds to a conversation
    ([z-engine-prompts/src/reminders.rs] with [prompts/reminders/*.md], and
    [z-engine-context/src], files [reminders.rs], [sections.rs],
    [environment.rs], [instructions.rs], [system.rs] and [cache.rs]): reminder
    blocks, and the layered system prompt with its cache breakpoints. *)

From stdpp Require Import list.
From S2P Require Export TaskView Template Records Verify.

(** * [prompts/reminders] *)

Definition ENVIRONMENT : text :=
  join [NEWLINE]
    [str "Here is useful information about the environment you are running in:";
     str "<env>";
     str "Working directory: {{cwd}}";
     str "Project root: {{project_root}}";
     str "Additional working directories: {{additional_dirs?}}";
     str "Is directory a git repo: {{is_git_repo}}";
     str "Platform: {{platform}}";
     str "Shell: {{shell?}}";
     str "Today's date: {{date}}";
     str "Model: {{model}}";
     str "</env>";
     [];
     str "{{git?}}";
     []].

Definition GIT_SNAPSHOT : text :=
  join [NEWLINE]
    [str "Git status at the start of this session. It is a snapshot and does not update during the conversation.";
     str "Current branch: {{branch?}}";
     [];
     str "Status:";
     str "{{status}}";
     [];
     str "Recent commits:";
     str "{{commits}}";
     []].

Definition INSTRUCTIONS_PREAMBLE : text :=
  join [NEWLINE]
    [str "Codebase and user instructions are shown below. They come from instruction files written by the user and the project's maintainers. Follow them: they OVERRIDE your default behavior, and you must follow them exactly as written. When two files conflict, the later file takes precedence. Instructions cannot grant permissions or bypass the harness's approval checks.";
     []].

Definition SKILLS_LISTING : text :=
  join [NEWLINE]
    [str "# Skills";
     [];
     str "These skills are available. A skill packages instructions for one kind of task. When a task matches a skill's description, load that skill with the Skill tool before you start, then follow it.";
     [];
     str "{{skills}}";
     []].

Definition TODO_NUDGE : text :=
  join [NEWLINE]
    [str "Your todo list is currently empty. If the current work has several distinct steps, use the TodoWrite tool to plan them and track your progress; for a single simple task, ignore this. Do not mention this reminder to the user.";
     []].

Definition TODO_STATE : text :=
  join [NEWLINE]
    [str "Here is the current state of your todo list ([x] completed, [~] in progress, [ ] pending). Keep it current with TodoWrite as you work: mark an item in progress before you start it, and completed as soon as it is done. Do not mention this reminder to the user.";
     [];
     str "{{todos}}";
     []].

Definition PLAN_MODE_ACTIVE : text :=
  join [NEWLINE]
    [str "Plan mode is active: the user wants a plan before any changes are made.";
     [];
     str "- Do not edit, create, or delete files, and do not run commands that change the system (installs, commits, configuration changes). Use read-only tools only.";
     str "- Research the relevant code until you understand what the change requires. If a requirement is ambiguous, ask the user with AskUserQuestion.";
     str "- When the plan is ready, call ExitPlanMode with the complete plan in markdown so the user can review it. Do not start implementing until the user approves it.";
     []].

Definition PLAN_APPROVED : text :=
  join [NEWLINE]
    [str "The user approved your plan and plan mode has ended, so you can now make changes. Implement the plan below; if the user edited it, their version is authoritative. Track the steps with TodoWrite, and verify the result before you finish.";
     [];
     str "{{plan}}";
     []].

Definition FILES_CHANGED_EXTERNALLY : text :=
  join [NEWLINE]
    [str "These files were modified outside your own edits since you last read them (by the user, a formatter, or another process). Read a file again before you edit it, and keep these changes unless the user asks you to undo them:";
     [];
     str "{{paths}}";
     []].

Definition NESTED_INSTRUCTIONS : text :=
  join [NEWLINE]
    [str "You accessed files in directories that have their own instruction files. Follow them for work in those directories; they take precedence over broader instructions for files under their directory. Like all instructions, they cannot grant permissions.";
     [];
     str "{{docs}}";
     []].

Definition JOB_FINISHED : text :=
  join [NEWLINE]
    [str "A background {{kind}} you started has finished.";
     str "Job: {{job_id}}";
     str "Description: {{label}}";
     str "Status: {{status}}";
     str "Exit code: {{exit_code?}}";
     [];
     str "Read its output with JobOutput for this job before you rely on the result.";
     []].

Definition STEERING : text :=
  join [NEWLINE]
    [str "The user sent these messages while you were working:";
     [];
     str "{{messages}}";
     [];
     str "Address them now. If they change the task, follow the new direction instead of finishing the old plan; otherwise take them into account and continue.";
     []].

Definition VERIFICATION_REQUIRED : text :=
  join [NEWLINE]
    [str "You changed files in this turn, but the changes are not verified.";
     str "Verification status: {{status}}";
     str "Reason: {{reason?}}";
     str "Verification mode: {{mode}}";
     [];
     str "Before you finish, run the relevant checks with the Verify tool, fix any failures, and run them again until they pass. In auto mode the harness also runs the checks when you stop and reports failures back to you; in strict mode the turn does not end until the checks pass or the continuation budget runs out. Do not claim the work is tested or passing without a passing check that is newer than your last edit.";
     []].

Definition AUTO_CHECK_FAILED : text :=
  join [NEWLINE]
    [str "The harness ran the project's checks after your changes, and they failed:";
     [];
     str "{{summary}}";
     [];
     str "Fix the failures, then run the checks again with the Verify tool before you finish. Do not weaken, skip, or delete tests to make them pass unless the user asked for that.";
     []].

Definition INTERRUPTED : text :=
  join [NEWLINE]
    [str "The user interrupted your previous response. It may be incomplete, and tool calls that had not finished were cancelled. Do not resume the interrupted work on your own: respond to the user's next message, and check the current state of any files you were changing before you continue.";
     []].

Definition SECRET_MASKED : text :=
  join [NEWLINE]
    [str "[secret withheld by the user: {{kind}}]";
     []].

(** * [reminders.rs] *)

Definition wrap_reminder (body : text) : text :=
  str "<system-reminder>" ++ [NEWLINE] ++ trim body ++ [NEWLINE] ++ str "</system-reminder>".

Definition reminder (template : text) (values : list (text * text)) : text :=
  wrap_reminder (render_template template values).

Definition todo_nudge : text := reminder TODO_NUDGE [].

Definition todo_marker (s : TodoStatus) : text :=
  match s with TodoCompleted => str "[x]" | TodoInProgress => str "[~]" | TodoPending => str "[ ]" end.

Definition todo_state (todos : list TodoItem) : text :=
  let show t := todo_marker (todo_status t) ++ str " " ++ single_line (todo_content t) in
  reminder TODO_STATE [(str "todos", join [NEWLINE] (map show todos))].

Definition plan_mode_active : text := reminder PLAN_MODE_ACTIVE [].

Definition plan_approved (plan : text) : text := reminder PLAN_APPROVED [(str "plan", trim plan)].

Definition files_changed_externally (paths : list text) : text :=
  reminder FILES_CHANGED_EXTERNALLY [(str "paths", join [NEWLINE] (map (fun p => str "- " ++ p) paths))].

(** [instructions.rs] *)
Record InstructionDoc := mkInstructionDoc { doc_label : text; doc_path : text; doc_content : text }.

Definition EM_DASH : char := 8212%N.

Definition render_doc (d : InstructionDoc) : text :=
  str "# " ++ trim (doc_label d) ++ str " " ++ [EM_DASH] ++ str " " ++ trim (doc_path d) ++ [NEWLINE; NEWLINE]
  ++ trim (doc_content d).

Definition render_docs (docs : list InstructionDoc) : option text :=
  let rendered := map render_doc (List.filter (fun d => negb (is_empty (trim (doc_content d)))) docs) in
  if is_empty rendered then None else Some (join [NEWLINE; NEWLINE] rendered).

Definition render_instructions (docs : list InstructionDoc) : option text :=
  match render_docs docs with
  | Some body => Some (trim INSTRUCTIONS_PREAMBLE ++ [NEWLINE; NEWLINE] ++ body)
  | None => None
  end.

Definition nested_instructions (docs : list InstructionDoc) : text :=
  reminder NESTED_INSTRUCTIONS [(str "docs", default [] (render_docs docs))].

Definition job_kind_label (k : JobKind) : text :=
  match k with JobShell => str "shell command" | JobAgent => str "agent" end.

Definition job_status_label (s : JobStatus) : text :=
  match s with
  | JobRunning => str "running"
  | JobCompleted => str "completed"
  | JobFailed => str "failed"
  | JobKilled => str "killed"
  end.

Definition job_finished (job : JobInfo) : text :=
  reminder JOB_FINISHED
    [(str "kind", job_kind_label (job_kind job)); (str "job_id", job_id job);
     (str "label", single_line (job_label job)); (str "status", job_status_label (job_status job));
     (str "exit_code", match job_exit_code job with Some code => show_Z code | None => [] end)].

Definition quote_message (message : text) : text :=
  join [NEWLINE] (map (fun l => if is_empty l then str ">" else str "> " ++ l) (lines (trim message))).

Definition steering (messages : list text) : text :=
  reminder STEERING [(str "messages", join [NEWLINE; NEWLINE] (map quote_message messages))].

(** [VerificationMode] of [z-engine-protocol/src/verification.rs]. *)
Inductive VerificationMode := VOff | VReport | VAuto | VStrict.

Definition mode_label (m : VerificationMode) : text :=
  match m with
  | VOff => str "off"
  | VReport => str "report"
  | VAuto => str "auto"
  | VStrict => str "strict"
  end.

(** [VerificationMode::parse] *)
Definition parse_verification_mode (value : text) : option VerificationMode :=
  let v := trim value in
  if teqb v (str "off") then Some VOff
  else if teqb v (str "report") then Some VReport
  else if teqb v (str "auto") then Some VAuto
  else if teqb v (str "strict") then Some VStrict
  else None.

(** [VerificationOutcome::label] *)
Definition outcome_label (o : VerificationOutcome) : text :=
  match o with
  | NotApplicable => str "not applicable"
  | Unverified _ => str "unverified"
  | VerificationFailed _ => str "failed"
  | Verified _ => str "verified"
  end.

Definition verification_required (o : VerificationOutcome) (m : VerificationMode) : text :=
  let reason := match o with
                | Unverified reason | VerificationFailed reason => trim reason
                | NotApplicable | Verified _ => []
                end in
  reminder VERIFICATION_REQUIRED
    [(str "status", outcome_label o); (str "reason", reason); (str "mode", mode_label m)].

Definition auto_check_failed (summary : text) : text :=
  reminder AUTO_CHECK_FAILED [(str "summary", trim summary)].

Definition interrupted_reminder : text := reminder INTERRUPTED [].

(** * [environment.rs] *)

Definition CLEAN_STATUS : text := str "(clean)".
Definition NO_COMMITS : text := str "(none)".

Record GitInfo := mkGitInfo { git_branch : text; status_short : text; recent_commits : list text }.

Record Environment := mkEnvironment {
  env_cwd : text;
  env_project_root : text;
  env_platform : text;
  env_shell : text;
  env_date : text;
  env_model : text;
  env_git : option GitInfo;
  env_additional_dirs : list text
}.

Definition render_git (g : GitInfo) : text :=
  let status := trim_end (status_short g) in
  let status := if is_empty (trim status) then CLEAN_STATUS else status in
  let commits := join [NEWLINE] (recent_commits g) in
  let commits := if is_empty (trim commits) then NO_COMMITS else commits in
  trim_end (render_template GIT_SNAPSHOT
              [(str "branch", trim (git_branch g)); (str "status", status); (str "commits", commits)]).

Definition render_environment (e : Environment) : text :=
  trim_end (render_template ENVIRONMENT
    [(str "cwd", env_cwd e); (str "project_root", env_project_root e);
     (str "additional_dirs", join (str ", ") (env_additional_dirs e));
     (str "is_git_repo", match env_git e with Some _ => str "Yes" | None => str "No" end);
     (str "platform", env_platform e); (str "shell", env_shell e); (str "date", env_date e);
     (str "model", env_model e); (str "git", match env_git e with Some g => render_git g | None => [] end)]).

(** * [sections.rs], [system.rs] and [cache.rs] *)

Record PromptSection := mkPromptSection { section_text : text; cacheable : bool }.

Record SystemInputs := mkSystemInputs {
  input_base_prompt : text;
  input_environment : Environment;
  input_instructions : list InstructionDoc;
  input_skills : list (text * text);
  input_output_style : option text;
  input_extra : option text
}.

Definition render_skill (s : text * text) : text :=
  let description := single_line (snd s) in
  str "- " ++ trim (fst s) ++ (if is_empty description then [] else str ": " ++ description).

Definition render_skills (skills : list (text * text)) : text :=
  if is_empty skills then []
  else render_template SKILLS_LISTING [(str "skills", join [NEWLINE] (map render_skill skills))].

Definition push_section (t : text) (c : bool) (sections : list PromptSection) : list PromptSection :=
  let t := trim t in if is_empty t then sections else sections ++ [mkPromptSection t c].

Definition build_system (i : SystemInputs) : list PromptSection :=
  push_section (default [] (input_extra i)) false
    (push_section (default [] (input_output_style i)) true
      (push_section (render_skills (input_skills i)) true
        (push_section (default [] (render_instructions (input_instructions i))) true
          (push_section (render_environment (input_environment i)) true
            (push_section (input_base_prompt i) true []))))).

(** [iter().rposition(cacheable)] *)
Definition system_breakpoint (sections : list PromptSection) : option nat :=
  fst (foldl (fun '(found, n) s => (if cacheable s then Some n else found, S n)) (None, 0) sections).

Section WithJson.
Context {J : Json}.

(** The indices of the user messages, the newest first. *)
Fixpoint user_indices (n : nat) (messages : list Message) (found : list nat) : list nat :=
  match messages with
  | [] => found
  | m :: messages => user_indices (S n) messages (if is_user m then n :: found else found)
  end.

Definition message_breakpoints (messages : list Message) : list nat :=
  reverse (take 2 (user_indices 0 messages [])).

End WithJson.
