(* ===== verification/Request.v ===== *)
(** The request of a model round ([engine/src/run/request.rs] with the model limits of [engine/src/settings/models.rs]): the system sections and tools that do not depend on the working set, then the working set itself, made well-formed, with its cache breakpoints. *)

From Stdlib Require Import Sorted Zify ZifyBool.
From stdpp Require Import gmap list.
From S2P Require Export Model Reminders Session.

(** * [settings/models.rs] *)

Definition DEFAULT_CONTEXT_WINDOW : N := 128000.

(** The limits that the settings and the catalog give. *)
Record ModelLimits := mkModelLimits {
  configured_window : option N;
  configured_output : N;
  catalog_window : text -> option N;
  catalog_output : text -> option N
}.

Definition positive (n : option N) : option N :=
  match n with Some n => if (0 <? n)%N then Some n else None | None => None end.

Definition context_window (l : ModelLimits) (m : text) : N :=
  match positive (configured_window l) with
  | Some w => w
  | None => default DEFAULT_CONTEXT_WINDOW (positive (catalog_window l m))
  end.

Definition max_output_tokens (l : ModelLimits) (m : text) : N :=
  match positive (catalog_output l m) with
  | Some limit => N.min (configured_output l) limit
  | None => configured_output l
  end.

(** * [request.rs] *)

(** [WorktreeScope] of [run/spec.rs]. *)
Record WorktreeScope := mkWorktreeScope { scope_project : text; scope_git : option GitInfo; scope_note : text }.

(** What the session knows of its surroundings. *)
Record Surroundings := mkSurroundings {
  around_shell : option text;
  around_cwd : text;
  around_root : text;
  around_platform : text;
  around_today : text;
  around_git : option GitInfo;
  around_dirs : list text;
  around_worktree : option WorktreeScope;
  around_prompt : text;
  around_instructions : list InstructionDoc;
  around_skills : list (text * text);
  around_styles : list (text * text);
  around_style : option text;
  around_map : option text
}.

Definition environment_of (a : Surroundings) (m : text) : Environment :=
  mkEnvironment (around_cwd a) (around_root a) (around_platform a) (default [] (around_shell a)) (around_today a) m
    (match around_worktree a with Some scope => scope_git scope | None => around_git a end)
    (around_dirs a ++ match around_worktree a with Some scope => [scope_project scope] | None => [] end).

Definition style_body (a : Surroundings) : option text :=
  match around_style a with
  | Some n => fmap snd (List.find (fun s => teqb (fst s) n) (around_styles a))
  | None => None
  end.

(** [sections.insert(at_, section)] *)
Definition insert_section (at_ : nat) (s : PromptSection) (sections : list PromptSection) : list PromptSection :=
  take at_ sections ++ s :: drop at_ sections.

(** The repository map goes after the last section of the cached prefix. *)
Definition with_map (a : Surroundings) (sections : list PromptSection) : list PromptSection :=
  match around_worktree a, around_map a with
  | None, Some map_ =>
      let after_cached := match system_breakpoint sections with Some index => S index | None => 0 end in
      insert_section after_cached (mkPromptSection map_ true) sections
  | _, _ => sections
  end.

Definition sections_of (a : Surroundings) (m : text) : list PromptSection :=
  with_map a
    (build_system (mkSystemInputs (around_prompt a) (environment_of a m) (around_instructions a) (around_skills a)
      (style_body a) (option_map scope_note (around_worktree a)))).

Section WithJson.
Context {G : Globset} {P : Platform} {J : Json}.

Record Prepared := mkPrepared {
  prepared_sections : list PromptSection;
  prepared_tools : list ToolSpec;
  prepared_overhead : N
}.

Definition prepare (a : Surroundings) (m : text) (offered : list ToolSpec) : Prepared :=
  let sections := sections_of a m in
  let described := map (fun t => (spec_tool t, spec_description t, input_schema t)) offered in
  mkPrepared sections offered
    (sum_N (map (fun s => estimate_text (section_text s)) sections) + estimate_tools described)%N.

(** The sections as provider blocks, with the breakpoint on one of them. *)
Definition system_blocks (sections : list PromptSection) : list SystemBlock :=
  let cached := system_breakpoint sections in
  imap (fun index s => mkSystemBlock (section_text s) (bool_decide (Some index = cached))) sections.

(** [routed] is the effort the task was routed to, [stamp] the identifiers
    and times of the messages that [well_formed] has to add. *)
Definition assemble (l : ModelLimits) (session : id) (effort_ routed : option Effort) (stamp : nat -> id * N)
    (p : Prepared) (m : text) (messages : list Message) : ModelRequest :=
  let effort_ := match effort_ with Some e => Some e | None => routed end in
  let messages := well_formed stamp messages in
  mkModelRequest m (system_blocks (prepared_sections p)) messages (message_breakpoints messages) (prepared_tools p)
    (negb (is_empty (prepared_tools p))) ChoiceAuto (max_output_tokens l m) None
    (option_map (fun e => mkThinkingConfig e None) effort_) [] (Some session).

End WithJson.

(** Cacheable sections come first. *)
Definition prefix_cached (sections : list PromptSection) : Prop :=
  exists cached rest, sections = cached ++ rest
    /\ Forall (fun s => cacheable s = true) cached /\ Forall (fun s => cacheable s = false) rest.

Lemma breakpoint_loop cached rest found n :
  Forall (fun s => cacheable s = true) cached -> Forall (fun s => cacheable s = false) rest ->
  fst (foldl (fun '(found, n) s => (if cacheable s then Some n else found, S n)) (found, n) (cached ++ rest))
  = match length cached with O => found | S k => Some (n + k) end.
Proof.
  intros Hc Hr. revert found n. induction Hc as [|s cached Hs Hc IH]; intros found n; cbn [app foldl length].
  - revert n. induction Hr as [|s rest Hs Hr IH]; intros n; [done|]. cbn [foldl]. rewrite Hs. apply IH.
  - rewrite Hs, IH. destruct (length cached); f_equal; lia.
Qed.

Lemma breakpoint_of_prefix cached rest :
  Forall (fun s => cacheable s = true) cached -> Forall (fun s => cacheable s = false) rest ->
  system_breakpoint (cached ++ rest) = match length cached with O => None | S k => Some k end.
Proof. intros Hc Hr. by apply breakpoint_loop. Qed.

Lemma push_cached t sections :
  Forall (fun s => cacheable s = true) sections -> Forall (fun s => cacheable s = true) (push_section t true sections).
Proof. intros H. unfold push_section. destruct (is_empty _); [done|]. apply Forall_app. by repeat constructor. Qed.

Lemma build_system_prefix i : prefix_cached (build_system i).
Proof.
  unfold build_system. set (l := push_section _ true _).
  assert (Hl : Forall (fun s => cacheable s = true) l) by (unfold l; by repeat apply push_cached).
  unfold push_section. destruct (is_empty _).
  - exists l, []. by rewrite app_nil_r.
  - eexists l, [_]. split_and!; [done|done|by repeat constructor].
Qed.

Lemma sections_prefix a m : prefix_cached (sections_of a m).
Proof.
  unfold sections_of, with_map. destruct (build_system_prefix (mkSystemInputs (around_prompt a) (environment_of a m)
    (around_instructions a) (around_skills a) (style_body a) (option_map scope_note (around_worktree a)))) as (c & r & E & Hc & Hr).
  rewrite E. destruct (around_worktree a); [by exists c, r|]. destruct (around_map a) as [t|]; [|by exists c, r].
  rewrite breakpoint_of_prefix by done. unfold insert_section.
  assert (Ht : match match length c with O => None | S k => Some k end with Some index => S index | None => O end = length c)
    by (by destruct (length c)).
  rewrite Ht, take_app_length, drop_app_length. exists (c ++ [mkPromptSection t true]), r.
  split_and!; [by rewrite <- app_assoc|apply Forall_app; by repeat constructor|done].
Qed.

Section WithJson.
Context {G : Globset} {P : Platform} {J : Json}.

(** The indices of the user messages, in order. *)
Definition users (n : nat) (messages : list Message) : list nat := reverse (user_indices n messages []).

Lemma user_indices_app n messages found : user_indices n messages found = user_indices n messages [] ++ found.
Proof.
  revert n found. induction messages as [|m messages IH]; intros n found; [done|]. cbn [user_indices].
  destruct (is_user m); [|apply IH]. rewrite IH, (IH _ [n]), <- app_assoc. done.
Qed.

Lemma users_cons n m messages : users n (m :: messages) = (if is_user m then [n] else []) ++ users (S n) messages.
Proof.
  unfold users. cbn [user_indices]. rewrite user_indices_app. destruct (is_user m).
  - by rewrite reverse_app.
  - by rewrite app_nil_r.
Qed.

Lemma users_exact n messages i :
  i ∈ users n messages <-> exists k m, i = n + k /\ messages !! k = Some m /\ is_user m = true.
Proof.
  revert n. induction messages as [|m messages IH]; intros n.
  - split; [by intros ?%elem_of_nil|]. by intros (k & m & _ & ? & _).
  - rewrite users_cons, elem_of_app, IH. split.
    + intros [Hi|(k & x & -> & Hk & Hu)]; [|exists (S k), x; split_and!; [lia|done|done]].
      destruct (is_user m) eqn:E; [|by apply elem_of_nil in Hi]. apply list_elem_of_singleton in Hi as ->.
      exists 0, m. split_and!; [lia|done|done].
    + intros ([|k] & x & -> & Hk & Hu); [|right; exists k, x; split_and!; [lia|done|done]].
      injection Hk as ->. rewrite Hu. left. rewrite Nat.add_0_r. by left.
Qed.

Lemma users_above n messages i : i ∈ users n messages -> n <= i.
Proof. intros (k & _ & -> & _)%users_exact. lia. Qed.

Lemma users_sorted n messages : StronglySorted lt (users n messages).
Proof.
  revert n. induction messages as [|m messages IH]; intros n; [constructor|]. rewrite users_cons.
  destruct (is_user m); [|apply IH]. cbn. constructor; [apply IH|]. apply Forall_forall. intros i Hi%users_above. lia.
Qed.

Lemma sorted_split (a b : list nat) :
  StronglySorted lt (a ++ b) -> StronglySorted lt b /\ forall i j, i ∈ a -> j ∈ b -> i < j.
Proof.
  induction a as [|x a IH]; cbn; [split; [done|]; by intros i j ?%elem_of_nil|].
  intros [Hs Hx]%StronglySorted_inv. destruct (IH Hs) as [Hb Hab]. split; [done|].
  intros i j [->|Hi]%elem_of_cons Hj; [|by apply Hab]. rewrite Forall_forall in Hx. apply Hx, elem_of_app. by right.
Qed.

Lemma breakpoints_exact messages :
  exists older, users 0 messages = older ++ message_breakpoints messages
    /\ length (message_breakpoints messages) = Nat.min 2 (length (users 0 messages)).
Proof.
  unfold message_breakpoints, users. set (l := user_indices 0 messages []). exists (reverse (drop 2 l)).
  split; [by rewrite <- reverse_app, take_drop|]. by rewrite !length_reverse, length_take.
Qed.

Lemma block_marks cached rest :
  Forall (fun s => cacheable s = true) cached -> Forall (fun s => cacheable s = false) rest ->
  forall i b, system_blocks (cached ++ rest) !! i = Some b -> block_cache b = bool_decide (S i = length cached).
Proof.
  intros Hc Hr i b. unfold system_blocks. rewrite breakpoint_of_prefix by done. rewrite list_lookup_imap.
  destruct (_ !! i); [|done]. cbn. intros [= <-]. cbn. apply bool_decide_ext. destruct (length cached); [done|].
  split; [by intros [= ->]|by intros [= ->]].
Qed.

(** In a request of a round the cacheable sections of the system prompt
    are a prefix of it, also with a repository map, and only the last of them
    carries a breakpoint; the message breakpoints are the newest two user
    messages of the repaired history, in order; so a request has at most four
    breakpoints, with the one of the tools. *)
Theorem request_breakpoints l session effort_ routed stamp a m offered messages :
  let p := prepare a m offered in
  let r := assemble l session effort_ routed stamp p m messages in
  request_messages r = well_formed stamp messages
  /\ (exists cached rest, prepared_sections p = cached ++ rest
       /\ Forall (fun s => cacheable s = true) cached /\ Forall (fun s => cacheable s = false) rest
       /\ map block_text (request_system r) = map section_text (cached ++ rest)
       /\ forall i b, request_system r !! i = Some b -> block_cache b = bool_decide (S i = length cached))
  /\ StronglySorted lt (cache_breakpoints r)
  /\ (forall i, i ∈ cache_breakpoints r -> exists u, request_messages r !! i = Some u /\ is_user u = true)
  /\ (forall i u, request_messages r !! i = Some u -> is_user u = true ->
        i ∈ cache_breakpoints r \/ length (cache_breakpoints r) = 2 /\ forall j, j ∈ cache_breakpoints r -> i < j)
  /\ length (List.filter block_cache (request_system r)) + length (cache_breakpoints r)
       + (if cache_tools r then 1 else 0) <= 4.
Proof.
  intros p r. set (ms := well_formed stamp messages). destruct (breakpoints_exact ms) as (older & Eu & El).
  assert (Hs : StronglySorted lt (older ++ message_breakpoints ms)) by (rewrite <- Eu; apply users_sorted).
  apply sorted_split in Hs as [Hs Hlt]. destruct (sections_prefix a m) as (c & rest & E & Hc & Hr).
  pose proof (block_marks c rest Hc Hr) as Hm. rewrite <- E in Hm. split_and!.
  - done.
  - exists c, rest. split_and!; [done|done|done| |done]. change (request_system r) with (system_blocks (sections_of a m)).
    rewrite E. unfold system_blocks. generalize (system_breakpoint (c ++ rest)). intros o. clear.
    assert (H : forall l (f : nat -> bool), map block_text (imap (fun i s => mkSystemBlock (section_text s) (f i)) l) = map section_text l).
    { intros l'. induction l' as [|s l' IH]; intros f; [done|]. cbn. f_equal. apply (IH (fun i => f (S i))). }
    apply (H _ (fun i => bool_decide (Some i = o))).
  - done.
  - intros i Hi. assert (Hu : i ∈ users 0 ms) by (rewrite Eu; apply elem_of_app; by right).
    apply users_exact in Hu as (k & u & -> & Hk & Hu). by exists u.
  - intros i u Hi Hu. assert (Hin : i ∈ older ++ message_breakpoints ms) by (rewrite <- Eu; apply users_exact; by exists i, u).
    apply elem_of_app in Hin as [Ho|]; [right|by left]. split; [|by intros j; apply Hlt].
    change (cache_breakpoints r) with (message_breakpoints ms). destruct (message_breakpoints ms) as [|x [|y [|z l']]] eqn:Em.
    + rewrite app_nil_r in Eu. rewrite Eu in El. cbn in El. destruct older; [by apply elem_of_nil in Ho|done].
    + rewrite Eu, length_app in El. destruct older; [by apply elem_of_nil in Ho|cbn [length] in El; lia].
    + done.
    + cbn [length] in El. lia.
  - change (cache_breakpoints r) with (message_breakpoints ms).
    assert (Hb : length (List.filter block_cache (request_system r)) <= 1).
    { change (request_system r) with (system_blocks (sections_of a m)). generalize dependent (system_blocks (sections_of a m)).
      intros bs Hm. clear -Hm. destruct (length c) as [|k] eqn:Ek.
      - replace (List.filter block_cache bs) with (@nil SystemBlock); [cbn; lia|]. symmetry.
        induction bs as [|b bs IH]; [done|]. cbn. rewrite (Hm 0 b) by done. cbn. apply IH. intros i b' Hi.
        by rewrite (Hm (S i) b').
      - clear Ek. revert k Hm. induction bs as [|b bs IH]; intros k Hm; [cbn; lia|]. cbn. rewrite (Hm 0 b) by done.
        destruct k as [|k]; [rewrite bool_decide_true by done|rewrite bool_decide_false by done].
        + replace (List.filter block_cache bs) with (@nil SystemBlock); [cbn; lia|]. symmetry.
          assert (Hf : forall i b', bs !! i = Some b' -> block_cache b' = false) by (intros i b' Hi; by rewrite (Hm (S i) b')).
          clear -Hf. induction bs as [|b bs IH]; [done|]. cbn. rewrite (Hf 0 b) by done. apply IH. intros i b' Hi. by apply (Hf (S i)).
        + apply (IH k). intros i b' Hi. rewrite (Hm (S i) b') by done. apply bool_decide_ext. split; [by intros [= ->]|by intros ->]. }
    destruct (cache_tools r); lia.
Qed.

End WithJson.
