(* ===== verification/Stop.v ===== *)
(** When a run may end ([engine/src/verify], files [outcome.rs], [claims.rs], [modes.rs] and [record.rs], [engine/src/decisions/seams/check_select.rs] and [engine/src/run/stop.rs]): the verdict on the turn's changes, the checks that the harness runs on its own, and the stop boundary, where hooks, the user's notes, the verifier and decision uses may send the agent back to work.
    A run waits often, and other tasks change the session meanwhile. Every wait is numbered; [Outside] says what the others do during it and what the run gets from the machine after it. *)

From Stdlib Require Import String Zify ZifyBool ZifyN.
From stdpp Require Import gmap list.
From S2P Require Export Reminders Session Gate VerifyFacts.

Section WithJson.
Context {G : Globset} {P : Platform} {J : Json}.

(** * Waiting *)

Record Outside := mkOutside {
  during : nat -> Session -> Session;
  write_io : nat -> Io;
  new_id : nat -> id;
  time : nat -> N;
  (** the cancellation token of the run *)
  is_cancelled : nat -> bool;
  hook_outcome : nat -> HookOutcome;
  (** [workspace_fingerprint], if it could be taken *)
  fingerprint : nat -> option text;
  (** [run_check] *)
  check_run : nat -> CheckSpec -> result text CheckRecord;
  (** the check-selection seam: the checks to skip, if a use is active *)
  skip_answer : nat -> list CheckSpec -> list path -> option (list text);
  (** the completion and stop seams *)
  claim_answer : nat -> list path -> option UncheckedClaim;
  stop_answer : nat -> list path -> option text
}.

(** The session and the number of the next wait. *)
Record Here := mkHere { tick : nat; sess : Session }.

Definition on_sess (f : Session -> Session) (h : Here) : Here := mkHere (tick h) (f (sess h)).

Definition wait (out : Outside) (h : Here) : Here := mkHere (S (tick h)) (during out (tick h) (sess h)).

Definition post_notice (l : NoticeLevel) (t : text) (h : Here) : Here := on_sess (announce (Notice l t)) h.

(** * The settings of [verification] *)

Record VerifySettings := mkVerifySettings {
  verify_mode : VerificationMode;
  auto_checks : list text;
  max_continuations : N;
  trusted : bool;
  check_profile : ProjectProfile;
  check_root : path
}.

Section WithOutside.
Context (out : Outside) (v : VerifySettings).

(** * [outcome.rs] *)

(** The state is read before the fingerprint is taken. *)
Definition current_outcome (h : Here) : Here * VerificationOutcome :=
  let m := live_mutation (live (sess h)) in
  let records := live_checks (live (sess h)) in
  match verify_mode v with
  | VOff => (h, NotApplicable)
  | _ =>
      if negb (Session.mutated m) then (h, NotApplicable)
      else (wait out h, assess records true (Session.mutated_at m) (fingerprint out (tick h)))
  end.

Definition publish_outcome (h : Here) : Here * VerificationOutcome :=
  let '(h, o) := current_outcome h in (on_sess (announce (VerificationChanged o)) h, o).

(** * [record.rs] *)

Definition run_recorded (c : CheckSpec) (h : Here) : Here * result text CheckRecord :=
  let n := tick h in
  let h := wait out h in
  match check_run out n c with
  | Err e => (h, Err (str "check " ++ [BACKTICK] ++ spec_id c ++ [BACKTICK] ++ str " did not complete: " ++ e))
  | Ok r => (fst (publish_outcome (on_sess (record_check (write_io out n) r) h)), Ok r)
  end.

(** * [claims.rs] *)

Definition CLAIM_CHECKS : list text := map str ["test"; "build"; "typecheck"]%string.

Definition is_unverified (o : VerificationOutcome) : bool := match o with Unverified _ => true | _ => false end.
Definition is_verified (o : VerificationOutcome) : bool := match o with Verified _ => true | _ => false end.

Definition unchecked_claim (o : VerificationOutcome) (changed : list path) (h : Here) : Here * option UncheckedClaim :=
  if is_unverified o then (wait out h, claim_answer out (tick h) changed) else (h, None).

Definition show_claim (c : UncheckedClaim) (h : Here) : Here := on_sess (announce (CompletionClaimUnchecked c)) h.

(** * [check_select.rs] *)

Definition select_needed (selected : list CheckSpec) (changed : list path) (strict : bool) (h : Here)
  : Here * list CheckSpec :=
  if is_empty selected || touches_tests changed then (h, selected)
  else match skip_answer out (tick h) selected changed with
       | None => (h, selected)
       | Some skip => (wait out h, skip_checks selected skip strict)
       end.

(** * [modes.rs] *)

Definition UNTRUSTED : text := str "automatic checks are disabled for untrusted projects".
Definition FAILURE_TAIL_LINES : nat := 40.

Inductive AutoRun :=
| Skipped (reason : text)
| Ran (failures : option text).

Definition tail_lines (t : text) (count : nat) : text :=
  let ls := lines (trim_end t) in join [NEWLINE] (drop (length ls - count) ls).

Definition summarize_check (r : CheckRecord) : text :=
  let status := if timed_out r then str "timed out"
                else match exit_code r with Some code => str "exit code " ++ show_Z code | None => str "killed" end in
  let tail := tail_lines (output_tail r) FAILURE_TAIL_LINES in
  let fence := [BACKTICK; BACKTICK; BACKTICK] in
  check_label r ++ str " (" ++ [BACKTICK] ++ check_command r ++ [BACKTICK] ++ str "): " ++ status
  ++ match failed_tests r with Some n => str ", " ++ show_N n ++ str " test(s) failed" | None => [] end
  ++ match artifact r with Some a => [NEWLINE] ++ str "Full output: " ++ a | None => [] end
  ++ (if is_empty tail then [] else [NEWLINE] ++ fence ++ [NEWLINE] ++ tail ++ [NEWLINE] ++ fence).

Definition summarize_failures (failed : list CheckRecord) : text :=
  join [NEWLINE; NEWLINE] (map summarize_check failed).

(** The checks one after the other, until one breaks off; the failed ones. *)
Fixpoint run_checks (selected : list CheckSpec) (failed : list CheckRecord) (h : Here) : Here * list CheckRecord :=
  match selected with
  | [] => (h, failed)
  | c :: selected =>
      match run_recorded c h with
      | (h, Ok r) => run_checks selected (if passed r then failed else failed ++ [r]) h
      | (h, Err _) => (h, failed)
      end
  end.

Definition is_strict (m : VerificationMode) : bool := match m with VStrict => true | _ => false end.
Definition runs_checks (m : VerificationMode) : bool := match m with VAuto | VStrict => true | _ => false end.
Definition only_reports (m : VerificationMode) : bool := match m with VReport => true | _ => false end.

Definition auto_run (changed : list path) (selectors : list text) (h : Here) : Here * AutoRun :=
  if negb (trusted v) then (h, Skipped UNTRUSTED)
  else
    let relative := omap (fun p => path_strip_prefix (check_root v) p) changed in
    let selected := select_checks (check_profile v) selectors relative in
    if is_empty selected then (h, Skipped (str "no project check matches verification.auto_checks"))
    else
      let '(h, selected) := select_needed selected relative (is_strict (verify_mode v)) h in
      if is_empty selected then (h, Skipped (str "no selected check can be affected by these changes"))
      else
        let '(h, failed) := run_checks selected [] h in
        (h, Ran (if is_empty failed then None else Some (summarize_failures failed))).

Definition explained (o : VerificationOutcome) (reason : text) : VerificationOutcome :=
  match o with Unverified _ => Unverified reason | o => o end.

Inductive StopVerdict :=
| Done (o : VerificationOutcome)
| Continue_ (reminder : text).

Definition show_N_continuations (n : N) (o : VerificationOutcome) : text :=
  str "Verification ended after " ++ show_N n ++ str " automatic continuation(s); the changes are "
  ++ outcome_label o ++ str ".".

(** What the harness does about changes nothing backs: it runs the checks, or
    else the ones a claim of the final message faces. *)
Definition back_changes (o : VerificationOutcome) (changed : list path) (h : Here)
  : Here * VerificationOutcome * option text :=
  let '(h, run) := auto_run changed (auto_checks v) h in
  let '(h, run) :=
    match run with
    | Ran _ => (h, run)
    | Skipped reason =>
        match unchecked_claim o changed h with
        | (h, None) => (h, run)
        | (h, Some claim) =>
            let '(h, run) := if teqb reason UNTRUSTED then (h, run) else auto_run changed CLAIM_CHECKS h in
            (match run with Skipped _ => show_claim claim h | Ran _ => h end, run)
        end
    end in
  match run with
  | Skipped reason => (h, explained o reason, None)
  | Ran failures => let '(h, o) := current_outcome h in (h, o, failures)
  end.

(** [ModeVerifier::at_stop] *)
Definition at_stop (continuations : N) (changed : list path) (h : Here) : Here * StopVerdict :=
  let mutated := Session.mutated (live_mutation (live (sess h))) in
  let '(h, o) := current_outcome h in
  if negb mutated || negb (runs_checks (verify_mode v)) then
    if only_reports (verify_mode v) then
      match unchecked_claim o changed h with
      | (h, Some claim) => (show_claim claim h, Done o)
      | (h, None) => (h, Done o)
      end
    else (h, Done o)
  else
    let '(h, o, failures) := if is_unverified o then back_changes o changed h else (h, o, None) in
    if is_verified o then (h, Done o)
    else if (max_continuations v <=? continuations)%N then
      (if (0 <? continuations)%N then post_notice Warn (show_N_continuations continuations o) h else h, Done o)
    else
      match failures with
      | Some summary => (h, Continue_ (auto_check_failed summary))
      | None =>
          if is_strict (verify_mode v) then (h, Continue_ (verification_required o (verify_mode v)))
          else (h, Done o)
      end.

(** * [run/stop.rs], for the main agent *)

Definition MAX_HOOK_CONTINUATIONS : N := 5.
Definition MAX_DECISION_CONTINUATIONS : N := 1.

Record StopCounters := mkStopCounters {
  hook_continuations : N;
  verify_continuations : N;
  decision_continuations : N
}.

Definition new_counters : StopCounters := mkStopCounters 0 0 0.

Inductive StopAction :=
| StopContinue (content_ : list ContentBlock) (steered : bool)
| StopEnd (verified : option VerificationOutcome).

(** [take_steering] of [run/reminders.rs] *)
Definition take_steering (h : Here) : Here * list ContentBlock :=
  let queued := live_queue (live (sess h)) in
  if is_empty queued then (h, [])
  else
    (on_sess (fun s => announce (QueueChanged []) (on_live (put_live_queue []) s)) h,
     [BText (join [NEWLINE; NEWLINE] queued); BText (steering queued)]).

(** [decision_reminder] with [review_stop] *)
Definition decision_reminder (c : StopCounters) (changed : list path) (h : Here) : Here * StopCounters * option text :=
  if (MAX_DECISION_CONTINUATIONS <=? decision_continuations c)%N then (h, c, None)
  else
    match stop_answer out (tick h) changed with
    | None => (wait out h, c, None)
    | Some reminder =>
        (wait out h,
         mkStopCounters (hook_continuations c) (verify_continuations c) (decision_continuations c + 1),
         Some (wrap_reminder reminder))
    end.

(** The stop boundary when no hook decides. *)
Definition past_hooks (c : StopCounters) (changed : list path) (h : Here) : Here * StopCounters * StopAction :=
  let '(h, steered) := take_steering h in
  if negb (is_empty steered) then (h, c, StopContinue steered true)
  else
    match at_stop (verify_continuations c) changed h with
    | (h, Done o) =>
        match decision_reminder c changed h with
        | (h, c, Some reminder) => (h, c, StopContinue [BText reminder] false)
        | (h, c, None) => (h, c, StopEnd (Some o))
        end
    | (h, Continue_ reminder) =>
        (h, mkStopCounters (hook_continuations c) (verify_continuations c + 1) (decision_continuations c),
         StopContinue [BText reminder] false)
    end.

(** [stop_boundary] *)
Definition stop_boundary (c : StopCounters) (changed : list path) (h : Here) : Here * StopCounters * StopAction :=
  let hooks := hook_outcome out (tick h) in
  let h := wait out h in
  match stop hooks with
  | Some reason => (post_notice Info (str "A stop hook ended the turn: " ++ reason) h, c, StopEnd None)
  | None =>
      match blocked hooks with
      | Some reason =>
          if (hook_continuations c <? MAX_HOOK_CONTINUATIONS)%N then
            (h, mkStopCounters (hook_continuations c + 1) (verify_continuations c) (decision_continuations c),
             StopContinue [BText (wrap_reminder (str "Stop hook feedback:" ++ [NEWLINE] ++ reason))] false)
          else
            past_hooks c changed (post_notice Warn (str "Stop hooks continued this turn " ++ show_N MAX_HOOK_CONTINUATIONS
                                      ++ str " times; ending it.") h)
      | None => past_hooks c changed h
      end
  end.

End WithOutside.
End WithJson.

Section WithJson.
Context {G : Globset} {P : Platform} {J : Json}.
Context (out : Outside) (v : VerifySettings).

(** The changes of the turn, as the session knows them. *)
Definition changes (h : Here) : Mutation := live_mutation (live (sess h)).

(** [o] is the verdict of the session at [h0] on the workspace as it was when
    the wait that follows ended, and nothing was done since. *)
Definition judged (h0 h : Here) (o : VerificationOutcome) : Prop :=
  h = wait out h0 /\ Session.mutated (changes h0) = true
  /\ o = assess (live_checks (live (sess h0))) true (Session.mutated_at (changes h0)) (fingerprint out (tick h0)).

Lemma current_outcome_cases h h' o :
  current_outcome out v h = (h', o) ->
  (h' = h /\ o = NotApplicable /\ (verify_mode v = VOff \/ Session.mutated (changes h) = false))
  \/ (judged h h' o /\ verify_mode v <> VOff).
Proof.
  unfold current_outcome, judged, changes. destruct (verify_mode v) eqn:Em; [by intros [= <- <-]; auto|..];
    destruct (Session.mutated _) eqn:E; cbn [negb]; intros [= <- <-]; auto; right; by split_and!.
Qed.

Lemma verified_judged h h' o :
  current_outcome out v h = (h', o) -> is_verified o = true -> exists h0, judged h0 h' o.
Proof. intros [(_ & -> & _)|[H _]]%current_outcome_cases; [done|]. intros _. by exists h. Qed.

Lemma back_changes_verified o0 changed h h' o failures :
  back_changes out v o0 changed h = (h', o, failures) -> is_verified o0 = false -> is_verified o = true ->
  exists h0, judged h0 h' o.
Proof.
  unfold back_changes. destruct (auto_run out v changed (auto_checks v) h) as [h1 run1].
  match goal with |- (let '(h, run) := ?e in _) = _ -> _ => destruct e as [h2 [reason|fs]] end.
  - intros [= <- <- <-]. by destruct o0.
  - destruct (current_outcome out v h2) as [h3 o3] eqn:E. intros [= <- <- <-] _ Hv. by apply (verified_judged _ _ _ E).
Qed.

(** C7: a turn is given the badge [Verified] only by a verdict on the records
    of the session, taken once the workspace was looked at and with nothing
    done since: no claim of a message and no skipped check makes one. In
    strict mode a turn that changed something ends only with that badge or
    once the continuations are used up. The verifier sends a turn back to work
    only in auto and strict mode, only for changes, and fewer than
    [max_continuations] times. *)
Theorem stop_verdict_backed continuations changed (h : Here) :
  let '(h', verdict) := at_stop out v continuations changed h in
  match verdict with
  | Done o =>
      (is_verified o = true -> exists h0, judged h0 h' o)
      /\ (Session.mutated (changes h) = false -> verify_mode v <> VOff -> o = NotApplicable)
      /\ (Session.mutated (changes h) = true -> verify_mode v = VStrict ->
          is_verified o = true \/ (max_continuations v <= continuations)%N)
  | Continue_ _ =>
      Session.mutated (changes h) = true /\ runs_checks (verify_mode v) = true
      /\ (continuations < max_continuations v)%N
  end.
Proof.
  unfold at_stop. fold (changes h). destruct (current_outcome out v h) as [h1 o] eqn:E.
  pose proof (verified_judged _ _ _ E) as Hv.
  assert (Hna : Session.mutated (changes h) = false -> o = NotApplicable).
  { intros Hm. apply current_outcome_cases in E as [(_ & ? & _)|[(_ & Hm' & _) _]]; [done|congruence]. }
  destruct (negb (Session.mutated (changes h)) || negb (runs_checks (verify_mode v))) eqn:Eg.
  - assert (Hs : Session.mutated (changes h) = true -> verify_mode v = VStrict ->
              is_verified o = true \/ (max_continuations v <= continuations)%N).
    { intros Hm Hst. rewrite Hm, Hst in Eg. done. }
    destruct (only_reports (verify_mode v)); [|by split_and!; auto]. unfold unchecked_claim.
    destruct (is_unverified o) eqn:Eu; [|by split_and!; auto].
    destruct (claim_answer _ _ _); split_and!; auto; by destruct o.
  - apply orb_false_iff in Eg as [Hm%negb_false_iff Hr%negb_false_iff].
    assert (Hback : forall h2 o2 failures,
      (if is_unverified o then back_changes out v o changed h1 else (h1, o, None)) = (h2, o2, failures) ->
      is_verified o2 = true -> exists h0, judged h0 h2 o2).
    { intros h2 o2 failures. destruct (is_unverified o) eqn:Eu; [|by intros [= <- <- <-]].
      intros Hb. apply (back_changes_verified _ _ _ _ _ _ Hb). by destruct o. }
    destruct (if is_unverified o then back_changes out v o changed h1 else (h1, o, None)) as [[h2 o2] failures] eqn:Eb.
    specialize (Hback _ _ _ eq_refl). destruct (is_verified o2) eqn:Ev.
    + split_and!; [by intros _; apply Hback|intros; congruence|auto].
    + destruct (N.leb_spec (max_continuations v) continuations).
      * destruct (0 <? continuations)%N; split_and!; rewrite ?Ev; try done; try (intros; congruence); auto.
      * destruct failures; [by split_and!|]. destruct (is_strict (verify_mode v)) eqn:Es; [by split_and!|].
        split_and!; [by rewrite Ev|intros; congruence|]. intros _ Hst. by rewrite Hst in Es.
Qed.

(** How often the boundary may still send the turn back on its own. *)
Definition continuations_left (c : StopCounters) : N :=
  ((MAX_HOOK_CONTINUATIONS - hook_continuations c) + (max_continuations v - verify_continuations c)
   + (MAX_DECISION_CONTINUATIONS - decision_continuations c))%N.

(** The stop boundary sends a turn back to work because the user queued
    notes, which it takes from the queue, or else uses up one continuation:
    five for hooks, [max_continuations] for the verifier and one for decision
    uses; so without notes of the user a turn ends after so many stops. *)
Theorem stop_boundary_bounded (c : StopCounters) changed (h : Here) :
  let '(h', c', action) := stop_boundary out v c changed h in
  match action with
  | StopContinue content_ true =>
      c' = c /\ live_queue (live (sess (wait out h))) <> [] /\ live_queue (live (sess h')) = []
      /\ content_ = [BText (join [NEWLINE; NEWLINE] (live_queue (live (sess (wait out h)))));
                     BText (steering (live_queue (live (sess (wait out h)))))]
  | StopContinue content_ false => (continuations_left c' + 1 = continuations_left c)%N /\ length content_ = 1
  | StopEnd _ => c' = c
  end.
Proof.
  unfold stop_boundary, continuations_left. destruct (stop (hook_outcome out (tick h))); [done|]. set (h1 := wait out h).
  assert (Ha : forall h2, live (sess h2) = live (sess h1) ->
    let '(h', c', action) := past_hooks out v c changed h2 in
    match action with
    | StopContinue content_ true =>
        c' = c /\ live_queue (live (sess h1)) <> [] /\ live_queue (live (sess h')) = []
        /\ content_ = [BText (join [NEWLINE; NEWLINE] (live_queue (live (sess h1))));
                       BText (steering (live_queue (live (sess h1))))]
    | StopContinue content_ false => (continuations_left c' + 1 = continuations_left c)%N /\ length content_ = 1
    | StopEnd _ => c' = c
    end).
  { intros h2 Hl. unfold past_hooks, take_steering. rewrite Hl. destruct (is_empty (live_queue (live (sess h1)))) eqn:Eq.
    - cbn [is_empty negb]. pose proof (stop_verdict_backed (verify_continuations c) changed h2) as Hv.
      destruct (at_stop out v (verify_continuations c) changed h2) as [h3 [o|reminder]].
      + unfold decision_reminder. destruct (N.leb_spec MAX_DECISION_CONTINUATIONS (decision_continuations c)); [done|].
        destruct (stop_answer _ _ _); [|done]. split; [|done]. unfold continuations_left, MAX_DECISION_CONTINUATIONS in *. cbn. lia.
      + destruct Hv as (_ & _ & Hlt). split; [|done]. unfold continuations_left. cbn. lia.
    - cbn [is_empty negb]. split_and!; try done. by intros E; rewrite E in Eq. }
  destruct (blocked (hook_outcome out (tick h))).
  - destruct (N.ltb_spec (hook_continuations c) MAX_HOOK_CONTINUATIONS) as [Hlt|]; [|by apply Ha].
    split; [|done]. cbn. unfold MAX_HOOK_CONTINUATIONS in *. lia.
  - by apply Ha.
Qed.

End WithJson.
