(* ===== verification/Agent.v ===== *)
(** One run of the main agent ([engine/src/run], files [agent.rs],
    [stream.rs], [budget.rs], [reminders.rs], [mutation.rs] and [tally.rs],
    [engine/src/batch/toolset.rs] and the masking of
    [engine/src/decisions/seams/request.rs]): rounds of request, stream,
    record, and either a tool batch or the stop boundary, until the run
    ends. *)

From Stdlib Require Import String SpecFloat.
From stdpp Require Import gmap list.
From S2P Require Export Request Stop Retry Batch.

Section WithJson.
Context {G : Globset} {P : Platform} {J : Json} {T : JsonText}.

(** * [toolset.rs] *)

Definition MCP_PREFIX : text := str "mcp__".

(** [ToolFilter] of [spec.rs]: the names an agent may use, and may not. *)
Record ToolFilter := mkToolFilter { filter_allow : option (list text); filter_deny : list text }.

Definition permits (f : ToolFilter) (n : text) : bool :=
  match filter_allow f with Some allow => mem n allow | None => true end && negb (mem n (filter_deny f)).

Record Offer := mkOffer {
  offer_main : bool;
  may_spawn : bool;
  has_search : bool;
  has_lsp : bool;
  mcp_ready : bool;
  deferred : option (list text)
}.

Definition available (o : Offer) (n : text) : bool :=
  if starts_with MCP_PREFIX n then match deferred o with Some loaded => mem n loaded | None => true end
  else if is_text n "LSP" then has_lsp o
  else if is_text n "ListMcpResources" || is_text n "ReadMcpResource" then mcp_ready o
  else if is_text n "Agent" then may_spawn o
  else if is_text n "AskUserQuestion" || is_text n "ExitPlanMode" || is_text n "ApplyAgentChanges" then offer_main o
  else if is_text n "WebSearch" then has_search o
  else true.

Definition offered (f : ToolFilter) (o : Offer) (registry : list Tool) : list Tool :=
  List.filter (fun t => permits f (tool_name t) && available o (tool_name t)) registry.

Definition specs (describe : text -> text) (tools : list Tool) : list ToolSpec :=
  map (fun t => mkToolSpec (tool_name t) (describe (tool_name t)) (Gate.input_schema t)) tools.

(** * [budget.rs] *)

(** [max_turns] and [cap] are settings. *)
Definition exhausted (max_turns : N) (cap : f64) (rounds : N) (s : Session) : option text :=
  if (max_turns <=? rounds)%N then Some (str "reached the limit of " ++ show_N max_turns ++ str " model turns")
  else
    let spent := live_cost (live s) in
    if SFltb f64_zero cap && SFleb cap spent then
      Some (str "reached the session cost cap of $" ++ show_cents cap ++ str " (spent $" ++ show_cents spent ++ str ")")
    else None.

(** * [mutation.rs] and [tally.rs] *)

Definition note_mutation (at_ : N) (s : Session) : Session :=
  on_live (fun l => put_live_mutation (touch_mutation at_ (live_mutation l)) l) s.

Record Absorbed := mkAbsorbed { absorbed_usage : Usage; absorbed_cost : f64; absorbed_mutated : bool }.

(** * [request.rs] of the seams: masking *)

(** A withheld value and its kind. *)
Definition mask_text (withheld : list (text * text)) (t : text) : text :=
  foldl (fun t w => replace_text (fst w) (trim (render_template SECRET_MASKED [(str "kind", snd w)])) t) t withheld.

Definition mask_part (withheld : list (text * text)) (p : ToolResultPart) : ToolResultPart :=
  match p with PartText t => PartText (mask_text withheld t) | _ => p end.

Definition mask_block (withheld : list (text * text)) (b : ContentBlock) : ContentBlock :=
  match b with BToolResult i parts e => BToolResult i (map (mask_part withheld) parts) e | _ => b end.

Definition mask_secrets (withheld : list (text * text)) (working : list Message) : list Message :=
  map (fun m => set_content m (map (mask_block withheld) (content m))) working.

(** * The rest of the world *)

(** What a summary asked for under pressure meets. *)
Record Relief := mkRelief {
  relief_keep : nat;
  relief_percent : N;
  relief_review : list ClearTarget -> list ClearTarget;
  relief_saved : ClearTarget -> option text;
  relief_reply : SideReply
}.

Record AgentWorld := mkAgentWorld {
  outside : Outside;
  (** what other tasks do to the session while the run prepares a request:
      while the request is screened and the context relieved *)
  during_request : nat -> Session -> Session;
  verify_settings : VerifySettings;
  surroundings : nat -> Surroundings;
  registry : nat -> list Tool;
  describe : text -> text;
  filter : ToolFilter;
  offer : nat -> Offer;
  model_limits : ModelLimits;
  session_id : id;
  routed_model : nat -> text -> option text;
  routed_effort : nat -> option Effort;
  (** what a request is answered with, and whether the run is cancelled
      after it *)
  model_answer : nat -> ModelRequest -> list (result LlmError ModelEvent) * bool;
  (** the values kept from the model, if the user declined to send some just
      then *)
  withheld : nat -> list Message -> list (text * text);
  declined : nat -> bool;
  relief : nat -> Relief;
  gate_context : nat -> nat -> RunContext;
  batch_env : nat -> Env;
  children : nat -> Absorbed;
  reminders : nat -> list text;
  price : text -> Usage -> f64;
  repair_stamp : nat -> nat -> id * N;
  call_id : nat -> nat -> id;
  max_turns : N;
  cost_cap : f64
}.

(** [AgentRun] *)
Record AgentRun := mkAgentRun {
  rounds : N;
  run_usage : Usage;
  run_cost : f64;
  run_mutated : bool;
  counters : StopCounters;
  nudge_rounds : N;
  pending_reminders : list text;
  final_text : text;
  run_verification : option VerificationOutcome;
  run_tool_calls : N;
  run_written : list path
}.

Definition new_run (changed : bool) : AgentRun :=
  mkAgentRun 0 usage_default f64_zero changed new_counters 0 [] [] None 0 [].

Section WithWorld.
Context (w : AgentWorld) (turn : id).

Local Abbreviation out := (outside w).

(** * [reminders.rs] *)

Definition TODO_NUDGE_ROUNDS : N := 10.

(** [TodoNudge::after_round] *)
Definition after_round (used : bool) (n : N) (s : Session) : N * list text :=
  if used then (0%N, [])
  else
    let n := (n + 1)%N in
    if (n <? TODO_NUDGE_ROUNDS)%N || negb (is_empty (todos_of MAIN (live s))) then (n, [])
    else (0%N, [todo_nudge]).

(** [collect]: the pending notes, then those from elsewhere. *)
Definition collect_reminders (pending_ : list text) (h : Here) : Here * list ContentBlock :=
  (wait out h, map BText (pending_ ++ reminders w (tick h))).

(** * Recording *)

Definition add_usage (u : Usage) (c : f64) (r : AgentRun) : AgentRun :=
  mkAgentRun (rounds r) (usage_add (run_usage r) u) (f64_add (run_cost r) c) (run_mutated r) (counters r)
    (nudge_rounds r) (pending_reminders r) (final_text r) (run_verification r) (run_tool_calls r) (run_written r).

Definition account_round (m : text) (u : Usage) (tokens : option N) (h : Here) (r : AgentRun) : Here * AgentRun :=
  if usage_is_empty u && negb (match tokens with Some _ => true | None => false end) then (h, r)
  else
    let c := price w m u in
    (on_sess (account MAIN u c tokens) h, add_usage u c r).

(** The identifier, the time and the outcome of a write of the next tick. *)
Definition draw (h : Here) : Here := mkHere (S (tick h)) (sess h).

Definition append_message (m : Message) (steered : bool) (h : Here) : result text Here :=
  match sink_append (write_io out (tick h)) (Some turn) m steered (time out (tick h)) (sess h) with
  | Ok s => Ok (mkHere (S (tick h)) s)
  | Err e => Err e
  end.

(** A new user message. *)
Definition append_user (blocks : list ContentBlock) (steered : bool) (h : Here) : result text Here :=
  append_message (new_message (new_id out (tick h), time out (tick h)) User blocks) steered h.

Definition set_final (t : text) (r : AgentRun) : AgentRun :=
  mkAgentRun (rounds r) (run_usage r) (run_cost r) (run_mutated r) (counters r) (nudge_rounds r)
    (pending_reminders r) t (run_verification r) (run_tool_calls r) (run_written r).

(** [record_assistant] *)
Definition record_assistant (m : Message) (h : Here) (r : AgentRun) : result text (Here * AgentRun) :=
  match append_message m false h with
  | Err e => Err e
  | Ok h =>
      let t := message_text m in
      let r := if is_empty (trim t) then r else set_final t r in
      Ok (on_sess (announce (AssistantFinished MAIN m)) h, r)
  end.

Definition is_said (b : ContentBlock) : bool := match b with BText t => negb (is_empty (trim t)) | _ => false end.

(** [record_partial] *)
Definition record_partial (i : id) (partial : AssistantTurn) (h : Here) (r : AgentRun) : Here * AgentRun :=
  let said := List.filter is_said (turn_content partial) in
  if is_empty said then (h, r)
  else
    match record_assistant (new_message (i, time out (tick h)) Assistant said) h r with
    | Ok (h, r) => (h, r)
    | Err e => (on_sess (announce (ErrorEvent (str "could not save the interrupted response: " ++ e))) h, r)
    end.

Definition set_mutated (r : AgentRun) : AgentRun :=
  mkAgentRun (rounds r) (run_usage r) (run_cost r) true (counters r) (nudge_rounds r) (pending_reminders r)
    (final_text r) (run_verification r) (run_tool_calls r) (run_written r).

(** [absorb_children] *)
Definition absorb_children (h : Here) (r : AgentRun) : Here * AgentRun :=
  let a := children w (tick h) in
  let r := add_usage (absorbed_usage a) (absorbed_cost a) r in
  if absorbed_mutated a then (draw (on_sess (note_mutation (time out (tick h))) h), set_mutated r) else (draw h, r).

(** * [stream.rs] *)

Inductive StreamEnd :=
| Complete (turn : AssistantTurn)
| StreamCancelled (turn : AssistantTurn)
| StreamFailed (e : LlmError) (turn : AssistantTurn).

(** What the GUI is told of an event. *)
Definition delta_event (i : id) (e : ModelEvent) : option Event :=
  match e with
  | TextPiece t => Some (TextDelta MAIN i t)
  | ThinkingPiece t => Some (ThinkingDelta MAIN i t)
  | Backoff attempt delay reason => Some (Retrying attempt delay reason)
  | _ => None
  end.

Fixpoint consume (fresh_ : nat -> id) (i : id) (items : list (result LlmError ModelEvent)) (cancelled : bool)
    (a : ResponseAccumulator) (s : Session) : Session * StreamEnd :=
  match items with
  | [] => (s, if cancelled then StreamCancelled (finish_response a) else Complete (finish_response a))
  | Ok e :: items =>
      consume fresh_ i items cancelled (absorb fresh_ a e)
        (match delta_event i e with Some event => announce event s | None => s end)
  | Err CancelledError :: _ => (s, StreamCancelled (finish_response a))
  | Err e :: _ => (s, StreamFailed e (finish_response a))
  end.

Definition stream_response (request : ModelRequest) (i : id) (h : Here) : Here * StreamEnd :=
  let h := on_sess (announce (AssistantStarted MAIN i)) h in
  let n := tick h in
  let '(items, cancelled) := model_answer w n request in
  let h := wait out h in
  let '(s, end_) := consume (call_id w n) i items cancelled new_accumulator (sess h) in
  (mkHere (tick h) s, end_).

(** * [agent.rs] *)

Inductive Round :=
| RoundContinue
| RoundEnd (o : TurnOutcome).

Definition set_verification (o : option VerificationOutcome) (r : AgentRun) : AgentRun :=
  mkAgentRun (rounds r) (run_usage r) (run_cost r) (run_mutated r) (counters r) (nudge_rounds r)
    (pending_reminders r) (final_text r) o (run_tool_calls r) (run_written r).

Definition set_counters (c : StopCounters) (r : AgentRun) : AgentRun :=
  mkAgentRun (rounds r) (run_usage r) (run_cost r) (run_mutated r) c (nudge_rounds r)
    (pending_reminders r) (final_text r) (run_verification r) (run_tool_calls r) (run_written r).

Definition set_pending (l : list text) (r : AgentRun) : AgentRun :=
  mkAgentRun (rounds r) (run_usage r) (run_cost r) (run_mutated r) (counters r) (nudge_rounds r)
    l (final_text r) (run_verification r) (run_tool_calls r) (run_written r).

(** [append] of a new user message, as the end of a round. *)
Definition send_user (blocks : list ContentBlock) (steered : bool) (next : Round) (h : Here) (r : AgentRun)
  : Here * AgentRun * Round :=
  match append_user blocks steered h with
  | Ok h => (h, r, next)
  | Err e => (draw h, r, RoundEnd (TurnFailed e))
  end.

(** [at_stop] *)
Definition run_at_stop (h : Here) (r : AgentRun) : Here * AgentRun * Round :=
  let '(h, c, action) := stop_boundary out (verify_settings w) (counters r) (run_written r) h in
  let r := set_counters c r in
  match action with
  | StopEnd verification => (h, set_verification verification r, RoundEnd TurnCompleted)
  | StopContinue blocks steered =>
      let '(h, texts) := collect_reminders (pending_reminders r) h in
      send_user (blocks ++ texts) steered RoundContinue h (set_pending [] r)
  end.

Definition calls_in (m : Message) : list ToolCall := map (fun '(i, n, v) => mkToolCall i n v) (tool_uses m).

(** What a batch adds to the run. *)
Definition after_batch (o : BatchOutcome) (count : N) (nudge : N) (pending_ : list text) (r : AgentRun) : AgentRun :=
  mkAgentRun (rounds r) (run_usage r) (run_cost r) (run_mutated r || batch_mutated o) (counters r) nudge pending_
    (final_text r) (run_verification r) (N.min (run_tool_calls r + count) U32_MAX)
    (foldl insert_path (run_written r) (batch_written o)).

(** The calls of a response: the batch runs, and its results go out in one
    user message with the notes that wait. *)
Definition run_calls (calls : list ToolCall) (malformed : list MalformedToolUse) (tools : list Tool)
    (h : Here) (r : AgentRun) : Here * AgentRun * Round :=
  let n := tick h in
  let h := wait out h in
  let '(o, pending_) := run_batch (gate_context w n) (batch_env w n) tools calls malformed (pending_reminders r) in
  let h := match batch_mutated_at o with Some at_ => on_sess (note_mutation at_) h | None => h end in
  let r := after_batch o (N.min (N.of_nat (length calls)) U32_MAX) (nudge_rounds r) pending_ r in
  let '(h, r) := absorb_children h r in
  let '(nudge, texts) := after_round (used_todo_write o) (nudge_rounds r) (sess h) in
  let r := mkAgentRun (rounds r) (run_usage r) (run_cost r) (run_mutated r) (counters r) nudge
             (pending_reminders r ++ texts) (final_text r) (run_verification r) (run_tool_calls r) (run_written r) in
  if batch_cancelled o || is_cancelled out (tick h) then
    send_user (batch_results o) false (RoundEnd TurnCancelled) h r
  else
    let '(h, steered) := take_steering h in
    let '(h, notes) := collect_reminders (pending_reminders r) h in
    send_user (batch_results o ++ steered ++ notes) (negb (is_empty steered)) RoundContinue h (set_pending [] r).

Definition count_round (r : AgentRun) : AgentRun :=
  mkAgentRun (rounds r + 1) (run_usage r) (run_cost r) (run_mutated r) (counters r) (nudge_rounds r)
    (pending_reminders r) (final_text r) (run_verification r) (run_tool_calls r) (run_written r).

(** [after_response] *)
Definition after_response (i : id) (t : AssistantTurn) (tools : list Tool) (m : text) (meter : ContextMeter)
    (h : Here) (r : AgentRun) : Here * AgentRun * Round :=
  let r := count_round r in
  let message := new_message (i, time out (tick h)) Assistant (turn_content t) in
  let recorded := if is_empty (content message) then Ok (h, r) else record_assistant message h r in
  match recorded with
  | Err e => (draw h, r, RoundEnd (TurnFailed e))
  | Ok (h, r) =>
      let tokens := Some (measure (live_working (live (sess h))) meter) in
      let '(h, r) := account_round m (response_usage t) tokens h r in
      let calls := calls_in message in
      if is_empty calls then run_at_stop h r else run_calls calls (turn_malformed t) tools h r
  end.

(** Waits while a request is prepared. *)
Definition hold (h : Here) : Here := mkHere (S (tick h)) (during_request w (tick h) (sess h)).

(** [screen_request]: the working set as it may be sent. *)
Definition screen (h : Here) : Here * list Message :=
  let n := tick h in
  let working := live_working (live (sess h)) in
  let h := hold h in
  let working := if declined w n then live_working (live (sess h)) else working in
  match withheld w n working with
  | [] => (h, working)
  | values => let masked := mask_secrets values working in (on_sess (set_working masked) h, masked)
  end.

(** [pressure::relieve]; what other tasks do while it waits they do before. *)
Definition relieve_pressure (m : text) (forced : bool) (working : list Message) (meter : ContextMeter) (h : Here)
  : Here * ContextMeter * result text (list Message) :=
  let n := tick h in
  let h := hold h in
  let f := relief w n in
  let '(s, meter, relieved) :=
    relieve (write_io out (tick h)) (write_io out (S (tick h))) MAIN (context_window (model_limits w) m)
      (relief_keep f) (relief_percent f) (relief_review f) (relief_saved f) (relief_reply f)
      (is_cancelled out (tick h)) (new_id out (tick h), time out (tick h)) (time out (tick h)) forced meter working
      (sess h) in
  (mkHere (S (tick h)) s, meter, relieved).

(** One request of a round, and what comes of it; [None] asks for another one
    after a context overflow. *)
Definition request_round (prepared : Prepared) (m : text) (tools : list Tool) (forced : bool)
    (meter : ContextMeter) (h : Here) (r : AgentRun) : Here * ContextMeter * AgentRun * option Round :=
  let '(h, working) := screen h in
  let '(h, meter, relieved) := relieve_pressure m forced working meter h in
  match relieved with
  | Err _ => (h, meter, r, Some (RoundEnd TurnCancelled))
  | Ok working =>
      let request :=
        assemble (model_limits w) (session_id w) (live_effort (live (sess h))) (routed_effort w (tick h))
          (repair_stamp w (tick h)) prepared m working in
      let i := new_id out (tick h) in
      let '(h, end_) := stream_response request i (draw h) in
      match end_ with
      | Complete t =>
          let meter := observe (prompt_tokens (response_usage t)) (length working) meter in
          let '(h, r, next) := after_response i t tools m meter h r in (h, meter, r, Some next)
      | StreamFailed e partial =>
          let '(h, r) := account_round m (response_usage partial) None h r in
          if is_context_overflow e && negb forced then (h, meter, r, None)
          else (h, meter, r, Some (RoundEnd (TurnFailed (show_error e))))
      | StreamCancelled partial =>
          let '(h, r) := account_round m (response_usage partial) None h r in
          let '(h, r) := record_partial i partial h r in
          (h, meter, r, Some (RoundEnd TurnCancelled))
      end
  end.

(** The model of the main agent, [RunContext::model] *)
Definition main_model (h : Here) : text :=
  let m := default (live_model (live (sess h))) (live_turn_model (live (sess h))) in
  default m (routed_model w (tick h) m).

(** [round] *)
Definition round (meter : ContextMeter) (h : Here) (r : AgentRun) : Here * ContextMeter * AgentRun * Round :=
  if is_cancelled out (tick h) then (h, meter, r, RoundEnd TurnCancelled)
  else
    match exhausted (max_turns w) (cost_cap w) (rounds r) (sess h) with
    | Some reason => (h, meter, r, RoundEnd (BudgetExhausted reason))
    | None =>
        let m := main_model h in
        let h := wait out h in
        let tools := offered (filter w) (offer w (tick h)) (registry w (tick h)) in
        let prepared := prepare (surroundings w (tick h)) m (specs (describe w) tools) in
        let meter := set_overhead (prepared_overhead prepared) meter in
        match request_round prepared m tools false meter h r with
        | (h, meter, r, Some next) => (h, meter, r, next)
        | (h, meter, r, None) =>
            match request_round prepared m tools true meter h r with
            | (h, meter, r, Some next) => (h, meter, r, next)
            | (h, meter, r, None) => (h, meter, r, RoundContinue)
            end
        end
    end.

(** [run], with fuel for its rounds; [None] when the fuel is out. *)
Fixpoint run_rounds (fuel : nat) (meter : ContextMeter) (h : Here) (r : AgentRun)
  : option (Here * ContextMeter * AgentRun * TurnOutcome) :=
  match fuel with
  | O => None
  | S fuel =>
      match round meter h r with
      | (h, meter, r, RoundContinue) => run_rounds fuel meter h r
      | (h, meter, r, RoundEnd o) => Some (h, meter, r, o)
      end
  end.

Definition run_agent (fuel : nat) (changed : bool) (h : Here) : option (Here * AgentRun * TurnOutcome) :=
  match run_rounds fuel (live_meter (live (sess h))) h (new_run changed) with
  | Some (h, meter, r, o) =>
      let h := on_sess (save_meter meter) h in
      let '(h, r) := absorb_children h r in
      Some (h, r, o)
  | None => None
  end.

End WithWorld.
End WithJson.
