(* ===== verification/AgentFacts.v ===== *)
(** The run of the main agent ends: every round that continues has counted a response. Each of its steps is a step of the session, and what the run writes to the log for its turn pairs every call with its result. *)

From Stdlib Require Import Zify ZifyBool ZifyN.
From stdpp Require Import gmap list sets relations.
From S2P Require Export Agent SessionReach.
From S2P Require Import BatchFacts WellFormed VerifyFacts.

Section WithJson.
Context {G : Globset} {P : Platform} {J : Json} {T : JsonText}.
Context (w : AgentWorld) (turn : id).

Local Abbreviation out := (outside w).

(** * The number of rounds *)

Lemma account_rounds m u tokens h r h' r' :
  account_round w m u tokens h r = (h', r') -> rounds r' = rounds r.
Proof. unfold account_round. destruct (_ && _); by intros [= <- <-]. Qed.

Lemma absorb_rounds h r h' r' : absorb_children w h r = (h', r') -> rounds r' = rounds r.
Proof. unfold absorb_children. destruct (absorbed_mutated _); by intros [= <- <-]. Qed.

Lemma send_rounds blocks steered next h r h' r' n :
  send_user w turn blocks steered next h r = (h', r', n) -> rounds r' = rounds r.
Proof. unfold send_user. destruct (append_user _ _ _ _ _); by intros [= <- <- <-]. Qed.

Lemma record_rounds m h r h' r' : record_assistant w turn m h r = Ok (h', r') -> rounds r' = rounds r.
Proof.
  unfold record_assistant. destruct (append_message _ _ _ _ _); [|done]. intros [= <- <-].
  by destruct (is_empty _).
Qed.

Lemma partial_rounds i t h r h' r' : record_partial w turn i t h r = (h', r') -> rounds r' = rounds r.
Proof.
  unfold record_partial. destruct (is_empty _); [by intros [= <- <-]|].
  destruct (record_assistant _ _ _ _ _) as [[h1 r1]|e] eqn:E; [|by intros [= <- <-]].
  intros [= <- <-]. by apply record_rounds in E.
Qed.

Lemma stop_rounds h r h' r' n : run_at_stop w turn h r = (h', r', n) -> rounds r' = rounds r.
Proof.
  unfold run_at_stop. destruct (stop_boundary _ _ _ _ _) as [[h1 c] [blocks steered|o]]; [|by intros [= <- <- <-]].
  destruct (collect_reminders _ _ _) as [h2 texts]. by intros ->%send_rounds.
Qed.

Lemma calls_rounds calls malformed tools h r h' r' n :
  run_calls w turn calls malformed tools h r = (h', r', n) -> rounds r' = rounds r.
Proof.
  unfold run_calls. destruct (run_batch _ _ _ _ _ _) as [o p].
  set (h1 := match batch_mutated_at o with Some _ => _ | None => _ end).
  destruct (absorb_children w h1 _) as [h2 r2] eqn:E2. apply absorb_rounds in E2.
  destruct (after_round _ _ _) as [nudge texts]. destruct (_ || _).
  - by intros ->%send_rounds.
  - destruct (take_steering h2) as [h3 st]. destruct (collect_reminders _ _ _) as [h4 notes].
    by intros ->%send_rounds.
Qed.

Lemma response_rounds i t tools m meter h r h' r' n :
  after_response w turn i t tools m meter h r = (h', r', n) -> rounds r' = (rounds r + 1)%N.
Proof.
  unfold after_response.
  destruct (if is_empty _ then Ok (h, count_round r) else _) as [[h1 r1]|e] eqn:E; [|by intros [= <- <- <-]].
  assert (H1 : rounds r1 = (rounds r + 1)%N).
  { destruct (is_empty _); [by injection E as <- <-|]. by apply record_rounds in E. }
  destruct (account_round _ _ _ _ _ _) as [h2 r2] eqn:E2. apply account_rounds in E2.
  destruct (is_empty (calls_in _)); [intros ->%stop_rounds|intros ->%calls_rounds]; congruence.
Qed.

(** A round that goes on got a response; only a first request is asked again. *)
Lemma request_rounds prepared m tools forced meter h r h' meter' r' next :
  request_round w turn prepared m tools forced meter h r = (h', meter', r', next) ->
  match next with
  | Some RoundContinue => rounds r' = (rounds r + 1)%N
  | Some (RoundEnd _) => (rounds r' <= rounds r + 1)%N
  | None => rounds r' = rounds r /\ forced = false
  end.
Proof.
  unfold request_round. destruct (screen w h) as [h1 working].
  destruct (relieve_pressure w m forced working meter h1) as [[h2 meter2] [working2|e]]; [|intros [= <- <- <- <-]; lia].
  destruct (stream_response _ _ _ _) as [h3 [t|t|e t]].
  - destruct (after_response _ _ _ _ _ _ _ _ _) as [[h4 r4] n4] eqn:E. apply response_rounds in E.
    intros [= <- <- <- <-]. destruct n4; lia.
  - destruct (account_round _ _ _ _ _ _) as [h4 r4] eqn:E. apply account_rounds in E.
    destruct (record_partial _ _ _ _ _ _) as [h5 r5] eqn:E5. apply partial_rounds in E5.
    intros [= <- <- <- <-]. lia.
  - destruct (account_round _ _ _ _ _ _) as [h4 r4] eqn:E. apply account_rounds in E.
    destruct (is_context_overflow e), forced; cbn [andb negb]; intros [= <- <- <- <-]; try done; lia.
Qed.

Lemma round_counts meter h r h' meter' r' next :
  round w turn meter h r = (h', meter', r', next) ->
  match next with
  | RoundContinue => (rounds r < max_turns w)%N /\ rounds r' = (rounds r + 1)%N
  | RoundEnd _ => (rounds r' <= N.max (rounds r) (max_turns w))%N
  end.
Proof.
  unfold round. destruct (is_cancelled _ _); [intros [= <- <- <- <-]; lia|].
  destruct (exhausted _ _ _ _) as [reason|] eqn:E; [intros [= <- <- <- <-]; lia|].
  assert (Hlt : (rounds r < max_turns w)%N).
  { unfold exhausted in E. destruct (N.leb_spec (max_turns w) (rounds r)); [done|lia]. }
  match goal with |- context [request_round w turn ?p ?m ?t false ?me ?h0 r] =>
    destruct (request_round w turn p m t false me h0 r) as [[[h1 meter1] r1] [n1|]] eqn:E1;
      [|destruct (request_round w turn p m t true meter1 h1 r1) as [[[h2 meter2] r2] [n2|]] eqn:E2] end.
  - apply request_rounds in E1. intros [= <- <- <- <-]. destruct n1; lia.
  - apply request_rounds in E1, E2. intros [= <- <- <- <-]. destruct n2; lia.
  - apply request_rounds in E2 as [_ ?]. done.
Qed.

(** C9: a run ends: with a unit of fuel more than [max_turns] it has an
    outcome, whatever the model answers, hooks, checks and the user do, and
    after at most [max_turns] responses. *)
Theorem run_terminates changed (h : Here) :
  exists h' r o, run_agent w turn (S (N.to_nat (max_turns w))) changed h = Some (h', r, o)
    /\ (rounds r <= max_turns w)%N.
Proof.
  assert (H : forall fuel meter h r, (N.to_nat (max_turns w) < fuel + N.to_nat (rounds r))%nat ->
    (rounds r <= max_turns w)%N ->
    exists h' meter' r' o, run_rounds w turn fuel meter h r = Some (h', meter', r', o) /\ (rounds r' <= max_turns w)%N).
  { induction fuel as [|fuel IH]; intros meter h0 r Hf Hr; [lia|]. cbn [run_rounds].
    destruct (round w turn meter h0 r) as [[[h1 m1] r1] [|o]] eqn:E; apply round_counts in E.
    - apply IH; lia.
    - exists h1, m1, r1, o. split; [done|lia]. }
  destruct (H (S (N.to_nat (max_turns w))) (live_meter (live (sess h))) h (new_run changed)) as (h1 & m1 & r1 & o & E & Hr);
    [cbn; lia|cbn; lia|].
  unfold run_agent. rewrite E. destruct (absorb_children w (on_sess (save_meter m1) h1) r1) as [h2 r2] eqn:E2.
  exists h2, r2, o. split; [done|]. apply absorb_rounds in E2. lia.
Qed.

End WithJson.

#[local] Existing Instance same_shape_refl.
#[local] Existing Instance same_shape_trans.

(** * Pairing *)

Section Pairing.
Context {J : Json}.

(** The messages pair calls and results: what answers is the next message, a
    user message, and it answers exactly the calls before it, in order;
    [open] are the calls that wait. *)
Fixpoint paired (open : list id) (ms : list Message) : Prop :=
  match ms with
  | [] => open = []
  | m :: ms =>
      match role m with
      | Assistant => open = [] /\ paired (calls_of m) ms
      | User => results_in (content m) = open /\ paired [] ms
      end
  end.

Lemma paired_app open a b : paired open a -> paired [] b -> paired open (a ++ b).
Proof.
  revert open. induction a as [|m a IH]; intros open; cbn; [by intros ->|]. destruct (role m); intros [-> Ha] Hb; auto.
Qed.

Lemma results_in_texts ts : results_in (map BText ts) = [].
Proof. by induction ts as [|t ts IH]. Qed.

End Pairing.

Section WithJson.
Context {G : Globset} {P : Platform} {J : Json} {T : JsonText}.

(** Other tasks take steps of the session while a run waits, and leave its
    messages alone while a request is prepared. *)
Definition steady (w : AgentWorld) : Prop :=
  (forall n s, rtc session_step s (during (outside w) n s))
  /\ forall n s, rtc session_step s (during_request w n s)
       /\ live_working (live (during_request w n s)) = live_working (live s).

(** The log grows by records that introduce no message. *)
Definition adds_no_message (s s' : Session) : Prop :=
  exists rs, log (core s') = log (core s) ++ rs /\ introduced_by rs = [].

Lemma adds_nothing s s' : log (core s') = log (core s) -> adds_no_message s s'.
Proof. intros E. exists []. by rewrite app_nil_r. Qed.

Lemma adds_trans a b c : adds_no_message a b -> adds_no_message b c -> adds_no_message a c.
Proof.
  intros (r1 & E1 & I1) (r2 & E2 & I2). exists (r1 ++ r2). split; [by rewrite E2, E1, app_assoc|].
  by rewrite introduced_by_app, I1, I2.
Qed.

(** A step that appends no message. *)
Definition quiet (s s' : Session) : Prop := session_step s s' /\ adds_no_message s s'.

Lemma quiet_same s s' : session_step s s' -> log (core s') = log (core s) -> quiet s s'.
Proof. intros Hs Hl. split; [done|by apply adds_nothing]. Qed.

Lemma quiets_log s s' : rtc quiet s s' -> rtc session_step s s' /\ adds_no_message s s'.
Proof.
  induction 1 as [s|s s1 s2 [Hs Ha] _ [Hs' Ha']]; [split; [done|by apply adds_nothing]|].
  split; [by eapply rtc_l|by eapply adds_trans].
Qed.

Lemma quiet_tell e s : quiet s (announce e s).
Proof. apply quiet_same; [apply StepTell|done]. Qed.

Lemma quiet_check io c s : quiet s (record_check io c s).
Proof.
  split; [apply StepCheck|]. unfold record_check.
  destruct (log_or_report io (LCheck c) s) as [b s1] eqn:E; apply log_or_report_cases in E as (_ & _ & _ & Hb). cbn.
  destruct b; [by exists [LCheck c]|]. destruct Hb as [El _]. by apply adds_nothing.
Qed.

Lemma quiet_mutation at_ s : quiet s (note_mutation at_ s).
Proof. apply quiet_same; [apply StepMutation|done]. Qed.

Lemma quiet_queue s : quiet s (on_live (put_live_queue []) s).
Proof. apply quiet_same; [apply StepTakeQueue|done]. Qed.

Lemma quiet_account agent u c tokens s : quiet s (account agent u c tokens s).
Proof. apply quiet_same; [apply StepAccount|done]. Qed.

Lemma quiet_meter m s : quiet s (save_meter m s).
Proof. apply quiet_same; [apply StepMeter|done]. Qed.

Context (w : AgentWorld) (turn : id).

Local Abbreviation out := (outside w).

(** What other tasks do while the run waits appends no message, and no
    identifier is made twice. *)
Context (others : forall n s, adds_no_message s (during out n s)).
Context (others_held : forall n s, adds_no_message s (during_request w n s)).
Context (distinct : forall a b, new_id out a = new_id out b -> a = b).

(** * Quiet moves *)

(** From one point of the run to the next without a message of its own; if
    the other tasks are [steady], by steps of the session. *)
Record calm (h h' : Here) : Prop := mkCalm {
  calm_log : adds_no_message (sess h) (sess h');
  calm_steps : steady w -> rtc session_step (sess h) (sess h');
  calm_tick : tick h <= tick h'
}.

Lemma calm_refl h : calm h h.
Proof. split; [by apply adds_nothing|done|done]. Qed.

Lemma calm_trans a b c : calm a b -> calm b c -> calm a c.
Proof. intros [H1 S1 T1] [H2 S2 T2]. split; [by eapply adds_trans|intros Hs; etrans; auto|lia]. Qed.

Lemma calm_wait h : calm h (wait out h).
Proof. split; [apply others|intros [Hs _]; apply Hs|cbn; lia]. Qed.

Lemma calm_hold h : calm h (hold w h).
Proof. split; [apply others_held|intros [_ Hs]; apply Hs|cbn; lia]. Qed.

Lemma held_working h : steady w -> live_working (live (sess (hold w h))) = live_working (live (sess h)).
Proof. intros [_ Hs]. apply Hs. Qed.

Lemma calm_draw h : calm h (draw h).
Proof. split; [by apply adds_nothing|done|cbn; lia]. Qed.

Lemma calm_quiets h s' : rtc quiet (sess h) s' -> calm h (mkHere (tick h) s').
Proof. intros [Hs Ha]%quiets_log. by split. Qed.

Lemma calm_step f h : (forall s, quiet s (f s)) -> calm h (on_sess f h).
Proof. intros H. apply calm_quiets. by apply rtc_once. Qed.

Lemma calm_notice l t h : calm h (post_notice l t h).
Proof. apply calm_step. intros s. apply quiet_tell. Qed.

Create HintDb calm.
Hint Resolve calm_refl calm_wait calm_draw calm_notice : calm.
Hint Extern 1 (calm _ (on_sess _ _)) =>
  apply calm_step; intros; first [apply quiet_tell|apply quiet_mutation|apply quiet_account|apply quiet_meter] : calm.

Lemma calm_outcome v h h' o : current_outcome out v h = (h', o) -> calm h h'.
Proof.
  unfold current_outcome. destruct (verify_mode v); [by intros [= <- <-]; auto with calm|..];
    destruct (negb _); intros [= <- <-]; auto with calm.
Qed.

Lemma calm_recorded v c h h' r : run_recorded out v c h = (h', r) -> calm h h'.
Proof.
  unfold run_recorded. destruct (check_run _ _ _) as [x|e]; [|intros [= <- <-]; auto with calm].
  unfold publish_outcome. destruct (current_outcome _ _ _) as [h1 o] eqn:E. apply calm_outcome in E. intros [= <- <-].
  eapply calm_trans; [|eapply calm_trans; [exact E|auto with calm]]. eapply calm_trans; [apply calm_wait|].
  apply calm_step. intros s. apply quiet_check.
Qed.

Lemma calm_checks v cs failed h h' l : run_checks out v cs failed h = (h', l) -> calm h h'.
Proof.
  revert failed h. induction cs as [|c cs IH]; intros failed h; cbn [run_checks]; [intros [= <- <-]; auto with calm|].
  destruct (run_recorded out v c h) as [h1 [r|e]] eqn:E; apply calm_recorded in E.
  - intros H%IH. by eapply calm_trans.
  - by intros [= <- <-].
Qed.

Lemma calm_select cs changed strict h h' l : select_needed out cs changed strict h = (h', l) -> calm h h'.
Proof.
  unfold select_needed. destruct (_ || _); [intros [= <- <-]; auto with calm|].
  destruct (skip_answer _ _ _ _); intros [= <- <-]; auto with calm.
Qed.

Lemma calm_auto v changed selectors h h' r : auto_run out v changed selectors h = (h', r) -> calm h h'.
Proof.
  unfold auto_run. destruct (negb _); [intros [= <- <-]; auto with calm|].
  destruct (is_empty _); [intros [= <- <-]; auto with calm|]. destruct (select_needed _ _ _ _ _) as [h1 l] eqn:E.
  apply calm_select in E. destruct (is_empty l); [by intros [= <- <-]|].
  destruct (run_checks out v l [] h1) as [h2 failed] eqn:E2. apply calm_checks in E2. intros [= <- <-]. by eapply calm_trans.
Qed.

Lemma calm_claim o changed h h' c : unchecked_claim out o changed h = (h', c) -> calm h h'.
Proof. unfold unchecked_claim. destruct (is_unverified o); intros [= <- <-]; auto with calm. Qed.

Lemma calm_back v o changed h h' o' failures : back_changes out v o changed h = (h', o', failures) -> calm h h'.
Proof.
  unfold back_changes. destruct (auto_run out v changed (auto_checks v) h) as [h1 [reason|fs]] eqn:E1;
    apply calm_auto in E1.
  - destruct (unchecked_claim out o changed h1) as [h2 [claim|]] eqn:E2; apply calm_claim in E2;
      pose proof (calm_trans _ _ _ E1 E2) as E12; [|by intros [= <- <- <-]].
    destruct (teqb reason UNTRUSTED).
    + intros [= <- <- <-]. eapply calm_trans; [exact E12|]. apply calm_step. intros. apply quiet_tell.
    + destruct (auto_run out v changed CLAIM_CHECKS h2) as [h3 [reason3|fs3]] eqn:E3; apply calm_auto in E3;
        pose proof (calm_trans _ _ _ E12 E3) as E13.
      * intros [= <- <- <-]. eapply calm_trans; [exact E13|]. apply calm_step. intros. apply quiet_tell.
      * destruct (current_outcome out v h3) as [h4 o4] eqn:E4. apply calm_outcome in E4. intros [= <- <- <-].
        by eapply calm_trans.
  - destruct (current_outcome out v h1) as [h2 o2] eqn:E2. apply calm_outcome in E2. intros [= <- <- <-].
    by eapply calm_trans.
Qed.

Lemma calm_stop v n changed h h' verdict : at_stop out v n changed h = (h', verdict) -> calm h h'.
Proof.
  unfold at_stop. destruct (current_outcome out v h) as [h1 o] eqn:E. apply calm_outcome in E. destruct (_ || _).
  - destruct (only_reports _); [|by intros [= <- <-]].
    destruct (unchecked_claim out o changed h1) as [h2 [claim|]] eqn:E2; apply calm_claim in E2;
      pose proof (calm_trans _ _ _ E E2) as E12; intros [= <- <-]; [|done].
    eapply calm_trans; [exact E12|]. apply calm_step. intros s. apply quiet_tell.
  - destruct (if is_unverified o then back_changes out v o changed h1 else (h1, o, None)) as [[h2 o2] failures] eqn:E2.
    assert (H2 : calm h h2).
    { destruct (is_unverified o); [apply calm_back in E2; by eapply calm_trans|by injection E2 as <- _ _]. }
    destruct (is_verified o2); [by intros [= <- <-]|]. destruct (_ <=? _)%N.
    + destruct (_ <? _)%N; intros [= <- <-]; [|done]. eapply calm_trans; [exact H2|apply calm_notice].
    + destruct failures; [by intros [= <- <-]|]. destruct (is_strict _); by intros [= <- <-].
Qed.

Lemma calm_steering h h' blocks :
  take_steering h = (h', blocks) -> calm h h' /\ results_in blocks = [].
Proof.
  unfold take_steering. destruct (is_empty _); intros [= <- <-]; split; try done; auto with calm.
  apply calm_quiets. eapply rtc_l; [apply quiet_queue|]. apply rtc_once, quiet_tell.
Qed.

Lemma calm_past v c changed h h' c' action :
  past_hooks out v c changed h = (h', c', action) ->
  calm h h' /\ match action with StopContinue blocks _ => results_in blocks = [] | StopEnd _ => True end.
Proof.
  unfold past_hooks. destruct (take_steering h) as [h1 steered] eqn:E. apply calm_steering in E as [E Er].
  destruct (negb _); [by intros [= <- <- <-]|].
  destruct (at_stop out v _ changed h1) as [h2 [o|reminder]] eqn:E2; apply calm_stop in E2;
    pose proof (calm_trans _ _ _ E E2) as E12; [|by intros [= <- <- <-]].
  unfold decision_reminder. destruct (_ <=? _)%N; [by intros [= <- <- <-]|].
  pose proof (calm_trans _ _ _ E12 (calm_wait h2)). destruct (stop_answer _ _ _); by intros [= <- <- <-].
Qed.

Lemma calm_boundary v c changed h h' c' action :
  stop_boundary out v c changed h = (h', c', action) ->
  calm h h' /\ match action with StopContinue blocks _ => results_in blocks = [] | StopEnd _ => True end.
Proof.
  unfold stop_boundary. destruct (stop _).
  - intros [= <- <- <-]. split; [|done]. eapply calm_trans; [apply calm_wait|apply calm_notice].
  - destruct (blocked _).
    + destruct (_ <? _)%N; [intros [= <- <- <-]; split; [apply calm_wait|done]|].
      intros [H Hb]%calm_past. split; [|done]. eapply calm_trans; [apply calm_wait|].
      eapply calm_trans; [apply calm_notice|exact H].
    + intros [H Hb]%calm_past. split; [|done]. eapply calm_trans; [apply calm_wait|exact H].
Qed.

Lemma calm_account m u tokens h r h' r' : account_round w m u tokens h r = (h', r') -> calm h h'.
Proof. unfold account_round. destruct (_ && _); intros [= <- <-]; auto with calm. Qed.

Lemma calm_absorb h r h' r' : absorb_children w h r = (h', r') -> calm h h'.
Proof.
  unfold absorb_children. destruct (absorbed_mutated _); intros [= <- <-]; [|apply calm_draw].
  eapply calm_trans; [|apply calm_draw]. apply calm_step. intros. apply quiet_mutation.
Qed.

Lemma calm_collect l h h' blocks : collect_reminders w l h = (h', blocks) -> calm h h' /\ results_in blocks = [].
Proof. unfold collect_reminders. intros [= <- <-]. split; [apply calm_wait|apply results_in_texts]. Qed.

Lemma calm_consume fresh_ i items cancelled a s s' e :
  consume fresh_ i items cancelled a s = (s', e) -> rtc quiet s s'.
Proof.
  revert a s. induction items as [|[ev|er] items IH]; intros a s; cbn [consume].
  - by intros [= <- <-].
  - intros H%IH. destruct (delta_event i ev); [|done]. eapply rtc_l; [apply quiet_tell|exact H].
  - destruct er; by intros [= <- <-].
Qed.

Lemma calm_stream request i h h' e : stream_response w request i h = (h', e) -> calm h h'.
Proof.
  unfold stream_response. lazy zeta. destruct (model_answer _ _ _) as [items cancelled]. destruct (consume _ _ _ _ _ _) as [s end_] eqn:E.
  apply calm_consume, (calm_quiets (wait out _)) in E. intros [= <- <-].
  eapply calm_trans; [apply (calm_step (announce (AssistantStarted MAIN i))); intros; apply quiet_tell|].
  eapply calm_trans; [apply calm_wait|exact E].
Qed.

(** * Moves *)

(** The messages that records of the log give this turn. *)
Definition turn_messages (rs : list LogRecord) : list Message :=
  omap (fun r => match r with LMessage m (Some t) => if teqb t turn then Some m else None | _ => None end) rs.

Lemma turn_messages_app a b : turn_messages (a ++ b) = turn_messages a ++ turn_messages b.
Proof. apply omap_app. Qed.

Lemma turn_messages_quiet rs : introduced_by rs = [] -> turn_messages rs = [].
Proof.
  induction rs as [|r rs IH]; [done|]. unfold introduced_by. cbn [map concat]. intros [Hr Hrs]%app_eq_nil.
  unfold turn_messages. cbn. destruct r; cbn in *; try done; by apply IH.
Qed.

(** From [h] to [h'] by steps of the session, with the messages [ms] for the
    turn and identifiers made from the tick [lo] on. *)
Record moved (lo : nat) (h h' : Here) (ms : list Message) : Prop := {
  moved_steps : steady w -> rtc session_step (sess h) (sess h');
  moved_tick : tick h <= tick h';
  moved_log : exists rs, log (core (sess h')) = log (core (sess h)) ++ rs /\ turn_messages rs = ms
    /\ forall i, i ∈ introduced_by rs -> exists n, lo <= n < tick h' /\ i = new_id out n
}.

Lemma calm_moved lo h h' : calm h h' -> moved lo h h' [].
Proof.
  intros [(rs & El & Ei) Hs Ht]. split; [done|done|]. exists rs.
  split_and!; [done|by apply turn_messages_quiet|]. rewrite Ei. by intros i ?%elem_of_nil.
Qed.

Lemma moved_trans lo a b c l k : moved lo a b l -> moved lo b c k -> moved lo a c (l ++ k).
Proof.
  intros [S1 T1 (r1 & E1 & M1 & I1)] [S2 T2 (r2 & E2 & M2 & I2)]. split; [intros Hs; etrans; auto|lia|].
  exists (r1 ++ r2). split_and!; [by rewrite E2, E1, app_assoc|by rewrite turn_messages_app, M1, M2|].
  intros i. rewrite introduced_by_app, elem_of_app. intros [(n & Hn & ->)%I1|(n & Hn & ->)%I2]; exists n; split; [lia|done|lia|done].
Qed.

Lemma moved_calm lo a b c l : moved lo a b l -> calm b c -> moved lo a c l.
Proof. intros H1 H2. rewrite <- (app_nil_r l). eapply moved_trans; [done|by apply calm_moved]. Qed.

Lemma calm_then lo a b c l : calm a b -> moved lo b c l -> moved lo a c l.
Proof. intros H1 H2. change l with ([] ++ l). eapply moved_trans; [by apply calm_moved|done]. Qed.

Lemma moved_lower lo lo' h h' ms : lo' <= lo -> moved lo h h' ms -> moved lo' h h' ms.
Proof.
  intros Hl [S T0 (rs & E & M & I)]. split; [done|done|]. exists rs. split_and!; [done|done|].
  intros i (n & Hn & ->)%I. exists n. split; [lia|done].
Qed.

Definition unused (k : nat) (h : Here) : Prop := SessionSteps.fresh (new_id out k) (sess h).

(** The identifiers to come are new. *)
Definition ready (h : Here) : Prop := forall n, tick h <= n -> unused n h.

Lemma moved_unused lo h h' ms k :
  moved lo h h' ms -> unused k h -> k < lo \/ tick h' <= k -> unused k h'.
Proof.
  intros [_ Ht (rs & E & _ & I)] Hf Hk. unfold unused, SessionSteps.fresh in *. rewrite E, introduced_by_app, not_elem_of_app.
  split; [done|]. intros (n & Hn & Hd%distinct)%I. lia.
Qed.

Lemma moved_ready lo h h' ms : moved lo h h' ms -> ready h -> ready h'.
Proof. intros H Hr n Hn. eapply moved_unused; [done|apply Hr|by right]. destruct H. lia. Qed.

Lemma calm_unused h h' k : calm h h' -> unused k h -> unused k h'.
Proof. intros H%(calm_moved (S k)) Hf. eapply moved_unused; [done|done|left; lia]. Qed.

Lemma calm_ready h h' : calm h h' -> ready h -> ready h'.
Proof. intros H%(calm_moved 0). by eapply moved_ready. Qed.

(** Writing a message whose identifier was made at the tick [k]. *)
Lemma append_moved m steered h h' k :
  append_message w turn m steered h = Ok h' -> message_id m = new_id out k -> k <= tick h -> unused k h ->
  moved k h h' [m].
Proof.
  unfold append_message. destruct (sink_append _ _ _ _ _ _) as [s|e] eqn:E; [|done]. intros [= <-] Hm Hk Hf.
  split; [|cbn; lia|].
  - intros _. apply rtc_once. cbn [sess]. replace s with (settle (sess h) (Ok s)) by done. rewrite <- E. apply StepAppend.
    by rewrite Hm.
  - unfold sink_append in E. destruct (log_record _ _ _) as [s1|] eqn:E1; [|done]. apply log_record_ok in E1 as (El & _).
    exists [LMessage m (Some turn)]. cbn in E. injection E as <-. split_and!.
    + by destruct (is_user m).
    + unfold turn_messages. cbn. by rewrite teqb_refl.
    + intros i Hi. apply list_elem_of_singleton in Hi as ->. exists k. cbn. split; [lia|done].
Qed.

(** * Clearing, summing up and masking *)

Lemma mask_shape values ms : Forall2 same_shape ms (mask_secrets values ms).
Proof.
  unfold mask_secrets. apply Forall2_fmap_r, Forall_Forall2_diag, Forall_true. intros m. do 3 (split; [done|]).
  cbn. apply Forall2_fmap_r, Forall_Forall2_diag, Forall_true. intros b. destruct b as [| | | | | |i parts e]; try done.
  cbn. split_and!; [done|done|]. induction parts as [|[t|im] parts IH]; cbn; [done|done|by rewrite <- IH].
Qed.

Lemma side_log io agent u c s :
  exists rs, log (core (record_side io agent u c s)) = log (core s) ++ rs /\ introduced_by rs = [].
Proof.
  unfold record_side. destruct (usage_is_empty u); [exists []; by rewrite app_nil_r|].
  destruct (log_or_report io (LUsage agent u c) s) as [b s1] eqn:E. apply log_or_report_cases in E as (_ & _ & _ & Hb).
  cbn. destruct b; [by exists [LUsage agent u c]|]. destruct Hb as [-> _]. exists []. by rewrite app_nil_r.
Qed.

Lemma summarize_log io io2 trigger agent reply stamp now working tokens s :
  exists rs, log (core (fst (summarize io io2 trigger agent reply stamp now working tokens s))) = log (core s) ++ rs
    /\ turn_messages rs = [] /\ forall i, i ∈ introduced_by rs -> i = fst stamp.
Proof.
  assert (Hnil : forall i, i ∈ introduced_by [] -> i = fst stamp) by (by intros i ?%elem_of_nil).
  unfold summarize. destruct (plan_summary _ _) as [split|]; [|exists []; by rewrite app_nil_r].
  destruct (side_log io agent (side_usage reply) (side_cost reply) (announce (CompactionStarted trigger) s))
    as (rs & El & Ei). set (s1 := record_side _ _ _ _ _) in *.
  assert (Hs1 : exists rs, log (core s1) = log (core s) ++ rs
    /\ turn_messages rs = [] /\ forall i, i ∈ introduced_by rs -> i = fst stamp).
  { exists rs. split_and!; [done|by apply turn_messages_quiet|rewrite Ei; by intros i ?%elem_of_nil]. }
  destruct (side_text reply) as [t|e]; [|done]. destruct (is_empty _); [done|].
  destruct (compacted _ _ _ _ _) as [s2|e] eqn:E; [|done]. cbn [fst]. unfold compacted in E.
  destruct (log_record _ _ _) as [s3|] eqn:E3; [|done]. apply log_record_ok in E3 as (El3 & _). cbn in E. injection E as <-.
  cbn [core announce on_live emit log]. change (log (core s3)) with (log (core s3)).
  exists (rs ++ [LCompacted (marker_of working split (trim t) (summary_message stamp (trim t)) tokens now)
                   (summary_message stamp (trim t))]). split_and!.
  - rewrite app_assoc. change (log (core s)) with (log (core (announce (CompactionStarted trigger) s))). by rewrite <- El.
  - rewrite turn_messages_app. by rewrite turn_messages_quiet.
  - intros i. rewrite introduced_by_app, Ei. cbn. by intros ->%list_elem_of_singleton.
Qed.

Lemma relieve_log io io2 agent limit keep percent review saved reply cancelled stamp now forced m working s :
  exists rs, log (core (fst (fst (relieve io io2 agent limit keep percent review saved reply cancelled stamp now
                                    forced m working s)))) = log (core s) ++ rs
    /\ turn_messages rs = [] /\ forall i, i ∈ introduced_by rs -> i = fst stamp.
Proof.
  assert (Hnil : forall i, i ∈ introduced_by [] -> i = fst stamp) by (by intros i ?%elem_of_nil).
  unfold relieve. destruct (if forced || _ then microcompact _ _ _ _ _ _ else _) as [[s1 m1] w1] eqn:E1.
  assert (El : log (core s1) = log (core s)).
  { destruct (forced || _); [|by injection E1 as <- _ _]. unfold microcompact in E1.
    destruct (is_empty _); [by injection E1 as <- _ _|]. destruct (negb _); by injection E1 as <- _ _. }
  destruct (negb forced && _); [exists []; by rewrite app_nil_r|].
  destruct (summarize_log io io2 CompactAuto agent reply stamp now w1 (measure w1 m1) s1) as (rs & El2 & Hrs).
  rewrite El in El2. destruct (summarize _ _ _ _ _ _ _ _ _ _) as [s2 [[o|]|e]]; cbn [fst] in *; [by exists rs..|].
  destruct cancelled; by exists rs.
Qed.

Lemma relieve_moved m forced working h h' meter meter' res :
  relieve_pressure w m forced working meter h = (h', meter', res) ->
  (steady w -> live_working (live (sess h)) = working) -> ready h -> moved (tick h) h h' [].
Proof.
  unfold relieve_pressure. lazy zeta. intros E Hw Hr.
  apply (calm_then _ _ _ _ _ (calm_hold h)). assert (Hr' := calm_ready _ _ (calm_hold h) Hr).
  destruct (relieve _ _ _ _ _ _ _ _ _ _ _ _ _ _ _ _) as [[s m1] r1] eqn:Es. injection E as <- _ _.
  match type of Es with relieve ?a ?b ?c ?d ?e ?f ?g ?i ?j ?k ?l ?n ?o ?p _ ?q = _ =>
    pose proof (StepRelieve q a b c d e f g i j k l n o p) as Hstep;
    pose proof (relieve_log a b c d e f g i j k l n o p working q) as (rs & El & Em & Ei) end.
  rewrite Es in El. cbn [fst] in *. split.
  - intros Hs. rewrite (held_working h Hs), (Hw Hs), Es in Hstep. apply rtc_once, Hstep. by apply Hr'.
  - cbn. lia.
  - exists rs. split_and!; [done|done|]. intros i ->%Ei. exists (tick (hold w h)). cbn. split; [lia|done].
Qed.

Lemma screen_moved h h' working :
  screen w h = (h', working) -> moved (tick h) h h' [] /\ (steady w -> live_working (live (sess h')) = working).
Proof.
  unfold screen. lazy zeta. pose proof (calm_moved (tick h) _ _ (calm_hold h)) as H1.
  set (seen := if declined w (tick h) then _ else _). assert (Hseen : steady w -> live_working (live (sess (hold w h))) = seen).
  { intros Hs. unfold seen. rewrite (held_working h Hs). by destruct (declined _ _). }
  clearbody seen. destruct (withheld w (tick h) _) as [|value values] eqn:Ev; intros [= <- <-]; [done|]. split; [|done].
  eapply (moved_trans _ _ _ _ [] []); [exact H1|]. split; [|done|].
  - intros Hs. apply rtc_once, StepRewrite. rewrite (Hseen Hs). apply mask_shape.
  - exists []. cbn [sess on_sess]. split_and!; [by rewrite app_nil_r|done|]. by intros i ?%elem_of_nil.
Qed.

(** * Rounds *)

(** The write of a user message that answers [calls] failed with [e]. *)
Definition refused (calls : list id) (e : text) : Prop :=
  exists n a steered s, role a = User /\ results_in (content a) = calls
    /\ sink_append (write_io out n) (Some turn) a steered (time out n) s = Err e.

(** What a round leaves: its messages pair up, but for a response whose
    results could not be written, which ends the run. *)
Definition round_paired (ms : list Message) (next : option Round) : Prop :=
  paired [] ms
  \/ exists before m e, ms = before ++ [m] /\ paired [] before /\ role m = Assistant /\ calls_of m <> []
        /\ refused (calls_of m) e /\ next = Some (RoundEnd (TurnFailed e)).

Lemma send_moved blocks steered next h r h' r' n open :
  send_user w turn blocks steered next h r = (h', r', n) -> ready h -> results_in blocks = open ->
  exists ms, moved (tick h) h h' ms
    /\ (paired open ms /\ n = next \/ ms = [] /\ exists e, n = RoundEnd (TurnFailed e) /\ refused open e).
Proof.
  unfold send_user, append_user. intros E Hr Ho.
  destruct (append_message _ _ _ _ _) as [h1|e] eqn:E1; injection E as <- <- <-.
  - exists [new_message (new_id out (tick h), time out (tick h)) User blocks]. split; [|left; split; [|done]].
    + eapply append_moved; [exact E1|done|done|by apply Hr].
    + split; [exact Ho|done].
  - exists []. split; [apply calm_moved, calm_draw|]. right. split; [done|]. exists e. split; [done|].
    unfold append_message in E1. destruct (sink_append _ _ _ _ _ _) as [s|e'] eqn:Es; [done|]. injection E1 as ->.
    eexists (tick h), _, steered, (sess h). split_and!; [| |exact Es]; [done|exact Ho].
Qed.

Lemma record_moved m h r h' r' k :
  record_assistant w turn m h r = Ok (h', r') -> message_id m = new_id out k -> k <= tick h -> unused k h ->
  moved k h h' [m].
Proof.
  unfold record_assistant. destruct (append_message _ _ _ _ _) as [h1|e] eqn:E; [|done]. intros [= <- _] Hm Hk Hu.
  eapply moved_calm; [by eapply append_moved|]. apply calm_step. intros s. apply quiet_tell.
Qed.

Lemma said_calls bs : omap tool_use (List.filter is_said bs) = [].
Proof. induction bs as [|b bs IH]; [done|]. cbn. destruct b; cbn; try done. by destruct (negb _). Qed.

Lemma partial_moved i t h r h' r' k :
  record_partial w turn i t h r = (h', r') -> i = new_id out k -> k <= tick h -> unused k h ->
  exists ms, moved k h h' ms /\ paired [] ms.
Proof.
  unfold record_partial. intros E Hi Hk Hu. destruct (is_empty _).
  - injection E as <- <-. exists []. split; [apply calm_moved, calm_refl|done].
  - destruct (record_assistant _ _ _ _ _) as [[h1 r1]|e] eqn:E1; injection E as <- <-.
    + eexists [_]. split; [by eapply record_moved|]. cbn. split; [done|]. unfold calls_of, tool_uses. cbn.
      by rewrite said_calls.
    + exists []. split; [|done]. apply calm_moved, calm_step. intros s. apply quiet_tell.
Qed.

Lemma stop_moved h r h' r' n :
  run_at_stop w turn h r = (h', r', n) -> ready h ->
  exists ms, moved (tick h) h h' ms /\ paired [] ms.
Proof.
  unfold run_at_stop. intros E Hr. destruct (stop_boundary _ _ _ _ _) as [[h1 c] action] eqn:E1.
  apply calm_boundary in E1 as [H1 Hb]. destruct action as [blocks steered|o].
  - destruct (collect_reminders _ _ _) as [h2 texts] eqn:E2. apply calm_collect in E2 as [H2 Ht].
    pose proof (calm_trans _ _ _ H1 H2) as H12. destruct (send_moved _ _ _ _ _ _ _ _ [] E) as (ms & Hm & Hp).
    + by eapply calm_ready.
    + unfold results_in in *. by rewrite omap_app, Hb, Ht.
    + exists ms. split; [eapply calm_then; [exact H12|]; eapply moved_lower; [|exact Hm]; apply H12|].
      by destruct Hp as [[? _]|[-> _]].
  - injection E as <- <- <-. exists []. split; [by apply calm_moved|done].
Qed.

(** A batch answers its calls, one by one. *)
Lemma batch_results_in ctx env tools calls malformed p :
  results_in (batch_results (fst (run_batch ctx env tools calls malformed p))) = map call calls.
Proof.
  destruct (run_batch_executed ctx env tools calls malformed p) as [H1 _ _ _].
  rewrite gated_calls_call in H1. unfold results_in. revert H1. generalize (batch_results (fst (run_batch ctx env tools calls malformed p))).
  intros bs. revert calls. induction bs as [|b bs IH]; intros [|c calls]; cbn; try done. intros [= Hb H]. rewrite (IH _ H).
  destruct b; cbn in Hb |- *; try done. by injection Hb as ->.
Qed.

Lemma calls_moved calls malformed tools h r h' r' n :
  run_calls w turn calls malformed tools h r = (h', r', n) -> ready h ->
  exists ms, moved (tick h) h h' ms
    /\ (paired (map call calls) ms \/ ms = [] /\ exists e, n = RoundEnd (TurnFailed e) /\ refused (map call calls) e).
Proof.
  unfold run_calls. lazy zeta. intros E Hr.
  pose proof (batch_results_in (gate_context w (tick h)) (batch_env w (tick h)) tools calls malformed (pending_reminders r)) as Hb.
  destruct (run_batch _ _ _ _ _ _) as [o p]. cbn [fst] in Hb.
  set (h1 := match batch_mutated_at o with Some _ => _ | None => _ end) in E.
  assert (H1 : calm h h1).
  { unfold h1. eapply calm_trans; [apply calm_wait|]. destruct (batch_mutated_at o); [|apply calm_refl].
    apply calm_step. intros s. apply quiet_mutation. }
  destruct (absorb_children w h1 _) as [h2 r2] eqn:E2. apply calm_absorb in E2. pose proof (calm_trans _ _ _ H1 E2) as H2.
  destruct (after_round _ _ _) as [nudge texts].
  assert (Hsend : forall blocks steered next h3 r3, results_in blocks = map call calls -> calm h2 h3 ->
    send_user w turn blocks steered next h3 r3 = (h', r', n) ->
    exists ms, moved (tick h) h h' ms
      /\ (paired (map call calls) ms \/ ms = [] /\ exists e, n = RoundEnd (TurnFailed e) /\ refused (map call calls) e)).
  { intros blocks steered next h3 r3 Hres H3 Es. pose proof (calm_trans _ _ _ H2 H3) as H13.
    destruct (send_moved _ _ _ _ _ _ _ _ _ Es (calm_ready _ _ H13 Hr) Hres) as (ms & Hm & Hp). exists ms. split.
    - eapply calm_then; [exact H13|]. eapply moved_lower; [|exact Hm]. apply H13.
    - destruct Hp as [[? _]|?]; auto. }
  destruct (_ || _).
  - eapply Hsend; [|apply calm_refl|exact E]. done.
  - destruct (take_steering h2) as [h3 st] eqn:E3. apply calm_steering in E3 as [H3 Hst].
    destruct (collect_reminders _ _ _) as [h4 notes] eqn:E4. apply calm_collect in E4 as [H4 Hn].
    eapply Hsend; [|by eapply calm_trans|exact E]. unfold results_in in *. by rewrite !omap_app, Hst, Hn, !app_nil_r.
Qed.

Lemma calls_of_in m : map call (calls_in m) = calls_of m.
Proof. unfold calls_in, calls_of. rewrite map_map. apply map_ext. by intros [[i n] v]. Qed.

Lemma response_moved i t tools m meter h r h' r' n k :
  after_response w turn i t tools m meter h r = (h', r', n) -> i = new_id out k -> k < tick h -> unused k h -> ready h ->
  exists ms, moved k h h' ms /\ round_paired ms (Some n).
Proof.
  unfold after_response. lazy zeta. intros E Hi Hk Hu Hr.
  set (msg := new_message (i, time out (tick h)) Assistant (turn_content t)) in *.
  destruct (if is_empty (content msg) then Ok (h, count_round r) else record_assistant w turn msg h (count_round r))
    as [[h1 r1]|e] eqn:E1.
  2: { injection E as <- <- <-. exists []. split; [apply calm_moved, calm_draw|by left]. }
  assert (H1 : exists before, moved k h h1 before /\ (before = [] /\ content msg = [] \/ before = [msg])).
  { destruct (is_empty (content msg)) eqn:Ec.
    - injection E1 as <- <-. exists []. split; [apply calm_moved, calm_refl|left]. split; [done|]. by apply empty_spec.
    - exists [msg]. split; [|by right]. eapply record_moved; [exact E1|done|lia|done]. }
  destruct H1 as (before & H1 & Hbefore). pose proof (moved_ready _ _ _ _ H1 Hr) as Hr1.
  destruct (account_round _ _ _ _ _ _) as [h2 r2] eqn:E2. apply calm_account in E2.
  pose proof (moved_calm _ _ _ _ _ H1 E2) as H2. pose proof (calm_ready _ _ E2 Hr1) as Hr2.
  assert (Hle : k <= tick h2) by (destruct H2; lia).
  destruct (is_empty (calls_in msg)) eqn:Ecalls.
  - apply empty_spec in Ecalls. destruct (stop_moved _ _ _ _ _ E Hr2) as (ms & Hm & Hp).
    exists (before ++ ms). split; [eapply moved_trans; [exact H2|by eapply moved_lower; [|exact Hm]]|].
    left. apply paired_app; [|done]. destruct Hbefore as [[-> _]| ->]; [done|]. change (@nil id = [] /\ paired (calls_of msg) []). split; [done|].
    by rewrite <- calls_of_in, Ecalls.
  - destruct (calls_moved _ _ _ _ _ _ _ _ E Hr2) as (ms & Hm & Hp).
    exists (before ++ ms). split; [eapply moved_trans; [exact H2|by eapply moved_lower; [|exact Hm]]|].
    destruct Hbefore as [[-> Hc]| ->].
    { unfold calls_in, tool_uses in Ecalls. rewrite Hc in Ecalls. done. }
    destruct Hp as [Hp|(-> & e & -> & He)].
    + left. change (@nil id = [] /\ paired (calls_of msg) ms). split; [done|]. by rewrite <- calls_of_in.
    + right. exists [], msg, e. rewrite <- calls_of_in. split_and!; try done. intros Hno. apply map_eq_nil in Hno. by rewrite Hno in Ecalls.
Qed.

Lemma request_moved prepared m tools forced meter h r h' meter' r' next :
  request_round w turn prepared m tools forced meter h r = (h', meter', r', next) -> ready h ->
  exists ms, moved (tick h) h h' ms /\ round_paired ms next.
Proof.
  unfold request_round. lazy zeta. intros E Hr. destruct (screen w h) as [h1 working] eqn:E1.
  apply screen_moved in E1 as [H1 Hworking]. pose proof (moved_ready _ _ _ _ H1 Hr) as Hr1.
  destruct (relieve_pressure w m forced working meter h1) as [[h2 meter2] res] eqn:E2.
  apply relieve_moved in E2 as H2; [|done|done]. apply (moved_lower _ (tick h)) in H2; [|by destruct H1].
  pose proof (moved_trans _ _ _ _ _ _ H1 H2) as H12. cbn [app] in H12. pose proof (moved_ready _ _ _ _ H12 Hr) as Hr2.
  assert (Ht2 : tick h <= tick h2) by (destruct H12; lia).
  destruct res as [relieved|e]; [|injection E as <- <- <- <-; exists []; split; [done|by left]].
  destruct (stream_response _ _ _ _) as [h3 end_] eqn:E3. apply calm_stream in E3.
  pose proof (calm_trans _ _ _ (calm_draw h2) E3) as H23. pose proof (moved_calm _ _ _ _ _ H12 H23) as H13.
  pose proof (calm_ready _ _ H23 Hr2) as Hr3.
  assert (Hu : unused (tick h2) h3) by (eapply calm_unused; [exact H23|by apply Hr2]).
  assert (Ht3 : tick h2 < tick h3) by (destruct E3 as [_ _ Ht]; cbn in Ht; lia).
  assert (Hend : forall h4 r4 ms next4, moved (tick h2) h3 h4 ms -> round_paired ms next4 ->
            (h4, r4, next4) = (h', r', next) -> exists ms, moved (tick h) h h' ms /\ round_paired ms next).
  { intros h4 r4 ms next4 Hm Hp [= <- <- <-]. exists ms. split; [|done].
    change ms with ([] ++ ms). eapply moved_trans; [exact H13|]. by eapply moved_lower; [|exact Hm]. }
  destruct end_ as [t|t|e t].
  - destruct (after_response _ _ _ _ _ _ _ _ _) as [[h4 r4] n4] eqn:E4.
    destruct (response_moved _ _ _ _ _ _ _ _ _ _ _ E4 eq_refl Ht3 Hu Hr3) as (ms & Hm & Hp).
    injection E as <- <- <- <-. by eapply Hend.
  - destruct (account_round _ _ _ _ _ _) as [h4 r4] eqn:E4. apply calm_account in E4.
    destruct (record_partial _ _ _ _ _ _) as [h5 r5] eqn:E5.
    destruct (partial_moved _ _ _ _ _ _ (tick h2) E5 eq_refl) as (ms & Hm & Hp).
    + destruct E4; lia.
    + by eapply calm_unused.
    + injection E as <- <- <- <-. eapply Hend; [by eapply calm_then|by left|done].
  - destruct (account_round _ _ _ _ _ _) as [h4 r4] eqn:E4. apply calm_account in E4.
    destruct (_ && _); injection E as <- <- <- <-; (eapply Hend; [by apply calm_moved|by left|done]).
Qed.

Lemma round_moved meter h r h' meter' r' next :
  round w turn meter h r = (h', meter', r', next) -> ready h ->
  exists ms, moved (tick h) h h' ms /\ round_paired ms (Some next).
Proof.
  unfold round. lazy zeta. intros E Hr.
  destruct (is_cancelled _ _); [injection E as <- <- <- <-; exists []; split; [apply calm_moved, calm_refl|by left]|].
  destruct (exhausted _ _ _ _); [injection E as <- <- <- <-; exists []; split; [apply calm_moved, calm_refl|by left]|].
  pose proof (calm_ready _ _ (calm_wait h) Hr) as Hr0.
  match type of E with context [request_round w turn ?p ?m ?t false ?me (wait out h) r] =>
    destruct (request_round w turn p m t false me (wait out h) r) as [[[h1 meter1] r1] n1] eqn:E1;
    destruct (request_moved _ _ _ _ _ _ _ _ _ _ _ E1 Hr0) as (ms1 & H1 & P1) end.
  apply (moved_lower _ (tick h)) in H1; [|cbn; lia]. apply (calm_then _ _ _ _ _ (calm_wait h)) in H1.
  destruct n1 as [n1|]; [injection E as <- <- <- <-; by exists ms1|].
  assert (P1' : paired [] ms1) by (destruct P1 as [?|(? & ? & ? & _ & _ & _ & _ & _ & ?)]; done).
  pose proof (moved_ready _ _ _ _ H1 Hr) as Hr1.
  match type of E with context [request_round w turn ?p ?m ?t true ?me h1 r1] =>
    destruct (request_round w turn p m t true me h1 r1) as [[[h2 meter2] r2] n2] eqn:E2;
    pose proof (request_rounds _ _ _ _ _ _ _ _ _ _ _ _ _ E2) as Hn2;
    destruct (request_moved _ _ _ _ _ _ _ _ _ _ _ E2 Hr1) as (ms2 & H2 & P2) end.
  apply (moved_lower _ (tick h)) in H2; [|by destruct H1].
  destruct n2 as [n2|]; [|by destruct Hn2]. injection E as <- <- <- <-.
  exists (ms1 ++ ms2). split; [by eapply moved_trans|]. destruct P2 as [P2|(before & x & e & -> & Hb & Hx)].
  - left. by apply paired_app.
  - right. exists (ms1 ++ before), x, e. split_and!; [by rewrite app_assoc|by apply paired_app|apply Hx..].
Qed.

Lemma rounds_moved fuel meter h r h' meter' r' o :
  run_rounds w turn fuel meter h r = Some (h', meter', r', o) -> ready h ->
  exists ms, moved (tick h) h h' ms /\ round_paired ms (Some (RoundEnd o)).
Proof.
  revert meter h r. induction fuel as [|fuel IH]; intros meter h r; cbn [run_rounds]; [done|]. intros E Hr.
  destruct (round w turn meter h r) as [[[h1 meter1] r1] n1] eqn:E1.
  destruct (round_moved _ _ _ _ _ _ _ E1 Hr) as (ms1 & H1 & P1). destruct n1 as [|o1].
  - destruct (IH _ _ _ E) as (ms2 & H2 & P2); [by eapply moved_ready|].
    apply (moved_lower _ (tick h)) in H2; [|by destruct H1]. exists (ms1 ++ ms2). split; [by eapply moved_trans|].
    assert (P1' : paired [] ms1) by (destruct P1 as [?|(? & ? & ? & _ & _ & _ & _ & _ & ?)]; done).
    destruct P2 as [P2|(before & x & e & -> & Hb & Hx)].
    + left. by apply paired_app.
    + right. exists (ms1 ++ before), x, e. split_and!; [by rewrite app_assoc|by apply paired_app|apply Hx..].
  - injection E as <- <- <- <-. by exists ms1.
Qed.

Lemma run_moved fuel changed h h' r o :
  run_agent w turn fuel changed h = Some (h', r, o) -> ready h ->
  exists ms, moved (tick h) h h' ms /\ round_paired ms (Some (RoundEnd o)).
Proof.
  unfold run_agent. destruct (run_rounds _ _ _ _ _ _) as [[[[h1 meter1] r1] o1]|] eqn:E; [|done]. intros Ee Hr.
  destruct (rounds_moved _ _ _ _ _ _ _ _ E Hr) as (ms & H & Hp). lazy zeta in Ee.
  destruct (absorb_children w _ r1) as [h2 r2] eqn:E2. apply calm_absorb in E2. injection Ee as <- <- <-.
  exists ms. split; [|done]. eapply moved_calm; [|exact E2]. eapply moved_calm; [exact H|].
  apply calm_step. intros s. apply quiet_meter.
Qed.

End WithJson.

(** * Properties *)

Section Properties.
Context {G : Globset} {P : Platform} {J : Json} {T : JsonText}.

(** The rest of the program while a run waits: it appends no message, and no
    identifier is made twice or is already in the log. *)
Definition apart (w : AgentWorld) (h : Here) : Prop :=
  (forall n s, adds_no_message s (during (outside w) n s))
  /\ (forall n s, adds_no_message s (during_request w n s))
  /\ (forall a b, new_id (outside w) a = new_id (outside w) b -> a = b)
  /\ forall n, tick h <= n -> SessionSteps.fresh (new_id (outside w) n) (sess h).

(** C4: what a run writes for its turn pairs calls and results.  Every response
    with calls is followed by one user message that answers exactly these
    calls, in order, and no other message holds results; this is so whatever
    the model streams, the tools, hooks and checks do and the user decides,
    wherever the run is cancelled, fails or ends, and whatever other tasks do
    meanwhile, as long as they append no message and identifiers of new
    messages are new.  The one exception is a response at the very end whose
    results could not be written: the write of the message that answers it
    failed, and the turn failed with the error of this write. *)
Theorem run_pairs_calls w turn fuel changed (h : Here) h' r o :
  apart w h -> run_agent w turn fuel changed h = Some (h', r, o) ->
  exists rs, log (core (sess h')) = log (core (sess h)) ++ rs
    /\ let ms := turn_messages turn rs in
       paired [] ms
       \/ exists before m e, ms = before ++ [m] /\ paired [] before /\ role m = Assistant /\ calls_of m <> []
             /\ refused w turn (calls_of m) e /\ o = TurnFailed e.
Proof.
  intros (Ho & Hh & Hd & Hr) E. destruct (run_moved w turn Ho Hh Hd _ _ _ _ _ _ E Hr) as (ms & [_ _ (rs & El & <- & _)] & Hp).
  exists rs. split; [done|]. destruct Hp as [Hp|(before & m & e & Em & Hb & Hm & Hc & Hf & [= He])]; [by left|].
  right. by exists before, m, e.
Qed.

(** C6: a run takes the session only through its own operations, so after it
    the state in memory is the one that the log gives, as before, or the user
    was told that it is not.  What is asked of other tasks while the run waits
    is that they, too, take steps of the session and append no message, with
    new identifiers, and that while a request is prepared - screened, and the
    context relieved - none of them changes the messages in memory; the one
    command that could then is the one that brings the full history back (see
    [screen_overwrites_restored]).  During all other waits it may. *)
Theorem run_keeps_session w turn fuel changed (h : Here) h' r o :
  apart w h -> steady w -> session_reached (sess h) -> run_agent w turn fuel changed h = Some (h', r, o) ->
  session_reached (sess h') /\ (mirrors (sess h') \/ told (core (sess h'))).
Proof.
  intros (Ho & Hh & Hd & Hr) Hs (s0 & Hstart & Hsteps) E.
  destruct (run_moved w turn Ho Hh Hd _ _ _ _ _ _ E Hr) as (ms & [Hst _ _] & _).
  assert (H : session_reached (sess h')) by (exists s0; split; [done|etrans; [done|by apply Hst]]).
  split; [done|]. by apply reached_good in H as (_ & _ & ?).
Qed.

(** Where screening does not do what it means to: it masks the messages it
    started with.  When the user brings the full history back meanwhile, and a
    value was already withheld before, the masked view is written over the
    history, which is then gone from memory. *)
Lemma screen_overwrites_restored w (h : Here) full io :
  live_full_working (live (sess h)) = Some full ->
  during_request w (tick h) (sess h) = include_full_history io (sess h) ->
  declined w (tick h) = false -> withheld w (tick h) (live_working (live (sess h))) <> [] ->
  let l := live (sess (fst (screen w h))) in
  live_working l = mask_secrets (withheld w (tick h) (live_working (live (sess h)))) (live_working (live (sess h)))
  /\ live_full_working l = None.
Proof.
  intros Hf Hd Hdec Hw. unfold screen. lazy zeta. rewrite Hdec. destruct (withheld _ _ _) as [|v vs]; [done|]. split; [done|].
  cbn [fst on_sess sess hold]. rewrite Hd. unfold include_full_history. rewrite Hf. cbn -[log_or_report].
  destruct (last _); [|done]. by destruct (log_or_report _ _ _) as [b s] eqn:E; apply log_or_report_cases in E as (El & _); cbn in *; rewrite ?El.
Qed.

End Properties.
