(* ===== verification/SessionRuns.v ===== *)
(** Concrete sessions, logs and a run of the agent; the properties of sessions, of the log and of runs applied to them. *)

From stdpp Require Import gmap sets relations.
From S2P Require Import Runs ResumeFacts LogFacts AgentFacts.

#[local] Existing Instance simple_globset.
#[local] Existing Instance linux.
#[local] Existing Instance flat.

(** * A session *)

Definition good_io : Io := mkIo true true true true [].

Definition lost_io : Io := mkIo false false false true (str "disk full").

Definition demo_session : Session :=
  create (str "s1") 1 (str "/work/app") (str "m1") MDefault None demo.

Definition demo_message (i : text) (r : Role) (bs : list ContentBlock) : Message := mkMessage i r bs 2.

(** A message is saved, then a todo list is not. *)
Definition demo_saved : Session :=
  settle demo_session
    (sink_append good_io None (demo_message (str "u1") User [BText (str "hi")]) false 3 demo_session).

Definition demo_lost : Session := update_todos lost_io MAIN [mkTodoItem (str "a") [] TodoPending] demo_saved.

Lemma demo_reached : session_reached demo_lost.
Proof.
  exists demo_session. split; [apply StartCreate|]. apply (rtc_l _ _ demo_saved); [|apply rtc_once, StepTodos].
  apply StepAppend. unfold fresh. vm_compute. intros H. inversion H.
Defined.

Lemma session_mirrors_log_witness :
  agrees (live demo_lost) (mode (core demo_lost)) (replay (log (core demo_lost))) \/ told (core demo_lost).
Proof. exact (session_mirrors_log demo_lost demo_reached). Defined.

Lemma working_set_distinct_witness : NoDup (ids (live_working (live demo_lost))).
Proof. exact (proj1 (working_set_distinct demo_lost demo_reached)). Defined.

(** A log that ends in the middle of a turn, with a call, a question and an
    agent open. *)
Definition demo_agent : AgentInfo :=
  mkAgentInfo (str "a1") (Some MAIN) None (str "explore") [] (str "m1") false Shared None AgentRunning 1 4 None
    usage_default f64_zero 0 None None.

Definition demo_crash : list LogRecord :=
  [LSessionStarted SESSION_SCHEMA (str "s1") (str "/work/app") (str "m1") MDefault 1;
   LMessage (demo_message (str "u1") User [BText (str "hi")]) (Some (str "t1"));
   LTurnStarted (str "t1") (str "u1") 3;
   LAgentUpdated demo_agent;
   LQuestionAsked (str "q1") MAIN [];
   LMessage (demo_message (str "a1") Assistant [BToolUse (str "c1") (str "Read") (JText [])]) (Some (str "t1"))].

Definition demo_resume : result text Session :=
  resume (fun _ => good_io) (Ok tt) (str "fix", 9%N) 10 demo false 5 (str "m1") None demo_crash.

Lemma resume_closes_witness :
  exists s, demo_resume = Ok s /\ closed (replay (log (core s)))
    /\ length (log (core s)) = 10%nat.
Proof.
  destruct (resume_succeeds (fun _ => good_io) (Ok tt) (str "fix", 9%N) 10 demo false 5 (str "m1") None demo_crash
    (fun _ => eq_refl) eq_refl) as (s & H).
  exists s. pose proof (resume_closes _ _ _ _ _ _ _ _ _ _ s H) as (El & Hc & _).
  split; [exact H|]. split; [exact Hc|]. rewrite El. reflexivity.
Defined.

(** * A rewind *)

Definition demo_usage : Usage := mkUsage 10 20 0 0 0.

Definition demo_before : list LogRecord :=
  [LMessage (demo_message (str "u1") User [BText (str "hi")]) None; LUsage MAIN demo_usage f64_zero].

Definition demo_after : list LogRecord :=
  [LMessage (demo_message (str "a2") Assistant [BText (str "ok")]) None; LUsage MAIN demo_usage f64_zero].

Lemma rewind_restores_witness :
  let rewound := replay (demo_before ++ LMessage (demo_message (str "u2") User [BText (str "go")]) None
                           :: demo_after ++ [LRewound (str "u2") true false]) in
  transcript rewound = transcript (replay demo_before)
  /\ usage rewound = mkUsage 20 40 0 0 0.
Proof.
  destruct (rewind_restores demo_before demo_after (demo_message (str "u2") User [BText (str "go")]) None false)
    as [H1 H2].
  - reflexivity.
  - repeat constructor.
  - split.
    + exact (f_equal transcript H1).
    + exact H2.
Defined.

(** * A log *)

Definition is_note_char (c : N) : bool := is_ascii_lower c.

Definition note_body (bytes : list N) : option (list N) :=
  match trim_end_by (N.eqb NEWLINE) bytes with
  | b :: rest =>
      match reverse rest with
      | e :: body => if N.eqb b 123 && N.eqb e 125 && forallb is_note_char body then Some (reverse body) else None
      | [] => None
      end
  | [] => None
  end.

(** Notes of lower-case letters, in braces. *)
Definition note_serde : Serde := {|
  to_vec := fun r =>
    match r with LNote t => if forallb is_note_char t then Some (123%N :: t ++ [125%N]) else None | _ => None end;
  decode_record := fun b => match note_body b with Some t => DItem (LNote t) | None => DOther end;
  decode_value := fun b => match note_body b with Some t => DItem (JText t) | None => DOther end
|}.

#[local] Existing Instance note_serde.

Lemma demo_encodes : encodes (LNote (str "ab")).
Proof.
  constructor.
  - reflexivity.
  - unfold no_newline. vm_compute. intros H. repeat (inversion H as [|? ? ? H']; subst; clear H; rename H' into H).
  - exists 123%N, [97; 98; 125]%N. split; reflexivity.
  - split; reflexivity.
  - exists (JText (str "ab")). reflexivity.
  - intros k [Hk Hl]. change (k < 4)%nat in Hl. destruct k as [|[|[|[|k]]]]; [lia| | | |lia]; split; reflexivity.
Defined.

Definition cut_write (k : nat) : WriteIo := mkWriteIo true (Some k).
Definition full_write : WriteIo := mkWriteIo true None.
Definition fine_open : OpenIo := mkOpenIo true true true true.

(** A write cut short and retried, then a crash in the middle of a line. *)
Definition demo_uses : list LogUse :=
  [UseAppend (mkJournalIo (cut_write 2) fine_open full_write) (LNote (str "ab"));
   UseCrash (LNote (str "ab")) 3 fine_open;
   UseAppend (mkJournalIo full_write fine_open full_write) (LNote (str "ab"))].

Lemma log_keeps_acknowledged_witness :
  acknowledged (foldl use_log new_log demo_uses) = [LNote (str "ab"); LNote (str "ab")]
  /\ acknowledged (foldl use_log new_log demo_uses)
     `sublist_of` items (read_jsonl decode_record (bytes (file (foldl use_log new_log demo_uses)))).
Proof.
  split; [reflexivity|].
  assert (He : Forall encodes [LNote (str "ab")]) by (constructor; [exact demo_encodes|constructor]).
  assert (H : Forall (fun u => Forall encodes (wanted u)) demo_uses)
    by (constructor; [exact He|constructor; [exact He|constructor; [exact He|constructor]]]).
  exact (proj1 (log_keeps_acknowledged demo_uses H)).
Defined.

Lemma retry_stores_twice_witness :
  items (read_jsonl decode_record (bytes (file
    (use_log new_log (UseAppend (mkJournalIo (cut_write 4) fine_open full_write) (LNote (str "ab")))))))
  = [LNote (str "ab"); LNote (str "ab")].
Proof.
  refine (proj2 (retry_stores_twice (LNote (str "ab")) 4 fine_open demo_encodes eq_refl eq_refl eq_refl eq_refl _)).
  change (4 <= 4)%nat. lia.
Defined.

#[local] Existing Instance simple_globset.
#[local] Existing Instance linux.
#[local] Existing Instance flat.

#[local] Instance flat_text : JsonText := {|
  parse_json := fun t => Ok (JObject [(str "command", t)]);
  as_u64 := fun _ => None;
  empty_object := JObject []
|}.

Definition no_hooks : HookOutcome := mkHookOutcome None None [] None None.

(** The user steers during the sixth wait. *)
Definition demo_outside : Outside :=
  mkOutside (fun n s => if Nat.eqb n 5 then steer (str "hurry") s else s) (fun _ => good_io)
    (fun n => repeat 120%N (S n)) (fun n => N.of_nat n) (fun _ => false) (fun _ => no_hooks) (fun _ => None)
    (fun _ _ => Err []) (fun _ _ _ => None) (fun _ _ => None) (fun _ _ => None).

Definition demo_verify : VerifySettings := mkVerifySettings VReport [] 2 true (mkProjectProfile [] [] []) [].

Definition demo_around : Surroundings :=
  mkSurroundings None (str "/work") (str "/work") (str "linux") (str "2026-01-01") None [] None (str "You are an agent.")
    [] [] [] None None.

(** A call for a short history, and a text for a longer one. *)
Definition demo_answer (n : nat) (r : ModelRequest) : list (result LlmError ModelEvent) * bool :=
  (if Nat.leb (length (request_messages r)) 1 then
     [Ok (TextPiece (str "look")); Ok (ToolUseStart 0 (str "c1") (str "Bash")); Ok (ToolUseDelta 0 (str "ls"));
      Ok (ToolUseEnd 0); Ok (Stop ToolUse)]
   else [Ok (TextPiece (str "done")); Ok (Stop EndTurn)], false).

Definition demo_relief : Relief :=
  mkRelief 3 80 (fun ts => ts) (fun _ => None) (mkSideReply usage_default f64_zero (Err [])).

Definition demo_world : AgentWorld :=
  mkAgentWorld demo_outside (fun _ s => s) demo_verify (fun _ => demo_around) (fun _ => [demo_tool]) (fun _ => []) (mkToolFilter None [])
    (fun _ => mkOffer true true false false false None) (mkModelLimits None 4096 (fun _ => None) (fun _ => None))
    (str "s1") (fun _ _ => None) (fun _ => None) demo_answer (fun _ _ => []) (fun _ => false) (fun _ => demo_relief)
    (fun _ _ => demo_run) (fun _ => demo_env) (fun _ => mkAbsorbed usage_default f64_zero false) (fun _ => [])
    (fun _ _ => f64_zero) (fun _ _ => (str "fix", 0%N)) (fun _ _ => str "call") 10 f64_zero.

(** The turn has started with the user's message. *)
Definition demo_started : Session :=
  fst (start_turn good_io good_io (demo_message (str "u1") User [BText (str "hi")]) (str "t1") 3 3 demo_session).

Definition demo_here : Here := mkHere 0 demo_started.

Definition demo_result : Here * AgentRun * TurnOutcome :=
  match run_agent demo_world (str "t1") 11 false demo_here with
  | Some r => r
  | None => (demo_here, new_run false, TurnCancelled)
  end.

Definition demo_end : Here := fst (fst demo_result).
Definition demo_agent_run : AgentRun := snd (fst demo_result).
Definition demo_ending : TurnOutcome := snd demo_result.

Lemma demo_ran : run_agent demo_world (str "t1") 11 false demo_here = Some (demo_end, demo_agent_run, demo_ending).
Proof. vm_compute. reflexivity. Qed.

Lemma demo_apart : apart demo_world demo_here.
Proof.
  split; [|split; [|split]].
  - intros n s. cbn. apply adds_nothing. destruct (Nat.eqb n 5); [|done]. unfold steer. by destruct (is_empty _).
  - intros n s. by apply adds_nothing.
  - intros a b H. apply (f_equal (@length N)) in H. cbn in H. rewrite !repeat_length in H. by injection H.
  - intros n _. unfold SessionSteps.fresh. cbn. destruct n; vm_compute; intros H; inversion H; subst;
      match goal with H : _ ∈ [] |- _ => by apply not_elem_of_nil in H | _ => idtac end.
Qed.

Lemma demo_steady : steady demo_world.
Proof.
  split; intros n s; [|by split]. cbn. destruct (Nat.eqb n 5); [|constructor]. apply rtc_once, StepSteer.
Qed.

Lemma demo_started_reached : session_reached demo_started.
Proof.
  exists demo_session. split; [apply StartCreate|]. apply rtc_once, StepStart. unfold SessionSteps.fresh. vm_compute.
  intros H. inversion H.
Qed.

(** The run ends by itself, after two responses, a call and its result. *)
Example demo_outcome :
  demo_ending = TurnCompleted
  /\ map (fun m => (role m, length (content m))) (turn_messages (str "t1") (log (core (sess demo_end))))
     = [(User, 1%nat); (Assistant, 2%nat); (User, 3%nat); (Assistant, 1%nat)].
Proof. split; vm_compute; reflexivity. Qed.

Lemma run_pairs_calls_witness :
  exists rs, log (core (sess demo_end)) = log (core demo_started) ++ rs
    /\ length (turn_messages (str "t1") rs) = 3%nat
    /\ paired [] (turn_messages (str "t1") rs).
Proof.
  destruct (run_pairs_calls demo_world (str "t1") 11 false demo_here demo_end demo_agent_run demo_ending
    demo_apart demo_ran) as (rs & El & Hp).
  exists rs. split; [exact El|]. split.
  - apply (f_equal (drop (length (log (core demo_started))))) in El. rewrite drop_app_length in El.
    rewrite <- El. vm_compute. reflexivity.
  - destruct Hp as [Hp|(b & m & e & _ & _ & _ & _ & _ & Ho)]; [exact Hp|]. vm_compute in Ho. discriminate Ho.
Defined.

Lemma run_keeps_session_witness : session_reached (sess demo_end).
Proof.
  exact (proj1 (run_keeps_session demo_world (str "t1") 11 false demo_here demo_end demo_agent_run demo_ending
    demo_apart demo_steady demo_started_reached demo_ran)).
Defined.
